(* ===== verification/_CoqProject ===== *)
-Q . S2P
Prelude.v
Types.v
Net.v
Store.v
Routing.v
Vpp.v
DataPlane.v
VppSim.v
Validation.v
Health.v
Reconciler.v
ReconcilerSim.v
Manager.v
Lease.v
Status.v
Watcher.v
Cleanup.v
Agent.v
Operator.v
Frr.v
Yaml.v
Duration.v
Config.v
Models.v
Etcd.v
EtcdSafety.v
EtcdTx.v
V1State.v
V1Agent.v
V1Config.v
ControllerConfig.v
Sync.v
SyncClient.v
SyncSafety.v
Api.v
ApiSafety.v
Probers.v
V1Health.v
V1Frr.v
V1Routes.v
V1RoutesRuns.v
Mysql.v
MysqlTx.v
MysqlLogic.v
MysqlTables.v
MysqlSafety.v
MysqlWatch.v
MysqlRuns.v
MysqlClient.v
EtcdWatch.v
EtcdWatchSafety.v
EtcdWatchRuns.v
EtcdClient.v
Process.v
AgentMain.v
Mains.v
Lifecycle.v
Connection.v
V1Loop.v
