(* ===== verification/Prelude.v ===== *)
(** * arca-lb: a verification development of the load balancer's control logic

    ** The program

    arca-lb programs VPP load balancers from declarations of virtual IPs.  In its second
    version a virtual IP is a Kubernetes custom resource (api/v1alpha1).  An operator
    (internal/operator) keeps its finalizer and its Ready condition, and a webhook
    refuses invalid ones.  On every load balancer an agent (cmd/arcalb-agent) watches
    the resources, probes the backends, programs VPP over its binary API, announces the
    address through FRR, reports what it observes in the status, and coordinates
    disruptive updates with the other agents through leases.  The first version's
    controller keeps virtual IPs and backends in etcd or MySQL
    (internal/common/datastore).

    ** Files, in the order they depend on each other

    - Prelude: Go errors ([err], [errString]), machine integers ([wrapU], [wrapS]), the
      state monads, the class [MapOrder] (any order a Go map is ranged over in), generic
      lemmas and tactics.
    - Types (api/v1alpha1/types.go), Net (net.ParseIP, netip.ParseAddr, net.IP.String).
    - Store (internal/agent/store/store.go): the three buckets over bbolt, class [Bolt].
    - Routing (routing/interface.go, routing/noop.go, and routeCoordinator of
      reconciler/v2_reconciler.go): class [Router] with its laws, [NoopRouter],
      [RouteCoordinator].  Frr (routing/frr.go): the same interface on vtysh.
    - Vpp (dataplane/vpp.go) over the four binary-API calls, class [VPPConn]; DataPlane
      (dataplane/interface.go, noop.go): class [DataPlane], its laws and two instances;
      VppSim: a reference VPP that satisfies the laws.
    - Validation (internal/virtualip/validation, models/encap.go and the header rules of
      models/health_check_validation.go).
    - Health (internal/agent/healthcheck, v2 engine): state, hysteresis, persistence,
      and schedulers, workers and result loop as the step relation [estep].
    - Reconciler (vipReconciler of v2_reconciler.go) over the interfaces above;
      ReconcilerSim: concrete runs.  Manager (Manager of the same file): the registry of
      reconcilers, its goroutines as the step relation [mstep].
    - Lease (rollout/lease.go): any number of agents against one API server ([lstep]).
    - Status (status/updater.go), Watcher (watcher/watcher.go, with the gate's two
      threads interleaved), Cleanup and Agent (cmd/arcalb-agent/main.go), Operator
      (internal/operator/controller, internal/operator/webhook).
    - Yaml (common/yamlutil), Duration (time.ParseDuration), Config
      (agent/config/v2_config.go, models/agent_validation.go).
    - Models (models/vip.go, backend.go, health_check.go, health_check_validation.go,
      datastore/validation.go, errors.go), Etcd (datastore/etcd: client, index,
      revision, vip and backend.go) as trees of etcd calls, EtcdSafety (any number of
      clients), EtcdTx (datastore/etcd/transaction.go).
    - V1State (agent/state/manager.go) and V1Agent (agent/vpp/lb.go, sync.go and
      agent/reconciler/reconciler.go): what the version 1 agent wants and how one pass
      brings VPP there.  V1Config (agent/config/config.go) and ControllerConfig
      (controller/config, datastore/factory.go): the two configurations.
    - Sync (controller/grpc, controller/auth), SyncClient (agent/grpc): the messages,
      the service and its client, class [Peer]; SyncSafety: what crosses the wire.
    - Api (controller/api): bodies, bindings, handlers, middleware; ApiSafety.
    - Probers (agent/healthcheck: the probes of both versions over the class [Network]).
      V1Health (state.go, job.go, worker.go, manager.go, callback.go): tracker, manager,
      and its goroutines as the step relation [step].  V1Frr (agent/frr), over the same
      vtysh as Frr; V1Routes: health checker, callback and route manager composed;
      V1RoutesRuns: their concrete runs.
    - Mysql (datastore/mysql: vip, backend, revision, config and errors.go): the tables,
      the statements as an inductive type, the operations as trees of statements.
      MysqlTx (transaction.go, watch.go).  MysqlLogic: the laws of the server and of its
      transactions, any number of clients as the step relation [sstep], and a
      rely/guarantee logic of programs ([wp]); MysqlTables: what each statement does to
      the tables; MysqlSafety and MysqlWatch: the theorems; MysqlRuns: a server in memory
      and concrete runs.  MysqlClient (migration.go, client.go): migrations, settings.
    - EtcdWatch (datastore/etcd/watch.go), composed with the etcd store and any number of
      its clients; EtcdWatchSafety, and EtcdWatchRuns: concrete runs.  EtcdClient
      (client.go): the settings of the connection and the first keys.
    - Process: a process as a tree of calls, with a weakest precondition ([wp]) over every
      answer.  AgentMain (cmd/arcalb-agent/main.go, watcher.go's process, pkg/otel): the
      agent's goroutines interleaved.  Mains (cmd/arcalb-controller, cmd/operator,
      controller/api and controller/grpc server.go): the other two processes.
    - Lifecycle: the version 1 agent's pattern of starting and stopping a loop, for any
      number of callers, and a rule for the part's own state.  Connection
      (agent/vpp/connection.go) and V1Loop (the loop of agent/reconciler/reconciler.go)
      are instances.

    Operations are state passing over the component's record; a Go error is a value;
    external libraries and services (bbolt, VPP, vtysh, the Kubernetes API, etcd, JSON,
    YAML, httpguts) are classes of operations whose documented behaviour is a class of
    laws, and every class of laws has an instance in an Examples module, on which the
    witnesses run.

    ** What the theorems show

    - Reconciling one virtual IP (Reconciler): a route is served only with a data plane
      behind it, drains are released on every exit, the reported status is true, intents
      are written ahead and recovered after a restart, deletion is complete or retried,
      and everything returns.
    - The agent as a whole: only valid resources are reconciled (Agent), the manager
      implements the map of wanted virtual IPs with one owner each (Manager), the event
      gate loses nothing (Watcher), the clean-up at start removes exactly what is stale
      (Cleanup), a configuration that loads is well formed (Config).
    - Rollouts (Lease): mutual exclusion between agents within the clock skew and inside
      a process, and progress.
    - Routes (Routing, Frr): the coordinator agrees with the router, converges, and a
      drain blocks announcements; FRR's table is what was announced.
    - Data plane (Vpp): applying and recreating leave VPP with the healthy backends.
    - Health checks (Health): hysteresis, no result of replaced settings counts, restart.
    - Status and operator: aggregates are true and bounded, bitmaps round trip, what the
      operator writes and what the webhook admits.
    - Validation: exact characterisations, and what VPP can be given.
    - The etcd store: consistent under any interleaving of clients and failures
      (EtcdSafety), transactions all or nothing and compaction harmless (EtcdTx).
    - The MySQL store: the tables stay consistent under any number of clients
      ([mysql_consistent]), every change of a virtual IP or its backends is in the change
      log ([changes_logged]), and the watch delivers that log ([watch_delivers]);
      migrations are applied once each, in order ([applyMigrations_done]).
    - The etcd watch delivers every change of a kind once, in its order
      ([etcd_watch_delivers]).
    - Processes: in every interleaving the agent is ready only after its clean-up and
      closes its parts in the reverse order ([agent_lifecycle]); the controller stops the
      servers it has before it closes its store ([controller_ends]); the operator starts
      its manager complete ([runOperator_ends]).
    - Version 1 loops: one runs at most, whoever starts and stops them ([lifecycle]); the
      VPP connection in use is open and none is lost but to an attempt that was given up
      ([connection_managed]); a changed configuration is noticed ([loop_notices]).
    - Version 1: one pass programs what is wanted or keeps it for the next one (V1Agent);
      a configuration arrives at the agent as the store has it, and open addresses
      authenticate (SyncSafety); the REST API writes only what the store admits
      (ApiSafety); a route stands exactly while a backend is up, and both versions judge
      probes alike (V1Routes); a probe contacts only the address of its backend (Probers).
    Behaviour that deserves attention is proved on concrete runs in the Examples modules.

    ** Bounds and fuel

    [RouteCoordinator.reconcileRoute] loops until no change came in: one pass is enough
    when announcements are shorter than the verification interval, which
    [reconcile_terminates] shows.  Epochs and counters are machine words; where a
    theorem needs them not to wrap it says so.  The parsers' fuel is the length of the
    input.  A loop of the etcd store ends with the deadline of its request: the number
    of its rounds is a parameter, and the theorems hold for every number.

    ** What the models of the servers assume

    An etcd transaction is one step.  A MySQL transaction has the tables to itself from
    its begin to its end ([sstep]): InnoDB's isolation comes to that here, where every
    transaction locks the rows it decides on and, from its revision to its commit, the
    one row of system_metadata.  A statement outside a transaction, or a commit, whose
    answer is lost has been done or not.

    ** Not modelled

    Log lines and metrics, with their registry and server; the handler that runs the
    version 1 agent's shutdown functions; the insides of the libraries (the exporters, the informer, net/http,
    grpc-go, controller-runtime), which are calls with any answer; generated code; test
    suites and mocks.

    ** This file

    Shared notations, monads, tactics and generic lemmas. *)

From stdpp Require Import base tactics list gmap strings pretty numbers.

Set Default Proof Using "Type".

(** ** Go errors

    An [error] of the source is an interface value: [nil] is [None].  The
    constructors are the error values the modelled code distinguishes:
    formatted errors, errors wrapped by [fmt.Errorf("...%w...")], the
    Kubernetes API errors tested with [apierrors.IsNotFound] and friends, the
    context error, and the typed [*dataplane.VIPRecreateError]. *)
Inductive VIPRecreateStage := StageDelete | StageAdd | StageBackends.

Inductive err :=
  | ErrMsg (msg : string)
  | ErrWrap (prefix : string) (e : err) (suffix : string)
  | ErrNotFound (msg : string)
  | ErrAlreadyExists (msg : string)
  | ErrConflict (msg : string)
  | ErrContext (msg : string)
  | VIPRecreateError (Stage : VIPRecreateStage) (RouteSafeToRestore : bool) (e : err).

Abbreviation error := (option err).

(** [fmt.Errorf("<prefix>%w", e)] *)
Definition errorf (prefix : string) (e : err) : err := ErrWrap prefix e "".

(** [err.Error()]: the message of an error.  The messages of API and context
    errors are the ones their values carry. *)
Definition stageString (s : VIPRecreateStage) : string :=
  match s with StageDelete => "delete" | StageAdd => "add" | StageBackends => "backends" end.

Fixpoint errString (e : err) : string :=
  match e with
  | ErrMsg msg | ErrNotFound msg | ErrAlreadyExists msg | ErrConflict msg | ErrContext msg => msg
  | ErrWrap prefix e suffix => prefix +:+ errString e +:+ suffix
  | VIPRecreateError stage _ e => "VIP recreate " +:+ stageString stage +:+ " failed: " +:+ errString e
  end.

(** [%q]: the string between double quotes (character 34).  What [strconv.Quote]
    escapes, only ever in a message, is left as it is. *)
Definition quoted (s : string) : string :=
  let q := String.String (Ascii.ascii_of_nat 34) "" in q +:+ s +:+ q.

(** ** Machine integers *)

(** [uint<w>(z)] and the two's-complement reading of the low [w] bits. *)
Definition wrapU (w z : Z) : Z := (z `mod` 2 ^ w)%Z.
Definition wrapS (w z : Z) : Z := ((z + 2 ^ (w - 1)) `mod` 2 ^ w - 2 ^ (w - 1))%Z.

Lemma wrapU_range w z : (0 <= w -> 0 <= wrapU w z < 2 ^ w)%Z.
Proof. intros Hw. unfold wrapU. apply Z.mod_pos_bound. by apply Z.pow_pos_nonneg. Qed.

Lemma wrapU_small w z : (0 <= z < 2 ^ w -> wrapU w z = z)%Z.
Proof. intros. unfold wrapU. by apply Z.mod_small. Qed.

Lemma wrapS_small w z :
  (0 < w -> - 2 ^ (w - 1) <= z < 2 ^ (w - 1) -> wrapS w z = z)%Z.
Proof.
  intros Hw Hz. unfold wrapS.
  assert (2 ^ w = 2 * 2 ^ (w - 1))%Z as E.
  { rewrite <- Z.pow_succ_r by lia. f_equal. lia. }
  rewrite Z.mod_small; lia.
Qed.

Lemma wrapS_range w z : (0 < w)%Z → (- 2 ^ (w - 1) <= wrapS w z < 2 ^ (w - 1))%Z.
Proof.
  intros Hw. unfold wrapS. pose proof (Z.mod_pos_bound (z + 2 ^ (w - 1)) (2 ^ w) ltac:(apply Z.pow_pos_nonneg; lia)).
  assert (2 ^ w = 2 * 2 ^ (w - 1))%Z; [|lia]. rewrite <- Z.pow_succ_r by lia. f_equal. lia.
Qed.

(** ** Two monads

    [ST S] is total state passing.  [PG S] is state passing that may run out
    of the fuel given to a loop: [None] is "no result within the fuel", never
    an error of the program. *)
Definition ST (S A : Type) : Type := S → A * S.
Definition PG (S A : Type) : Type := S → option (A * S).

#[export] Instance ST_ret S : MRet (ST S) := λ A a s, (a, s).
#[export] Instance ST_bind S : MBind (ST S) := λ A B k m s, let '(a, s') := m s in k a s'.
#[export] Instance PG_ret S : MRet (PG S) := λ A a s, Some (a, s).
#[export] Instance PG_bind S : MBind (PG S) := λ A B k m s,
  match m s with Some (a, s') => k a s' | None => None end.

Definition get {S} : ST S S := λ s, (s, s).
Definition put {S} (s : S) : ST S unit := λ _, (tt, s).
Definition modify {S} (f : S → S) : ST S unit := λ s, (tt, f s).

(** A total computation inside a loop-carrying one. *)
Definition total {S A} (m : ST S A) : PG S A := λ s, Some (m s).

(** A computation on one component of a pair of states. *)
Definition on_fst {S T A} (m : ST S A) : ST (S * T) A :=
  λ '(s, t), let '(a, s') := m s in (a, (s', t)).
Definition on_snd {S T A} (m : ST T A) : ST (S * T) A :=
  λ '(s, t), let '(a, t') := m t in (a, (s, t')).
Definition pg_snd {S T A} (m : PG T A) : PG (S * T) A :=
  λ '(s, t), match m t with Some (a, t') => Some (a, (s, t')) | None => None end.

(** Running a sequence, and what a result says of its first step. *)
Lemma bind_Some_inv {S A B} (m : PG S A) (k : A → PG S B) s b s' :
  (x ← m; k x) s = Some (b, s') → ∃ a s1, m s = Some (a, s1) ∧ k a s1 = Some (b, s').
Proof. unfold mbind, PG_bind. destruct (m s) as [[a s1]|]; [eauto|done]. Qed.

Lemma ret_Some_inv {S A} (a b : A) (s s' : S) : (mret a : PG S A) s = Some (b, s') → a = b ∧ s = s'.
Proof. by intros [= -> ->]. Qed.

(** A computation that always has a result. *)
Definition returns {S A} (m : PG S A) : Prop := ∀ s, ∃ a s', m s = Some (a, s').

Lemma returns_ret {S A} (a : A) : returns (mret a : PG S A).
Proof. intros s. by eexists _, _. Qed.
Lemma returns_bind {S A B} (m : PG S A) (k : A → PG S B) :
  returns m → (∀ a, returns (k a)) → returns (x ← m; k x).
Proof.
  intros Hm Hk s. destruct (Hm s) as (a & s1 & Hs). destruct (Hk a s1) as (b & s2 & Hb).
  exists b, s2. unfold mbind, PG_bind. by rewrite Hs.
Qed.

(** A computation that leaves a part of the state alone. *)
Definition keeps {S A X} (f : S → X) (m : PG S A) : Prop :=
  ∀ s a s', m s = Some (a, s') → f s' = f s.

Lemma keeps_ret {S A X} (f : S → X) (a : A) : keeps f (mret a : PG S A).
Proof. by intros s b s' [= _ <-]. Qed.
Lemma keeps_bind {S A B X} (f : S → X) (m : PG S A) (k : A → PG S B) :
  keeps f m → (∀ a, keeps f (k a)) → keeps f (x ← m; k x).
Proof.
  intros Hm Hk s b s' (a & s1 & H1 & H2)%bind_Some_inv.
  by rewrite (Hk _ _ _ _ H2), (Hm _ _ _ H1).
Qed.

(** ** Map iteration

    Go iterates over a map in an unspecified order, which may differ from one
    loop to the next: [mapRange] gives the order of one loop, as a permutation
    of the entries. *)
Class MapOrder (E : Type) := {
  mapRange : ∀ {V : Type}, E → gmap string V → list (string * V);
  mapRange_perm : ∀ V (e : E) (m : gmap string V), mapRange e m ≡ₚ map_to_list m;
}.

Lemma mapRange_lookup {E} `{MapOrder E} {V} (e : E) (m : gmap string V) k v :
  (k, v) ∈ mapRange e m ↔ m !! k = Some v.
Proof. rewrite mapRange_perm. apply elem_of_map_to_list. Qed.

Lemma mapRange_NoDup {E} `{MapOrder E} {V} (e : E) (m : gmap string V) :
  NoDup (mapRange e m).*1.
Proof. rewrite mapRange_perm. apply NoDup_fst_map_to_list. Qed.

(** ** Tactics *)

(** Unfold the monads of the development. *)
Ltac unfold_monad :=
  cbv [mbind mret ST_bind ST_ret PG_bind PG_ret get put modify total
       on_fst on_snd pg_snd] in *.

(** Split every [match]/[if] in the goal or the context, keeping equations. *)
Ltac split_matches :=
  repeat (case_match; simplify_eq/=).

(** Destruct the innermost scrutinee of a hypothesis. *)
Ltac destruct_match_in H :=
  match type of H with
  | context [match ?x with _ => _ end] =>
      lazymatch x with
      | context [match _ with _ => _ end] => fail
      | _ => destruct x eqn:?; simplify_eq/=
      end
  end.

(** [step H as r w Hr]: split a run [H] of a sequence at its first step. *)
Tactic Notation "step" hyp(H) "as" ident(r) ident(w) ident(Hr) :=
  let H' := fresh "Hrest" in
  destruct (bind_Some_inv _ _ _ _ _ H) as (r & w & Hr & H'); clear H; rename H' into H.
Ltac step_ret H := apply ret_Some_inv in H as [? ?]; simplify_eq/=.

(** ** Booleans and maps *)

Create HintDb arca.
#[export] Hint Resolve returns_ret returns_bind : arca.

Lemma bool_decide_ne_true {A} `{EqDecision A} (x y : A) :
  bool_decide (x ≠ y) = negb (bool_decide (x = y)).
Proof. by repeat case_bool_decide. Qed.

(** Go's [for _, b := range m { if b { return true } }] over a map of bools. *)
Definition any_true (m : gmap string bool) : bool :=
  existsb snd (map_to_list m).

Lemma any_true_spec (m : gmap string bool) :
  any_true m = true ↔ ∃ k, m !! k = Some true.
Proof.
  unfold any_true. rewrite existsb_exists. split.
  - intros ([k b] & Hin & Hb). simpl in Hb. subst b.
    exists k. apply elem_of_map_to_list. by apply list_elem_of_In.
  - intros [k Hk]. exists (k, true). split; [|done].
    apply list_elem_of_In. by apply elem_of_map_to_list.
Qed.

Lemma any_true_false (m : gmap string bool) :
  any_true m = false ↔ ∀ k b, m !! k = Some b → b = false.
Proof.
  rewrite <- not_true_iff_false, any_true_spec. split.
  - intros H k b Hk. destruct b; [|done]. exfalso. eauto.
  - intros H [k Hk]. specialize (H _ _ Hk). done.
Qed.
