(* ===== verification/Types.v ===== *)
(** * The VirtualIP custom resource (api/v1alpha1/types.go)

    The data every component of the agent exchanges: the VirtualIP spec and
    status, with the Kubernetes metadata the code reads.  String types of the
    source ([Protocol], [EncapType], [HCType], condition statuses) stay
    strings, since the code receives arbitrary values in them.  A [time.Time]
    is a number of nanoseconds, and the zero time is [None]. *)

From stdpp Require Import base tactics list gmap strings.
From S2P Require Import Prelude.

(** ** Constants *)
Definition ProtocolTCP : string := "TCP".
Definition ProtocolUDP : string := "UDP".
Definition EncapTypeGRE4 : string := "GRE4".
Definition EncapTypeGRE6 : string := "GRE6".
Definition EncapTypeL3DSR : string := "L3DSR".
Definition EncapTypeNAT4 : string := "NAT4".
Definition EncapTypeNAT6 : string := "NAT6".
Definition HCTypeHTTP : string := "http".
Definition HCTypeHTTPS : string := "https".
Definition HCTypeTCP : string := "tcp".
Definition HCTypePing : string := "ping".
Definition HCTypeTLSHello : string := "tls-hello".
Definition DefaultBackendWeight : Z := 1.
Definition MaxVirtualIPStatusBackends : nat := 1024.
Definition MaxVirtualIPStatusAgentStatuses : nat := 256.

Definition Millisecond : Z := 1000000.
Definition Second : Z := 1000000000.
Definition Minute : Z := 60 * Second.
Definition Hour : Z := 60 * Minute.

(** ** Spec *)
Record BackendSpec := {
  be_Address : string;
  be_MonitorAddress : string;
  be_Weight : Z;
}.

Record HTTPHealthCheck := {
  http_Port : Z;
  http_Path : string;
  http_Method : string;
  http_Host : string;
  http_Headers : gmap string string;
  http_ExpectedCodes : list Z;
  http_SkipTLSVerify : bool;
}.

Record TCPHealthCheck := {
  tcp_Port : Z;
  tcp_Send : string;
  tcp_ExpectedResponse : string;
}.

Record HealthCheckSpec := {
  hc_Type : string;
  hc_IntervalSeconds : Z;
  hc_TimeoutSeconds : Z;
  hc_RiseCount : Z;
  hc_FallCount : Z;
  hc_HTTP : option HTTPHealthCheck;
  hc_TCP : option TCPHealthCheck;
}.

Record VirtualIPSpec := {
  spec_Address : string;
  spec_Port : Z;
  spec_Protocol : string;
  spec_EncapType : string;
  spec_DSCP : option Z;
  spec_Backends : list BackendSpec;
  spec_HealthCheck : option HealthCheckSpec;
}.

(** ** Status *)
Record BackendStatus := {
  bs_Address : string;
  bs_Healthy : bool;
  bs_LastProbeTime : option Z;
  bs_Message : string;
}.

(** [metav1.Condition] *)
Record Condition := {
  cond_Type : string;
  cond_Status : string;
  cond_ObservedGeneration : Z;
  cond_LastTransitionTime : option Z;
  cond_Reason : string;
  cond_Message : string;
}.

Definition ConditionTrue : string := "True".
Definition ConditionFalse : string := "False".
Definition ConditionUnknown : string := "Unknown".

(** The types of condition agents write (internal/agent/status/updater.go). *)
Definition ConditionHealthCheckReady : string := "HealthCheckReady".
Definition ConditionServing : string := "Serving".
Definition ConditionRouteAdvertised : string := "RouteAdvertised".
Definition ConditionDataPlaneReady : string := "DataPlaneReady".

Record AgentStatus := {
  as_AgentID : string;
  as_ObservedGeneration : Z;
  as_HealthyBackends : Z;
  as_TotalBackends : Z;
  as_Backends : list BackendStatus;
  as_HealthyBackendBitmap : string;
  as_Conditions : list Condition;
  as_LastUpdateTime : option Z;
  as_TTLSeconds : Z;
}.

Record VirtualIPStatus := {
  st_ObservedGeneration : Z;
  st_HealthyBackends : Z;
  st_TotalBackends : Z;
  st_Backends : list BackendStatus;
  st_AgentStatuses : list AgentStatus;
  st_Conditions : list Condition;
}.

(** A VirtualIP with the metadata the agent reads. *)
Record VirtualIP := {
  vip_Namespace : string;
  vip_Name : string;
  vip_UID : string;
  vip_Generation : Z;
  vip_DeletionTimestamp : option Z;
  vip_Spec : VirtualIPSpec;
  vip_Status : VirtualIPStatus;
}.

#[export] Instance BackendSpec_eq_dec : EqDecision BackendSpec.
Proof. solve_decision. Defined.
#[export] Instance HTTPHealthCheck_eq_dec : EqDecision HTTPHealthCheck.
Proof. solve_decision. Defined.
#[export] Instance TCPHealthCheck_eq_dec : EqDecision TCPHealthCheck.
Proof. solve_decision. Defined.
#[export] Instance HealthCheckSpec_eq_dec : EqDecision HealthCheckSpec.
Proof. solve_decision. Defined.
#[export] Instance VirtualIPSpec_eq_dec : EqDecision VirtualIPSpec.
Proof. solve_decision. Defined.
#[export] Instance BackendStatus_eq_dec : EqDecision BackendStatus.
Proof. solve_decision. Defined.
#[export] Instance Condition_eq_dec : EqDecision Condition.
Proof. solve_decision. Defined.
#[export] Instance AgentStatus_eq_dec : EqDecision AgentStatus.
Proof. solve_decision. Defined.
#[export] Instance VirtualIPStatus_eq_dec : EqDecision VirtualIPStatus.
Proof. solve_decision. Defined.
#[export] Instance VirtualIP_eq_dec : EqDecision VirtualIP.
Proof. solve_decision. Defined.
#[export] Instance stage_eq_dec : EqDecision VIPRecreateStage.
Proof. solve_decision. Defined.

(** A value of every type, for examples and witnesses. *)
Definition empty_status : VirtualIPStatus :=
  {| st_ObservedGeneration := 0; st_HealthyBackends := 0; st_TotalBackends := 0;
     st_Backends := []; st_AgentStatuses := []; st_Conditions := [] |}.

(** [vip.Namespace + "/" + vip.Name]: the key used by the reconciler manager
    and the data planes. *)
Definition namespacedKey (vip : VirtualIP) : string :=
  vip_Namespace vip +:+ "/" +:+ vip_Name vip.
