(* ===== verification/Net.v ===== *)
(** * IP addresses as the Go standard library reads and writes them

    [netip.ParseAddr] and [net.ParseIP] decide which address strings the
    program accepts, and [net.IP.String] is what the data plane compares them
    with.  Both are written out here: dotted IPv4, and IPv6 with one [::], an
    embedded IPv4 tail and a zone. *)

From Stdlib Require Import Ascii.
From stdpp Require Import base tactics list gmap strings pretty.
From S2P Require Import Prelude.

(** Bytes of a string, as numbers. *)
Definition code (c : ascii) : Z := Z.of_N (N_of_ascii c).
Definition bytes_of (s : string) : list Z := code <$> String.list_ascii_of_string s.
(** [strings.Split(s, sep)] for a separator of one byte. *)
Fixpoint splitOn (sep : Z) (s : list Z) : list (list Z) :=
  match s with
  | [] => [[]]
  | c :: s =>
      match splitOn sep s with
      | l :: ls => if (c =? sep)%Z then [] :: l :: ls else (c :: l) :: ls
      | [] => []
      end
  end.

Definition cDot : Z := 46.
Definition cColon : Z := 58.
Definition cPercent : Z := 37.

Definition is_digit (c : Z) : bool := ((48 <=? c) && (c <=? 57))%Z.

Definition hex_value (c : Z) : option Z :=
  if is_digit c then Some (c - 48)%Z
  else if ((97 <=? c) && (c <=? 102))%Z then Some (c - 87)%Z
  else if ((65 <=? c) && (c <=? 70))%Z then Some (c - 55)%Z
  else None.

(** [netip.Addr]: 4 bytes, or 16 bytes with a zone. *)
Inductive Addr :=
  | Addr4 (b : list Z)
  | Addr6 (b : list Z) (zone : list Z).

Definition Is4 (a : Addr) : bool := match a with Addr4 _ => true | Addr6 _ _ => false end.

(** [parseIPv4Fields]: [val] and [digLen] are the value and the number of
    digits of the current octet; an octet without digits is refused. *)
Fixpoint parseIPv4Fields (s : list Z) (val : Z) (digLen : nat) (fields : list Z)
    : option (list Z) :=
  match s with
  | [] =>
      if (length fields <? 3)%nat then None
      else match digLen with O => None | S _ => Some (fields ++ [val]) end
  | ch :: s' =>
      if is_digit ch then
        if (digLen =? 1)%nat && (val =? 0)%Z then None
        else
          let val' := (val * 10 + (ch - 48))%Z in
          if (255 <? val')%Z then None else parseIPv4Fields s' val' (S digLen) fields
      else if (ch =? cDot)%Z then
        match digLen with
        | O => None
        | S _ => if (length fields =? 3)%nat then None else parseIPv4Fields s' 0 0 (fields ++ [val])
        end
      else None
  end.

Definition parseIPv4 (s : list Z) : option Addr := Addr4 <$> parseIPv4Fields s 0 0 [].

(** The hex digits a group starts with: value, digits read and the rest;
    [None] for a fifth digit. *)
Fixpoint hexGroup (s : list Z) (off : nat) (acc : Z) : option (Z * nat * list Z) :=
  match s with
  | ch :: s' =>
      match hex_value ch with
      | Some d => if (3 <? off)%nat then None else hexGroup s' (S off) (acc * 16 + d)%Z
      | None => Some (acc, off, s)
      end
  | [] => Some (acc, off, [])
  end.

(** The loop of [parseIPv6]: [ip] holds the bytes read, [ell] the position of
    the ellipsis.  Eight groups bound the iterations. *)
Fixpoint parseIPv6Groups (fuel : nat) (s ip : list Z) (ell : option nat)
    : option (list Z * option nat * list Z) :=
  match fuel with
  | O => Some (ip, ell, s)
  | S fuel =>
      match hexGroup s 0 0 with
      | None | Some (_, O, _) => None
      | Some (acc, S _, rest) =>
          if (match rest with ch :: _ => (ch =? cDot)%Z | [] => false end) then
            if (match ell with None => negb (length ip =? 12)%nat | Some _ => false end)
               || (16 <? length ip + 4)%nat then None
            else
              match parseIPv4Fields s 0 0 [] with
              | Some fields => Some (ip ++ fields, ell, [])
              | None => None
              end
          else
            let ip' := ip ++ [Z.shiftr acc 8; Z.land acc 255] in
            match rest with
            | [] => Some (ip', ell, [])
            | ch :: rest1 =>
                if negb (ch =? cColon)%Z then None
                else
                  match rest1 with
                  | [] => None
                  | ch2 :: rest2 =>
                      if (ch2 =? cColon)%Z then
                        match ell with
                        | Some _ => None
                        | None =>
                            match rest2 with
                            | [] => Some (ip', Some (length ip'), [])
                            | _ => parseIPv6Groups fuel rest2 ip' (Some (length ip'))
                            end
                        end
                      else parseIPv6Groups fuel rest1 ip' ell
                  end
            end
      end
  end.

(** [strings.IndexByte(s, '%')] splits off the zone. *)
Fixpoint splitZone (s : list Z) : list Z * option (list Z) :=
  match s with
  | [] => ([], None)
  | ch :: s' =>
      if (ch =? cPercent)%Z then ([], Some s')
      else let '(a, z) := splitZone s' in (ch :: a, z)
  end.

Definition parseIPv6 (input : list Z) : option Addr :=
  let '(s, zone) := splitZone input in
  match zone with
  | Some [] => None
  | _ =>
      let z := default [] zone in
      let '(ell, s1) :=
        match s with
        | c1 :: c2 :: s' => if ((c1 =? cColon) && (c2 =? cColon))%Z then (Some 0%nat, s') else (None, s)
        | _ => (None, s)
        end in
      match ell, s1 with
      | Some _, [] => Some (Addr6 (replicate 16 0%Z) z)
      | _, _ =>
          match parseIPv6Groups 8 s1 [] ell with
          | Some (ip, ell', []) =>
              if (length ip <? 16)%nat then
                match ell' with
                | None => None
                | Some p => Some (Addr6 (take p ip ++ replicate (16 - length ip) 0%Z ++ drop p ip) z)
                end
              else match ell' with Some _ => None | None => Some (Addr6 ip z) end
          | _ => None
          end
      end
  end.

(** [netip.ParseAddr] picks the grammar by the first of [.], [:] and [%]. *)
Fixpoint parseAddrFrom (s all : list Z) : option Addr :=
  match s with
  | [] => None
  | ch :: s' =>
      if (ch =? cDot)%Z then parseIPv4 all
      else if (ch =? cColon)%Z then parseIPv6 all
      else if (ch =? cPercent)%Z then None
      else parseAddrFrom s' all
  end.
Definition ParseAddr (s : string) : option Addr := parseAddrFrom (bytes_of s) (bytes_of s).

(** [net.ParseIP]: 16 bytes, an IPv4 address in its mapped form; no zones. *)
Definition v4Prefix : list Z := replicate 10 0%Z ++ [255; 255]%Z.
Definition ParseIP (s : string) : option (list Z) :=
  match ParseAddr s with
  | Some (Addr4 b) => Some (v4Prefix ++ b)
  | Some (Addr6 b []) => Some b
  | _ => None
  end.

(** [net.IP.To4] on 16 bytes. *)
Definition To4 (ip : list Z) : option (list Z) :=
  if decide (take 12 ip = v4Prefix) then Some (drop 12 ip) else None.

(** ** Printing *)
Definition ip4String (b : list Z) : string :=
  match b with
  | [a; b; c; d] => pretty a +:+ "." +:+ pretty b +:+ "." +:+ pretty c +:+ "." +:+ pretty d
  | _ => "?"
  end.

Definition hexDigit (n : Z) : string :=
  default "" (String.get (Z.to_nat n) "0123456789abcdef" ≫= λ c, Some (String c "")).

(** [appendHex]: no leading zeros. *)
Definition hexString (x : Z) : string :=
  (if (4096 <=? x)%Z then hexDigit (Z.shiftr x 12) else "") +:+
  (if (256 <=? x)%Z then hexDigit (Z.land (Z.shiftr x 8) 15) else "") +:+
  (if (16 <=? x)%Z then hexDigit (Z.land (Z.shiftr x 4) 15) else "") +:+
  hexDigit (Z.land x 15).

Fixpoint groups (b : list Z) : list Z :=
  match b with
  | hi :: lo :: b' => (hi * 256 + lo)%Z :: groups b'
  | _ => []
  end.

Fixpoint zeroRun (g : list Z) : nat :=
  match g with
  | x :: g' => if (x =? 0)%Z then S (zeroRun g') else O
  | [] => O
  end.

(** The leftmost longest run of at least two zero groups: start and length. *)
Fixpoint bestRun (g : list Z) (i : nat) (best : nat * nat) : nat * nat :=
  match g with
  | [] => best
  | _ :: g' =>
      let l := zeroRun g in
      bestRun g' (S i) (if (2 <=? l)%nat && (best.2 <? l)%nat then (i, l) else best)
  end.

Fixpoint joinColon (g : list string) : string :=
  match g with [] => "" | [x] => x | x :: g' => x +:+ ":" +:+ joinColon g' end.

Definition ip6String (b : list Z) : string :=
  let g := groups b in
  let '(zs, zl) := bestRun g 0 (0, 0)%nat in
  if (zl =? 0)%nat then joinColon (hexString <$> g)
  else joinColon (hexString <$> take zs g) +:+ "::" +:+
       joinColon (hexString <$> drop (zs + zl) g).

(** [net.IP.String] on 16 bytes. *)
Definition IPString (ip : list Z) : string :=
  match To4 ip with Some b => ip4String b | None => ip6String ip end.

(** An address string the program prints back unchanged. *)
Definition canonical (s : string) : Prop := ∃ ip, ParseIP s = Some ip ∧ IPString ip = s.
