(* ===== verification/Store.v ===== *)
(** * The agent's local store (internal/agent/store/store.go)

    The bbolt database holds three buckets, created when it is opened: the
    health records, the last applied configurations and the pending ones.
    bbolt is the class [Bolt], whose laws [BoltLaws] are those of its
    documentation: a read-write transaction commits all it did or nothing.
    JSON encoding is the class [Codec]. *)

From Stdlib Require Import Ascii.
From stdpp Require Import base tactics list gmap strings sorting.
From S2P Require Import Prelude Types.

(** [json.Marshal] and [json.Unmarshal] at one type. *)
Class Codec (A : Type) := {
  marshal : A → err + string;
  unmarshal : string → err + A;
}.
Class CodecLaws (A : Type) `{Codec A} : Prop :=
  unmarshal_marshal : ∀ (a : A) s, marshal a = inr s → s ≠ "" ∧ unmarshal s = inr a.

Module Store.

Abbreviation bucket := (gmap string string).
Record DB := { hc_state : bucket; last_config : bucket; pending_config : bucket }.

(** bbolt: [db.Update], [db.View], the keys and values [Put] refuses, and the
    keys a cursor returns from [Seek(prefix)] on while the loop deletes them.
    The result a [View] closure captures starts as [zero]. *)
Class Bolt (E : Type) := {
  dbOf : E → DB;
  boltUpdate : (DB → error * DB) → ST E error;
  boltView : ∀ {A}, A → (DB → A * error) → ST E (A * error);
  putError : string → string → error;
  cursorFrom : bucket → string → list string;
}.

Class BoltLaws (E : Type) `{Bolt E} : Prop := {
  boltUpdate_atomic : ∀ f e r e', boltUpdate f e = (r, e') →
    (r = None ∧ (f (dbOf e)).1 = None ∧ dbOf e' = (f (dbOf e)).2) ∨
    (r ≠ None ∧ dbOf e' = dbOf e);
  boltView_reads : ∀ A zero (f : DB → A * error) e r e', boltView zero f e = (r, e') →
    dbOf e' = dbOf e ∧ (r = f (dbOf e) ∨ (r.1 = zero ∧ r.2 ≠ None));
  put_key_required : ∀ v, putError "" v ≠ None;
}.

(** Health record of one backend. *)
Record BackendHealthRecord := {
  rec_State : string;
  rec_ConsecutiveUp : Z;
  rec_ConsecutiveDown : Z;
  rec_LastProbeTime : option Z;
  rec_LastStateChange : option Z;
}.
Definition zeroRecord : BackendHealthRecord :=
  {| rec_State := ""; rec_ConsecutiveUp := 0; rec_ConsecutiveDown := 0;
     rec_LastProbeTime := None; rec_LastStateChange := None |}.

Definition set_hc (f : bucket → bucket) (db : DB) : DB :=
  {| hc_state := f (hc_state db); last_config := last_config db;
     pending_config := pending_config db |}.
Definition set_last (f : bucket → bucket) (db : DB) : DB :=
  {| hc_state := hc_state db; last_config := f (last_config db);
     pending_config := pending_config db |}.
Definition set_pending (f : bucket → bucket) (db : DB) : DB :=
  {| hc_state := hc_state db; last_config := last_config db;
     pending_config := f (pending_config db) |}.

Definition hcKey (vipKey backendAddr : string) : string := vipKey +:+ "/" +:+ backendAddr.

(** [len(k) >= len(prefix) && string(k[:len(prefix)]) == string(prefix)] *)
Definition hasPrefix (prefix k : string) : bool := String.prefix prefix k.

(** [b.ForEach] visits the entries in the byte order of their keys. *)
Definition entry_le (x y : string * string) : Prop := String.le x.1 y.1.
#[export] Instance entry_le_dec : RelDecision entry_le := λ x y, String.le_dec x.1 y.1.
Definition forEach (b : bucket) : list (string * string) := merge_sort entry_le (map_to_list b).

Section Operations.
Context {E : Type} `{!Bolt E} `{!Codec BackendHealthRecord}.

(** [tx.Bucket(b).Put(k, v)] and [.Delete(k)] inside a transaction. *)
Definition txPut (set : (bucket → bucket) → DB → DB) (k v : string) (db : DB) : error * DB :=
  match putError k v with
  | Some x => (Some x, db)
  | None => (None, set (<[k := v]>) db)
  end.
Definition txDelete (set : (bucket → bucket) → DB → DB) (k : string) (db : DB) : error * DB :=
  (None, set (delete k) db).

Definition SaveHealthState (vipKey backendAddr : string) (rec : BackendHealthRecord) : ST E error :=
  match marshal rec with
  | inl x => mret (Some x)
  | inr data => boltUpdate (txPut set_hc (hcKey vipKey backendAddr) data)
  end.

Definition LoadHealthState (vipKey backendAddr : string)
    : ST E (option BackendHealthRecord * error) :=
  r ← boltView zeroRecord (λ db,
        match hc_state db !! hcKey vipKey backendAddr with
        | None => (zeroRecord, None)
        | Some v => match unmarshal v with
                    | inl x => (zeroRecord, Some x)
                    | inr rec => (rec, None)
                    end
        end);
  match r.2 with
  | Some x => mret (None, Some x)
  | None => if bool_decide (rec_State r.1 = "") then mret (None, None)
            else mret (Some r.1, None)
  end.

(** The [ForEach] callback decodes until the first error. *)
Fixpoint decodeAll (es : list (string * string)) (result : gmap string BackendHealthRecord)
    : gmap string BackendHealthRecord * error :=
  match es with
  | [] => (result, None)
  | (k, v) :: es =>
      match unmarshal v with
      | inl x => (result, Some x)
      | inr rec => decodeAll es (<[k := rec]> result)
      end
  end.

Definition LoadAllHealthStates : ST E (gmap string BackendHealthRecord * error) :=
  boltView ∅ (λ db, decodeAll (forEach (hc_state db)) ∅).

Definition DeleteHealthState (vipKey backendAddr : string) : ST E error :=
  boltUpdate (txDelete set_hc (hcKey vipKey backendAddr)).

(** The cursor loop: stop at the first key without the prefix. *)
Fixpoint deleteWhilePrefix (prefix : string) (ks : list string) (b : bucket) : bucket :=
  match ks with
  | [] => b
  | k :: ks => if hasPrefix prefix k then deleteWhilePrefix prefix ks (delete k b) else b
  end.

Definition DeleteHealthStatesForVIP (vipKey : string) : ST E error :=
  let prefix := vipKey +:+ "/" in
  boltUpdate (λ db,
    (None, set_hc (deleteWhilePrefix prefix (cursorFrom (hc_state db) prefix)) db)).

Definition SaveLastConfig (vipKey data : string) : ST E error :=
  boltUpdate (txPut set_last vipKey data).

Definition CommitLastConfig (vipKey data : string) : ST E error :=
  boltUpdate (λ db,
    match txPut set_last vipKey data db with
    | (Some x, db') => (Some x, db')
    | (None, db') => txDelete set_pending vipKey db'
    end).

(** A missing key gives the nil slice, which is the empty string here: the
    callers only test the length. *)
Definition LoadLastConfig (vipKey : string) : ST E (string * error) :=
  boltView "" (λ db, (default "" (last_config db !! vipKey), None)).
Definition LoadAllLastConfigs : ST E (bucket * error) :=
  boltView ∅ (λ db, (list_to_map (forEach (last_config db)), None)).
Definition DeleteLastConfig (vipKey : string) : ST E error :=
  boltUpdate (txDelete set_last vipKey).

Definition SavePendingConfig (vipKey data : string) : ST E error :=
  boltUpdate (txPut set_pending vipKey data).
Definition LoadPendingConfig (vipKey : string) : ST E (string * error) :=
  boltView "" (λ db, (default "" (pending_config db !! vipKey), None)).
Definition LoadAllPendingConfigs : ST E (bucket * error) :=
  boltView ∅ (λ db, (list_to_map (forEach (pending_config db)), None)).
Definition DeletePendingConfig (vipKey : string) : ST E error :=
  boltUpdate (txDelete set_pending vipKey).

End Operations.

(** ** Lemmas on keys *)

Lemma prefix_ge p k : String.prefix p k = true → String.le p k.
Proof.
  unfold String.le, String.leb. revert k. induction p as [|c p IH]; intros k; [by destruct k|].
  destruct k as [|d k]; [done|]. simpl. destruct (Ascii.ascii_dec c d) as [->|]; [|done].
  intros Hp. unfold Ascii.compare. rewrite N.compare_refl. by apply IH.
Qed.

(** The keys with a prefix are contiguous in the byte order. *)
Lemma prefix_between p k1 k2 :
  String.le p k1 → String.le k1 k2 → String.prefix p k2 = true → String.prefix p k1 = true.
Proof.
  unfold String.le, String.leb. revert k1 k2.
  induction p as [|c p IH]; intros k1 k2; [by destruct k1|].
  destruct k1 as [|d1 k1], k2 as [|d2 k2]; try done. simpl.
  destruct (Ascii.ascii_dec c d2) as [->|]; [|done].
  unfold Ascii.compare.
  destruct (N.compare_spec (Ascii.N_of_ascii d2) (Ascii.N_of_ascii d1)) as [E1|E1|E1];
    destruct (N.compare_spec (Ascii.N_of_ascii d1) (Ascii.N_of_ascii d2)) as [E2|E2|E2];
    try done; try lia.
  assert (d2 = d1) as ->.
  { rewrite <- (Ascii.ascii_N_embedding d2), <- (Ascii.ascii_N_embedding d1). by f_equal. }
  destruct (Ascii.ascii_dec d1 d1); [|done]. apply IH.
Qed.

Lemma deleteWhilePrefix_lookup p ks b k :
  deleteWhilePrefix p ks b !! k = b !! k ∨
  (hasPrefix p k = true ∧ deleteWhilePrefix p ks b !! k = None).
Proof.
  revert b. induction ks as [|k0 ks IH]; intros b; simpl; [by left|].
  destruct (hasPrefix p k0) eqn:Hp; [|by left].
  destruct (IH (delete k0 b)) as [->|]; [|by right].
  destruct (decide (k0 = k)) as [->|]; [right|left]; by simplify_map_eq.
Qed.

(** Over a sorted run of keys that starts at the prefix, the loop reaches every
    key that has it. *)
Lemma deleteWhilePrefix_complete p ks b k :
  StronglySorted String.le ks → Forall (String.le p) ks → k ∈ ks → hasPrefix p k = true →
  deleteWhilePrefix p ks b !! k = None.
Proof.
  intros Hs. revert b. induction Hs as [|k0 ks Hs IH Hk0]; intros b Hge Hin Hp.
  { by apply not_elem_of_nil in Hin. }
  inversion Hge as [|?? Hp0 Hge']; subst. simpl.
  assert (hasPrefix p k0 = true) as ->.
  { apply elem_of_cons in Hin as [->|Hin]; [done|].
    eapply prefix_between; [done| |exact Hp]. rewrite Forall_forall in Hk0. by apply Hk0. }
  apply elem_of_cons in Hin as [->|Hin]; [|by apply IH].
  destruct (deleteWhilePrefix_lookup p ks (delete k0 b) k0) as [->|[_ ->]]; [|done].
  by rewrite lookup_delete_eq.
Qed.

(** A string without a slash. *)
Fixpoint noSlash (s : string) : bool :=
  match s with
  | "" => true
  | String c s => negb (Ascii.eqb c "/"%char) && noSlash s
  end.

(** [namespace/name] keys, whose parts have no slash. *)
Definition vipKeyShape (k : string) : Prop :=
  ∃ ns name, k = ns +:+ "/" +:+ name ∧ noSlash ns = true ∧ noSlash name = true.

Lemma slash_split a b s t :
  noSlash a = true → noSlash b = true → a +:+ "/" +:+ s = b +:+ "/" +:+ t → a = b ∧ s = t.
Proof.
  revert b. induction a as [|c a IH]; intros [|d b]; unfold String.app; simpl; intros Ha Hb He.
  - by simplify_eq.
  - by simplify_eq.
  - by simplify_eq.
  - apply andb_true_iff in Ha as [_ Ha], Hb as [_ Hb]. simplify_eq.
    destruct (IH b) as [-> ->]; done.
Qed.

Lemma hcKey_inj k k' a a' :
  vipKeyShape k → vipKeyShape k' → hcKey k a = hcKey k' a' → k = k' ∧ a = a'.
Proof.
  intros (ns & n & -> & Hns & Hn) (ns' & n' & -> & Hns' & Hn'). unfold hcKey.
  assert (∀ x y z : string, (x +:+ "/" +:+ y) +:+ z = x +:+ "/" +:+ y +:+ z) as Hassoc.
  { intros x y z. unfold String.app. induction x as [|c x IH]; simpl; [done|by rewrite IH]. }
  rewrite !Hassoc. intros He.
  destruct (slash_split _ _ _ _ Hns Hns' He) as [-> He'].
  by destruct (slash_split _ _ _ _ Hn Hn' He') as [-> ->].
Qed.

Lemma hasPrefix_spec p k : hasPrefix p k = true ↔ ∃ t, k = p +:+ t.
Proof.
  unfold hasPrefix, String.app. revert k. induction p as [|c p IH]; intros k; simpl.
  - destruct k; split; eauto.
  - destruct k as [|d k]; [split; [done|by intros [t ?]]|]. simpl.
    destruct (Ascii.ascii_dec c d) as [->|Hne]; [|split; [done|intros [t ?]; congruence]].
    rewrite IH. split; intros [t Ht]; exists t; [by rewrite Ht|congruence].
Qed.

(** ** Results *)
Section Properties.
Context {E : Type} `{!Bolt E} `{!BoltLaws E} `{!Codec BackendHealthRecord}.
Implicit Types e : E.

(** Outcome of one committed or rolled-back transaction. *)
Lemma txPut_update set k v r e e' :
  boltUpdate (txPut set k v) e = (r, e') →
  (r = None ∧ putError k v = None ∧ dbOf e' = set (<[k := v]>) (dbOf e)) ∨
  (r ≠ None ∧ dbOf e' = dbOf e).
Proof.
  intros H. destruct (boltUpdate_atomic _ _ _ _ H) as [(-> & Hf & Hd)|?]; [left|by right].
  revert Hf Hd. unfold txPut. by destruct (putError k v).
Qed.

Lemma txDelete_update set k r e e' :
  boltUpdate (txDelete set k) e = (r, e') →
  (r = None ∧ dbOf e' = set (delete k) (dbOf e)) ∨ (r ≠ None ∧ dbOf e' = dbOf e).
Proof.
  intros H. destruct (boltUpdate_atomic _ _ _ _ H) as [(-> & _ & Hd)|?]; [by left|by right].
Qed.

Lemma CommitLastConfig_update k v r e e' :
  CommitLastConfig k v e = (r, e') →
  (r = None ∧ dbOf e' = set_pending (delete k) (set_last (<[k := v]>) (dbOf e))) ∨
  (r ≠ None ∧ dbOf e' = dbOf e).
Proof.
  intros H. destruct (boltUpdate_atomic _ _ _ _ H) as [(-> & Hf & Hd)|?]; [left|by right].
  revert Hf Hd. unfold txPut, txDelete. by destruct (putError k v).
Qed.

Lemma LoadLastConfig_reads k d r e e' :
  LoadLastConfig k e = ((d, r), e') →
  dbOf e' = dbOf e ∧ (r = None → d = default "" (last_config (dbOf e) !! k)).
Proof.
  intros H. destruct (boltView_reads _ _ _ _ _ _ H) as [-> [[= -> ->]|[_ Hr]]]; by split.
Qed.

(** What a save that succeeded leaves, and what a load reads. *)
Lemma SaveHealthState_saved `{!CodecLaws BackendHealthRecord} k a rec e r e' :
  SaveHealthState k a rec e = (r, e') →
  (r = None ∧ ∃ data, unmarshal data = inr rec ∧
     hc_state (dbOf e') = <[hcKey k a := data]> (hc_state (dbOf e))) ∨
  (r ≠ None ∧ dbOf e' = dbOf e).
Proof.
  unfold SaveHealthState. destruct (marshal rec) as [x|data] eqn:Hm.
  { intros [= <- <-]. by right. }
  destruct (unmarshal_marshal _ _ Hm) as [_ Hu].
  intros [(-> & _ & ->)|?]%txPut_update; [left|by right]. split; [done|]. by exists data.
Qed.

Lemma LoadHealthState_reads k a data rec e :
  hc_state (dbOf e) !! hcKey k a = Some data → unmarshal data = inr rec → rec_State rec ≠ "" →
  (∀ A zero (f : DB → A * error) e, (boltView zero f e).1.2 = (f (dbOf e)).2) →
  (LoadHealthState k a e).1 = (Some rec, None) ∧ dbOf (LoadHealthState k a e).2 = dbOf e.
Proof.
  intros Hd Hu Hne Hview. unfold LoadHealthState. unfold_monad.
  match goal with |- context [boltView zeroRecord ?g e] =>
    pose proof (Hview _ zeroRecord g e) as Hv; destruct (boltView zeroRecord g e) as [[r x] e1] eqn:Hb end.
  destruct (boltView_reads _ _ _ _ _ _ Hb) as [Hdb Hr]. rewrite Hd, Hu in *. simpl in *. subst x.
  destruct Hr as [[= ->]|[_ ?]]; [|done]. by rewrite bool_decide_eq_false_2.
Qed.

(** Saving a health record and loading it gives the record back, and
    leaves the record of every other backend of every VIP as it was, even
    where one VIP key is a prefix of another. *)
Theorem SaveHealthState_roundtrip `{!CodecLaws BackendHealthRecord} k a k' a' rec e e' r e'' :
  vipKeyShape k → vipKeyShape k' → rec_State rec ≠ "" →
  SaveHealthState k a rec e = (None, e') →
  LoadHealthState k' a' e' = ((r, None), e'') →
  if decide (k' = k ∧ a' = a) then r = Some rec
  else ∀ r0 e0, LoadHealthState k' a' e = ((r0, None), e0) → r = r0.
Proof.
  intros Hk Hk' Hst Hs. unfold SaveHealthState in Hs.
  destruct (marshal rec) as [|data] eqn:Hm; [done|].
  destruct (unmarshal_marshal _ _ Hm) as [_ Hu].
  destruct (txPut_update _ _ _ _ _ _ Hs) as [(_ & _ & Hd)|[? _]]; [|done].
  unfold LoadHealthState. unfold_monad. intros Hl.
  destruct (boltView _ _ e') as [[rec' x] e1] eqn:Hv.
  destruct (boltView_reads _ _ _ _ _ _ Hv) as [_ [Hx|[_ Hx]]]; simpl in *;
    [|destruct x; simplify_eq/=].
  rewrite Hd in Hx. simpl in Hx. destruct (decide _) as [[-> ->]|Hne].
  - rewrite lookup_insert_eq, Hu in Hx. simplify_eq/=.
    rewrite bool_decide_eq_false_2 in Hl by done. by simplify_eq.
  - intros r0 e0 Hl0. rewrite lookup_insert_ne in Hx.
    2:{ intros Heq. apply hcKey_inj in Heq as [-> ->]; [by destruct Hne|done|done]. }
    destruct (boltView _ _ e) as [[rec0 x0] e01] eqn:Hv0.
    destruct (boltView_reads _ _ _ _ _ _ Hv0) as [_ [Hx0|[_ Hx0]]]; simpl in *;
      [|destruct x0; simplify_eq/=].
    rewrite <- Hx in Hx0. simplify_eq. destruct x; [done|]. by repeat case_match; simplify_eq.
Qed.

(** Committing a configuration is atomic: it replaces the last applied
    configuration of the VIP and clears its pending one, or fails and changes
    nothing; no other VIP is touched. *)
Theorem CommitLastConfig_atomic k v r e e' :
  CommitLastConfig k v e = (r, e') →
  (r = None ∧ last_config (dbOf e') !! k = Some v ∧ pending_config (dbOf e') !! k = None ∧
   hc_state (dbOf e') = hc_state (dbOf e) ∧
   ∀ k', k' ≠ k → last_config (dbOf e') !! k' = last_config (dbOf e) !! k' ∧
                  pending_config (dbOf e') !! k' = pending_config (dbOf e) !! k') ∨
  (r ≠ None ∧ dbOf e' = dbOf e).
Proof.
  intros H. destruct (CommitLastConfig_update _ _ _ _ _ H) as [[-> ->]|?]; [left|by right].
  simpl. split_and!; try done; [by simplify_map_eq..|]. intros k' Hk. by simplify_map_eq.
Qed.

(** Deleting the health records of a VIP never touches a record of another
    VIP, whatever keys the cursor returns; and with a cursor that goes through
    the keys from the prefix on in byte order it leaves none of the VIP. *)
Theorem DeleteHealthStatesForVIP_exact k k' a e e' :
  vipKeyShape k → vipKeyShape k' →
  DeleteHealthStatesForVIP k e = (None, e') →
  (k' ≠ k → hc_state (dbOf e') !! hcKey k' a = hc_state (dbOf e) !! hcKey k' a) ∧
  (let b := hc_state (dbOf e) in let ks := cursorFrom b (k +:+ "/") in
   StronglySorted String.le ks → Forall (String.le (k +:+ "/")) ks →
   (∀ x, is_Some (b !! x) → String.le (k +:+ "/") x → x ∈ ks) →
   hc_state (dbOf e') !! hcKey k a = None).
Proof.
  intros Hk Hk' H. destruct (boltUpdate_atomic _ _ _ _ H) as [(_ & _ & ->)|[? _]]; [|done]. simpl.
  split.
  - intros Hne.
    destruct (deleteWhilePrefix_lookup (k +:+ "/") (cursorFrom (hc_state (dbOf e)) (k +:+ "/"))
      (hc_state (dbOf e)) (hcKey k' a)) as [->|[Hp _]]; [done|].
    apply hasPrefix_spec in Hp as [t Ht]. destruct Hne.
    assert (hcKey k' a = hcKey k t) as He.
    { rewrite Ht. unfold hcKey, String.app. clear. induction k as [|c k IH]; simpl; [done|by rewrite IH]. }
    by destruct (hcKey_inj _ _ _ _ Hk' Hk He).
  - intros Hs Hge Hall.
    assert (hasPrefix (k +:+ "/") (hcKey k a) = true) as Hp.
    { apply hasPrefix_spec. exists a. unfold hcKey, String.app. clear.
      induction k as [|c k IH]; simpl; [done|by rewrite IH]. }
    destruct (hc_state (dbOf e) !! hcKey k a) as [v|] eqn:Hv.
    + apply deleteWhilePrefix_complete; [done..| |done]. apply Hall; [by rewrite Hv|].
      by apply prefix_ge.
    + destruct (deleteWhilePrefix_lookup (k +:+ "/") (cursorFrom (hc_state (dbOf e)) (k +:+ "/"))
        (hc_state (dbOf e)) (hcKey k a)) as [->|[_ ->]]; done.
Qed.

End Properties.
End Store.

(** ** A reference codec and a reference database

    Any countable type has an encoding that meets the laws; the database keeps
    its content as a value. *)
Module StoreExamples.
Import Store.

Fixpoint bits (p : positive) : string :=
  match p with
  | xH => "."
  | xO p => String "0" (bits p)
  | xI p => String "1" (bits p)
  end.
Fixpoint ofBits (s : string) : positive :=
  match s with
  | "" => xH
  | String c s => if Ascii.eqb c "0" then xO (ofBits s)
                  else if Ascii.eqb c "1" then xI (ofBits s) else xH
  end.
Lemma ofBits_bits p : ofBits (bits p) = p.
Proof. induction p as [p IH|p IH|]; simpl; by rewrite ?IH. Qed.

Definition countableCodec (A : Type) `{Countable A} : Codec A := {|
  marshal a := inr (bits (encode a));
  unmarshal s := match decode (ofBits s) with
                 | Some a => inr a | None => inl (ErrMsg "invalid character") end |}.
Lemma countableCodec_laws A `{Countable A} : @CodecLaws A (countableCodec A).
Proof.
  intros a s [= <-]. split; [by destruct (encode a)|]. simpl. by rewrite ofBits_bits, decode_encode.
Qed.

#[export] Instance record_eq_dec : EqDecision BackendHealthRecord.
Proof. solve_decision. Defined.
#[export] Instance record_countable : Countable BackendHealthRecord.
Proof.
  refine (inj_countable'
    (λ r, (rec_State r, rec_ConsecutiveUp r, rec_ConsecutiveDown r, rec_LastProbeTime r,
           rec_LastStateChange r))
    (λ '(a, b, c, d, f), {| rec_State := a; rec_ConsecutiveUp := b; rec_ConsecutiveDown := c;
       rec_LastProbeTime := d; rec_LastStateChange := f |}) _).
  by intros [].
Defined.
#[export] Instance record_codec : Codec BackendHealthRecord := countableCodec _.
#[export] Instance record_codec_laws : CodecLaws BackendHealthRecord := countableCodec_laws _.

#[export] Instance DB_bolt : Bolt DB := {|
  dbOf := id;
  boltUpdate f db := match f db with
                     | (None, db') => (None, db')
                     | (Some x, _) => (Some x, db)
                     end;
  boltView A zero f db := (f db, db);
  putError k v := if bool_decide (k = "") then Some (ErrMsg "key required") else None;
  cursorFrom b p := filter (String.le p) (merge_sort String.le (map_to_list b).*1) |}.
#[export] Instance DB_bolt_laws : BoltLaws DB.
Proof.
  split.
  - intros f db r db'. simpl. destruct (f db) as [[x|] db1] eqn:Hf; intros [= <- <-]; simpl.
    + by right.
    + by left.
  - intros A zero f db r db' [= <- <-]. by split; [|left].
  - done.
Qed.

Definition rec_up : BackendHealthRecord :=
  {| rec_State := "up"; rec_ConsecutiveUp := 3; rec_ConsecutiveDown := 0;
     rec_LastProbeTime := Some (5 * Second)%Z; rec_LastStateChange := Some (2 * Second)%Z |}.
Definition emptyDB : DB := {| hc_state := ∅; last_config := ∅; pending_config := ∅ |}.

Lemma shape_a : vipKeyShape "ns/a".
Proof. by exists "ns", "a". Qed.
Lemma shape_ab : vipKeyShape "ns/ab".
Proof. by exists "ns", "ab". Qed.

Definition db1 : DB := (SaveHealthState "ns/a" "10.0.0.1" rec_up emptyDB).2.
Definition db2 : DB := (SaveHealthState "ns/ab" "10.0.0.1" rec_up db1).2.

Lemma SaveHealthState_roundtrip_witness :
  (LoadHealthState "ns/a" "10.0.0.1" db1).1.1 = Some rec_up.
Proof.
  apply (SaveHealthState_roundtrip "ns/a" "10.0.0.1" "ns/a" "10.0.0.1" rec_up emptyDB db1
    (LoadHealthState "ns/a" "10.0.0.1" db1).1.1 db1 shape_a shape_a);
    vm_compute; reflexivity || done.
Defined.

Lemma CommitLastConfig_atomic_witness :
  let r := CommitLastConfig "ns/a" "{}" db2 in
  last_config (dbOf r.2) !! "ns/a" = Some "{}" ∨ r.1 ≠ None.
Proof.
  intros r. destruct (CommitLastConfig_atomic "ns/a" "{}" r.1 db2 r.2) as [(_ & H & _)|[H _]];
    [reflexivity|by left|by right].
Defined.

Lemma DeleteHealthStatesForVIP_exact_witness :
  let e' := (DeleteHealthStatesForVIP "ns/a" db2).2 in
  hc_state (dbOf e') !! hcKey "ns/ab" "10.0.0.1" = hc_state (dbOf db2) !! hcKey "ns/ab" "10.0.0.1" ∧
  hc_state (dbOf e') !! hcKey "ns/a" "10.0.0.1" = None.
Proof.
  intros e'.
  destruct (DeleteHealthStatesForVIP_exact "ns/a" "ns/ab" "10.0.0.1" db2 e' shape_a shape_ab)
    as [H1 H2]; [vm_compute; reflexivity|]. split; [by apply H1|].
  assert (cursorFrom (hc_state (dbOf db2)) "ns/a/" = ["ns/a/10.0.0.1"; "ns/ab/10.0.0.1"]) as Hc
    by (vm_compute; reflexivity).
  apply H2; change ("ns/a" +:+ "/") with "ns/a/"; rewrite Hc.
  - repeat constructor.
  - repeat constructor.
  - intros x [v Hv] _. apply elem_of_map_to_list in Hv. apply (list_elem_of_fmap_2 fst) in Hv.
    assert ((map_to_list (hc_state (dbOf db2))).*1 = ["ns/a/10.0.0.1"; "ns/ab/10.0.0.1"]) as Hl
      by (vm_compute; reflexivity).
    rewrite Hl in Hv. simpl in Hv. set_solver.
Defined.

End StoreExamples.
