(* ===== verification/Routing.v ===== *)
(** * Routers and the route coordinator

    [Router] is the interface internal/agent/routing/interface.go; its laws
    are what both implementations promise to the coordinator.  [NoopRouter] is
    routing/noop.go.  [RouteCoordinator] is the [routeCoordinator] of
    internal/agent/reconciler/v2_reconciler.go: it shares one route per VIP
    address between the VIPs of that address, and lets one VIP hold a drain on
    the address. *)

From stdpp Require Import base tactics list gmap strings.
From S2P Require Import Prelude Types.

(** ** The router interface *)

(** Operations of [routing.Router] on an environment [E]. *)
Class Router (E : Type) := {
  AnnounceVIP : string → ST E error;
  WithdrawVIP : string → ST E error;
  IsAnnounced : E → string → bool;
}.

(** [time.Now()]: reading the clock may move the environment on. *)
Class Clock (E : Type) := { readClock : ST E Z }.

(** What a router promises: a successful call sets the route of its address
    and no other, a failed call changes no tracked route, and time passing
    changes none either. *)
Class RouterLaws (E : Type) `{Router E} `{Clock E} : Prop := {
  announce_ok a (e e' : E) : AnnounceVIP a e = (None, e') →
    ∀ b, IsAnnounced e' b = if decide (b = a) then true else IsAnnounced e b;
  announce_err a (e e' : E) x : AnnounceVIP a e = (Some x, e') →
    ∀ b, IsAnnounced e' b = IsAnnounced e b;
  withdraw_ok a (e e' : E) : WithdrawVIP a e = (None, e') →
    ∀ b, IsAnnounced e' b = if decide (b = a) then false else IsAnnounced e b;
  withdraw_err a (e e' : E) x : WithdrawVIP a e = (Some x, e') →
    ∀ b, IsAnnounced e' b = IsAnnounced e b;
  clock_announced (e e' : E) t : readClock e = (t, e') →
    ∀ b, IsAnnounced e' b = IsAnnounced e b;
}.

(** ** The no-op router (routing/noop.go) *)
Module NoopRouter.

Record Noop := { announced : gmap string bool; clock : Z }.

Definition NoopAnnounceVIP (vipAddress : string) : ST Noop error := λ n,
  (None, {| announced := <[vipAddress := true]> (announced n); clock := clock n |}).
Definition NoopWithdrawVIP (vipAddress : string) : ST Noop error := λ n,
  (None, {| announced := delete vipAddress (announced n); clock := clock n |}).
Definition NoopIsAnnounced (n : Noop) (vipAddress : string) : bool :=
  default false (announced n !! vipAddress).

#[export] Instance Noop_Router : Router Noop :=
  {| AnnounceVIP := NoopAnnounceVIP; WithdrawVIP := NoopWithdrawVIP;
     IsAnnounced := NoopIsAnnounced |}.
#[export] Instance Noop_Clock : Clock Noop := {| readClock := λ n, (clock n, n) |}.

#[export] Instance Noop_RouterLaws : RouterLaws Noop.
Proof.
  split; intros; simpl in *; unfold NoopAnnounceVIP, NoopWithdrawVIP in *;
    simplify_eq/=; try done;
    unfold NoopIsAnnounced; simpl; case_decide; by simplify_map_eq.
Qed.

End NoopRouter.

(** ** The route coordinator *)
Module RouteCoordinator.

(** [routeAddressState]; a zero [lastVerified] is [None]. *)
Record routeAddressState := {
  serving : gmap string bool;
  advertised : bool;
  reconciled : bool;
  drainOwner : string;
  lastVerified : option Z;
}.

(** The fields of [routeCoordinator] that change. *)
Record RC := {
  addresses : gmap string routeAddressState;
  vipAddresses : gmap string string;
}.

(** The fields that do not: whether a router is configured, and the interval. *)
Record Config := { hasRouter : bool; routeVerificationInterval : Z }.

Inductive routeOperation :=
  | routeOperationNone
  | routeOperationAnnounce
  | routeOperationWithdraw.

#[export] Instance routeOperation_eq_dec : EqDecision routeOperation.
Proof. solve_decision. Defined.

Definition newRouteCoordinator (router : bool) (interval : Z) : Config * RC :=
  ({| hasRouter := router;
      routeVerificationInterval := if (interval <=? 0)%Z then 30 * Second else interval |},
   {| addresses := ∅; vipAddresses := ∅ |}).

(** *** Pure parts, each run under [c.mu] *)

Definition shouldVerifyAdvertisedRoute (c : Config) (state : routeAddressState) (now : Z) : bool :=
  match lastVerified state with
  | None => true
  | Some t => negb (now <? t + routeVerificationInterval c)%Z
  end.

Definition routeShouldAdvertiseLocked (state : routeAddressState) : bool :=
  if bool_decide (drainOwner state ≠ "") then false else any_true (serving state).

(** [nextRouteOperationLocked] with the value of [c.currentTime()]. *)
Definition nextRouteOperationLocked (c : Config) (state : routeAddressState) (now : Z)
    : routeOperation * bool * Z :=
  let shouldAdvertise := routeShouldAdvertiseLocked state in
  if shouldAdvertise then
    if advertised state && negb (shouldVerifyAdvertisedRoute c state now)
    then (routeOperationNone, true, now)
    else (routeOperationAnnounce, advertised state, now)
  else if advertised state || negb (reconciled state)
  then (routeOperationWithdraw, advertised state, now)
  else (routeOperationNone, false, now).

Definition applyRouteOperationLocked (state : routeAddressState) (op : routeOperation)
    (operationTime : Z) : routeAddressState :=
  match op with
  | routeOperationAnnounce =>
      {| serving := serving state; advertised := true; reconciled := true;
         drainOwner := drainOwner state; lastVerified := Some operationTime |}
  | routeOperationWithdraw =>
      {| serving := serving state; advertised := false; reconciled := true;
         drainOwner := drainOwner state; lastVerified := None |}
  | routeOperationNone => state
  end.

Definition emptyAddressState : routeAddressState :=
  {| serving := ∅; advertised := false; reconciled := false; drainOwner := "";
     lastVerified := None |}.

Definition setAddress (address : string) (state : routeAddressState) (rc : RC) : RC :=
  {| addresses := <[address := state]> (addresses rc); vipAddresses := vipAddresses rc |}.
Definition setServingMap (f : gmap string bool → gmap string bool)
    (state : routeAddressState) : routeAddressState :=
  {| serving := f (serving state); advertised := advertised state;
     reconciled := reconciled state; drainOwner := drainOwner state;
     lastVerified := lastVerified state |}.
Definition setDrainOwner (owner : string) (state : routeAddressState) : routeAddressState :=
  {| serving := serving state; advertised := advertised state;
     reconciled := reconciled state; drainOwner := owner;
     lastVerified := lastVerified state |}.

Definition ensureRouteAddressStateLocked (address : string) (rc : RC) : routeAddressState * RC :=
  match addresses rc !! address with
  | Some state => (state, rc)
  | None => (emptyAddressState, setAddress address emptyAddressState rc)
  end.

Definition cleanupRouteAddressLocked (address : string) (rc : RC) : RC :=
  match addresses rc !! address with
  | Some state =>
      if bool_decide (serving state = ∅) && negb (advertised state)
      then {| addresses := delete address (addresses rc); vipAddresses := vipAddresses rc |}
      else rc
  | None => rc
  end.

(** [c.vipAddresses[vipKey]]: the zero value "" when absent. *)
Definition trackedAddress (vipKey : string) (rc : RC) : string :=
  default "" (vipAddresses rc !! vipKey).

Section Operations.
Context {E : Type} `{Router E} `{Clock E}.
Variable c : Config.

Abbreviation prog := (PG (RC * E)).

Definition rcGet {A} (f : RC → A) : prog A := total (on_fst (λ rc, (f rc, rc))).
Definition rcModify (f : RC → RC) : prog unit := total (on_fst (modify f)).
Definition io {A} (m : ST E A) : prog A := total (on_snd m).

(** The first locked section of [reconcileRoute]: what to do, or nothing when
    the address is not tracked. *)
Definition reconcileRoute_decide (address : string)
    : prog (option (routeOperation * bool * Z)) :=
  st ← rcGet (λ rc, addresses rc !! address);
  match st with
  | None => mret None
  | Some state =>
      now ← io readClock;
      mret (Some (nextRouteOperationLocked c state now))
  end.

(** The second locked section: record the operation, and either return
    ([Some advertised]) or loop ([None]). *)
Definition reconcileRoute_commit (address : string) (operation : routeOperation)
    (operationTime : Z) : prog (option bool) :=
  st ← rcGet (λ rc, addresses rc !! address);
  match st with
  | None => mret (Some (bool_decide (operation = routeOperationAnnounce)))
  | Some state =>
      let state' := applyRouteOperationLocked state operation operationTime in
      _ ← rcModify (setAddress address state');
      now ← io readClock;
      let '(operation', advertised', _) := nextRouteOperationLocked c state' now in
      mret (if bool_decide (operation' = routeOperationNone) then Some advertised' else None)
  end.

Fixpoint reconcileRoute (fuel : nat) (address : string) : prog (bool * error) :=
  match fuel with
  | O => λ _, None
  | S fuel =>
      d ← reconcileRoute_decide address;
      match d with
      | None => mret (false, None)
      | Some (operation, adv, operationTime) =>
          let after :=
            r ← reconcileRoute_commit address operation operationTime;
            match r with
            | Some adv' => mret (adv', None)
            | None => reconcileRoute fuel address
            end in
          match operation with
          | routeOperationNone => mret (adv, None)
          | routeOperationAnnounce =>
              e ← io (AnnounceVIP address);
              match e with Some x => mret (adv, Some x) | None => after end
          | routeOperationWithdraw =>
              e ← io (WithdrawVIP address);
              match e with Some x => mret (adv, Some x) | None => after end
          end
      end
  end.

Definition removeVIPFromAddress (fuel : nat) (vipKey address : string) : prog (bool * error) :=
  tracked ← rcGet (trackedAddress vipKey);
  if bool_decide (tracked ≠ "") && bool_decide (tracked ≠ address) then mret (false, None)
  else
    _ ← rcModify (λ rc,
          match addresses rc !! address with
          | Some state => setAddress address (setServingMap (delete vipKey) state) rc
          | None => rc
          end);
    r ← reconcileRoute fuel address;
    let '(adv, e) := r in
    _ ← rcModify (λ rc,
          let rc1 :=
            match e with
            | None =>
                if bool_decide (trackedAddress vipKey rc = "")
                   || bool_decide (trackedAddress vipKey rc = address)
                then {| addresses := addresses rc;
                        vipAddresses := delete vipKey (vipAddresses rc) |}
                else rc
            | Some _ => rc
            end in
          cleanupRouteAddressLocked address rc1);
    mret (adv, e).

Definition withdrawPreviousErr (previousAddress vipKey : string) (e : err) : err :=
  errorf ("failed to withdraw previous VIP address " +:+ previousAddress +:+ " for "
          +:+ vipKey +:+ ": ") e.

Definition SetServing (fuel : nat) (vipKey address : string) (srv : bool)
    : prog (bool * error) :=
  if negb (hasRouter c) || bool_decide (address = "") then mret (false, None)
  else
    previousAddress ← rcGet (trackedAddress vipKey);
    r ← (if bool_decide (previousAddress ≠ "") && bool_decide (previousAddress ≠ address)
         then removeVIPFromAddress fuel vipKey previousAddress
         else mret (false, None));
    match r.2 with
    | Some e => mret (false, Some (withdrawPreviousErr previousAddress vipKey e))
    | None =>
        _ ← rcModify (λ rc,
              let rc1 := {| addresses := addresses rc;
                            vipAddresses := <[vipKey := address]> (vipAddresses rc) |} in
              let '(state, rc2) := ensureRouteAddressStateLocked address rc1 in
              setAddress address (setServingMap (<[vipKey := srv]>) state) rc2);
        reconcileRoute fuel address
    end.

(** The locked section of [beginDrain]: take the drain, unless another VIP
    holds it or, without [forceAddress], a sibling is serving. *)
Definition beginDrain_take (vipKey address : string) (forceAddress : bool) (rc : RC)
    : bool * RC :=
  let '(state, rc1) := ensureRouteAddressStateLocked address rc in
  if bool_decide (drainOwner state ≠ "") && bool_decide (drainOwner state ≠ vipKey)
  then (false, rc1)
  else if negb forceAddress && any_true (delete vipKey (serving state))
  then (false, rc1)
  else
    (true,
     setAddress address
       (setServingMap (<[vipKey := false]>) (setDrainOwner vipKey state))
       {| addresses := addresses rc1;
          vipAddresses := <[vipKey := address]> (vipAddresses rc1) |}).

Definition beginDrain (fuel : nat) (vipKey address : string) (forceAddress : bool)
    : prog (bool * error) :=
  if negb (hasRouter c) || bool_decide (address = "") then mret (true, None)
  else
    previousAddress ← rcGet (trackedAddress vipKey);
    r ← (if bool_decide (previousAddress ≠ "") && bool_decide (previousAddress ≠ address)
         then removeVIPFromAddress fuel vipKey previousAddress
         else mret (false, None));
    match r.2 with
    | Some e => mret (false, Some (withdrawPreviousErr previousAddress vipKey e))
    | None =>
        taken ← total (on_fst (beginDrain_take vipKey address forceAddress));
        if negb taken then mret (false, None)
        else
          r ← reconcileRoute fuel address;
          let '(adv, e) := r in
          match e with
          | Some x =>
              _ ← rcModify (λ rc,
                    match addresses rc !! address with
                    | Some state =>
                        if bool_decide (drainOwner state = vipKey)
                        then setAddress address (setDrainOwner "" state) rc else rc
                    | None => rc
                    end);
              mret (false, Some x)
          | None => mret (negb adv, None)
          end
    end.

Definition BeginDrain (fuel : nat) (vipKey address : string) : prog (bool * error) :=
  beginDrain fuel vipKey address false.
Definition BeginAddressDrain (fuel : nat) (vipKey address : string) : prog (bool * error) :=
  beginDrain fuel vipKey address true.

Definition FinishDrain (fuel : nat) (vipKey address : string) : prog (bool * error) :=
  if negb (hasRouter c) || bool_decide (address = "") then mret (false, None)
  else
    st ← rcGet (λ rc, addresses rc !! address);
    match st with
    | None => mret (false, None)
    | Some state =>
        if bool_decide (drainOwner state ≠ vipKey) then mret (advertised state, None)
        else
          _ ← rcModify (setAddress address (setDrainOwner "" state));
          reconcileRoute fuel address
    end.

Definition pendingAddressChange (vipKey address : string) (rc : RC) : string * bool :=
  if negb (hasRouter c) || bool_decide (address = "") then ("", false)
  else
    let previousAddress := trackedAddress vipKey rc in
    (previousAddress, bool_decide (previousAddress ≠ "") && bool_decide (previousAddress ≠ address)).

Definition prepareAddressChange (fuel : nat) (vipKey address : string) : prog (bool * error) :=
  if negb (hasRouter c) || bool_decide (address = "") then mret (false, None)
  else
    previousAddress ← rcGet (trackedAddress vipKey);
    if bool_decide (previousAddress = "") || bool_decide (previousAddress = address) then
      st ← rcGet (λ rc, addresses rc !! address);
      match st with
      | Some state => mret (advertised state, None)
      | None => mret (false, None)
      end
    else
      r ← removeVIPFromAddress fuel vipKey previousAddress;
      let '(adv, e) := r in
      match e with
      | Some x => mret (adv, Some (withdrawPreviousErr previousAddress vipKey x))
      | None => mret (false, None)
      end.

Definition Delete (fuel : nat) (vipKey address : string) : prog (bool * error) :=
  if negb (hasRouter c) then mret (false, None)
  else
    tracked ← rcGet (trackedAddress vipKey);
    let address := if bool_decide (tracked ≠ "") then tracked else address in
    if bool_decide (address = "") then mret (false, None)
    else
      r ← removeVIPFromAddress fuel vipKey address;
      mret (false, r.2).

End Operations.

(** ** Properties of the coordinator *)

Lemma setAddress_id a st rc : addresses rc !! a = Some st → setAddress a st rc = rc.
Proof. intros Ha. destruct rc; unfold setAddress; simpl in *. by rewrite insert_id. Qed.

Lemma setAddress_twice a st st' rc :
  setAddress a st' (setAddress a st rc) = setAddress a st' rc.
Proof. unfold setAddress; simpl. by rewrite insert_insert_eq. Qed.

Lemma lookup_setAddress a st rc : addresses (setAddress a st rc) !! a = Some st.
Proof. simpl. by rewrite lookup_insert_eq. Qed.

Lemma lookup_setAddress_ne a b st rc :
  a ≠ b → addresses (setAddress a st rc) !! b = addresses rc !! b.
Proof. intros. simpl. by rewrite lookup_insert_ne. Qed.

(** Two states of an address with the same intent: who serves, who drains. *)
Definition same_intent (st st' : routeAddressState) : Prop :=
  serving st' = serving st ∧ drainOwner st' = drainOwner st.

Lemma same_intent_should st st' :
  same_intent st st' → routeShouldAdvertiseLocked st' = routeShouldAdvertiseLocked st.
Proof. intros [H1 H2]. unfold routeShouldAdvertiseLocked. by rewrite H1, H2. Qed.

Lemma same_intent_trans st1 st2 st3 :
  same_intent st1 st2 → same_intent st2 st3 → same_intent st1 st3.
Proof. unfold same_intent. intuition congruence. Qed.

Lemma applyRouteOperation_intent st op t : same_intent st (applyRouteOperationLocked st op t).
Proof. by destruct op. Qed.

#[export] Hint Resolve applyRouteOperation_intent same_intent_trans : arca.

(** The operations of the coordinator as data, to speak of their sequences. *)
Inductive routeOp :=
  | OpSetServing (vipKey address : string) (srv : bool)
  | OpBeginDrain (vipKey address : string)
  | OpBeginAddressDrain (vipKey address : string)
  | OpFinishDrain (vipKey address : string)
  | OpPrepareAddressChange (vipKey address : string)
  | OpDelete (vipKey address : string).

Definition opKey (o : routeOp) : string :=
  match o with
  | OpSetServing k _ _ | OpBeginDrain k _ | OpBeginAddressDrain k _
  | OpFinishDrain k _ | OpPrepareAddressChange k _ | OpDelete k _ => k
  end.

(** What an operation may do for its VIP: the address at which it may take a
    drain, and whether it may make the VIP serve. *)
Definition opGrant (o : routeOp) : option string * bool :=
  match o with
  | OpBeginDrain _ a | OpBeginAddressDrain _ a => (Some a, false)
  | OpSetServing _ _ b => (None, b)
  | _ => (None, false)
  end.

Definition runOp {E} `{Router E} `{Clock E} (c : Config) (fuel : nat) (o : routeOp)
    : PG (RC * E) (bool * error) :=
  match o with
  | OpSetServing k a b => SetServing c fuel k a b
  | OpBeginDrain k a => BeginDrain c fuel k a
  | OpBeginAddressDrain k a => BeginAddressDrain c fuel k a
  | OpFinishDrain k a => FinishDrain c fuel k a
  | OpPrepareAddressChange k a => prepareAddressChange c fuel k a
  | OpDelete k a => Delete c fuel k a
  end.

(** Operations one after the other; results are kept by the callers only. *)
Fixpoint runOps {E} `{Router E} `{Clock E} (c : Config) (fuel : nat) (os : list routeOp)
    : PG (RC * E) unit :=
  match os with
  | [] => mret tt
  | o :: os => _ ← runOp c fuel o; runOps c fuel os
  end.

Section Properties.
Context {E : Type} `{!Router E} `{!Clock E} `{!RouterLaws E}.
Variable c : Config.

(** The coordinator's record of an address agrees with the router: once
    reconciled, [advertised] is the router's own answer. *)
Definition agree (e : E) (a : string) (st : routeAddressState) : Prop :=
  (reconciled st = true → advertised st = IsAnnounced e a) ∧
  (advertised st = true → reconciled st = true).

(** The outcome of a call that reconciles the route of [a] from intent [st]. *)
Definition settled (e e' : E) (a : string) (st st' : routeAddressState)
    (r : bool * error) : Prop :=
  same_intent st st' ∧ agree e' a st' ∧
  (∀ b, b ≠ a → IsAnnounced e' b = IsAnnounced e b) ∧
  (r.2 = None →
     r.1 = routeShouldAdvertiseLocked st ∧
     IsAnnounced e' a = routeShouldAdvertiseLocked st ∧
     advertised st' = routeShouldAdvertiseLocked st ∧ reconciled st' = true).

Lemma agree_apply_announce (e e' : E) a st t :
  AnnounceVIP a e = (None, e') → agree e' a (applyRouteOperationLocked st routeOperationAnnounce t).
Proof.
  intros Ho. split; simpl; [|done]. intros _.
  rewrite (announce_ok _ _ _ Ho a). by rewrite decide_True.
Qed.

Lemma agree_apply_withdraw (e e' : E) a st t :
  WithdrawVIP a e = (None, e') → agree e' a (applyRouteOperationLocked st routeOperationWithdraw t).
Proof.
  intros Ho. split; simpl; [|done]. intros _.
  rewrite (withdraw_ok _ _ _ Ho a). by rewrite decide_True.
Qed.

Lemma agree_env (e e' : E) a st :
  (∀ b, IsAnnounced e' b = IsAnnounced e b) → agree e a st → agree e' a st.
Proof. intros He [H1 H2]. split; [|done]. by rewrite He. Qed.

(** Nothing left to do means the recorded route is the wanted one. *)
Lemma next_none_settled st now adv t :
  (advertised st = true → reconciled st = true) →
  nextRouteOperationLocked c st now = (routeOperationNone, adv, t) →
  adv = routeShouldAdvertiseLocked st ∧ advertised st = routeShouldAdvertiseLocked st
  ∧ reconciled st = true.
Proof.
  unfold nextRouteOperationLocked. intros Hr Hn.
  destruct (routeShouldAdvertiseLocked st), (advertised st) eqn:Ha, (reconciled st) eqn:Hc,
    (shouldVerifyAdvertisedRoute c st now); simplify_eq/=; naive_solver.
Qed.

Lemma settled_trans (e e1 e' : E) a st st1 st' r :
  same_intent st st1 → (∀ b, b ≠ a → IsAnnounced e1 b = IsAnnounced e b) →
  settled e1 e' a st1 st' r → settled e e' a st st' r.
Proof.
  intros Hi Hfr (Hi' & Hag & Hfr' & Hok). unfold settled.
  rewrite (same_intent_should _ _ Hi) in Hok.
  split_and!; eauto with arca.
Qed.

(** A call that fails, or that finds nothing to do, leaves the record as it is. *)
Lemma settled_unchanged (e e' : E) a st r :
  agree e a st → (∀ b, IsAnnounced e' b = IsAnnounced e b) →
  (r.2 = None → r.1 = routeShouldAdvertiseLocked st
     ∧ advertised st = routeShouldAdvertiseLocked st ∧ reconciled st = true) →
  settled e e' a st st r.
Proof.
  intros Hag He Hr. pose proof (agree_env _ _ _ _ He Hag) as Hag'.
  split_and!; try done; auto.
  intros Hn. destruct (Hr Hn) as (-> & Ha & Hrec). split_and!; try done.
  by rewrite <- (proj1 Hag' Hrec).
Qed.

Lemma commit_settled (e e1 : E) a rc st op t x s e' :
  (∀ b, b ≠ a → IsAnnounced e1 b = IsAnnounced e b) →
  agree e1 a (applyRouteOperationLocked st op t) →
  addresses rc !! a = Some st →
  reconcileRoute_commit c a op t (rc, e1) = Some (x, (s, e')) →
  let st' := applyRouteOperationLocked st op t in
  s = setAddress a st' rc ∧ agree e' a st' ∧
  (∀ b, b ≠ a → IsAnnounced e' b = IsAnnounced e b) ∧
  (∀ adv, x = Some adv → settled e e' a st st' (adv, None)).
Proof.
  intros Hfr Hag Hst. unfold reconcileRoute_commit, rcGet, rcModify, io. unfold_monad.
  simpl. rewrite Hst. simpl.
  destruct (readClock e1) as [now e2] eqn:Hclk. simpl.
  pose proof (clock_announced _ _ _ Hclk) as Hc.
  destruct (nextRouteOperationLocked c _ now) as [[op' adv'] t'] eqn:Hn.
  intros; simplify_eq/=.
  assert (∀ b, b ≠ a → IsAnnounced e' b = IsAnnounced e b) as Hfr'.
  { intros b Hb. rewrite Hc. auto. }
  split_and!; [done|by eapply agree_env|done|].
  intros adv. case_bool_decide as Hop; [|done]. intros [= <-]. subst op'.
  eapply (settled_trans e e1); eauto with arca.
  apply settled_unchanged; auto. intros _.
  by apply (next_none_settled _ now _ t'); [apply Hag|].
Qed.

(** After a router call that succeeded: commit, then return or loop. *)
Lemma after_settled (rec : PG (RC * E) (bool * error)) (e e1 : E) a rc st op t r out :
  (∀ rc e st, addresses rc !! a = Some st → agree e a st → rec (rc, e) = Some (r, out) →
     ∃ st', out.1 = setAddress a st' rc ∧ settled e out.2 a st st' r) →
  (∀ b, b ≠ a → IsAnnounced e1 b = IsAnnounced e b) →
  agree e1 a (applyRouteOperationLocked st op t) →
  addresses rc !! a = Some st →
  (x ← reconcileRoute_commit c a op t;
   match x with Some adv => mret (adv, None) | None => rec end) (rc, e1) = Some (r, out) →
  ∃ st', out.1 = setAddress a st' rc ∧ settled e out.2 a st st' r.
Proof.
  intros IH Hfr Hag Hst. unfold_monad.
  destruct (reconcileRoute_commit c a op t (rc, e1)) as [[x [s e2]]|] eqn:Hcm; [|done].
  destruct (commit_settled e e1 a rc st op t x s e2 Hfr Hag Hst Hcm)
    as (-> & Hag2 & Hfr2 & Hset).
  destruct x as [adv|]; intros; simplify_eq/=; [eauto|].
  destruct (IH _ _ _ (lookup_setAddress _ _ _) Hag2 H) as (st' & Hout & Hs).
  exists st'. rewrite setAddress_twice in Hout. split; [done|].
  eapply settled_trans; eauto with arca.
Qed.

(** [reconcileRoute]: whatever it returns, the intent is kept and the record
    agrees with the router; without an error, the route is the wanted one. *)
Lemma reconcileRoute_sound fuel a rc (e : E) r out st :
  addresses rc !! a = Some st → agree e a st →
  reconcileRoute c fuel a (rc, e) = Some (r, out) →
  ∃ st', out.1 = setAddress a st' rc ∧ settled e out.2 a st st' r.
Proof.
  revert rc e st. induction fuel as [|fuel IH]; intros rc e st Hst Hag; [done|].
  simpl. unfold reconcileRoute_decide, rcGet, io.
  cbv [mbind PG_bind mret PG_ret total on_fst on_snd]. rewrite Hst.
  destruct (readClock e) as [now e1] eqn:Hclk.
  pose proof (clock_announced _ _ _ Hclk) as Hc.
  destruct (nextRouteOperationLocked c st now) as [[op adv] t] eqn:Hn.
  destruct op.
  - intros; simplify_eq/=. exists st. rewrite setAddress_id by done. split; [done|].
    apply settled_unchanged; auto. intros _.
    by apply (next_none_settled _ now _ t); [apply Hag|].
  - destruct (AnnounceVIP a e1) as [[x|] e2] eqn:Ho; intros Hr.
    + simplify_eq/=. exists st. rewrite setAddress_id by done. split; [done|].
      apply settled_unchanged; try done. intros b. by rewrite (announce_err _ _ _ _ Ho).
    + eapply after_settled; [exact IH| |by eapply agree_apply_announce|done|exact Hr].
      intros b Hb. by rewrite (announce_ok _ _ _ Ho), decide_False.
  - destruct (WithdrawVIP a e1) as [[x|] e2] eqn:Ho; intros Hr.
    + simplify_eq/=. exists st. rewrite setAddress_id by done. split; [done|].
      apply settled_unchanged; try done. intros b. by rewrite (withdraw_err _ _ _ _ Ho).
    + eapply after_settled; [exact IH| |by eapply agree_apply_withdraw|done|exact Hr].
      intros b Hb. by rewrite (withdraw_ok _ _ _ Ho), decide_False.
Qed.

Lemma reconcileRoute_untracked fuel a rc (e : E) r out :
  addresses rc !! a = None →
  reconcileRoute c fuel a (rc, e) = Some (r, out) → r = (false, None) ∧ out = (rc, e).
Proof.
  intros Ha. destruct fuel; [done|]. simpl.
  unfold reconcileRoute_decide, rcGet. unfold_monad. simpl. rewrite Ha.
  intros; by simplify_eq.
Qed.

(** *** The well-formedness invariant

    The record agrees with the router at every address; a VIP is in the
    serving set of at most the address it is tracked at; no VIP is tracked at
    the empty address. *)
Record WF (s : RC * E) : Prop := {
  wf_agree : ∀ a st, addresses s.1 !! a = Some st → agree s.2 a st;
  wf_tracked : ∀ a st k, addresses s.1 !! a = Some st → is_Some (serving st !! k) →
    vipAddresses s.1 !! k = Some a;
  wf_nonempty : ∀ k a, vipAddresses s.1 !! k = Some a → a ≠ "";
}.

(** VIP [k] serves at no address other than [a]. *)
Definition serves_only_at (k a : string) (rc : RC) : Prop :=
  ∀ b st, addresses rc !! b = Some st → b ≠ a → serving st !! k = None.
Definition serves_nowhere (k : string) (rc : RC) : Prop :=
  ∀ b st, addresses rc !! b = Some st → serving st !! k = None.

(** The critical sections an operation of VIP [k] is made of: with the grant
    [tk], a drain can be taken at the address [tk.1] only, if any, and the VIP
    is made to serve only if [tk.2]. *)
Inductive section (tk : option string * bool) (k : string) : RC * E → RC * E → Prop :=
  | sec_unserve a st rc e :
      addresses rc !! a = Some st →
      section tk k (rc, e) (setAddress a (setServingMap (delete k) st) rc, e)
  | sec_untrack rc e :
      serves_nowhere k rc →
      section tk k (rc, e) ({| addresses := addresses rc;
                            vipAddresses := delete k (vipAddresses rc) |}, e)
  | sec_cleanup a rc e : section tk k (rc, e) (cleanupRouteAddressLocked a rc, e)
  | sec_ensure a rc e : section tk k (rc, e) ((ensureRouteAddressStateLocked a rc).2, e)
  | sec_serve a st b rc e :
      a ≠ "" → addresses rc !! a = Some st → serves_only_at k a rc → (b = true → tk.2 = true) →
      section tk k (rc, e)
        (setAddress a (setServingMap (<[k := b]>) st)
           {| addresses := addresses rc; vipAddresses := <[k := a]> (vipAddresses rc) |}, e)
  | sec_take a st rc e :
      tk.1 = Some a → addresses rc !! a = Some st → drainOwner st = "" ∨ drainOwner st = k →
      section tk k (rc, e) (setAddress a (setDrainOwner k st) rc, e)
  | sec_release a st rc e :
      addresses rc !! a = Some st → drainOwner st = k →
      section tk k (rc, e) (setAddress a (setDrainOwner "" st) rc, e)
  | sec_reconcile fuel a r s s' :
      reconcileRoute c fuel a s = Some (r, s') → section tk k s s'.

Lemma WF_set (rc : RC) (e : E) a st st' :
  WF (rc, e) → addresses rc !! a = Some st → agree e a st' →
  (∀ k, is_Some (serving st' !! k) → is_Some (serving st !! k)) →
  WF (setAddress a st' rc, e).
Proof.
  intros [W1 W2 W3] Ha Hag Hs. split; simpl in *; [| |done].
  - intros b st1 Hb. destruct (decide (a = b)) as [->|]; simplify_map_eq; auto.
  - intros b st1 k Hb Hk. destruct (decide (a = b)) as [->|]; simplify_map_eq; eauto.
Qed.

Lemma WF_reconcile fuel a r s s' :
  WF s → reconcileRoute c fuel a s = Some (r, s') → WF s'.
Proof.
  destruct s as [rc e]. intros W Hr.
  destruct (addresses rc !! a) as [st|] eqn:Ha.
  - destruct (reconcileRoute_sound _ _ _ _ _ _ _ Ha (wf_agree _ W _ _ Ha) Hr)
      as (st' & Hrc & Hi & Hag & Hfr & _).
    destruct s' as [rc' e']; simpl in *; subst rc'. destruct Hi as [Hs _].
    destruct W as [W1 W2 W3]. split; simpl in *; [| |done].
    + intros b st1 Hb. destruct (decide (a = b)) as [->|]; simplify_map_eq; [done|].
      destruct (W1 _ _ Hb). split; [|done]. by rewrite Hfr.
    + intros b st1 k Hb Hk. destruct (decide (a = b)) as [->|]; simplify_map_eq; [|by eauto].
      rewrite Hs in Hk. eauto.
  - by destruct (reconcileRoute_untracked _ _ _ _ _ _ Ha Hr) as [_ ->].
Qed.

Lemma WF_serve (rc : RC) (e : E) k a st b :
  WF (rc, e) → a ≠ "" → addresses rc !! a = Some st → serves_only_at k a rc →
  WF (setAddress a (setServingMap (<[k := b]>) st)
        {| addresses := addresses rc; vipAddresses := <[k := a]> (vipAddresses rc) |}, e).
Proof.
  intros [W1 W2 W3] Hne Ha Ho. split; simpl in *.
  - intros a' st1 Hb. destruct (decide (a = a')) as [->|]; simplify_map_eq; [|by auto].
    apply (W1 _ _ Ha).
  - intros a' st1 k'. destruct (decide (a = a')) as [->|].
    + rewrite lookup_insert_eq. intros [= <-]. simpl.
      destruct (decide (k = k')) as [->|]; simplify_map_eq; [done|]. eauto.
    + rewrite lookup_insert_ne by done. intros Hb Hk.
      destruct (decide (k = k')) as [->|]; simplify_map_eq; [|by eauto].
      rewrite (Ho _ _ Hb) in Hk by done. by destruct Hk.
  - intros k' a' Hk. destruct (decide (k = k')) as [->|]; simplify_map_eq; eauto.
Qed.

Lemma WF_section tk k s s' : WF s → section tk k s s' → WF s'.
Proof.
  intros W Hs. destruct Hs.
  - apply (WF_set _ _ _ st); auto; [by apply (wf_agree _ W _ _ H)|].
    intros k'. simpl. rewrite lookup_delete_is_Some. tauto.
  - destruct W as [W1 W2 W3]. split; simpl in *; [done| |].
    + intros a st k' Ha Hk. rewrite lookup_delete_ne; [by eauto|].
      intros ->. rewrite (H _ _ Ha) in Hk. by destruct Hk.
    + intros k' a Hk. apply lookup_delete_Some in Hk as [_ Hk]. eauto.
  - unfold cleanupRouteAddressLocked. repeat case_match; try done.
    destruct W as [W1 W2 W3]. split; simpl in *; [| |done].
    + intros b st [_ Hb]%lookup_delete_Some. eauto.
    + intros b st k' [_ Hb]%lookup_delete_Some. eauto.
  - unfold ensureRouteAddressStateLocked. case_match eqn:Ha; simpl; [done|].
    destruct W as [W1 W2 W3]. split; simpl in *; [| |done].
    + intros b st Hb. destruct (decide (a = b)) as [->|]; simplify_map_eq; [done|eauto].
    + intros b st k' Hb Hk. destruct (decide (a = b)) as [->|]; simplify_map_eq; [|by eauto].
      by destruct Hk.
  - by apply WF_serve.
  - apply (WF_set _ _ _ st); auto. by apply (wf_agree _ W _ _ H0).
  - apply (WF_set _ _ _ st); auto. by apply (wf_agree _ W _ _ H).
  - by eapply WF_reconcile.
Qed.

Lemma WF_sections tk k s s' : WF s → rtc (section tk k) s s' → WF s'.
Proof. intros W Hs. induction Hs; eauto using WF_section. Qed.

Lemma tracked_serves_only (rc : RC) (e : E) k a :
  WF (rc, e) → trackedAddress k rc = "" ∨ trackedAddress k rc = a → serves_only_at k a rc.
Proof.
  intros [W1 W2 W3] Ht b st Hb Hne. apply eq_None_not_Some. intros Hk.
  pose proof (W2 _ _ _ Hb Hk) as Htr. simpl in *.
  unfold trackedAddress in Ht. rewrite Htr in Ht. simpl in Ht.
  destruct Ht as [->| ->]; [|done]. by eapply W3.
Qed.

Lemma reconcile_serves_nowhere fuel k a r s s' :
  WF s → serves_nowhere k s.1 → reconcileRoute c fuel a s = Some (r, s') →
  serves_nowhere k s'.1 ∧ vipAddresses s'.1 = vipAddresses s.1.
Proof.
  destruct s as [rc e]. intros W Hn Hr.
  destruct (addresses rc !! a) as [st|] eqn:Ha.
  - destruct (reconcileRoute_sound _ _ _ _ _ _ _ Ha (wf_agree _ W _ _ Ha) Hr)
      as (st' & -> & [Hs _] & _). split; [|done].
    intros b st1 Hb. simpl in *. destruct (decide (a = b)) as [->|]; simplify_map_eq; eauto.
    rewrite Hs. eauto.
  - by destruct (reconcileRoute_untracked _ _ _ _ _ _ Ha Hr) as [_ ->].
Qed.

(** [removeVIPFromAddress] is made of sections of its VIP; on success the VIP
    is no longer tracked, unless it was tracked somewhere else. *)
Lemma removeVIPFromAddress_sections tk fuel k a r s s' :
  WF s → removeVIPFromAddress c fuel k a s = Some (r, s') →
  rtc (section tk k) s s' ∧
  (r.2 = None → trackedAddress k s.1 = "" ∨ trackedAddress k s.1 = a →
   trackedAddress k s'.1 = "" ∧
   ∀ st, addresses s.1 !! a = Some st →
     IsAnnounced s'.2 a = routeShouldAdvertiseLocked (setServingMap (delete k) st)).
Proof.
  destruct s as [rc e]. intros W. unfold removeVIPFromAddress, rcGet, rcModify, pg_snd.
  cbv [mbind PG_bind mret PG_ret total on_fst on_snd modify]. simpl.
  case_match eqn:Hg.
  { intros; simplify_eq/=. split; [done|]. intros _ Ht.
    apply andb_true_iff in Hg as [Hg1%bool_decide_eq_true Hg2%bool_decide_eq_true]. by destruct Ht. }
  assert (trackedAddress k rc = "" ∨ trackedAddress k rc = a) as Ht.
  { apply andb_false_iff in Hg as [Hg|Hg]; apply bool_decide_eq_false in Hg;
      [left|right]; by apply dec_stable. }
  set (rc1 := match addresses rc !! a with Some _ => _ | None => _ end).
  assert (rtc (section tk k) (rc, e) (rc1, e) ∧ serves_nowhere k rc1
          ∧ vipAddresses rc1 = vipAddresses rc) as (S1 & N1 & V1).
  { pose proof (tracked_serves_only _ _ _ _ W Ht) as Ho. subst rc1.
    destruct (addresses rc !! a) as [st|] eqn:Ha.
    - split_and!; [by apply rtc_once, sec_unserve| |done].
      intros b st1 Hb. simpl in Hb. destruct (decide (a = b)) as [->|]; simplify_map_eq; eauto.
    - split_and!; [done| |done]. intros b st1 Hb. apply (Ho b); naive_solver. }
  pose proof (WF_sections _ _ _ _ W S1) as W1.
  destruct (reconcileRoute c fuel a (rc1, e)) as [[[adv er] [rc2 e2]]|] eqn:Hr; [|done].
  destruct (reconcile_serves_nowhere _ _ _ _ _ _ W1 N1 Hr) as [N2 V2]. simpl in *.
  intros; simplify_eq/=.
  assert (trackedAddress k rc2 = trackedAddress k rc) as Htr.
  { unfold trackedAddress. by rewrite V2, V1. }
  assert (section tk k (rc1, e) (rc2, e2)) as S2 by (by eapply sec_reconcile).
  assert (er = None → ∀ st, addresses rc !! a = Some st →
          IsAnnounced e2 a = routeShouldAdvertiseLocked (setServingMap (delete k) st)) as Hann.
  { intros -> st Ha. subst rc1. rewrite Ha in Hr, W1.
    by destruct (reconcileRoute_sound _ _ _ _ _ _ _ (lookup_setAddress _ _ _)
      (wf_agree _ W1 _ _ (lookup_setAddress _ _ _)) Hr) as (? & _ & _ & _ & _ & Hok); apply Hok. }
  destruct er as [x|]; simpl.
  - split; [|done]. etrans; [done|]. eapply rtc_l; [done|].
    apply rtc_once, sec_cleanup.
  - rewrite Htr. rewrite orb_true_intro; [|by rewrite !bool_decide_eq_true].
    split.
    + etrans; [done|]. eapply rtc_l; [done|].
      eapply rtc_l; [by apply sec_untrack|]. apply rtc_once, sec_cleanup.
    + intros _ _. split; [|by auto]. unfold cleanupRouteAddressLocked, trackedAddress.
      repeat case_match; simpl; by rewrite lookup_delete_eq.
Qed.

(** Leaving the previous address, the common prologue of [SetServing] and
    [beginDrain]: on success the VIP is tracked at [a] or nowhere. *)
Lemma leave_previous_sections tk fuel k a r s s' :
  WF s →
  (if bool_decide (trackedAddress k s.1 ≠ "") && bool_decide (trackedAddress k s.1 ≠ a)
   then removeVIPFromAddress c fuel k (trackedAddress k s.1)
   else mret (false, None)) s = Some (r, s') →
  rtc (section tk k) s s' ∧
  (r.2 = None → trackedAddress k s'.1 = "" ∨ trackedAddress k s'.1 = a).
Proof.
  intros W. case_match eqn:Hg.
  - intros Hr. destruct (removeVIPFromAddress_sections tk _ _ _ _ _ _ W Hr) as [Hs Ht].
    split; [done|]. intros Hn. left. apply Ht; auto.
  - intros; simplify_eq/=. cbv [mret PG_ret] in *. simplify_eq/=. split; [done|]. intros _.
    apply andb_false_iff in Hg as [Hg|Hg]; apply bool_decide_eq_false in Hg;
      [left|right]; by apply dec_stable.
Qed.

(** Marking a VIP as serving (or not) at the address it is allowed to be at. *)
Lemma serve_sections tk (rc : RC) (e : E) k a b :
  WF (rc, e) → a ≠ "" → trackedAddress k rc = "" ∨ trackedAddress k rc = a →
  (b = true → tk.2 = true) →
  let rc1 := {| addresses := addresses rc; vipAddresses := <[k := a]> (vipAddresses rc) |} in
  let '(st, rc2) := ensureRouteAddressStateLocked a rc1 in
  let s' := (setAddress a (setServingMap (<[k := b]>) st) rc2, e) in
  rtc (section tk k) (rc, e) s' ∧
  st = default emptyAddressState (addresses rc !! a) ∧
  addresses s'.1 !! a = Some (setServingMap (<[k := b]>) st).
Proof.
  intros W Hne Ht Hb. unfold ensureRouteAddressStateLocked. simpl.
  destruct (addresses rc !! a) as [st|] eqn:Ha; simpl.
  - split_and!; [|done|by simplify_map_eq].
    apply rtc_once, sec_serve; auto. by eapply tracked_serves_only.
  - split_and!; [|done|by simplify_map_eq].
    assert (section tk k (rc, e) (setAddress a emptyAddressState rc, e)) as S1.
    { pose proof (sec_ensure tk k a rc e) as S1.
      unfold ensureRouteAddressStateLocked in S1. by rewrite Ha in S1. }
    eapply rtc_l; [exact S1|].
    pose proof (WF_section _ _ _ _ W S1) as W1.
    pose proof (sec_serve tk k a emptyAddressState b (setAddress a emptyAddressState rc) e Hne) as S2.
    unfold setAddress in S2. simpl in S2. rewrite lookup_insert_eq in S2.
    rewrite insert_insert_eq in S2. unfold setAddress. simpl. rewrite insert_insert_eq.
    apply rtc_once, S2; [done| |done].
    by apply (tracked_serves_only _ _ _ _ W1).
Qed.

Lemma SetServing_sections tk fuel k a b r s s' :
  WF s → hasRouter c = true → a ≠ "" → (b = true → tk.2 = true) → SetServing c fuel k a b s = Some (r, s') →
  ∃ s1, rtc (section tk k) s s1 ∧
    ((r.2 ≠ None ∧ s' = s1) ∨
     (∃ st, addresses s1.1 !! a = Some st ∧ serving st !! k = Some b ∧
            reconcileRoute c fuel a s1 = Some (r, s'))).
Proof.
  intros W Hrt Hne Hb. unfold SetServing. rewrite Hrt, bool_decide_eq_false_2 by done. simpl.
  unfold rcGet, rcModify. cbv [mbind PG_bind total on_fst modify].
  destruct s as [rc e].
  match goal with |- context [(if ?g then ?m else ?n) ?st] =>
    destruct ((if g then m else n) st) as [[r1 s1]|] eqn:Hp; [|done] end.
  destruct (leave_previous_sections tk fuel k a r1 (rc, e) s1 W Hp) as [S1 Ht].
  destruct (r1.2) as [x|] eqn:Hr1.
  { intros [= <- <-]. eexists; split; [done|]. by left. }
  destruct s1 as [rc1 e1]. specialize (Ht eq_refl).
  pose proof (WF_sections _ _ _ _ W S1) as W1.
  pose proof (serve_sections tk rc1 e1 k a b W1 Hne Ht Hb) as Hsv. cbv zeta in Hsv.
  destruct (ensureRouteAddressStateLocked a _) as [st rc2].
  destruct Hsv as (S2 & -> & Hlk). intros Hr.
  eexists; split; [by etrans|]. right. eexists; split_and!; [done| |exact Hr].
  simpl. by rewrite lookup_insert_eq.
Qed.

(** Taking the drain: either refused with only an empty record added, or held
    with the VIP marked as not serving. *)
Lemma take_sections (rc : RC) (e : E) k a force ok rc' :
  WF (rc, e) → a ≠ "" → trackedAddress k rc = "" ∨ trackedAddress k rc = a →
  beginDrain_take k a force rc = (ok, rc') →
  rtc (section (Some a, false) k) (rc, e) (rc', e) ∧
  (ok = true → ∃ st, addresses rc' !! a = Some st ∧ drainOwner st = k ∧
     serving st !! k = Some false) ∧
  (ok = false → (∀ tk, rtc (section tk k) (rc, e) (rc', e)) ∧ ∃ st, addresses rc' !! a = Some st ∧
     ((drainOwner st ≠ "" ∧ drainOwner st ≠ k) ∨
      (force = false ∧ ∃ k', k' ≠ k ∧ serving st !! k' = Some true))).
Proof.
  intros W Hne Ht. unfold beginDrain_take.
  destruct (ensureRouteAddressStateLocked a rc) as [st rc1] eqn:He.
  assert (∀ tk, section tk k (rc, e) (rc1, e)) as S0.
  { intros tk. pose proof (sec_ensure tk k a rc e) as S1. by rewrite He in S1. }
  pose proof (S0 (Some a, false)) as S1.
  assert (addresses rc1 !! a = Some st ∧ vipAddresses rc1 = vipAddresses rc) as [Ha Hv].
  { unfold ensureRouteAddressStateLocked in He. case_match; simplify_eq/=; [done|].
    by rewrite lookup_insert_eq. }
  case_match eqn:Ho.
  { intros [= <- <-]. split_and!; [by apply rtc_once|done|]. intros _.
    split; [intros; by apply rtc_once|]. exists st. split; [done|].
    apply andb_true_iff in Ho as [?%bool_decide_eq_true ?%bool_decide_eq_true]. auto. }
  case_match eqn:Hp.
  { intros [= <- <-]. split_and!; [by apply rtc_once|done|]. intros _.
    split; [intros; by apply rtc_once|]. exists st. split; [done|].
    apply andb_true_iff in Hp as [?%negb_true_iff Hp]. right. split; [done|].
    apply any_true_spec in Hp as [k' Hk]. apply lookup_delete_Some in Hk as [? Hk]. eauto. }
  intros [= <- <-]. split_and!; [|intros _|done].
  - assert (drainOwner st = "" ∨ drainOwner st = k) as Hd.
    { apply andb_false_iff in Ho as [Ho|Ho]; apply bool_decide_eq_false in Ho;
        [left|right]; by apply dec_stable. }
    eapply rtc_l; [exact S1|].
    pose proof (sec_take (Some a, false) k a st rc1 e eq_refl Ha Hd) as S2.
    pose proof (WF_section (Some a, false) _ _ _ W S1) as W1. pose proof (WF_section (Some a, false) _ _ _ W1 S2) as W2.
    eapply rtc_l; [exact S2|]. apply rtc_once.
    pose proof (sec_serve (Some a, false) k a (setDrainOwner k st) false (setAddress a (setDrainOwner k st) rc1) e
                  Hne (lookup_setAddress _ _ _)) as S3.
    unfold setAddress in S3. simpl in S3. rewrite insert_insert_eq in S3.
    apply S3; [|done]. eapply tracked_serves_only; [exact W2|]. unfold trackedAddress in *. simpl.
    by rewrite Hv.
  - eexists. rewrite lookup_setAddress. split_and!; [done|done|]. simpl. by rewrite lookup_insert_eq.
Qed.

Lemma beginDrain_sections fuel k a force r s s' :
  WF s → hasRouter c = true → a ≠ "" → beginDrain c fuel k a force s = Some (r, s') →
  ∃ s1, rtc (section (Some a, false) k) s s1 ∧
    ((s' = s1 ∧ rtc (section (None, false) k) s s1 ∧ r.1 = false ∧
      (r.2 = None → ∃ st, addresses s1.1 !! a = Some st ∧
        ((drainOwner st ≠ "" ∧ drainOwner st ≠ k) ∨
         (force = false ∧ ∃ k', k' ≠ k ∧ serving st !! k' = Some true)))) ∨
     (∃ st adv er s2, addresses s1.1 !! a = Some st ∧ drainOwner st = k ∧
        serving st !! k = Some false ∧
        reconcileRoute c fuel a s1 = Some ((adv, er), s2) ∧
        (er = None → r = (negb adv, None) ∧ s' = s2) ∧
        (er ≠ None → r = (false, er) ∧ rtc (section (Some a, false) k) s2 s' ∧
           ∃ st', addresses s'.1 !! a = Some st' ∧ (k ≠ "" → drainOwner st' ≠ k)))).
Proof.
  intros W Hrt Hne. unfold beginDrain. rewrite Hrt, bool_decide_eq_false_2 by done. simpl.
  unfold rcGet, rcModify. cbv [mbind PG_bind total on_fst modify].
  destruct s as [rc e].
  match goal with |- context [(if ?g then ?m else ?n) ?st] =>
    destruct ((if g then m else n) st) as [[r1 s1]|] eqn:Hp; [|done] end.
  destruct (leave_previous_sections (Some a, false) fuel k a r1 (rc, e) s1 W Hp) as [S1 Ht].
  destruct (leave_previous_sections (None, false) fuel k a r1 (rc, e) s1 W Hp) as [S1' _].
  destruct (r1.2) as [x|] eqn:Hr1.
  { intros [= <- <-]. eexists; split; [done|]. by left. }
  destruct s1 as [rc1 e1]. specialize (Ht eq_refl). simpl in Ht.
  pose proof (WF_sections _ _ _ _ W S1) as W1.
  destruct (beginDrain_take k a force rc1) as [ok rc2] eqn:Htk.
  destruct (take_sections rc1 e1 k a force ok rc2 W1 Hne Ht Htk) as (S2 & Hok & Hno).
  exists (rc2, e1). split; [by etrans|].
  destruct ok; simpl in *; revert H; cbv [mret PG_ret];
    [|intros; simplify_eq/=; destruct (Hno eq_refl) as [S3 Hwhy]; left;
      split_and!; [done|by etrans; [exact S1'|apply S3]|done|done]].
  destruct (Hok eq_refl) as (st & Ha & Hd & Hk).
  destruct (reconcileRoute c fuel a (rc2, e1)) as [[[adv er] [rc3 e3]]|] eqn:Hr; [|done].
  pose proof (WF_sections _ _ _ _ W1 S2) as W2.
  destruct (reconcileRoute_sound _ _ _ _ _ _ _ Ha (wf_agree _ W2 _ _ Ha) Hr)
    as (st' & Hrc & [Hs' Hd'] & _). simpl in Hrc. subst rc3.
  intros Hres. right. exists st, adv, er, (setAddress a st' rc2, e3). split_and!; try done.
  - intros ->. by simplify_eq.
  - intros Her. destruct er as [x|]; [|done]. simplify_eq/=.
    rewrite lookup_insert_eq. rewrite Hd'. rewrite bool_decide_eq_true_2 by done.
    split_and!; [done| |].
    + apply rtc_once, sec_release; [by rewrite lookup_setAddress|done].
    + eexists. rewrite lookup_setAddress. split; [done|]. simpl. auto.
Qed.

Lemma FinishDrain_sections tk fuel k a r s s' :
  FinishDrain c fuel k a s = Some (r, s') → rtc (section tk k) s s'.
Proof.
  unfold FinishDrain, rcGet, rcModify. cbv [mbind PG_bind mret PG_ret total on_fst modify].
  destruct s as [rc e]. repeat case_match; intros; simplify_eq/=; try done.
  eapply rtc_l; [apply (sec_release tk k a); [done|]|apply rtc_once; by eapply sec_reconcile].
  match goal with H : bool_decide _ = false |- _ => apply bool_decide_eq_false in H end.
  by apply dec_stable.
Qed.

Lemma prepareAddressChange_sections tk fuel k a r s s' :
  WF s → prepareAddressChange c fuel k a s = Some (r, s') → rtc (section tk k) s s'.
Proof.
  intros W. unfold prepareAddressChange, rcGet.
  cbv [mbind PG_bind mret PG_ret total on_fst modify].
  destruct s as [rc e].
  repeat (case_match; simplify_eq/=); intros; simplify_eq/=; try done;
    by eapply removeVIPFromAddress_sections.
Qed.

Lemma Delete_sections tk fuel k a r s s' :
  WF s → Delete c fuel k a s = Some (r, s') → rtc (section tk k) s s'.
Proof.
  intros W. unfold Delete, rcGet.
  cbv [mbind PG_bind mret PG_ret total on_fst modify].
  destruct s as [rc e].
  repeat (case_match; simplify_eq/=); intros; simplify_eq/=; try done;
    by eapply removeVIPFromAddress_sections.
Qed.

Lemma runOp_sections fuel o r s s' :
  WF s → runOp c fuel o s = Some (r, s') → rtc (section (opGrant o) (opKey o)) s s'.
Proof.
  intros W.
  assert (∀ k a force, beginDrain c fuel k a force s = Some (r, s') → rtc (section (Some a, false) k) s s') as Hd.
  { intros k a force. destruct (hasRouter c) eqn:Hrt; [|unfold beginDrain; rewrite Hrt; intros [=]; by subst].
    destruct (decide (a = "")) as [->|Hne]; [unfold beginDrain; rewrite Hrt; intros [=]; by subst|].
    intros Hr. destruct (beginDrain_sections _ _ _ _ _ _ _ W Hrt Hne Hr)
      as (s1 & S1 & [[-> _]|(st & adv & er & s2 & _ & _ & _ & Hrr & Hn & He)]); [done|].
    etrans; [exact S1|]. eapply rtc_l; [by eapply sec_reconcile|].
    destruct er; [by apply He|]. by destruct (Hn eq_refl) as [_ ->]. }
  destruct o as [k a b|k a|k a|k a|k a|k a]; simpl;
    [|by apply Hd|by apply Hd|by apply FinishDrain_sections|by apply prepareAddressChange_sections
     |by apply Delete_sections].
  destruct (hasRouter c) eqn:Hrt; [|unfold SetServing; rewrite Hrt; intros [=]; by subst].
  destruct (decide (a = "")) as [->|Hne]; [unfold SetServing; rewrite Hrt; intros [=]; by subst|].
  intros Hr. destruct (SetServing_sections (None, b) _ _ _ _ _ _ _ W Hrt Hne id Hr)
    as (s1 & S1 & [[_ ->]|(st & _ & _ & Hrr)]); [done|].
  etrans; [exact S1|]. apply rtc_once. by eapply sec_reconcile.
Qed.

Lemma runOp_WF fuel o r s s' : WF s → runOp c fuel o s = Some (r, s') → WF s'.
Proof. intros W Hr. eapply WF_sections; [exact W|]. by eapply runOp_sections. Qed.

(** *** Drains exclude announcements *)

(** VIP [k] holds the drain of [a] and its route is withdrawn. *)
Definition drained (k a : string) (s : RC * E) : Prop :=
  ∃ st, addresses s.1 !! a = Some st ∧ drainOwner st = k ∧ is_Some (serving st !! k) ∧
    advertised st = false ∧ reconciled st = true ∧ IsAnnounced s.2 a = false.

(** At a drained address the coordinator has nothing to do. *)
Lemma reconcile_at_drained fuel k a r s s' :
  k ≠ "" → drained k a s → reconcileRoute c fuel a s = Some (r, s') →
  r = (false, None) ∧ s'.1 = s.1 ∧ ∀ b, IsAnnounced s'.2 b = IsAnnounced s.2 b.
Proof.
  destruct s as [rc e]. intros Hk (st & Ha & Hd & Hsv & Hadv & Hrec & Hann) Hr. simpl in *.
  destruct fuel as [|fuel]; [done|]. simpl in Hr.
  unfold reconcileRoute_decide, rcGet, io in Hr.
  cbv [mbind PG_bind mret PG_ret total on_fst on_snd] in Hr. rewrite Ha in Hr.
  destruct (readClock e) as [now e1] eqn:Hclk.
  assert (routeShouldAdvertiseLocked st = false) as Hs.
  { unfold routeShouldAdvertiseLocked. rewrite bool_decide_eq_true_2; [done|]. by rewrite Hd. }
  unfold nextRouteOperationLocked in Hr. rewrite Hs, Hadv, Hrec in Hr. simplify_eq/=.
  split_and!; try done. by apply (clock_announced _ _ _ Hclk).
Qed.

Lemma reconcile_drained fuel k a b r s s' :
  k ≠ "" → WF s → drained k a s → reconcileRoute c fuel b s = Some (r, s') → drained k a s'.
Proof.
  destruct s as [rc e]. intros Hk W Hdr Hr. destruct (decide (b = a)) as [->|Hne].
  - destruct (reconcile_at_drained _ _ _ _ _ _ Hk Hdr Hr) as (_ & Hrc & Hann).
    unfold drained. rewrite Hrc, Hann. done.
  - destruct Hdr as (st & Ha & Hd & Hsv & Hadv & Hrec & Hann). simpl in *.
    destruct (addresses rc !! b) as [stb|] eqn:Hb.
    + destruct (reconcileRoute_sound _ _ _ _ _ _ _ Hb (wf_agree _ W _ _ Hb) Hr)
        as (st' & Hrc & _ & _ & Hfr & _). destruct s' as [rc' e']; simpl in *; subst rc'.
      exists st. split_and!; try done; simpl; [by rewrite lookup_insert_ne|by rewrite Hfr].
    + destruct (reconcileRoute_untracked _ _ _ _ _ _ Hb Hr) as [_ ->]. by exists st.
Qed.

Lemma section_drained tk k k' a s s' :
  k ≠ "" → k' ≠ k → WF s → drained k a s → section tk k' s s' → drained k a s'.
Proof.
  intros Hk Hne W (st & Ha & Hd & Hsv & Hadv & Hrec & Hann) Hs.
  destruct Hs as [b stb rc e Hb|rc e Hn|b rc e|b rc e|b stb v rc e _ Hb Ho _|b stb rc e _ Hb Ho
                 |b stb rc e Hb Ho|fuel b r s s' Hr]; unfold drained; simpl in *.
  - destruct (decide (b = a)) as [->|]; simplify_map_eq; [|by exists st].
    eexists; split_and!; try done. simpl. by rewrite lookup_delete_ne.
  - by exists st.
  - unfold cleanupRouteAddressLocked. exists st. split_and!; try done.
    destruct (decide (b = a)) as [->|]; [rewrite Ha|by repeat case_match; simplify_map_eq].
    rewrite bool_decide_eq_false_2; [done|]. intros Hs. rewrite Hs in Hsv. by destruct Hsv.
  - unfold ensureRouteAddressStateLocked. exists st. split_and!; try done.
    destruct (decide (b = a)) as [->|]; [by rewrite Ha|]. case_match; simpl; by simplify_map_eq.
  - destruct (decide (b = a)) as [->|]; simplify_map_eq; [|by exists st].
    eexists; split_and!; try done. simpl. by rewrite lookup_insert_ne.
  - destruct (decide (b = a)) as [->|]; simplify_map_eq; [|by exists st].
    destruct Ho; congruence.
  - destruct (decide (b = a)) as [->|]; simplify_map_eq; by exists st.
  - eapply reconcile_drained; try done. by exists st.
Qed.

Lemma sections_drained tk k k' a s s' :
  k ≠ "" → k' ≠ k → WF s → drained k a s → rtc (section tk k') s s' → drained k a s'.
Proof.
  intros Hk Hne W Hd Hs. induction Hs as [|s s1 s2 H1 _ IH]; [done|].
  apply IH; [by eapply WF_section|by eapply section_drained].
Qed.

(** *** Who holds a drain *)

(** VIP [k] holds no drain, except possibly at [a]. *)
Definition no_drain (tk : option string) (k : string) (rc : RC) : Prop :=
  ∀ b st, addresses rc !! b = Some st → tk ≠ Some b → drainOwner st ≠ k.

Lemma reconcile_no_drain tk fuel k a r s s' :
  WF s → no_drain tk k s.1 → reconcileRoute c fuel a s = Some (r, s') → no_drain tk k s'.1.
Proof.
  destruct s as [rc e]. intros W Hn Hr.
  destruct (addresses rc !! a) as [st|] eqn:Ha.
  - destruct (reconcileRoute_sound _ _ _ _ _ _ _ Ha (wf_agree _ W _ _ Ha) Hr)
      as (st' & -> & [_ Hd] & _).
    intros b st1 Hb Hne. simpl in Hb. destruct (decide (a = b)) as [->|]; simplify_map_eq; eauto.
    rewrite Hd. eauto.
  - by destruct (reconcileRoute_untracked _ _ _ _ _ _ Ha Hr) as [_ ->].
Qed.

Lemma section_no_drain tk k s s' :
  k ≠ "" → WF s → section tk k s s' → no_drain tk.1 k s.1 → no_drain tk.1 k s'.1.
Proof.
  intros Hk W Hs Hn.
  assert (∀ rc (e : E) a st st', addresses rc !! a = Some st → no_drain tk.1 k rc →
    (drainOwner st' = drainOwner st ∨ drainOwner st' = "" ∨ tk.1 = Some a) →
    no_drain tk.1 k (setAddress a st' rc)) as Hset.
  { intros rc e a st st' Ha Hn' Hd b st1 Hb Hne. simpl in Hb.
    destruct (decide (a = b)) as [->|]; simplify_map_eq; [|by eauto].
    destruct Hd as [->|[->|?]]; [by eauto|done|done]. }
  destruct Hs; simpl in *.
  - by eapply Hset; [done|..|left].
  - done.
  - intros b st Hb Hne. unfold cleanupRouteAddressLocked in Hb.
    repeat case_match; simpl in *; try (apply lookup_delete_Some in Hb as [_ Hb]); by eapply Hn.
  - unfold ensureRouteAddressStateLocked. case_match; simpl; [done|].
    intros b st Hb Hne. simpl in Hb. destruct (decide (a = b)) as [->|]; simplify_map_eq; eauto.
  - eapply (Hset {| addresses := addresses rc; vipAddresses := <[k:=a]> (vipAddresses rc) |} e a st);
      [done|exact Hn|by left].
  - by eapply Hset; [done|..|right; right].
  - by eapply Hset; [done|..|right; left].
  - by eapply reconcile_no_drain.
Qed.

Lemma sections_no_drain tk k s s' :
  k ≠ "" → WF s → rtc (section tk k) s s' → no_drain tk.1 k s.1 → no_drain tk.1 k s'.1.
Proof.
  intros Hk W Hs. induction Hs as [|s s1 s2 H1 _ IH]; [done|]. intros Hn.
  apply IH; [by eapply WF_section|by eapply section_no_drain].
Qed.

Lemma no_drain_weaken tk k rc : no_drain None k rc → no_drain tk k rc.
Proof. intros Hn b st Hb _. by apply (Hn b). Qed.

(** [beginDrain] from no drain: success holds exactly the drain of [a];
    anything else holds none. *)
Lemma beginDrain_no_drain fuel k a force r s s' :
  k ≠ "" → WF s → hasRouter c = true → a ≠ "" → no_drain None k s.1 →
  beginDrain c fuel k a force s = Some (r, s') →
  no_drain (if r.1 then Some a else None) k s'.1.
Proof.
  intros Hk W Hrt Hne Hn Hr.
  destruct (beginDrain_sections _ _ _ _ _ _ _ W Hrt Hne Hr)
    as ([rc1 e1] & S1 & [(-> & S1' & Hf & Hno)|(st & adv & er & s2 & Ha & Hd & Hsv & Hrr & Hok & He)]).
  { rewrite Hf. by apply (sections_no_drain (None, false) k s). }
  pose proof (WF_sections _ _ _ _ W S1) as W1.
  pose proof (sections_no_drain (Some a, false) _ _ _ Hk W S1 (no_drain_weaken _ _ _ Hn)) as Hn1.
  pose proof (reconcile_no_drain _ _ _ _ _ _ _ W1 Hn1 Hrr) as Hn2.
  destruct er as [x|].
  - destruct He as (-> & S2 & st' & Ha' & Hd'); [done|]. simpl.
    pose proof (WF_reconcile _ _ _ _ _ W1 Hrr) as W2.
    assert (no_drain (Some a) k s'.1) as Hn3 by (by eapply (sections_no_drain (Some a, false))).
    intros b st1 Hb _. destruct (decide (b = a)) as [->|]; [simplify_eq; auto|].
    apply (Hn3 b); congruence.
  - destruct (Hok eq_refl) as (-> & ->).
    destruct (reconcileRoute_sound _ _ _ _ _ _ _ Ha (wf_agree _ W1 _ _ Ha) Hrr)
      as (st' & _ & _ & _ & _ & Hset). destruct (Hset eq_refl) as [Hadv _]. simpl in *.
    unfold routeShouldAdvertiseLocked in Hadv. rewrite bool_decide_eq_true_2 in Hadv by (by rewrite Hd).
    by subst adv.
Qed.

(** [FinishDrain] ends the drain at its address whatever the router answers. *)
Lemma FinishDrain_no_drain fuel k a r s s' :
  k ≠ "" → WF s → hasRouter c = true → a ≠ "" → no_drain (Some a) k s.1 →
  FinishDrain c fuel k a s = Some (r, s') → no_drain None k s'.1.
Proof.
  intros Hk W Hrt Hne Hn. destruct s as [rc e]. simpl in Hn.
  unfold FinishDrain, rcGet, rcModify. rewrite Hrt, bool_decide_eq_false_2 by done. unfold_monad. simpl.
  assert (∀ rc', (∀ st, addresses rc' !! a = Some st → drainOwner st ≠ k) →
    no_drain (Some a) k rc' → no_drain None k rc') as Hst.
  { intros rc' Ha Hn' b st Hb _. destruct (decide (b = a)) as [->|]; [by apply Ha|].
    apply (Hn' b); [done|congruence]. }
  destruct (addresses rc !! a) as [st|] eqn:Ha.
  2:{ intros [= _ <-]. simpl. apply Hst; [|done]. intros st' Ha'. by simplify_eq. }
  case_bool_decide as Hd.
  { intros [= _ <-]. simpl. apply Hst; [|done]. intros st' Ha'. by simplify_eq. }
  intros Hr. eapply reconcile_no_drain; [|..|exact Hr]; simpl.
  - eapply (WF_section (None, false) k); [exact W|]. by apply (sec_release (None, false) k a st).
  - apply Hst.
    + intros st'. rewrite lookup_setAddress. by intros [= <-].
    + intros b st' Hb Hb'. rewrite lookup_setAddress_ne in Hb by congruence. by apply (Hn b).
Qed.

(** Under a drain, re-asserting the VIP at its drained address makes no router
    call, so that it does not fail. *)
Lemma SetServing_drained fuel k a b r s s' :
  k ≠ "" → WF s → hasRouter c = true → a ≠ "" →
  drained k a s → no_drain (Some a) k s.1 →
  SetServing c fuel k a b s = Some (r, s') →
  r = (false, None) ∧ drained k a s' ∧ no_drain (Some a) k s'.1.
Proof.
  intros Hk W Hrt Hne Hdr Hn Hr.
  assert (no_drain (Some a) k s'.1) as Hn'.
  { destruct (SetServing_sections (Some a, true) _ _ _ _ _ _ _ W Hrt Hne (λ _, eq_refl) Hr)
      as (s1 & S1 & [[_ ->]|(st & _ & _ & Hrr)]); [by eapply (sections_no_drain (Some a, true))|].
    eapply reconcile_no_drain; [..|exact Hrr];
      [by eapply WF_sections|by eapply (sections_no_drain (Some a, true))]. }
  destruct s as [rc e]. destruct Hdr as (st & Ha & Hd & Hsv & Hadv & Hrec & Hann). simpl in *.
  pose proof (wf_tracked _ W _ _ _ Ha Hsv) as Htr. simpl in Htr.
  revert Hr. unfold SetServing, rcGet, rcModify. rewrite Hrt, bool_decide_eq_false_2 by done.
  unfold_monad. simpl. unfold trackedAddress. rewrite Htr. simpl.
  rewrite (bool_decide_eq_false_2 (a ≠ a)) by naive_solver. rewrite andb_false_r. simpl.
  unfold ensureRouteAddressStateLocked. simpl. rewrite Ha. simpl. intros Hr.
  match type of Hr with reconcileRoute _ _ _ (?rc1, _) = _ =>
    assert (drained k a (rc1, e)) as Hdr1 end.
  { eexists. simpl. rewrite lookup_insert_eq. split; [done|]. simpl.
    rewrite lookup_insert_eq. split_and!; try done; eauto. }
  destruct (reconcile_at_drained _ _ _ _ _ _ Hk Hdr1 Hr) as (-> & Hrc & Ha').
  split_and!; [done| |done]. unfold drained. rewrite Hrc, Ha'. done.
Qed.

(** A drain that was taken is held, with the route withdrawn. *)
Lemma beginDrain_drained fuel k a force er s s' :
  k ≠ "" → WF s → hasRouter c = true → a ≠ "" →
  beginDrain c fuel k a force s = Some ((true, er), s') → er = None ∧ drained k a s'.
Proof.
  intros Hk W Hrt Hne Hr.
  destruct (beginDrain_sections _ _ _ _ _ _ _ W Hrt Hne Hr)
    as ([rc1 e1] & S1 & [(-> & _ & Hf & Hno)|(st & adv & er1 & s2 & Ha & Hd & Hsv & Hrr & Hn & He)]);
    [done|].
  destruct er1 as [x|].
  { by destruct (He ltac:(done)) as (? & _). }
  destruct (Hn eq_refl) as ([= Hneg ->] & ->). split; [done|].
  pose proof (WF_sections _ _ _ _ W S1) as W1.
  destruct (reconcileRoute_sound _ _ _ _ _ _ _ Ha (wf_agree _ W1 _ _ Ha) Hrr)
    as (st' & Hrc & [Hs Hdo] & Hag & _ & Hok).
  destruct (Hok eq_refl) as (Hadv & Hann & Hadv' & Hrec).
  assert (routeShouldAdvertiseLocked st = false) as Hsh.
  { unfold routeShouldAdvertiseLocked. rewrite bool_decide_eq_true_2; [done|]. by rewrite Hd. }
  rewrite Hsh in *. exists st'. rewrite Hrc, lookup_setAddress.
  split_and!; try done; [by rewrite Hdo|by rewrite Hs].
Qed.

(** *** Which VIPs serve *)

Definition serves (k : string) (rc : RC) : Prop :=
  ∃ a st, addresses rc !! a = Some st ∧ serving st !! k = Some true.

Lemma reconcile_serves fuel k a r s s' :
  WF s → reconcileRoute c fuel a s = Some (r, s') →
  vipAddresses s'.1 = vipAddresses s.1 ∧
  ∀ b st', addresses s'.1 !! b = Some st' →
    ∃ st, addresses s.1 !! b = Some st ∧ serving st' !! k = serving st !! k.
Proof.
  destruct s as [rc e]. intros W Hr. destruct (addresses rc !! a) as [st|] eqn:Ha.
  - destruct (reconcileRoute_sound _ _ _ _ _ _ _ Ha (wf_agree _ W _ _ Ha) Hr)
      as (st' & -> & [Hs _] & _). split; [done|]. simpl.
    intros b st1 Hb. destruct (decide (a = b)) as [->|]; simplify_map_eq; [|by eauto].
    exists st. by rewrite Hs.
  - destruct (reconcileRoute_untracked _ _ _ _ _ _ Ha Hr) as [_ ->]. eauto.
Qed.

(** Without the grant to serve, a section makes no VIP serve. *)
Lemma section_serves d k k' s s' :
  WF s → section (d, false) k s s' → serves k' s'.1 → serves k' s.1.
Proof.
  intros W Hs.
  destruct Hs as [b stb rc e Hb|rc e Hn|b rc e|b rc e|b stb v rc e _ Hb Ho Hv|b stb rc e _ Hb Ho
                 |b stb rc e Hb Ho|fuel b r s s' Hr];
    intros (a & st & Ha & Hk); unfold serves; simpl in *.
  - destruct (decide (b = a)) as [->|]; simplify_map_eq; [|by eauto].
    simpl in Hk. apply lookup_delete_Some in Hk as [_ Hk]. eauto.
  - eauto.
  - unfold cleanupRouteAddressLocked in Ha. repeat case_match; eauto.
    simpl in Ha. apply lookup_delete_Some in Ha as [_ Ha]. eauto.
  - unfold ensureRouteAddressStateLocked in Ha. case_match; simpl in Ha; [by eauto|].
    destruct (decide (b = a)) as [->|]; simplify_map_eq; eauto.
  - destruct (decide (b = a)) as [->|]; simplify_map_eq; [|by eauto]. simpl in Hk.
    destruct (decide (k = k')) as [->|]; simplify_map_eq; [by specialize (Hv eq_refl)|eauto].
  - destruct (decide (b = a)) as [->|]; simplify_map_eq; eauto.
  - destruct (decide (b = a)) as [->|]; simplify_map_eq; eauto.
  - destruct (reconcile_serves _ k' _ _ _ _ W Hr) as [_ Hs].
    destruct (Hs _ _ Ha) as (st0 & Ha0 & Heq). exists a, st0. by rewrite <- Heq.
Qed.

Lemma sections_serves d k k' s s' :
  WF s → rtc (section (d, false) k) s s' → serves k' s'.1 → serves k' s.1.
Proof.
  intros W Hs. induction Hs as [|s s1 s2 H1 _ IH]; [done|]. intros Hk.
  eapply section_serves; [done..|]. apply IH; [by eapply WF_section|done].
Qed.

(** VIP [k] is tracked at no address other than [a]. *)
Definition at_home (k a : string) (rc : RC) : Prop :=
  trackedAddress k rc = "" ∨ trackedAddress k rc = a.

Lemma at_home_drained k a s : WF s → drained k a s → at_home k a s.1.
Proof.
  intros W (st & Ha & _ & Hsv & _). right. unfold trackedAddress.
  by rewrite (wf_tracked _ W _ _ _ Ha Hsv).
Qed.

Lemma prepareAddressChange_home fuel k a r s s' :
  WF s → hasRouter c = true → a ≠ "" →
  prepareAddressChange c fuel k a s = Some ((r, None), s') → at_home k a s'.1.
Proof.
  intros W Hrt Hne. unfold prepareAddressChange, rcGet, at_home.
  rewrite Hrt, bool_decide_eq_false_2 by done. unfold_monad. destruct s as [rc e]. simpl.
  destruct (bool_decide (trackedAddress k rc = "") || _) eqn:Ht.
  - apply orb_true_iff in Ht as [Ht|Ht]; apply bool_decide_eq_true in Ht;
      case_match; intros; simplify_eq/=; auto.
  - destruct (removeVIPFromAddress c fuel k (trackedAddress k rc) (rc, e)) as [[[adv er] s1]|] eqn:Hr; [|done].
    apply orb_false_iff in Ht as [Ht _]. apply bool_decide_eq_false in Ht.
    destruct (removeVIPFromAddress_sections (None, false) _ _ _ _ _ _ W Hr) as [_ Hok].
    destruct er; [done|]. intros [= _ <-]. left. by apply Hok; auto.
Qed.

(** From home, [SetServing] always records the wish, even when the router
    fails. *)
Lemma SetServing_home fuel k a b r s s' :
  WF s → hasRouter c = true → a ≠ "" → at_home k a s.1 →
  SetServing c fuel k a b s = Some (r, s') →
  at_home k a s'.1 ∧ (serves k s'.1 ↔ b = true).
Proof.
  intros W Hrt Hne Hh Hr. destruct s as [rc e]. revert Hr.
  unfold SetServing, rcGet, rcModify. rewrite Hrt, bool_decide_eq_false_2 by done.
  unfold_monad. simpl.
  replace (bool_decide (trackedAddress k rc ≠ "") && bool_decide (trackedAddress k rc ≠ a)) with false.
  2:{ destruct Hh as [Hh|Hh]; simpl in Hh; rewrite Hh; symmetry; apply andb_false_iff;
      [left|right]; apply bool_decide_eq_false; naive_solver. }
  pose proof (serve_sections (None, true) rc e k a b W Hne Hh (λ _, eq_refl)) as Hsv.
  cbv zeta in Hsv. simpl.
  assert (vipAddresses (ensureRouteAddressStateLocked a
    {| addresses := addresses rc; vipAddresses := <[k:=a]> (vipAddresses rc) |}).2 !! k = Some a) as Hva.
  { unfold ensureRouteAddressStateLocked. simpl.
    destruct (addresses rc !! a); simpl; by rewrite lookup_insert_eq. }
  destruct (ensureRouteAddressStateLocked a _) as [st rc2]. destruct Hsv as (S1 & _ & Hlk).
  intros Hr. pose proof (WF_sections _ _ _ _ W S1) as W1.
  destruct (reconcile_serves _ k _ _ _ _ W1 Hr) as [Hv Hs].
  split; [right; unfold trackedAddress; rewrite Hv; simpl in *; by rewrite Hva|].
  assert (∀ x st0, addresses (setAddress a (setServingMap <[k:=b]> st) rc2) !! x = Some st0 →
    is_Some (serving st0 !! k) → x = a ∧ serving st0 !! k = Some b) as Hat.
  { intros x st0 Hx Hk. pose proof (wf_tracked _ W1 _ _ k Hx Hk) as Htr. simpl in *.
    assert (x = a) as -> by congruence. rewrite Hlk in Hx. simplify_eq. simpl.
    by rewrite lookup_insert_eq. }
  split.
  - intros (x & st' & Hb & Hk). destruct (Hs _ _ Hb) as (st0 & Hb0 & Heq). rewrite Hk in Heq.
    destruct (Hat x st0 Hb0 ltac:(by rewrite <- Heq)). congruence.
  - intros ->. destruct (addresses s'.1 !! a) as [st'|] eqn:Ha'.
    + exists a, st'. split; [done|]. destruct (Hs _ _ Ha') as (st0 & Hb0 & ->).
      rewrite Hlk in Hb0. simplify_eq. simpl. by rewrite lookup_insert_eq.
    + destruct (reconcileRoute_sound _ _ _ _ _ _ _ Hlk (wf_agree _ W1 _ _ Hlk) Hr)
        as (st' & Hrc & _). rewrite Hrc, lookup_setAddress in Ha'. done.
Qed.

(** Taking a drain one already holds: nothing fails, and the drain stays. *)
Lemma beginDrain_again fuel k a force r s s' :
  k ≠ "" → WF s → hasRouter c = true → a ≠ "" →
  drained k a s → no_drain (Some a) k s.1 →
  beginDrain c fuel k a force s = Some (r, s') →
  r.2 = None ∧ drained k a s' ∧ no_drain (Some a) k s'.1.
Proof.
  intros Hk W Hrt Hne Hdr Hn Hr.
  assert (no_drain (Some a) k s'.1 ∧ WF s') as [Hn' W'].
  { assert (rtc (section (Some a, false) k) s s') as S1.
    { destruct force; [apply (runOp_sections fuel (OpBeginAddressDrain k a) r)
                      |apply (runOp_sections fuel (OpBeginDrain k a) r)]; done. }
    split; [by eapply (sections_no_drain (Some a, false))|by eapply WF_sections]. }
  cut (r.2 = None ∧ drained k a s'); [naive_solver|].
  destruct s as [rc e]. destruct Hdr as (st & Ha & Hd & Hsv & Hadv & Hrec & Hann). simpl in *.
  pose proof (wf_tracked _ W _ _ _ Ha Hsv) as Htr. simpl in Htr.
  revert Hr. unfold beginDrain, rcGet, rcModify. rewrite Hrt, bool_decide_eq_false_2 by done.
  unfold_monad. simpl. unfold trackedAddress. rewrite Htr. simpl.
  rewrite (bool_decide_eq_false_2 (a ≠ a)) by naive_solver. rewrite andb_false_r. simpl.
  unfold beginDrain_take, ensureRouteAddressStateLocked. rewrite Ha.
  rewrite (bool_decide_eq_false_2 (drainOwner st ≠ k)) by naive_solver. rewrite andb_false_r.
  destruct (negb force && any_true (delete k (serving st))).
  { intros [= <- <-]. split; [done|]. by exists st. }
  simpl. match goal with |- context [reconcileRoute _ _ _ (?rc1, _)] =>
    assert (drained k a (rc1, e)) as Hdr1 end.
  { eexists. simpl. rewrite lookup_insert_eq. split; [done|]. simpl.
    rewrite lookup_insert_eq. split_and!; try done; eauto. }
  match goal with |- context [reconcileRoute ?c ?f ?a ?s] =>
    destruct (reconcileRoute c f a s) as [[[adv er] [rc3 e3]]|] eqn:Hr; [|done] end.
  destruct (reconcile_at_drained _ _ _ _ _ _ Hk Hdr1 Hr) as ([= -> ->] & Hrc & Ha').
  intros [= <- <-]. split; [done|]. unfold drained. rewrite Hrc, Ha'. done.
Qed.

(** A drain is taken only on a VIP that does not serve. *)
Lemma beginDrain_stops_serving fuel k a force s s' er :
  WF s → hasRouter c = true → a ≠ "" →
  beginDrain c fuel k a force s = Some ((true, er), s') → ¬ serves k s'.1.
Proof.
  intros W Hrt Hne Hr.
  destruct (beginDrain_sections _ _ _ _ _ _ _ W Hrt Hne Hr)
    as (s1 & S1 & [(_ & _ & Hf & _)|(st & adv & e1 & s2 & Ha & _ & Hsv & Hrr & Hok & He)]); [done|].
  destruct e1 as [x|]; [by destruct (He ltac:(done)) as [? _]|].
  destruct (Hok eq_refl) as [_ ->]. pose proof (WF_sections _ _ _ _ W S1) as W1.
  destruct (reconcile_serves _ k _ _ _ _ W1 Hrr) as [_ Hs].
  intros (b & st' & Hb & Hk). destruct (Hs _ _ Hb) as (st0 & Hb0 & Heq). rewrite Hk in Heq.
  pose proof (wf_tracked _ W1 _ _ k Hb0 ltac:(by rewrite <- Heq)) as Htr.
  pose proof (wf_tracked _ W1 _ _ k Ha ltac:(by rewrite Hsv)) as Htr'. simplify_eq. congruence.
Qed.

(** [beginDrain] keeps a VIP at home. *)
Lemma beginDrain_home fuel k a force r s s' :
  WF s → hasRouter c = true → a ≠ "" → at_home k a s.1 →
  beginDrain c fuel k a force s = Some (r, s') → at_home k a s'.1.
Proof.
  intros W Hrt Hne Hh. destruct s as [rc e].
  unfold beginDrain, rcGet, rcModify. rewrite Hrt, bool_decide_eq_false_2 by done.
  unfold_monad. simpl.
  replace (bool_decide (trackedAddress k rc ≠ "") && bool_decide (trackedAddress k rc ≠ a)) with false.
  2:{ destruct Hh as [Hh|Hh]; simpl in Hh; rewrite Hh; symmetry; apply andb_false_iff;
      [left|right]; apply bool_decide_eq_false; naive_solver. }
  simpl.   destruct (beginDrain_take k a force rc) as [ok rc1] eqn:Htk.
  destruct (take_sections rc e k a force ok rc1 W Hne Hh Htk) as (S1 & Hok & Hno).
  pose proof (WF_sections _ _ _ _ W S1) as W1.
  destruct ok; simpl.
  - destruct (Hok eq_refl) as (st & Ha & Hd & Hsv).
    pose proof (wf_tracked _ W1 _ _ k Ha ltac:(by rewrite Hsv)) as Htr.
    destruct (reconcileRoute c fuel a (rc1, e)) as [[[adv er] [rc2 e2]]|] eqn:Hr; [|done].
    destruct (reconcile_serves _ k _ _ _ _ W1 Hr) as [Hv _]. simpl in *.
    assert (at_home k a rc2) as Hh2 by (right; unfold trackedAddress; by rewrite Hv, Htr).
    destruct er; [|by intros [= _ <-]]. intros [= _ <-]. simpl.
    repeat case_match; done.
  - intros [= _ <-]. simpl. revert Htk Hh. unfold beginDrain_take, at_home, trackedAddress.
    unfold ensureRouteAddressStateLocked. repeat case_match; intros; by simplify_eq/=.
Qed.

Lemma FinishDrain_home fuel k a r s s' :
  WF s → at_home k a s.1 → FinishDrain c fuel k a s = Some (r, s') → at_home k a s'.1.
Proof.
  intros W Hh. destruct s as [rc e]. unfold FinishDrain, rcGet, rcModify. unfold_monad.
  destruct (negb (hasRouter c) || _); [by intros [= _ <-]|].
  destruct (addresses rc !! a) as [st|] eqn:Ha; [|by intros [= _ <-]].
  case_bool_decide as Hd; [by intros [= _ <-]|]. intros Hr.
  assert (WF (setAddress a (setDrainOwner "" st) rc, e)) as W1.
  { eapply (WF_section (None, false) k); [exact W|]. by apply sec_release. }
  destruct (reconcile_serves _ k _ _ _ _ W1 Hr) as [Hv _].
  unfold at_home, trackedAddress in *. by rewrite Hv.
Qed.

(** A successful [Delete] leaves the VIP nowhere. *)
Lemma Delete_untracks fuel k a b s s' :
  WF s → hasRouter c = true → a ≠ "" → Delete c fuel k a s = Some ((b, None), s') →
  trackedAddress k s'.1 = "" ∧ ¬ serves k s'.1.
Proof.
  intros W Hrt Hne Hr. pose proof (Delete_sections (None, false) _ _ _ _ _ _ W Hr) as S1.
  pose proof (WF_sections _ _ _ _ W S1) as W'.
  assert (trackedAddress k s'.1 = "") as Ht.
  { revert Hr. unfold Delete, rcGet. rewrite Hrt. unfold_monad. destruct s as [rc e]. simpl in *.
    set (a' := if bool_decide (trackedAddress k rc ≠ "") then trackedAddress k rc else a).
    rewrite bool_decide_eq_false_2 by (unfold a'; by case_bool_decide).
    destruct (removeVIPFromAddress c fuel k a' (rc, e)) as [[[adv er] s1]|] eqn:Hrm; [|done].
    intros [= _ -> ->]. destruct (removeVIPFromAddress_sections (None, false) _ _ _ _ _ _ W Hrm) as [_ Hok].
    apply Hok; [done|]. unfold a'. simpl. case_bool_decide as Hc; [by right|].
    by left. }
  split; [done|]. intros (b' & st & Hb & Hk).
  pose proof (wf_tracked _ W' _ _ k Hb ltac:(by rewrite Hk)) as Htr.
  unfold trackedAddress in Ht. rewrite Htr in Ht. simpl in Ht. subst.
  by apply (wf_nonempty _ W' k "").
Qed.

(** *** What the operations return

    A [true] without an error is what the router announces. *)

Lemma SetServing_answers fuel k a b s s' :
  WF s → hasRouter c = true → a ≠ "" →
  SetServing c fuel k a b s = Some ((true, None), s') → IsAnnounced s'.2 a = true.
Proof.
  intros W Hrt Hne Hr.
  destruct (SetServing_sections (None, true) _ _ _ _ _ _ _ W Hrt Hne (λ _, eq_refl) Hr)
    as ([rc1 e1] & S1 & [[? _]|(st & Ha & _ & Hrr)]); [done|].
  pose proof (WF_sections _ _ _ _ W S1) as W1.
  destruct (reconcileRoute_sound _ _ _ _ _ _ _ Ha (wf_agree _ W1 _ _ Ha) Hrr)
    as (st' & _ & _ & _ & _ & Hok). destruct (Hok eq_refl) as (Hadv & Hann & _). simpl in Hadv. congruence.
Qed.

Lemma FinishDrain_answers fuel k a s s' :
  WF s → FinishDrain c fuel k a s = Some ((true, None), s') → IsAnnounced s'.2 a = true.
Proof.
  intros W. destruct s as [rc e]. unfold FinishDrain, rcGet, rcModify. unfold_monad.
  destruct (negb (hasRouter c) || _); [done|].
  destruct (addresses rc !! a) as [st|] eqn:Ha; [|done].
  case_bool_decide as Hd.
  { intros [= Had <-]. destruct (wf_agree _ W _ _ Ha) as [H1 H2]. rewrite <- H1; auto. }
  intros Hr. assert (WF (setAddress a (setDrainOwner "" st) rc, e)) as W1.
  { eapply (WF_section (None, false) k); [exact W|]. by apply sec_release. }
  destruct (reconcileRoute_sound _ _ _ _ _ _ _ (lookup_setAddress _ _ _)
    (wf_agree _ W1 _ _ (lookup_setAddress _ _ _)) Hr) as (st' & _ & _ & _ & _ & Hok).
  destruct (Hok eq_refl) as (Hadv & Hann & _). simpl in Hadv. congruence.
Qed.

Lemma prepareAddressChange_answers fuel k a s s' :
  WF s → prepareAddressChange c fuel k a s = Some ((true, None), s') → IsAnnounced s'.2 a = true.
Proof.
  intros W. destruct s as [rc e]. unfold prepareAddressChange, rcGet. unfold_monad.
  destruct (negb (hasRouter c) || _); [done|].
  destruct (bool_decide (trackedAddress k rc = "") || _).
  - destruct (addresses rc !! a) as [st|] eqn:Ha; [|done].
    intros [= Had <-]. destruct (wf_agree _ W _ _ Ha) as [H1 H2]. rewrite <- H1; auto.
  - destruct (removeVIPFromAddress c fuel k (trackedAddress k rc) (rc, e)) as [[[adv [x|]] s1]|]; done.
Qed.

Lemma FinishDrain_serves fuel k a r s s' :
  WF s → FinishDrain c fuel k a s = Some (r, s') → serves k s'.1 ↔ serves k s.1.
Proof.
  intros W Hr. split.
  { eapply (sections_serves None k k); [done|]. by eapply FinishDrain_sections. }
  revert Hr. destruct s as [rc e]. unfold FinishDrain, rcGet, rcModify. unfold_monad.
  destruct (negb (hasRouter c) || _); [by intros [= _ <-]|].
  destruct (addresses rc !! a) as [st|] eqn:Ha; [|by intros [= _ <-]].
  case_bool_decide as Hd; [by intros [= _ <-]|]. intros Hr (b & st0 & Hb & Hk). simpl in *.
  assert (WF (setAddress a (setDrainOwner "" st) rc, e)) as W1.
  { eapply (WF_section (None, false) k); [exact W|]. by apply sec_release. }
  destruct (reconcileRoute_sound _ _ _ _ _ _ _ (lookup_setAddress _ _ _)
    (wf_agree _ W1 _ _ (lookup_setAddress _ _ _)) Hr) as (st' & Hrc & [Hs _] & _).
  exists b. rewrite Hrc. simpl. destruct (decide (a = b)) as [->|]; simplify_map_eq; [|by eauto].
  eexists; split; [done|]. by rewrite Hs.
Qed.

(** *** Main results *)

(** C16. Whatever sequence of operations the reconcilers run, failing ones
    included, the coordinator stays well-formed: at every address its record
    agrees with the router, and every VIP is in the serving set of at most the
    one address it is tracked at. *)
Theorem coordinator_invariant fuel os s s' :
  WF s → runOps c fuel os s = Some (tt, s') → WF s'.
Proof.
  revert s. induction os as [|o os IH]; intros s W; simpl; [by intros [= <-]|].
  unfold_monad. destruct (runOp c fuel o s) as [[r s1]|] eqn:Hr; [|done].
  intros Ho. eapply IH; [|exact Ho]. by eapply runOp_WF.
Qed.

(** [SetServing] converges: when it returns no error, the router
    advertises the address exactly if no drain is held and some VIP of the
    address is serving, the caller's own wish included; and that is what it
    returns. *)
Theorem SetServing_converges fuel k a b adv s s' :
  WF s → hasRouter c = true → a ≠ "" →
  SetServing c fuel k a b s = Some ((adv, None), s') →
  IsAnnounced s'.2 a = adv ∧
  ∃ st, addresses s'.1 !! a = Some st ∧ serving st !! k = Some b ∧
    (adv = true ↔ drainOwner st = "" ∧ ∃ k', serving st !! k' = Some true).
Proof.
  intros W Hrt Hne Hr.
  destruct (SetServing_sections (None, true) _ _ _ _ _ _ _ W Hrt Hne (λ _, eq_refl) Hr)
    as ([rc1 e1] & S1 & [[? _]|(st & Ha & Hk & Hrr)]); [done|].
  pose proof (WF_sections _ _ _ _ W S1) as W1.
  destruct (reconcileRoute_sound _ _ _ _ _ _ _ Ha (wf_agree _ W1 _ _ Ha) Hrr)
    as (st' & Hrc & [Hs Hd] & _ & _ & Hok).
  destruct (Hok eq_refl) as (Hadv & Hann & _). simpl in Hadv. subst adv. split; [done|].
  exists st'. rewrite Hrc, lookup_setAddress, Hs, Hd. split_and!; try done.
  unfold routeShouldAdvertiseLocked. rewrite <- any_true_spec.
  case_bool_decide as Hd0; [split; [done|by intros [??]]|].
  tauto.
Qed.


(** [beginDrain] reports success only with the drain held and the route
    withdrawn, and refuses only when another VIP holds the drain or, without
    [forceAddress], a sibling is serving. *)
Theorem beginDrain_outcome fuel k a force r s s' :
  k ≠ "" → WF s → hasRouter c = true → a ≠ "" →
  beginDrain c fuel k a force s = Some (r, s') →
  (r.1 = true → drained k a s') ∧
  (r = (false, None) → ∃ st, addresses s'.1 !! a = Some st ∧
     ((drainOwner st ≠ "" ∧ drainOwner st ≠ k) ∨
      (force = false ∧ ∃ k', k' ≠ k ∧ serving st !! k' = Some true))).
Proof.
  intros Hk W Hrt Hne Hr. split.
  { destruct r as [[|] er]; [|done]. intros _. by destruct (beginDrain_drained _ _ _ _ _ _ _ Hk W Hrt Hne Hr). }
  intros ->. destruct (beginDrain_sections _ _ _ _ _ _ _ W Hrt Hne Hr)
    as ([rc1 e1] & S1 & [(-> & _ & _ & Hno)|(st & adv & er & s2 & Ha & Hd & _ & Hrr & Hn & He)]);
    [by apply Hno|].
  destruct er as [x|]; [by destruct (He ltac:(done)) as (? & _)|].
  destruct (Hn eq_refl) as ([= Hneg] & ->). pose proof (WF_sections _ _ _ _ W S1) as W1.
  destruct (reconcileRoute_sound _ _ _ _ _ _ _ Ha (wf_agree _ W1 _ _ Ha) Hrr)
    as (st' & _ & _ & _ & _ & Hok). destruct (Hok eq_refl) as (Hadv & _).
  revert Hadv. unfold routeShouldAdvertiseLocked.
  rewrite bool_decide_eq_true_2 by (by rewrite Hd). simpl. by destruct adv.
Qed.

(** Deleting a VIP forgets it: it is tracked nowhere and serves at no
    address, and the route of the address it had is then advertised exactly if
    no drain is held there and a sibling serves. *)
Theorem Delete_forgets fuel k a b s s' :
  WF s → hasRouter c = true → Delete c fuel k a s = Some ((b, None), s') →
  let a' := if bool_decide (trackedAddress k s.1 ≠ "") then trackedAddress k s.1 else a in
  a' ≠ "" →
  trackedAddress k s'.1 = "" ∧ serves_nowhere k s'.1 ∧
  (∀ st, addresses s.1 !! a' = Some st →
     (IsAnnounced s'.2 a' = true ↔
      drainOwner st = "" ∧ ∃ k', k' ≠ k ∧ serving st !! k' = Some true)).
Proof.
  intros W Hrt Hr a' Hne. pose proof (Delete_sections (None, false) _ _ _ _ _ _ W Hr) as S1.
  pose proof (WF_sections _ _ _ _ W S1) as W'.
  revert Hr. unfold Delete, rcGet. rewrite Hrt. unfold_monad. destruct s as [rc e]. simpl in *.
  fold a'. rewrite bool_decide_eq_false_2 by done.
  destruct (removeVIPFromAddress c fuel k a' (rc, e)) as [[[adv er] s1]|] eqn:Hrm; [|done].
  intros [= <- -> ->].
  destruct (removeVIPFromAddress_sections (None, false) _ _ _ _ _ _ W Hrm) as [_ Hok]. simpl in Hok.
  destruct Hok as [Ht Hann]; [done| |].
  { subst a'. case_bool_decide as Hd; [by right|]. by left. }
  split_and!; [done| |].
  - intros a1 st Ha. destruct s' as [rc' e'].
    pose proof (tracked_serves_only _ _ _ "" W' (or_introl Ht)) as Ho.
    destruct (decide (a1 = "")) as [->|]; [|by eapply Ho].
    apply eq_None_not_Some. intros Hs. by destruct (wf_nonempty _ W' _ _ (wf_tracked _ W' _ _ _ Ha Hs)).
  - intros st Ha. rewrite (Hann _ Ha). unfold routeShouldAdvertiseLocked; simpl.
    case_bool_decide as Hd; [split; [done|by intros [??]]|].
    rewrite any_true_spec. setoid_rewrite lookup_delete_Some. naive_solver.
Qed.

(** Rate limit: a VIP that keeps serving at an advertised address whose
    route was verified less than the interval ago costs no router call; only
    the clock is read. *)
Theorem fresh_route_no_router_call fuel k a rc (e e1 : E) st t now :
  hasRouter c = true → a ≠ "" → trackedAddress k rc = a →
  addresses rc !! a = Some st → serving st !! k = Some true → drainOwner st = "" →
  advertised st = true → lastVerified st = Some t →
  readClock e = (now, e1) → (now < t + routeVerificationInterval c)%Z →
  SetServing c (S fuel) k a true (rc, e) = Some ((true, None), (rc, e1)).
Proof.
  intros Hrt Hne Ht Ha Hk Hd Hadv Hlv Hclk Hnow.
  assert (vipAddresses rc !! k = Some a) as Hva.
  { unfold trackedAddress in Ht. destruct (vipAddresses rc !! k) as [x|]; simpl in Ht; congruence. }
  unfold SetServing. rewrite Hrt, bool_decide_eq_false_2 by done. simpl.
  unfold rcGet, rcModify. cbv [mbind PG_bind mret PG_ret total on_fst modify].
  rewrite Ht, (bool_decide_eq_false_2 (a ≠ a)) by auto. rewrite andb_false_r.
  unfold ensureRouteAddressStateLocked. simpl. rewrite Ha.
  replace (setServingMap <[k:=true]> st) with st
    by (destruct st; unfold setServingMap; simpl in *; by rewrite insert_id).
  rewrite (setAddress_id a st _) by done. rewrite insert_id by done.
  unfold reconcileRoute_decide, rcGet, io. cbv [mbind PG_bind mret PG_ret total on_fst on_snd].
  simpl. rewrite Ha, Hclk.
  assert (nextRouteOperationLocked c st now = (routeOperationNone, true, now)) as ->.
  { unfold nextRouteOperationLocked, routeShouldAdvertiseLocked, shouldVerifyAdvertisedRoute.
    rewrite Hd, Hlv, Hadv, bool_decide_eq_false_2 by auto.
    rewrite (proj2 (any_true_spec _)) by eauto.
    by rewrite (proj2 (Z.ltb_lt _ _)) by done. }
  destruct rc. done.
Qed.
End Properties.

(** *** Termination of the route loop *)
Section Termination.
Context {E : Type} `{!Router E} `{!Clock E}.
Variable c : Config.

(** An announcement takes less than the verification interval: the clock read
    after it is within the interval of the clock read before it. *)
Definition prompt_router : Prop :=
  ∀ a (e e1 e2 e3 : E) t0 t1,
    readClock e = (t0, e1) → AnnounceVIP a e1 = (None, e2) → readClock e2 = (t1, e3) →
    (t1 < t0 + routeVerificationInterval c)%Z.

(** An announcement succeeds but takes the verification interval or longer,
    on a clock that does not go back. *)
Definition slow_router (a : string) : Prop :=
  ∀ (e : E), let '(t0, e1) := readClock e in
    let '(r, e2) := AnnounceVIP a e1 in let '(t1, e3) := readClock e2 in
    r = None ∧ (t0 + routeVerificationInterval c <= t1 <= (readClock e3).1)%Z.

Lemma commit_none_op a op t rc (e : E) st :
  addresses rc !! a = Some st →
  reconcileRoute_commit c a op t (rc, e) =
    (let st' := applyRouteOperationLocked st op t in
     let '(now, e') := readClock e in
     let '(op', adv', _) := nextRouteOperationLocked c st' now in
     Some (if bool_decide (op' = routeOperationNone) then Some adv' else None,
           (setAddress a st' rc, e'))).
Proof.
  intros Ha. unfold reconcileRoute_commit, rcGet, rcModify, io. unfold_monad. simpl.
  rewrite Ha. simpl. destruct (readClock e) as [now e1]. simpl.
  by destruct (nextRouteOperationLocked c _ now) as [[op1 adv1] t1].
Qed.

Lemma reconcileRoute_terminates fuel a s :
  prompt_router → ∃ r s', reconcileRoute c (S fuel) a s = Some (r, s').
Proof.
  intros Hp. destruct s as [rc e]. simpl.
  unfold reconcileRoute_decide, rcGet, io.
  cbv [mbind PG_bind mret PG_ret total on_fst on_snd].
  destruct (addresses rc !! a) as [st|] eqn:Ha; [|eauto].
  destruct (readClock e) as [t0 e1] eqn:Hc0.
  destruct (nextRouteOperationLocked c st t0) as [[op adv] t] eqn:Hn.
  assert (op ≠ routeOperationNone → t = t0 ∧ routeShouldAdvertiseLocked st =
            bool_decide (op = routeOperationAnnounce)) as Ht.
  { unfold nextRouteOperationLocked in Hn. destruct (routeShouldAdvertiseLocked st).
    - case_match; simplify_eq; [done|]. intros _. by rewrite bool_decide_eq_true_2.
    - case_match; simplify_eq; [|done]. intros _. by rewrite bool_decide_eq_false_2. }
  destruct op; [eauto| |].
  - destruct (AnnounceVIP a e1) as [[x|] e2] eqn:Ho; [eauto|].
    rewrite (commit_none_op _ _ _ _ _ st Ha).
    destruct (readClock e2) as [t1 e3] eqn:Hc1.
    specialize (Hp _ _ _ _ _ _ _ Hc0 Ho Hc1). destruct Ht as [-> Hs]; [done|].
    unfold nextRouteOperationLocked. rewrite (same_intent_should st) by (by split).
    rewrite Hs. unfold shouldVerifyAdvertisedRoute; simpl.
    rewrite (proj2 (Z.ltb_lt _ _)) by done. simpl. eauto.
  - destruct (WithdrawVIP a e1) as [[x|] e2] eqn:Ho; [eauto|].
    rewrite (commit_none_op _ _ _ _ _ st Ha).
    destruct (readClock e2) as [t1 e3] eqn:Hc1. destruct Ht as [-> Hs]; [done|].
    unfold nextRouteOperationLocked. rewrite (same_intent_should st) by (by split).
    rewrite Hs. simpl. eauto.
Qed.

Lemma removeVIPFromAddress_terminates fuel k a s :
  prompt_router → ∃ r s', removeVIPFromAddress c (S fuel) k a s = Some (r, s').
Proof.
  intros Hp. unfold removeVIPFromAddress, rcGet, rcModify. destruct s as [rc e].
  cbv [mbind PG_bind mret PG_ret total on_fst modify]. case_match; [eauto|].
  match goal with |- context [reconcileRoute c (S fuel) a ?s] =>
    destruct (reconcileRoute_terminates fuel a s Hp) as ([adv er] & [rc' e'] & Hr) end.
  rewrite Hr. eauto.
Qed.

(** With a router whose announcements take less than the verification
    interval, every operation of the coordinator returns: one pass of the
    loop is enough. *)
Lemma runOp_total fuel o s :
  prompt_router → ∃ r s', runOp c (S fuel) o s = Some (r, s').
Proof.
  intros Hp. pose proof (λ a s, reconcileRoute_terminates fuel a s Hp) as Hrr.
  pose proof (λ k a s, removeVIPFromAddress_terminates fuel k a s Hp) as Hrm.
  remember (S fuel) as n. clear Heqn fuel. destruct s as [rc e].
  assert (∀ k a (b : bool) s, ∃ r s',
    (if b then removeVIPFromAddress c n k a else mret (false, None)) s = Some (r, s')) as Hif.
  { intros k a [] s; [apply Hrm|]. unfold_monad. eauto. }
  assert (∀ k a f, ∃ r s', beginDrain c n k a f (rc, e) = Some (r, s')) as Hbd.
  { intros k a f. unfold beginDrain, rcGet, rcModify.
    cbv [mbind PG_bind total on_fst modify]. case_match; [cbv [mret PG_ret]; eauto|].
    match goal with |- context [(if ?b then _ else _) (rc, e)] =>
      destruct (Hif k (trackedAddress k rc) b (rc, e)) as (r & [rc1 e1] & ->) end.
    destruct r as [r1 [x|]]; simpl; [cbv [mret PG_ret]; eauto|].
    destruct (beginDrain_take k a f rc1) as [[] rc2]; simpl; [|cbv [mret PG_ret]; eauto].
    destruct (Hrr a (rc2, e1)) as ([adv er] & [rc3 e3] & ->).
    destruct er; cbv [mret PG_ret]; eauto. }
  destruct o as [k a b|k a|k a|k a|k a|k a]; simpl; [|apply Hbd|apply Hbd|..].
  - unfold SetServing, rcGet, rcModify. cbv [mbind PG_bind total on_fst modify].
    case_match; [cbv [mret PG_ret]; eauto|].
    match goal with |- context [(if ?b then _ else _) (rc, e)] =>
      destruct (Hif k (trackedAddress k rc) b (rc, e)) as (r & [rc1 e1] & ->) end.
    destruct r as [r1 [x|]]; simpl; [cbv [mret PG_ret]; eauto|]. apply Hrr.
  - unfold FinishDrain, rcGet, rcModify. cbv [mbind PG_bind mret PG_ret total on_fst modify].
    repeat case_match; eauto.
  - unfold prepareAddressChange, rcGet. cbv [mbind PG_bind mret PG_ret total on_fst].
    case_match; [eauto|]. case_match; [case_match; eauto|].
    destruct (Hrm k (trackedAddress k rc) (rc, e)) as ([adv [x|]] & s' & ->); eauto.
  - unfold Delete, rcGet. cbv [mbind PG_bind mret PG_ret total on_fst].
    case_match; [eauto|]. case_match; [eauto|].
    match goal with |- context [removeVIPFromAddress c n k ?x] =>
      destruct (Hrm k x (rc, e)) as (r & s' & ->); eauto end.
Qed.

(** The loop has no bound of its own: with a router whose announcements
    succeed but take the verification interval or longer, announcing an
    address never returns, whatever the fuel.  The time recorded with an
    announcement is the one read before the call, so it is already stale. *)
Theorem slow_router_never_returns fuel a rc (e : E) st :
  slow_router a → addresses rc !! a = Some st → routeShouldAdvertiseLocked st = true →
  advertised st = false → reconcileRoute c fuel a (rc, e) = None.
Proof.
  intros Hslow Ha Hs Hadv.
  assert (advertised st = true → ∃ t, lastVerified st = Some t ∧
          (t + routeVerificationInterval c <= (readClock e).1)%Z) as Hst by congruence.
  clear Hadv. revert rc e st Ha Hs Hst. induction fuel as [|fuel IH]; intros; [done|].
  simpl. unfold reconcileRoute_decide, rcGet, io.
  cbv [mbind PG_bind mret PG_ret total on_fst on_snd]. rewrite Ha.
  specialize (Hslow e). destruct (readClock e) as [t0 e1] eqn:Hc0.
  assert (nextRouteOperationLocked c st t0 = (routeOperationAnnounce, advertised st, t0)) as ->.
  { unfold nextRouteOperationLocked, shouldVerifyAdvertisedRoute. rewrite Hs.
    destruct (advertised st); [|done]. destruct Hst as (t & -> & Ht); [done|]. simpl in Ht.
    by rewrite (proj2 (Z.ltb_ge _ _)). }
  destruct (AnnounceVIP a e1) as [r e2] eqn:Ho.
  destruct (readClock e2) as [t1 e3] eqn:Hc1. destruct Hslow as (-> & Hle).
  rewrite (commit_none_op _ _ _ _ _ st Ha), Hc1.
  unfold nextRouteOperationLocked. rewrite (same_intent_should st) by (by split).
  rewrite Hs. unfold shouldVerifyAdvertisedRoute. simpl.
  rewrite (proj2 (Z.ltb_ge _ _)) by lia. simpl.
  eapply IH; [apply lookup_setAddress|done|]. simpl. intros _. eexists; split; [done|]. lia.
Qed.
End Termination.
End RouteCoordinator.

(** ** Concrete runs *)
Module RouteExamples.
Import NoopRouter RouteCoordinator.

Definition cfg : Config := (newRouteCoordinator true (30 * Second)).1.
Definition start : RC * Noop :=
  ((newRouteCoordinator true (30 * Second)).2, {| announced := ∅; clock := 5 |}).

(** The state reached by a sequence of operations. *)
Definition after (os : list routeOp) : RC * Noop :=
  match runOps cfg 1 os start with Some (_, s) => s | None => start end.

Lemma WF_start : WF start.
Proof. split; simpl; intros *; by rewrite lookup_empty. Qed.

Definition two_serving : list routeOp :=
  [OpSetServing "ns/a" "10.0.0.1" true; OpSetServing "ns/b" "10.0.0.1" true].
Definition a_drains : list routeOp := two_serving ++ [OpBeginAddressDrain "ns/a" "10.0.0.1"].

Lemma WF_after os : runOps cfg 1 os start = Some (tt, after os) → WF (after os).
Proof. intros Hr. revert Hr. generalize (after os) as s'. generalize WF_start.
  generalize start as s. revert os. fix IH 1. intros [|o os] s W s'; simpl; [by intros [= <-]|].
  unfold_monad. destruct (runOp cfg 1 o s) as [[r s1]|] eqn:Hr; [|done].
  intros Ho. eapply IH; [|exact Ho]. by eapply runOp_WF.
Qed.

Lemma coordinator_invariant_witness :
  WF start ∧ runOps cfg 1 a_drains start = Some (tt, after a_drains) ∧ WF (after a_drains).
Proof.
  split; [exact WF_start|]. split; [vm_compute; reflexivity|].
  apply (coordinator_invariant cfg 1 a_drains start); [exact WF_start|vm_compute; reflexivity].
Defined.

Lemma SetServing_converges_witness :
  SetServing cfg 1 "ns/a" "10.0.0.1" true start = Some ((true, None), after [OpSetServing "ns/a" "10.0.0.1" true])
  ∧ IsAnnounced (after [OpSetServing "ns/a" "10.0.0.1" true]).2 "10.0.0.1" = true.
Proof.
  split; [vm_compute; reflexivity|].
  apply (SetServing_converges cfg 1 "ns/a" "10.0.0.1" true true start);
    [exact WF_start|reflexivity|discriminate|vm_compute; reflexivity].
Defined.

Lemma a_holds_drain : drained "ns/a" "10.0.0.1" (after a_drains).
Proof.
  eexists. split; [vm_compute; reflexivity|].
  split_and!; try (vm_compute; reflexivity). eexists. vm_compute. reflexivity.
Qed.

(** A sibling that serves, drains and moves away leaves the drain in place. *)
Definition b_moves : list routeOp :=
  [OpSetServing "ns/b" "10.0.0.1" true; OpBeginDrain "ns/b" "10.0.0.1";
   OpSetServing "ns/b" "10.0.0.2" true; OpDelete "ns/b" "10.0.0.2"].


Lemma beginDrain_outcome_witness :
  beginDrain cfg 1 "ns/a" "10.0.0.1" true (after two_serving) = Some ((true, None), after a_drains)
  ∧ drained "ns/a" "10.0.0.1" (after a_drains).
Proof.
  split; [vm_compute; reflexivity|].
  apply (beginDrain_outcome cfg 1 "ns/a" "10.0.0.1" true (true, None) (after two_serving));
    [discriminate|apply WF_after; vm_compute; reflexivity|reflexivity|discriminate
    |vm_compute; reflexivity|reflexivity].
Defined.

Lemma Delete_forgets_witness :
  trackedAddress "ns/a" (after (two_serving ++ [OpDelete "ns/a" ""])).1 = "".
Proof.
  apply (Delete_forgets cfg 1 "ns/a" "" false (after two_serving));
    [apply WF_after; vm_compute; reflexivity|reflexivity|vm_compute; reflexivity|].
  vm_compute. discriminate.
Defined.

Lemma fresh_route_no_router_call_witness :
  SetServing cfg 1 "ns/a" "10.0.0.1" true (after two_serving) =
  Some ((true, None), after two_serving).
Proof.
  apply (fresh_route_no_router_call cfg 0 "ns/a" "10.0.0.1" (after two_serving).1
    (after two_serving).2 (after two_serving).2
    {| serving := {["ns/a" := true; "ns/b" := true]}; advertised := true; reconciled := true;
       drainOwner := ""; lastVerified := Some 5%Z |} 5 5);
    try (vm_compute; reflexivity); discriminate.
Defined.

(** A router whose announcements take a minute each. *)
Record SlowRouter := { sr_noop : Noop }.
Definition slowAnnounce (a : string) : ST SlowRouter error := λ s,
  (None, {| sr_noop := {| announced := <[a := true]> (announced (sr_noop s));
                          clock := (clock (sr_noop s) + Minute)%Z |} |}).
#[export] Instance SlowRouter_Router : Router SlowRouter :=
  {| AnnounceVIP := slowAnnounce;
     WithdrawVIP := λ a s, (None, {| sr_noop := (NoopWithdrawVIP a (sr_noop s)).2 |});
     IsAnnounced := λ s, NoopIsAnnounced (sr_noop s) |}.
#[export] Instance SlowRouter_Clock : Clock SlowRouter :=
  {| readClock := λ s, (clock (sr_noop s), s) |}.

Definition wanted : routeAddressState :=
  {| serving := {["ns/a" := true]}; advertised := false; reconciled := false;
     drainOwner := ""; lastVerified := None |}.

Lemma slow_router_never_returns_witness :
  reconcileRoute cfg 100 "10.0.0.1"
    ({| addresses := {["10.0.0.1" := wanted]}; vipAddresses := {["ns/a" := "10.0.0.1"]} |},
     {| sr_noop := {| announced := ∅; clock := 0 |} |}) = None.
Proof.
  apply (slow_router_never_returns cfg 100 "10.0.0.1" _ _ wanted).
  - intros e. simpl. split; [reflexivity|]. unfold Minute, Second. lia.
  - reflexivity.
  - reflexivity.
  - reflexivity.
Defined.

End RouteExamples.
