(* ===== verification/Vpp.v ===== *)
(** * The VPP data plane (internal/agent/dataplane/vpp.go)

    The driver keeps a cache of the VIPs it applied and edits VPP through four
    binary-API calls, which are the class [VPPConn]; [VPPLaws] states what
    they do.  Operations are state passing over the cache and the environment;
    the loops over Go maps go through [MapOrder]. *)

From stdpp Require Import base tactics list gmap strings pretty.
From S2P Require Import Prelude Types Net Routing.

Module Vpp.

(** ** The binary API *)

(** [ip_types.Address]: an address family with its bytes. *)
Inductive Address := IP4 (b : list Z) | IP6 (b : list Z).
Record AddressWithPrefix := { pfx_Address : Address; pfx_Len : Z }.

Inductive LbEncapType := ENCAP_GRE4 | ENCAP_GRE6 | ENCAP_L3DSR | ENCAP_NAT4 | ENCAP_NAT6.
Inductive LbSrvType := SRV_CLUSTERIP | SRV_NODEPORT.

(** [lb_types.LbVip]: what identifies a VIP in VPP. *)
Record LbVip := { lbv_Pfx : AddressWithPrefix; lbv_Protocol : Z; lbv_Port : Z }.

Record LbVipDetails := {
  det_Vip : LbVip;
  det_Encap : LbEncapType;
  det_Dscp : Z;
  det_SrvType : LbSrvType;
  det_TargetPort : Z;
  det_FlowTableLength : Z;
}.

Record LbAsDetails := { asd_Vip : LbVip; asd_AppSrv : Address }.

Record LbAddDelVip := {
  adv_Vip : LbVip;
  adv_Encap : LbEncapType;
  adv_Dscp : Z;
  adv_Type : LbSrvType;
  adv_TargetPort : Z;
  adv_NewFlowsTableLength : Z;
  adv_IsDel : bool;
}.

Record LbAddDelAs := {
  ada_Vip : LbVip;
  ada_AsAddress : Address;
  ada_IsDel : bool;
}.

#[export] Instance Address_eq_dec : EqDecision Address.
Proof. solve_decision. Defined.
#[export] Instance AddressWithPrefix_eq_dec : EqDecision AddressWithPrefix.
Proof. solve_decision. Defined.
#[export] Instance LbVip_eq_dec : EqDecision LbVip.
Proof. solve_decision. Defined.
#[export] Instance LbEncapType_eq_dec : EqDecision LbEncapType.
Proof. solve_decision. Defined.
#[export] Instance LbSrvType_eq_dec : EqDecision LbSrvType.
Proof. solve_decision. Defined.
#[export] Instance Address_countable : Countable Address.
Proof.
  refine (inj_countable' (λ a, match a with IP4 b => (true, b) | IP6 b => (false, b) end)
            (λ p : bool * list Z, if p.1 then IP4 p.2 else IP6 p.2) _).
  by intros [].
Defined.

(** A dump is refused, or is a stream of details that may end in an error;
    an invocation fails, or returns a code. *)
Class VPPConn (E : Type) := {
  InvokeLbVipDump : ST E (err + list LbVipDetails * error);
  InvokeLbAsDump : LbVip → ST E (err + list LbAsDetails * error);
  InvokeLbAddDelVip : LbAddDelVip → ST E (err + Z);
  InvokeLbAddDelAs : LbAddDelAs → ST E (err + Z);
}.

(** ** Configuration and driver state *)
Record VPPConfig := {
  cfg_EncapType : string;
  cfg_DSCP : Z;
  cfg_ServiceType : string;
  cfg_NewFlowsTableLength : Z;
  cfg_FailOnAllBackendsDown : bool;
  cfg_StateVerificationInterval : Z;
}.

Record VIPTuningDrift := { Field : string; Current : string; Desired : string }.

Record vipEntry := {
  ent_vip : VirtualIP;
  ent_backends : gmap string BackendSpec;
  ent_lastVerified : option Z;
}.

Record VPP := {
  vips : gmap string vipEntry;
  tuningDrifts : gmap string (list VIPTuningDrift);
}.

Record vipAttributes := {
  at_address : string;
  at_port : Z;
  at_protocol : string;
  at_encapType : string;
  at_dscp : Z;
  at_serviceType : string;
  at_newFlowsTableLength : Z;
}.

#[export] Instance vipAttributes_eq_dec : EqDecision vipAttributes.
Proof. solve_decision. Defined.

(** The snapshot types of interface.go. *)
Record BackendEntry := { ben_Address : string; ben_Weight : Z }.
Record VIPState := {
  vs_Name : string; vs_Address : string; vs_Port : Z; vs_Protocol : string;
  vs_Backends : list BackendEntry }.

Definition NewVPP : VPP := {| vips := ∅; tuningDrifts := ∅ |}.

(** ** Pure helpers *)

Definition protocolNumber (p : string) : err + Z :=
  if bool_decide (p = ProtocolTCP) then inr 6%Z
  else if bool_decide (p = ProtocolUDP) then inr 17%Z
  else inl (ErrMsg ("unsupported VPP protocol: " +:+ p)).

Definition encapToAPI (t : string) : err + LbEncapType :=
  if bool_decide (t = "GRE4") then inr ENCAP_GRE4
  else if bool_decide (t = "GRE6") then inr ENCAP_GRE6
  else if bool_decide (t = "L3DSR") then inr ENCAP_L3DSR
  else if bool_decide (t = "NAT4") then inr ENCAP_NAT4
  else if bool_decide (t = "NAT6") then inr ENCAP_NAT6
  else inl (ErrMsg ("unsupported VPP encap type: " +:+ t)).

Definition serviceTypeToAPI (t : string) : err + LbSrvType :=
  if bool_decide (t = "CLUSTERIP") then inr SRV_CLUSTERIP
  else if bool_decide (t = "NODEPORT") then inr SRV_NODEPORT
  else inl (ErrMsg ("unsupported VPP service type: " +:+ t)).

Definition parseIPAddress (addr : string) : err + Address :=
  match ParseIP addr with
  | None => inl (ErrMsg ("invalid IP address: " +:+ addr))
  | Some ip => match To4 ip with Some b => inr (IP4 b) | None => inr (IP6 ip) end
  end.

Definition parseIPPrefix (addr : string) : err + AddressWithPrefix :=
  match ParseIP addr with
  | None => inl (ErrMsg ("invalid IP address: " +:+ addr))
  | Some ip =>
      match To4 ip with
      | Some b => inr {| pfx_Address := IP4 b; pfx_Len := 32 |}
      | None => inr {| pfx_Address := IP6 ip; pfx_Len := 128 |}
      end
  end.

(** [net.IP(ip4[:]).String()] or [net.IP(ip6[:]).String()]. *)
Definition addressToString (a : Address) : string :=
  match a with IP4 b => ip4String b | IP6 b => IPString b end.

Definition lbVIPMatches (vip : LbVip) (pfx : AddressWithPrefix) (protocol port : Z) : bool :=
  bool_decide (lbv_Pfx vip = pfx) && (lbv_Protocol vip =? protocol)%Z && (lbv_Port vip =? port)%Z.

(** The [(pfx, protocol, uint16(port))] every request starts with. *)
Definition vipIdent (vip : VirtualIP) : err + LbVip :=
  match parseIPPrefix (spec_Address (vip_Spec vip)) with
  | inl e => inl e
  | inr pfx =>
      match protocolNumber (spec_Protocol (vip_Spec vip)) with
      | inl e => inl e
      | inr protocol =>
          inr {| lbv_Pfx := pfx; lbv_Protocol := protocol;
                 lbv_Port := wrapU 16 (spec_Port (vip_Spec vip)) |}
      end
  end.

(** [errors.As(err, &recreateErr)]: the first typed error of the chain. *)
Fixpoint asVIPRecreateError (e : err) : option (VIPRecreateStage * bool) :=
  match e with
  | VIPRecreateError stage safe _ => Some (stage, safe)
  | ErrWrap _ e _ => asVIPRecreateError e
  | _ => None
  end.

Definition RouteSafeToRestoreAfterVIPRecreate (e : err) : bool :=
  match asVIPRecreateError e with Some (_, safe) => safe | None => false end.

Section Driver.
Context {E : Type} `{!VPPConn E} `{!Clock E} `{!MapOrder E}.
Variable cfg : VPPConfig.

Definition vipKey (vip : VirtualIP) : string := namespacedKey vip.

Definition stateVerificationInterval : Z :=
  if (0 <? cfg_StateVerificationInterval cfg)%Z then cfg_StateVerificationInterval cfg
  else (30 * Second)%Z.

Definition failOnAllBackendsDown (vip : VirtualIP) (healthyBackends : list BackendSpec) : error :=
  if negb (cfg_FailOnAllBackendsDown cfg) || bool_decide (spec_Backends (vip_Spec vip) = [])
     || negb (bool_decide (healthyBackends = []))
  then None
  else Some (ErrMsg ("all configured backends are down for VIP " +:+ vipKey vip)).

Definition shouldVerifyCachedVIP (entry : vipEntry) (now : Z) : bool :=
  match ent_lastVerified entry with
  | None => true
  | Some t => negb (now <? t + stateVerificationInterval)%Z
  end.

Definition effectiveEncapType (vip : VirtualIP) : string :=
  if bool_decide (spec_EncapType (vip_Spec vip) ≠ "") then spec_EncapType (vip_Spec vip)
  else cfg_EncapType cfg.

Definition effectiveDSCP (encapType : string) (vip : VirtualIP) : err + Z :=
  if bool_decide (encapType ≠ "L3DSR") then inr 0%Z
  else
    let dscp := default (cfg_DSCP cfg) (spec_DSCP (vip_Spec vip)) in
    if (dscp =? 0)%Z then inl (ErrMsg "invalid dscp=0 for L3DSR; must be 1-63") else inr dscp.

Definition effectiveVIPAttributes (vip : VirtualIP) : err + vipAttributes :=
  let encapType := effectiveEncapType vip in
  match effectiveDSCP encapType vip with
  | inl e => inl e
  | inr dscp =>
      inr {| at_address := spec_Address (vip_Spec vip);
             at_port := spec_Port (vip_Spec vip);
             at_protocol := spec_Protocol (vip_Spec vip);
             at_encapType := encapType;
             at_dscp := dscp;
             at_serviceType := cfg_ServiceType cfg;
             at_newFlowsTableLength := cfg_NewFlowsTableLength cfg |}
  end.

Definition vipDetailsMatchDesired (vip : VirtualIP) (detail : LbVipDetails) : bool :=
  match effectiveVIPAttributes vip with
  | inl _ => false
  | inr attrs =>
      match encapToAPI (at_encapType attrs) with
      | inl _ => false
      | inr encap =>
          match serviceTypeToAPI (at_serviceType attrs) with
          | inl _ => false
          | inr serviceType =>
              let dscpMatches :=
                bool_decide (at_encapType attrs ≠ "L3DSR")
                || (wrapU 8 (det_Dscp detail) =? at_dscp attrs)%Z in
              bool_decide (det_Encap detail = encap) && dscpMatches
              && bool_decide (det_SrvType detail = serviceType)
              && (det_TargetPort detail =? wrapU 16 (at_port attrs))%Z
          end
      end
  end.

(** The dump exposes the flow table length as [u16], so it is compared at
    that width. *)
Definition detectTuningDrifts (vip : VirtualIP) (detail : LbVipDetails) : list VIPTuningDrift :=
  match effectiveVIPAttributes vip with
  | inl _ => []
  | inr attrs =>
      if (det_FlowTableLength detail =? wrapU 16 (at_newFlowsTableLength attrs))%Z then []
      else [{| Field := "new_flows_table_length";
               Current := pretty (det_FlowTableLength detail);
               Desired := pretty (at_newFlowsTableLength attrs) |}]
  end.

(** ** Calls to VPP *)

(** Receive until the first match; an error of the stream counts only when no
    match came before it. *)
Fixpoint findVIP (details : list LbVipDetails) (ident : LbVip) : option LbVipDetails :=
  match details with
  | [] => None
  | d :: ds =>
      if lbVIPMatches (det_Vip d) (lbv_Pfx ident) (lbv_Protocol ident) (lbv_Port ident)
      then Some d else findVIP ds ident
  end.

Definition lookupVIP (vip : VirtualIP) : ST E (option LbVipDetails * error) :=
  match vipIdent vip with
  | inl e => mret (None, Some e)
  | inr ident =>
      r ← InvokeLbVipDump;
      mret (match r with
            | inl e => (None, Some (errorf "LbVipDump failed: " e))
            | inr (details, streamErr) =>
                match findVIP details ident with
                | Some d => (Some d, None)
                | None =>
                    match streamErr with
                    | Some e => (None, Some (errorf "LbVipDump failed: " e))
                    | None => (None, None)
                    end
                end
            end)
  end.

Definition vipExists (vip : VirtualIP) : ST E (bool * error) :=
  r ← lookupVIP vip;
  mret (match r.1 with Some _ => true | None => false end, r.2).

Definition backendsByAddress (backends : list BackendSpec) : gmap string BackendSpec :=
  foldl (λ m be, <[be_Address be := be]> m) ∅ backends.

(** One pass over the stream of application servers. *)
Fixpoint collectBackends (desired : gmap string BackendSpec) (ident : LbVip)
    (details : list LbAsDetails) (backends : gmap string BackendSpec)
    : gmap string BackendSpec :=
  match details with
  | [] => backends
  | d :: ds =>
      if lbVIPMatches (asd_Vip d) (lbv_Pfx ident) (lbv_Protocol ident) (lbv_Port ident) then
        let addr := addressToString (asd_AppSrv d) in
        let be := default {| be_Address := addr; be_MonitorAddress := "";
                             be_Weight := DefaultBackendWeight |} (desired !! addr) in
        collectBackends desired ident ds (<[addr := be]> backends)
      else collectBackends desired ident ds backends
  end.

Definition dumpBackends (vip : VirtualIP) (desiredBackends : list BackendSpec)
    : ST E (err + gmap string BackendSpec) :=
  match vipIdent vip with
  | inl e => mret (inl e)
  | inr ident =>
      r ← InvokeLbAsDump ident;
      mret (match r with
            | inl e => inl (errorf "LbAsDump failed: " e)
            | inr (details, Some e) => inl (errorf "LbAsDump failed: " e)
            | inr (details, None) =>
                inr (collectBackends (backendsByAddress desiredBackends) ident details ∅)
            end)
  end.

Definition replyError (what : string) (code : string) (r : err + Z) : error :=
  match r with
  | inl e => Some (errorf (what +:+ " failed: ") e)
  | inr retval =>
      if (retval =? 0)%Z then None
      else Some (ErrMsg ("VPP returned error code " +:+ pretty retval +:+ code))
  end.

(** The request of [addVIPLocked] and [deleteVIPLocked]: the checks come in
    the order of the source. *)
Definition vipRequest (isDel : bool) (vip : VirtualIP) : err + LbAddDelVip :=
  match vipIdent vip with
  | inl e => inl e
  | inr ident =>
      let encapType := effectiveEncapType vip in
      match encapToAPI encapType with
      | inl e => inl e
      | inr encap =>
          match serviceTypeToAPI (cfg_ServiceType cfg) with
          | inl e => inl e
          | inr serviceType =>
              match effectiveDSCP encapType vip with
              | inl e => inl e
              | inr dscp =>
                  inr {| adv_Vip := ident; adv_Encap := encap; adv_Dscp := dscp;
                         adv_Type := serviceType;
                         adv_TargetPort := if isDel then 0%Z else wrapU 16 (spec_Port (vip_Spec vip));
                         adv_NewFlowsTableLength := if isDel then 0%Z else cfg_NewFlowsTableLength cfg;
                         adv_IsDel := isDel |}
              end
          end
      end
  end.

Definition addVIP (vip : VirtualIP) : ST E error :=
  match vipRequest false vip with
  | inl e => mret (Some e)
  | inr req => r ← InvokeLbAddDelVip req; mret (replyError "LbAddDelVip" "" r)
  end.

Definition deleteVIP (vip : VirtualIP) : ST E error :=
  match vipRequest true vip with
  | inl e => mret (Some e)
  | inr req => r ← InvokeLbAddDelVip req; mret (replyError "LbAddDelVip (delete)" " on delete" r)
  end.

Definition backendRequest (isDel : bool) (vip : VirtualIP) (be : BackendSpec) : err + LbAddDelAs :=
  match vipIdent vip with
  | inl e => inl e
  | inr ident =>
      match parseIPAddress (be_Address be) with
      | inl e => inl (errorf ("failed to parse backend address " +:+ be_Address be +:+ ": ") e)
      | inr asAddr => inr {| ada_Vip := ident; ada_AsAddress := asAddr; ada_IsDel := isDel |}
      end
  end.

Definition addBackend (vip : VirtualIP) (be : BackendSpec) : ST E error :=
  match backendRequest false vip be with
  | inl e => mret (Some e)
  | inr req => r ← InvokeLbAddDelAs req; mret (replyError "LbAddDelAs" " adding backend" r)
  end.

Definition removeBackend (vip : VirtualIP) (be : BackendSpec) : ST E error :=
  match backendRequest true vip be with
  | inl e => mret (Some e)
  | inr req => r ← InvokeLbAddDelAs req; mret (replyError "LbAddDelAs (delete)" " removing backend" r)
  end.

(** ** Reconciling the backends of an entry *)

Definition firstError (firstErr e : error) : error :=
  match firstErr with None => e | Some _ => firstErr end.

(** Remove the backends that are not desired, going on after an error. *)
Fixpoint removeLoop (vip : VirtualIP) (desired : gmap string BackendSpec)
    (todo : list (string * BackendSpec)) (bks : gmap string BackendSpec) (firstErr : error)
    : ST E (gmap string BackendSpec * error) :=
  match todo with
  | [] => mret (bks, firstErr)
  | (addr, be) :: todo =>
      match desired !! addr with
      | Some _ => removeLoop vip desired todo bks firstErr
      | None =>
          e ← removeBackend vip be;
          match e with
          | Some _ => removeLoop vip desired todo bks (firstError firstErr e)
          | None => removeLoop vip desired todo (delete addr bks) firstErr
          end
      end
  end.

(** Add the desired backends that are missing, and refresh the present ones. *)
Fixpoint addLoop (vip : VirtualIP) (todo : list (string * BackendSpec))
    (bks : gmap string BackendSpec) (firstErr : error)
    : ST E (gmap string BackendSpec * error) :=
  match todo with
  | [] => mret (bks, firstErr)
  | (addr, be) :: todo =>
      match bks !! addr with
      | Some _ => addLoop vip todo (<[addr := be]> bks) firstErr
      | None =>
          e ← addBackend vip be;
          match e with
          | Some _ => addLoop vip todo bks (firstError firstErr e)
          | None => addLoop vip todo (<[addr := be]> bks) firstErr
          end
      end
  end.

(** How many desired backends the entry now has. *)
Definition appliedCount (desired bks : gmap string BackendSpec) : nat :=
  length (List.filter (λ p : string * BackendSpec,
                         match bks !! p.1 with Some _ => true | None => false end)
            (map_to_list desired)).

(** [reconcileBackendsLocked] on [entry.backends]: the new map, even with an
    error. *)
Definition reconcileBackendsLocked (key : string) (vip : VirtualIP)
    (bks : gmap string BackendSpec) (backends : list BackendSpec)
    : ST E (gmap string BackendSpec * error) :=
  let desired := backendsByAddress backends in
  order1 ← (λ e, (mapRange e bks, e));
  r1 ← removeLoop vip desired order1 bks None;
  order2 ← (λ e, (mapRange e desired, e));
  r2 ← addLoop vip order2 r1.1 r1.2;
  let '(bks', firstErr) := r2 in
  mret (bks',
    match firstErr with
    | Some e => Some (errorf ("failed to reconcile backend set for VIP " +:+ key +:+ ": ") e)
    | None =>
        if bool_decide (desired ≠ ∅) && (appliedCount desired bks' =? 0)%nat
        then Some (ErrMsg ("failed to apply any healthy backend for VIP " +:+ key))
        else None
    end).

(** ** The driver's operations *)

Abbreviation drv := (ST (VPP * E)).

Definition setEntry (key : string) (entry : vipEntry) (v : VPP) : VPP :=
  {| vips := <[key := entry]> (vips v); tuningDrifts := tuningDrifts v |}.
Definition dropEntry (key : string) (v : VPP) : VPP :=
  {| vips := delete key (vips v); tuningDrifts := tuningDrifts v |}.
Definition clearTuningDriftsLocked (key : string) (v : VPP) : VPP :=
  {| vips := vips v; tuningDrifts := delete key (tuningDrifts v) |}.
Definition setTuningDriftsLocked (key : string) (drifts : list VIPTuningDrift) (v : VPP) : VPP :=
  match drifts with
  | [] => clearTuningDriftsLocked key v
  | _ => {| vips := vips v; tuningDrifts := <[key := drifts]> (tuningDrifts v) |}
  end.
Definition markVIPNeedsVerificationLocked (key : string) (v : VPP) : VPP :=
  match vips v !! key with
  | Some entry =>
      setEntry key {| ent_vip := ent_vip entry; ent_backends := ent_backends entry;
                      ent_lastVerified := None |} v
  | None => v
  end.

Definition drvModify (f : VPP → VPP) : drv unit := on_fst (modify f).
Definition drvGet {A} (f : VPP → A) : drv A := on_fst (λ v, (f v, v)).

Definition deleteCachedVIPForAttributeChangeLocked (key : string) (entry : vipEntry) : drv error :=
  r ← on_snd (lookupVIP (ent_vip entry));
  match r.2 with
  | Some e => mret (Some (errorf "failed to inspect existing VIP for update: " e))
  | None =>
      e ← (match r.1 with
           | Some _ => on_snd (deleteVIP (ent_vip entry))
           | None => mret None
           end);
      match e with
      | Some e => mret (Some (errorf "failed to delete existing VIP for update: " e))
      | None =>
          _ ← drvModify (λ v, clearTuningDriftsLocked key (dropEntry key v));
          mret None
      end
  end.

(** [(entry, found, err)] *)
Definition refreshCachedVIPLocked (key : string) (vip : VirtualIP)
    (desiredBackends : list BackendSpec) (now : Z) : drv (option vipEntry * bool * error) :=
  r ← on_snd (lookupVIP vip);
  match r with
  | (_, Some e) => mret (None, false, Some e)
  | (None, None) =>
      _ ← drvModify (λ v, clearTuningDriftsLocked key (dropEntry key v));
      mret (None, false, None)
  | (Some detail, None) =>
      if negb (vipDetailsMatchDesired vip detail) then
        e ← on_snd (deleteVIP vip);
        match e with
        | Some e => mret (None, true, Some (errorf "failed to delete cached VIP with stale attributes: " e))
        | None =>
            _ ← drvModify (λ v, clearTuningDriftsLocked key (dropEntry key v));
            mret (None, false, None)
        end
      else
        b ← on_snd (dumpBackends vip desiredBackends);
        match b with
        | inl e => mret (None, true, Some e)
        | inr backends =>
            let entry := {| ent_vip := vip; ent_backends := backends;
                            ent_lastVerified := Some now |} in
            _ ← drvModify (λ v, setTuningDriftsLocked key (detectTuningDrifts vip detail)
                                  (setEntry key entry v));
            mret (Some entry, true, None)
        end
  end.

(** [(adopted, err)] *)
Definition adoptExistingVIPLocked (vip : VirtualIP) (desiredBackends : list BackendSpec)
    (now : Z) : drv (bool * error) :=
  r ← on_snd (lookupVIP vip);
  match r with
  | (d, Some e) => mret (match d with Some _ => true | None => false end, Some e)
  | (None, None) => mret (false, None)
  | (Some detail, None) =>
      if negb (vipDetailsMatchDesired vip detail) then
        e ← on_snd (deleteVIP vip);
        match e with
        | Some e => mret (false, Some (errorf "failed to delete retained VIP with stale attributes: " e))
        | None => _ ← drvModify (clearTuningDriftsLocked (vipKey vip)); mret (false, None)
        end
      else
        b ← on_snd (dumpBackends vip desiredBackends);
        match b with
        | inl e => mret (false, Some e)
        | inr backends =>
            let key := vipKey vip in
            _ ← drvModify (λ v, setTuningDriftsLocked key (detectTuningDrifts vip detail)
                  (setEntry key {| ent_vip := vip; ent_backends := backends;
                                   ent_lastVerified := Some now |} v));
            mret (true, None)
        end
  end.

(** The part of [ApplyVIP] that looks at a cached entry: the entry to go on
    with, whether it was verified now, and whether it is known to be missing. *)
Definition applyCached (key : string) (vip : VirtualIP) (desiredAttrs : vipAttributes)
    (healthyBackends : list BackendSpec) (now : Z) (existing : vipEntry)
    : drv (err + option vipEntry * bool * bool) :=
  match effectiveVIPAttributes (ent_vip existing) with
  | inl e => mret (inl (errorf ("invalid existing VIP attributes for " +:+ key +:+ ": ") e))
  | inr existingAttrs =>
      if bool_decide (existingAttrs ≠ desiredAttrs) then
        e ← deleteCachedVIPForAttributeChangeLocked key existing;
        mret (match e with Some e => inl e | None => inr (None, false, false) end)
      else if shouldVerifyCachedVIP existing now then
        r ← refreshCachedVIPLocked key vip healthyBackends now;
        match r with
        | (_, _, Some e) =>
            _ ← drvModify (markVIPNeedsVerificationLocked key);
            mret (inl (errorf ("failed to verify cached VIP for " +:+ key +:+ ": ") e))
        | (Some refreshed, true, None) => mret (inr (Some refreshed, true, false))
        | (_, _, None) => mret (inr (None, false, true))
        end
      else mret (inr (Some existing, false, false))
  end.

(** Add the VIP with no backends yet. *)
Definition addFresh (key : string) (vip : VirtualIP) : drv (err + vipEntry) :=
  e ← on_snd (addVIP vip);
  match e with
  | Some e => mret (inl (errorf "failed to add VIP: " e))
  | None =>
      let entry := {| ent_vip := vip; ent_backends := ∅; ent_lastVerified := None |} in
      _ ← drvModify (λ v, clearTuningDriftsLocked key (setEntry key entry v));
      mret (inr entry)
  end.

(** The part of [ApplyVIP] for a VIP without an entry: adopt it or add it.
    An adopted VIP has an entry; [applyMissing_spec] below proves that the
    last branch, a nil dereference in the source, is not reached. *)
Definition applyMissing (key : string) (vip : VirtualIP) (healthyBackends : list BackendSpec)
    (now : Z) (verifiedMissing : bool) : drv (err + vipEntry) :=
  a ← (if verifiedMissing then mret (false, None)
       else adoptExistingVIPLocked vip healthyBackends now);
  match a with
  | (_, Some e) => mret (inl (errorf ("failed to inspect existing VIP for " +:+ key +:+ ": ") e))
  | (true, None) =>
      entry ← drvGet (λ v, vips v !! key);
      mret (match entry with Some entry => inr entry | None => inl (ErrMsg "nil entry") end)
  | (false, None) => addFresh key vip
  end.

(** The last part of [ApplyVIP]: reconcile the backends and update the entry. *)
Definition applyBackends (key : string) (vip : VirtualIP) (healthyBackends : list BackendSpec)
    (now : Z) (existing : vipEntry) (verifiedNow : bool) : drv error :=
  r ← on_snd (reconcileBackendsLocked key vip (ent_backends existing) healthyBackends);
  let '(bks, e) := r in
  match e with
  | Some e =>
      _ ← drvModify (λ v, markVIPNeedsVerificationLocked key
            (setEntry key {| ent_vip := ent_vip existing; ent_backends := bks;
                             ent_lastVerified := ent_lastVerified existing |} v));
      mret (Some e)
  | None =>
      _ ← drvModify (setEntry key
            {| ent_vip := vip; ent_backends := bks;
               ent_lastVerified := if verifiedNow then Some now else ent_lastVerified existing |});
      mret None
  end.

Definition ApplyVIP (vip : VirtualIP) (healthyBackends : list BackendSpec) : drv error :=
  let key := vipKey vip in
  now ← on_snd readClock;
  match effectiveVIPAttributes vip with
  | inl e => mret (Some (errorf ("invalid desired VIP attributes for " +:+ key +:+ ": ") e))
  | inr desiredAttrs =>
      match failOnAllBackendsDown vip healthyBackends with
      | Some e => mret (Some e)
      | None =>
          cached ← drvGet (λ v, vips v !! key);
          st ← (match cached with
                | Some existing => applyCached key vip desiredAttrs healthyBackends now existing
                | None => mret (inr (None, false, false))
                end);
          match st with
          | inl e => mret (Some e)
          | inr (Some existing, verifiedNow, _) =>
              applyBackends key vip healthyBackends now existing verifiedNow
          | inr (None, _, verifiedMissing) =>
              r ← applyMissing key vip healthyBackends now verifiedMissing;
              match r with
              | inl e => mret (Some e)
              | inr existing => applyBackends key vip healthyBackends now existing true
              end
          end
      end
  end.

Definition RemoveVIP (vip : VirtualIP) : drv error :=
  let key := vipKey vip in
  cached ← drvGet (λ v, vips v !! key);
  target ← (match cached return drv (err + option VirtualIP) with
            | Some entry => mret (inr (Some (ent_vip entry)))
            | None =>
                r ← on_snd (vipExists vip);
                mret (match r with
                      | (_, Some e) => inl (errorf "failed to inspect VIP before remove: " e)
                      | (true, None) => inr (Some vip)
                      | (false, None) => inr None
                      end)
            end);
  match target with
  | inl e => mret (Some e)
  | inr None => _ ← drvModify (clearTuningDriftsLocked key); mret None
  | inr (Some deleteTarget) =>
      e ← on_snd (deleteVIP deleteTarget);
      match e with
      | Some e => mret (Some e)
      | None => _ ← drvModify (λ v, clearTuningDriftsLocked key (dropEntry key v)); mret None
      end
  end.

Definition TuningDrifts (key : string) (v : VPP) : list VIPTuningDrift :=
  default [] (tuningDrifts v !! key).

Definition NeedsDrainForVIPUpdate (current desired : VirtualIP) : bool * error :=
  if bool_decide (spec_Address (vip_Spec current) ≠ spec_Address (vip_Spec desired))
  then (false, None)
  else
    match effectiveVIPAttributes current with
    | inl e => (false, Some (errorf ("invalid current VIP attributes for " +:+ vipKey current +:+ ": ") e))
    | inr currentAttrs =>
        match effectiveVIPAttributes desired with
        | inl e => (false, Some (errorf ("invalid desired VIP attributes for " +:+ vipKey desired +:+ ": ") e))
        | inr desiredAttrs => (bool_decide (currentAttrs ≠ desiredAttrs), None)
        end
    end.

Definition NeedsDrainForRetainedVIP (vip : VirtualIP) : drv (bool * error) :=
  let key := vipKey vip in
  match effectiveVIPAttributes vip with
  | inl e => mret (false, Some (errorf ("invalid desired VIP attributes for " +:+ key +:+ ": ") e))
  | inr desiredAttrs =>
      cached ← drvGet (λ v, vips v !! key);
      let inspect : drv (bool * error) :=
        r ← on_snd (lookupVIP vip);
        match r with
        | (Some detail, None) =>
            let matchesDesired := vipDetailsMatchDesired vip detail in
            _ ← drvModify (if matchesDesired then id else markVIPNeedsVerificationLocked key);
            mret (negb matchesDesired, None)
        | (Some _, Some e) => mret (false, Some e)
        | (None, e) => _ ← drvModify (markVIPNeedsVerificationLocked key); mret (false, e)
        end in
      match cached with
      | None => inspect
      | Some entry =>
          match effectiveVIPAttributes (ent_vip entry) with
          | inl e => mret (false, Some (errorf ("invalid cached VIP attributes for " +:+ key +:+ ": ") e))
          | inr existingAttrs =>
              if bool_decide (existingAttrs ≠ desiredAttrs) then mret (true, None) else inspect
          end
      end
  end.

Definition RecreateVIP (vip : VirtualIP) (healthyBackends : list BackendSpec) : drv error :=
  let key := vipKey vip in
  match failOnAllBackendsDown vip healthyBackends with
  | Some e => mret (Some e)
  | None =>
      cached ← drvGet (λ v, vips v !! key);
      let deleteTarget := match cached with Some entry => ent_vip entry | None => vip end in
      e ← on_snd (deleteVIP deleteTarget);
      match e with
      | Some e =>
          r ← on_snd (vipExists deleteTarget);
          let retained := match r.2 with Some _ => false | None => r.1 end in
          mret (Some (VIPRecreateError StageDelete retained
                        (errorf "failed to delete VIP before recreate: " e)))
      | None =>
          _ ← drvModify (dropEntry key);
          e ← on_snd (addVIP vip);
          match e with
          | Some e =>
              _ ← drvModify (clearTuningDriftsLocked key);
              mret (Some (VIPRecreateError StageAdd false
                            (errorf "failed to add VIP during recreate: " e)))
          | None =>
              let entry := {| ent_vip := vip; ent_backends := ∅; ent_lastVerified := None |} in
              _ ← drvModify (λ v, clearTuningDriftsLocked key (setEntry key entry v));
              r ← on_snd (reconcileBackendsLocked key vip ∅ healthyBackends);
              let '(bks, e) := r in
              _ ← drvModify (setEntry key {| ent_vip := vip; ent_backends := bks;
                                             ent_lastVerified := None |});
              mret (match e with
                    | Some e => Some (VIPRecreateError StageBackends false e)
                    | None => None
                    end)
          end
      end
  end.

(** [GetState], in the orders of the two map loops. *)
Definition GetState (e : E) (v : VPP) : list VIPState :=
  (λ '(_, entry),
     {| vs_Name := vip_Name (ent_vip entry);
        vs_Address := spec_Address (vip_Spec (ent_vip entry));
        vs_Port := spec_Port (vip_Spec (ent_vip entry));
        vs_Protocol := spec_Protocol (vip_Spec (ent_vip entry));
        vs_Backends := (λ '(_, be), {| ben_Address := be_Address be; ben_Weight := be_Weight be |})
                         <$> mapRange e (ent_backends entry) |}) <$> mapRange e (vips v).

Definition updateBackends (key : string) (entry : vipEntry) (bks : gmap string BackendSpec) : VPP → VPP :=
  setEntry key {| ent_vip := ent_vip entry; ent_backends := bks;
                  ent_lastVerified := ent_lastVerified entry |}.

Definition SetBackends (vip : VirtualIP) (backends : list BackendSpec) : drv error :=
  let key := vipKey vip in
  cached ← drvGet (λ v, vips v !! key);
  match cached with
  | None => mret (Some (ErrMsg ("VIP " +:+ key +:+ " not found in data plane")))
  | Some entry =>
      match failOnAllBackendsDown vip backends with
      | Some e => mret (Some e)
      | None =>
          r ← on_snd (reconcileBackendsLocked key vip (ent_backends entry) backends);
          _ ← drvModify (updateBackends key entry r.1);
          mret r.2
      end
  end.

Definition AddBackend (vip : VirtualIP) (backend : BackendSpec) : drv error :=
  let key := vipKey vip in
  cached ← drvGet (λ v, vips v !! key);
  match cached with
  | None => mret (Some (ErrMsg ("VIP " +:+ key +:+ " not found in data plane")))
  | Some entry =>
      e ← on_snd (addBackend vip backend);
      match e with
      | Some e => mret (Some e)
      | None =>
          _ ← drvModify (updateBackends key entry (<[be_Address backend := backend]> (ent_backends entry)));
          mret None
      end
  end.

Definition RemoveBackend (vip : VirtualIP) (backend : BackendSpec) : drv error :=
  let key := vipKey vip in
  cached ← drvGet (λ v, vips v !! key);
  match cached with
  | None => mret None
  | Some entry =>
      e ← on_snd (removeBackend vip backend);
      match e with
      | Some e => mret (Some e)
      | None =>
          _ ← drvModify (updateBackends key entry (delete (be_Address backend) (ent_backends entry)));
          mret None
      end
  end.

End Driver.

(** ** The cache after an operation *)

(** Entries are stored under their backend's own address. *)
Definition keyed (m : gmap string BackendSpec) : Prop :=
  ∀ addr be, m !! addr = Some be → be_Address be = addr.

Lemma foldl_backends_keyed bs m : keyed m → keyed (foldl (λ m be, <[be_Address be := be]> m) m bs).
Proof.
  revert m. induction bs as [|be bs IH]; intros m Hm; simpl; [done|]. apply IH.
  intros addr be'. destruct (decide (be_Address be = addr)) as [<-|]; intros; by simplify_map_eq; eauto.
Qed.

Lemma backendsByAddress_keyed bs : keyed (backendsByAddress bs).
Proof. apply foldl_backends_keyed. intros ??. by rewrite lookup_empty. Qed.

Lemma foldl_backends_dom bs (m : gmap string BackendSpec) addr :
  is_Some (foldl (λ m be, <[be_Address be := be]> m) m bs !! addr) ↔
  is_Some (m !! addr) ∨ addr ∈ be_Address <$> bs.
Proof.
  revert m. induction bs as [|be bs IH]; intros m; simpl.
  - rewrite elem_of_nil. tauto.
  - rewrite IH, elem_of_cons, lookup_insert_is_Some'. naive_solver.
Qed.

(** The desired map holds exactly the addresses of the given backends. *)
Lemma backendsByAddress_dom bs addr :
  is_Some (backendsByAddress bs !! addr) ↔ addr ∈ be_Address <$> bs.
Proof.
  unfold backendsByAddress. rewrite foldl_backends_dom, lookup_empty.
  split; [intros [[? ?]|?]; done|by right].
Qed.

Section Cache.
Context {E : Type} `{!VPPConn E} `{!Clock E} `{!MapOrder E}.
Variable cfg : VPPConfig.

Lemma firstError_None (fe e : error) : firstError fe e = None → fe = None ∧ e = None.
Proof. by destruct fe. Qed.

Lemma removeLoop_cache vip desired todo bks fe (e : E) bks' fe' e' :
  removeLoop vip desired todo bks fe e = ((bks', fe'), e') →
  (fe' = None → fe = None) ∧
  (∀ addr, addr ∉ todo.*1 ∨ is_Some (desired !! addr) → bks' !! addr = bks !! addr) ∧
  (∀ addr, bks' !! addr = bks !! addr ∨ bks' !! addr = None) ∧
  (fe' = None → ∀ addr, addr ∈ todo.*1 → desired !! addr = None → bks' !! addr = None).
Proof.
  revert bks fe e. induction todo as [|[addr be] todo IH]; intros bks fe e; simpl.
  { unfold_monad. intros [= <- <- <-]. split_and!; try done; auto. by intros _ addr ?%elem_of_nil. }
  destruct (desired !! addr) as [d|] eqn:Hd.
  { intros (H1 & H2 & H3 & H4)%IH. split_and!; auto.
    - intros a [Ha|Ha]; apply H2; [left|by right]. set_solver.
    - intros Hn a [->|Ha]%elem_of_cons Hnd; [congruence|]. eauto. }
  unfold_monad. destruct (removeBackend vip be e) as [[x|] e1] eqn:Hr.
  { intros (H1 & H2 & H3 & H4)%IH. split_and!; auto.
    - intros Hn. by destruct (firstError_None _ _ (H1 Hn)).
    - intros a [Ha|Ha]; apply H2; [left|by right]. set_solver.
    - intros Hn a Ha Hnd. by destruct (firstError_None _ _ (H1 Hn)). }
  intros (H1 & H2 & H3 & H4)%IH. split_and!; auto.
  - intros a Ha. destruct (decide (a = addr)) as [->|Hne].
    + destruct Ha as [Ha|[? Ha]]; [set_solver|congruence].
    + rewrite H2, lookup_delete_ne by (destruct Ha; [left; set_solver|by right] || done). done.
  - intros a. destruct (H3 a) as [->| ->]; [|by right].
    destruct (decide (addr = a)) as [->|]; simplify_map_eq; auto.
  - intros Hn a [->|Ha]%elem_of_cons Hnd; [|by eauto].
    destruct (H3 addr) as [->|]; [by simplify_map_eq|done].
Qed.

Lemma addLoop_cache vip todo bks fe (e : E) bks' fe' e' :
  NoDup todo.*1 → addLoop vip todo bks fe e = ((bks', fe'), e') →
  (fe' = None → fe = None) ∧
  (∀ addr, addr ∉ todo.*1 → bks' !! addr = bks !! addr) ∧
  (fe' = None → ∀ addr be, (addr, be) ∈ todo → bks' !! addr = Some be).
Proof.
  revert bks fe e. induction todo as [|[addr be] todo IH]; intros bks fe e Hnd; simpl.
  { unfold_monad. intros [= <- <- <-]. split_and!; try done. by intros _ ?? ?%elem_of_nil. }
  apply NoDup_cons in Hnd as [Hni Hnd]. simpl in Hni.
  assert (∀ bks1 e1 fe1, addLoop vip todo (<[addr:=be]> bks1) fe1 e1 = ((bks', fe'), e') →
    bks1 = bks → (fe' = None → fe1 = None) ∧
    (∀ a, a ∉ (addr, be).1 :: todo.*1 → bks' !! a = bks !! a) ∧
    (fe' = None → ∀ a b, (a, b) ∈ (addr, be) :: todo → bks' !! a = Some b)) as Hins.
  { intros bks1 e1 fe1 (H1 & H2 & H3)%IH -> ; [|done]. split_and!; auto.
    - intros a Ha. rewrite H2 by set_solver. rewrite lookup_insert_ne; [done|]. set_solver.
    - intros Hn a b [[= -> ->]|Hab]%elem_of_cons; [|by auto].
      rewrite H2 by done. by simplify_map_eq. }
  destruct (bks !! addr) as [b0|] eqn:Hb; [intros Hr; by eapply Hins|].
  unfold_monad. destruct (addBackend vip be e) as [[x|] e1] eqn:Hr; [|intros Hr'; by eapply Hins].
  intros (H1 & H2 & H3)%IH; [|done]. split_and!; auto.
  - intros Hn. by destruct (firstError_None _ _ (H1 Hn)).
  - intros a Ha. apply H2. set_solver.
  - intros Hn. by destruct (firstError_None _ _ (H1 Hn)).
Qed.

Lemma appliedCount_self (m : gmap string BackendSpec) :
  bool_decide (m ≠ ∅) && (appliedCount m m =? 0)%nat = false.
Proof.
  case_bool_decide as Hne; [|done]. simpl. apply Nat.eqb_neq. unfold appliedCount. intros Hl.
  apply map_choose in Hne as (addr & be & Hd). apply nil_length_inv in Hl.
  assert (In (addr, be) []) as []. rewrite <- Hl. apply filter_In. simpl. rewrite Hd.
  split; [|done]. by apply list_elem_of_In, elem_of_map_to_list.
Qed.

(** Without an error the cached set is exactly the desired one; the check that
    some backend was applied never fires. *)
Lemma reconcileBackends_exact key vip bks backends (e : E) bks' er e' :
  reconcileBackendsLocked key vip bks backends e = ((bks', er), e') →
  (er = None ↔ ∃ b1 e1, removeLoop vip (backendsByAddress backends) (mapRange e bks) bks None e
                  = ((b1, None), e1) ∧
     addLoop vip (mapRange e1 (backendsByAddress backends)) b1 None e1 = ((bks', None), e')) ∧
  (er = None → bks' = backendsByAddress backends).
Proof.
  unfold reconcileBackendsLocked. set (desired := backendsByAddress backends). unfold_monad.
  destruct (removeLoop vip desired (mapRange e bks) bks None e) as [[b1 fe1] e1] eqn:H1. simpl.
  destruct (addLoop vip (mapRange e1 desired) b1 fe1 e1) as [[b2 fe2] e2] eqn:H2.
  intros [= <- <- <-].
  destruct (removeLoop_cache _ _ _ _ _ _ _ _ _ H1) as (_ & R2 & R3 & R4).
  destruct (addLoop_cache _ _ _ _ _ _ _ _ (mapRange_NoDup e1 desired) H2) as (A1 & A2 & A3).
  assert (fe2 = None → b2 = desired) as Heq.
  { intros Hn. specialize (A1 Hn). apply map_eq. intros addr.
    destruct (desired !! addr) as [be|] eqn:Hd.
    - rewrite (A3 Hn addr be); [done|]. by apply mapRange_lookup.
    - rewrite A2.
      2:{ intros ([a b] & -> & Hab)%list_elem_of_fmap. apply mapRange_lookup in Hab. simpl in *. congruence. }
      destruct (bks !! addr) as [b0|] eqn:Hb.
      + apply (R4 A1); [|done]. apply list_elem_of_fmap. exists (addr, b0). split; [done|].
        by apply mapRange_lookup.
      + destruct (R3 addr) as [->|]; [done|done]. }
  destruct fe2 as [x|]; simpl.
  { split; [|done]. split; [done|]. intros (b & e0 & [= <- Hf <-] & Ha). subst fe1. congruence. }
  specialize (Heq eq_refl). subst b2. specialize (A1 eq_refl). subst fe1.
  rewrite appliedCount_self. split; [|done]. split; [eauto|done].
Qed.
End Cache.

(** ** What VPP promises

    [asSet e id] is the set of application servers VPP has for the VIP [id],
    if it has the VIP.  Dumps and the clock change nothing; a dump that ends
    without an error is complete; a call that returns code 0 has its effect.
    Nothing is promised of calls that fail. *)
Class VPPLaws (E : Type) `{!VPPConn E} `{!Clock E} := {
  asSet : E → LbVip → option (gset Address);
  law_clock (e e' : E) t : readClock e = (t, e') → ∀ id, asSet e' id = asSet e id;
  law_vip_dump (e e' : E) r : InvokeLbVipDump e = (r, e') →
    (∀ id, asSet e' id = asSet e id) ∧
    ∀ ds er, r = inr (ds, er) →
      (∀ d, d ∈ ds → is_Some (asSet e (det_Vip d))) ∧
      (er = None → ∀ id, is_Some (asSet e id) → ∃ d, d ∈ ds ∧ det_Vip d = id);
  law_as_dump (e e' : E) id r : InvokeLbAsDump id e = (r, e') →
    (∀ id', asSet e' id' = asSet e id') ∧
    ∀ ds S, r = inr (ds, None) → asSet e id = Some S →
      ∀ a, a ∈ S ↔ ∃ d, d ∈ ds ∧ asd_Vip d = id ∧ asd_AppSrv d = a;
  law_vip (e e' : E) req : InvokeLbAddDelVip req e = (inr 0%Z, e') →
    ∀ id, asSet e' id =
      if decide (id = adv_Vip req) then (if adv_IsDel req then None else Some ∅) else asSet e id;
  law_as (e e' : E) req : InvokeLbAddDelAs req e = (inr 0%Z, e') →
    ∀ id, asSet e' id =
      if decide (id = ada_Vip req)
      then (λ S : gset Address,
              if ada_IsDel req then S ∖ {[ada_AsAddress req]} else {[ada_AsAddress req]} ∪ S)
           <$> asSet e id
      else asSet e id;
}.

(** An address string that survives parsing and printing, and an address that
    survives printing and parsing. *)
Definition canon (s : string) : Prop :=
  ∀ a, parseIPAddress s = inr a → addressToString a = s.
Definition printable (a : Address) : Prop := parseIPAddress (addressToString a) = inr a.

Lemma lbVIPMatches_spec v id :
  lbVIPMatches v (lbv_Pfx id) (lbv_Protocol id) (lbv_Port id) = true ↔ v = id.
Proof.
  unfold lbVIPMatches. rewrite !andb_true_iff, bool_decide_eq_true, !Z.eqb_eq.
  destruct v, id; simpl. naive_solver.
Qed.

Section Laws.
Context {E : Type} `{!VPPConn E} `{!Clock E} `{!MapOrder E} `{!VPPLaws E}.
Variable cfg : VPPConfig.

(** The cached backends [bks] are what VPP has for [id]. *)
Definition tracks (id : LbVip) (e : E) (bks : gmap string BackendSpec) : Prop :=
  ∃ S, asSet e id = Some S ∧
    ∀ a, a ∈ S ↔ ∃ s, is_Some (bks !! s) ∧ parseIPAddress s = inr a.

Lemma findVIP_spec ds id :
  match findVIP ds id with
  | Some d => d ∈ ds ∧ det_Vip d = id
  | None => ∀ d, d ∈ ds → det_Vip d ≠ id
  end.
Proof.
  induction ds as [|d ds IH]; simpl; [by intros d ?%elem_of_nil|].
  destruct (lbVIPMatches (det_Vip d) _ _ _) eqn:Hm.
  - apply lbVIPMatches_spec in Hm. split; [by left|done].
  - destruct (findVIP ds id) as [d'|].
    + destruct IH. split; [by right|done].
    + intros d' [->|Hin]%elem_of_cons; [|by apply IH]. intros Heq.
      apply lbVIPMatches_spec in Heq. congruence.
Qed.

Lemma lookupVIP_spec vip (e : E) r e' id :
  vipIdent vip = inr id → lookupVIP vip e = (r, e') →
  (∀ i, asSet e' i = asSet e i) ∧
  match r with
  | (Some d, None) => det_Vip d = id ∧ is_Some (asSet e id)
  | (None, None) => asSet e id = None
  | _ => True
  end.
Proof.
  intros Hid. unfold lookupVIP. rewrite Hid. unfold_monad.
  destruct (InvokeLbVipDump e) as [res e1] eqn:Hd. intros [= <- <-].
  destruct (law_vip_dump _ _ _ Hd) as [Hs Hr]. split; [done|].
  destruct res as [x|[ds er]]; [done|]. destruct (Hr ds er eq_refl) as [Hin Hall].
  pose proof (findVIP_spec ds id) as Hf. destruct (findVIP ds id) as [d|].
  - destruct Hf as [Hd' <-]. auto.
  - destruct er; [done|]. apply eq_None_not_Some. intros Hsome.
    destruct (Hall eq_refl _ Hsome) as (d & Hd' & Heq). by apply (Hf d).
Qed.

Lemma collectBackends_spec desired id ds bks s :
  keyed desired →
  (is_Some (collectBackends desired id ds bks !! s) ↔
   is_Some (bks !! s) ∨ ∃ d, d ∈ ds ∧ asd_Vip d = id ∧ addressToString (asd_AppSrv d) = s) ∧
  (keyed bks → keyed (collectBackends desired id ds bks)).
Proof.
  intros Hk. revert bks. induction ds as [|d ds IH]; intros bks; simpl.
  { split; [|done]. split; [by left|]. intros [?|(d & ?%elem_of_nil & _)]; done. }
  destruct (lbVIPMatches (asd_Vip d) _ _ _) eqn:Hm.
  - apply lbVIPMatches_spec in Hm. destruct (IH (<[addressToString (asd_AppSrv d) :=
      default {| be_Address := addressToString (asd_AppSrv d); be_MonitorAddress := "";
                 be_Weight := DefaultBackendWeight |} (desired !! addressToString (asd_AppSrv d))]> bks))
      as [H1 H2].
    rewrite H1, lookup_insert_is_Some'. setoid_rewrite elem_of_cons. split; [naive_solver|].
    intros Hb. apply H2. intros addr be.
    destruct (decide (addressToString (asd_AppSrv d) = addr)) as [<-|]; intros; simplify_map_eq; [|by eauto].
    destruct (desired !! addressToString (asd_AppSrv d)) as [be'|] eqn:Hd; simpl; [by apply Hk|done].
  - destruct (IH bks) as [H1 H2]. rewrite H1. setoid_rewrite elem_of_cons. split; [|done].
    split; [naive_solver|]. intros [?|(d' & [->|?] & Hv & ?)]; [by left| |naive_solver].
    apply lbVIPMatches_spec in Hv. congruence.
Qed.

(** Adopting or refreshing reads back what VPP has. *)
Lemma dumpBackends_tracks vip hb (e : E) bks e' id :
  vipIdent vip = inr id → is_Some (asSet e id) →
  (∀ S a, asSet e id = Some S → a ∈ S → printable a) →
  dumpBackends vip hb e = (inr bks, e') →
  (∀ i, asSet e' i = asSet e i) ∧ keyed bks ∧ tracks id e' bks ∧
  (∀ s, is_Some (bks !! s) → canon s).
Proof.
  intros Hid [S HS] Hp. unfold dumpBackends. rewrite Hid. unfold_monad.
  destruct (InvokeLbAsDump id e) as [res e1] eqn:Hd.
  destruct (law_as_dump _ _ _ _ Hd) as [Hs Hr].
  destruct res as [x|[ds [x|]]]; intros [= <- <-]. specialize (Hr ds S eq_refl HS).
  pose proof (λ s, collectBackends_spec (backendsByAddress hb) id ds ∅ s (backendsByAddress_keyed hb)) as Hc.
  assert (∀ s, is_Some (collectBackends (backendsByAddress hb) id ds ∅ !! s) ↔
               ∃ a, a ∈ S ∧ addressToString a = s) as Hdom.
  { intros s. destruct (Hc s) as [-> _]. rewrite lookup_empty. setoid_rewrite Hr.
    split; [intros [[? ?]|?]; [done|naive_solver]|naive_solver]. }
  split_and!; [done|destruct (Hc "") as [_ H]; apply H; intros ??; by rewrite lookup_empty| |].
  - exists S. rewrite Hs. split; [done|]. intros a. setoid_rewrite Hdom. split.
    + intros Ha. exists (addressToString a). split; [eauto|]. by apply (Hp S).
    + intros (s & (a' & Ha' & <-) & Hpa). rewrite (Hp S a') in Hpa by done. by simplify_eq.
  - intros s (a & Ha & <-)%Hdom a' Hpa. rewrite (Hp S a) in Hpa by done. by simplify_eq.
Qed.

Lemma backendRequest_ok isDel vip be req :
  backendRequest isDel vip be = inr req →
  vipIdent vip = inr (ada_Vip req) ∧ parseIPAddress (be_Address be) = inr (ada_AsAddress req)
  ∧ ada_IsDel req = isDel.
Proof. unfold backendRequest. intros. repeat case_match; by simplify_eq/=. Qed.

Lemma replyError_ok what code (r : err + Z) : replyError what code r = None → r = inr 0%Z.
Proof. destruct r as [x|z]; simpl; [done|]. case_match eqn:Hz; [|done]. by apply Z.eqb_eq in Hz as ->. Qed.

Lemma removeBackend_effect vip be (e e' : E) id :
  vipIdent vip = inr id → removeBackend vip be e = (None, e') →
  ∃ a, parseIPAddress (be_Address be) = inr a ∧
    asSet e' id = (λ S : gset Address, S ∖ {[a]}) <$> asSet e id.
Proof.
  intros Hid. unfold removeBackend. destruct (backendRequest true vip be) as [x|req] eqn:Hr; [done|].
  apply backendRequest_ok in Hr as (Hv & Hp & Hdel). unfold_monad.
  destruct (InvokeLbAddDelAs req e) as [r e1] eqn:Hi. intros [= Hre <-].
  apply replyError_ok in Hre as ->. rewrite Hid in Hv. simplify_eq.
  exists (ada_AsAddress req). split; [done|]. rewrite (law_as _ _ _ Hi), decide_True by done.
  by rewrite Hdel.
Qed.

Lemma addBackend_effect vip be (e e' : E) id :
  vipIdent vip = inr id → addBackend vip be e = (None, e') →
  ∃ a, parseIPAddress (be_Address be) = inr a ∧
    asSet e' id = (λ S : gset Address, {[a]} ∪ S) <$> asSet e id.
Proof.
  intros Hid. unfold addBackend. destruct (backendRequest false vip be) as [x|req] eqn:Hr; [done|].
  apply backendRequest_ok in Hr as (Hv & Hp & Hdel). unfold_monad.
  destruct (InvokeLbAddDelAs req e) as [r e1] eqn:Hi. intros [= Hre <-].
  apply replyError_ok in Hre as ->. rewrite Hid in Hv. simplify_eq.
  exists (ada_AsAddress req). split; [done|]. rewrite (law_as _ _ _ Hi), decide_True by done.
  by rewrite Hdel.
Qed.

Lemma tracks_delete id (e e' : E) bks addr a :
  (∀ s, is_Some (bks !! s) → canon s) → is_Some (bks !! addr) → parseIPAddress addr = inr a →
  asSet e' id = (λ S : gset Address, S ∖ {[a]}) <$> asSet e id →
  tracks id e bks → tracks id e' (delete addr bks).
Proof.
  intros Hc Haddr Hp Has (S & HS & Hin). exists (S ∖ {[a]}). rewrite Has, HS. split; [done|].
  intros a'. rewrite elem_of_difference, elem_of_singleton, Hin. split.
  - intros [(s & Hs & Hps) Hne]. exists s. split; [|done].
    rewrite lookup_delete_is_Some. split; [|done]. intros ->. congruence.
  - intros (s & [Hne Hs]%lookup_delete_is_Some & Hps). split; [eauto|]. intros ->.
    apply Hne. rewrite <- (Hc _ Hs _ Hps). by rewrite <- (Hc _ Haddr _ Hp).
Qed.

Lemma tracks_insert id (e e' : E) bks addr be a :
  parseIPAddress addr = inr a →
  asSet e' id = (λ S : gset Address, {[a]} ∪ S) <$> asSet e id →
  tracks id e bks → tracks id e' (<[addr := be]> bks).
Proof.
  intros Hp Has (S & HS & Hin). exists ({[a]} ∪ S). rewrite Has, HS. split; [done|].
  intros a'. rewrite elem_of_union, elem_of_singleton, Hin.
  setoid_rewrite lookup_insert_is_Some'. split.
  - intros [->|(s & Hs & Hps)]; [by eauto|]. eauto.
  - intros (s & [->|Hs] & Hps); [left; congruence|]. eauto.
Qed.

Lemma tracks_refresh id (e : E) bks addr be :
  is_Some (bks !! addr) → tracks id e bks → tracks id e (<[addr := be]> bks).
Proof.
  intros Haddr (S & HS & Hin). exists S. split; [done|]. intros a. rewrite Hin.
  setoid_rewrite lookup_insert_is_Some'. naive_solver.
Qed.

Lemma removeLoop_tracks vip desired todo bks fe (e : E) bks' e' id :
  vipIdent vip = inr id → NoDup todo.*1 →
  (∀ addr be, (addr, be) ∈ todo → bks !! addr = Some be) →
  keyed bks → (∀ s, is_Some (bks !! s) → canon s) → tracks id e bks →
  removeLoop vip desired todo bks fe e = ((bks', None), e') → tracks id e' bks'.
Proof.
  intros Hid. revert bks fe e.
  induction todo as [|[addr be] todo IH]; intros bks fe e Hnd Hin Hk Hc Ht; simpl.
  { unfold_monad. by intros [= <- _ <-]. }
  apply NoDup_cons in Hnd as [Hni Hnd]. simpl in Hni.
  assert (bks !! addr = Some be) as Hb by (apply Hin; by left).
  assert (∀ a b, (a, b) ∈ todo → bks !! a = Some b) as Hin' by (intros; apply Hin; by right).
  destruct (desired !! addr); [by apply IH|].
  unfold_monad. destruct (removeBackend vip be e) as [[x|] e1] eqn:Hr.
  { intros Hl. destruct (removeLoop_cache _ _ _ _ _ _ _ _ _ Hl) as [Hn _].
    by destruct (firstError_None _ _ (Hn eq_refl)). }
  destruct (removeBackend_effect _ _ _ _ _ Hid Hr) as (a & Hp & Has).
  rewrite (Hk _ _ Hb) in Hp. apply IH; auto.
  - intros a' b' Hab. rewrite lookup_delete_ne; [auto|]. intros <-.
    apply Hni, list_elem_of_fmap. by exists (addr, b').
  - intros a' b' [_ Hab]%lookup_delete_Some. eauto.
  - intros s [_ Hs]%lookup_delete_is_Some. auto.
  - by eapply tracks_delete.
Qed.

Lemma addLoop_tracks vip todo bks fe (e : E) bks' e' id :
  vipIdent vip = inr id → NoDup todo.*1 → (∀ addr be, (addr, be) ∈ todo → be_Address be = addr) →
  tracks id e bks → addLoop vip todo bks fe e = ((bks', None), e') → tracks id e' bks'.
Proof.
  intros Hid. revert bks fe e.
  induction todo as [|[addr be] todo IH]; intros bks fe e Hnd Hk Ht; simpl.
  { unfold_monad. by intros [= <- _ <-]. }
  apply NoDup_cons in Hnd as [Hni Hnd].
  assert (∀ a b, (a, b) ∈ todo → be_Address b = a) as Hk' by (intros; apply Hk; by right).
  destruct (bks !! addr) as [b0|] eqn:Hb; [apply IH; auto; by apply tracks_refresh|].
  unfold_monad. destruct (addBackend vip be e) as [[x|] e1] eqn:Hr.
  { intros Hl. destruct (addLoop_cache _ _ _ _ _ _ _ _ Hnd Hl) as [Hn _].
    by destruct (firstError_None _ _ (Hn eq_refl)). }
  destruct (addBackend_effect _ _ _ _ _ Hid Hr) as (a & Hp & Has).
  rewrite (Hk addr be) in Hp by (by left). apply IH; auto. by eapply tracks_insert.
Qed.

(** From a cache that tracks VPP, reconciling without an error leaves VPP with
    exactly the desired backends. *)
Lemma reconcileBackends_tracks key vip bks hb (e : E) bks' e' id :
  vipIdent vip = inr id → keyed bks → (∀ s, is_Some (bks !! s) → canon s) → tracks id e bks →
  reconcileBackendsLocked key vip bks hb e = ((bks', None), e') →
  tracks id e' (backendsByAddress hb).
Proof.
  intros Hid Hk Hc Ht Hr.
  destruct (reconcileBackends_exact _ _ _ _ _ _ _ _ Hr) as [[Hloops _] Heq].
  destruct (Hloops eq_refl) as (b1 & e1 & H1 & H2). rewrite <- (Heq eq_refl).
  eapply addLoop_tracks; [done|apply mapRange_NoDup| | |exact H2].
  { intros addr be Hin%mapRange_lookup. by eapply backendsByAddress_keyed. }
  eapply removeLoop_tracks; [done|apply mapRange_NoDup| |done|done|done|exact H1].
  intros addr be Hin. by apply mapRange_lookup in Hin.
Qed.

(** *** [ApplyVIP] *)

(** Between two states VIPs may have been deleted, but no backends changed. *)
Definition shrinks (e e' : E) : Prop := ∀ i S, asSet e' i = Some S → asSet e i = Some S.

Lemma shrinks_same (e e' : E) : (∀ i, asSet e' i = asSet e i) → shrinks e e'.
Proof. intros H i S. by rewrite H. Qed.
Lemma shrinks_trans (e e1 e2 : E) : shrinks e e1 → shrinks e1 e2 → shrinks e e2.
Proof. unfold shrinks. eauto. Qed.

Lemma vipRequest_ok isDel vip req :
  vipRequest cfg isDel vip = inr req → vipIdent vip = inr (adv_Vip req) ∧ adv_IsDel req = isDel.
Proof. unfold vipRequest. intros. repeat case_match; by simplify_eq/=. Qed.

Lemma addVIP_effect vip (e e' : E) id :
  vipIdent vip = inr id → addVIP cfg vip e = (None, e') → asSet e' id = Some ∅.
Proof.
  intros Hid. unfold addVIP. destruct (vipRequest cfg false vip) as [x|req] eqn:Hr; [done|].
  apply vipRequest_ok in Hr as [Hv Hdel]. unfold_monad.
  destruct (InvokeLbAddDelVip req e) as [r e1] eqn:Hi. intros [= Hre <-].
  apply replyError_ok in Hre as ->. rewrite Hid in Hv. simplify_eq.
  rewrite (law_vip _ _ _ Hi), decide_True by done. by rewrite Hdel.
Qed.

Lemma deleteVIP_effect vip (e e' : E) :
  deleteVIP cfg vip e = (None, e') → shrinks e e' ∧ ∀ id, vipIdent vip = inr id → asSet e' id = None.
Proof.
  unfold deleteVIP. destruct (vipRequest cfg true vip) as [x|req] eqn:Hr; [done|].
  apply vipRequest_ok in Hr as [Hv Hdel]. unfold_monad.
  destruct (InvokeLbAddDelVip req e) as [r e1] eqn:Hi. intros [= Hre <-].
  apply replyError_ok in Hre as ->. split.
  - intros i S. rewrite (law_vip _ _ _ Hi). case_decide; [by rewrite Hdel|done].
  - intros id Hid. rewrite Hid in Hv. simplify_eq.
    rewrite (law_vip _ _ _ Hi), decide_True by done. by rewrite Hdel.
Qed.

Lemma lookupVIP_same vip (e e' : E) r : lookupVIP vip e = (r, e') → ∀ i, asSet e' i = asSet e i.
Proof.
  destruct (vipIdent vip) as [x|id] eqn:Hid; [|intros H; by destruct (lookupVIP_spec _ _ _ _ _ Hid H)].
  unfold lookupVIP. rewrite Hid. unfold_monad. by intros [= _ <-].
Qed.

(** A list of backends whose cache entry can be reconciled against VPP. *)
Definition in_sync (id : LbVip) (e : E) (entry : vipEntry) : Prop :=
  keyed (ent_backends entry) ∧ (∀ s, is_Some (ent_backends entry !! s) → canon s) ∧
  tracks id e (ent_backends entry).

Lemma in_sync_fresh id (e : E) vip lv :
  asSet e id = Some ∅ → in_sync id e {| ent_vip := vip; ent_backends := ∅; ent_lastVerified := lv |}.
Proof.
  intros He. split_and!; simpl.
  - intros ??. by rewrite lookup_empty.
  - intros s [? H]. by rewrite lookup_empty in H.
  - exists ∅. split; [done|]. intros a. split; [set_solver|].
    intros (s & [? H] & _). by rewrite lookup_empty in H.
Qed.

Lemma lookup_setTuningDrifts key drifts v : vips (setTuningDriftsLocked key drifts v) = vips v.
Proof. by destruct drifts. Qed.

Lemma addFresh_in_sync vip v (e : E) entry v' e' id :
  vipIdent vip = inr id → addFresh cfg (vipKey vip) vip (v, e) = (inr entry, (v', e')) →
  in_sync id e' entry.
Proof.
  intros Hid. unfold addFresh, drvModify. unfold_monad.
  destruct (addVIP cfg vip e) as [[x|] e1] eqn:Ha; [done|]. intros [= <- _ <-].
  apply in_sync_fresh. by eapply addVIP_effect.
Qed.

Definition all_printable (id : LbVip) (e : E) : Prop :=
  ∀ S a, asSet e id = Some S → a ∈ S → printable a.

Lemma all_printable_shrinks id (e e' : E) : shrinks e e' → all_printable id e → all_printable id e'.
Proof. unfold all_printable, shrinks. eauto. Qed.

(** A VIP without an entry is adopted or added; either way its new entry is in
    sync with VPP. *)
Lemma applyMissing_spec vip hb now vm v (e : E) entry v' e' id :
  vipIdent vip = inr id → all_printable id e →
  applyMissing cfg (vipKey vip) vip hb now vm (v, e) = (inr entry, (v', e')) →
  in_sync id e' entry.
Proof.
  intros Hid Hp. unfold applyMissing, drvGet, drvModify. unfold_monad.
  destruct vm; [by apply addFresh_in_sync|].
  unfold adoptExistingVIPLocked, drvModify. unfold_monad.
  destruct (lookupVIP vip e) as [r e1] eqn:Hl.
  destruct (lookupVIP_spec _ _ _ _ _ Hid Hl) as [Hs Hr].
  destruct r as [[d|] [x|]]; [done| |done|by apply addFresh_in_sync].
  destruct (vipDetailsMatchDesired cfg vip d); simpl.
  - destruct (dumpBackends vip hb e1) as [[x|bks] e2] eqn:Hd; [done|].
    rewrite lookup_setTuningDrifts. simpl. rewrite lookup_insert_eq. intros [= <- _ <-].
    eapply dumpBackends_tracks in Hd as (Hs' & Hk & Ht & Hc); [|done|by rewrite Hs; apply Hr|].
    + done.
    + intros S a. rewrite Hs. apply Hp.
  - destruct (deleteVIP cfg vip e1) as [[x|] e2] eqn:Hd; [done|]. by apply addFresh_in_sync.
Qed.

Lemma applyBackends_ok key vip hb now existing vn v (e : E) v' e' :
  applyBackends key vip hb now existing vn (v, e) = (None, (v', e')) →
  (∃ lv, vips v' !! key = Some {| ent_vip := vip; ent_backends := backendsByAddress hb;
                                  ent_lastVerified := lv |}) ∧
  ∀ id, vipIdent vip = inr id → in_sync id e existing → tracks id e' (backendsByAddress hb).
Proof.
  unfold applyBackends, drvModify. unfold_monad.
  destruct (reconcileBackendsLocked key vip (ent_backends existing) hb e) as [[bks er] e1] eqn:Hr.
  destruct (reconcileBackends_exact _ _ _ _ _ _ _ _ Hr) as [_ Heq].
  destruct er as [x|]; [done|]. intros [= <- <-]. rewrite (Heq eq_refl). split.
  - eexists. simpl. by rewrite lookup_insert_eq.
  - intros id Hid (Hk & Hc & Ht). by eapply reconcileBackends_tracks.
Qed.

(** A cached entry that is replaced or due for verification is in sync with
    VPP afterwards, whatever VPP held before. *)
Lemma applyCached_due key vip attrs hb now existing v (e : E) oe vn vm v1 e1 id :
  vipIdent vip = inr id → all_printable id e →
  (effectiveVIPAttributes cfg (ent_vip existing) ≠ inr attrs
   ∨ shouldVerifyCachedVIP cfg existing now = true) →
  applyCached cfg key vip attrs hb now existing (v, e) = (inr (oe, vn, vm), (v1, e1)) →
  shrinks e e1 ∧ ∀ en, oe = Some en → in_sync id e1 en.
Proof.
  intros Hid Hp Hdue. unfold applyCached.
  destruct (effectiveVIPAttributes cfg (ent_vip existing)) as [x|ea]; [done|].
  case_bool_decide as Hne.
  - unfold deleteCachedVIPForAttributeChangeLocked, drvModify. unfold_monad.
    destruct (lookupVIP (ent_vip existing) e) as [r e2] eqn:Hl.
    pose proof (lookupVIP_same _ _ _ _ Hl) as Hs.
    destruct r as [[d|] [x|]]; simpl; try done.
    + destruct (deleteVIP cfg (ent_vip existing) e2) as [[x|] e3] eqn:Hd; [done|].
      intros [= <- _ _ _ <-]. destruct (deleteVIP_effect _ _ _ Hd) as [Hsh _].
      split; [|done]. eapply shrinks_trans; [by apply shrinks_same|done].
    + intros [= <- _ _ _ <-]. split; [by apply shrinks_same|done].
  - destruct Hdue as [Hdue|Hdue]; [congruence|]. rewrite Hdue.
    unfold refreshCachedVIPLocked, drvModify. unfold_monad.
    destruct (lookupVIP vip e) as [r e2] eqn:Hl.
    destruct (lookupVIP_spec _ _ _ _ _ Hid Hl) as [Hs Hr].
    destruct r as [[d|] [x|]]; simpl; try done.
    2:{ intros [= <- _ _ _ <-]. split; [by apply shrinks_same|done]. }
    destruct (vipDetailsMatchDesired cfg vip d); simpl.
    + destruct (dumpBackends vip hb e2) as [[x|bks] e3] eqn:Hd; [done|].
      intros [= <- _ _ _ <-].
      eapply dumpBackends_tracks in Hd as (Hs' & Hk & Ht & Hc); [|done|by rewrite Hs; apply Hr|].
      * split; [apply shrinks_same; intros i; by rewrite Hs', Hs|]. by intros en [= <-].
      * intros S a. rewrite Hs. apply Hp.
    + destruct (deleteVIP cfg vip e2) as [[x|] e3] eqn:Hd; [done|].
      intros [= <- _ _ _ <-]. destruct (deleteVIP_effect _ _ _ Hd) as [Hsh _].
      split; [|done]. eapply shrinks_trans; [by apply shrinks_same|done].
Qed.

(** C19. [ApplyVIP] heals: when the VIP is not cached, or its cached entry is
    replaced or due for verification, a successful apply leaves VPP with
    exactly the addresses of the healthy backends for that VIP, whatever VPP
    held before (a restart, leftovers of another process, foreign backends). *)
Theorem ApplyVIP_heals vip hb v (e : E) v' e' id attrs :
  vipIdent vip = inr id → all_printable id e →
  effectiveVIPAttributes cfg vip = inr attrs →
  (∀ existing, vips v !! vipKey vip = Some existing →
     effectiveVIPAttributes cfg (ent_vip existing) ≠ inr attrs ∨
     shouldVerifyCachedVIP cfg existing (readClock e).1 = true) →
  ApplyVIP cfg vip hb (v, e) = (None, (v', e')) →
  ∃ S, asSet e' id = Some S ∧
    ∀ a, a ∈ S ↔ ∃ be, be ∈ hb ∧ parseIPAddress (be_Address be) = inr a.
Proof.
  intros Hid Hp Hat Hdue Happ.
  cut (tracks id e' (backendsByAddress hb)).
  { intros (S & HS & Hin). exists S. split; [done|]. intros a. rewrite Hin.
    setoid_rewrite backendsByAddress_dom. setoid_rewrite list_elem_of_fmap. naive_solver. }
  revert Happ. unfold ApplyVIP, drvGet. rewrite Hat. cbv [mbind ST_bind on_fst on_snd].
  destruct (readClock e) as [now e0] eqn:Hclk. pose proof (law_clock _ _ _ Hclk) as Hs0.
  assert (all_printable id e0) as Hp0 by (eapply all_printable_shrinks; [by apply shrinks_same|done]).
  destruct (failOnAllBackendsDown cfg vip hb); [done|].
  destruct (vips v !! vipKey vip) as [existing|] eqn:Hv.
  - destruct (applyCached cfg (vipKey vip) vip attrs hb now existing (v, e0))
      as [[x|[[[en|] vn] vm]] [v1 e1]] eqn:Hc; [done| |];
      destruct (applyCached_due _ _ _ _ _ _ _ _ _ _ _ _ _ _ Hid Hp0 (Hdue _ eq_refl) Hc) as [Hsh Hsy].
    + intros [_ Ht]%applyBackends_ok. apply Ht; auto.
    + destruct (applyMissing cfg _ vip hb now vm (v1, e1)) as [[x|en] [v2 e2]] eqn:Hm; [done|].
      intros [_ Ht]%applyBackends_ok. apply Ht; [done|].
      eapply applyMissing_spec; [done| |exact Hm]. by eapply all_printable_shrinks.
  - cbv [mret ST_ret].
    destruct (applyMissing cfg _ vip hb now false (v, e0)) as [[x|en] [v2 e2]] eqn:Hm; [done|].
    intros [_ Ht]%applyBackends_ok. apply Ht; [done|]. by eapply applyMissing_spec.
Qed.
End Laws.

(** ** Outcomes of the operations on the cache *)
Section Outcomes.
Context {E : Type} `{!VPPConn E} `{!Clock E} `{!MapOrder E}.
Variable cfg : VPPConfig.

(** What an operation on the VIP with key [k] may change. *)
Definition only_key (k : string) (v v' : VPP) : Prop :=
  ∀ k', k' ≠ k → vips v' !! k' = vips v !! k' ∧ tuningDrifts v' !! k' = tuningDrifts v !! k'.

Lemma only_key_refl k v : only_key k v v.
Proof. by intros ??. Qed.
Lemma only_key_trans k v1 v2 v3 : only_key k v1 v2 → only_key k v2 v3 → only_key k v1 v3.
Proof. intros H1 H2 k' Hk. destruct (H1 k' Hk), (H2 k' Hk). split; congruence. Qed.
Lemma only_key_setEntry k en v : only_key k v (setEntry k en v).
Proof. intros k' Hk. simpl. by rewrite lookup_insert_ne. Qed.
Lemma only_key_dropEntry k v : only_key k v (dropEntry k v).
Proof. intros k' Hk. simpl. by rewrite lookup_delete_ne. Qed.
Lemma only_key_clear k v : only_key k v (clearTuningDriftsLocked k v).
Proof. intros k' Hk. simpl. by rewrite lookup_delete_ne. Qed.
Lemma only_key_setDrifts k ds v : only_key k v (setTuningDriftsLocked k ds v).
Proof. intros k' Hk. destruct ds; simpl; [by rewrite lookup_delete_ne|by rewrite lookup_insert_ne]. Qed.
Lemma only_key_mark k v : only_key k v (markVIPNeedsVerificationLocked k v).
Proof. unfold markVIPNeedsVerificationLocked. case_match; [apply only_key_setEntry|apply only_key_refl]. Qed.

#[local] Hint Resolve only_key_refl only_key_setEntry only_key_dropEntry only_key_clear
  only_key_setDrifts only_key_mark : arca.
#[local] Hint Extern 2 (only_key _ _ _) =>
  eapply only_key_trans; [|solve [auto with arca]]; solve [auto with arca] : arca.

Ltac solve_frame :=
  unfold drvGet, drvModify; unfold_monad; intros;
  repeat (case_match; simplify_eq/=); simplify_eq/=; eauto with arca.

Lemma deleteCached_frame k en v (e : E) er v' e' :
  deleteCachedVIPForAttributeChangeLocked cfg k en (v, e) = (er, (v', e')) → only_key k v v'.
Proof. unfold deleteCachedVIPForAttributeChangeLocked. solve_frame. Qed.

Lemma refreshCached_frame k vip hb now v (e : E) r v' e' :
  refreshCachedVIPLocked cfg k vip hb now (v, e) = (r, (v', e')) → only_key k v v'.
Proof. unfold refreshCachedVIPLocked. solve_frame. Qed.

Lemma adoptExisting_frame vip hb now v (e : E) r v' e' :
  adoptExistingVIPLocked cfg vip hb now (v, e) = (r, (v', e')) → only_key (vipKey vip) v v'.
Proof. unfold adoptExistingVIPLocked. solve_frame. Qed.

Lemma addFresh_frame k vip v (e : E) r v' e' :
  addFresh cfg k vip (v, e) = (r, (v', e')) → only_key k v v'.
Proof. unfold addFresh. solve_frame. Qed.

Lemma applyBackends_frame k vip hb now en vn v (e : E) r v' e' :
  applyBackends k vip hb now en vn (v, e) = (r, (v', e')) → only_key k v v'.
Proof. unfold applyBackends. solve_frame. Qed.

Lemma applyCached_frame k vip attrs hb now en v (e : E) r v' e' :
  applyCached cfg k vip attrs hb now en (v, e) = (r, (v', e')) → only_key k v v'.
Proof.
  unfold applyCached. case_match; [solve_frame|]. case_bool_decide.
  { cbv [mbind ST_bind]. destruct (deleteCachedVIPForAttributeChangeLocked cfg k en (v, e))
      as [er [v1 e1]] eqn:Hd. apply deleteCached_frame in Hd. solve_frame. }
  case_match; [|solve_frame].
  cbv [mbind ST_bind]. destruct (refreshCachedVIPLocked cfg k vip hb now (v, e))
    as [[[en' found] er] [v1 e1]] eqn:Hr. apply refreshCached_frame in Hr.
  solve_frame.
Qed.

Lemma applyMissing_frame vip hb now vm v (e : E) r v' e' :
  applyMissing cfg (vipKey vip) vip hb now vm (v, e) = (r, (v', e')) →
  only_key (vipKey vip) v v'.
Proof.
  unfold applyMissing. destruct vm.
  { cbv [mbind ST_bind mret ST_ret]. apply addFresh_frame. }
  cbv [mbind ST_bind mret ST_ret].
  destruct (adoptExistingVIPLocked cfg vip hb now (v, e)) as [[ad er] [v1 e1]] eqn:Ha.
  apply adoptExisting_frame in Ha. destruct er as [x|]; [destruct ad; by intros [= _ <- _]|].
  destruct ad; [cbv [drvGet on_fst]; by intros [= _ <- _]|].
  intros Hf%addFresh_frame. by eapply only_key_trans.
Qed.

Lemma ApplyVIP_frame vip hb v (e : E) r v' e' :
  ApplyVIP cfg vip hb (v, e) = (r, (v', e')) → only_key (vipKey vip) v v'.
Proof.
  unfold ApplyVIP. cbv [mbind ST_bind mret ST_ret on_snd drvGet on_fst].
  destruct (readClock e) as [now e0]. case_match; [solve_frame|]. case_match; [solve_frame|].
  match goal with |- context [(match vips v !! ?k with Some en => @?f en | None => ?g end) ?s] =>
    destruct ((match vips v !! k with Some en => f en | None => g end) s)
      as [[x|[[[en|] vn] vm]] [v1 e1]] eqn:Hc end;
    (assert (only_key (vipKey vip) v v1) as Hf;
     [destruct (vips v !! vipKey vip); [by eapply applyCached_frame|by simplify_eq; auto with arca]|]).
  - solve_frame.
  - intros Hb%applyBackends_frame. by eapply only_key_trans.
  - destruct (applyMissing cfg (vipKey vip) vip hb now vm (v1, e1)) as [[x|en] [v2 e2]] eqn:Hm;
      apply applyMissing_frame in Hm.
    + intros; simplify_eq. by eapply only_key_trans.
    + intros Hb%applyBackends_frame. eapply only_key_trans; [exact Hf|]. by eapply only_key_trans.
Qed.

Lemma RemoveVIP_frame vip v (e : E) r v' e' :
  RemoveVIP cfg vip (v, e) = (r, (v', e')) → only_key (vipKey vip) v v'.
Proof. unfold RemoveVIP. solve_frame. Qed.

Lemma RecreateVIP_frame vip hb v (e : E) r v' e' :
  RecreateVIP cfg vip hb (v, e) = (r, (v', e')) → only_key (vipKey vip) v v'.
Proof.
  unfold RecreateVIP. solve_frame.
  all: eapply only_key_trans; [apply only_key_dropEntry|]; auto with arca;
    eapply only_key_trans; [|apply only_key_setEntry]; auto with arca.
Qed.

Lemma applyBackends_cache k vip hb now en vn v (e : E) r v' e' :
  applyBackends k vip hb now en vn (v, e) = (r, (v', e')) →
  ∃ en', vips v' !! k = Some en' ∧
    (r = None → ent_vip en' = vip ∧ ent_backends en' = backendsByAddress hb) ∧
    (r ≠ None → ent_lastVerified en' = None).
Proof.
  unfold applyBackends, drvModify, markVIPNeedsVerificationLocked. unfold_monad.
  destruct (reconcileBackendsLocked k vip (ent_backends en) hb e) as [[bks er] e1] eqn:Hr.
  destruct (reconcileBackends_exact _ _ _ _ _ _ _ _ Hr) as [_ Heq].
  destruct er as [x|]; simpl; rewrite ?lookup_insert_eq; intros [= <- <- <-];
    eexists; simpl; rewrite lookup_insert_eq; (split; [done|]); split; try done.
  intros _. simpl. auto.
Qed.

Lemma applyCached_failure k vip attrs hb now en v (e : E) x v' e' :
  vips v !! k = Some en →
  applyCached cfg k vip attrs hb now en (v, e) = (inl x, (v', e')) →
  vips v' !! k = vips v !! k ∨ vips v' !! k = None ∨
  ∃ en', vips v' !! k = Some en' ∧ ent_lastVerified en' = None.
Proof.
  intros Hv. unfold applyCached, refreshCachedVIPLocked, deleteCachedVIPForAttributeChangeLocked,
    drvModify, markVIPNeedsVerificationLocked. unfold_monad. intros.
  repeat (case_match; simplify_eq/=); simplify_eq/=; auto;
    right; right; eexists; by rewrite lookup_insert_eq.
Qed.

Lemma applyCached_gone k vip attrs hb now en v (e : E) vn vm v' e' :
  applyCached cfg k vip attrs hb now en (v, e) = (inr (None, vn, vm), (v', e')) →
  vips v' !! k = None.
Proof.
  unfold applyCached, refreshCachedVIPLocked, deleteCachedVIPForAttributeChangeLocked,
    drvModify. unfold_monad. intros.
  repeat (case_match; simplify_eq/=); simplify_eq/=; by rewrite lookup_delete_eq.
Qed.

Lemma applyMissing_failure vip hb now vm v (e : E) x v' e' :
  vips v !! vipKey vip = None →
  applyMissing cfg (vipKey vip) vip hb now vm (v, e) = (inl x, (v', e')) →
  vips v' !! vipKey vip = None.
Proof.
  intros Hv. unfold applyMissing, adoptExistingVIPLocked, addFresh, drvGet, drvModify. unfold_monad.
  intros. destruct vm; repeat (case_match; simplify_eq/=); simplify_eq/=; try done;
    rewrite ?lookup_setTuningDrifts in *; simpl in *; by rewrite ?lookup_insert_eq in *.
Qed.

Lemma ApplyVIP_entry vip hb v (e : E) r v' e' :
  ApplyVIP cfg vip hb (v, e) = (r, (v', e')) →
  match r with
  | None => ∃ en, vips v' !! vipKey vip = Some en ∧ ent_vip en = vip ∧
              ent_backends en = backendsByAddress hb
  | Some _ => vips v' !! vipKey vip = vips v !! vipKey vip ∨ vips v' !! vipKey vip = None ∨
              ∃ en, vips v' !! vipKey vip = Some en ∧ ent_lastVerified en = None
  end.
Proof.
  unfold ApplyVIP. cbv [mbind ST_bind mret ST_ret on_snd drvGet on_fst].
  destruct (readClock e) as [now e0]. case_match; [intros [= <- <- <-]; auto|].
  case_match; [intros [= <- <- <-]; auto|].
  assert (∀ en vn v1 e1, applyBackends (vipKey vip) vip hb now en vn (v1, e1) = (r, (v', e')) →
    match r with
    | None => ∃ en, vips v' !! vipKey vip = Some en ∧ ent_vip en = vip ∧
                ent_backends en = backendsByAddress hb
    | Some _ => vips v' !! vipKey vip = vips v !! vipKey vip ∨ vips v' !! vipKey vip = None ∨
                ∃ en, vips v' !! vipKey vip = Some en ∧ ent_lastVerified en = None
    end) as Hb.
  { intros en vn v1 e1 (en' & Hl & Hok & Herr)%applyBackends_cache.
    destruct r; [right; right; eauto|]. destruct (Hok eq_refl). eauto. }
  match goal with |- context [(match vips v !! ?k with Some en => @?f en | None => ?g end) ?s] =>
    destruct ((match vips v !! k with Some en => f en | None => g end) s)
      as [[x|[[[en|] vn] vm]] [v1 e1]] eqn:Hc end; [| |].
  - intros [= <- <- <-]. destruct (vips v !! vipKey vip) as [en|] eqn:Hv; [|done].
    eapply applyCached_failure in Hc; [|exact Hv]. by rewrite Hv in Hc.
  - apply Hb.
  - destruct (applyMissing cfg (vipKey vip) vip hb now vm (v1, e1)) as [[x|en] [v2 e2]] eqn:Hm; [|apply Hb].
    intros [= <- <- <-]. right; left. eapply applyMissing_failure; [|exact Hm].
    destruct (vips v !! vipKey vip) as [en|] eqn:Hv; [|by simplify_eq].
    by eapply applyCached_gone.
Qed.

Lemma RemoveVIP_entry vip v (e : E) v' e' :
  RemoveVIP cfg vip (v, e) = (None, (v', e')) → vips v' !! vipKey vip = None.
Proof.
  unfold RemoveVIP, drvGet, drvModify. unfold_monad.
  destruct (vips v !! vipKey vip) as [en|] eqn:Hv.
  - destruct (deleteVIP cfg (ent_vip en) e) as [[x|] e1]; [done|]. intros [= <- <-].
    simpl. by rewrite lookup_delete_eq.
  - destruct (vipExists vip e) as [[[|] [x|]] e1]; try done.
    + destruct (deleteVIP cfg vip e1) as [[x|] e2]; [done|]. intros [= <- <-].
      simpl. by rewrite lookup_delete_eq.
    + by intros [= <- <-].
Qed.

(** The cache after [RecreateVIP]: the new entry on success, the old state when
    the route may be restored. *)
Lemma RecreateVIP_entry vip hb v (e : E) r v' e' :
  RecreateVIP cfg vip hb (v, e) = (r, (v', e')) →
  match r with
  | None => ∃ en, vips v' !! vipKey vip = Some en ∧ ent_vip en = vip ∧
              ent_backends en = backendsByAddress hb
  | Some x => RouteSafeToRestoreAfterVIPRecreate x = true → v' = v
  end.
Proof.
  unfold RecreateVIP, drvGet, drvModify. unfold_monad.
  destruct (failOnAllBackendsDown cfg vip hb) as [x|] eqn:Hf.
  { intros [= <- <- <-]. unfold failOnAllBackendsDown in Hf. case_match; by simplify_eq/=. }
  set (target := match vips v !! vipKey vip with Some en => ent_vip en | None => vip end).
  destruct (deleteVIP cfg target e) as [[x|] e1] eqn:Hd.
  { destruct (vipExists target e1) as [[ex er] e2] eqn:Hx. by intros [= <- <- <-]. }
  destruct (addVIP cfg vip e1) as [[x|] e2] eqn:Ha; [by intros [= <- <- <-]|].
  destruct (reconcileBackendsLocked (vipKey vip) vip ∅ hb e2) as [[bks er] e3] eqn:Hr.
  intros [= <- <- <-]. destruct er as [x|]; [done|].
  destruct (reconcileBackends_exact _ _ _ _ _ _ _ _ Hr) as [_ ->]; [|done].
  eexists. simpl. by rewrite lookup_insert_eq.
Qed.

(** Checking whether a drain is needed keeps what the cache says is applied. *)
Lemma NeedsDrainForRetainedVIP_entries vip v (e : E) r v' e' k :
  NeedsDrainForRetainedVIP cfg vip (v, e) = (r, (v', e')) →
  (λ en, (ent_vip en, ent_backends en)) <$> vips v' !! k =
  (λ en, (ent_vip en, ent_backends en)) <$> vips v !! k.
Proof.
  assert (∀ v, (λ en, (ent_vip en, ent_backends en)) <$>
      vips (markVIPNeedsVerificationLocked (vipKey vip) v) !! k =
    (λ en, (ent_vip en, ent_backends en)) <$> vips v !! k) as Hm.
  { intros v0. unfold markVIPNeedsVerificationLocked. case_match; [|done]. simpl.
    destruct (decide (k = vipKey vip)) as [->|]; [|by rewrite lookup_insert_ne].
    rewrite lookup_insert_eq. by simplify_map_eq. }
  unfold NeedsDrainForRetainedVIP, drvGet, drvModify. unfold_monad.
  repeat (case_match; simplify_eq/=); intros; simplify_eq/=; by rewrite ?Hm.
Qed.

(** After [ApplyVIP], the cache holds the applied VIP with exactly the
    healthy backends when it succeeded; when it failed, the entry is what it
    was, or gone, or marked so that the next apply verifies it against VPP.
    Entries of other VIPs never change. *)
Theorem ApplyVIP_cache vip hb v (e : E) r v' e' :
  ApplyVIP cfg vip hb (v, e) = (r, (v', e')) →
  only_key (vipKey vip) v v' ∧
  match r with
  | None => ∃ en, vips v' !! vipKey vip = Some en ∧ ent_vip en = vip ∧
              ent_backends en = backendsByAddress hb
  | Some _ => vips v' !! vipKey vip = vips v !! vipKey vip ∨ vips v' !! vipKey vip = None ∨
              ∃ en, vips v' !! vipKey vip = Some en ∧ ent_lastVerified en = None
  end.
Proof. intros Happ. split; [by eapply ApplyVIP_frame|by eapply ApplyVIP_entry]. Qed.
End Outcomes.

Section Effects.
Context {E : Type} `{!VPPConn E} `{!Clock E} `{!MapOrder E} `{!VPPLaws E}.
Variable cfg : VPPConfig.

Lemma vipExists_spec vip (e e' : E) : vipExists vip e = ((true, None), e') →
  ∃ id, vipIdent vip = inr id ∧ is_Some (asSet e' id).
Proof.
  unfold vipExists. unfold_monad. destruct (lookupVIP vip e) as [r e1] eqn:Hl.
  intros [= Hr1 Hr2 <-]. destruct r as [[d|] er]; simplify_eq/=.
  destruct (vipIdent vip) as [x|id] eqn:Hid.
  { unfold lookupVIP in Hl. rewrite Hid in Hl. by unfold_monad. }
  destruct (lookupVIP_spec _ _ _ _ _ Hid Hl) as [Hs [_ Hsome]]. exists id. by rewrite Hs.
Qed.

(** C20. [RecreateVIP]: success means VPP has the VIP with exactly the healthy
    backends and no drift is recorded any more; an error that lets the route be
    restored means that nothing was changed and VPP still has the old VIP. *)
Theorem RecreateVIP_outcome vip hb v (e : E) r v' e' id :
  vipIdent vip = inr id →
  RecreateVIP cfg vip hb (v, e) = (r, (v', e')) →
  match r with
  | None =>
      TuningDrifts (vipKey vip) v' = [] ∧
      (∃ en, vips v' !! vipKey vip = Some en ∧ ent_vip en = vip ∧
             ent_backends en = backendsByAddress hb) ∧
      ∃ S, asSet e' id = Some S ∧
        ∀ a, a ∈ S ↔ ∃ be, be ∈ hb ∧ parseIPAddress (be_Address be) = inr a
  | Some x =>
      RouteSafeToRestoreAfterVIPRecreate x = true →
      v' = v ∧
      ∃ id', vipIdent (match vips v !! vipKey vip with Some en => ent_vip en | None => vip end)
               = inr id' ∧ is_Some (asSet e' id')
  end.
Proof.
  intros Hid. unfold RecreateVIP, drvGet, drvModify. unfold_monad.
  destruct (failOnAllBackendsDown cfg vip hb) as [x|] eqn:Hf.
  { intros [= <- <- <-]. unfold failOnAllBackendsDown in Hf. case_match; by simplify_eq/=. }
  set (target := match vips v !! vipKey vip with Some en => ent_vip en | None => vip end).
  destruct (deleteVIP cfg target e) as [[x|] e1] eqn:Hd.
  { destruct (vipExists target e1) as [[ex er] e2] eqn:Hx. intros [= <- <- <-].
    unfold RouteSafeToRestoreAfterVIPRecreate; simpl. destruct er; [done|]. intros ->.
    split; [done|]. by eapply vipExists_spec. }
  destruct (addVIP cfg vip e1) as [[x|] e2] eqn:Ha; [by intros [= <- <- <-]|].
  destruct (reconcileBackendsLocked (vipKey vip) vip ∅ hb e2) as [[bks er] e3] eqn:Hr.
  intros [= <- <- <-]. destruct er as [x|]; [done|].
  destruct (reconcileBackends_exact _ _ _ _ _ _ _ _ Hr) as [_ ->]; [|done].
  split_and!.
  - unfold TuningDrifts. simpl. by rewrite lookup_delete_eq.
  - eexists. simpl. by rewrite lookup_insert_eq.
  - destruct (in_sync_fresh id e2 vip None) as (Hk & Hc & Ht); [by eapply addVIP_effect|].
    simpl in *. destruct (reconcileBackends_tracks _ _ _ _ _ _ _ _ Hid Hk Hc Ht Hr) as (S & HS & Hin).
    exists S. split; [done|]. intros a. rewrite Hin.
    setoid_rewrite backendsByAddress_dom. setoid_rewrite list_elem_of_fmap. naive_solver.
Qed.

(** [RemoveVIP] without an error leaves no entry and no drift for the
    key, and VPP without the VIP that was applied (or, when none was cached,
    without the given one). *)
Theorem RemoveVIP_removes vip v (e : E) v' e' id :
  vipIdent (match vips v !! vipKey vip with Some en => ent_vip en | None => vip end) = inr id →
  RemoveVIP cfg vip (v, e) = (None, (v', e')) →
  vips v' !! vipKey vip = None ∧ TuningDrifts (vipKey vip) v' = [] ∧ asSet e' id = None.
Proof.
  unfold RemoveVIP, drvGet, drvModify, TuningDrifts. unfold_monad.
  destruct (vips v !! vipKey vip) as [en|] eqn:Hv; intros Hid.
  - destruct (deleteVIP cfg (ent_vip en) e) as [[x|] e1] eqn:Hd; [done|]. intros [= <- <-].
    simpl. rewrite !lookup_delete_eq. split_and!; try done. by eapply deleteVIP_effect.
  - unfold vipExists. unfold_monad.
    destruct (lookupVIP vip e) as [r e1] eqn:Hl.
    destruct (lookupVIP_spec _ _ _ _ _ Hid Hl) as [Hs Hr].
    destruct r as [[d|] [x|]]; simpl; [done| |done|].
    + destruct (deleteVIP cfg vip e1) as [[x|] e2] eqn:Hd; [done|]. intros [= <- <-].
      simpl. rewrite !lookup_delete_eq. split_and!; try done. by eapply deleteVIP_effect.
    + intros [= <- <-]. simpl. rewrite lookup_delete_eq. split_and!; try done. by rewrite Hs.
Qed.
End Effects.
End Vpp.
