(* ===== verification/DataPlane.v ===== *)
(** * The data-plane interface (internal/agent/dataplane/interface.go, noop.go)

    The class [DataPlane] is the Go interface with its optional extensions,
    which the reconciler finds by a type assertion: an extension an
    implementation lacks is [None].  [DataPlaneLaws] is what an implementation
    promises the reconciler; the no-op data plane and the VPP driver satisfy
    it. *)

From stdpp Require Import base tactics list gmap strings pretty.
From S2P Require Import Prelude Types Routing Vpp.

Class DataPlane (D : Type) := {
  dpApplyVIP : VirtualIP → list BackendSpec → ST D error;
  dpRemoveVIP : VirtualIP → ST D error;
  dpTuningDrifts : option (string → D → list Vpp.VIPTuningDrift);
  dpRecreateVIP : option (VirtualIP → list BackendSpec → ST D error);
  dpNeedsDrainForVIPUpdate : option (VirtualIP → VirtualIP → bool * error);
  dpNeedsDrainForRetainedVIP : option (VirtualIP → ST D (bool * error));
}.

(** What is forwarded for a VIP key: the VIP applied last and its backends. *)
Abbreviation appliedVIP := (VirtualIP * gmap string BackendSpec)%type.

Class DataPlaneLaws (D : Type) `{DataPlane D} := {
  dpApplied : D → string → option appliedVIP;
  apply_ok : ∀ vip bs d d', dpApplyVIP vip bs d = (None, d') →
    dpApplied d' (namespacedKey vip) = Some (vip, Vpp.backendsByAddress bs);
  apply_frame : ∀ vip bs d r d' k, dpApplyVIP vip bs d = (r, d') → k ≠ namespacedKey vip →
    dpApplied d' k = dpApplied d k;
  remove_ok : ∀ vip d d', dpRemoveVIP vip d = (None, d') → dpApplied d' (namespacedKey vip) = None;
  remove_frame : ∀ vip d r d' k, dpRemoveVIP vip d = (r, d') → k ≠ namespacedKey vip →
    dpApplied d' k = dpApplied d k;
  recreate_ok : ∀ f vip bs d d', dpRecreateVIP = Some f → f vip bs d = (None, d') →
    dpApplied d' (namespacedKey vip) = Some (vip, Vpp.backendsByAddress bs);
  recreate_retained : ∀ f vip bs d x d', dpRecreateVIP = Some f → f vip bs d = (Some x, d') →
    Vpp.RouteSafeToRestoreAfterVIPRecreate x = true →
    dpApplied d' (namespacedKey vip) = dpApplied d (namespacedKey vip);
  recreate_frame : ∀ f vip bs d r d' k, dpRecreateVIP = Some f → f vip bs d = (r, d') →
    k ≠ namespacedKey vip → dpApplied d' k = dpApplied d k;
  retained_check_frame : ∀ f vip d r d' k, dpNeedsDrainForRetainedVIP = Some f →
    f vip d = (r, d') → dpApplied d' k = dpApplied d k;
}.

(** ** The no-op data plane *)
Module NoopDataPlane.

Record noopVIPEntry := { nent_vip : VirtualIP; nent_backends : gmap string BackendSpec }.
Definition Noop : Type := gmap string noopVIPEntry.
Definition NewNoop : Noop := ∅.
Definition noopKey (vip : VirtualIP) : string := vip_Namespace vip +:+ "/" +:+ vip_Name vip.

(** [m := make(map); for _, be := range backends { m[be.Address] = be }] *)
Definition backendMap (backends : list BackendSpec) : gmap string BackendSpec :=
  foldl (λ m be, <[be_Address be := be]> m) ∅ backends.

Definition NoopApplyVIP (vip : VirtualIP) (healthyBackends : list BackendSpec) : ST Noop error := λ n,
  (None, <[noopKey vip := {| nent_vip := vip; nent_backends := backendMap healthyBackends |}]> n).

Definition NoopRemoveVIP (vip : VirtualIP) : ST Noop error := λ n, (None, delete (noopKey vip) n).

Definition withEntry (vip : VirtualIP)
    (f : gmap string BackendSpec → gmap string BackendSpec) : ST Noop error := λ n,
  match n !! noopKey vip with
  | None => (None, n)
  | Some entry => (None, <[noopKey vip := {| nent_vip := nent_vip entry;
                                             nent_backends := f (nent_backends entry) |}]> n)
  end.
Definition NoopSetBackends (vip : VirtualIP) (backends : list BackendSpec) : ST Noop error :=
  withEntry vip (λ _, backendMap backends).
Definition NoopAddBackend (vip : VirtualIP) (backend : BackendSpec) : ST Noop error :=
  withEntry vip (<[be_Address backend := backend]>).
Definition NoopRemoveBackend (vip : VirtualIP) (backend : BackendSpec) : ST Noop error :=
  withEntry vip (delete (be_Address backend)).

(** [GetState]: the VIPs and backends in the orders of the two map loops. *)
Definition NoopGetState {E} `{MapOrder E} (e : E) (n : Noop) : list Vpp.VIPState :=
  (λ '(_, entry),
     {| Vpp.vs_Name := vip_Name (nent_vip entry);
        Vpp.vs_Address := spec_Address (vip_Spec (nent_vip entry));
        Vpp.vs_Port := spec_Port (vip_Spec (nent_vip entry));
        Vpp.vs_Protocol := spec_Protocol (vip_Spec (nent_vip entry));
        Vpp.vs_Backends := (λ '(_, be), {| Vpp.ben_Address := be_Address be; Vpp.ben_Weight := be_Weight be |})
                         <$> mapRange e (nent_backends entry) |}) <$> mapRange e n.

#[export] Instance Noop_DataPlane : DataPlane Noop := {|
  dpApplyVIP := NoopApplyVIP;
  dpRemoveVIP := NoopRemoveVIP;
  dpTuningDrifts := None;
  dpRecreateVIP := None;
  dpNeedsDrainForVIPUpdate := None;
  dpNeedsDrainForRetainedVIP := None |}.

#[export] Instance Noop_DataPlaneLaws : DataPlaneLaws Noop.
Proof.
  refine {| dpApplied := λ (n : Noop) k,
    (λ en, (nent_vip en, nent_backends en)) <$> (n : gmap string noopVIPEntry) !! k |}.
  - intros vip bs d d' [= <-]. unfold Noop in *. by rewrite lookup_insert_eq.
  - intros vip bs d r d' k [= <- <-] Hk. unfold Noop in *. by rewrite lookup_insert_ne.
  - intros vip d d' [= <-]. unfold Noop in *. by rewrite lookup_delete_eq.
  - intros vip d r d' k [= <- <-] Hk. unfold Noop in *. by rewrite lookup_delete_ne.
  - done.
  - done.
  - done.
  - done.
Defined.

End NoopDataPlane.

(** ** The VPP driver *)
Module VppDataPlane.
Section Instance_.
Context {E : Type} `{!Vpp.VPPConn E} `{!Clock E} `{!MapOrder E}.
Variable cfg : Vpp.VPPConfig.

Definition Vpp_DataPlane : DataPlane (Vpp.VPP * E) := {|
  dpApplyVIP := Vpp.ApplyVIP cfg;
  dpRemoveVIP := Vpp.RemoveVIP cfg;
  dpTuningDrifts := Some (λ k s, Vpp.TuningDrifts k s.1);
  dpRecreateVIP := Some (Vpp.RecreateVIP cfg);
  dpNeedsDrainForVIPUpdate := Some (Vpp.NeedsDrainForVIPUpdate cfg);
  dpNeedsDrainForRetainedVIP := Some (Vpp.NeedsDrainForRetainedVIP cfg) |}.

(** What the driver's cache records as applied. *)
Definition cached (s : Vpp.VPP * E) (k : string) : option appliedVIP :=
  (λ en, (Vpp.ent_vip en, Vpp.ent_backends en)) <$> Vpp.vips s.1 !! k.

Lemma cached_frame k k' v v' (e e' : E) :
  Vpp.only_key k v v' → k' ≠ k → cached (v', e') k' = cached (v, e) k'.
Proof. intros Ho Hne. unfold cached. simpl. by destruct (Ho k' Hne) as [-> _]. Qed.

Definition Vpp_DataPlaneLaws : @DataPlaneLaws (Vpp.VPP * E) Vpp_DataPlane.
Proof.
  refine {| dpApplied := cached |}; try intros f; simpl.
  - intros bs [v e] [v' e'] (en & Hl & <- & <-)%Vpp.ApplyVIP_entry. unfold cached. simpl.
    unfold Vpp.vipKey in Hl. by rewrite Hl.
  - intros bs [v e] r [v' e'] k Ha Hk. eapply cached_frame; [by eapply Vpp.ApplyVIP_frame|done].
  - intros [v e] [v' e'] Hl%Vpp.RemoveVIP_entry. unfold cached. simpl.
    unfold Vpp.vipKey in Hl. by rewrite Hl.
  - intros [v e] r [v' e'] k Ha Hk. eapply cached_frame; [by eapply Vpp.RemoveVIP_frame|done].
  - intros vip bs [v e] [v' e'] [= <-] (en & Hl & <- & <-)%Vpp.RecreateVIP_entry.
    unfold cached. simpl. unfold Vpp.vipKey in Hl. by rewrite Hl.
  - intros vip bs [v e] x [v' e'] [= <-] Hr%Vpp.RecreateVIP_entry Hs. unfold cached. simpl.
    by rewrite (Hr Hs).
  - intros vip bs [v e] r [v' e'] k [= <-] Ha Hk.
    eapply cached_frame; [by eapply Vpp.RecreateVIP_frame|done].
  - intros vip [v e] r [v' e'] k [= <-] Ha. unfold cached. simpl.
    by eapply Vpp.NeedsDrainForRetainedVIP_entries.
Defined.

End Instance_.
End VppDataPlane.
