(* ===== verification/VppSim.v ===== *)
(** * A reference VPP, and concrete runs of the driver

    [SimVPP] is a small in-memory load-balancer plugin that satisfies
    [VPPLaws]: it shows that the laws can hold, and it runs the driver on
    concrete inputs.  It logs the application-server calls it receives. *)

From stdpp Require Import base tactics list gmap strings pretty.
From S2P Require Import Prelude Types Net Routing Vpp.
Import Vpp.

Module VppSim.

Record SimVPP := {
  sim_vips : list (LbVipDetails * gset Address);
  sim_log : list LbAddDelAs;
  sim_clock : Z;
}.

Definition hasId (id : LbVip) (x : LbVipDetails * gset Address) : bool :=
  bool_decide (det_Vip x.1 = id).

Fixpoint simFind (id : LbVip) (l : list (LbVipDetails * gset Address)) : option (gset Address) :=
  match l with
  | [] => None
  | x :: l => if hasId id x then Some x.2 else simFind id l
  end.

Definition simVipDump : ST SimVPP (err + list LbVipDetails * error) := λ s,
  (inr (fst <$> sim_vips s, None), s).

Definition simAsDump (id : LbVip) : ST SimVPP (err + list LbAsDetails * error) := λ s,
  (inr ((λ a, {| asd_Vip := id; asd_AppSrv := a |}) <$>
          elements (default ∅ (simFind id (sim_vips s))), None), s).

(** Adding an existing VIP, or naming a missing one, returns an error code. *)
Definition simAddDelVip (req : LbAddDelVip) : ST SimVPP (err + Z) := λ s,
  match simFind (adv_Vip req) (sim_vips s), adv_IsDel req with
  | Some _, false | None, true => (inr (-1)%Z, s)
  | Some _, true =>
      (inr 0%Z, {| sim_vips := List.filter (λ x, negb (hasId (adv_Vip req) x)) (sim_vips s);
                   sim_log := sim_log s; sim_clock := sim_clock s |})
  | None, false =>
      (inr 0%Z, {| sim_vips := ({| det_Vip := adv_Vip req; det_Encap := adv_Encap req;
                                   det_Dscp := adv_Dscp req; det_SrvType := adv_Type req;
                                   det_TargetPort := adv_TargetPort req;
                                   det_FlowTableLength := wrapU 16 (adv_NewFlowsTableLength req) |}, ∅)
                               :: sim_vips s;
                   sim_log := sim_log s; sim_clock := sim_clock s |})
  end.

Definition editAs (req : LbAddDelAs) (S : gset Address) : gset Address :=
  if ada_IsDel req then S ∖ {[ada_AsAddress req]} else {[ada_AsAddress req]} ∪ S.

Definition simAddDelAs (req : LbAddDelAs) : ST SimVPP (err + Z) := λ s,
  match simFind (ada_Vip req) (sim_vips s) with
  | None => (inr (-2)%Z, s)
  | Some srv =>
      if bool_decide (ada_AsAddress req ∈ srv ↔ ada_IsDel req = true) then
        (inr 0%Z, {| sim_vips := (λ x, if hasId (ada_Vip req) x then (x.1, editAs req x.2) else x)
                                   <$> sim_vips s;
                     sim_log := sim_log s ++ [req]; sim_clock := sim_clock s |})
      else (inr (-3)%Z, s)
  end.

#[export] Instance Sim_VPPConn : VPPConn SimVPP :=
  {| InvokeLbVipDump := simVipDump; InvokeLbAsDump := simAsDump;
     InvokeLbAddDelVip := simAddDelVip; InvokeLbAddDelAs := simAddDelAs |}.
#[export] Instance Sim_Clock : Clock SimVPP := {| readClock := λ s, (sim_clock s, s) |}.
#[export] Program Instance Sim_MapOrder : MapOrder SimVPP :=
  {| mapRange := λ V _ m, map_to_list m |}.
Next Obligation. done. Qed.

Lemma simFind_Some id l : is_Some (simFind id l) ↔ ∃ x, x ∈ l ∧ det_Vip x.1 = id.
Proof.
  induction l as [|x l IH]; simpl.
  - split; [by intros [??]|intros (x & ?%elem_of_nil & _); done].
  - unfold hasId. setoid_rewrite elem_of_cons. case_bool_decide; [naive_solver|].
    rewrite IH. naive_solver.
Qed.

Lemma simFind_filter id id' l :
  simFind id' (List.filter (λ x, negb (hasId id x)) l) =
  if decide (id' = id) then None else simFind id' l.
Proof.
  induction l as [|x l IH]; simpl; [by case_decide|].
  destruct (hasId id x) eqn:Hx; simpl; rewrite IH; unfold hasId in *.
  - apply bool_decide_eq_true in Hx. case_decide; [done|].
    by rewrite bool_decide_eq_false_2 by congruence.
  - apply bool_decide_eq_false in Hx. case_bool_decide; [|done].
    by rewrite decide_False by congruence.
Qed.

Lemma simFind_edit (f : gset Address → gset Address) id id' l :
  simFind id' ((λ x : LbVipDetails * gset Address, if hasId id x then (x.1, f x.2) else x) <$> l) =
  if decide (id' = id) then f <$> simFind id' l else simFind id' l.
Proof.
  induction l as [|x l IH]; [by case_decide|]. rewrite fmap_cons. cbn [simFind].
  assert (hasId id' (if hasId id x then (x.1, f x.2) else x) = hasId id' x) as ->
    by (by destruct (hasId id x)).
  rewrite IH. unfold hasId. case_bool_decide; [|done]. case_decide; simpl.
  - by rewrite bool_decide_eq_true_2 by congruence.
  - by rewrite bool_decide_eq_false_2 by congruence.
Qed.

#[export] Program Instance Sim_VPPLaws : VPPLaws SimVPP :=
  {| asSet := λ s id, simFind id (sim_vips s) |}.
Next Obligation. simpl. intros; by simplify_eq. Qed.
Next Obligation.
  intros e e' r. cbv [InvokeLbVipDump Sim_VPPConn simVipDump]. intros [= <- <-].
  split; [done|]. intros ds er [= <- <-]. split.
  - intros d (x & -> & Hx)%list_elem_of_fmap. apply simFind_Some. eauto.
  - intros _ id (x & Hx & <-)%simFind_Some. exists x.1. split; [|done].
    apply list_elem_of_fmap. eauto.
Qed.
Next Obligation.
  intros e e' id r. cbv [InvokeLbAsDump Sim_VPPConn simAsDump]. intros [= <- <-].
  split; [done|]. intros ds S [= <-] HS a. rewrite HS. simpl. split.
  - intros Ha. exists {| asd_Vip := id; asd_AppSrv := a |}. split; [|done].
    apply list_elem_of_fmap. exists a. split; [done|]. by apply elem_of_elements.
  - intros (d & (a' & -> & Ha')%list_elem_of_fmap & _ & <-). simpl. by apply elem_of_elements in Ha'.
Qed.
Next Obligation.
  intros e e' req. cbv [InvokeLbAddDelVip Sim_VPPConn simAddDelVip].
  destruct (simFind (adv_Vip req) (sim_vips e)) eqn:Hf, (adv_IsDel req) eqn:Hd;
    intros [= <-]; intros id; simpl; [apply simFind_filter|].
  unfold hasId. simpl. case_bool_decide; case_decide; congruence.
Qed.
Next Obligation.
  intros e e' req. cbv [InvokeLbAddDelAs Sim_VPPConn simAddDelAs].
  destruct (simFind (ada_Vip req) (sim_vips e)) eqn:Hf; [|done]. case_bool_decide; [|done].
  intros [= <-] id. simpl. apply simFind_edit.
Qed.

(** ** Concrete runs *)

Definition cfg : VPPConfig :=
  {| cfg_EncapType := "GRE6"; cfg_DSCP := 10; cfg_ServiceType := "CLUSTERIP";
     cfg_NewFlowsTableLength := 70000; cfg_FailOnAllBackendsDown := false;
     cfg_StateVerificationInterval := 0 |}.

Definition backend (a : string) : BackendSpec :=
  {| be_Address := a; be_MonitorAddress := ""; be_Weight := 1 |}.

Definition mkVIP (addr : string) (bs : list BackendSpec) : VirtualIP :=
  {| vip_Namespace := "ns"; vip_Name := "web"; vip_UID := "u1"; vip_Generation := 1;
     vip_DeletionTimestamp := None;
     vip_Spec := {| spec_Address := addr; spec_Port := 80; spec_Protocol := ProtocolTCP;
                    spec_EncapType := ""; spec_DSCP := None; spec_Backends := bs;
                    spec_HealthCheck := None |};
     vip_Status := empty_status |}.

Definition idle : SimVPP := {| sim_vips := []; sim_log := []; sim_clock := 0 |}.
Definition tick (d : Z) (s : SimVPP) : SimVPP :=
  {| sim_vips := sim_vips s; sim_log := sim_log s; sim_clock := (sim_clock s + d)%Z |}.

Definition web : VirtualIP := mkVIP "10.0.0.1" [backend "10.1.0.1"; backend "10.1.0.2"].
Definition applied : VPP * SimVPP := (ApplyVIP cfg web (spec_Backends (vip_Spec web)) (NewVPP, idle)).2.

(** An agent that starts again over a VPP that kept a foreign backend. *)
Definition foreign : SimVPP :=
  (InvokeLbAddDelAs {| ada_Vip := {| lbv_Pfx := {| pfx_Address := IP4 [10;0;0;1]%Z; pfx_Len := 32 |};
                                     lbv_Protocol := 6; lbv_Port := 80 |};
                       ada_AsAddress := IP4 [10;9;9;9]%Z; ada_IsDel := false |} applied.2).2.

(** [all_printable] by evaluation. *)
Definition printableb (a : Address) : bool :=
  match parseIPAddress (addressToString a) with inr a' => bool_decide (a' = a) | inl _ => false end.

Lemma all_printable_eval id (s : SimVPP) :
  forallb printableb (elements (default ∅ (simFind id (sim_vips s)))) = true → all_printable id s.
Proof.
  intros Hall srv a Hs Ha. simpl in Hs. rewrite Hs in Hall. simpl in Hall.
  rewrite forallb_forall in Hall. specialize (Hall a). unfold printableb in Hall.
  assert (In a (elements srv)) as Hin by (by apply list_elem_of_In, elem_of_elements).
  specialize (Hall Hin). unfold printable. case_match; [done|].
  by apply bool_decide_eq_true in Hall as ->.
Qed.

Definition webId : LbVip :=
  {| lbv_Pfx := {| pfx_Address := IP4 [10;0;0;1]%Z; pfx_Len := 32 |};
     lbv_Protocol := 6; lbv_Port := 80 |}.

Definition healed : VPP * SimVPP :=
  (ApplyVIP cfg web [backend "10.1.0.2"] (NewVPP, foreign)).2.

Lemma ApplyVIP_heals_witness :
  ∃ srv, asSet healed.2 webId = Some srv ∧
    ∀ a, a ∈ srv ↔ ∃ be, be ∈ [backend "10.1.0.2"] ∧ parseIPAddress (be_Address be) = inr a.
Proof.
  eapply (ApplyVIP_heals cfg web [backend "10.1.0.2"] NewVPP foreign healed.1 healed.2 webId).
  - vm_compute. reflexivity.
  - apply all_printable_eval. vm_compute. reflexivity.
  - vm_compute. reflexivity.
  - intros existing. vm_compute. discriminate.
  - vm_compute. reflexivity.
Defined.

Lemma ApplyVIP_cache_witness :
  only_key (vipKey web) NewVPP applied.1 ∧
  ∃ en, vips applied.1 !! vipKey web = Some en ∧ ent_vip en = web ∧
    ent_backends en = backendsByAddress (spec_Backends (vip_Spec web)).
Proof.
  apply (ApplyVIP_cache cfg web (spec_Backends (vip_Spec web)) NewVPP idle None applied.1 applied.2).
  vm_compute. reflexivity.
Defined.

Definition recreated : VPP * SimVPP := (RecreateVIP cfg web [backend "10.1.0.1"] applied).2.

Lemma RecreateVIP_outcome_witness : TuningDrifts (vipKey web) recreated.1 = [].
Proof.
  apply (RecreateVIP_outcome cfg web [backend "10.1.0.1"] applied.1 applied.2 None
           recreated.1 recreated.2 webId); vm_compute; reflexivity.
Defined.

Definition removed : VPP * SimVPP := (RemoveVIP cfg web applied).2.

Lemma RemoveVIP_removes_witness : asSet removed.2 webId = None.
Proof.
  apply (RemoveVIP_removes cfg web applied.1 applied.2 removed.1 removed.2 webId);
    vm_compute; reflexivity.
Defined.

(** ** Addresses that are not in canonical form *)

(** The VIP is validated and applied, nothing changes, and the cached entry
    comes up for verification. *)
Definition v6web : VirtualIP := mkVIP "2001:db8::80" [backend "2001:DB8::1"].
Definition v6first : VPP * SimVPP := (ApplyVIP cfg v6web (spec_Backends (vip_Spec v6web)) (NewVPP, idle)).2.
Definition v6verified : VPP * SimVPP :=
  (ApplyVIP cfg v6web (spec_Backends (vip_Spec v6web)) (v6first.1, tick (60 * Second) v6first.2)).2.

(** A backend address that is valid but not in canonical form makes every
    verification of an unchanged VIP remove the backend from VPP and add it
    again: the address read back from VPP never equals the configured one. *)
Theorem noncanonical_backend_flaps :
  is_Some (ParseAddr "2001:DB8::1") ∧
  (ApplyVIP cfg v6web (spec_Backends (vip_Spec v6web)) (v6first.1, tick (60 * Second) v6first.2)).1 = None ∧
  ada_IsDel <$> sim_log v6first.2 = [false] ∧
  ada_IsDel <$> sim_log v6verified.2 = [false; true; false].
Proof. split; [by eexists; vm_compute|]. vm_compute. auto. Qed.

End VppSim.
