(* ===== verification/Validation.v ===== *)
(** * Validation of VirtualIPs

    internal/virtualip/validation/validation.go with the encapsulation rules
    of internal/common/models/encap.go and the header rules of
    internal/common/models/health_check_validation.go.  The agent applies
    [ValidateDataPlane] before anything reaches the data plane, and the health
    check engine [ValidateHealthCheckRuntimeSpec] before it schedules probes. *)

From stdpp Require Import base tactics list gmap strings.
From S2P Require Import Prelude Types Net Vpp.

(** ** Formatted errors

    [fmt.Errorf(format, args...)], unevaluated: which message, of what. *)
Inductive ferr := Errorf (format : string) (args : list farg)
with farg := AStr (s : string) | AInt (z : Z) | AErr (e : ferr).

Module Validation.

(** ** Encapsulation types (models/encap.go) *)
Definition EffectiveEncapType (encapType : string) : string :=
  if bool_decide (encapType = "") then EncapTypeL3DSR else encapType.
Definition IsValidEncapType (encapType : string) : bool :=
  bool_decide (encapType ∈ [EncapTypeGRE4; EncapTypeGRE6; EncapTypeL3DSR; EncapTypeNAT4; EncapTypeNAT6]).
Definition EncapRequiresIPv4VIP (encapType : string) : bool :=
  bool_decide (encapType ∈ [EncapTypeL3DSR; EncapTypeNAT4]).
Definition EncapRequiresIPv6VIP (encapType : string) : bool := bool_decide (encapType = EncapTypeNAT6).
Definition EncapRequiresIPv4Backend (encapType : string) : bool :=
  bool_decide (encapType ∈ [EncapTypeGRE4; EncapTypeL3DSR; EncapTypeNAT4]).
Definition EncapRequiresIPv6Backend (encapType : string) : bool :=
  bool_decide (encapType ∈ [EncapTypeGRE6; EncapTypeNAT6]).

(** ** The data-plane part of a spec *)

Definition validateEncapAddressFamily (address encapType : string) : option ferr :=
  if bool_decide (encapType = "") then None
  else
    match ParseAddr address with
    | None => None
    | Some ip =>
        if EncapRequiresIPv4VIP encapType then
          if Is4 ip then None
          else Some (Errorf "spec.encapType %q requires an IPv4 spec.address" [AStr encapType])
        else if EncapRequiresIPv6VIP encapType then
          if Is4 ip
          then Some (Errorf "spec.encapType %q requires an IPv6 spec.address" [AStr encapType])
          else None
        else None
    end.

Definition validateBackendAddressFamily (index : Z) (address : string) (ip : Addr) (encapType : string)
    : option ferr :=
  if bool_decide (encapType = "") then None
  else if EncapRequiresIPv4Backend encapType then
    if Is4 ip then None
    else Some (Errorf "spec.backends[%d].address %q must be IPv4 for encapType %q"
                 [AInt index; AStr address; AStr encapType])
  else if EncapRequiresIPv6Backend encapType then
    if Is4 ip
    then Some (Errorf "spec.backends[%d].address %q must be IPv6 for encapType %q"
                 [AInt index; AStr address; AStr encapType])
    else None
  else None.

(** The loop over [spec.Backends], with its map of addresses seen. *)
Fixpoint validateBackends (i : Z) (seen : gset string) (encapType : string) (bes : list BackendSpec)
    : option ferr :=
  match bes with
  | [] => None
  | be :: bes' =>
      match ParseAddr (be_Address be) with
      | None => Some (Errorf "spec.backends[%d].address %q is not a valid IP" [AInt i; AStr (be_Address be)])
      | Some ip =>
          match validateBackendAddressFamily i (be_Address be) ip encapType with
          | Some e => Some e
          | None =>
              if bool_decide (be_MonitorAddress be ≠ "" ∧ ParseAddr (be_MonitorAddress be) = None)
              then Some (Errorf "spec.backends[%d].monitorAddress %q is not a valid IP"
                           [AInt i; AStr (be_MonitorAddress be)])
              else if bool_decide (be_Address be ∈ seen)
              then Some (Errorf "spec.backends[%d].address %q is duplicated" [AInt i; AStr (be_Address be)])
              else if ((be_Weight be <? 1) || (100 <? be_Weight be))%Z
              then Some (Errorf "spec.backends[%d].weight must be 1-100, got %d" [AInt i; AInt (be_Weight be)])
              else validateBackends (i + 1) ({[be_Address be]} ∪ seen) encapType bes'
          end
      end
  end.

(** [spec] is never nil where it is called. *)
Definition validateDataPlaneSpec (spec : VirtualIPSpec) : option ferr :=
  if bool_decide (spec_EncapType spec ≠ "") && negb (IsValidEncapType (spec_EncapType spec))
  then Some (Errorf "spec.encapType %q is not valid" [AStr (spec_EncapType spec)])
  else
    match validateEncapAddressFamily (spec_Address spec) (spec_EncapType spec) with
    | Some e => Some e
    | None =>
        if bool_decide (spec_EncapType spec = EncapTypeL3DSR) &&
           match spec_DSCP spec with Some d => (d =? 0)%Z || (63 <? d)%Z | None => false end
        then Some (Errorf "DSCP must be 1-63 when specified for L3DSR encapsulation" [])
        else validateBackends 0 ∅ (spec_EncapType spec) (spec_Backends spec)
    end.

Definition validateCoreSpec (spec : VirtualIPSpec) : option ferr :=
  match ParseAddr (spec_Address spec) with
  | None => Some (Errorf "spec.address %q is not a valid IP address" [AStr (spec_Address spec)])
  | Some _ =>
      if ((spec_Port spec <? 1) || (65535 <? spec_Port spec))%Z
      then Some (Errorf "spec.port must be between 1 and 65535, got %d" [AInt (spec_Port spec)])
      else if bool_decide (spec_Protocol spec = ProtocolTCP) || bool_decide (spec_Protocol spec = ProtocolUDP)
      then validateDataPlaneSpec spec
      else Some (Errorf "spec.protocol must be TCP or UDP, got %q" [AStr (spec_Protocol spec)])
  end.

Definition ValidateDataPlane (vip : option VirtualIP) : option ferr :=
  match vip with
  | None => Some (Errorf "VirtualIP is nil" [])
  | Some vip => validateCoreSpec (vip_Spec vip)
  end.

(** ** Health checks *)

(** golang.org/x/net/http/httpguts *)
Class HttpGuts := {
  ValidHostHeader : string → bool;
  ValidHeaderFieldName : string → bool;
  ValidHeaderFieldValue : string → bool;
}.

(** [url.Parse] of a path that starts with a single slash: the part before
    [#] holds no control byte, and every [%] of the path and of the fragment
    starts an escape of two hex digits; the query is not looked at. *)
Fixpoint cut (sep : Z) (s : list Z) : list Z * list Z :=
  match s with
  | [] => ([], [])
  | c :: s' => if (c =? sep)%Z then ([], s') else let '(a, b) := cut sep s' in (c :: a, b)
  end.
Definition isCTL (c : Z) : bool := ((c <? 32) || (c =? 127))%Z.
Fixpoint unescapes (s : list Z) : bool :=
  match s with
  | [] => true
  | c :: s' =>
      if (c =? cPercent)%Z then
        match s' with
        | a :: b :: s'' =>
            bool_decide (is_Some (hex_value a)) && bool_decide (is_Some (hex_value b)) && unescapes s''
        | _ => false
        end
      else unescapes s'
  end.
Definition urlParsePath (path : string) : option ferr :=
  let '(u, frag) := cut 35 (bytes_of path) in
  if existsb isCTL u then Some (Errorf "net/url: invalid control character in URL" [])
  else if unescapes (cut 63 u).1 && unescapes frag then None
  else Some (Errorf "invalid URL escape" []).

Fixpoint hasPrefix (p s : list Z) : bool :=
  match p, s with
  | [], _ => true
  | x :: p', y :: s' => (x =? y)%Z && hasPrefix p' s'
  | _ :: _, [] => false
  end.

Definition MaxHealthCheckSeconds : Z := 2147483647.
Definition MaxHealthCheckCount : Z := 2147483647.

Section HealthChecks.
Context {E : Type} `{HttpGuts} `{MapOrder E}.

Definition ValidateHTTPHostHeader (host : string) : option ferr :=
  if bool_decide (host = "") then None
  else if ValidHostHeader host then None
  else Some (Errorf "must be a valid HTTP Host header" []).

Definition validateHTTPHeader (name value : string) : option ferr :=
  if negb (ValidHeaderFieldName name)
  then Some (Errorf "headers contains invalid header name %q" [AStr name])
  else if negb (ValidHeaderFieldValue value)
  then Some (Errorf "headers[%q] contains invalid header value" [AStr name])
  else None.

Fixpoint firstHeaderError (headers : list (string * string)) : option ferr :=
  match headers with
  | [] => None
  | (key, value) :: headers' =>
      match validateHTTPHeader key value with Some e => Some e | None => firstHeaderError headers' end
  end.
Definition ValidateHTTPHeaders (e : E) (headers : gmap string string) : option ferr :=
  firstHeaderError (mapRange e headers).

Fixpoint validateExpectedCodes (i : Z) (codes : list Z) : option ferr :=
  match codes with
  | [] => None
  | code :: codes' =>
      if ((code <? 100) || (599 <? code))%Z
      then Some (Errorf "spec.healthCheck.http.expectedCodes[%d] must be 100-599, got %d" [AInt i; AInt code])
      else validateExpectedCodes (i + 1) codes'
  end.

(** The two arms of the type switch that check a probe's own settings. *)
Definition validateHTTPPath (path : string) : option ferr :=
  if bool_decide (path = "") then None
  else if negb (hasPrefix [47]%Z (bytes_of path)) || hasPrefix [47; 47]%Z (bytes_of path)
  then Some (Errorf "spec.healthCheck.http.path must be relative and start with a single slash, got %q" [AStr path])
  else match urlParsePath path with
       | Some e => Some (Errorf "spec.healthCheck.http.path %q is not valid: %w" [AStr path; AErr e])
       | None => None
       end.

Definition validateHTTP (e : E) (type : string) (http : option HTTPHealthCheck) : option ferr :=
  match http with
  | None => Some (Errorf "spec.healthCheck.http is required for type %q" [AStr type])
  | Some h =>
      if ((http_Port h <? 1) || (65535 <? http_Port h))%Z
      then Some (Errorf "spec.healthCheck.http.port must be 1-65535" [])
      else if negb (bool_decide (http_Method h ∈ [""; "GET"; "HEAD"; "POST"]))
      then Some (Errorf "spec.healthCheck.http.method must be one of GET, HEAD, POST, got %q" [AStr (http_Method h)])
      else
        match validateHTTPPath (http_Path h) with
        | Some e => Some e
        | None =>
            match ValidateHTTPHostHeader (http_Host h) with
            | Some e => Some (Errorf "spec.healthCheck.http.host %w" [AErr e])
            | None =>
                match ValidateHTTPHeaders e (http_Headers h) with
                | Some e => Some (Errorf "spec.healthCheck.http.headers: %w" [AErr e])
                | None => validateExpectedCodes 0 (http_ExpectedCodes h)
                end
            end
        end
  end.

Definition validateTCP (type : string) (tcp : option TCPHealthCheck) : option ferr :=
  match tcp with
  | None => Some (Errorf "spec.healthCheck.tcp is required for type %q" [AStr type])
  | Some t =>
      if ((tcp_Port t <? 1) || (65535 <? tcp_Port t))%Z
      then Some (Errorf "spec.healthCheck.tcp.port must be 1-65535" []) else None
  end.

Definition validateProbe (e : E) (hc : HealthCheckSpec) : option ferr :=
  if bool_decide (hc_Type hc = HCTypeHTTP) || bool_decide (hc_Type hc = HCTypeHTTPS)
  then validateHTTP e (hc_Type hc) (hc_HTTP hc)
  else if bool_decide (hc_Type hc = HCTypeTCP) || bool_decide (hc_Type hc = HCTypeTLSHello)
  then validateTCP (hc_Type hc) (hc_TCP hc)
  else if bool_decide (hc_Type hc = HCTypePing) then None
  else Some (Errorf "spec.healthCheck.type %q is not valid" [AStr (hc_Type hc)]).

Definition validateTiming (hc : HealthCheckSpec) : option ferr :=
  if (hc_IntervalSeconds hc <? 1)%Z
  then Some (Errorf "spec.healthCheck.intervalSeconds must be >= 1" [])
  else if (MaxHealthCheckSeconds <? hc_IntervalSeconds hc)%Z
  then Some (Errorf "spec.healthCheck.intervalSeconds must be <= %d" [AInt MaxHealthCheckSeconds])
  else if (hc_TimeoutSeconds hc <? 1)%Z
  then Some (Errorf "spec.healthCheck.timeoutSeconds must be >= 1" [])
  else if (MaxHealthCheckSeconds <? hc_TimeoutSeconds hc)%Z
  then Some (Errorf "spec.healthCheck.timeoutSeconds must be <= %d" [AInt MaxHealthCheckSeconds])
  else if (hc_IntervalSeconds hc <=? hc_TimeoutSeconds hc)%Z
  then Some (Errorf "spec.healthCheck.timeoutSeconds must be less than intervalSeconds" [])
  else if (MaxHealthCheckCount <? hc_RiseCount hc)%Z
  then Some (Errorf "spec.healthCheck.riseCount must be <= %d" [AInt MaxHealthCheckCount])
  else if (MaxHealthCheckCount <? hc_FallCount hc)%Z
  then Some (Errorf "spec.healthCheck.fallCount must be <= %d" [AInt MaxHealthCheckCount])
  else None.

Definition validateHealthCheckSpec (e : E) (hc : option HealthCheckSpec) : option ferr :=
  match hc with
  | None => None
  | Some hc => match validateProbe e hc with Some err => Some err | None => validateTiming hc end
  end.

Definition ValidateHealthCheckRuntimeSpec (e : E) (hc : option HealthCheckSpec) : option ferr :=
  match validateHealthCheckSpec e hc with
  | Some err => Some err
  | None =>
      match hc with
      | None => None
      | Some hc =>
          if (hc_RiseCount hc <? 1)%Z
          then Some (Errorf "spec.healthCheck.riseCount must be >= 1" [])
          else if (hc_FallCount hc <? 1)%Z
          then Some (Errorf "spec.healthCheck.fallCount must be >= 1" [])
          else None
      end
  end.

Definition ValidateSpec (e : E) (spec : VirtualIPSpec) : option ferr :=
  match validateCoreSpec spec with
  | Some err => Some err
  | None => validateHealthCheckSpec e (spec_HealthCheck spec)
  end.

Definition Validate (e : E) (vip : option VirtualIP) : option ferr :=
  match ValidateDataPlane vip with
  | Some err => Some err
  | None => validateHealthCheckSpec e (vip ≫= spec_HealthCheck ∘ vip_Spec)
  end.

End HealthChecks.

(** ** What validation guarantees *)

Record backendOk (encapType : string) (be : BackendSpec) : Prop := {
  bo_addr : is_Some (ParseAddr (be_Address be));
  bo_v4 : encapType ∈ [EncapTypeGRE4; EncapTypeL3DSR; EncapTypeNAT4] →
    ∃ b, ParseAddr (be_Address be) = Some (Addr4 b);
  bo_v6 : encapType ∈ [EncapTypeGRE6; EncapTypeNAT6] →
    ∃ b z, ParseAddr (be_Address be) = Some (Addr6 b z);
  bo_monitor : be_MonitorAddress be ≠ "" → is_Some (ParseAddr (be_MonitorAddress be));
  bo_weight : (1 ≤ be_Weight be ≤ 100)%Z;
}.

Record dataPlaneOk (spec : VirtualIPSpec) : Prop := {
  do_addr : is_Some (ParseAddr (spec_Address spec));
  do_port : (1 ≤ spec_Port spec ≤ 65535)%Z;
  do_proto : spec_Protocol spec = ProtocolTCP ∨ spec_Protocol spec = ProtocolUDP;
  do_encap : spec_EncapType spec ∈
    [""; EncapTypeGRE4; EncapTypeGRE6; EncapTypeL3DSR; EncapTypeNAT4; EncapTypeNAT6];
  do_v4 : spec_EncapType spec ∈ [EncapTypeL3DSR; EncapTypeNAT4] →
    ∃ b, ParseAddr (spec_Address spec) = Some (Addr4 b);
  do_v6 : spec_EncapType spec = EncapTypeNAT6 → ∃ b z, ParseAddr (spec_Address spec) = Some (Addr6 b z);
  do_dscp : spec_EncapType spec = EncapTypeL3DSR → ∀ d, spec_DSCP spec = Some d → (d ≠ 0 ∧ d ≤ 63)%Z;
  do_backends : Forall (backendOk (spec_EncapType spec)) (spec_Backends spec);
  do_nodup : NoDup (be_Address <$> spec_Backends spec);
}.

(** A chain of checks passes when each of them does. *)
Lemma fail_if {A} (c : bool) (e : A) k : (if c then Some e else k) = None ↔ c = false ∧ k = None.
Proof. destruct c; naive_solver. Qed.
Lemma fail_unless {A} (c : bool) (e : A) k : (if c then k else Some e) = None ↔ c = true ∧ k = None.
Proof. destruct c; naive_solver. Qed.
Lemma fail_first {A} (m : option A) (f : A → A) k :
  match m with Some e => Some (f e) | None => k end = None ↔ m = None ∧ k = None.
Proof. destruct m; naive_solver. Qed.
Lemma out_of_range (lo hi z : Z) : ((z <? lo) || (hi <? z))%Z = false ↔ (lo ≤ z ≤ hi)%Z.
Proof. rewrite orb_false_iff, !Z.ltb_ge. lia. Qed.

Lemma Is4_true a : Is4 a = true ↔ ∃ b, a = Addr4 b.
Proof. destruct a; naive_solver. Qed.
Lemma Is4_false a : Is4 a = false ↔ ∃ b z, a = Addr6 b z.
Proof. destruct a; naive_solver. Qed.

(** The switch on the required families: with [r4] and [r6] disjoint. *)
Lemma family_switch (r4 r6 : bool) (ip : Addr) (e4 e6 : ferr) :
  (r4 = true → r6 = false) →
  (if r4 then if Is4 ip then None else Some e4
   else if r6 then if Is4 ip then Some e6 else None else None) = None ↔
  (r4 = true → ∃ b, ip = Addr4 b) ∧ (r6 = true → ∃ b z, ip = Addr6 b z).
Proof.
  intros Hd. rewrite <- Is4_true, <- Is4_false. destruct r4, r6, (Is4 ip); naive_solver.
Qed.

Lemma validateBackendAddressFamily_spec i address ip encapType :
  validateBackendAddressFamily i address ip encapType = None ↔
  (encapType ∈ [EncapTypeGRE4; EncapTypeL3DSR; EncapTypeNAT4] → ∃ b, ip = Addr4 b) ∧
  (encapType ∈ [EncapTypeGRE6; EncapTypeNAT6] → ∃ b z, ip = Addr6 b z).
Proof.
  unfold validateBackendAddressFamily. case_bool_decide as He.
  { subst. split; [|done]. intros _. by split; intros Hin; repeat (apply elem_of_cons in Hin as [|Hin]; [done|]); apply not_elem_of_nil in Hin. }
  unfold EncapRequiresIPv4Backend, EncapRequiresIPv6Backend.
  rewrite family_switch, !bool_decide_eq_true; [done|].
  intros ?%bool_decide_eq_true. apply bool_decide_eq_false. set_solver.
Qed.

Lemma validateEncapAddressFamily_spec address encapType ip :
  ParseAddr address = Some ip →
  validateEncapAddressFamily address encapType = None ↔
  (encapType ∈ [EncapTypeL3DSR; EncapTypeNAT4] → ∃ b, ip = Addr4 b) ∧
  (encapType = EncapTypeNAT6 → ∃ b z, ip = Addr6 b z).
Proof.
  intros Hip. unfold validateEncapAddressFamily. rewrite Hip. case_bool_decide as He.
  { subst. split; [|done]. intros _. split; [|done]; intros Hin; repeat (apply elem_of_cons in Hin as [|Hin]; [done|]); by apply not_elem_of_nil in Hin. }
  unfold EncapRequiresIPv4VIP, EncapRequiresIPv6VIP.
  rewrite family_switch, !bool_decide_eq_true; [done|].
  intros ?%bool_decide_eq_true. apply bool_decide_eq_false. set_solver.
Qed.

Lemma validEncap_spec encapType :
  bool_decide (encapType ≠ "") && negb (IsValidEncapType encapType) = false ↔
  encapType ∈ [""; EncapTypeGRE4; EncapTypeGRE6; EncapTypeL3DSR; EncapTypeNAT4; EncapTypeNAT6].
Proof.
  unfold IsValidEncapType. repeat case_bool_decide; simpl; rewrite elem_of_cons; naive_solver.
Qed.

Lemma dscp_spec encapType dscp :
  bool_decide (encapType = EncapTypeL3DSR) &&
    match dscp with Some d => (d =? 0)%Z || (63 <? d)%Z | None => false end = false ↔
  (encapType = EncapTypeL3DSR → ∀ d, dscp = Some d → (d ≠ 0 ∧ d ≤ 63)%Z).
Proof.
  case_bool_decide as He; simpl; [|by split]. destruct dscp as [d|]; [|by split].
  rewrite orb_false_iff, Z.eqb_neq, Z.ltb_ge. split; [by intros Hd _ d' [= <-]|]. intros Hd. by apply Hd.
Qed.

Lemma backendOk_parsed encapType be ip :
  ParseAddr (be_Address be) = Some ip →
  backendOk encapType be ↔
  validateBackendAddressFamily 0 (be_Address be) ip encapType = None ∧
  ¬ (be_MonitorAddress be ≠ "" ∧ ParseAddr (be_MonitorAddress be) = None) ∧
  (1 ≤ be_Weight be ≤ 100)%Z.
Proof.
  intros Hip. rewrite validateBackendAddressFamily_spec. split.
  - intros [_ H4 H6 Hm Hw]. rewrite Hip in *. split_and!; try lia.
    + intros Hin. destruct (H4 Hin) as [b Hb]. naive_solver.
    + intros Hin. destruct (H6 Hin) as (b & z & Hb). naive_solver.
    + intros [Hne Hn]. destruct (Hm Hne) as [? Hs]. congruence.
  - intros ([H4 H6] & Hm & Hw). split; rewrite ?Hip; eauto.
    + intros Hin. destruct (H4 Hin) as [b ->]. eauto.
    + intros Hin. destruct (H6 Hin) as (b & z & ->). eauto.
    + intros Hne. destruct (ParseAddr (be_MonitorAddress be)); [eauto|]. by destruct Hm.
Qed.

Lemma validateBackends_spec i seen encapType bes :
  validateBackends i seen encapType bes = None ↔
  Forall (backendOk encapType) bes ∧ NoDup (be_Address <$> bes) ∧
  (∀ be, be ∈ bes → be_Address be ∉ seen).
Proof.
  revert i seen. induction bes as [|be bes IH]; intros i seen; simpl.
  { split; [|done]. intros _. split_and!; [constructor|constructor|]. intros be Hbe. by apply not_elem_of_nil in Hbe. }
  rewrite Forall_cons, NoDup_cons.
  destruct (ParseAddr (be_Address be)) as [ip|] eqn:Hip.
  2:{ split; [done|]. intros ([[[? Hs]] _] & _). congruence. }
  rewrite (backendOk_parsed _ _ _ Hip).
  destruct (validateBackendAddressFamily i _ _ _) eqn:Hfam.
  { split; [done|]. intros (((Hf & _) & _) & _). rewrite validateBackendAddressFamily_spec in Hf.
    apply (validateBackendAddressFamily_spec i (be_Address be)) in Hf. congruence. }
  apply validateBackendAddressFamily_spec in Hfam.
  case_bool_decide as Hm; [naive_solver|].
  case_bool_decide as Hs; [split; [done|]; intros (_ & _ & Hn); exfalso; eapply Hn; [|done]; set_solver|].
  destruct (_ || _)%Z eqn:Hw; [naive_solver lia|].
  rewrite IH, validateBackendAddressFamily_spec. apply orb_false_iff in Hw as [Hw1 Hw2].
  split.
  - intros (Hf & Hnd & Hseen). split_and!; try done; try lia; [naive_solver..| |].
    + intros (be' & Heq & Hbe')%list_elem_of_fmap. apply (Hseen _ Hbe'). set_solver.
    + intros be' [->|Hbe']%elem_of_cons; [done|]. specialize (Hseen _ Hbe'). set_solver.
  - intros ((_ & Hf) & (Hni & Hnd) & Hseen). split_and!; try done. intros be' Hbe'.
    apply not_elem_of_union. split; [|apply Hseen; set_solver].
    rewrite not_elem_of_singleton. intros Heq. apply Hni, list_elem_of_fmap. eauto.
Qed.

(** The checks in order against the declared constraints. *)
Lemma ValidateDataPlane_spec vip :
  ValidateDataPlane (Some vip) = None ↔ dataPlaneOk (vip_Spec vip).
Proof.
  unfold ValidateDataPlane, validateCoreSpec, validateDataPlaneSpec.
  destruct (ParseAddr (spec_Address (vip_Spec vip))) as [ip|] eqn:Hip.
  2:{ split; [done|]. intros [[? Hs]]. congruence. }
  rewrite fail_if, fail_unless, fail_if, (fail_first _ id), fail_if, out_of_range,
    (validateEncapAddressFamily_spec _ _ _ Hip), validateBackends_spec, validEncap_spec, dscp_spec,
    orb_true_iff, !bool_decide_eq_true.
  split.
  - intros (Hp & Hpr & He & (H4 & H6) & Hd & Hb & Hn & _).
    split; rewrite ?Hip; eauto.
    + intros Hin. destruct (H4 Hin) as [b ->]. eauto.
    + intros Hin. destruct (H6 Hin) as (b & z & ->). eauto.
  - intros [Ha Hp Hpr He H4 H6 Hd Hb Hn]. rewrite Hip in *.
    refine (conj Hp (conj Hpr (conj He (conj (conj _ _) (conj Hd (conj Hb (conj Hn _))))))).
    + intros Hin. destruct (H4 Hin) as [b Hb']. naive_solver.
    + intros Hin. destruct (H6 Hin) as (b & z & Hb'). naive_solver.
    + set_solver.
Qed.

(** C26. [ValidateDataPlane] accepts exactly the specs that satisfy the
    declared constraints: a parseable address of the family its encapsulation
    needs, a port and a protocol in range, a DSCP in range for L3DSR, and
    backends that parse, are of the family the encapsulation needs, have a
    weight in 1-100 and are pairwise different strings. *)
Theorem ValidateDataPlane_exact vip :
  ValidateDataPlane (Some vip) = None ↔ dataPlaneOk (vip_Spec vip).
Proof. apply ValidateDataPlane_spec. Qed.

(** Addresses without a zone are the ones the driver's [net.ParseIP] takes. *)
Definition noZone (address : string) : Prop :=
  ∀ b z, ParseAddr address = Some (Addr6 b z) → z = [].

Lemma parsed_for_driver address :
  is_Some (ParseAddr address) → noZone address → ∃ ip, ParseIP address = Some ip.
Proof.
  intros [a Ha] Hz. unfold ParseIP. rewrite Ha. destruct a as [b|b z]; [eauto|].
  rewrite (Hz _ _ Ha). eauto.
Qed.

Lemma parsed_v4_for_driver address b :
  ParseAddr address = Some (Addr4 b) → Vpp.parseIPAddress address = inr (Vpp.IP4 b).
Proof. intros Ha. unfold Vpp.parseIPAddress, ParseIP. rewrite Ha. unfold To4. by rewrite decide_True. Qed.

(** What the agent validated the driver can program, as long as no address
    carries a zone: the VIP gets its identity in VPP with the very port of the
    spec (no wrap-around to 16 bits), its encapsulation is one of VPP's,
    every backend address converts, and under an encapsulation that needs IPv4
    backends every one of them converts to an IPv4 address. *)
Theorem validated_programmable vip :
  ValidateDataPlane (Some vip) = None →
  noZone (spec_Address (vip_Spec vip)) →
  (∀ be, be ∈ spec_Backends (vip_Spec vip) → noZone (be_Address be)) →
  (∃ id, Vpp.vipIdent vip = inr id ∧ Vpp.lbv_Port id = spec_Port (vip_Spec vip)) ∧
  (spec_EncapType (vip_Spec vip) ≠ "" → ∃ t, Vpp.encapToAPI (spec_EncapType (vip_Spec vip)) = inr t) ∧
  (∀ be, be ∈ spec_Backends (vip_Spec vip) →
     ∃ a, Vpp.parseIPAddress (be_Address be) = inr a ∧
          (EncapRequiresIPv4Backend (spec_EncapType (vip_Spec vip)) = true → ∃ b, a = Vpp.IP4 b)).
Proof.
  intros [Ha Hp Hpr He _ _ _ Hb _]%ValidateDataPlane_spec Hz Hzb. split_and!.
  - destruct (parsed_for_driver _ Ha Hz) as [ip Hip].
    unfold Vpp.vipIdent, Vpp.parseIPPrefix. rewrite Hip.
    assert (∃ n, Vpp.protocolNumber (spec_Protocol (vip_Spec vip)) = inr n) as [n ->].
    { unfold Vpp.protocolNumber. destruct Hpr as [-> | ->]; by eexists. }
    destruct (To4 ip); (eexists; split; [done|]); simpl; apply wrapU_small; lia.
  - intros Hne. apply elem_of_cons in He as [|He]; [done|].
    repeat (apply elem_of_cons in He as [->|He]; [by eexists|]). by apply not_elem_of_nil in He.
  - intros be Hbe. rewrite Forall_forall in Hb. specialize (Hb _ Hbe). destruct Hb as [Hba H4 _ _ _].
    destruct (decide (spec_EncapType (vip_Spec vip) ∈ [EncapTypeGRE4; EncapTypeL3DSR; EncapTypeNAT4]))
      as [Hin|Hin].
    + destruct (H4 Hin) as [b Hbb]. exists (Vpp.IP4 b). split; [by apply parsed_v4_for_driver|eauto].
    + destruct (parsed_for_driver _ Hba (Hzb _ Hbe)) as [ip Hip].
      unfold Vpp.parseIPAddress. rewrite Hip.
      destruct (To4 ip); (eexists; split; [done|]); by intros ?%bool_decide_eq_true.
Qed.

(** ** Health-check specs *)
Section HealthCheckSpecs.
Context {E : Type} `{HttpGuts} `{MapOrder E}.

Record httpOk (h : HTTPHealthCheck) : Prop := {
  ho_port : (1 ≤ http_Port h ≤ 65535)%Z;
  ho_method : http_Method h ∈ [""; "GET"; "HEAD"; "POST"];
  ho_path : validateHTTPPath (http_Path h) = None;
  ho_host : http_Host h ≠ "" → ValidHostHeader (http_Host h) = true;
  ho_headers : ∀ k v, http_Headers h !! k = Some v →
    ValidHeaderFieldName k = true ∧ ValidHeaderFieldValue v = true;
  ho_codes : Forall (λ c, 100 ≤ c ≤ 599)%Z (http_ExpectedCodes h);
}.

(** What a probe of the given type needs. *)
Definition probeOk (hc : HealthCheckSpec) : Prop :=
  (hc_Type hc ∈ [HCTypeHTTP; HCTypeHTTPS] ∧ ∃ h, hc_HTTP hc = Some h ∧ httpOk h) ∨
  (hc_Type hc ∈ [HCTypeTCP; HCTypeTLSHello] ∧ ∃ t, hc_TCP hc = Some t ∧ (1 ≤ tcp_Port t ≤ 65535)%Z) ∨
  hc_Type hc = HCTypePing.

Record runtimeOk (hc : HealthCheckSpec) : Prop := {
  ro_probe : probeOk hc;
  ro_timeout : (1 ≤ hc_TimeoutSeconds hc < hc_IntervalSeconds hc)%Z;
  ro_interval : (hc_IntervalSeconds hc ≤ MaxHealthCheckSeconds)%Z;
  ro_rise : (1 ≤ hc_RiseCount hc ≤ MaxHealthCheckCount)%Z;
  ro_fall : (1 ≤ hc_FallCount hc ≤ MaxHealthCheckCount)%Z;
}.

Lemma firstHeaderError_spec hs :
  firstHeaderError hs = None ↔
  ∀ k v, (k, v) ∈ hs → ValidHeaderFieldName k = true ∧ ValidHeaderFieldValue v = true.
Proof.
  induction hs as [|[k v] hs IH]; simpl.
  { split; [|done]. intros _ k v Hin. by apply not_elem_of_nil in Hin. }
  rewrite (fail_first _ id), IH. unfold validateHTTPHeader.
  rewrite !fail_if, !negb_false_iff. setoid_rewrite elem_of_cons. naive_solver.
Qed.

Lemma ValidateHTTPHeaders_spec e hs :
  ValidateHTTPHeaders e hs = None ↔
  ∀ k v, hs !! k = Some v → ValidHeaderFieldName k = true ∧ ValidHeaderFieldValue v = true.
Proof.
  unfold ValidateHTTPHeaders. rewrite firstHeaderError_spec. by setoid_rewrite mapRange_lookup.
Qed.

Lemma validateExpectedCodes_spec i codes :
  validateExpectedCodes i codes = None ↔ Forall (λ c, 100 ≤ c ≤ 599)%Z codes.
Proof.
  revert i. induction codes as [|c codes IH]; intros i; simpl; [done|].
  by rewrite fail_if, out_of_range, IH, Forall_cons.
Qed.

Lemma validateHTTP_spec e type http :
  validateHTTP e type http = None ↔ ∃ h, http = Some h ∧ httpOk h.
Proof.
  destruct http as [h|]; simpl; [|naive_solver].
  rewrite !fail_if, (fail_first _ id), (fail_first _ (λ e, Errorf "spec.healthCheck.http.host %w" [AErr e])),
    (fail_first _ (λ e, Errorf "spec.healthCheck.http.headers: %w" [AErr e])), out_of_range,
    negb_false_iff, bool_decide_eq_true, ValidateHTTPHeaders_spec, validateExpectedCodes_spec.
  assert (ValidateHTTPHostHeader (http_Host h) = None ↔
          (http_Host h ≠ "" → ValidHostHeader (http_Host h) = true)) as ->.
  { unfold ValidateHTTPHostHeader. case_bool_decide; [by split|]. rewrite fail_unless. naive_solver. }
  split; [intros (?&?&?&?&?&?); eexists; by split|]. intros (? & [= <-] & [? ? ? ? ? ?]). auto 10.
Qed.

Lemma validateProbe_spec e hc : validateProbe e hc = None ↔ probeOk hc.
Proof.
  unfold validateProbe, probeOk. rewrite <- (validateHTTP_spec e (hc_Type hc)).
  assert (validateTCP (hc_Type hc) (hc_TCP hc) = None ↔
          ∃ t, hc_TCP hc = Some t ∧ (1 ≤ tcp_Port t ≤ 65535)%Z) as <-.
  { unfold validateTCP. destruct (hc_TCP hc); [|naive_solver]. rewrite fail_if, out_of_range. naive_solver. }
  rewrite !elem_of_cons, !elem_of_nil.
  generalize (validateHTTP e (hc_Type hc) (hc_HTTP hc)) (validateTCP (hc_Type hc) (hc_TCP hc)).
  intros o1 o2. split.
  - repeat case_bool_decide; simpl; try done; intros; auto 10.
  - by intros [([-> |[-> |[]]] & ?)|[([-> |[-> |[]]] & ?)| ->]].
Qed.

Lemma validateTiming_spec hc :
  validateTiming hc = None ↔
  (1 ≤ hc_TimeoutSeconds hc < hc_IntervalSeconds hc)%Z ∧
  (hc_IntervalSeconds hc ≤ MaxHealthCheckSeconds)%Z ∧
  (hc_RiseCount hc ≤ MaxHealthCheckCount)%Z ∧ (hc_FallCount hc ≤ MaxHealthCheckCount)%Z.
Proof. unfold validateTiming. rewrite !fail_if, !Z.ltb_ge, Z.leb_gt. split; intros; repeat split; try done; lia. Qed.

Lemma ValidateHealthCheckRuntimeSpec_spec e hc :
  ValidateHealthCheckRuntimeSpec e (Some hc) = None ↔ runtimeOk hc.
Proof.
  unfold ValidateHealthCheckRuntimeSpec, validateHealthCheckSpec.
  rewrite !(fail_first _ id), !fail_if, validateProbe_spec, validateTiming_spec, !Z.ltb_ge.
  split; [intros ((Hp & ? & ? & ? & ?) & ? & ? & _); split; [exact Hp|lia..]|].
  intros [Hp ? ? ? ?]. refine (conj (conj Hp _) (conj _ (conj _ eq_refl))); lia.
Qed.

(** [ValidateHealthCheckRuntimeSpec] accepts exactly the health checks the
    scheduler can run: the settings the probe type needs are there and in
    range whatever the order the headers are visited in, the timeout is
    shorter than the interval, the thresholds are at least one; and then the
    conversion of its seconds to nanoseconds does not overflow 64 bits. *)
Theorem ValidateHealthCheckRuntimeSpec_exact e hc :
  (ValidateHealthCheckRuntimeSpec e (Some hc) = None ↔ runtimeOk hc) ∧
  (ValidateHealthCheckRuntimeSpec e (Some hc) = None →
   (0 < wrapS 64 (hc_TimeoutSeconds hc * Second) < wrapS 64 (hc_IntervalSeconds hc * Second))%Z).
Proof.
  rewrite ValidateHealthCheckRuntimeSpec_spec. split; [done|]. intros [_ Ht Hi _ _].
  unfold MaxHealthCheckSeconds in Hi. unfold Second. rewrite !wrapS_small by lia. lia.
Qed.

End HealthCheckSpecs.

End Validation.

(** ** Examples *)
Module ValidationExamples.
Import Validation.

#[local] Instance lenientHttpGuts : HttpGuts :=
  {| ValidHostHeader := λ _, true; ValidHeaderFieldName := λ n, bool_decide (n ≠ "");
     ValidHeaderFieldValue := λ _, true |}.
#[local] Instance listMapOrder : MapOrder unit.
Proof. refine {| mapRange := λ V _ m, map_to_list m |}. done. Defined.

Definition mkVIP (address encapType : string) (backends : list string) : VirtualIP :=
  {| vip_Namespace := "ns"; vip_Name := "web"; vip_UID := "u"; vip_Generation := 1;
     vip_DeletionTimestamp := None;
     vip_Spec := {| spec_Address := address; spec_Port := 443; spec_Protocol := ProtocolTCP;
                    spec_EncapType := encapType; spec_DSCP := None;
                    spec_Backends := (λ a, {| be_Address := a; be_MonitorAddress := ""; be_Weight := 1 |}) <$> backends;
                    spec_HealthCheck := None |};
     vip_Status := empty_status |}.

Lemma noZone_v4 s b : ParseAddr s = Some (Addr4 b) → noZone s.
Proof. intros Hs b' z Hz. congruence. Qed.

Lemma validated_programmable_witness :
  ∃ id, Vpp.vipIdent (mkVIP "203.0.113.10" EncapTypeL3DSR ["10.0.1.1"; "10.0.1.2"]) = inr id ∧
        Vpp.lbv_Port id = 443%Z.
Proof.
  apply (validated_programmable (mkVIP "203.0.113.10" EncapTypeL3DSR ["10.0.1.1"; "10.0.1.2"])).
  - by vm_compute.
  - by eapply noZone_v4; vm_compute.
  - intros be Hbe. apply elem_of_cons in Hbe as [->|Hbe]; [by eapply noZone_v4; vm_compute|].
    apply elem_of_cons in Hbe as [->|Hbe]; [by eapply noZone_v4; vm_compute|].
    by apply not_elem_of_nil in Hbe.
Defined.

Definition httpCheck : HealthCheckSpec :=
  {| hc_Type := HCTypeHTTP; hc_IntervalSeconds := 5; hc_TimeoutSeconds := 3; hc_RiseCount := 2;
     hc_FallCount := 3;
     hc_HTTP := Some {| http_Port := 8080; http_Path := "/health?ready=1"; http_Method := "GET";
                        http_Host := "example.com"; http_Headers := {["X-Probe" := "1"]};
                        http_ExpectedCodes := [200; 204]%Z; http_SkipTLSVerify := false |};
     hc_TCP := None |}.

Lemma ValidateHealthCheckRuntimeSpec_exact_witness :
  (0 < wrapS 64 (hc_TimeoutSeconds httpCheck * Second) <
   wrapS 64 (hc_IntervalSeconds httpCheck * Second))%Z.
Proof. apply (ValidateHealthCheckRuntimeSpec_exact tt httpCheck). by vm_compute. Defined.

Example path_encoded_ok : validateHTTPPath "/a%20b?x=%zz#top" = None.
Proof. reflexivity. Qed.
Example path_bad_escape : validateHTTPPath "/a%2" ≠ None.
Proof. done. Qed.
Example path_double_slash : validateHTTPPath "//host/a" ≠ None.
Proof. done. Qed.

(** Validation reads addresses with [netip.ParseAddr], the driver with
    [net.ParseIP]: a link-local address with a zone is accepted but cannot be
    programmed, an IPv4-mapped address is accepted as the IPv6 address NAT6
    needs but is programmed as an IPv4 prefix, and two spellings of one
    address are accepted as two backends but are one in VPP. *)
Theorem validation_driver_mismatch :
  (let vip := mkVIP "fe80::1%eth0" EncapTypeNAT6 ["2001:db8::1"] in
   ValidateDataPlane (Some vip) = None ∧ ∃ e, Vpp.vipIdent vip = inl e) ∧
  (let vip := mkVIP "::ffff:10.0.0.1" EncapTypeNAT6 ["2001:db8::1"] in
   ValidateDataPlane (Some vip) = None ∧
   ∃ id, Vpp.vipIdent vip = inr id ∧
         Vpp.lbv_Pfx id = {| Vpp.pfx_Address := Vpp.IP4 [10; 0; 0; 1]%Z; Vpp.pfx_Len := 32 |}) ∧
  (let vip := mkVIP "2001:db8::10" EncapTypeNAT6 ["2001:db8::1"; "2001:DB8:0::1"] in
   ValidateDataPlane (Some vip) = None ∧
   Vpp.parseIPAddress "2001:db8::1" = Vpp.parseIPAddress "2001:DB8:0::1").
Proof.
  split; [split; [by vm_compute|eexists; reflexivity]|].
  split; [split; [by vm_compute|eexists; by split]|]. by split; vm_compute.
Qed.

End ValidationExamples.
