(* ===== verification/Health.v ===== *)
(** * The health check engine (internal/agent/healthcheck, v2)

    [Engine] tracks the backends of every VIP with rise/fall hysteresis,
    probes them through a job and a result queue, and persists every result.
    Operations are state passing over the engine and the store's environment;
    schedulers, workers and the result loop are the steps of [estep].  A
    prober is the value [newProberFromSpec] builds; what it finds on the
    network is the outcome a step chooses. *)

From stdpp Require Import base tactics list gmap strings pretty.
From S2P Require Import Prelude Types Net Store Validation.

Module Health.
Import Validation.

(** ** Data *)
Definition V2StateUnknown : string := "unknown".
Definition V2StateUp : string := "up".
Definition V2StateDown : string := "down".

Record EngineConfig := { WorkerCount : Z; MaxConcurrentChecks : Z; DefaultTimeout : Z }.

(** The probers, with the settings they keep; [hp_skipVerify] is the TLS
    configuration of an HTTPS one. *)
Record httpProber := {
  hp_port : Z; hp_path : string; hp_method : string; hp_host : string;
  hp_headers : gmap string string; hp_expectedCodes : gset Z; hp_useTLS : bool; hp_skipVerify : bool;
}.
Inductive V2Prober :=
  | HTTPProber (p : httpProber)
  | TCPProber (port : Z) (send expectedResponse : string)
  | PingProber
  | TLSHelloProber (port : Z).

Record backendHealthState := {
  bh_address : string;
  bh_targetAddress : string;
  bh_state : string;
  bh_consecutiveUp : Z;
  bh_consecutiveDown : Z;
  bh_lastProbeTime : option Z;
  bh_lastStateChange : option Z;
}.

Record vipHealthState := {
  vh_vipKey : string;
  vh_epoch : Z;
  vh_spec : HealthCheckSpec;
  vh_backends : gmap string backendHealthState;
  vh_prober : V2Prober;
}.

(** The engine; [eng_hasStore] and [eng_hasCallback] say whether the store
    and the callback are set. *)
Record Engine := {
  eng_config : EngineConfig;
  eng_hasStore : bool;
  eng_hasCallback : bool;
  eng_started : bool;
  eng_vips : gmap string vipHealthState;
  eng_nextEpoch : Z;
}.

Record probeJob := {
  pj_vipKey : string; pj_epoch : Z; pj_backendAddr : string; pj_targetAddr : string;
  pj_prober : V2Prober; pj_timeout : Z;
}.
Record probeResult := {
  pr_vipKey : string; pr_epoch : Z; pr_backendAddr : string; pr_success : bool; pr_timestamp : Z;
}.

(** A call of the state change callback. *)
Record stateChange := {
  sc_vipKey : string; sc_backendAddr : string; sc_oldState : string; sc_newState : string;
}.

(** ** Probers *)
Definition statusOK : gset Z := list_to_set (seqZ 200 100).

Definition newHTTPProberFromSpec (cfg : option HTTPHealthCheck) (useTLS : bool) : ferr + httpProber :=
  match cfg with
  | None => inl (Errorf "HTTP health check config is required" [])
  | Some cfg =>
      inr {| hp_port := http_Port cfg;
             hp_path := if bool_decide (http_Path cfg = "") then "/" else http_Path cfg;
             hp_method := if bool_decide (http_Method cfg = "") then "GET" else http_Method cfg;
             hp_host := http_Host cfg;
             hp_headers := http_Headers cfg;
             hp_expectedCodes := match http_ExpectedCodes cfg with
                                 | [] => statusOK
                                 | codes => list_to_set codes
                                 end;
             hp_useTLS := useTLS;
             hp_skipVerify := useTLS && http_SkipTLSVerify cfg |}
  end.

Definition newTCPProberFromSpec (cfg : option TCPHealthCheck) : ferr + V2Prober :=
  match cfg with
  | None => inl (Errorf "TCP health check config is required" [])
  | Some cfg => inr (TCPProber (tcp_Port cfg) (tcp_Send cfg) (tcp_ExpectedResponse cfg))
  end.

Definition newTLSHelloProberFromSpec (cfg : option TCPHealthCheck) : ferr + V2Prober :=
  match cfg with
  | None => inl (Errorf "TCP health check config is required for TLS hello" [])
  | Some cfg => inr (TLSHelloProber (tcp_Port cfg))
  end.

Definition newProberFromSpec (spec : HealthCheckSpec) : ferr + V2Prober :=
  let http useTLS := match newHTTPProberFromSpec (hc_HTTP spec) useTLS with
                     | inl e => inl e | inr p => inr (HTTPProber p) end in
  if bool_decide (hc_Type spec = HCTypeHTTP) then http false
  else if bool_decide (hc_Type spec = HCTypeHTTPS) then http true
  else if bool_decide (hc_Type spec = HCTypeTCP) then newTCPProberFromSpec (hc_TCP spec)
  else if bool_decide (hc_Type spec = HCTypePing) then inr PingProber
  else if bool_decide (hc_Type spec = HCTypeTLSHello) then newTLSHelloProberFromSpec (hc_TCP spec)
  else inl (Errorf "unsupported health check type: %s" [AStr (hc_Type spec)]).

Definition validateProbeTarget (target : string) : option ferr :=
  match ParseIP target with
  | None => Some (Errorf "invalid health check target address: %q" [AStr target])
  | Some _ => None
  end.

(** [pingTimeoutSeconds]: [remaining] is the time until the deadline, if the
    context has one; Go's division truncates. *)
Definition pingTimeoutSeconds (remaining : option Z) (fallback : Z) : Z :=
  let timeout := default fallback remaining in
  if (timeout <=? 0)%Z then 1%Z
  else
    let seconds := Z.quot timeout Second in
    let seconds := if (Z.rem timeout Second =? 0)%Z then seconds else (seconds + 1)%Z in
    if (seconds <? 1)%Z then 1%Z else seconds.

(** ** Operations *)
Definition KeyForVIP (vip : VirtualIP) : string :=
  if bool_decide (vip_Namespace vip = "") then vip_Name vip
  else vip_Namespace vip +:+ "/" +:+ vip_Name vip.

Definition NewEngine (cfg : EngineConfig) (hasStore hasCallback : bool) : Engine :=
  {| eng_config :=
       {| WorkerCount := if (WorkerCount cfg =? 0)%Z then 4 else WorkerCount cfg;
          MaxConcurrentChecks := if (MaxConcurrentChecks cfg =? 0)%Z then 64 else MaxConcurrentChecks cfg;
          DefaultTimeout := if (DefaultTimeout cfg =? 0)%Z then 3 * Second else DefaultTimeout cfg |};
     eng_hasStore := hasStore; eng_hasCallback := hasCallback; eng_started := false;
     eng_vips := ∅; eng_nextEpoch := 0 |}.

Definition setVips (eng : Engine) (vs : gmap string vipHealthState) : Engine :=
  {| eng_config := eng_config eng; eng_hasStore := eng_hasStore eng;
     eng_hasCallback := eng_hasCallback eng; eng_started := eng_started eng; eng_vips := vs;
     eng_nextEpoch := eng_nextEpoch eng |}.
Definition setStarted (eng : Engine) (started : bool) (vs : gmap string vipHealthState) : Engine :=
  {| eng_config := eng_config eng; eng_hasStore := eng_hasStore eng;
     eng_hasCallback := eng_hasCallback eng; eng_started := started; eng_vips := vs;
     eng_nextEpoch := eng_nextEpoch eng |}.
Definition setEpoch (eng : Engine) (epoch : Z) : Engine :=
  {| eng_config := eng_config eng; eng_hasStore := eng_hasStore eng;
     eng_hasCallback := eng_hasCallback eng; eng_started := eng_started eng;
     eng_vips := eng_vips eng; eng_nextEpoch := epoch |}.

Definition SetCallback (hasCallback : bool) (eng : Engine) : Engine :=
  {| eng_config := eng_config eng; eng_hasStore := eng_hasStore eng; eng_hasCallback := hasCallback;
     eng_started := eng_started eng; eng_vips := eng_vips eng; eng_nextEpoch := eng_nextEpoch eng |}.

Definition probeTargetAddress (be : BackendSpec) : string :=
  if bool_decide (be_MonitorAddress be ≠ "") then be_MonitorAddress be else be_Address be.

Section Operations.
Context {B : Type} `{!Store.Bolt B} `{!Codec Store.BackendHealthRecord} `{!HttpGuts} `{!MapOrder B}.

(** Starting the workers and the result loop makes steps possible; restoring
    the state only reads and logs it. *)
Definition Start : ST (Engine * B) (option ferr) :=
  '(eng, b) ← get;
  if eng_started eng then mret (Some (Errorf "health check engine already started" []))
  else
    _ ← (if eng_hasStore eng then on_snd Store.LoadAllHealthStates else mret (∅, None));
    modify (λ '(eng, b), (setStarted eng true (eng_vips eng), b));; mret None.

Definition Stop : ST (Engine * B) unit :=
  modify (λ '(eng, b), (if eng_started eng then setStarted eng false ∅ else eng, b)).

Definition fresh (be : BackendSpec) (now : Z) : backendHealthState :=
  {| bh_address := be_Address be; bh_targetAddress := probeTargetAddress be;
     bh_state := V2StateUnknown; bh_consecutiveUp := 0; bh_consecutiveDown := 0;
     bh_lastProbeTime := None; bh_lastStateChange := Some now |}.
Definition retarget (be : BackendSpec) (current : backendHealthState) : backendHealthState :=
  {| bh_address := be_Address be; bh_targetAddress := probeTargetAddress be;
     bh_state := bh_state current; bh_consecutiveUp := bh_consecutiveUp current;
     bh_consecutiveDown := bh_consecutiveDown current; bh_lastProbeTime := bh_lastProbeTime current;
     bh_lastStateChange := bh_lastStateChange current |}.
Definition restored (be : BackendSpec) (rec : Store.BackendHealthRecord) : backendHealthState :=
  {| bh_address := be_Address be; bh_targetAddress := probeTargetAddress be;
     bh_state := Store.rec_State rec; bh_consecutiveUp := Store.rec_ConsecutiveUp rec;
     bh_consecutiveDown := Store.rec_ConsecutiveDown rec; bh_lastProbeTime := Store.rec_LastProbeTime rec;
     bh_lastStateChange := Store.rec_LastStateChange rec |}.

(** The state a backend starts with: what the VIP already knows of it, else
    what the store has, else unknown. *)
Definition initBackend (hasStore : bool) (vipKey : string) (existing : option vipHealthState) (now : Z)
    (be : BackendSpec) : ST B backendHealthState :=
  match existing ≫= λ vs, vh_backends vs !! be_Address be with
  | Some current => mret (retarget be current)
  | None =>
      if hasStore then
        r ← Store.LoadHealthState vipKey (be_Address be);
        match r with
        | (Some rec, None) => mret (restored be rec)
        | _ => mret (fresh be now)
        end
      else mret (fresh be now)
  end.

(** The loop over the backends; [clock i] is the time it reads at the [i]-th. *)
Fixpoint initBackends (hasStore : bool) (vipKey : string) (existing : option vipHealthState)
    (clock : nat → Z) (i : nat) (bes : list BackendSpec) (acc : gmap string backendHealthState)
    : ST B (gmap string backendHealthState) :=
  match bes with
  | [] => mret acc
  | be :: bes' =>
      bhs ← initBackend hasStore vipKey existing (clock i) be;
      initBackends hasStore vipKey existing clock (S i) bes' (<[be_Address be := bhs]> acc)
  end.

Definition startVIPLocked (clock : nat → Z) (vipKey : string) (vip : VirtualIP) (spec : HealthCheckSpec)
    : ST (Engine * B) (option ferr) :=
  '(eng, b) ← get;
  match ValidateHealthCheckRuntimeSpec b (Some spec) with
  | Some e => mret (Some (Errorf "invalid health check spec for VIP %s: %w" [AStr vipKey; AErr e]))
  | None =>
      match newProberFromSpec spec with
      | inl e => mret (Some (Errorf "failed to create prober for VIP %s: %w" [AStr vipKey; AErr e]))
      | inr prober =>
          let existing := eng_vips eng !! vipKey in
          let epoch := wrapU 64 (eng_nextEpoch eng + 1) in
          modify (λ '(eng, b), (setEpoch eng epoch, b));;
          backends ← on_snd (initBackends (eng_hasStore eng) vipKey existing clock 0
                               (spec_Backends (vip_Spec vip)) ∅);
          let vs := {| vh_vipKey := vipKey; vh_epoch := epoch; vh_spec := spec;
                       vh_backends := backends; vh_prober := prober |} in
          modify (λ '(eng, b), (setVips eng (<[vipKey := vs]> (eng_vips eng)), b));; mret None
      end
  end.

(** [StartVIP] and [UpdateVIP] have the same body. *)
Definition UpdateVIP (clock : nat → Z) (vip : VirtualIP) : ST (Engine * B) (option ferr) :=
  match spec_HealthCheck (vip_Spec vip) with
  | None => mret None
  | Some spec =>
      '(eng, b) ← get;
      if eng_started eng then startVIPLocked clock (KeyForVIP vip) vip spec
      else mret (Some (Errorf "health check engine is not started" []))
  end.
Definition StartVIP : (nat → Z) → VirtualIP → ST (Engine * B) (option ferr) := UpdateVIP.

Definition StopVIP (vipKey : string) : ST (Engine * B) unit :=
  modify (λ '(eng, b),
    (match eng_vips eng !! vipKey with
     | None => eng
     | Some _ => setVips eng (delete vipKey (eng_vips eng))
     end, b)).

Definition IsHealthy (vipKey backendAddr : string) (eng : Engine) : bool :=
  match eng_vips eng !! vipKey with
  | None => false
  | Some vs =>
      match vh_backends vs !! backendAddr with
      | None => false
      | Some bhs => bool_decide (bh_state bhs = V2StateUp)
      end
  end.

Fixpoint healthyOf (tracked : gmap string backendHealthState) (backends : list BackendSpec)
    : list BackendSpec :=
  match backends with
  | [] => []
  | be :: backends' =>
      match tracked !! be_Address be with
      | Some bhs =>
          if bool_decide (bh_state bhs = V2StateUp) then be :: healthyOf tracked backends'
          else healthyOf tracked backends'
      | None => healthyOf tracked backends'
      end
  end.
Definition HealthyBackends (vipKey : string) (backends : list BackendSpec) (eng : Engine)
    : list BackendSpec :=
  match eng_vips eng !! vipKey with
  | None => []
  | Some vs => healthyOf (vh_backends vs) backends
  end.

Definition GetBackendStates (vipKey : string) (eng : Engine) : option (gmap string string) :=
  vs ← eng_vips eng !! vipKey; Some (bh_state <$> vh_backends vs).

Definition probeJobs (b : B) (vs : vipHealthState) : list probeJob :=
  (λ '(addr, bhs),
     {| pj_vipKey := vh_vipKey vs; pj_epoch := vh_epoch vs; pj_backendAddr := addr;
        pj_targetAddr := if bool_decide (bh_targetAddress bhs = "") then addr else bh_targetAddress bhs;
        pj_prober := vh_prober vs;
        pj_timeout := wrapS 64 (hc_TimeoutSeconds (vh_spec vs) * Second) |}) <$>
  mapRange b (vh_backends vs).

(** The counters and the state after one probe. *)
Definition observe (spec : HealthCheckSpec) (success : bool) (timestamp : Z) (bhs : backendHealthState)
    : backendHealthState :=
  let up := if success then wrapS 64 (bh_consecutiveUp bhs + 1) else 0%Z in
  let down := if success then 0%Z else wrapS 64 (bh_consecutiveDown bhs + 1) in
  let newState :=
    if success then
      if bool_decide (bh_state bhs ≠ V2StateUp) && (hc_RiseCount spec <=? up)%Z then Some V2StateUp else None
    else
      if bool_decide (bh_state bhs ≠ V2StateDown) && (hc_FallCount spec <=? down)%Z then Some V2StateDown
      else None in
  {| bh_address := bh_address bhs; bh_targetAddress := bh_targetAddress bhs;
     bh_state := default (bh_state bhs) newState;
     bh_consecutiveUp := up; bh_consecutiveDown := down; bh_lastProbeTime := Some timestamp;
     bh_lastStateChange := match newState with Some _ => Some timestamp | None => bh_lastStateChange bhs end |}.

Definition recordOf (bhs : backendHealthState) : Store.BackendHealthRecord :=
  {| Store.rec_State := bh_state bhs; Store.rec_ConsecutiveUp := bh_consecutiveUp bhs;
     Store.rec_ConsecutiveDown := bh_consecutiveDown bhs;
     Store.rec_LastProbeTime := bh_lastProbeTime bhs;
     Store.rec_LastStateChange := bh_lastStateChange bhs |}.

(** The calls of the callback are the result. *)
Definition handleResult (result : probeResult) : ST (Engine * B) (list stateChange) :=
  '(eng, b) ← get;
  match eng_vips eng !! pr_vipKey result with
  | None => mret []
  | Some vs =>
      if negb (vh_epoch vs =? pr_epoch result)%Z then mret []
      else
        match vh_backends vs !! pr_backendAddr result with
        | None => mret []
        | Some bhs =>
            let bhs' := observe (vh_spec vs) (pr_success result) (pr_timestamp result) bhs in
            let vs' := {| vh_vipKey := vh_vipKey vs; vh_epoch := vh_epoch vs; vh_spec := vh_spec vs;
                          vh_backends := <[pr_backendAddr result := bhs']> (vh_backends vs);
                          vh_prober := vh_prober vs |} in
            modify (λ '(eng, b), (setVips eng (<[pr_vipKey result := vs']> (eng_vips eng)), b));;
            _ ← (if eng_hasStore eng
                 then on_snd (Store.SaveHealthState (pr_vipKey result) (pr_backendAddr result) (recordOf bhs'))
                 else mret None);
            mret (if bool_decide (bh_state bhs ≠ bh_state bhs') && eng_hasCallback eng
                  then [{| sc_vipKey := pr_vipKey result; sc_backendAddr := pr_backendAddr result;
                           sc_oldState := bh_state bhs; sc_newState := bh_state bhs' |}]
                  else [])
        end
  end.

End Operations.

(** ** Effect of one result *)
Section Results.
Context {B : Type} `{!Store.Bolt B} `{!Codec Store.BackendHealthRecord}.

Definition lookupBackend (k a : string) (eng : Engine) : option backendHealthState :=
  vs ← eng_vips eng !! k; vh_backends vs !! a.

(** The result belongs to the current run of a tracked backend. *)
Definition counts (r : probeResult) (eng : Engine) (bhs : backendHealthState) (spec : HealthCheckSpec) : Prop :=
  ∃ vs, eng_vips eng !! pr_vipKey r = Some vs ∧ vh_epoch vs = pr_epoch r ∧ vh_spec vs = spec ∧
        vh_backends vs !! pr_backendAddr r = Some bhs.

(** What tells the VIPs apart from their backends' states. *)
Definition vipFrame (vs : vipHealthState) : string * Z * HealthCheckSpec * V2Prober * gmap string string :=
  (vh_vipKey vs, vh_epoch vs, vh_spec vs, vh_prober vs, bh_targetAddress <$> vh_backends vs).

Lemma observe_target spec ok ts bhs : bh_targetAddress (observe spec ok ts bhs) = bh_targetAddress bhs.
Proof. done. Qed.

Lemma handleResult_cases r eng b cs eng' b' :
  handleResult r (eng, b) = (cs, (eng', b')) →
  (∃ bhs spec, counts r eng bhs spec ∧
     let bhs' := observe spec (pr_success r) (pr_timestamp r) bhs in
     (∀ k a, lookupBackend k a eng' =
        if decide (k = pr_vipKey r ∧ a = pr_backendAddr r) then Some bhs' else lookupBackend k a eng) ∧
     vipFrame <$> eng_vips eng' = vipFrame <$> eng_vips eng ∧
     cs = (if bool_decide (bh_state bhs ≠ bh_state bhs') && eng_hasCallback eng
           then [{| sc_vipKey := pr_vipKey r; sc_backendAddr := pr_backendAddr r;
                    sc_oldState := bh_state bhs; sc_newState := bh_state bhs' |}] else []) ∧
     (if eng_hasStore eng
      then b' = (Store.SaveHealthState (pr_vipKey r) (pr_backendAddr r) (recordOf bhs') b).2
      else b' = b)) ∨
  ((∀ bhs spec, ¬ counts r eng bhs spec) ∧ eng' = eng ∧ b' = b ∧ cs = []).
Proof.
  unfold handleResult. unfold_monad. destruct (eng_vips eng !! pr_vipKey r) as [vs|] eqn:Hv.
  2:{ intros [= <- <- <-]. right. split_and!; try done. intros ?? (vs' & ? & _). congruence. }
  destruct (vh_epoch vs =? pr_epoch r)%Z eqn:He; simpl.
  2:{ intros [= <- <- <-]. right. split_and!; try done. intros ?? (vs' & ? & ? & _).
      apply Z.eqb_neq in He. congruence. }
  destruct (vh_backends vs !! pr_backendAddr r) as [bhs|] eqn:Hb.
  2:{ intros [= <- <- <-]. right. split_and!; try done. intros ?? (vs' & ? & _ & _ & ?). congruence. }
  apply Z.eqb_eq in He.
  intros Hrun. left. exists bhs, (vh_spec vs). split; [by exists vs|].
  set (bhs' := observe _ _ _ _) in *.
  set (eng1 := setVips _ _) in Hrun.
  assert (eng' = eng1 ∧ cs = (if bool_decide (bh_state bhs ≠ bh_state bhs') && eng_hasCallback eng
            then [{| sc_vipKey := pr_vipKey r; sc_backendAddr := pr_backendAddr r;
                     sc_oldState := bh_state bhs; sc_newState := bh_state bhs' |}] else []) ∧
          (if eng_hasStore eng
           then b' = (Store.SaveHealthState (pr_vipKey r) (pr_backendAddr r) (recordOf bhs') b).2
           else b' = b)) as (-> & -> & Hst).
  { destruct (eng_hasStore eng); [|by simplify_eq].
    destruct (Store.SaveHealthState _ _ _ b) as [x b1] eqn:Hs. by simplify_eq. }
  clear Hrun. split_and!; [| |done|done].
  - intros k a. unfold lookupBackend, eng1. simpl. case_decide as Hka.
    + destruct Hka as [-> ->]. by rewrite !lookup_insert_eq; simpl; rewrite lookup_insert_eq.
    + destruct (decide (k = pr_vipKey r)) as [->|]; [|by rewrite lookup_insert_ne].
      rewrite lookup_insert_eq, Hv. simpl. rewrite lookup_insert_ne; [done|]. naive_solver.
  - unfold eng1. simpl. rewrite fmap_insert. apply insert_id.
    rewrite lookup_fmap, Hv. simpl. f_equal. unfold vipFrame. simpl. f_equal.
    rewrite fmap_insert. symmetry. apply insert_id. by rewrite lookup_fmap, Hb.
Qed.

(** One probe result, on every branch: a result of another run of the VIP
    (an older epoch) or of a backend that is gone changes nothing and calls
    nobody; one that counts moves exactly its own backend, keeps the epoch,
    the spec, the prober and the targets of every VIP, persists the record,
    and calls the callback exactly when the state of the backend changes, with
    the old and the new state. *)
Theorem handleResult_effect r eng b cs eng' b' :
  handleResult r (eng, b) = (cs, (eng', b')) →
  (∃ bhs spec, counts r eng bhs spec ∧
     let bhs' := observe spec (pr_success r) (pr_timestamp r) bhs in
     (∀ k a, lookupBackend k a eng' =
        if decide (k = pr_vipKey r ∧ a = pr_backendAddr r) then Some bhs' else lookupBackend k a eng) ∧
     vipFrame <$> eng_vips eng' = vipFrame <$> eng_vips eng ∧
     cs = (if bool_decide (bh_state bhs ≠ bh_state bhs') && eng_hasCallback eng
           then [{| sc_vipKey := pr_vipKey r; sc_backendAddr := pr_backendAddr r;
                    sc_oldState := bh_state bhs; sc_newState := bh_state bhs' |}] else []) ∧
     (if eng_hasStore eng
      then b' = (Store.SaveHealthState (pr_vipKey r) (pr_backendAddr r) (recordOf bhs') b).2
      else b' = b)) ∨
  ((∀ bhs spec, ¬ counts r eng bhs spec) ∧ eng' = eng ∧ b' = b ∧ cs = []).
Proof. apply handleResult_cases. Qed.

(** ** Hysteresis *)

(** The number of equal observations a sequence ends with. *)
Fixpoint leading (x : bool) (l : list bool) : nat :=
  match l with y :: l' => if bool_decide (y = x) then S (leading x l') else 0 | [] => 0 end.
Definition trail (x : bool) (l : list bool) : nat := leading x (reverse l).

Lemma trail_snoc x l y : trail x (l ++ [y]) = if bool_decide (y = x) then S (trail x l) else 0.
Proof. unfold trail. by rewrite reverse_snoc. Qed.
Lemma trail_le x l : trail x l ≤ length l.
Proof.
  induction l as [|y l IH] using rev_ind; [done|]. rewrite trail_snoc, length_app. simpl. case_bool_decide; lia.
Qed.

(** A verdict stands: at some point [n want] observations in a row said
    [want], and since then never [n (negb want)] in a row the contrary. *)
Definition verdict (n : bool → Z) (want : bool) (l : list bool) : Prop :=
  ∃ i, i ≤ length l ∧ (n want ≤ Z.of_nat (trail want (take i l)))%Z ∧
       ∀ j, i ≤ j ≤ length l → (Z.of_nat (trail (negb want) (take j l)) < n (negb want))%Z.

Lemma verdict_snoc n want l x :
  (∀ w, 1 ≤ n w)%Z →
  verdict n want (l ++ [x]) ↔
  if bool_decide (x = want) then verdict n want l ∨ (n want ≤ Z.of_nat (trail want (l ++ [x])))%Z
  else verdict n want l ∧ (Z.of_nat (trail (negb want) (l ++ [x])) < n (negb want))%Z.
Proof.
  intros Hn. unfold verdict. rewrite length_app. simpl.
  assert (∀ i, i ≤ length l → take i (l ++ [x]) = take i l) as Htake by (intros; by apply take_app_le).
  assert (take (length l + 1) (l ++ [x]) = l ++ [x]) as Hall by (apply take_ge; rewrite length_app; simpl; lia).
  case_bool_decide as Hx.
  - split.
    + intros (i & Hi & Hw & Hj). destruct (decide (i ≤ length l)) as [Hle|].
      * left. exists i. rewrite Htake in Hw by done. split_and!; [done..|].
        intros j Hj'. rewrite <- (Htake j) by lia. apply Hj. lia.
      * right. assert (i = length l + 1) as -> by lia. by rewrite Hall in Hw.
    + intros [(i & Hi & Hw & Hj)|Hw].
      * exists i. rewrite Htake by done. split_and!; [lia|done|]. intros j Hj'.
        destruct (decide (j ≤ length l)); [rewrite Htake by done; apply Hj; lia|].
        assert (j = length l + 1) as -> by lia. rewrite Hall, trail_snoc.
        rewrite bool_decide_eq_false_2 by (by subst; destruct want). specialize (Hn (negb want)). lia.
      * exists (length l + 1). rewrite Hall. split_and!; [lia|done|]. intros j Hj'.
        assert (j = length l + 1) as -> by lia. rewrite Hall, trail_snoc.
        rewrite bool_decide_eq_false_2 by (by subst; destruct want). specialize (Hn (negb want)). lia.
  - split.
    + intros (i & Hi & Hw & Hj). assert (i ≤ length l).
      { destruct (decide (i ≤ length l)); [done|]. assert (i = length l + 1) as -> by lia.
        rewrite Hall, trail_snoc, bool_decide_eq_false_2 in Hw by done. specialize (Hn want). lia. }
      split.
      * exists i. rewrite Htake in Hw by done. split_and!; [done..|].
        intros j Hj'. rewrite <- (Htake j) by lia. apply Hj. lia.
      * specialize (Hj (length l + 1)). rewrite Hall in Hj. apply Hj. lia.
    + intros [(i & Hi & Hw & Hj) Hlast]. exists i. rewrite Htake by done. split_and!; [lia|done|].
      intros j Hj'. destruct (decide (j ≤ length l)); [rewrite Htake by done; apply Hj; lia|].
      assert (j = length l + 1) as -> by lia. by rewrite Hall.
Qed.

Definition threshold (spec : HealthCheckSpec) (w : bool) : Z :=
  if w then hc_RiseCount spec else hc_FallCount spec.
Definition observeAll (spec : HealthCheckSpec) (l : list (bool * Z)) (bhs : backendHealthState)
    : backendHealthState :=
  foldl (λ bhs p, observe spec p.1 p.2 bhs) bhs l.

Lemma observeAll_snoc spec l ok ts bhs :
  observeAll spec (l ++ [(ok, ts)]) bhs = observe spec ok ts (observeAll spec l bhs).
Proof. unfold observeAll. by rewrite foldl_snoc. Qed.

Definition newBackend (bhs : backendHealthState) : Prop :=
  bh_state bhs = V2StateUnknown ∧ bh_consecutiveUp bhs = 0%Z ∧ bh_consecutiveDown bhs = 0%Z.

Lemma observeAll_spec spec l bhs :
  newBackend bhs → (∀ w, 1 ≤ threshold spec w)%Z → (Z.of_nat (length l) < 2 ^ 63)%Z →
  let bhs' := observeAll spec l bhs in
  bh_consecutiveUp bhs' = Z.of_nat (trail true l.*1) ∧
  bh_consecutiveDown bhs' = Z.of_nat (trail false l.*1) ∧
  (bh_state bhs' = V2StateUp ↔ verdict (threshold spec) true l.*1) ∧
  (bh_state bhs' = V2StateDown ↔ verdict (threshold spec) false l.*1).
Proof.
  intros (Hs & Hu & Hd) Hn. induction l as [|[ok ts] l IH] using rev_ind; intros Hlen.
  { simpl. unfold trail. simpl. split_and!; try done.
    - rewrite Hs. split; [done|]. intros (i & Hi & Hw & _). simpl in Hi. rewrite take_nil in Hw.
      specialize (Hn true). unfold trail in Hw. simpl in *. lia.
    - rewrite Hs. split; [done|]. intros (i & Hi & Hw & _). simpl in Hi. rewrite take_nil in Hw.
      specialize (Hn false). unfold trail in Hw. simpl in *. lia. }
  rewrite length_app in Hlen. simpl in Hlen.
  destruct IH as (IHu & IHd & IHup & IHdown); [lia|].
  rewrite observeAll_snoc, fmap_app. simpl. rewrite !verdict_snoc, !trail_snoc by done.
  unfold observe. simpl. rewrite IHu, IHd. clear IHu IHd.
  pose proof (trail_le true l.*1) as Ht. pose proof (trail_le false l.*1) as Hf.
  rewrite length_fmap in Ht, Hf. change (hc_RiseCount spec) with (threshold spec true).
  change (hc_FallCount spec) with (threshold spec false).
  assert (V2StateUp ≠ V2StateDown) as Hud by done.
  rewrite !wrapS_small by lia. generalize dependent (bh_state (observeAll spec l bhs)). intros st IHup IHdown.
  destruct ok; simpl; (split; [lia|]); (split; [lia|]); rewrite <- IHup, <- IHdown;
    (case_bool_decide as Hst; simpl;
      [match goal with |- context [(?x <=? ?y)%Z] => destruct (Z.leb_spec x y) end; simpl
      |]); split; (split; [intros|]); try naive_solver lia.
Qed.
(** The result loop on a sequence of results. *)
Fixpoint handleResults (rs : list probeResult) : ST (Engine * B) (list stateChange) :=
  match rs with
  | [] => mret []
  | r :: rs' => cs ← handleResult r; cs' ← handleResults rs'; mret (cs ++ cs')
  end.

Definition resultOf (k : string) (epoch : Z) (a : string) (r : probeResult) : Prop :=
  pr_vipKey r = k ∧ pr_epoch r = epoch ∧ pr_backendAddr r = a.
Definition observations (k : string) (epoch : Z) (a : string) (rs : list probeResult) : list (bool * Z) :=
  (λ r, (pr_success r, pr_timestamp r)) <$> filter (resultOf k epoch a) rs.

(** A backend of a VIP in its current run. *)
Definition tracks (k a : string) (epoch : Z) (spec : HealthCheckSpec) (bhs : backendHealthState)
    (eng : Engine) : Prop :=
  (∃ vs, eng_vips eng !! k = Some vs ∧ vh_epoch vs = epoch ∧ vh_spec vs = spec) ∧
  lookupBackend k a eng = Some bhs.

Lemma tracks_counts k a epoch spec bhs eng r :
  tracks k a epoch spec bhs eng →
  (∃ bhs' spec', counts r eng bhs' spec' ∧ pr_vipKey r = k ∧ pr_backendAddr r = a) ↔ resultOf k epoch a r.
Proof.
  intros [(vs & Hv & <- & <-) Hl]. unfold lookupBackend in Hl. rewrite Hv in Hl. simpl in Hl. split.
  - intros (bhs' & spec' & (vs' & Hv' & He & _) & Hk & Ha). subst. rewrite Hv in Hv'. by simplify_eq.
  - intros (<- & He & <-). exists bhs, (vh_spec vs). split; [|done]. by exists vs.
Qed.

Lemma handleResult_tracks k a epoch spec bhs eng b r cs eng' b' :
  tracks k a epoch spec bhs eng → handleResult r (eng, b) = (cs, (eng', b')) →
  tracks k a epoch spec
    (if decide (resultOf k epoch a r) then observe spec (pr_success r) (pr_timestamp r) bhs else bhs) eng'.
Proof.
  intros Ht Hr. pose proof (tracks_counts _ _ _ _ _ _ r Ht) as Hc.
  destruct (handleResult_cases _ _ _ _ _ _ Hr) as [(bhs1 & spec1 & Hcnt & Hlk & Hfr & _)|(Hno & -> & _)].
  - destruct Ht as [(vs & Hv & <- & <-) Hl]. split.
    + assert ((vipFrame <$> eng_vips eng') !! k = Some (vipFrame vs)) as Hk
        by (rewrite Hfr, lookup_fmap, Hv; done).
      rewrite lookup_fmap in Hk. destruct (eng_vips eng' !! k) as [vs'|]; [|done].
      exists vs'. simpl in Hk. unfold vipFrame in Hk. by simplify_eq.
    + rewrite Hlk. case_decide as Hd.
      * destruct Hd as [-> ->]. rewrite decide_True by (apply Hc; eauto).
        destruct Hcnt as (vs' & Hv' & _ & <- & Hb). rewrite Hv in Hv'. simplify_eq.
        unfold lookupBackend in Hl. rewrite Hv in Hl. simpl in Hl. rewrite Hb in Hl. by simplify_eq.
      * rewrite decide_False; [done|]. intros (<- & _ & <-). by destruct Hd.
  - rewrite decide_False; [done|]. intros Hres. apply Hc in Hres as (? & ? & ? & _). by eapply Hno.
Qed.

Lemma handleResults_tracks k a epoch spec bhs eng b rs cs eng' b' :
  tracks k a epoch spec bhs eng → handleResults rs (eng, b) = (cs, (eng', b')) →
  tracks k a epoch spec (observeAll spec (observations k epoch a rs) bhs) eng'.
Proof.
  revert eng b bhs cs. induction rs as [|r rs IH]; intros eng b bhs cs Ht.
  { by intros [= <- <- <-]. }
  simpl. unfold_monad. destruct (handleResult r (eng, b)) as [cs1 [eng1 b1]] eqn:Hr.
  destruct (handleResults rs (eng1, b1)) as [cs2 [eng2 b2]] eqn:Hrs. intros [= <- <- <-].
  pose proof (IH _ _ _ _ (handleResult_tracks _ _ _ _ _ _ _ _ _ _ _ Ht Hr) Hrs) as Hfin.
  unfold observations in *. rewrite filter_cons. case_decide; done.
Qed.

(** C21. Hysteresis: whatever results of other backends, of other VIPs and of
    earlier runs arrive in between, a backend that started unknown is up
    exactly when at some point [riseCount] of its own results in a row
    succeeded and never since did [fallCount] in a row fail; and down exactly
    when [fallCount] in a row failed and never since [riseCount] succeeded. *)
Theorem hysteresis k a epoch spec bhs eng b rs cs eng' b' :
  tracks k a epoch spec bhs eng → newBackend bhs →
  (1 ≤ hc_RiseCount spec)%Z → (1 ≤ hc_FallCount spec)%Z → (Z.of_nat (length rs) < 2 ^ 63)%Z →
  handleResults rs (eng, b) = (cs, (eng', b')) →
  let obs := (observations k epoch a rs).*1 in
  ∃ bhs', lookupBackend k a eng' = Some bhs' ∧
    (bh_state bhs' = V2StateUp ↔ verdict (threshold spec) true obs) ∧
    (bh_state bhs' = V2StateDown ↔ verdict (threshold spec) false obs).
Proof.
  intros Ht Hnew Hr Hf Hlen Hrs obs.
  destruct (handleResults_tracks _ _ _ _ _ _ _ _ _ _ _ Ht Hrs) as [_ Hl].
  eexists; split; [exact Hl|]. apply observeAll_spec; [done|by intros []|].
  unfold observations. rewrite length_fmap. pose proof (length_filter (resultOf k epoch a) rs). lia.
Qed.

(** The backends handed to the reconciler are those of its list that are
    up, in their order, and [IsHealthy] agrees with it; a VIP that is not
    tracked has none. *)
Theorem HealthyBackends_exact k bes eng :
  sublist (HealthyBackends k bes eng) bes ∧
  (∀ be, be ∈ HealthyBackends k bes eng ↔ be ∈ bes ∧ IsHealthy k (be_Address be) eng = true) ∧
  (∀ be, IsHealthy k (be_Address be) eng = true ↔
     ∃ bhs, lookupBackend k (be_Address be) eng = Some bhs ∧ bh_state bhs = V2StateUp).
Proof.
  unfold HealthyBackends, IsHealthy, lookupBackend.
  destruct (eng_vips eng !! k) as [vs|]; simpl.
  2:{ split; [apply sublist_nil_l|]. split; [|naive_solver]. intros be.
      split; [by intros ?%not_elem_of_nil|naive_solver]. }
  split_and!.
  - induction bes as [|be bes IH]; simpl; [constructor|].
    destruct (vh_backends vs !! be_Address be); [case_bool_decide|]; by constructor.
  - intros be. induction bes as [|be' bes IH]; simpl.
    { split; [by intros ?%not_elem_of_nil|]. by intros [?%not_elem_of_nil _]. }
    rewrite (elem_of_cons bes).
    destruct (vh_backends vs !! be_Address be') eqn:Hb; [case_bool_decide as Hs|];
      rewrite ?elem_of_cons, IH; clear IH; (split; [|intros [[->|?] Hx]; rewrite ?Hb in *; auto]).
    + intros [->|[? ?]]; [|by auto]. rewrite Hb. split; [by left|]. by apply bool_decide_eq_true.
    + intros [? ?]. auto.
    + by apply bool_decide_eq_true in Hx.
    + intros [? ?]. auto.
    + done.
  - intros be. destruct (vh_backends vs !! be_Address be); [|naive_solver].
    rewrite bool_decide_eq_true. naive_solver.
Qed.

End Results.
(** ** Starting, updating and restarting a VIP *)
Section Updates.
Context {B : Type} `{!Store.Bolt B} `{!Store.BoltLaws B} `{!Codec Store.BackendHealthRecord}
  `{!HttpGuts} `{!MapOrder B}.

Lemma LoadHealthState_db k a (b : B) : Store.dbOf (Store.LoadHealthState k a b).2 = Store.dbOf b.
Proof.
  unfold Store.LoadHealthState. unfold_monad. destruct (Store.boltView _ _ b) as [r b1] eqn:Hb.
  destruct (Store.boltView_reads _ _ _ _ _ _ Hb) as [<- _]. by repeat case_match.
Qed.

Lemma initBackend_db hasStore k existing now be (b : B) :
  Store.dbOf (initBackend hasStore k existing now be b).2 = Store.dbOf b.
Proof.
  unfold initBackend. case_match; [done|]. destruct hasStore; [|done]. unfold_monad.
  destruct (Store.LoadHealthState k (be_Address be) b) as [r b1] eqn:Hl.
  pose proof (LoadHealthState_db k (be_Address be) b) as Hd. rewrite Hl in Hd. by repeat case_match.
Qed.

(** Every backend of the list gets the state [initBackend] gives it on a store
    with the same contents. *)
Lemma initBackends_spec hasStore k existing clock bes i acc (b : B) m b' :
  initBackends hasStore k existing clock i bes acc b = (m, b') →
  NoDup (be_Address <$> bes) →
  (∀ be, be ∈ bes → ∃ now b1, Store.dbOf b1 = Store.dbOf b ∧
     m !! be_Address be = Some (initBackend hasStore k existing now be b1).1) ∧
  (∀ a, a ∉ be_Address <$> bes → m !! a = acc !! a).
Proof.
  revert i acc b. induction bes as [|be bes IH]; intros i acc b; simpl.
  { intros [= <- <-] _. split; [|done]. by intros be ?%not_elem_of_nil. }
  unfold_monad. destruct (initBackend hasStore k existing (clock i) be b) as [bhs b1] eqn:Hi.
  intros Hrun [Hni Hnd]%NoDup_cons. destruct (IH _ _ _ Hrun Hnd) as [IH1 IH2].
  assert (Store.dbOf b1 = Store.dbOf b) as Hdb.
  { rewrite <- (initBackend_db hasStore k existing (clock i) be b). by rewrite Hi. }
  split.
  - intros be' [->|Hbe']%elem_of_cons.
    + exists (clock i), b. split; [done|]. rewrite (IH2 _ Hni), lookup_insert_eq. by rewrite Hi.
    + destruct (IH1 _ Hbe') as (now & b2 & Hb2 & Hm). exists now, b2. split; [congruence|done].
  - intros a [Hne Ha]%not_elem_of_cons. rewrite (IH2 _ Ha). by rewrite lookup_insert_ne.
Qed.

Lemma UpdateVIP_cases clock vip spec eng (b : B) r eng' b' :
  spec_HealthCheck (vip_Spec vip) = Some spec →
  UpdateVIP clock vip (eng, b) = (r, (eng', b')) →
  (r ≠ None ∧ eng' = eng ∧ b' = b) ∨
  (r = None ∧ eng_started eng = true ∧ runtimeOk spec ∧
   ∃ prober backends, newProberFromSpec spec = inr prober ∧
     initBackends (eng_hasStore eng) (KeyForVIP vip) (eng_vips eng !! KeyForVIP vip) clock 0
       (spec_Backends (vip_Spec vip)) ∅ b = (backends, b') ∧
     let epoch := wrapU 64 (eng_nextEpoch eng + 1) in
     eng' = setVips (setEpoch eng epoch)
       (<[KeyForVIP vip := {| vh_vipKey := KeyForVIP vip; vh_epoch := epoch; vh_spec := spec;
                              vh_backends := backends; vh_prober := prober |}]> (eng_vips eng))).
Proof.
  intros Hs. unfold UpdateVIP. rewrite Hs. unfold_monad.
  destruct (eng_started eng) eqn:Hst; [|intros [= <- <- <-]; by left].
  unfold startVIPLocked. unfold_monad.
  destruct (ValidateHealthCheckRuntimeSpec b (Some spec)) eqn:Hval; [intros [= <- <- <-]; by left|].
  destruct (newProberFromSpec spec) as [|prober] eqn:Hp; [intros [= <- <- <-]; by left|].
  destruct (initBackends _ _ _ _ _ _ _ b) as [backends b1] eqn:Hi. intros [= <- <- <-].
  right. split_and!; [done|done|by apply (ValidateHealthCheckRuntimeSpec_spec b)|].
  exists prober, backends. done.
Qed.

(** Updating a VIP: it fails and changes nothing, or the health check is
    valid, a new run with the next epoch tracks exactly the backends of the
    spec with the targets of the spec, backends that were tracked keep their
    state and counters, other VIPs keep theirs. *)
Theorem UpdateVIP_effect clock vip spec eng (b : B) r eng' b' :
  spec_HealthCheck (vip_Spec vip) = Some spec → NoDup (be_Address <$> spec_Backends (vip_Spec vip)) →
  UpdateVIP clock vip (eng, b) = (r, (eng', b')) →
  let k := KeyForVIP vip in
  (r ≠ None ∧ eng' = eng ∧ b' = b) ∨
  (r = None ∧ runtimeOk spec ∧
   (∃ vs, eng_vips eng' !! k = Some vs ∧ vh_epoch vs = wrapU 64 (eng_nextEpoch eng + 1) ∧ vh_spec vs = spec) ∧
   (∀ a, is_Some (lookupBackend k a eng') ↔ a ∈ be_Address <$> spec_Backends (vip_Spec vip)) ∧
   (∀ be, be ∈ spec_Backends (vip_Spec vip) → ∃ bhs, lookupBackend k (be_Address be) eng' = Some bhs ∧
      bh_targetAddress bhs = probeTargetAddress be ∧
      ∀ old, lookupBackend k (be_Address be) eng = Some old → recordOf bhs = recordOf old) ∧
   (∀ k' a, k' ≠ k → lookupBackend k' a eng' = lookupBackend k' a eng)).
Proof.
  intros Hs Hnd Hrun k.
  destruct (UpdateVIP_cases _ _ _ _ _ _ _ _ Hs Hrun) as [?|(-> & _ & Hok & prober & m & _ & Hi & ->)]; [by left|].
  right. destruct (initBackends_spec _ _ _ _ _ _ _ _ _ _ Hi Hnd) as [Hin Hout].
  assert (∀ a, lookupBackend k a (setVips (setEpoch eng (wrapU 64 (eng_nextEpoch eng + 1)))
    (<[k := {| vh_vipKey := k; vh_epoch := wrapU 64 (eng_nextEpoch eng + 1); vh_spec := spec;
               vh_backends := m; vh_prober := prober |}]> (eng_vips eng))) = m !! a) as Hl.
  { intros a. unfold lookupBackend. simpl. by rewrite lookup_insert_eq. }
  split_and!; [done|done| | | |].
  - simpl. rewrite lookup_insert_eq. by eexists.
  - intros a. rewrite Hl. split.
    + intros [bhs Hb]. destruct (decide (a ∈ be_Address <$> spec_Backends (vip_Spec vip))) as [|Hn]; [done|].
      rewrite (Hout _ Hn) in Hb. by rewrite lookup_empty in Hb.
    + intros (be & -> & Hbe)%list_elem_of_fmap. destruct (Hin _ Hbe) as (now & b1 & _ & ->). eauto.
  - intros be Hbe. rewrite Hl. destruct (Hin _ Hbe) as (now & b1 & _ & ->). eexists; split; [done|].
    unfold initBackend, lookupBackend. fold k. destruct (eng_vips eng !! k ≫= _) as [old|] eqn:Ho; simpl.
    + split; [done|]. intros old'. unfold mbind. intros [= <-]. done.
    + split; [|done]. destruct (eng_hasStore eng); [|done]. unfold_monad.
      destruct (Store.LoadHealthState _ _ b1) as [[[rec|] [x|]] b2]; done.
  - intros k' a Hk. unfold lookupBackend. simpl. by rewrite lookup_insert_ne.
Qed.

(** Crash recovery: when a result that counted was persisted, an engine
    that starts over with that store, whatever else was written to it, gives
    the backend the same state, counters and times, probed at the target of
    the spec it is started with. *)
Theorem restart_restores `{!CodecLaws Store.BackendHealthRecord}
    r eng (b : B) cs eng' b' bhs clock vip spec be eng2 b2 eng2' b2' :
  (∀ A zero (f : Store.DB → A * error) e, (Store.boltView (E := B) zero f e).1.2 = (f (Store.dbOf e)).2) →
  let k := KeyForVIP vip in
  eng_hasStore eng = true → pr_vipKey r = k → pr_backendAddr r = be_Address be →
  (∃ bhs0 spec0, counts r eng bhs0 spec0) →
  handleResult r (eng, b) = (cs, (eng', b')) → lookupBackend k (be_Address be) eng' = Some bhs →
  bh_state bhs ≠ "" → (Store.SaveHealthState k (be_Address be) (recordOf bhs) b).1 = None →
  Store.hc_state (Store.dbOf b2) !! Store.hcKey k (be_Address be) =
    Store.hc_state (Store.dbOf b') !! Store.hcKey k (be_Address be) →
  eng_vips eng2 !! k = None → eng_hasStore eng2 = true →
  spec_HealthCheck (vip_Spec vip) = Some spec → NoDup (be_Address <$> spec_Backends (vip_Spec vip)) →
  be ∈ spec_Backends (vip_Spec vip) →
  UpdateVIP clock vip (eng2, b2) = (None, (eng2', b2')) →
  ∃ bhs2, lookupBackend k (be_Address be) eng2' = Some bhs2 ∧ recordOf bhs2 = recordOf bhs ∧
          bh_targetAddress bhs2 = probeTargetAddress be.
Proof.
  intros Hview k Hst Hk Ha (bhs0 & spec0 & Hcnt) Hr Hl Hne Hsave Hsame Hnone Hst2 Hs Hnd Hbe Hrun.
  destruct (handleResult_cases _ _ _ _ _ _ Hr) as [(bhs1 & spec1 & _ & Hlk & _ & _ & Hb')|(Hno & _)];
    [|by destruct (Hno _ _ Hcnt)].
  rewrite Hst in Hb'. rewrite Hlk, Hk, Ha in Hl. rewrite decide_True in Hl by done.
  injection Hl as Hbhs. rewrite Hbhs, Hk, Ha in Hb'.
  destruct (Store.SaveHealthState k (be_Address be) (recordOf bhs) b) as [x b1] eqn:Hsv.
  simpl in Hsave, Hb'. subst x b1.
  destruct (Store.SaveHealthState_saved _ _ _ _ _ _ Hsv) as [(_ & data & Hu & Hdb)|[? _]]; [|done].
  rewrite Hdb, lookup_insert_eq in Hsame.
  destruct (UpdateVIP_cases _ _ _ _ _ _ _ _ Hs Hrun) as [[? _]|(_ & _ & _ & prober & m & _ & Hi & ->)]; [done|].
  destruct (initBackends_spec _ _ _ _ _ _ _ _ _ _ Hi Hnd) as [Hin _].
  destruct (Hin _ Hbe) as (now & b3 & Hb3 & Hm). fold k in Hm.
  unfold lookupBackend. simpl. rewrite lookup_insert_eq. simpl. rewrite Hm.
  unfold initBackend. rewrite Hnone, Hst2. simpl. unfold_monad.
  rewrite <- Hb3 in Hsame.
  destruct (Store.LoadHealthState_reads _ _ _ _ _ Hsame Hu Hne Hview) as [Hload _].
  destruct (Store.LoadHealthState k (be_Address be) b3) as [res b4]. simpl in Hload. subst res.
  eexists. split; [done|]. done.
Qed.

End Updates.

(** ** The running engine: schedulers, workers and the result loop *)
Section System.
Context {B : Type} `{!Store.Bolt B} `{!Store.BoltLaws B} `{!Codec Store.BackendHealthRecord}
  `{!HttpGuts} `{!MapOrder B}.

(** [sys_scheds] are the runs whose scheduler was started: a cancelled one may
    still be emitting.  Each result in flight keeps the job it is of. *)
Record System := {
  sys_engine : Engine;
  sys_store : B;
  sys_scheds : list vipHealthState;
  sys_jobs : list probeJob;
  sys_results : list (probeJob * probeResult);
}.

Definition resultFor (job : probeJob) (ok : bool) (ts : Z) : probeResult :=
  {| pr_vipKey := pj_vipKey job; pr_epoch := pj_epoch job; pr_backendAddr := pj_backendAddr job;
     pr_success := ok; pr_timestamp := ts |}.

Definition started (vip : VirtualIP) (r : option ferr) (eng : Engine) : list vipHealthState :=
  match r, spec_HealthCheck (vip_Spec vip), eng_vips eng !! KeyForVIP vip with
  | None, Some _, Some vs => [vs]
  | _, _, _ => []
  end.

Definition onEngine {A} (m : ST (Engine * B) A) (s : System) : A * System :=
  let '(a, (eng, b)) := m (sys_engine s, sys_store s) in
  (a, {| sys_engine := eng; sys_store := b; sys_scheds := sys_scheds s; sys_jobs := sys_jobs s;
         sys_results := sys_results s |}).
Definition setQueues (s : System) (scheds : list vipHealthState) (jobs : list probeJob)
    (results : list (probeJob * probeResult)) : System :=
  {| sys_engine := sys_engine s; sys_store := sys_store s; sys_scheds := scheds; sys_jobs := jobs;
     sys_results := results |}.

Inductive estep : System → System → Prop :=
  | es_start s : estep s (onEngine Start s).2
  | es_stop s : estep s (onEngine Stop s).2
  | es_update clock vip s r s' :
      onEngine (UpdateVIP clock vip) s = (r, s') →
      estep s (setQueues s' (started vip r (sys_engine s') ++ sys_scheds s') (sys_jobs s') (sys_results s'))
  | es_stopVIP k s : estep s (onEngine (StopVIP k) s).2
  | es_emit vs job b s : vs ∈ sys_scheds s → job ∈ probeJobs b vs →
      estep s (setQueues s (sys_scheds s) (job :: sys_jobs s) (sys_results s))
  | es_probe l1 job l2 ok ts s : sys_jobs s = l1 ++ job :: l2 →
      estep s (setQueues s (sys_scheds s) (l1 ++ l2) ((job, resultFor job ok ts) :: sys_results s))
  | es_drop l1 x l2 s : sys_results s = l1 ++ x :: l2 →
      estep s (setQueues s (sys_scheds s) (sys_jobs s) (l1 ++ l2))
  | es_result l1 job r l2 s : sys_results s = l1 ++ (job, r) :: l2 →
      estep s (onEngine (handleResult r) (setQueues s (sys_scheds s) (sys_jobs s) (l1 ++ l2))).2
  | es_store b s :
      estep s {| sys_engine := sys_engine s; sys_store := b; sys_scheds := sys_scheds s;
                 sys_jobs := sys_jobs s; sys_results := sys_results s |}.

Definition initSystem (cfg : EngineConfig) (hasStore hasCallback : bool) (b : B) : System :=
  {| sys_engine := NewEngine cfg hasStore hasCallback; sys_store := b; sys_scheds := []; sys_jobs := [];
     sys_results := [] |}.

(** [job] is one the run [vs] emits. *)
Definition jobOf (vs : vipHealthState) (job : probeJob) : Prop := ∃ b : B, job ∈ probeJobs b vs.

Record SInv (n : nat) (s : System) : Prop := {
  si_next : (0 ≤ eng_nextEpoch (sys_engine s) ≤ Z.of_nat n)%Z;
  si_scheds : ∀ vs, vs ∈ sys_scheds s →
    (vh_epoch vs ≤ eng_nextEpoch (sys_engine s))%Z ∧ newProberFromSpec (vh_spec vs) = inr (vh_prober vs);
  si_unique : ∀ vs vs', vs ∈ sys_scheds s → vs' ∈ sys_scheds s → vh_epoch vs = vh_epoch vs' → vs = vs';
  si_vips : ∀ k vs, eng_vips (sys_engine s) !! k = Some vs →
    ∃ vs0, vs0 ∈ sys_scheds s ∧ vipFrame vs = vipFrame vs0 ∧ vh_vipKey vs = k;
  si_jobs : ∀ job, job ∈ sys_jobs s → ∃ vs, vs ∈ sys_scheds s ∧ jobOf vs job;
  si_results : ∀ job r, (job, r) ∈ sys_results s →
    (∃ vs, vs ∈ sys_scheds s ∧ jobOf vs job) ∧ ∃ ok ts, r = resultFor job ok ts;
}.

Lemma SInv_engine n s eng b :
  SInv n s → eng_nextEpoch eng = eng_nextEpoch (sys_engine s) →
  (∀ k vs, eng_vips eng !! k = Some vs →
     ∃ vs', eng_vips (sys_engine s) !! k = Some vs' ∧ vipFrame vs = vipFrame vs') →
  SInv n {| sys_engine := eng; sys_store := b; sys_scheds := sys_scheds s; sys_jobs := sys_jobs s;
            sys_results := sys_results s |}.
Proof.
  intros [I1 I2 I3 I4 I5 I6] He Hv. split; simpl; rewrite ?He; try done.
  intros k vs Hk. destruct (Hv _ _ Hk) as (vs' & Hk' & Hf). destruct (I4 _ _ Hk') as (vs0 & ? & ? & ?).
  exists vs0. split_and!; [done|congruence|]. unfold vipFrame in Hf. congruence.
Qed.

Lemma SInv_mono n s : SInv n s → SInv (S n) s.
Proof. intros [I1 I2 I3 I4 I5 I6]. split; try done. lia. Qed.

Lemma SInv_queues n s jobs results :
  SInv n s →
  (∀ job, job ∈ jobs → ∃ vs, vs ∈ sys_scheds s ∧ jobOf vs job) →
  (∀ job r, (job, r) ∈ results →
     (∃ vs, vs ∈ sys_scheds s ∧ jobOf vs job) ∧ ∃ ok ts, r = resultFor job ok ts) →
  SInv n (setQueues s (sys_scheds s) jobs results).
Proof. by intros [I1 I2 I3 I4 I5 I6] Hj Hr. Qed.

Lemma handleResult_frames r eng (b : B) cs eng' b' :
  handleResult r (eng, b) = (cs, (eng', b')) →
  eng_nextEpoch eng' = eng_nextEpoch eng ∧ vipFrame <$> eng_vips eng' = vipFrame <$> eng_vips eng.
Proof.
  intros Hr. split.
  - revert Hr. unfold handleResult. unfold_monad.
    repeat (case_match; simplify_eq/=; try by intros [= <- <- <-]).
  - destruct (handleResult_cases _ _ _ _ _ _ Hr) as [(? & ? & _ & _ & Hf & _)|(_ & -> & _)]; done.
Qed.

Lemma frames_lookup (m m' : gmap string vipHealthState) k vs :
  vipFrame <$> m' = vipFrame <$> m → m' !! k = Some vs → ∃ vs', m !! k = Some vs' ∧ vipFrame vs = vipFrame vs'.
Proof.
  intros Hf Hk. assert ((vipFrame <$> m) !! k = Some (vipFrame vs)) as Hk' by (rewrite <- Hf, lookup_fmap, Hk; done).
  rewrite lookup_fmap in Hk'. destruct (m !! k) as [vs'|]; [|done]. exists vs'. split; [done|]. simpl in Hk'. congruence.
Qed.

Lemma SInv_update n clock vip s r s' :
  SInv n s → (Z.of_nat (S n) < 2 ^ 64)%Z → onEngine (UpdateVIP clock vip) s = (r, s') →
  SInv (S n) (setQueues s' (started vip r (sys_engine s') ++ sys_scheds s') (sys_jobs s') (sys_results s')).
Proof.
  intros I Hn. unfold onEngine.
  destruct (UpdateVIP clock vip (sys_engine s, sys_store s)) as [r' [eng b]] eqn:Hu.
  intros [= <- <-]. unfold setQueues. simpl.
  destruct (spec_HealthCheck (vip_Spec vip)) as [spec|] eqn:Hs.
  2:{ unfold UpdateVIP in Hu. rewrite Hs in Hu. unfold_monad. simplify_eq. unfold started. rewrite Hs. simpl.
      apply SInv_mono, SInv_engine; eauto. }
  destruct (UpdateVIP_cases _ _ _ _ _ _ _ _ Hs Hu)
    as [(Hr & -> & ->)|(-> & _ & _ & prober & m & Hp & _ & ->)].
  { unfold started. destruct r'; [|done]. simpl. apply SInv_mono, SInv_engine; eauto. }
  unfold started. rewrite Hs. simpl. rewrite lookup_insert_eq. simpl.
  destruct I as [I1 I2 I3 I4 I5 I6].
  rewrite wrapU_small by lia.
  set (vs := {| vh_vipKey := KeyForVIP vip |}).
  assert (∀ vs', vs' ∈ sys_scheds s → vh_epoch vs' ≠ vh_epoch vs) as Hnew.
  { intros vs' Hin. destruct (I2 _ Hin). simpl. lia. }
  split; simpl; [lia| | | | |].
  - intros vs' [->|Hin]%elem_of_cons; simpl; [split; [lia|done]|]. destruct (I2 _ Hin). split; [lia|done].
  - intros v1 v2 [->|Hv1]%elem_of_cons [->|Hv2]%elem_of_cons He; [done| | |by apply I3].
    + by destruct (Hnew _ Hv2).
    + by destruct (Hnew _ Hv1).
  - intros k vs' Hk. destruct (decide (k = KeyForVIP vip)) as [->|Hne].
    + rewrite lookup_insert_eq in Hk. injection Hk as <-. exists vs. split_and!; [by left|done|done].
    + rewrite lookup_insert_ne in Hk by done. destruct (I4 _ _ Hk) as (vs0 & ? & ?). exists vs0. split; [by right|done].
  - intros job Hj. destruct (I5 _ Hj) as (vs0 & ? & ?). exists vs0. split; [by right|done].
  - intros job r Hj. destruct (I6 _ _ Hj) as ((vs0 & ? & ?) & ?). split; [|done]. exists vs0. split; [by right|done].
Qed.

Lemma SInv_step n s s' : SInv n s → (Z.of_nat (S n) < 2 ^ 64)%Z → estep s s' → SInv (S n) s'.
Proof.
  intros I Hn Hst. destruct Hst as [s|s|clock vip s r s' Hu|k s|vs job b s Hvs Hj|l1 job l2 ok ts s Hj
                                   |l1 x l2 s Hr|l1 job r l2 s Hr|b s].
  - unfold onEngine, Start. unfold_monad. destruct (eng_started _); [|destruct (eng_hasStore _);
      [destruct (Store.LoadAllHealthStates _)|]]; simpl; apply SInv_mono, SInv_engine; eauto.
  - unfold onEngine, Stop. unfold_monad. simpl. destruct (eng_started _); simpl; apply SInv_mono, SInv_engine; eauto.
    simpl. intros k vs Hk. by rewrite lookup_empty in Hk.
  - by eapply SInv_update.
  - unfold onEngine, StopVIP. unfold_monad. simpl. apply SInv_mono, SInv_engine; [done|by destruct (_ !! k)|].
    intros k' vs. destruct (eng_vips (sys_engine s) !! k); simpl; [|eauto].
    intros [_ Hk]%lookup_delete_Some. eauto.
  - apply SInv_mono, SInv_queues; [done| |apply I]. intros job' [->|Hj']%elem_of_cons; [|by apply I].
    exists vs. split; [done|]. by exists b.
  - apply SInv_mono, SInv_queues; [done| |].
    + intros job' Hj'. apply I. rewrite Hj. set_solver.
    + intros job' r [Heq|Hr]%elem_of_cons; [|by apply I]. simplify_eq. split; [|eauto].
      apply I. rewrite Hj. set_solver.
  - apply SInv_mono, SInv_queues; [done|apply I|]. intros job r Hin. apply I. rewrite Hr. set_solver.
  - assert (SInv n (setQueues s (sys_scheds s) (sys_jobs s) (l1 ++ l2))) as I'.
    { apply SInv_queues; [done|apply I|]. intros job' r' Hin. apply I. rewrite Hr. set_solver. }
    unfold onEngine. destruct (handleResult r _) as [cs [eng' b']] eqn:Hh. simpl.
    destruct (handleResult_frames _ _ _ _ _ _ Hh) as [He Hf]. apply SInv_mono, (SInv_engine _ _ _ _ I' He).
    intros k vs Hk. by eapply frames_lookup.
  - apply SInv_mono, SInv_engine; eauto.
Qed.

Lemma SInv_reachable n cfg hs hc (b : B) s :
  nsteps estep n (initSystem cfg hs hc b) s → (Z.of_nat n < 2 ^ 64)%Z → SInv n s.
Proof.
  revert s. induction n as [|n IH]; intros s Hs Hn.
  { inversion Hs; subst. split; simpl; [lia|by intros ? ?%not_elem_of_nil|by intros ?? ?%not_elem_of_nil| | |].
    - intros k vs Hk. by rewrite lookup_empty in Hk.
    - by intros ? ?%not_elem_of_nil.
    - by intros ?? ?%not_elem_of_nil. }
  apply nsteps_inv_r in Hs as (s1 & Hs1 & Hst). eapply SInv_step; [|done|done]. apply IH; [done|lia].
Qed.


End System.

End Health.

(** ** A concrete engine *)
Module HealthExamples.
Import Health Validation StoreExamples.

#[local] Instance guts : HttpGuts :=
  {| ValidHostHeader := λ _, true; ValidHeaderFieldName := λ _, true; ValidHeaderFieldValue := λ _, true |}.
#[local] Instance dbMapOrder : MapOrder Store.DB.
Proof. refine {| mapRange := λ V _ m, map_to_list m |}. done. Defined.

Definition hc : HealthCheckSpec :=
  {| hc_Type := HCTypeTCP; hc_IntervalSeconds := 5; hc_TimeoutSeconds := 3; hc_RiseCount := 2;
     hc_FallCount := 2; hc_HTTP := None;
     hc_TCP := Some {| tcp_Port := 80; tcp_Send := ""; tcp_ExpectedResponse := "" |} |}.
Definition be1 : BackendSpec := {| be_Address := "10.0.1.1"; be_MonitorAddress := "10.9.1.1"; be_Weight := 1 |}.
Definition be2 : BackendSpec := {| be_Address := "10.0.1.2"; be_MonitorAddress := ""; be_Weight := 1 |}.
Definition vip (bes : list BackendSpec) : VirtualIP :=
  {| vip_Namespace := "ns"; vip_Name := "a"; vip_UID := "u"; vip_Generation := 1;
     vip_DeletionTimestamp := None;
     vip_Spec := {| spec_Address := "203.0.113.10"; spec_Port := 80; spec_Protocol := ProtocolTCP;
                    spec_EncapType := ""; spec_DSCP := None; spec_Backends := bes;
                    spec_HealthCheck := Some hc |};
     vip_Status := empty_status |}.
Definition clock (i : nat) : Z := 1000.
Definition cfg : EngineConfig := {| WorkerCount := 0; MaxConcurrentChecks := 0; DefaultTimeout := 0 |}.

Definition eng0 : Engine * Store.DB := (Start (NewEngine cfg true true, emptyDB)).2.
Definition eng1 : Engine * Store.DB := (UpdateVIP clock (vip [be1; be2]) eng0).2.
Definition res (epoch : Z) (a : string) (ok : bool) (ts : Z) : probeResult :=
  {| pr_vipKey := "ns/a"; pr_epoch := epoch; pr_backendAddr := a; pr_success := ok; pr_timestamp := ts |}.
Definition rs : list probeResult :=
  [res 1 "10.0.1.1" true 1; res 1 "10.0.1.2" false 2; res 7 "10.0.1.1" false 3; res 1 "10.0.1.1" true 4;
   res 1 "10.0.1.2" false 5; res 1 "10.0.1.1" false 6].
Definition eng2 : Engine * Store.DB := (handleResults rs eng1).2.

Example states_after :
  GetBackendStates "ns/a" eng2.1 =
    Some {["10.0.1.1" := V2StateUp; "10.0.1.2" := V2StateDown]} ∧
  (handleResults rs eng1).1 =
    [{| sc_vipKey := "ns/a"; sc_backendAddr := "10.0.1.1"; sc_oldState := "unknown"; sc_newState := "up" |};
     {| sc_vipKey := "ns/a"; sc_backendAddr := "10.0.1.2"; sc_oldState := "unknown"; sc_newState := "down" |}].
Proof. split; vm_compute; reflexivity. Qed.

(** The failing result of the run that is over changes nothing. *)
Lemma handleResult_effect_witness :
  let r := res 7 "10.0.1.1" false 9 in
  (handleResult r eng2).2.1 = eng2.1 ∧ (handleResult r eng2).1 = [].
Proof.
  intros r.
  destruct (handleResult_effect r eng2.1 eng2.2 (handleResult r eng2).1 (handleResult r eng2).2.1
              (handleResult r eng2).2.2) as [(bhs & spec & (vs & Hv & He & _) & _)|(_ & H1 & _ & H2)].
  - vm_compute. reflexivity.
  - exfalso. vm_compute in Hv. injection Hv as <-. by vm_compute in He.
  - by split.
Defined.

Lemma tracks_be1 : ∃ bhs, tracks "ns/a" "10.0.1.1" 1 hc bhs eng1.1 ∧ newBackend bhs.
Proof. eexists. split; [split; [eexists; split_and!; reflexivity|reflexivity]|done]. Qed.

Lemma hysteresis_witness :
  ∃ bhs', lookupBackend "ns/a" "10.0.1.1" eng2.1 = Some bhs' ∧
    (bh_state bhs' = V2StateUp ↔ verdict (threshold hc) true [true; true; false]).
Proof.
  destruct tracks_be1 as (bhs & Ht & Hn).
  destruct (hysteresis "ns/a" "10.0.1.1" 1 hc bhs eng1.1 eng1.2 rs (handleResults rs eng1).1 eng2.1 eng2.2
              Ht Hn) as (bhs' & Hl & Hup & _).
  - simpl. lia.
  - simpl. lia.
  - simpl. lia.
  - vm_compute. reflexivity.
  - exists bhs'. split; [exact Hl|exact Hup].
Defined.

Lemma UpdateVIP_effect_witness :
  let r := UpdateVIP clock (vip [be2]) eng2 in
  ∃ bhs, lookupBackend "ns/a" "10.0.1.2" r.2.1 = Some bhs ∧ bh_targetAddress bhs = "10.0.1.2".
Proof.
  intros r.
  destruct (UpdateVIP_effect clock (vip [be2]) hc eng2.1 eng2.2 r.1 r.2.1 r.2.2) as [(Hr & _)|(_ & _ & _ & _ & Hb & _)].
  - reflexivity.
  - apply NoDup_singleton.
  - vm_compute. reflexivity.
  - exfalso. apply Hr. vm_compute. reflexivity.
  - destruct (Hb be2) as (bhs & Hl & Ht & _); [apply list_elem_of_singleton; reflexivity|].
    exists bhs. split; [exact Hl|exact Ht].
Defined.

(** The restarted engine finds the backend down. *)
Definition before : Engine * Store.DB := (handleResults (take 4 rs) eng1).2.
Definition last : probeResult := res 1 "10.0.1.2" false 5.
Definition after : Engine * Store.DB := (handleResult last before).2.
Definition reborn : Engine * Store.DB := (Start (NewEngine cfg true true, after.2)).2.

Lemma restart_restores_witness :
  ∃ bhs2, lookupBackend "ns/a" "10.0.1.2" (UpdateVIP clock (vip [be2]) reborn).2.1 = Some bhs2 ∧
          Store.rec_State (recordOf bhs2) = V2StateDown.
Proof.
  destruct (lookupBackend "ns/a" "10.0.1.2" after.1) as [bhs|] eqn:Hl; [|by vm_compute in Hl].
  destruct (restart_restores last before.1 before.2 (handleResult last before).1 after.1 after.2 bhs
    clock (vip [be2]) hc be2 reborn.1 reborn.2 (UpdateVIP clock (vip [be2]) reborn).2.1
    (UpdateVIP clock (vip [be2]) reborn).2.2) as (bhs2 & Hl2 & Hrec & _); try (vm_compute; reflexivity).
  - eexists _, _. eexists. split_and!; vm_compute; reflexivity.
  - exact Hl.
  - vm_compute in Hl. injection Hl as <-. discriminate.
  - apply NoDup_singleton.
  - by left.
  - exists bhs2. split; [exact Hl2|]. rewrite Hrec. vm_compute in Hl. injection Hl as <-. reflexivity.
Defined.

(** A result in flight whose epoch is the current one. *)
Definition s0 : System := initSystem cfg true true emptyDB.
Definition s1 : System := (onEngine Start s0).2.
Definition upd : option ferr * System := onEngine (UpdateVIP clock (vip [be1])) s1.
Definition s2 : System :=
  setQueues upd.2 (started (vip [be1]) upd.1 (sys_engine upd.2) ++ sys_scheds upd.2) (sys_jobs upd.2)
    (sys_results upd.2).
Definition job : probeJob :=
  {| pj_vipKey := "ns/a"; pj_epoch := 1; pj_backendAddr := "10.0.1.1"; pj_targetAddr := "10.9.1.1";
     pj_prober := TCPProber 80 "" ""; pj_timeout := 3 * Second |}.
Definition s3 : System := setQueues s2 (sys_scheds s2) (job :: sys_jobs s2) (sys_results s2).
Definition s4 : System := setQueues s3 (sys_scheds s3) [] ((job, resultFor job true 9) :: sys_results s3).

Lemma reach_s4 : nsteps estep 4 s0 s4.
Proof.
  eapply nsteps_l; [apply es_start|]. eapply nsteps_l; [apply (es_update clock (vip [be1]) _ upd.1 upd.2); reflexivity|].
  eapply nsteps_l.
  { destruct (sys_scheds s2) as [|vs l] eqn:Hs; [by vm_compute in Hs|].
    apply (es_emit vs job emptyDB s2); [rewrite Hs; by left|]. vm_compute in Hs. simplify_eq.
    vm_compute. by left. }
  eapply nsteps_l; [|constructor]. apply (es_probe [] job [] true 9 s3). reflexivity.
Qed.


End HealthExamples.
