(* ===== verification/Reconciler.v ===== *)
(** * The per-VIP reconciler (internal/agent/reconciler/v2_reconciler.go)

    [vipReconciler] drives one VIP: it plans the update, takes the rollouts it
    needs, persists the intent, drains, applies to the data plane, commits,
    repairs tuning drift, serves the route and reports the status.  The world
    it runs in has one part per collaborator, each behind its own interface:
    the route coordinator with its router, the data plane, the store, and the
    rest (status updater, health tracker, rollouts, timers and the field
    [current], which another goroutine writes). *)

From stdpp Require Import base tactics list gmap strings pretty sorting.
From S2P Require Import Prelude Types Store Routing Vpp DataPlane.

Module Reconciler.
Import RouteCoordinator.

(** ** Configuration *)
Definition TuningDriftPolicyPreserve : string := "preserve".
Definition TuningDriftPolicyRollingRecreate : string := "rolling_recreate".

Record TuningDriftConfig := { Policy : string; DrainDuration : Z }.

Definition normalizeTuningDriftConfig (cfg : TuningDriftConfig) : TuningDriftConfig :=
  {| Policy := if bool_decide (Policy cfg = TuningDriftPolicyPreserve)
                  || bool_decide (Policy cfg = TuningDriftPolicyRollingRecreate)
               then Policy cfg else TuningDriftPolicyRollingRecreate;
     DrainDuration := if (DrainDuration cfg =? 0)%Z then (30 * Second)%Z else DrainDuration cfg |}.

(** The fields of a reconciler that do not change while it runs; a
    collaborator that may be nil has a flag. *)
Record VRConfig := {
  vr_key : string;
  vr_routes : Config;
  vr_hasStore : bool;
  vr_hasHealthTracker : bool;
  vr_hasStatusUpdater : bool;
  vr_hasRollouts : bool;
  vr_tuningDrift : TuningDriftConfig;
}.

(** ** Conditions *)
Definition mkCondition (type status reason message : string) : Condition :=
  {| cond_Type := type; cond_Status := status; cond_ObservedGeneration := 0;
     cond_LastTransitionTime := None; cond_Reason := reason; cond_Message := message |}.

(** [fmt.Sprintf("%s:%d/%s", Address, Port, Protocol)] *)
Definition endpointString (vip : VirtualIP) : string :=
  spec_Address (vip_Spec vip) +:+ ":" +:+ pretty (spec_Port (vip_Spec vip)) +:+ "/"
    +:+ spec_Protocol (vip_Spec vip).

Definition servingCondition (vip : VirtualIP) (healthyBackends : nat) : Condition :=
  if bool_decide (0 < healthyBackends) then
    mkCondition ConditionServing ConditionTrue "BackendsHealthy"
      (pretty healthyBackends +:+ " healthy backend(s) available for " +:+ endpointString vip)
  else if bool_decide (spec_Backends (vip_Spec vip) = []) then
    mkCondition ConditionServing ConditionFalse "NoBackends"
      ("No backends configured for " +:+ endpointString vip)
  else
    mkCondition ConditionServing ConditionFalse "NoHealthyBackends"
      ("No healthy backends available for " +:+ endpointString vip).

(** The conditions below are built from errors that are never nil at their
    call sites. *)
Definition servingDataPlaneApplyFailedCondition (e : err) : Condition :=
  mkCondition ConditionServing ConditionUnknown "DataPlaneApplyFailed" (errString e).
Definition dataPlaneAppliedCondition : Condition :=
  mkCondition ConditionDataPlaneReady ConditionTrue "Applied"
    "Desired VIP is applied to the data plane".
Definition dataPlaneApplyFailedCondition (e : err) : Condition :=
  mkCondition ConditionDataPlaneReady ConditionFalse "DataPlaneApplyFailed" (errString e).
Definition retainedOldVIPServingCondition (e : err) : Condition :=
  mkCondition ConditionServing ConditionUnknown "RetainedOldVIP" (errString e).
Definition retainedOldVIPDataPlaneCondition (e : err) : Condition :=
  mkCondition ConditionDataPlaneReady ConditionFalse "RetainedOldVIP" (errString e).
Definition lastConfigPersistFailedCondition (e : err) : Condition :=
  mkCondition ConditionServing ConditionUnknown "LastConfigPersistFailed" (errString e).

Definition tuningDriftRepairBlockedCondition (vip : VirtualIP) (drifts : list Vpp.VIPTuningDrift)
    : Condition :=
  let message := "Retained VIP tuning drift repair for " +:+ spec_Address (vip_Spec vip)
                   +:+ " is blocked until the shared address can drain" in
  mkCondition ConditionDataPlaneReady ConditionFalse "TuningDriftRepairBlocked"
    (if bool_decide (0 < length drifts)
     then message +:+ " (" +:+ pretty (length drifts) +:+ " drift(s) pending)" else message).

Definition routeAdvertisedCondition (vip : VirtualIP) (adv : bool) (routeErr : error) : Condition :=
  match routeErr with
  | Some e => mkCondition ConditionRouteAdvertised ConditionUnknown "RouteUpdateFailed" (errString e)
  | None =>
      if adv then
        mkCondition ConditionRouteAdvertised ConditionTrue "Advertised"
          ("VIP address " +:+ spec_Address (vip_Spec vip) +:+ " is advertised by this node")
      else
        mkCondition ConditionRouteAdvertised ConditionFalse "NotAdvertised"
          ("VIP address " +:+ spec_Address (vip_Spec vip) +:+ " is not advertised by this node")
  end.

(** ** Rollout keys *)
Definition rolloutKeyForAddress (address : string) : string := "vip-address/" +:+ address.

(** The loop: skip empty addresses and keys already seen. *)
Fixpoint collectRolloutKeys (addresses : list string) (keys : list string) : list string :=
  match addresses with
  | [] => keys
  | address :: rest =>
      if bool_decide (address = "") then collectRolloutKeys rest keys
      else
        let key := rolloutKeyForAddress address in
        if bool_decide (key ∈ keys) then collectRolloutKeys rest keys
        else collectRolloutKeys rest (keys ++ [key])
  end.
Definition rolloutKeysForAddresses (addresses : list string) : list string :=
  merge_sort String.le (collectRolloutKeys addresses []).

(** ** The environment *)

(** The collaborators that are neither router, data plane nor store.
    [RunExclusive] is [beginExclusive] (wait for the lease, or fail), the
    function, and [endExclusive], which releases and gives the error of the
    whole. *)
Class Env (S : Type) := {
  UpdateVIPStatus : VirtualIP → list BackendSpec → list Condition → ST S error;
  HealthyBackends : string → list BackendSpec → S → list BackendSpec;
  beginExclusive : string → ST S error;
  endExclusive : string → error → ST S error;
  timerOrDone : Z → ST S error;
  readCurrent : S → option VirtualIP;
}.

(** [World R D B S]: the field [applied] of the reconciler, the coordinator
    with its router, the data plane, the store and the rest. *)
Record World (R D B S : Type) := MkWorld {
  w_applied : option VirtualIP;
  w_routes : RC * R;
  w_dp : D;
  w_db : B;
  w_env : S;
}.
#[global] Arguments MkWorld {R D B S}.
#[global] Arguments w_applied {R D B S}.
#[global] Arguments w_routes {R D B S}.
#[global] Arguments w_dp {R D B S}.
#[global] Arguments w_db {R D B S}.
#[global] Arguments w_env {R D B S}.

Record vipUpdatePlan := { rolloutKeys : list string; drainBeforeApply : bool }.

Record tuningDriftRepairResult := {
  rr_routeAdvertised : bool;
  rr_routeErr : error;
  rr_routeStateKnown : bool;
  rr_retainedOldVIP : bool;
  rr_drainReleased : bool;
  rr_blocked : bool;
}.
Definition zeroRepair : tuningDriftRepairResult :=
  {| rr_routeAdvertised := false; rr_routeErr := None; rr_routeStateKnown := false;
     rr_retainedOldVIP := false; rr_drainReleased := false; rr_blocked := false |}.

(** ** Operations *)
Section Operations.
Context {R D B S : Type}.
Context `{!Router R} `{!Clock R} `{!DataPlane D} `{!Store.Bolt B} `{!Codec VirtualIPSpec} `{!Env S}.
Abbreviation world := (World R D B S).
Abbreviation prog := (PG world).
Variable vr : VRConfig.
Variable fuel : nat.

Definition onRoutes {A} (m : PG (RC * R) A) : prog A := λ w,
  match m (w_routes w) with
  | Some (a, r) => Some (a, MkWorld (w_applied w) r (w_dp w) (w_db w) (w_env w))
  | None => None
  end.
Definition onDp {A} (m : ST D A) : prog A := λ w,
  let '(a, d) := m (w_dp w) in Some (a, MkWorld (w_applied w) (w_routes w) d (w_db w) (w_env w)).
Definition onDb {A} (m : ST B A) : prog A := λ w,
  let '(a, b) := m (w_db w) in Some (a, MkWorld (w_applied w) (w_routes w) (w_dp w) b (w_env w)).
Definition onEnv {A} (m : ST S A) : prog A := λ w,
  let '(a, s) := m (w_env w) in Some (a, MkWorld (w_applied w) (w_routes w) (w_dp w) (w_db w) s).
Definition asks {A} (f : world → A) : prog A := λ w, Some (f w, w).

Definition routeSetServing (vip : VirtualIP) (srv : bool) : prog (bool * error) :=
  onRoutes (SetServing (vr_routes vr) fuel (vr_key vr) (spec_Address (vip_Spec vip)) srv).
Definition routeFinishDrain (vip : VirtualIP) : prog (bool * error) :=
  onRoutes (FinishDrain (vr_routes vr) fuel (vr_key vr) (spec_Address (vip_Spec vip))).

(** [if vr.statusUpdater != nil { ... UpdateVIPStatus(...) }]; an error is only
    logged. *)
Definition report (vip : VirtualIP) (healthyBackends : list BackendSpec)
    (conditions : list Condition) : prog unit :=
  if vr_hasStatusUpdater vr then
    _ ← onEnv (UpdateVIPStatus vip healthyBackends conditions); mret tt
  else mret tt.

Definition sleepContext (d : Z) : prog error :=
  if (d <=? 0)%Z then mret None else onEnv (timerOrDone d).

Definition setLastAppliedVIP (vip : option VirtualIP) : prog unit := λ w,
  Some (tt, MkWorld vip (w_routes w) (w_dp w) (w_db w) (w_env w)).

Definition persistPendingConfig (vip : VirtualIP) : prog error :=
  if negb (vr_hasStore vr) then mret None
  else
    match marshal (vip_Spec vip) with
    | inl e => mret (Some (errorf "failed to encode pending config: " e))
    | inr data =>
        r ← onDb (Store.SavePendingConfig (vr_key vr) data);
        mret (match r with
              | Some e => Some (errorf "failed to save pending config: " e)
              | None => None end)
    end.

Definition commitLastConfig (vip : VirtualIP) : prog error :=
  if negb (vr_hasStore vr) then mret None
  else
    match marshal (vip_Spec vip) with
    | inl e => mret (Some (errorf "failed to encode last config: " e))
    | inr data =>
        r ← onDb (Store.CommitLastConfig (vr_key vr) data);
        mret (match r with
              | Some e => Some (errorf "failed to commit last config: " e)
              | None => None end)
    end.

Definition withSpec (template : VirtualIP) (spec : VirtualIPSpec) : VirtualIP :=
  {| vip_Namespace := vip_Namespace template; vip_Name := vip_Name template;
     vip_UID := vip_UID template; vip_Generation := vip_Generation template;
     vip_DeletionTimestamp := vip_DeletionTimestamp template;
     vip_Spec := spec; vip_Status := vip_Status template |}.

Definition lastAppliedVIP (template : VirtualIP) : prog (option VirtualIP * error) :=
  cached ← asks w_applied;
  match cached with
  | Some vip => mret (Some vip, None)
  | None =>
      if negb (vr_hasStore vr) then mret (None, None)
      else
        r ← onDb (Store.LoadLastConfig (vr_key vr));
        match r.2 with
        | Some e => mret (None, Some e)
        | None =>
            if bool_decide (r.1 = "") then mret (None, None)
            else
              match unmarshal r.1 with
              | inl e => mret (None, Some (errorf ("failed to decode last-applied config for "
                                                     +:+ vr_key vr +:+ ": ") e))
              | inr spec =>
                  let vip := withSpec template spec in
                  _ ← setLastAppliedVIP (Some vip);
                  mret (Some vip, None)
              end
        end
  end.

Definition releaseUpdateDrain (vip : VirtualIP) (srv : bool) : prog (bool * error) :=
  r ← routeSetServing vip srv;
  match r.2 with
  | Some e => mret (r.1, Some e)
  | None => r ← routeFinishDrain vip; mret (r.1, r.2)
  end.

Definition isCurrent (vip : VirtualIP) (s : S) : bool :=
  match readCurrent s with
  | None => false
  | Some current => bool_decide (vip_UID current = vip_UID vip)
                    && (vip_Generation current =? vip_Generation vip)%Z
  end.

(** ** Planning *)
Definition needsDrainForVIPUpdate (vip : VirtualIP) : prog (bool * error) :=
  match dpNeedsDrainForVIPUpdate with
  | None => mret (false, None)
  | Some check =>
      r ← lastAppliedVIP vip;
      match r with
      | (_, Some e) => mret (false, Some e)
      | (None, None) => mret (false, None)
      | (Some prev, None) =>
          if bool_decide (spec_Address (vip_Spec prev) ≠ spec_Address (vip_Spec vip))
          then mret (false, None)
          else mret (check prev vip)
      end
  end.

Definition needsDrainForRetainedVIP (vip : VirtualIP) : prog (bool * error) :=
  match dpNeedsDrainForRetainedVIP with
  | None => mret (false, None)
  | Some check => onDp (check vip)
  end.

Definition planVIPUpdate (vip : VirtualIP) : prog (vipUpdatePlan * error) :=
  let address := spec_Address (vip_Spec vip) in
  let drainPlan := {| rolloutKeys := rolloutKeysForAddresses [address]; drainBeforeApply := true |} in
  change ← asks (λ w, pendingAddressChange (vr_routes vr) (vr_key vr) address (w_routes w).1);
  let '(previousAddress, pending) := (change : string * bool) in
  if pending then
    mret ({| rolloutKeys := rolloutKeysForAddresses [previousAddress; address];
             drainBeforeApply := false |}, None)
  else
    r ← needsDrainForVIPUpdate vip;
    match r with
    | (_, Some e) => mret (drainPlan, Some e)
    | (true, None) => mret (drainPlan, None)
    | (false, None) =>
        r ← needsDrainForRetainedVIP vip;
        match r with
        | (_, Some e) => mret (drainPlan, Some e)
        | (true, None) => mret (drainPlan, None)
        | (false, None) => mret ({| rolloutKeys := []; drainBeforeApply := false |}, None)
        end
    end.

(** [run] nests one [RunExclusive] per key; [zero] is what the caller's
    captured result holds when [fn] does not run. *)
Fixpoint runExclusiveKeys {A} (keys : list string) (zero : A) (fn : prog (A * error))
    : prog (A * error) :=
  match keys with
  | [] => fn
  | key :: keys =>
      e ← onEnv (beginExclusive key);
      match e with
      | Some e => mret (zero, Some e)
      | None =>
          r ← runExclusiveKeys keys zero fn;
          e ← onEnv (endExclusive key r.2);
          mret (r.1, e)
      end
  end.
Definition runExclusiveRollouts {A} (keys : list string) (zero : A) (fn : prog (A * error))
    : prog (A * error) :=
  if negb (vr_hasRollouts vr) then fn else runExclusiveKeys keys zero fn.

(** ** Tuning drift *)
Definition dataplaneTuningDrifts (d : D) : list Vpp.VIPTuningDrift :=
  match dpTuningDrifts with None => [] | Some f => f (vr_key vr) d end.

Definition releaseDrain (vip : VirtualIP) (srv : bool) (retErr : err)
    : prog (tuningDriftRepairResult * error) :=
  r ← releaseUpdateDrain vip srv;
  let result := {| rr_routeAdvertised := r.1; rr_routeErr := r.2; rr_routeStateKnown := true;
                   rr_retainedOldVIP := false; rr_drainReleased := true; rr_blocked := false |} in
  mret (result,
        match r.2 with
        | Some releaseErr =>
            Some (ErrWrap "" retErr ("; additionally failed to release route drain: "
                                       +:+ errString releaseErr))
        | None => Some retErr
        end).

(** [repairTuningDrift] once the rollout is held (or none is needed). *)
Definition repairTuningDrift_held (vip : VirtualIP) (healthyBackends : list BackendSpec)
    (hasHealthy : bool) : prog (tuningDriftRepairResult * error) :=
  let cfg := normalizeTuningDriftConfig (vr_tuningDrift vr) in
  match dpRecreateVIP with
  | None => mret (zeroRepair, Some (ErrMsg "dataplane does not support VIP recreation"))
  | Some recreate =>
      r ← onRoutes (BeginDrain (vr_routes vr) fuel (vr_key vr) (spec_Address (vip_Spec vip)));
      match r with
      | (_, Some e) =>
          mret ({| rr_routeAdvertised := false; rr_routeErr := Some e; rr_routeStateKnown := true;
                   rr_retainedOldVIP := false; rr_drainReleased := false; rr_blocked := false |},
                Some (errorf "failed to drain route before VIP recreate: " e))
      | (false, None) =>
          mret ({| rr_routeAdvertised := false; rr_routeErr := None; rr_routeStateKnown := false;
                   rr_retainedOldVIP := false; rr_drainReleased := false; rr_blocked := true |}, None)
      | (true, None) =>
          slept ← (if hasHealthy then sleepContext (DrainDuration cfg) else mret None);
          match slept with
          | Some e => releaseDrain vip hasHealthy e
          | None =>
              e ← onDp (recreate vip healthyBackends);
              match e with
              | Some e =>
                  let restoreRoute := hasHealthy && Vpp.RouteSafeToRestoreAfterVIPRecreate e in
                  r ← releaseDrain vip restoreRoute (errorf "failed to recreate VIP: " e);
                  let '(result, retErr) := r in
                  mret ({| rr_routeAdvertised := rr_routeAdvertised result;
                           rr_routeErr := rr_routeErr result;
                           rr_routeStateKnown := rr_routeStateKnown result;
                           rr_retainedOldVIP :=
                             restoreRoute && bool_decide (rr_routeErr result = None)
                             && rr_routeAdvertised result;
                           rr_drainReleased := rr_drainReleased result;
                           rr_blocked := rr_blocked result |}, retErr)
              | None =>
                  r ← routeFinishDrain vip;
                  mret ({| rr_routeAdvertised := r.1; rr_routeErr := r.2;
                           rr_routeStateKnown := true; rr_retainedOldVIP := false;
                           rr_drainReleased := true; rr_blocked := false |},
                        match r.2 with
                        | Some e => Some (errorf "failed to release route drain after VIP recreate: " e)
                        | None => None
                        end)
              end
          end
      end
  end.

Definition repairTuningDrift (vip : VirtualIP) (healthyBackends : list BackendSpec)
    (hasHealthy rolloutHeld : bool) : prog (tuningDriftRepairResult * error) :=
  let cfg := normalizeTuningDriftConfig (vr_tuningDrift vr) in
  if bool_decide (Policy cfg = TuningDriftPolicyPreserve) then mret (zeroRepair, None)
  else if vr_hasRollouts vr && negb rolloutHeld then
    runExclusiveRollouts (rolloutKeysForAddresses [spec_Address (vip_Spec vip)]) zeroRepair
      (current ← asks (λ w, isCurrent vip (w_env w));
       match (current : bool) with
       | false => mret (zeroRepair, None)
       | true => repairTuningDrift_held vip healthyBackends hasHealthy
       end)
  else repairTuningDrift_held vip healthyBackends hasHealthy.

(** ** Applying

    [reconcileApplied], from its end to its beginning: each part continues
    with the one above it. *)

(** The whole update went through: serve the route and end the drain. *)
Definition reconcileApplied_serve (vip : VirtualIP) (healthyBackends : list BackendSpec)
    (hasHealthy drainHeld : bool) : prog unit :=
  r ← routeSetServing vip hasHealthy;
  r ← (match r.2 with
       | None => if drainHeld then routeFinishDrain vip else mret r
       | Some _ => mret r
       end);
  report vip healthyBackends
    [servingCondition vip (length healthyBackends); dataPlaneAppliedCondition;
     routeAdvertisedCondition vip r.1 r.2].

(** Tuning drift recorded by the apply. *)
Definition reconcileApplied_drifts (vip : VirtualIP) (healthyBackends : list BackendSpec)
    (hasHealthy rolloutHeld drainHeld routeAdvertised : bool) (routeErr : error) : prog unit :=
  drifts ← asks (λ w, dataplaneTuningDrifts (w_dp w));
  match (drifts : list Vpp.VIPTuningDrift) with
  | [] => reconcileApplied_serve vip healthyBackends hasHealthy drainHeld
  | _ =>
      rep ← repairTuningDrift vip healthyBackends hasHealthy rolloutHeld;
      let '(result, e) := (rep : tuningDriftRepairResult * error) in
      if rr_blocked result then
        r ← (if drainHeld && negb (rr_drainReleased result)
             then releaseUpdateDrain vip hasHealthy
             else routeSetServing vip hasHealthy);
        report vip healthyBackends
          [servingCondition vip (length healthyBackends);
           tuningDriftRepairBlockedCondition vip drifts;
           routeAdvertisedCondition vip r.1 r.2]
      else
        match e with
        | None => reconcileApplied_serve vip healthyBackends hasHealthy drainHeld
        | Some e =>
            let known := if rr_routeStateKnown result
                         then (rr_routeAdvertised result, rr_routeErr result)
                         else (routeAdvertised, routeErr) in
            r ← (if drainHeld && negb (rr_drainReleased result)
                 then releaseUpdateDrain vip false else mret known);
            report vip healthyBackends
              [if rr_retainedOldVIP result then retainedOldVIPServingCondition e
               else servingDataPlaneApplyFailedCondition e;
               if rr_retainedOldVIP result then retainedOldVIPDataPlaneCondition e
               else dataPlaneApplyFailedCondition e;
               routeAdvertisedCondition vip r.1 r.2]
        end
  end.

Definition reconcileApplied_commit (vip : VirtualIP) (healthyBackends : list BackendSpec)
    (hasHealthy rolloutHeld drainHeld routeAdvertised : bool) : prog unit :=
  e ← commitLastConfig vip;
  match e with
  | Some e =>
      r ← (if drainHeld then releaseUpdateDrain vip false else mret (routeAdvertised, None));
      report vip healthyBackends
        [lastConfigPersistFailedCondition e; routeAdvertisedCondition vip r.1 r.2]
  | None =>
      _ ← setLastAppliedVIP (Some vip);
      reconcileApplied_drifts vip healthyBackends hasHealthy rolloutHeld drainHeld routeAdvertised None
  end.

Definition reconcileApplied_apply (vip : VirtualIP) (healthyBackends : list BackendSpec)
    (hasHealthy rolloutHeld drainHeld routeAdvertised : bool) : prog unit :=
  e ← onDp (dpApplyVIP vip healthyBackends);
  match e with
  | Some e =>
      r ← (if drainHeld then releaseUpdateDrain vip false else routeSetServing vip false);
      report vip healthyBackends
        [servingDataPlaneApplyFailedCondition e; dataPlaneApplyFailedCondition e;
         routeAdvertisedCondition vip r.1 r.2]
  | None =>
      reconcileApplied_commit vip healthyBackends hasHealthy rolloutHeld drainHeld routeAdvertised
  end.

(** [if drainBeforeApply { ... }] *)
Definition reconcileApplied_drain (vip : VirtualIP) (healthyBackends : list BackendSpec)
    (hasHealthy rolloutHeld : bool) : prog unit :=
  let address := spec_Address (vip_Spec vip) in
  r ← onRoutes (BeginAddressDrain (vr_routes vr) fuel (vr_key vr) address);
  match r with
  | (_, Some e) =>
      report vip healthyBackends
        [servingCondition vip (length healthyBackends); routeAdvertisedCondition vip false (Some e)]
  | (false, None) =>
      report vip healthyBackends
        [servingCondition vip (length healthyBackends);
         routeAdvertisedCondition vip false
           (Some (ErrMsg ("VIP address " +:+ address +:+ " is already draining for another VIP")))]
  | (true, None) =>
      slept ← (if hasHealthy
               then sleepContext (DrainDuration (normalizeTuningDriftConfig (vr_tuningDrift vr)))
               else mret None);
      match slept with
      | Some e =>
          r ← releaseUpdateDrain vip false;
          report vip healthyBackends
            [servingDataPlaneApplyFailedCondition e; dataPlaneApplyFailedCondition e;
             routeAdvertisedCondition vip r.1 r.2]
      | None => reconcileApplied_apply vip healthyBackends hasHealthy rolloutHeld true false
      end
  end.

Definition reconcileApplied (vip : VirtualIP) (healthyBackends : list BackendSpec)
    (hasHealthy rolloutHeld drain : bool) : prog unit :=
  e ← persistPendingConfig vip;
  match e with
  | Some e =>
      report vip healthyBackends
        [lastConfigPersistFailedCondition e; routeAdvertisedCondition vip false None]
  | None =>
      r ← onRoutes (prepareAddressChange (vr_routes vr) fuel (vr_key vr)
                      (spec_Address (vip_Spec vip)));
      match r.2 with
      | Some e =>
          report vip healthyBackends
            [servingCondition vip (length healthyBackends); routeAdvertisedCondition vip r.1 (Some e)]
      | None =>
          if drain then reconcileApplied_drain vip healthyBackends hasHealthy rolloutHeld
          else reconcileApplied_apply vip healthyBackends hasHealthy rolloutHeld false r.1
      end
  end.

Definition reconcile : prog unit :=
  current ← asks (λ w, readCurrent (w_env w));
  match (current : option VirtualIP) with
  | None => mret tt
  | Some vip =>
      healthyBackends ← asks (λ w,
        match spec_HealthCheck (vip_Spec vip) with
        | Some _ => if vr_hasHealthTracker vr
                    then HealthyBackends (vr_key vr) (spec_Backends (vip_Spec vip)) (w_env w)
                    else spec_Backends (vip_Spec vip)
        | None => spec_Backends (vip_Spec vip)
        end);
      let hasHealthy := bool_decide (0 < length (healthyBackends : list BackendSpec)) in
      p ← planVIPUpdate vip;
      let plan := (p : vipUpdatePlan * error).1 in
      if vr_hasRollouts vr && bool_decide (0 < length (rolloutKeys plan)) then
        _ ← runExclusiveRollouts (rolloutKeys plan) tt
              (current ← asks (λ w, isCurrent vip (w_env w));
               match (current : bool) with
               | false => mret (tt, None)
               | true =>
                   _ ← reconcileApplied vip healthyBackends hasHealthy true (drainBeforeApply plan);
                   mret (tt, None)
               end);
        mret tt
      else reconcileApplied vip healthyBackends hasHealthy false (drainBeforeApply plan)
  end.

(** ** Deletion *)
Definition handleDelete (vip : VirtualIP) : prog bool :=
  r ← onRoutes (Delete (vr_routes vr) fuel (vr_key vr) (spec_Address (vip_Spec vip)));
  cleanupFailed ← (match (r : bool * error).2 with
                   | Some _ => mret true
                   | None => e ← onDp (dpRemoveVIP vip);
                             mret (match e with Some _ => true | None => false end)
                   end);
  match (cleanupFailed : bool) with
  | true => mret false
  | false =>
      if vr_hasStore vr then
        _ ← onDb (Store.DeleteLastConfig (vr_key vr));
        _ ← onDb (Store.DeletePendingConfig (vr_key vr));
        _ ← onDb (Store.DeleteHealthStatesForVIP (vr_key vr));
        mret true
      else mret true
  end.

End Operations.

(** ** What the environment does to the status

    [reported] is the list of status updates sent, latest first; only
    [UpdateVIPStatus] adds to it. *)
Class EnvLaws (S : Type) `{Env S} := {
  reported : S → list (VirtualIP * list Condition);
  report_logged : ∀ vip hb cs s r s', UpdateVIPStatus vip hb cs s = (r, s') →
    reported s' = (vip, cs) :: reported s;
  begin_silent : ∀ key s r s', beginExclusive key s = (r, s') → reported s' = reported s;
  end_silent : ∀ key e s r s', endExclusive key e s = (r, s') → reported s' = reported s;
  end_keeps_error : ∀ key x s r s', endExclusive key (Some x) s = (r, s') → r = Some x;
  timer_silent : ∀ d s r s', timerOrDone d s = (r, s') → reported s' = reported s;
}.

(** The conditions that claim success. *)
Definition claims (type : string) (cs : list Condition) : bool :=
  existsb (λ cd, bool_decide (cond_Type cd = type) && bool_decide (cond_Status cd = ConditionTrue)) cs.

Lemma claims_cons type cd cs :
  claims type (cd :: cs) = true →
  (cond_Type cd = type ∧ cond_Status cd = ConditionTrue) ∨ claims type cs = true.
Proof.
  simpl. rewrite orb_true_iff, andb_true_iff, !bool_decide_eq_true. tauto.
Qed.
Lemma claims_nil type : claims type [] = true → False.
Proof. done. Qed.

Lemma servingCondition_type vip n : cond_Type (servingCondition vip n) = ConditionServing.
Proof. unfold servingCondition. by repeat case_bool_decide. Qed.
Lemma routeCondition_type vip adv e :
  cond_Type (routeAdvertisedCondition vip adv e) = ConditionRouteAdvertised.
Proof. destruct e, adv; done. Qed.
Lemma routeCondition_true vip adv e :
  cond_Status (routeAdvertisedCondition vip adv e) = ConditionTrue → adv = true ∧ e = None.
Proof. destruct e, adv; done. Qed.

(** Discharge a claim made by none of a list of conditions. *)
Ltac no_claim H :=
  let Hs := fresh "Hs" in
  repeat (apply claims_cons in H as [[H Hs]|H];
    [rewrite ?servingCondition_type, ?routeCondition_type in H;
     first [discriminate H | discriminate Hs]|]);
  try (by apply claims_nil in H).

Section Properties.
Context {R D B S : Type}.
Context `{!Router R} `{!Clock R} `{!DataPlane D} `{!Store.Bolt B} `{!Codec VirtualIPSpec} `{!Env S}.
Context `{!RouterLaws R} `{!DataPlaneLaws D} `{!EnvLaws S}.
Variable vr : VRConfig.
Variable fuel : nat.
Variable vip : VirtualIP.
Variable hb : list BackendSpec.
Abbreviation world := (World R D B S).
Abbreviation k := (vr_key vr).
Abbreviation a := (spec_Address (vip_Spec vip)).
Hypothesis Hk : vr_key vr ≠ "".
Hypothesis Hrt : hasRouter (vr_routes vr) = true.
Hypothesis Ha : spec_Address (vip_Spec vip) ≠ "".
Hypothesis Hkey : namespacedKey vip = vr_key vr.
Implicit Types w : world.

(** The VIP serves; the data plane has this VIP with these backends; it
    forwards the VIP to somewhere. *)
Definition servesW w : Prop := serves k (w_routes w).1.
Definition announcedW w : Prop := IsAnnounced (w_routes w).2 a = true.
Definition appliedW w : Prop := dpApplied (w_dp w) k = Some (vip, Vpp.backendsByAddress hb).
Definition forwardsW w : Prop :=
  ∃ v bks, dpApplied (w_dp w) k = Some (v, bks) ∧ bks ≠ ∅.

(** The route is never offered without a data plane behind it. *)
Definition backed w : Prop := servesW w → forwardsW w.

(** Between reconciles: the coordinator is well-formed and the VIP holds no
    drain. *)
Definition idle w : Prop := WF (w_routes w) ∧ no_drain None k (w_routes w).1.

(** Inside one, with the VIP at its address and a drain held or not. *)
Definition phase (h : bool) w : Prop :=
  WF (w_routes w) ∧ at_home k a (w_routes w).1 ∧
  if h then drained k a (w_routes w) ∧ no_drain (Some a) k (w_routes w).1
  else no_drain None k (w_routes w).1.

Lemma phase_idle w : phase false w → idle w.
Proof. intros (W & _ & Hn). by split. Qed.

Lemma phase_routes h w w' : w_routes w' = w_routes w → phase h w → phase h w'.
Proof. unfold phase. by intros ->. Qed.

(** Route calls touch nothing else. *)
Definition route_only w w' : Prop :=
  w_dp w' = w_dp w ∧ w_db w' = w_db w ∧ w_env w' = w_env w ∧ w_applied w' = w_applied w.

Lemma onRoutes_inv {A} (m : PG (RC * R) A) r w w' :
  onRoutes m w = Some (r, w') → m (w_routes w) = Some (r, w_routes w') ∧ route_only w w'.
Proof.
  unfold onRoutes. destruct (m (w_routes w)) as [[r0 s0]|]; [|done]. by intros [= -> <-].
Qed.

Lemma SetServing_phase h b r w w' :
  phase h w → routeSetServing vr fuel vip b w = Some (r, w') →
  phase h w' ∧ route_only w w' ∧ (servesW w' ↔ b = true) ∧ (h = true → r = (false, None)) ∧
  (r = (true, None) → announcedW w').
Proof.
  intros (W & Hh & Hd) [Hr Ho]%onRoutes_inv.
  pose proof (runOp_WF (vr_routes vr) fuel (OpSetServing k a b) _ _ _ W Hr) as W'.
  destruct (SetServing_home _ _ _ _ _ _ _ _ W Hrt Ha Hh Hr) as [Hh' Hs].
  split_and!; try done; [split_and!; try done| |].
  - destruct h.
    + destruct Hd as [Hd Hn]. by destruct (SetServing_drained _ _ _ _ _ _ _ _ Hk W Hrt Ha Hd Hn Hr) as (_ & ? & ?).
    + eapply (sections_no_drain _ (None, b)); [done|exact W| |exact Hd].
      by apply (runOp_sections _ fuel (OpSetServing k a b) r).
  - intros ->. destruct Hd as [Hd Hn].
    by destruct (SetServing_drained _ _ _ _ _ _ _ _ Hk W Hrt Ha Hd Hn Hr) as (-> & _).
  - intros ->. exact (SetServing_answers _ _ _ _ _ _ _ W Hrt Ha Hr).
Qed.

Lemma FinishDrain_phase h r w w' :
  phase h w → routeFinishDrain vr fuel vip w = Some (r, w') →
  phase false w' ∧ route_only w w' ∧ (servesW w' ↔ servesW w) ∧ (r = (true, None) → announcedW w').
Proof.
  intros (W & Hh & Hd) [Hr Ho]%onRoutes_inv.
  pose proof (runOp_WF (vr_routes vr) fuel (OpFinishDrain k a) _ _ _ W Hr) as W'.
  split_and!; try done; [split_and!; try done| |].
  - exact (FinishDrain_home _ _ _ _ _ _ _ W Hh Hr).
  - eapply FinishDrain_no_drain; [done|exact W|done|exact Ha| |exact Hr].
    destruct h; [by destruct Hd|by apply no_drain_weaken].
  - exact (FinishDrain_serves _ _ _ _ _ _ _ W Hr).
  - intros ->. exact (FinishDrain_answers _ _ _ _ _ _ W Hr).
Qed.

Lemma route_only_trans w1 w2 w3 : route_only w1 w2 → route_only w2 w3 → route_only w1 w3.
Proof. unfold route_only. intuition congruence. Qed.

Lemma releaseUpdateDrain_phase h b r w w' :
  phase h w → releaseUpdateDrain vr fuel vip b w = Some (r, w') →
  phase false w' ∧ route_only w w' ∧ (servesW w' ↔ b = true) ∧ (r = (true, None) → announcedW w').
Proof.
  intros Hp Hx. unfold releaseUpdateDrain in Hx. step Hx as r1 w1 H1.
  destruct (SetServing_phase _ _ _ _ _ Hp H1) as (Hp1 & Ho1 & Hs1 & Hh & _).
  destruct r1 as [adv [x|]]; simpl in Hx.
  - step_ret Hx. destruct h; [by specialize (Hh eq_refl)|]. split_and!; done.
  - step Hx as r2 w2 H2. step_ret Hx.
    destruct (FinishDrain_phase _ _ _ _ Hp1 H2) as (Hp2 & Ho2 & Hs2 & Ht).
    destruct r2; simpl in *. split_and!; try done; [by eapply route_only_trans|].
    by rewrite Hs2.
Qed.

(** What a drain request leaves behind. *)
Lemma beginDrain_phase h force r w w' :
  phase h w → onRoutes (beginDrain (vr_routes vr) fuel k a force) w = Some (r, w') →
  route_only w w' ∧
  match r with
  | (true, e) => e = None ∧ phase true w' ∧ ¬ servesW w'
  | (false, None) => phase h w'
  | (false, Some _) => h = false ∧ phase false w'
  end.
Proof.
  intros (W & Hh & Hd) [Hr Ho]%onRoutes_inv. split; [done|].
  assert (WF (w_routes w')) as W'.
  { destruct force; [apply (runOp_WF (vr_routes vr) fuel (OpBeginAddressDrain k a) r _ _ W)
                    |apply (runOp_WF (vr_routes vr) fuel (OpBeginDrain k a) r _ _ W)]; done. }
  pose proof (beginDrain_home _ _ _ _ _ _ _ _ W Hrt Ha Hh Hr) as Hh'.
  destruct h.
  - destruct Hd as [Hd Hn].
    destruct (beginDrain_again _ _ _ _ _ _ _ _ Hk W Hrt Ha Hd Hn Hr) as (He & Hd' & Hn').
    destruct r as [[|] [x|]]; simpl in He; try done. split_and!; try done.
    exact (beginDrain_stops_serving _ _ _ _ _ _ _ _ W Hrt Ha Hr).
  - pose proof (beginDrain_no_drain _ _ _ _ _ _ _ _ Hk W Hrt Ha Hd Hr) as Hn'.
    destruct r as [[|] er]; simpl in Hn'.
    + destruct (beginDrain_drained _ _ _ _ _ _ _ _ Hk W Hrt Ha Hr) as [-> Hd'].
      split_and!; try done. exact (beginDrain_stops_serving _ _ _ _ _ _ _ _ W Hrt Ha Hr).
    + destruct er; split_and!; done.
Qed.

(** *** Reporting *)

(** What a completed reconcile guarantees: no drain left; with healthy
    backends, a route only with a data plane behind it; and one status update,
    whose claims of success are true.  [Pb] is the premise under which the
    route was backed at the start. *)
Variable Pb : Prop.
Definition outcome w0 w (hasHealthy : bool) : Prop :=
  idle w ∧
  (hasHealthy = true → Pb → backed w) ∧
  (vr_hasStatusUpdater vr = true →
   ∃ cs, reported (w_env w) = (vip, cs) :: reported (w_env w0) ∧
     (claims ConditionDataPlaneReady cs = true → appliedW w ∧ (servesW w ↔ hasHealthy = true)) ∧
     (claims ConditionRouteAdvertised cs = true → announcedW w)).

Lemma report_outcome w0 w w' hasHealthy cs :
  report vr vip hb cs w = Some (tt, w') →
  reported (w_env w) = reported (w_env w0) →
  idle w → (hasHealthy = true → Pb → backed w) →
  (claims ConditionDataPlaneReady cs = true → appliedW w ∧ (servesW w ↔ hasHealthy = true)) →
  (claims ConditionRouteAdvertised cs = true → announcedW w) →
  outcome w0 w' hasHealthy.
Proof.
  unfold report. intros Hx Hrep Hi Hb Hd Hr.
  destruct (vr_hasStatusUpdater vr) eqn:Hsu; [|step_ret Hx; unfold outcome; by rewrite Hsu].
  step Hx as r w1 H1. step_ret Hx. unfold onEnv in H1.
  destruct (UpdateVIPStatus vip hb cs (w_env w)) as [r0 s0] eqn:Hu. simplify_eq/=.
  split_and!; [done|done|]. intros _. exists cs. split_and!; [|done|done].
  simpl. by rewrite (report_logged _ _ _ _ _ _ Hu), Hrep.
Qed.

(** Steps that neither report nor touch routes, data plane or store. *)
Definition silent w w' : Prop :=
  w_routes w' = w_routes w ∧ w_dp w' = w_dp w ∧ w_db w' = w_db w ∧
  w_applied w' = w_applied w ∧ reported (w_env w') = reported (w_env w).

Lemma silent_refl w : silent w w.
Proof. done. Qed.
Lemma silent_trans w1 w2 w3 : silent w1 w2 → silent w2 w3 → silent w1 w3.
Proof. unfold silent. intuition congruence. Qed.

Lemma sleep_silent d r w w' : sleepContext d w = Some (r, w') → silent w w'.
Proof.
  unfold sleepContext. case_match; [intros Hx; by step_ret Hx|].
  unfold onEnv. destruct (timerOrDone d (w_env w)) as [r0 s0] eqn:Ht. intros [= -> <-].
  unfold silent. simpl. by rewrite (timer_silent _ _ _ _ Ht).
Qed.

Lemma begin_silent' key r w w' : onEnv (beginExclusive key) w = Some (r, w') → silent w w'.
Proof.
  unfold onEnv. destruct (beginExclusive key (w_env w)) as [r0 s0] eqn:Ht. intros [= -> <-].
  unfold silent. simpl. by rewrite (begin_silent _ _ _ _ Ht).
Qed.
Lemma end_silent' key e r w w' : onEnv (endExclusive key e) w = Some (r, w') → silent w w'.
Proof.
  unfold onEnv. destruct (endExclusive key e (w_env w)) as [r0 s0] eqn:Ht. intros [= -> <-].
  unfold silent. simpl. by rewrite (end_silent _ _ _ _ _ Ht).
Qed.

(** Under exclusive rollouts, the function ran once between silent steps, or
    it did not run and the result is the zero value with an error. *)
Lemma runExclusive_inv {A} keys (zero : A) (fn : PG world (A * error)) r w w' :
  runExclusiveRollouts vr keys zero fn w = Some (r, w') →
  (silent w w' ∧ r.1 = zero ∧ r.2 ≠ None) ∨
  (∃ w1 e w2, silent w w1 ∧ fn w1 = Some ((r.1, e), w2) ∧ silent w2 w' ∧ (r.2 = None → e = None)).
Proof.
  unfold runExclusiveRollouts. destruct (negb _).
  { intros Hx. right. destruct r as [x e]. exists w, e, w'. by split_and!. }
  revert r w w'. induction keys as [|key keys IH]; intros r w w' Hx; simpl in Hx.
  { right. destruct r as [x e]. exists w, e, w'. by split_and!. }
  step Hx as b w1 H1. apply begin_silent' in H1. destruct b as [x|].
  { step_ret Hx. by left. }
  step Hx as r1 w2 H2. step Hx as e w3 H3.
  assert (r1.2 ≠ None → e ≠ None) as Hkeep.
  { destruct r1 as [? [x|]]; [|done]. revert H3. unfold onEnv. simpl.
    destruct (endExclusive key (Some x) (w_env w2)) as [r0 s0] eqn:Ht. intros [= -> _].
    by rewrite (end_keeps_error _ _ _ _ _ Ht). }
  apply end_silent' in H3. step_ret Hx.
  destruct (IH _ _ _ H2) as [(Hs & Hz & He)|(wa & ea & wb & Ha1 & Hf & Ha2 & Hn)].
  - left. split_and!; [by eauto using silent_trans|done|by auto].
  - right. exists wa, ea, wb. split_and!; [eauto using silent_trans|done|eauto using silent_trans|].
    intros ->. destruct r1.2; [by destruct Hkeep|auto].
Qed.

(** *** Tuning drift repair *)
Variable hasHealthy : bool.
Hypothesis Hhh : hasHealthy = true → hb ≠ [].

Lemma applied_forwards w : appliedW w → hasHealthy = true → forwardsW w.
Proof.
  intros Hap Hh. exists vip, (Vpp.backendsByAddress hb). split; [done|].
  destruct hb as [|be bs] eqn:Hhb; [by destruct (Hhh Hh)|].
  intros He. assert (is_Some (Vpp.backendsByAddress (be :: bs) !! be_Address be)) as [? Hl].
  { apply Vpp.backendsByAddress_dom. simpl. set_solver. }
  rewrite He in Hl. by rewrite lookup_empty in Hl.
Qed.

Lemma backed_applied w : appliedW w → hasHealthy = true → Pb → backed w.
Proof. intros Hap Hh _ _. by apply applied_forwards. Qed.

Definition repaired (h : bool) w (r : tuningDriftRepairResult * error) w' : Prop :=
  phase (h && negb (rr_drainReleased r.1)) w' ∧
  reported (w_env w') = reported (w_env w) ∧
  (rr_blocked r.1 = true ∨ r.2 = None → appliedW w') ∧
  (hasHealthy = true → Pb → backed w') ∧
  (rr_routeStateKnown r.1 = true → (rr_routeAdvertised r.1, rr_routeErr r.1) = (true, None) →
   announcedW w') ∧
  (rr_routeStateKnown r.1 = false → rr_blocked r.1 = false → w_routes w' = w_routes w).

(** A repair that did nothing. *)
Lemma repaired_zero h w e w' :
  phase h w → appliedW w → silent w w' → repaired h w (zeroRepair, e) w'.
Proof.
  intros Hp Hap (Hr & Hd & _ & _ & He). unfold repaired, appliedW, backed, servesW, forwardsW.
  simpl. rewrite andb_true_r, Hr, Hd, He. split_and!; try done.
  - by eapply phase_routes.
  - intros Hh _ _. by apply applied_forwards.
Qed.

Lemma repaired_silent h w1 w2 w3 w4 r :
  silent w1 w2 → repaired h w2 r w3 → silent w3 w4 → repaired h w1 r w4.
Proof.
  intros (Hr1 & Hd1 & _ & _ & He1) (H1 & H2 & H3 & H4 & H5 & H6) (Hr2 & Hd2 & _ & _ & He2).
  unfold repaired, appliedW, backed, servesW, forwardsW, announcedW in *.
  rewrite Hr2, Hd2, He2, <- Hr1, <- He1. split_and!; try done. by eapply phase_routes.
Qed.

(** [releaseDrain] after a drain was taken. *)
Lemma releaseDrain_phase b retErr r w w' :
  phase true w → releaseDrain vr fuel vip b retErr w = Some (r, w') →
  phase false w' ∧ route_only w w' ∧ (servesW w' ↔ b = true) ∧ r.2 ≠ None ∧
  rr_drainReleased r.1 = true ∧ rr_blocked r.1 = false ∧ rr_routeStateKnown r.1 = true ∧
  ((rr_routeAdvertised r.1, rr_routeErr r.1) = (true, None) → announcedW w').
Proof.
  intros Hp Hx. unfold releaseDrain in Hx. step Hx as r1 w1 H1. step_ret Hx.
  destruct (releaseUpdateDrain_phase _ _ _ _ _ Hp H1) as (? & ? & ? & Ht).
  split_and!; try done; [by destruct r1 as [? []]|]. intros [= E1 E2]. apply Ht.
  destruct r1; simpl in *; congruence.
Qed.

Lemma repair_held_outcome h r w w' :
  phase h w → appliedW w →
  repairTuningDrift_held vr fuel vip hb hasHealthy w = Some (r, w') → repaired h w r w'.
Proof.
  intros Hp Hap Hx. unfold repairTuningDrift_held in Hx.
  destruct dpRecreateVIP as [recreate|] eqn:Hrec.
  2:{ step_ret Hx. by apply repaired_zero. }
  step Hx as d w1 H1. unfold BeginDrain in H1.
  destruct (beginDrain_phase _ _ _ _ _ Hp H1) as (Ho & Hd).
  assert (appliedW w1 ∧ reported (w_env w1) = reported (w_env w)) as [Hap1 Hrep1].
  { destruct Ho as (E1 & _ & E2 & _). unfold appliedW. by rewrite E1, E2. }
  destruct d as [[|] [x|]].
  - by destruct Hd.
  - destruct Hd as (_ & Hp1 & Hns). step Hx as sl w2 H2.
    assert (silent w1 w2) as Hs2.
    { destruct hasHealthy; [by eapply sleep_silent|by step_ret H2]. }
    assert (phase true w2) as Hp2 by (by eapply phase_routes; [apply Hs2|]).
    assert (appliedW w2 ∧ reported (w_env w2) = reported (w_env w)) as [Hap2 Hrep2].
    { destruct Hs2 as (_ & E1 & _ & _ & E2). unfold appliedW. by rewrite E1, E2. }
    destruct sl as [x|].
    + destruct (releaseDrain_phase _ _ _ _ _ Hp2 Hx)
        as (Hp3 & (E1 & _ & E2 & _) & Hs & He & Hrl & Hbl & Hkn & Ht).
      unfold repaired. rewrite Hrl, Hbl, Hkn, andb_false_r, E2. split_and!; try done.
      * by intros [|].
      * intros Hh HP. apply backed_applied; [|done..]. unfold appliedW. by rewrite E1.
    + step Hx as e w3 H3. unfold onDp in H3.
      destruct (recreate vip hb (w_dp w2)) as [e0 d3] eqn:Hrc. simplify_eq/=.
      set (w3 := MkWorld _ _ _ _ _) in *.
      assert (phase true w3) as Hp3 by (by eapply phase_routes).
      destruct e as [x|].
      * step Hx as r2 w4 H4. destruct r2 as [res re]. step_ret Hx.
        destruct (releaseDrain_phase _ _ _ _ _ Hp3 H4)
          as (Hp4 & (E1 & _ & E2 & _) & Hs & He & Hrl & Hbl & Hkn & Ht). simpl in *.
        unfold repaired. simpl. rewrite Hrl, Hbl, Hkn, andb_false_r, E2. split_and!; try done.
        -- by intros [|].
        -- intros Hh _ Hsv. apply Hs in Hsv. apply andb_true_iff in Hsv as [_ Hsafe].
           apply applied_forwards; [|done]. unfold appliedW. rewrite E1. simpl.
           rewrite <- Hkey, (recreate_retained _ _ _ _ _ _ Hrec Hrc Hsafe), Hkey. apply Hap2.
      * step Hx as r2 w4 H4. step_ret Hx.
        destruct (FinishDrain_phase _ _ _ _ Hp3 H4) as (Hp4 & (E1 & _ & E2 & _) & Hs & Ht).
        assert (appliedW w') as Hap4.
        { unfold appliedW. rewrite E1. simpl. rewrite <- Hkey. by eapply recreate_ok. }
        unfold repaired. simpl. rewrite andb_false_r, E2. split_and!; try done.
        -- by apply backed_applied.
        -- intros _ [= E3 E4]. apply Ht. destruct r2; simpl in *; congruence.
  - destruct Hd as [-> Hp1]. step_ret Hx. unfold repaired. simpl.
    split_and!; try done. by apply backed_applied.
  - step_ret Hx. unfold repaired. simpl. rewrite andb_true_r.
    split_and!; try done. by apply backed_applied.
Qed.

Lemma repair_outcome h held r w w' :
  phase h w → appliedW w →
  repairTuningDrift vr fuel vip hb hasHealthy held w = Some (r, w') → repaired h w r w'.
Proof.
  intros Hp Hap Hx. unfold repairTuningDrift in Hx.
  case_bool_decide. { step_ret Hx. by apply repaired_zero. }
  destruct (vr_hasRollouts vr && negb held); [|by eapply repair_held_outcome].
  destruct r as [res e].
  destruct (runExclusive_inv _ _ _ _ _ _ Hx) as [(Hs & Hz & _)|(w1 & e1 & w2 & Hs1 & Hf & Hs2 & Hn)];
    simpl in *; [subst res; by apply repaired_zero|].
  assert (phase h w1 ∧ appliedW w1) as [Hp1 Hap1].
  { destruct Hs1 as (E1 & E2 & _). split; [by eapply phase_routes|unfold appliedW; by rewrite E2]. }
  step Hf as cur w3 Hc. unfold asks in Hc. simplify_eq.
  destruct (isCurrent vip (w_env w3)).
  2:{ step_ret Hf. apply repaired_zero; [done..|by eapply silent_trans]. }
  eapply repair_held_outcome in Hf; [|done..].
  pose proof (repaired_silent _ _ _ _ _ _ Hs1 Hf Hs2) as (H1 & H2 & H3 & H4 & H5 & H6).
  unfold repaired in *. simpl in *. split_and!; try done.
  intros [|He]; apply H3; auto.
Qed.


(** *** The phases of [reconcileApplied], from the last to the first *)

Lemma route_only_reports w w' : route_only w w' → reported (w_env w') = reported (w_env w).
Proof. by intros (_ & _ & -> & _). Qed.
Lemma route_only_applied w w' : route_only w w' → appliedW w → appliedW w'.
Proof. unfold appliedW. by intros (-> & _). Qed.

(** A route answer that is reported as advertised is true. *)
Lemma route_claim w adv e pre :
  claims ConditionRouteAdvertised (pre ++ [routeAdvertisedCondition vip adv e]) = true →
  claims ConditionRouteAdvertised pre = false →
  ((adv, e) = (true, None) → announcedW w) → announcedW w.
Proof.
  unfold claims. rewrite existsb_app, orb_true_iff. intros [Hc|Hc] Hp Ht; [congruence|].
  apply (claims_cons _ _ []) in Hc as [[_ Hs]|Hc]; [|by apply claims_nil in Hc].
  apply routeCondition_true in Hs as [-> ->]. auto.
Qed.

Lemma serving_no_claim n cs type :
  type ≠ ConditionServing → claims type (servingCondition vip n :: cs) = claims type cs.
Proof.
  intros Hne. simpl. rewrite servingCondition_type.
  by rewrite (bool_decide_eq_false_2 (ConditionServing = type)).
Qed.

Lemma serve_outcome h w0 w w' :
  phase h w → appliedW w → reported (w_env w) = reported (w_env w0) →
  ∀ drainHeld, (drainHeld = false → h = false) →
  reconcileApplied_serve vr fuel vip hb hasHealthy drainHeld w = Some (tt, w') →
  outcome w0 w' hasHealthy.
Proof.
  intros Hp Hap Hrep drainHeld Hdh Hx. unfold reconcileApplied_serve in Hx.
  step Hx as r1 w1 H1. destruct (SetServing_phase _ _ _ _ _ Hp H1) as (Hp1 & Ho1 & Hs1 & Hh1 & Ht1).
  step Hx as r2 w2 H2.
  assert (phase false w2 ∧ route_only w w2 ∧ (servesW w2 ↔ hasHealthy = true) ∧
          (r2 = (true, None) → announcedW w2)) as (Hp2 & Ho2 & Hs2 & Ht2).
  { destruct r1 as [adv [x|]]; simpl in H2.
    - step_ret H2. destruct h; [by specialize (Hh1 eq_refl)|]. by split_and!.
    - destruct drainHeld.
      + destruct (FinishDrain_phase _ _ _ _ Hp1 H2) as (? & ? & Hs & ?).
        split_and!; try done; [by eapply route_only_trans|by rewrite Hs].
      + step_ret H2. rewrite (Hdh eq_refl) in Hp1. by split_and!. }
  pose proof (route_only_applied _ _ Ho2 Hap) as Hap2.
  eapply report_outcome; [exact Hx| | | | |].
  - by rewrite (route_only_reports _ _ Ho2).
  - by apply phase_idle.
  - by apply backed_applied.
  - done.
  - intros Hc. eapply (route_claim _ _ _ [_; _]) in Hc; [exact Hc| |by destruct r2].
    by rewrite serving_no_claim.
Qed.

Lemma drifts_outcome h held adv w0 w w' :
  phase h w → appliedW w → reported (w_env w) = reported (w_env w0) →
  (adv = true → announcedW w) →
  reconcileApplied_drifts vr fuel vip hb hasHealthy held h adv None w = Some (tt, w') →
  outcome w0 w' hasHealthy.
Proof.
  intros Hp Hap Hrep Hadv Hx. unfold reconcileApplied_drifts in Hx.
  step Hx as drifts w1 H1. unfold asks in H1. simplify_eq.
  destruct (dataplaneTuningDrifts vr (w_dp w1)) as [|dr drs].
  { by eapply serve_outcome. }
  step Hx as rp w2 H2. destruct (repair_outcome _ _ _ _ _ Hp Hap H2) as (Hp2 & Hr2 & Ha2 & Hb2 & Hk2 & Hu2).
  destruct rp as [res e]; simpl in *. destruct (rr_blocked res) eqn:Hbl.
  - specialize (Ha2 (or_introl eq_refl)). step Hx as r3 w3 H3.
    assert (phase false w3 ∧ route_only w2 w3 ∧ (r3 = (true, None) → announcedW w3)) as (Hp3 & Ho3 & Ht3).
    { destruct (h && negb (rr_drainReleased res)).
      - by destruct (releaseUpdateDrain_phase _ _ _ _ _ Hp2 H3) as (? & ? & _ & ?).
      - by destruct (SetServing_phase _ _ _ _ _ Hp2 H3) as (? & ? & _ & _ & ?). }
    pose proof (route_only_applied _ _ Ho3 Ha2) as Ha3.
    eapply report_outcome; [exact Hx| | | | |].
    + by rewrite (route_only_reports _ _ Ho3), Hr2.
    + by apply phase_idle.
    + by apply backed_applied.
    + rewrite serving_no_claim by done. intros Hc. no_claim Hc.
    + intros Hc. eapply (route_claim _ _ _ [_; _]) in Hc; [exact Hc| |by destruct r3].
      by rewrite serving_no_claim.
  - destruct e as [x|].
    2:{ eapply serve_outcome; [exact Hp2|by auto|by rewrite Hr2| |exact Hx]. by intros ->. }
    step Hx as r3 w3 H3.
    assert (phase false w3 ∧ reported (w_env w3) = reported (w_env w0) ∧ (hasHealthy = true → Pb → backed w3) ∧
            (r3 = (true, None) → announcedW w3)) as (Hp3 & Hr3 & Hb3 & Ht3).
    { destruct (h && negb (rr_drainReleased res)).
      - destruct (releaseUpdateDrain_phase _ _ _ _ _ Hp2 H3) as (? & Ho & Hs & ?).
        split_and!; try done; [by rewrite (route_only_reports _ _ Ho), Hr2|].
        intros _ _ Hsv. by apply Hs in Hsv.
      - step_ret H3. split_and!; try done; [by rewrite Hr2|].
        destruct (rr_routeStateKnown res) eqn:Hkn; [by auto|].
        intros [= ->]. unfold announcedW. rewrite Hu2 by done. by apply Hadv. }
    eapply report_outcome; [exact Hx| | | | |]; try done.
    + by apply phase_idle.
    + intros Hc. destruct (rr_retainedOldVIP res); no_claim Hc.
    + intros Hc. eapply (route_claim _ _ _ [_; _]) in Hc; [exact Hc| |by destruct r3].
      by destruct (rr_retainedOldVIP res).
Qed.

Lemma commitLastConfig_frame r w w' :
  commitLastConfig vr vip w = Some (r, w') →
  w_routes w' = w_routes w ∧ w_dp w' = w_dp w ∧ w_env w' = w_env w ∧ w_applied w' = w_applied w.
Proof.
  unfold commitLastConfig. destruct (negb _); [intros Hx; by step_ret Hx|].
  destruct (marshal _); [intros Hx; by step_ret Hx|].
  intros Hx. step Hx as r1 w1 H1. step_ret Hx. unfold onDb in H1.
  destruct (Store.CommitLastConfig _ _ _). by simplify_eq.
Qed.

Lemma apply_outcome h held adv w0 w w' :
  phase h w → (hasHealthy = true → Pb → backed w) → reported (w_env w) = reported (w_env w0) →
  (adv = true → announcedW w) →
  reconcileApplied_apply vr fuel vip hb hasHealthy held h adv w = Some (tt, w') →
  outcome w0 w' hasHealthy.
Proof.
  intros Hp Hb Hrep Hadv Hx. unfold reconcileApplied_apply in Hx.
  step Hx as e w1 H1. unfold onDp in H1.
  destruct (dpApplyVIP vip hb (w_dp w)) as [e0 d1] eqn:Happ. simplify_eq/=.
  set (w1 := MkWorld _ _ _ _ _) in *.
  assert (phase h w1) as Hp1 by (by eapply phase_routes).
  destruct e as [x|].
  - step Hx as r2 w2 H2.
    assert (phase false w2 ∧ route_only w1 w2 ∧ ¬ servesW w2 ∧ (r2 = (true, None) → announcedW w2))
      as (Hp2 & Ho2 & Hs2 & Ht2).
    { destruct h.
      - destruct (releaseUpdateDrain_phase _ _ _ _ _ Hp1 H2) as (? & ? & Hs & ?).
        split_and!; try done. by intros Hsv%Hs.
      - destruct (SetServing_phase _ _ _ _ _ Hp1 H2) as (? & ? & Hs & _ & ?).
        split_and!; try done. by intros Hsv%Hs. }
    eapply report_outcome; [exact Hx| | | | |].
    + by rewrite (route_only_reports _ _ Ho2).
    + by apply phase_idle.
    + by intros _ _ Hsv.
    + intros Hc. no_claim Hc.
    + intros Hc. eapply (route_claim _ _ _ [_; _]) in Hc; [exact Hc|done|by destruct r2].
  - assert (appliedW w1) as Hap1.
    { unfold appliedW. simpl. rewrite <- Hkey. by eapply apply_ok. }
    unfold reconcileApplied_commit in Hx. step Hx as ce w2 H2.
    destruct (commitLastConfig_frame _ _ _ H2) as (E1 & E2 & E3 & E4).
    assert (phase h w2) as Hp2 by (eapply phase_routes; [exact E1|done]).
    assert (appliedW w2) as Hap2 by (unfold appliedW; by rewrite E2).
    assert (reported (w_env w2) = reported (w_env w0)) as Hrep2 by (by rewrite E3).
    assert (adv = true → announcedW w2) as Hadv2 by (unfold announcedW; by rewrite E1).
    destruct ce as [x|].
    + step Hx as r3 w3 H3.
      assert (phase false w3 ∧ route_only w2 w3 ∧ (r3 = (true, None) → announcedW w3)) as (Hp3 & Ho3 & Ht3).
      { destruct h.
        - by destruct (releaseUpdateDrain_phase _ _ _ _ _ Hp2 H3) as (? & ? & _ & ?).
        - step_ret H3. split_and!; try done. intros [=]. auto. }
      pose proof (route_only_applied _ _ Ho3 Hap2) as Hap3.
      eapply report_outcome; [exact Hx| | | | |].
      * by rewrite (route_only_reports _ _ Ho3).
      * by apply phase_idle.
      * by apply backed_applied.
      * intros Hc. no_claim Hc.
      * intros Hc. eapply (route_claim _ _ _ [_]) in Hc; [exact Hc|done|by destruct r3].
    + step Hx as u w3 H3. unfold setLastAppliedVIP in H3. simplify_eq.
      eapply drifts_outcome; [| | | |exact Hx]; try done.
Qed.


Lemma persist_frame r w w' :
  persistPendingConfig vr vip w = Some (r, w') →
  w_routes w' = w_routes w ∧ w_dp w' = w_dp w ∧ w_env w' = w_env w ∧ w_applied w' = w_applied w.
Proof.
  unfold persistPendingConfig. destruct (negb _); [intros Hx; by step_ret Hx|].
  destruct (marshal _); [intros Hx; by step_ret Hx|].
  intros Hx. step Hx as r1 w1 H1. step_ret Hx. unfold onDb in H1.
  destruct (Store.SavePendingConfig _ _ _). by simplify_eq.
Qed.

Lemma drain_outcome held w0 w w' :
  phase false w → (hasHealthy = true → Pb → backed w) → reported (w_env w) = reported (w_env w0) →
  reconcileApplied_drain vr fuel vip hb hasHealthy held w = Some (tt, w') →
  outcome w0 w' hasHealthy.
Proof.
  intros Hp Hb Hrep Hx. unfold reconcileApplied_drain in Hx. step Hx as r1 w1 H1.
  unfold BeginAddressDrain in H1.
  destruct (beginDrain_phase _ _ _ _ _ Hp H1) as (Ho & Hd).
  assert (servesW w1 → servesW w) as Hs1.
  { apply onRoutes_inv in H1 as [H1 _]. eapply (sections_serves _ (Some a)); [apply Hp|].
    apply (runOp_sections _ fuel (OpBeginAddressDrain k a) r1); [apply Hp|done]. }
  assert (hasHealthy = true → Pb → backed w1) as Hb1.
  { intros Hh HP Hsv. destruct (Hb Hh HP (Hs1 Hsv)) as (v & bks & Hf). exists v, bks.
    by destruct Ho as (-> & _). }
  assert (reported (w_env w1) = reported (w_env w0)) as Hrep1 by (by rewrite (route_only_reports _ _ Ho)).
  destruct r1 as [[|] [x|]].
  - by destruct Hd.
  - destruct Hd as (_ & Hp1 & Hns). step Hx as sl w2 H2.
    assert (silent w1 w2) as (E1 & E2 & E3 & E4 & E5).
    { destruct hasHealthy; [by eapply sleep_silent|by step_ret H2]. }
    assert (phase true w2) as Hp2 by (by eapply phase_routes).
    destruct sl as [x|].
    + step Hx as r3 w3 H3.
      destruct (releaseUpdateDrain_phase _ _ _ _ _ Hp2 H3) as (Hp3 & Ho3 & Hs3 & Ht3).
      eapply report_outcome; [exact Hx| | | | |].
      * by rewrite (route_only_reports _ _ Ho3), E5.
      * by apply phase_idle.
      * by intros _ _ Hsv%Hs3.
      * intros Hc. no_claim Hc.
      * intros Hc. eapply (route_claim _ _ _ [_; _]) in Hc; [exact Hc|done|by destruct r3].
    + eapply apply_outcome; [exact Hp2| | | |exact Hx]; try done.
      * intros _ _ Hsv. destruct Hns. unfold servesW in *. by rewrite <- E1.
      * by rewrite E5.
  - destruct Hd as [_ Hp1]. eapply report_outcome; [exact Hx| | | | |]; try done.
    + by apply phase_idle.
    + rewrite serving_no_claim by done. intros Hc. no_claim Hc.
    + rewrite serving_no_claim by done. intros Hc. no_claim Hc.
  - eapply report_outcome; [exact Hx| | | | |]; try done.
    + by apply phase_idle.
    + rewrite serving_no_claim by done. intros Hc. no_claim Hc.
    + rewrite serving_no_claim by done. intros Hc. no_claim Hc.
Qed.

Lemma reconcileApplied_outcome held drain w w' :
  idle w → (Pb → backed w) →
  reconcileApplied vr fuel vip hb hasHealthy held drain w = Some (tt, w') →
  outcome w w' hasHealthy.
Proof.
  intros [W Hn] Hb Hx. unfold reconcileApplied in Hx. step Hx as e w1 H1.
  destruct (persist_frame _ _ _ H1) as (E1 & E2 & E3 & E4).
  assert (idle w1) as Hi1 by (unfold idle; by rewrite E1).
  assert (hasHealthy = true → Pb → backed w1) as Hb1.
  { intros _ HP. unfold backed, servesW, forwardsW. rewrite E1, E2. by apply Hb. }
  destruct e as [x|].
  { eapply report_outcome; [exact Hx| | | | |]; try done.
    by rewrite E3. }
  step Hx as r2 w2 H2. apply onRoutes_inv in H2 as [H2 Ho].
  destruct Hi1 as [W1 Hn1].
  pose proof (prepareAddressChange_sections _ (None, false) _ _ _ _ _ _ W1 H2) as S2.
  assert (idle w2) as Hi2.
  { split; [by eapply WF_sections|by eapply (sections_no_drain _ (None, false))]. }
  assert (hasHealthy = true → Pb → backed w2) as Hb2.
  { intros Hh HP Hsv. destruct Ho as (Ed & _).
    destruct (Hb1 Hh HP) as (v & bks & Hf); [by eapply sections_serves|].
    exists v, bks. by rewrite Ed. }
  assert (reported (w_env w2) = reported (w_env w)) as Hrep2.
  { by rewrite (route_only_reports _ _ Ho), E3. }
  destruct r2 as [adv [x|]]; simpl in Hx.
  { eapply report_outcome; [exact Hx| | | | |]; try done.
    - rewrite serving_no_claim by done. intros Hc. no_claim Hc.
    - rewrite serving_no_claim by done. intros Hc. no_claim Hc. }
  assert (phase false w2) as Hp2.
  { destruct Hi2. split_and!; try done.
    exact (prepareAddressChange_home _ _ _ _ _ _ _ W1 Hrt Ha H2). }
  destruct drain; [by eapply drain_outcome|].
  eapply apply_outcome; [exact Hp2| | | |exact Hx]; try done.
  intros ->. exact (prepareAddressChange_answers _ _ _ _ _ _ W1 H2).
Qed.


End Properties.
(** ** Planning changes nothing that matters *)
Section Reconcile.
Context {R D B S : Type}.
Context `{!Router R} `{!Clock R} `{!DataPlane D} `{!Store.Bolt B} `{!Codec VirtualIPSpec} `{!Env S}.
Context `{!RouterLaws R} `{!DataPlaneLaws D} `{!EnvLaws S}.
Variable vr : VRConfig.
Variable fuel : nat.
Abbreviation world := (World R D B S).
Implicit Types w : world.

Definition same_view w w' : Prop :=
  w_routes w' = w_routes w ∧ (∀ key, dpApplied (w_dp w') key = dpApplied (w_dp w) key) ∧
  reported (w_env w') = reported (w_env w).

Lemma same_view_refl w : same_view w w.
Proof. done. Qed.
Lemma same_view_trans w1 w2 w3 : same_view w1 w2 → same_view w2 w3 → same_view w1 w3.
Proof. intros (E1 & E2 & E3) (F1 & F2 & F3). split_and!; intros; congruence. Qed.
Lemma silent_same_view w w' : silent w w' → same_view w w'.
Proof. intros (E1 & E2 & _ & _ & E3). split_and!; intros; congruence. Qed.

Lemma lastAppliedVIP_frame vip r w w' :
  lastAppliedVIP vr vip w = Some (r, w') →
  w_routes w' = w_routes w ∧ w_dp w' = w_dp w ∧ w_env w' = w_env w.
Proof.
  unfold lastAppliedVIP. intros Hx. step Hx as ap w1 H1. unfold asks in H1. simplify_eq.
  destruct (w_applied w1) as [v|]; [by step_ret Hx|].
  destruct (negb _); [by step_ret Hx|]. step Hx as l w2 H2. unfold onDb in H2.
  destruct (Store.LoadLastConfig _ _) as [l0 b0]. simplify_eq.
  destruct (l.2); [by step_ret Hx|]. case_bool_decide; [by step_ret Hx|].
  destruct (unmarshal l.1) as [|spec]; [by step_ret Hx|].
  step Hx as u w3 H3. step_ret Hx. unfold setLastAppliedVIP in H3. by simplify_eq.
Qed.

Lemma plan_same_view vip r w w' :
  planVIPUpdate vr vip w = Some (r, w') → same_view w w' ∧ w_env w' = w_env w.
Proof.
  unfold planVIPUpdate. intros Hx. step Hx as ch w1 H1. unfold asks in H1. simplify_eq.
  destruct (pendingAddressChange _ _ _ _) as [prev []]; [by step_ret Hx|].
  step Hx as r2 w2 H2.
  assert (same_view w1 w2 ∧ w_env w2 = w_env w1) as [Hv2 He2].
  { unfold needsDrainForVIPUpdate in H2. destruct dpNeedsDrainForVIPUpdate as [ck|]; [|by step_ret H2].
    step H2 as la w3 H3. apply lastAppliedVIP_frame in H3 as (E1 & E2 & E3).
    assert (same_view w1 w3 ∧ w_env w3 = w_env w1) by (unfold same_view; by rewrite E1, E2, E3).
    destruct la as [[prev'|] [x|]]; try by step_ret H2. case_match; by step_ret H2. }
  destruct r2 as [[|] [x|]]; try by step_ret Hx.
  step Hx as r3 w3 H3.
  assert (same_view w2 w3 ∧ w_env w3 = w_env w2) as [Hv3 He3].
  { unfold needsDrainForRetainedVIP in H3. destruct dpNeedsDrainForRetainedVIP as [ck|] eqn:Hck; [|by step_ret H3].
    unfold onDp in H3. destruct (ck vip (w_dp w2)) as [r0 d0] eqn:Hr0. simplify_eq. split; [|done].
    split_and!; try done. intros key. by apply (retained_check_frame _ _ _ _ _ _ Hck Hr0). }
  assert (same_view w1 w3 ∧ w_env w3 = w_env w1) by (split; [by eapply same_view_trans|congruence]).
  destruct r3 as [[|] [x|]]; by step_ret Hx.
Qed.

(** The backends [reconcile] finds healthy. *)
Definition healthyFor w (vip : VirtualIP) : list BackendSpec :=
  match spec_HealthCheck (vip_Spec vip) with
  | Some _ => if vr_hasHealthTracker vr
              then HealthyBackends (vr_key vr) (spec_Backends (vip_Spec vip)) (w_env w)
              else spec_Backends (vip_Spec vip)
  | None => spec_Backends (vip_Spec vip)
  end.

(** The VIP the reconciler is driving: its key, and an address. *)
Definition drives w : Prop :=
  ∀ vip, readCurrent (w_env w) = Some vip →
    namespacedKey vip = vr_key vr ∧ spec_Address (vip_Spec vip) ≠ "".

(** A reconcile either only looked, or applied the current VIP once. *)
Lemma reconcile_inv w w' :
  reconcile vr fuel w = Some (tt, w') →
  same_view w w' ∨
  ∃ vip held drain w1 w2,
    readCurrent (w_env w) = Some vip ∧ same_view w w1 ∧
    reconcileApplied vr fuel vip (healthyFor w vip)
      (bool_decide (0 < length (healthyFor w vip))) held drain w1 = Some (tt, w2) ∧
    silent w2 w'.
Proof.
  unfold reconcile. intros Hx. step Hx as cur w1 H1. unfold asks in H1. simplify_eq.
  destruct (readCurrent (w_env w1)) as [vip|] eqn:Hc; [|step_ret Hx; by left].
  step Hx as hb w2 H2. unfold asks in H2. simplify_eq. fold (healthyFor w2 vip) in *.
  step Hx as p w3 H3. destruct (plan_same_view _ _ _ _ H3) as [Hv He].
  destruct (vr_hasRollouts vr && _).
  - step Hx as r w4 H4. step_ret Hx.
    destruct (runExclusive_inv _ _ _ _ _ _ _ H4) as [(Hs & _)|(wa & e & wb & Hs1 & Hf & Hs2 & _)].
    { left. eapply same_view_trans; [done|by apply silent_same_view]. }
    step Hf as cu wc Hcu. unfold asks in Hcu. simplify_eq.
    destruct (isCurrent vip (w_env wc)).
    2:{ step_ret Hf. left. eapply same_view_trans; [done|].
        eapply same_view_trans; by apply silent_same_view. }
    step Hf as u wd Hd. step_ret Hf. destruct u. right. eexists vip, true, _, wc, _.
    split_and!; [done| |exact Hd|done]. eapply same_view_trans; [done|by apply silent_same_view].
  - right. eexists vip, false, _, w3, w'. split_and!; [done|done|exact Hx|done].
Qed.

Lemma healthy_nonempty (l : list BackendSpec) : bool_decide (0 < length l) = true → l ≠ [].
Proof. intros Hl%bool_decide_eq_true ->. simpl in Hl. lia. Qed.

Lemma same_view_idle w w' : same_view w w' → idle vr w → idle vr w'.
Proof. unfold idle. by intros (-> & _). Qed.
Lemma same_view_backed w w' : same_view w w' → backed vr w → backed vr w'.
Proof. unfold backed, servesW, forwardsW. intros (-> & E2 & _). by rewrite E2. Qed.

Section Results.
Hypothesis Hk : vr_key vr ≠ "".
Hypothesis Hrt : hasRouter (vr_routes vr) = true.

Lemma reconcile_outcome w w' :
  drives w → idle vr w → reconcile vr fuel w = Some (tt, w') →
  same_view w w' ∨
  ∃ vip w2, readCurrent (w_env w) = Some vip ∧ spec_Address (vip_Spec vip) ≠ "" ∧
    silent w2 w' ∧
    ∃ w1, reported (w_env w1) = reported (w_env w) ∧
    outcome vr vip (healthyFor w vip) (backed vr w) w1 w2
      (bool_decide (0 < length (healthyFor w vip))).
Proof.
  intros Hd Hi Hx. destruct (reconcile_inv _ _ Hx)
    as [Hv|(vip & held & drain & w1 & w2 & Hc & Hv & Hr & Hs)]; [by left|right].
  destruct (Hd _ Hc) as [Hkey Ha]. exists vip, w2. split_and!; try done. exists w1.
  split; [apply Hv|].
  eapply reconcileApplied_outcome; [exact Hk|exact Hrt|exact Ha|exact Hkey| | | |exact Hr].
  - apply healthy_nonempty.
  - by eapply same_view_idle.
  - by apply same_view_backed.
Qed.

(** C2. Every way out of a reconcile gives the drain back: whatever fails
    (store, router, data plane, rollout lease, context), the coordinator stays
    well-formed and the VIP holds no drain when the reconcile returns. *)
Theorem reconcile_releases_drain w w' :
  drives w → idle vr w → reconcile vr fuel w = Some (tt, w') → idle vr w'.
Proof.
  intros Hd Hi Hx. destruct (reconcile_outcome _ _ Hd Hi Hx)
    as [Hv|(vip & w2 & _ & _ & Hs & w1 & _ & Ho)]; [by eapply same_view_idle|].
  eapply same_view_idle; [by apply silent_same_view|]. apply Ho.
Qed.


(** C3. The status is truthful: a reconcile sends at most one status update,
    about the current VIP; if it claims the data plane ready, the data plane
    has this very VIP with the healthy backends and the VIP serves exactly if
    there are some; if it claims the route advertised, the router announces
    the address. *)
Theorem reconcile_status_truthful w w' :
  drives w → idle vr w → vr_hasStatusUpdater vr = true → reconcile vr fuel w = Some (tt, w') →
  reported (w_env w') = reported (w_env w) ∨
  ∃ vip cs, readCurrent (w_env w) = Some vip ∧
    reported (w_env w') = (vip, cs) :: reported (w_env w) ∧
    (claims ConditionDataPlaneReady cs = true →
       dpApplied (w_dp w') (vr_key vr) = Some (vip, Vpp.backendsByAddress (healthyFor w vip)) ∧
       (serves (vr_key vr) (w_routes w').1 ↔ healthyFor w vip ≠ [])) ∧
    (claims ConditionRouteAdvertised cs = true →
       IsAnnounced (w_routes w').2 (spec_Address (vip_Spec vip)) = true).
Proof.
  intros Hd Hi Hsu Hx. destruct (reconcile_outcome _ _ Hd Hi Hx)
    as [Hv|(vip & w2 & Hc & _ & (E1 & E2 & _ & _ & E5) & w1 & Hr1 & (_ & _ & Ho))];
    [left; apply Hv|right].
  destruct (Ho Hsu) as (cs & Hcs & Hdp & Hrt'). exists vip, cs.
  rewrite E5, Hcs, Hr1, E2, E1. split_and!; try done.
  intros Hcl. destruct (Hdp Hcl) as [Hap Hs]. split; [done|].
  unfold servesW in Hs. rewrite Hs, bool_decide_eq_true.
  destruct (healthyFor w vip); simpl; split; (done || lia || (intros; lia)).
Qed.

End Results.
End Reconcile.

(** ** Termination *)
Section Returns.
Context {R D B S : Type}.
Context `{!Router R} `{!Clock R} `{!DataPlane D} `{!Store.Bolt B} `{!Codec VirtualIPSpec} `{!Env S}.
Variable vr : VRConfig.
Variable fuel : nat.
Hypothesis Hprompt : prompt_router (E := R) (vr_routes vr).

Lemma onDp_returns {A} (m : ST D A) : returns (onDp (R := R) (B := B) (S := S) m).
Proof. intros w. unfold onDp. destruct (m (w_dp w)). eauto. Qed.
Lemma onDb_returns {A} (m : ST B A) : returns (onDb (R := R) (D := D) (S := S) m).
Proof. intros w. unfold onDb. destruct (m (w_db w)). eauto. Qed.
Lemma onEnv_returns {A} (m : ST S A) : returns (onEnv (R := R) (D := D) (B := B) m).
Proof. intros w. unfold onEnv. destruct (m (w_env w)). eauto. Qed.
Lemma asks_returns {A} (f : World R D B S → A) : returns (asks f).
Proof. intros w. unfold asks. eauto. Qed.
Lemma setLastApplied_returns v : returns (setLastAppliedVIP (R := R) (D := D) (B := B) (S := S) v).
Proof. intros w. unfold setLastAppliedVIP. eauto. Qed.
Lemma onRoutes_returns o :
  returns (onRoutes (D := D) (B := B) (S := S) (runOp (E := R) (vr_routes vr) (Datatypes.S fuel) o)).
Proof.
  intros w. unfold onRoutes. destruct (runOp_total _ fuel o (w_routes w) Hprompt) as (r & s' & ->). eauto.
Qed.
Hint Resolve onDp_returns onDb_returns onEnv_returns asks_returns setLastApplied_returns : arca.

(** Split a run at its binds, matches and [let]s. *)
Ltac returns_tac :=
  repeat first
    [ progress cbv zeta
    | simple apply returns_ret
    | apply onDp_returns | apply onDb_returns | apply onEnv_returns | apply asks_returns
    | apply setLastApplied_returns
    | assumption
    | simple apply returns_bind; [|intros ?]
    | match goal with |- returns (match ?x with _ => _ end) => destruct x end
    | match goal with |- returns (if ?x then _ else _) => destruct x end ].

Abbreviation fl := (Datatypes.S fuel).

Lemma SetServing_returns vip b : returns (routeSetServing (D := D) (B := B) (S := S) vr fl vip b).
Proof. apply (onRoutes_returns (OpSetServing _ _ _)). Qed.
Lemma FinishDrain_returns vip : returns (routeFinishDrain (D := D) (B := B) (S := S) vr fl vip).
Proof. apply (onRoutes_returns (OpFinishDrain _ _)). Qed.
Lemma releaseUpdateDrain_returns vip b : returns (releaseUpdateDrain (D := D) (B := B) (S := S) vr fl vip b).
Proof.
  unfold releaseUpdateDrain. apply returns_bind; [apply SetServing_returns|]. intros r.
  destruct (r.2); returns_tac. apply FinishDrain_returns.
Qed.
Lemma report_returns vip hb cs : returns (report (R := R) (D := D) (B := B) vr vip hb cs).
Proof. unfold report. returns_tac. Qed.
Lemma sleep_returns d : returns (sleepContext (R := R) (D := D) (B := B) (S := S) d).
Proof. unfold sleepContext. returns_tac. Qed.
Lemma runExclusive_returns {A} keys (z : A) fn :
  returns fn → returns (runExclusiveRollouts (R := R) (D := D) (B := B) (S := S) vr keys z fn).
Proof.
  intros Hf. unfold runExclusiveRollouts. destruct (negb _); [done|].
  induction keys; simpl; [done|]. returns_tac.
Qed.

Lemma repair_held_returns vip hb hh : returns (repairTuningDrift_held (R := R) (D := D) (B := B) (S := S) vr fl vip hb hh).
Proof.
  unfold repairTuningDrift_held, releaseDrain. cbv zeta. destruct dpRecreateVIP; [|returns_tac].
  apply returns_bind; [apply (onRoutes_returns (OpBeginDrain _ _))|]. intros [[] []]; try (by returns_tac).
  returns_tac; auto using sleep_returns, releaseUpdateDrain_returns, FinishDrain_returns.
Qed.
Lemma repair_returns vip hb hh held : returns (repairTuningDrift (R := R) (D := D) (B := B) (S := S) vr fl vip hb hh held).
Proof.
  unfold repairTuningDrift. cbv zeta. case_match; [by returns_tac|].
  case_match; [|apply repair_held_returns]. apply runExclusive_returns.
  returns_tac. apply repair_held_returns.
Qed.

Lemma serve_returns vip hb hh h : returns (reconcileApplied_serve (R := R) (D := D) (B := B) (S := S) vr fl vip hb hh h).
Proof.
  unfold reconcileApplied_serve.
  returns_tac; auto using SetServing_returns, FinishDrain_returns, report_returns.
Qed.
Lemma drifts_returns vip hb hh held h adv e :
  returns (reconcileApplied_drifts (R := R) (D := D) (B := B) (S := S) vr fl vip hb hh held h adv e).
Proof.
  unfold reconcileApplied_drifts.
  returns_tac; auto using serve_returns, repair_returns, releaseUpdateDrain_returns,
    SetServing_returns, report_returns.
Qed.
Lemma apply_returns vip hb hh held h adv :
  returns (reconcileApplied_apply (R := R) (D := D) (B := B) (S := S) vr fl vip hb hh held h adv).
Proof.
  unfold reconcileApplied_apply, reconcileApplied_commit, commitLastConfig.
  returns_tac; auto using drifts_returns, releaseUpdateDrain_returns, SetServing_returns, report_returns.
Qed.
Lemma reconcileApplied_returns vip hb hh held drain :
  returns (reconcileApplied (R := R) (D := D) (B := B) (S := S) vr fl vip hb hh held drain).
Proof.
  unfold reconcileApplied, reconcileApplied_drain, persistPendingConfig.
  returns_tac; auto using apply_returns, report_returns, sleep_returns, releaseUpdateDrain_returns.
  - apply (onRoutes_returns (OpPrepareAddressChange _ _)).
  - apply (onRoutes_returns (OpBeginAddressDrain _ _)).
Qed.

(** C7. Reconciling and deleting always return when announcements take less
    than the route verification interval: one pass of each route loop is
    enough, and nothing else loops. *)
Theorem reconcile_terminates (w : World R D B S) vip :
  (∃ w', reconcile vr fl w = Some (tt, w')) ∧
  (∃ done w', handleDelete vr fl vip w = Some (done, w')).
Proof.
  split.
  - cut (returns (reconcile (R := R) (D := D) (B := B) (S := S) vr fl)).
    { intros Hr. destruct (Hr w) as ([] & w' & ?). eauto. }
    unfold reconcile, planVIPUpdate, needsDrainForVIPUpdate, needsDrainForRetainedVIP, lastAppliedVIP.
    returns_tac; auto using reconcileApplied_returns.
    apply runExclusive_returns. returns_tac. apply reconcileApplied_returns.
  - cut (returns (handleDelete (R := R) (D := D) (B := B) (S := S) vr fl vip)).
    { intros Hr. destruct (Hr w) as (b & w' & ?). eauto. }
    unfold handleDelete. returns_tac. apply (onRoutes_returns (OpDelete _ _)).
Qed.

End Returns.

(** ** The write-ahead protocol with the store *)
Section Persistence.
Context {R D B S : Type}.
Context `{!Router R} `{!Clock R} `{!DataPlane D} `{!Store.Bolt B} `{!Codec VirtualIPSpec} `{!Env S}.
Context `{!Store.BoltLaws B} `{!DataPlaneLaws D}.
Variable vr : VRConfig.
Variable fuel : nat.
Abbreviation world := (World R D B S).
Abbreviation k := (vr_key vr).
Implicit Types w : world.

(** The part of the world the protocol is about. *)
Definition persisted w : B * option VirtualIP := (w_db w, w_applied w).

Lemma onRoutes_keeps {A} (m : PG (RC * R) A) : keeps persisted (onRoutes (D := D) (B := B) (S := S) m).
Proof. intros w r w'. unfold onRoutes. destruct (m (w_routes w)) as [[]|]; [|done]. by intros [= _ <-]. Qed.
Lemma onDp_keeps {A} (m : ST D A) : keeps persisted (onDp m).
Proof. intros w r w'. unfold onDp. destruct (m (w_dp w)). by intros [= _ <-]. Qed.
Lemma onEnv_keeps {A} (m : ST S A) : keeps persisted (onEnv m).
Proof. intros w r w'. unfold onEnv. destruct (m (w_env w)). by intros [= _ <-]. Qed.
Lemma asks_keeps {A} (f : world → A) : keeps persisted (asks f).
Proof. by intros w r w' [= _ <-]. Qed.

Ltac keeps_tac :=
  repeat first
    [ progress cbv zeta
    | simple apply keeps_ret
    | apply onDp_keeps | apply onEnv_keeps | apply asks_keeps | apply onRoutes_keeps
    | assumption
    | simple apply keeps_bind; [|intros ?]
    | match goal with |- keeps _ (match ?x with _ => _ end) => destruct x end
    | match goal with |- keeps _ (if ?x then _ else _) => destruct x end ].

Lemma release_keeps vip b : keeps persisted (releaseUpdateDrain vr fuel vip b).
Proof. unfold releaseUpdateDrain, routeSetServing, routeFinishDrain. keeps_tac. Qed.
Lemma report_keeps vip hb cs : keeps persisted (report (R := R) (D := D) (B := B) vr vip hb cs).
Proof. unfold report. keeps_tac. Qed.
Lemma runExclusive_keeps {A} keys (z : A) fn :
  keeps persisted fn → keeps persisted (runExclusiveRollouts vr keys z fn).
Proof.
  intros Hf. unfold runExclusiveRollouts. destruct (negb _); [done|].
  induction keys; simpl; [done|]. keeps_tac.
Qed.
Lemma repair_held_keeps vip hb hh : keeps persisted (repairTuningDrift_held vr fuel vip hb hh).
Proof.
  unfold repairTuningDrift_held, releaseDrain, routeFinishDrain, sleepContext.
  keeps_tac; auto using release_keeps.
Qed.
Lemma repair_keeps vip hb hh held : keeps persisted (repairTuningDrift vr fuel vip hb hh held).
Proof.
  unfold repairTuningDrift. cbv zeta. case_match; [by keeps_tac|].
  case_match; [|apply repair_held_keeps]. apply runExclusive_keeps.
  keeps_tac. apply repair_held_keeps.
Qed.
Lemma drifts_keeps vip hb hh held h adv e :
  keeps persisted (reconcileApplied_drifts vr fuel vip hb hh held h adv e).
Proof.
  unfold reconcileApplied_drifts, reconcileApplied_serve, routeSetServing, routeFinishDrain.
  keeps_tac; auto using repair_keeps, release_keeps, report_keeps.
Qed.

(** What the store says about the VIP. *)
Definition pendingOf w : option string := Store.pending_config (Store.dbOf (w_db w)) !! k.
Definition lastOf w : option string := Store.last_config (Store.dbOf (w_db w)) !! k.

Lemma apply_commits vip hb hh held h adv data w w' :
  vr_hasStore vr = true → marshal (vip_Spec vip) = inr data → namespacedKey vip = k →
  reconcileApplied_apply vr fuel vip hb hh held h adv w = Some (tt, w') →
  (pendingOf w' = pendingOf w ∧ lastOf w' = lastOf w ∧ w_applied w' = w_applied w) ∨
  (pendingOf w' = None ∧ lastOf w' = Some data ∧ w_applied w' = Some vip ∧
   (dpApplyVIP vip hb (w_dp w)).1 = None).
Proof.
  intros Hst Hm Hkey Hx. unfold reconcileApplied_apply in Hx. step Hx as e w1 H1.
  unfold onDp in H1. destruct (dpApplyVIP vip hb (w_dp w)) as [e0 d1] eqn:Happ. simplify_eq/=.
  set (w1 := MkWorld _ _ _ _ _) in *.
  unfold pendingOf, lastOf. destruct e as [x|].
  { left. step Hx as r2 w2 H2. pose proof (report_keeps _ _ _ _ _ _ Hx) as [= F1 F2].
    assert (persisted w2 = persisted w1) as [= G1 G2].
    { destruct h; [by apply (release_keeps _ _ _ _ _ H2)|]. by apply (onRoutes_keeps _ _ _ _ H2). }
    by rewrite F1, F2, G1, G2. }
  unfold reconcileApplied_commit, commitLastConfig in Hx. rewrite Hst, Hm in Hx. simpl in Hx.
  step Hx as ce w2 H2. step H2 as ce' w2' H2'. step_ret H2. unfold onDb in H2'.
  destruct (Store.CommitLastConfig k data (w_db w1)) as [c0 b0] eqn:Hc. simplify_eq/=.
  destruct (Store.CommitLastConfig_update _ _ _ _ _ Hc) as [[-> Hdb]|[Hne Hdb]].
  - right. step Hx as u w3 H3. unfold setLastAppliedVIP in H3. simplify_eq/=.
    pose proof (drifts_keeps _ _ _ _ _ _ _ _ _ _ Hx) as [= F1 F2]. simpl in *.
    rewrite F1, F2, Hdb. simpl. rewrite lookup_delete_eq, lookup_insert_eq. done.
  - left. destruct ce' as [x|]; [|done]. step Hx as r3 w3 H3.
    pose proof (report_keeps _ _ _ _ _ _ Hx) as [= F1 F2].
    assert (persisted w3 = persisted (MkWorld (w_applied w1) (w_routes w1) (w_dp w1) b0 (w_env w1)))
      as [= G1 G2].
    { destruct h; [by apply (release_keeps _ _ _ _ _ H3)|]. by step_ret H3. }
    by rewrite F1, F2, G1, G2, Hdb.
Qed.

Lemma onRoutes_dp {A} (m : PG (RC * R) A) : keeps w_dp (onRoutes (D := D) (B := B) (S := S) m).
Proof. intros w r w'. unfold onRoutes. destruct (m (w_routes w)) as [[]|]; [|done]. by intros [= _ <-]. Qed.
Lemma sleep_dp d : keeps w_dp (sleepContext (R := R) (D := D) (B := B) (S := S) d).
Proof.
  intros w r w'. unfold sleepContext, onEnv. destruct (_ <=? _)%Z; [by intros [= _ <-]|].
  destruct (timerOrDone d (w_env w)). by intros [= _ <-].
Qed.
Lemma sleep_keeps d : keeps persisted (sleepContext d).
Proof. unfold sleepContext. keeps_tac. Qed.

(** C4. Write-ahead: a reconcile touches routes and data plane only after the
    configuration is on disk as pending; it becomes the last applied one, and
    the pending one is cleared, only when the data plane accepted it; in every
    other case the last applied configuration on disk is the old one. *)
Theorem reconcileApplied_write_ahead vip hb hh held drain data w w' :
  vr_hasStore vr = true → marshal (vip_Spec vip) = inr data → namespacedKey vip = k →
  reconcileApplied vr fuel vip hb hh held drain w = Some (tt, w') →
  (w_routes w' = w_routes w ∧ w_dp w' = w_dp w ∧ Store.dbOf (w_db w') = Store.dbOf (w_db w)) ∨
  (pendingOf w' = Some data ∧ lastOf w' = lastOf w ∧ w_applied w' = w_applied w) ∨
  (pendingOf w' = None ∧ lastOf w' = Some data ∧ w_applied w' = Some vip ∧
   (dpApplyVIP vip hb (w_dp w)).1 = None).
Proof.
  intros Hst Hm Hkey Hx. unfold reconcileApplied, persistPendingConfig in Hx.
  rewrite Hst, Hm in Hx. simpl in Hx. step Hx as e w1 H1. step H1 as e' w1' H1'. step_ret H1.
  unfold onDb in H1'.
  destruct (Store.SavePendingConfig k data (w_db w)) as [e0 b0] eqn:Hs. simplify_eq/=.
  destruct (Store.txPut_update _ _ _ _ _ _ Hs) as [(-> & _ & Hdb)|[Hne Hdb]].
  2:{ left. destruct e' as [x|]; [|done]. unfold report in Hx. destruct (vr_hasStatusUpdater vr).
      - step Hx as r w2 H2. step_ret Hx. unfold onEnv in H2.
        destruct (UpdateVIPStatus _ _ _ _). by simplify_eq/=.
      - by step_ret Hx. }
  right. step Hx as r2 w2 H2. pose proof (onRoutes_keeps _ _ _ _ H2) as [= E1 E2]. simpl in E1, E2.
  assert (pendingOf w2 = Some data ∧ lastOf w2 = lastOf w) as [P2 L2].
  { unfold pendingOf, lastOf. rewrite E1, Hdb. simpl. by rewrite lookup_insert_eq. }
  assert (∀ w3, persisted w3 = persisted w2 →
    pendingOf w3 = Some data ∧ lastOf w3 = lastOf w ∧ w_applied w3 = w_applied w) as Hkp.
  { intros w3 [= F1 F2]. rewrite <- P2, <- L2. unfold pendingOf, lastOf. by rewrite F1, F2. }
  destruct r2 as [adv [x|]]; simpl in Hx.
  { left. apply Hkp. by apply (report_keeps _ _ _ _ _ _ Hx). }
  pose proof (onRoutes_dp _ _ _ _ H2) as D2. simpl in D2.
  assert (∀ w3 h' adv', persisted w3 = persisted w2 → w_dp w3 = w_dp w →
    reconcileApplied_apply vr fuel vip hb hh held h' adv' w3 = Some (tt, w') →
    (pendingOf w' = Some data ∧ lastOf w' = lastOf w ∧ w_applied w' = w_applied w) ∨
    (pendingOf w' = None ∧ lastOf w' = Some data ∧ w_applied w' = Some vip ∧
     (dpApplyVIP vip hb (w_dp w)).1 = None)) as Hfin.
  { intros w3 h' adv' Hk3 D3 Ha3. destruct (Hkp _ Hk3) as (P3 & L3 & A3).
    destruct (apply_commits _ _ _ _ _ _ _ _ _ Hst Hm Hkey Ha3)
      as [(-> & -> & ->)|(-> & -> & -> & Hok)]; [left; by rewrite P3, L3, A3|right; by rewrite <- D3]. }
  destruct drain; [|by eapply Hfin].
  unfold reconcileApplied_drain in Hx. step Hx as r3 w3 H3.
  pose proof (onRoutes_keeps _ _ _ _ H3) as K3. pose proof (onRoutes_dp _ _ _ _ H3) as D3.
  destruct r3 as [[|] [x|]].
  - left. apply Hkp. by rewrite (report_keeps _ _ _ _ _ _ Hx).
  - step Hx as sl w4 H4. assert (persisted w4 = persisted w2) as K4.
    { rewrite <- K3. destruct hh; [|by step_ret H4]. by apply (sleep_keeps _ _ _ _ H4). }
    assert (w_dp w4 = w_dp w) as D4.
    { rewrite <- D2, <- D3. destruct hh; [|by step_ret H4]. by apply (sleep_dp _ _ _ _ H4). }
    destruct sl as [x|]; [|by eapply Hfin]. left. apply Hkp. step Hx as r5 w5 H5.
    by rewrite (report_keeps _ _ _ _ _ _ Hx), (release_keeps _ _ _ _ _ H5).
  - left. apply Hkp. by rewrite (report_keeps _ _ _ _ _ _ Hx).
  - left. apply Hkp. by rewrite (report_keeps _ _ _ _ _ _ Hx).
Qed.

(** C5. Recovery after a restart: once a configuration was committed, a
    reconciler that starts with nothing in memory reads exactly that
    configuration back, and remembers it. *)
Theorem lastAppliedVIP_recovers `{!CodecLaws VirtualIPSpec} vip template w w1 w2 r w3 :
  vr_hasStore vr = true →
  commitLastConfig vr vip w = Some (None, w1) →
  w_db w2 = w_db w1 → w_applied w2 = None →
  lastAppliedVIP vr template w2 = Some ((r, None), w3) →
  r = Some (withSpec template (vip_Spec vip)) ∧ w_applied w3 = r.
Proof.
  intros Hst Hc Hdb Hap Hl. unfold commitLastConfig in Hc. rewrite Hst in Hc. simpl in Hc.
  destruct (marshal (vip_Spec vip)) as [x|data] eqn:Hm; [by step_ret Hc|].
  destruct (unmarshal_marshal _ _ Hm) as [Hne Hu].
  step Hc as c1 wc H1. destruct c1 as [x|]; [by step_ret Hc|]. step_ret Hc. unfold onDb in H1.
  destruct (Store.CommitLastConfig k data (w_db w)) as [c0 b0] eqn:Hcm. simplify_eq/=.
  destruct (Store.CommitLastConfig_update _ _ _ _ _ Hcm) as [[_ Hdb1]|[? _]]; [|done].
  unfold lastAppliedVIP in Hl. step Hl as ap w4 H4. unfold asks in H4. simplify_eq.
  rewrite Hap, Hst in Hl. simpl in Hl. step Hl as ld w5 H5. unfold onDb in H5.
  destruct (Store.LoadLastConfig k (w_db w4)) as [[ds er] b5] eqn:Hld. simplify_eq/=.
  destruct er as [x|]; [by step_ret Hl|].
  destruct (Store.LoadLastConfig_reads _ _ _ _ _ Hld) as [_ Hds]. specialize (Hds eq_refl).
  rewrite Hdb1 in Hds. simpl in Hds. rewrite lookup_insert_eq in Hds. simpl in Hds. subst ds.
  rewrite bool_decide_eq_false_2, Hu in Hl by done.
  step Hl as u w6 H6. step_ret Hl. unfold setLastAppliedVIP in H6. by simplify_eq.
Qed.

(** C6. Deletion: it is done only when the VIP is tracked nowhere, serves
    nowhere and is gone from the data plane; while something fails, the local
    state is kept for the retry. *)
Theorem handleDelete_outcome `{!RouterLaws R} vip b w w' :
  hasRouter (vr_routes vr) = true → spec_Address (vip_Spec vip) ≠ "" → namespacedKey vip = k →
  WF (w_routes w) →
  handleDelete vr fuel vip w = Some (b, w') →
  if b then
    trackedAddress k (w_routes w').1 = "" ∧ ¬ serves k (w_routes w').1 ∧
    dpApplied (w_dp w') k = None
  else w_db w' = w_db w.
Proof.
  intros Hrt Hne Hkey W Hx. unfold handleDelete in Hx. step Hx as r w1 H1.
  pose proof (onRoutes_keeps _ _ _ _ H1) as [= E1 _].
  step Hx as cf w2 H2. destruct cf.
  { step_ret Hx. destruct (r.2); [by step_ret H2|]. step H2 as e w3 H3. step_ret H2.
    pose proof (onDp_keeps _ _ _ _ H3) as [= E3 _]. congruence. }
  destruct r as [adv [x|]]; simpl in H2; [by step_ret H2|].
  step H2 as e w3 H3. destruct e as [x|]; [by step_ret H2|]. step_ret H2.
  unfold onDp in H3. destruct (dpRemoveVIP vip (w_dp w1)) as [e0 d0] eqn:Hrm. simplify_eq/=.
  apply remove_ok in Hrm. rewrite Hkey in Hrm.
  assert (w_routes w' = w_routes w1 ∧ w_dp w' = d0 ∧ b = true) as (-> & -> & ->).
  { destruct (vr_hasStore vr); [|by step_ret Hx].
    step Hx as r4 w4 H4. step Hx as r5 w5 H5. step Hx as r6 w6 H6. step_ret Hx.
    unfold onDb in H4, H5, H6. destruct (Store.DeleteLastConfig _ _). simplify_eq/=.
    destruct (Store.DeletePendingConfig _ _). simplify_eq/=.
    destruct (Store.DeleteHealthStatesForVIP _ _). by simplify_eq/=. }
  unfold onRoutes in H1.
  destruct (Delete (vr_routes vr) fuel k _ (w_routes w)) as [[r0 s0]|] eqn:Hd; [|done].
  simplify_eq/=. destruct (Delete_untracks _ _ _ _ _ _ _ W Hrt Hne Hd). done.
Qed.

End Persistence.

(** ** Rollout keys *)
Lemma collectRolloutKeys_spec addrs keys :
  NoDup keys →
  NoDup (collectRolloutKeys addrs keys) ∧
  ∀ key, key ∈ collectRolloutKeys addrs keys ↔
    key ∈ keys ∨ ∃ x, x ∈ addrs ∧ x ≠ "" ∧ key = rolloutKeyForAddress x.
Proof.
  revert keys. induction addrs as [|x addrs IH]; intros keys Hnd; simpl.
  { split; [done|]. set_solver. }
  case_bool_decide as Hx; [|case_bool_decide as Hin].
  - destruct (IH keys Hnd) as [H1 H2]. split; [done|]. intros key. rewrite H2. set_solver.
  - destruct (IH keys Hnd) as [H1 H2]. split; [done|]. intros key. rewrite H2. set_solver.
  - destruct (IH (keys ++ [rolloutKeyForAddress x])) as [H1 H2].
    { apply NoDup_app. split_and!; [done|set_solver|apply NoDup_singleton]. }
    split; [done|]. intros key. rewrite H2. set_solver.
Qed.

(** Rollout leases are taken in one global order: the keys of any set of
    addresses are exactly theirs, without duplicates and sorted, whatever the
    order and repetitions in which the addresses come; so two agents that need
    the same leases never wait for each other in a circle. *)
Theorem rolloutKeys_canonical addrs addrs' :
  StronglySorted String.le (rolloutKeysForAddresses addrs) ∧
  NoDup (rolloutKeysForAddresses addrs) ∧
  (∀ key, key ∈ rolloutKeysForAddresses addrs ↔
     ∃ x, x ∈ addrs ∧ x ≠ "" ∧ key = rolloutKeyForAddress x) ∧
  ((∀ x, x ∈ addrs ↔ x ∈ addrs') → rolloutKeysForAddresses addrs = rolloutKeysForAddresses addrs').
Proof.
  assert (∀ l, StronglySorted String.le (rolloutKeysForAddresses l) ∧
    NoDup (rolloutKeysForAddresses l) ∧
    ∀ key, key ∈ rolloutKeysForAddresses l ↔ ∃ x, x ∈ l ∧ x ≠ "" ∧ key = rolloutKeyForAddress x) as Hl.
  { intros l. destruct (collectRolloutKeys_spec l []) as [H1 H2]; [apply NoDup_nil_2|].
    unfold rolloutKeysForAddresses. split_and!.
    - apply (StronglySorted_merge_sort _).
    - by rewrite merge_sort_Permutation.
    - intros key. rewrite merge_sort_Permutation, H2. set_solver. }
  destruct (Hl addrs) as (S1 & N1 & E1), (Hl addrs') as (S2 & N2 & E2). split_and!; try done.
  intros Heq. apply (StronglySorted_unique String.le); [done..|].
  apply NoDup_Permutation; [done..|]. intros key. rewrite E1, E2.
  split; intros (x & Hx & ?); exists x; (split; [by apply Heq|done]).
Qed.

End Reconciler.
