(* ===== verification/ReconcilerSim.v ===== *)
(** * A whole agent on reference collaborators, and concrete runs

    The reconciler of [Reconciler] with the no-op router, the VPP driver on the
    reference VPP, a database whose transactions can be made to fail, and an
    environment that keeps the status updates it receives.  The runs instantiate
    the reconciler's theorems, and exhibit one behaviour they exclude. *)

From stdpp Require Import base tactics list gmap strings pretty.
From S2P Require Import Prelude Types Net Store Routing Vpp DataPlane VppSim Reconciler.

Module ReconcilerSim.
Import VppSim NoopRouter RouteCoordinator Reconciler.

(** ** Collaborators *)

(** A database with a script: [true] makes the next transaction fail. *)
Record FlakyDB := { fd_db : Store.DB; fd_fails : list bool }.

#[export] Instance Flaky_bolt : Store.Bolt FlakyDB := {|
  Store.dbOf := fd_db;
  Store.boltUpdate f s :=
    match fd_fails s with
    | true :: rest => (Some (ErrMsg "no space left on device"), {| fd_db := fd_db s; fd_fails := rest |})
    | fails =>
        let '(e, db') := f (fd_db s) in
        (e, {| fd_db := match e with None => db' | Some _ => fd_db s end; fd_fails := tail fails |})
    end;
  Store.boltView A zero f s := (f (fd_db s), s);
  Store.putError key v := if bool_decide (key = "") then Some (ErrMsg "key required") else None;
  Store.cursorFrom b p := [] |}.

#[export] Instance Flaky_bolt_laws : Store.BoltLaws FlakyDB.
Proof.
  split.
  - intros f s r s'. simpl. destruct (fd_fails s) as [|[] rest].
    + destruct (f (fd_db s)) as [[x|] db'] eqn:Hf; intros [= <- <-]; simpl; [by right|by left].
    + intros [= <- <-]. by right.
    + destruct (f (fd_db s)) as [[x|] db'] eqn:Hf; intros [= <- <-]; simpl; [by right|by left].
  - intros A zero f s r s' [= <- <-]. by split; [|left].
  - done.
Qed.

#[export] Instance BackendSpec_countable : Countable BackendSpec.
Proof.
  refine (inj_countable' (λ b, (be_Address b, be_MonitorAddress b, be_Weight b))
    (λ '(a, m, w), {| be_Address := a; be_MonitorAddress := m; be_Weight := w |}) _).
  by intros [].
Defined.
#[export] Instance HTTP_countable : Countable HTTPHealthCheck.
Proof.
  refine (inj_countable' (λ h, (http_Port h, http_Path h, http_Method h, http_Host h, http_Headers h,
                                http_ExpectedCodes h, http_SkipTLSVerify h))
    (λ '(a, b, c, d, e, f, g), {| http_Port := a; http_Path := b; http_Method := c; http_Host := d;
       http_Headers := e; http_ExpectedCodes := f; http_SkipTLSVerify := g |}) _).
  by intros [].
Defined.
#[export] Instance TCP_countable : Countable TCPHealthCheck.
Proof.
  refine (inj_countable' (λ h, (tcp_Port h, tcp_Send h, tcp_ExpectedResponse h))
    (λ '(a, b, c), {| tcp_Port := a; tcp_Send := b; tcp_ExpectedResponse := c |}) _).
  by intros [].
Defined.
#[export] Instance HC_countable : Countable HealthCheckSpec.
Proof.
  refine (inj_countable' (λ h, (hc_Type h, hc_IntervalSeconds h, hc_TimeoutSeconds h, hc_RiseCount h,
                                hc_FallCount h, hc_HTTP h, hc_TCP h))
    (λ '(a, b, c, d, e, f, g), {| hc_Type := a; hc_IntervalSeconds := b; hc_TimeoutSeconds := c;
       hc_RiseCount := d; hc_FallCount := e; hc_HTTP := f; hc_TCP := g |}) _).
  by intros [].
Defined.
#[export] Instance Spec_countable : Countable VirtualIPSpec.
Proof.
  refine (inj_countable' (λ s, (spec_Address s, spec_Port s, spec_Protocol s, spec_EncapType s,
                                spec_DSCP s, spec_Backends s, spec_HealthCheck s))
    (λ '(a, b, c, d, e, f, g), {| spec_Address := a; spec_Port := b; spec_Protocol := c;
       spec_EncapType := d; spec_DSCP := e; spec_Backends := f; spec_HealthCheck := g |}) _).
  by intros [].
Defined.
#[export] Instance Spec_codec : Codec VirtualIPSpec := StoreExamples.countableCodec _.
#[export] Instance Spec_codec_laws : CodecLaws VirtualIPSpec := StoreExamples.countableCodec_laws _.

(** The rest: the current VIP, the backends that are down, the status updates
    and the rollout keys that cannot be had. *)
Record SimEnv := {
  se_current : option VirtualIP;
  se_down : list string;
  se_reports : list (VirtualIP * list Condition);
  se_refused : list string;
}.
#[export] Instance SimEnv_Env : Env SimEnv := {|
  UpdateVIPStatus vip hb cs s :=
    (None, {| se_current := se_current s; se_down := se_down s;
              se_reports := (vip, cs) :: se_reports s; se_refused := se_refused s |});
  HealthyBackends key bs s := List.filter (λ b, negb (bool_decide (be_Address b ∈ se_down s))) bs;
  beginExclusive key s :=
    (if bool_decide (key ∈ se_refused s) then Some (ErrContext "context deadline exceeded") else None, s);
  endExclusive key e s := (e, s);
  timerOrDone d s := (None, s);
  readCurrent := se_current |}.
#[export] Program Instance SimEnv_laws : EnvLaws SimEnv := {| reported := se_reports |}.
Next Obligation. by intros vip hb cs s r s' [= _ <-]. Qed.
Next Obligation. by intros key s r s' [= _ <-]. Qed.
Next Obligation. by intros key e s r s' [= _ <-]. Qed.
Next Obligation. by intros key x s r s' [= <- _]. Qed.
Next Obligation. by intros d s r s' [= _ <-]. Qed.

#[export] Instance SimDP : DataPlane (Vpp.VPP * SimVPP) := VppDataPlane.Vpp_DataPlane cfg.
#[export] Instance SimDP_laws : DataPlaneLaws (Vpp.VPP * SimVPP) := VppDataPlane.Vpp_DataPlaneLaws cfg.

Definition agent : Type := World NoopRouter.Noop (Vpp.VPP * SimVPP) FlakyDB SimEnv.

(** ** Runs *)
Definition vr : VRConfig :=
  {| vr_key := "ns/web"; vr_routes := (newRouteCoordinator true (30 * Second)).1;
     vr_hasStore := true; vr_hasHealthTracker := true; vr_hasStatusUpdater := true;
     vr_hasRollouts := true;
     vr_tuningDrift := {| Policy := ""; DrainDuration := 0 |} |}.

Definition withHC (vip : VirtualIP) (encap : string) : VirtualIP :=
  withSpec vip
    {| spec_Address := spec_Address (vip_Spec vip); spec_Port := spec_Port (vip_Spec vip);
       spec_Protocol := spec_Protocol (vip_Spec vip); spec_EncapType := encap; spec_DSCP := None;
       spec_Backends := spec_Backends (vip_Spec vip);
       spec_HealthCheck := Some {| hc_Type := HCTypeTCP; hc_IntervalSeconds := 1; hc_TimeoutSeconds := 1;
         hc_RiseCount := 2; hc_FallCount := 3; hc_HTTP := None; hc_TCP := None |} |}.

Definition start (vip : VirtualIP) : agent :=
  MkWorld None ((newRouteCoordinator true (30 * Second)).2,
                {| NoopRouter.announced := ∅; NoopRouter.clock := 0 |})
    (Vpp.NewVPP, VppSim.idle)
    {| fd_db := StoreExamples.emptyDB; fd_fails := [] |}
    {| se_current := Some vip; se_down := []; se_reports := []; se_refused := [] |}.

Definition run (w : agent) : agent := default w (snd <$> reconcile vr 1 w).

Definition withEnv (f : SimEnv → SimEnv) (w : agent) : agent :=
  MkWorld (w_applied w) (w_routes w) (w_dp w) (w_db w) (f (w_env w)).
Definition setCurrent (vip : VirtualIP) (down : list string) (w : agent) : agent :=
  withEnv (λ s, {| se_current := Some vip; se_down := down; se_reports := se_reports s;
                   se_refused := se_refused s |}) w.
Definition failNext (fails : list bool) (w : agent) : agent :=
  MkWorld (w_applied w) (w_routes w) (w_dp w) {| fd_db := fd_db (w_db w); fd_fails := fails |} (w_env w).

Definition w1 : agent := run (start (withHC web "GRE4")).
(** The encapsulation changes: the address is drained and the VIP replaced. *)
Definition w2 : agent := run (setCurrent (withHC web "GRE6") [] w1).
Definition w3 : agent := run (failNext [false; true] (setCurrent (withHC web "GRE4") ["10.1.0.1"; "10.1.0.2"] w1)).

Lemma idle_start vip : idle vr (start vip).
Proof. split; [split; simpl; intros; by simplify_map_eq|]. intros b st Hb. simpl in Hb. by simplify_map_eq. Qed.

Lemma drives_web encap (w : agent) :
  readCurrent (w_env w) = Some (withHC web encap) → drives vr w.
Proof. intros He vip Hv. simpl in *. simplify_eq. by split. Qed.

Lemma idle_run encap (w : agent) :
  readCurrent (w_env w) = Some (withHC web encap) → idle vr w →
  reconcile vr 1 w = Some (tt, run w) → idle vr (run w).
Proof.
  intros Hd Hi Hx. pose proof (drives_web _ _ Hd) as Hdr.
  destruct (reconcile_outcome vr 1 ltac:(done) ltac:(done) _ _ Hdr Hi Hx)
    as [Hv|(vip & wx & _ & _ & Hs & wy & _ & Ho)]; [by eapply same_view_idle|].
  eapply same_view_idle; [by apply silent_same_view|]. apply Ho.
Qed.

Lemma idle_w1 : idle vr w1.
Proof. eapply (idle_run "GRE4"); [reflexivity|apply idle_start|vm_compute; reflexivity]. Qed.

Lemma reconcile_releases_drain_witness : idle vr w2.
Proof.
  apply (reconcile_releases_drain vr 1 ltac:(done) ltac:(done) (setCurrent (withHC web "GRE6") [] w1)).
  - by apply (drives_web "GRE6").
  - exact idle_w1.
  - vm_compute. reflexivity.
Defined.

Lemma backed_start vip : backed vr (start vip).
Proof. intros (b & st & Hb & _). simpl in Hb. by simplify_map_eq. Qed.


Lemma reconcile_status_truthful_witness :
  reported (w_env w1) = reported (w_env (start (withHC web "GRE4"))) ∨
  ∃ vip cs, reported (w_env w1) = (vip, cs) :: reported (w_env (start (withHC web "GRE4"))) ∧
    (claims ConditionRouteAdvertised cs = true →
       IsAnnounced (w_routes w1).2 (spec_Address (vip_Spec vip)) = true).
Proof.
  destruct (reconcile_status_truthful vr 1 ltac:(done) ltac:(done) (start (withHC web "GRE4")) w1)
    as [Hs|(vip & cs & _ & Hs & _ & Hr)].
  - by apply (drives_web "GRE4").
  - apply idle_start.
  - done.
  - vm_compute. reflexivity.
  - by left.
  - right. exists vip, cs. by split.
Defined.

Lemma reconcile_terminates_witness :
  (∃ w', reconcile vr 1 w1 = Some (tt, w')) ∧
  ∃ done w', handleDelete vr 1 (withHC web "GRE4") w1 = Some (done, w').
Proof.
  apply (reconcile_terminates vr 0). intros a e e1 e2 e3 t0 t1 H0 H1 H2.
  simpl in *. unfold NoopAnnounceVIP in H1. simplify_eq/=. unfold Second. lia.
Defined.

Definition webData : string := StoreExamples.bits (encode (vip_Spec (withHC web "GRE4"))).

Lemma reconcileApplied_write_ahead_witness :
  ∃ w', reconcileApplied vr 1 (withHC web "GRE4") [] false false false w1 = Some (tt, w') ∧
  ((w_routes w' = w_routes w1 ∧ w_dp w' = w_dp w1 ∧ Store.dbOf (w_db w') = Store.dbOf (w_db w1)) ∨
   (pendingOf vr w' = Some webData ∧ lastOf vr w' = lastOf vr w1 ∧ w_applied w' = w_applied w1) ∨
   (pendingOf vr w' = None ∧ lastOf vr w' = Some webData ∧
    w_applied w' = Some (withHC web "GRE4") ∧
    (dpApplyVIP (withHC web "GRE4") [] (w_dp w1)).1 = None)).
Proof.
  destruct (reconcileApplied vr 1 (withHC web "GRE4") [] false false false w1) as [[[] w']|] eqn:Hx.
  - exists w'. split; [done|].
    apply (reconcileApplied_write_ahead vr 1 (withHC web "GRE4") [] false false false webData w1 w');
      [done|reflexivity|reflexivity|exact Hx].
  - exfalso. revert Hx. vm_compute. discriminate.
Defined.

(** The reconciler after a restart: nothing in memory, the store as it was. *)
Definition restarted (w : agent) : agent :=
  MkWorld None (w_routes w) (w_dp w) (w_db w) (w_env w).

Definition committed : agent :=
  default w2 (snd <$> commitLastConfig vr (withHC web "GRE4") w2).
Definition recovered : option VirtualIP * agent :=
  default (None, w2) ((λ x, (x.1.1, x.2)) <$> lastAppliedVIP vr (withHC web "GRE6") (restarted committed)).

Lemma lastAppliedVIP_recovers_witness :
  recovered.1 = Some (withSpec (withHC web "GRE6") (vip_Spec (withHC web "GRE4"))).
Proof.
  apply (lastAppliedVIP_recovers vr (withHC web "GRE4") (withHC web "GRE6") w2 committed
           (restarted committed) recovered.1 recovered.2 eq_refl); vm_compute; reflexivity.
Defined.

Lemma handleDelete_outcome_witness :
  ∃ b w', handleDelete vr 1 (withHC web "GRE4") w1 = Some (b, w') ∧
  if b then trackedAddress "ns/web" (w_routes w').1 = "" ∧ ¬ serves "ns/web" (w_routes w').1 ∧
            dpApplied (w_dp w') "ns/web" = None
  else w_db w' = w_db w1.
Proof.
  destruct (handleDelete vr 1 (withHC web "GRE4") w1) as [[b w']|] eqn:Hx.
  - exists b, w'. split; [done|].
    exact (handleDelete_outcome vr 1 (withHC web "GRE4") b w1 w' eq_refl ltac:(discriminate) eq_refl
             (proj1 idle_w1) Hx).
  - exfalso. revert Hx. vm_compute. discriminate.
Defined.

(** The exception to the rule of [reconcile_route_backed]: when all
    backends of a serving VIP go down and the store fails to commit, the
    reconcile returns with the backends removed from the data plane and the
    route still announced (and reported as advertised). *)
Theorem commit_failure_keeps_route :
  let w := failNext [false; true] (setCurrent (withHC web "GRE4") ["10.1.0.1"; "10.1.0.2"] w1) in
  drives vr w ∧ idle vr w ∧ healthyFor vr w (withHC web "GRE4") = [] ∧
  ∃ w', reconcile vr 1 w = Some (tt, w') ∧
    IsAnnounced (w_routes w').2 "10.0.0.1" = true ∧
    dpApplied (w_dp w') "ns/web" = Some (withHC web "GRE4", ∅) ∧
    serves "ns/web" (w_routes w').1.
Proof.
  split_and!.
  - by apply (drives_web "GRE4").
  - exact idle_w1.
  - vm_compute. reflexivity.
  - exists w3. split_and!; [vm_compute; reflexivity..|].
    exists "10.0.0.1". eexists. split; vm_compute; reflexivity.
Qed.

End ReconcilerSim.
