(* ===== verification/Manager.v ===== *)
(** * The reconciler manager (internal/agent/reconciler/v2_reconciler.go)

    [Manager] owns one [vipReconciler] goroutine per VIP key, moves it to
    [deleting] when the VIP is deleted, and queues a recreate of the same key
    until the deletion is done.  Each handler is a function on the manager's
    state; the goroutines' loops are the transition relation [mstep], in which
    the handlers and the loops interleave.  What one reconcile or one deletion
    attempt does is the subject of [Reconciler]; here it only leaves an entry
    in the log. *)

From stdpp Require Import base tactics list gmap strings.
From S2P Require Import Prelude Types.

Module Manager.

(** ** State *)

Inductive runState := Running | Exited | Finished.
#[export] Instance runState_eq_dec : EqDecision runState.
Proof. solve_decision. Defined.

(** One [vipReconciler]: the channels hold at most the given number of
    entries ([eventCh] 8, [reconcileCh] 1); [rec_delete] and [rec_retry] are
    the loop's [deleteVIP] and its armed retry timer.  [Exited] is after the
    loop returned, [Finished] after its [onStopped] callback. *)
Record vipReconciler := {
  rec_key : string;
  rec_current : option VirtualIP;
  rec_events : list VirtualIP;
  rec_trigger : bool;
  rec_stop : bool;
  rec_delete : option VirtualIP;
  rec_retry : bool;
  rec_state : runState;
}.

(** What a goroutine did, by its identity. *)
Inductive action := Reconciled | DeleteTried (ok : bool).
Record logEntry := { log_key : string; log_id : nat; log_action : action }.

(** The maps hold pointers to reconcilers: identities into [recs].
    [handover] is the state of the callbacks in flight: the reconciler a
    callback has registered under the lock, and the queued VIP it gives it
    after releasing the lock. *)
Record Manager := {
  vips : gmap string nat;
  deleting : gmap string nat;
  pendingRecreates : gmap string VirtualIP;
  handover : gmap nat VirtualIP;
  recs : gmap nat vipReconciler;
  next : nat;
  cancelled : bool;
  log : list logEntry;
}.

Definition NewManager : Manager :=
  {| vips := ∅; deleting := ∅; pendingRecreates := ∅; handover := ∅; recs := ∅; next := 0;
     cancelled := false; log := [] |}.

(** ** Field updates *)
Definition setMaps (m : Manager) (vs ds : gmap string nat) (ps : gmap string VirtualIP) : Manager :=
  {| vips := vs; deleting := ds; pendingRecreates := ps; handover := handover m; recs := recs m; next := next m;
     cancelled := cancelled m; log := log m |}.
Definition setRec (id : nat) (r : vipReconciler) (m : Manager) : Manager :=
  {| vips := vips m; deleting := deleting m; pendingRecreates := pendingRecreates m;
     handover := handover m; recs := <[id := r]> (recs m); next := next m; cancelled := cancelled m; log := log m |}.
Definition updRec (f : vipReconciler → vipReconciler) (id : nat) (m : Manager) : Manager :=
  match recs m !! id with Some r => setRec id (f r) m | None => m end.
Definition setHandover (h : gmap nat VirtualIP) (m : Manager) : Manager :=
  {| vips := vips m; deleting := deleting m; pendingRecreates := pendingRecreates m;
     handover := h; recs := recs m; next := next m; cancelled := cancelled m; log := log m |}.
Definition record (e : logEntry) (m : Manager) : Manager :=
  {| vips := vips m; deleting := deleting m; pendingRecreates := pendingRecreates m;
     handover := handover m; recs := recs m; next := next m; cancelled := cancelled m; log := e :: log m |}.

(** ** Reconciler methods called by the manager *)
Definition newVIPReconciler (key : string) : vipReconciler :=
  {| rec_key := key; rec_current := None; rec_events := []; rec_trigger := false; rec_stop := false;
     rec_delete := None; rec_retry := false; rec_state := Running |}.

(** A send to a full [reconcileCh] is dropped. *)
Definition triggerReconcile (r : vipReconciler) : vipReconciler :=
  {| rec_key := rec_key r; rec_current := rec_current r; rec_events := rec_events r;
     rec_trigger := true; rec_stop := rec_stop r; rec_delete := rec_delete r;
     rec_retry := rec_retry r; rec_state := rec_state r |}.

Definition update (vip : VirtualIP) (r : vipReconciler) : vipReconciler :=
  triggerReconcile
    {| rec_key := rec_key r; rec_current := Some vip; rec_events := rec_events r;
       rec_trigger := rec_trigger r; rec_stop := rec_stop r; rec_delete := rec_delete r;
       rec_retry := rec_retry r; rec_state := rec_state r |}.

(** A full [eventCh] loses its oldest event to make room. *)
Definition markDeleted (vip : VirtualIP) (r : vipReconciler) : vipReconciler :=
  {| rec_key := rec_key r; rec_current := rec_current r;
     rec_events := (if bool_decide (length (rec_events r) < 8) then rec_events r
                    else tail (rec_events r)) ++ [vip];
     rec_trigger := rec_trigger r; rec_stop := rec_stop r; rec_delete := rec_delete r;
     rec_retry := rec_retry r; rec_state := rec_state r |}.

(** ** Handlers *)

(** [m.vips[key] = newVIPReconciler(...)]: a fresh pointer. *)
Definition register (key : string) (m : Manager) : Manager :=
  {| vips := <[key := next m]> (vips m); deleting := deleting m;
     pendingRecreates := pendingRecreates m; handover := handover m;
     recs := <[next m := newVIPReconciler key]> (recs m); next := S (next m);
     cancelled := cancelled m; log := log m |}.

Definition OnVIPUpdate (vip : VirtualIP) (m : Manager) : Manager :=
  let key := namespacedKey vip in
  match deleting m !! key with
  | Some _ => setMaps m (vips m) (deleting m) (<[key := vip]> (pendingRecreates m))
  | None =>
      match vips m !! key with
      | Some id => updRec (update vip) id m
      | None => updRec (update vip) (next m) (register key m)
      end
  end.

Definition OnVIPDelete (vip : VirtualIP) (m : Manager) : Manager :=
  let key := namespacedKey vip in
  match vips m !! key with
  | Some id =>
      updRec (markDeleted vip) id
        (setMaps m (delete key (vips m)) (<[key := id]> (deleting m)) (pendingRecreates m))
  | None =>
      match pendingRecreates m !! key with
      | Some pending =>
          if bool_decide (vip_UID pending = vip_UID vip)
          then setMaps m (vips m) (deleting m) (delete key (pendingRecreates m)) else m
      | None => m
      end
  end.

(** The part of the callback under the lock, and what it does after it. *)
Definition onVIPReconcilerStopped (key : string) (stopped : nat) (m : Manager) : Manager :=
  if bool_decide (deleting m !! key = Some stopped) then
    let m1 := setMaps m (vips m) (delete key (deleting m)) (pendingRecreates m) in
    match pendingRecreates m !! key with
    | Some pending =>
        let m2 := setMaps m1 (vips m1) (deleting m1) (delete key (pendingRecreates m1)) in
        setHandover (<[next m2 := pending]> (handover m2)) (register key m2)
    | None => m1
    end
  else
    match vips m !! key with
    | Some id =>
        if bool_decide (id = stopped)
        then setMaps m (delete key (vips m)) (deleting m) (pendingRecreates m)
        else updRec triggerReconcile id m
    | None => m
    end.

Definition finishHandover (id : nat) (pending : VirtualIP) (m : Manager) : Manager :=
  updRec (update pending) id (setHandover (delete id (handover m)) m).

Definition OnHealthChange (key : string) (m : Manager) : Manager :=
  match vips m !! key with Some id => updRec triggerReconcile id m | None => m end.

Definition ReconcileAll (m : Manager) : Manager :=
  foldr (updRec triggerReconcile) m (snd <$> map_to_list (vips m)).

(** [Reconcile]: [false] is the not-found error. *)
Definition Reconcile (key : string) (m : Manager) : bool * Manager :=
  match vips m !! key with
  | Some id => (true, updRec triggerReconcile id m)
  | None => (false, m)
  end.

Definition GetStatus {E} `{MapOrder E} (e : E) (m : Manager) : list string := (mapRange e (vips m)).*1.

Definition requestStop (r : vipReconciler) : vipReconciler :=
  {| rec_key := rec_key r; rec_current := rec_current r; rec_events := rec_events r;
     rec_trigger := rec_trigger r; rec_stop := true; rec_delete := rec_delete r;
     rec_retry := rec_retry r; rec_state := rec_state r |}.

(** [Stop] cancels the context, forgets the maps and asks every reconciler it
    knew to stop. *)
Definition Stop (m : Manager) : Manager :=
  let ids := (snd <$> map_to_list (vips m)) ++ (snd <$> map_to_list (deleting m)) in
  foldr (updRec requestStop)
    {| vips := ∅; deleting := ∅; pendingRecreates := ∅; handover := handover m; recs := recs m; next := next m;
       cancelled := true; log := log m |} ids.

(** ** The goroutine's loop: one turn per case of its [select] *)

Definition setLoop (r : vipReconciler) (evs : list VirtualIP) (trig : bool)
    (del : option VirtualIP) (retry : bool) (st : runState) : vipReconciler :=
  {| rec_key := rec_key r; rec_current := rec_current r; rec_events := evs; rec_trigger := trig;
     rec_stop := rec_stop r; rec_delete := del; rec_retry := retry; rec_state := st |}.

(** [case ev := <-vr.eventCh] and [case <-deleteRetryC]: an attempt to delete;
    success leaves the loop, failure arms the timer. *)
Definition attemptDelete (r : vipReconciler) (evs : list VirtualIP) (vip : VirtualIP) (ok : bool)
    : vipReconciler :=
  if ok then setLoop r evs (rec_trigger r) (Some vip) (rec_retry r) Exited
  else setLoop r evs (rec_trigger r) (Some vip) true Running.

Inductive turn (cancelled : bool) (r : vipReconciler) : list action → vipReconciler → Prop :=
  | turn_ctx : cancelled = true →
      turn cancelled r [] (setLoop r (rec_events r) (rec_trigger r) (rec_delete r) (rec_retry r) Exited)
  | turn_stop : rec_stop r = true →
      turn cancelled r [] (setLoop r (rec_events r) (rec_trigger r) (rec_delete r) (rec_retry r) Exited)
  | turn_event vip evs ok : rec_events r = vip :: evs →
      turn cancelled r [DeleteTried ok] (attemptDelete r evs vip ok)
  | turn_retry vip ok : rec_retry r = true → rec_delete r = Some vip →
      turn cancelled r [DeleteTried ok] (attemptDelete r (rec_events r) vip ok)
  | turn_reconcile : rec_trigger r = true →
      turn cancelled r (match rec_delete r, rec_current r with None, Some _ => [Reconciled] | _, _ => [] end)
        (setLoop r (rec_events r) false (rec_delete r) (rec_retry r) Running)
  | turn_tick :
      turn cancelled r (match rec_delete r, rec_current r with None, Some _ => [Reconciled] | _, _ => [] end) r.

Definition finishRec (r : vipReconciler) : vipReconciler :=
  setLoop r (rec_events r) (rec_trigger r) (rec_delete r) (rec_retry r) Finished.

(** The manager and its goroutines, up to [Stop]: handlers, turns of running
    loops, and the callback of a loop that returned.  The informer calls the
    handlers one after the other, so each is one step: what the goroutines do
    between the two halves of a handler they could have done before it.  The
    callback runs on the goroutine's own thread, so its two halves are two
    steps. *)
Inductive mstep : Manager → Manager → Prop :=
  | step_update vip m : mstep m (OnVIPUpdate vip m)
  | step_delete vip m : mstep m (OnVIPDelete vip m)
  | step_health key m : mstep m (OnHealthChange key m)
  | step_all m : mstep m (ReconcileAll m)
  | step_turn id r r' acts m :
      recs m !! id = Some r → rec_state r = Running → turn (cancelled m) r acts r' →
      mstep m (foldr (λ a, record {| log_key := rec_key r; log_id := id; log_action := a |})
                 (setRec id r' m) acts)
  | step_stopped id r m :
      recs m !! id = Some r → rec_state r = Exited →
      mstep m (onVIPReconcilerStopped (rec_key r) id (setRec id (finishRec r) m))
  | step_handover id pending m :
      handover m !! id = Some pending → mstep m (finishHandover id pending m).

(** ** Invariant *)

(** Entry [x] happened after entry [y]: for one key, a later entry is by the
    same or a newer reconciler, and after an attempt to delete by the same one
    comes only another attempt, after a failed one. *)
Definition after (x y : logEntry) : Prop :=
  log_key x = log_key y →
  log_id y ≤ log_id x ∧
  (log_id x = log_id y → ∀ ok, log_action y = DeleteTried ok →
   ok = false ∧ ∃ ok', log_action x = DeleteTried ok').

(** The reconciler registered in [vips]: alive and not deleting. *)
Definition serving (r : vipReconciler) : Prop :=
  rec_state r = Running ∧ rec_events r = [] ∧ rec_delete r = None.
(** One in [deleting]: the one deletion is queued, or being tried. *)
Definition leaving (r : vipReconciler) : Prop :=
  (rec_state r = Running ∧ ∃ vip, rec_events r = [vip] ∧ rec_delete r = None) ∨
  (rec_state r ≠ Finished ∧ rec_events r = [] ∧ is_Some (rec_delete r)).

Record Inv (m : Manager) : Prop := {
  inv_vips : ∀ key id, vips m !! key = Some id →
    ∃ r, recs m !! id = Some r ∧ rec_key r = key ∧ serving r;
  inv_deleting : ∀ key id, deleting m !! key = Some id →
    ∃ r, recs m !! id = Some r ∧ rec_key r = key ∧ leaving r;
  inv_disjoint : ∀ key, is_Some (vips m !! key) → deleting m !! key = None;
  inv_pending : ∀ key, is_Some (pendingRecreates m !! key) → is_Some (deleting m !! key);
  inv_owned : ∀ id r, recs m !! id = Some r →
    id < next m ∧ (rec_state r ≠ Finished →
      vips m !! rec_key r = Some id ∨ deleting m !! rec_key r = Some id);
  inv_alive : cancelled m = false ∧ ∀ id r, recs m !! id = Some r → rec_stop r = false;
  inv_log_ids : ∀ e, e ∈ log m → log_id e < next m ∧
    (∀ id, vips m !! log_key e = Some id ∨ deleting m !! log_key e = Some id → log_id e ≤ id);
  inv_log_delete : ∀ e ok, e ∈ log m → log_action e = DeleteTried ok →
    ∀ r, recs m !! log_id e = Some r → rec_key r = log_key e →
      is_Some (rec_delete r) ∧ (ok = true → rec_state r ≠ Running);
  inv_log : ForallOrdPairs after (log m);
  inv_handover : ∀ id, is_Some (handover m !! id) → id < next m;
}.

Lemma Inv_new : Inv NewManager.
Proof.
  split; simpl; try (intros; by simplify_map_eq); try done.
  - intros e He. by apply not_elem_of_nil in He.
  - constructor.
Qed.

(** Changing the channels of a live reconciler, not its identity, deletion
    state or fate. *)
Definition similar (r r' : vipReconciler) : Prop :=
  rec_key r' = rec_key r ∧ rec_state r' = rec_state r ∧ rec_events r' = rec_events r ∧
  rec_delete r' = rec_delete r ∧ rec_stop r' = rec_stop r.

Lemma Inv_similar id r r' m :
  Inv m → recs m !! id = Some r → similar r r' → Inv (setRec id r' m).
Proof.
  intros [I1 I2 I3 I4 I5 [I6 I6'] I7 I8 I9 I10] Hr (E1 & E2 & E3 & E4 & E5).
  split; simpl; try done.
  - intros key id' Hv. destruct (I1 _ _ Hv) as (r0 & Hr0 & Hk & Hs).
    destruct (decide (id' = id)) as [->|]; [|exists r0; by rewrite lookup_insert_ne].
    simplify_eq. exists r'. rewrite lookup_insert_eq. unfold serving in *. rewrite E1, E2, E3, E4. naive_solver.
  - intros key id' Hv. destruct (I2 _ _ Hv) as (r0 & Hr0 & Hk & Hs).
    destruct (decide (id' = id)) as [->|]; [|exists r0; by rewrite lookup_insert_ne].
    simplify_eq. exists r'. rewrite lookup_insert_eq. unfold leaving in *. by rewrite E1, E2, E3, E4.
  - intros id' r0 Hr0. destruct (decide (id' = id)) as [->|]; simplify_map_eq; [|by eauto].
    rewrite E1, E2. eauto.
  - split; [done|]. intros id' r0 Hr0. destruct (decide (id' = id)) as [->|]; simplify_map_eq; [|by eauto].
    rewrite E5. eauto.
  - intros e ok He Ha r0 Hr0 Hk. destruct (decide (log_id e = id)) as [<-|]; simplify_map_eq; [|by eauto].
    rewrite E2, E4. rewrite E1 in Hk. eauto.
Qed.

Lemma similar_trigger r : similar r (triggerReconcile r).
Proof. by split_and!. Qed.
Lemma similar_update vip r : similar r (update vip r).
Proof. by split_and!. Qed.

Lemma Inv_updRec f id m : (∀ r, similar r (f r)) → Inv m → Inv (updRec f id m).
Proof.
  intros Hf I. unfold updRec. destruct (recs m !! id) eqn:Hr; [|done]. by eapply Inv_similar.
Qed.

(** A key nobody owns gets a fresh reconciler. *)
Lemma Inv_register key m :
  Inv m → vips m !! key = None → deleting m !! key = None → Inv (register key m).
Proof.
  intros [I1 I2 I3 I4 I5 [I6 I6'] I7 I8 I9 I10] Hv Hd.
  assert (∀ id, is_Some (recs m !! id) → id ≠ next m) as Hfresh.
  { intros id [r Hr]. destruct (I5 _ _ Hr). lia. }
  split; simpl.
  - intros k id Hk. destruct (decide (k = key)) as [->|]; simplify_map_eq.
    + eexists. split_and!; [done|done|]. by split_and!; simpl; eauto.
    + destruct (I1 _ _ Hk) as (r & Hr & ?). exists r. by rewrite lookup_insert_ne by (symmetry; eauto).
  - intros k id Hk. destruct (I2 _ _ Hk) as (r & Hr & ?). exists r.
    by rewrite lookup_insert_ne by (symmetry; eauto).
  - intros k [id Hk]. destruct (decide (k = key)) as [->|]; simplify_map_eq; eauto.
  - done.
  - intros id r Hr. destruct (decide (id = next m)) as [->|]; simplify_map_eq.
    + split; [lia|]. intros _. left. by simplify_map_eq.
    + destruct (I5 _ _ Hr) as [? Ho]. split; [lia|]. intros Hs.
      destruct (Ho Hs) as [Ho'|Ho']; [|by right]. left. rewrite lookup_insert_ne; congruence.
  - split; [done|]. intros id r Hr. destruct (decide (id = next m)) as [->|]; simplify_map_eq; eauto.
  - intros e He. destruct (I7 _ He) as [Hlt Hle]. split; [lia|]. intros id [Hid|Hid]; [|eauto].
    destruct (decide (log_key e = key)) as [<-|]; simplify_map_eq; [lia|eauto].
  - intros e ok He Ha r Hr Hk. destruct (I7 _ He) as [Hlt _].
    rewrite lookup_insert_ne in Hr by lia. eauto.
  - done.
  - intros id Hid. specialize (I10 _ Hid). lia.
Qed.

Lemma Inv_setHandover h m :
  Inv m → (∀ id, is_Some (h !! id) → id < next m) → Inv (setHandover h m).
Proof. by intros [I1 I2 I3 I4 I5 I6 I7 I8 I9 I10] Hh. Qed.

Lemma Inv_OnVIPUpdate vip m : Inv m → Inv (OnVIPUpdate vip m).
Proof.
  intros I. unfold OnVIPUpdate. destruct (deleting m !! namespacedKey vip) as [id|] eqn:Hd.
  - destruct I as [I1 I2 I3 I4 I5 I6 I7 I8 I9 I10]. split; simpl; try done.
    intros key [v Hk]. destruct (decide (key = namespacedKey vip)) as [->|]; [by rewrite Hd|].
    rewrite lookup_insert_ne in Hk by done. eauto.
  - destruct (vips m !! namespacedKey vip) as [id|] eqn:Hv.
    + apply Inv_updRec; [apply similar_update|done].
    + by apply Inv_updRec; [apply similar_update|apply Inv_register].
Qed.

Lemma Inv_drop_pending key m :
  Inv m → Inv (setMaps m (vips m) (deleting m) (delete key (pendingRecreates m))).
Proof.
  intros [I1 I2 I3 I4 I5 I6 I7 I8 I9 I10]. split; simpl; try done.
  intros k [v [_ Hk]%lookup_delete_Some]. eauto.
Qed.

Lemma Inv_OnVIPDelete vip m : Inv m → Inv (OnVIPDelete vip m).
Proof.
  intros I. unfold OnVIPDelete. destruct (vips m !! namespacedKey vip) as [id|] eqn:Hv.
  2:{ destruct (pendingRecreates m !! namespacedKey vip); [|done].
      case_bool_decide; [|done]. by apply Inv_drop_pending. }
  destruct I as [I1 I2 I3 I4 I5 [I6 I6'] I7 I8 I9 I10].
  destruct (I1 _ _ Hv) as (r & Hr & Hk & (Hs1 & Hs3 & Hs4)).
  pose proof (I3 _ ltac:(by rewrite Hv)) as Hdn.
  unfold updRec. simpl. rewrite Hr. unfold setRec. simpl.
  assert (∀ k id', k ≠ namespacedKey vip → vips m !! k = Some id' ∨ deleting m !! k = Some id' → id' ≠ id) as Hne.
  { intros k id' Hk' Ho ->. destruct Ho as [Ho|Ho].
    - destruct (I1 _ _ Ho) as (? & ? & ? & _). congruence.
    - destruct (I2 _ _ Ho) as (? & ? & ? & _). congruence. }
  split; simpl; try done.
  - intros k id' [Hne' Hk']%lookup_delete_Some. destruct (I1 _ _ Hk') as (r0 & ? & ?).
    exists r0. rewrite lookup_insert_ne; [done|]. symmetry. eapply Hne; eauto.
  - intros k id' Hk'. destruct (decide (k = namespacedKey vip)) as [->|]; simplify_map_eq.
    + eexists. split_and!; [done|done|]. left. split; [done|].
      exists vip. unfold markDeleted. simpl. by rewrite Hs3.
    + destruct (I2 _ _ Hk') as (r0 & ? & ?). exists r0. rewrite lookup_insert_ne; [done|].
      symmetry. eapply Hne; eauto.
  - intros k [x [Hne' Hk']%lookup_delete_Some]. rewrite lookup_insert_ne by done. eauto.
  - intros k Hp. destruct (decide (k = namespacedKey vip)) as [->|];
      [rewrite lookup_insert_eq|rewrite lookup_insert_ne by done]; eauto.
  - intros id' r0 Hr0. destruct (decide (id' = id)) as [->|]; simplify_map_eq.
    + destruct (I5 _ _ Hr). split; [done|]. intros _. right. by rewrite Hk, lookup_insert_eq.
    + destruct (I5 _ _ Hr0) as [? Ho]. split; [done|]. intros Hs. destruct (Ho Hs) as [Ho'|Ho'].
      * left. rewrite lookup_delete_ne; [done|]. intros Heq. rewrite <- Heq in Ho'. congruence.
      * right. rewrite lookup_insert_ne; [done|]. intros Heq. rewrite <- Heq in Ho'. congruence.
  - split; [done|]. intros id' r0 Hr0. destruct (decide (id' = id)) as [->|]; simplify_map_eq; [|by eauto].
    simpl. eauto.
  - intros e He. destruct (I7 _ He) as [? Hle]. split; [done|]. intros id' Ho. apply Hle.
    destruct (decide (log_key e = namespacedKey vip)) as [Heq|].
    + rewrite Heq in *. rewrite lookup_insert_eq, lookup_delete_eq in Ho. naive_solver.
    + rewrite lookup_insert_ne, lookup_delete_ne in Ho by done. done.
  - intros e ok He Ha r0 Hr0 Hk0. destruct (decide (log_id e = id)) as [<-|]; simplify_map_eq; [|by eauto].
    simpl. eauto.
Qed.

(** Recording an action of the owner of a key. *)
Lemma Inv_record e r m :
  Inv m → recs m !! log_id e = Some r → rec_key r = log_key e →
  vips m !! log_key e = Some (log_id e) ∨ deleting m !! log_key e = Some (log_id e) →
  (∀ ok, log_action e = DeleteTried ok → is_Some (rec_delete r) ∧ (ok = true → rec_state r ≠ Running)) →
  (∀ y, y ∈ log m → after e y) →
  Inv (record e m).
Proof.
  intros [I1 I2 I3 I4 I5 I6 I7 I8 I9 I10] Hr Hk Ho Hdel Haft. split; simpl; try done.
  - intros x [->|Hx]%elem_of_cons; [|by eauto]. destruct (I5 _ _ Hr). split; [done|].
    intros id Hid. destruct Ho as [Ho|Ho], Hid as [Hid|Hid]; try (simplify_eq; lia);
      rewrite I3 in * by eauto; done.
  - intros x ok [->|Hx]%elem_of_cons Ha r0 Hr0 Hk0; [simplify_eq; auto|by eauto].
  - constructor; [|done]. apply Forall_forall. intros y Hy. by apply Haft.
Qed.

(** Moving a reconciler that is being deleted on. *)
Lemma Inv_leaving id r r' m :
  Inv m → recs m !! id = Some r → deleting m !! rec_key r = Some id →
  rec_key r' = rec_key r → rec_stop r' = rec_stop r → leaving r' →
  (∀ e ok, e ∈ log m → log_action e = DeleteTried ok → log_id e = id → rec_key r = log_key e →
     is_Some (rec_delete r') ∧ (ok = true → rec_state r' ≠ Running)) →
  Inv (setRec id r' m).
Proof.
  intros [I1 I2 I3 I4 I5 [I6 I6'] I7 I8 I9 I10] Hr Hd E1 E2 Hl Hlog. split; simpl; try done.
  - intros key id' Hv. destruct (I1 _ _ Hv) as (r0 & Hr0 & Hk & Hs).
    destruct (decide (id' = id)) as [->|]; [|exists r0; by rewrite lookup_insert_ne].
    simplify_eq. by rewrite I3 in Hd by eauto.
  - intros key id' Hv. destruct (I2 _ _ Hv) as (r0 & Hr0 & Hk & Hs).
    destruct (decide (id' = id)) as [->|]; [|exists r0; by rewrite lookup_insert_ne].
    simplify_eq. exists r'. by rewrite lookup_insert_eq.
  - intros id' r0 Hr0. destruct (decide (id' = id)) as [->|]; simplify_map_eq; [|by eauto].
    rewrite E1. destruct (I5 _ _ Hr). auto.
  - split; [done|]. intros id' r0 Hr0. destruct (decide (id' = id)) as [->|]; simplify_map_eq; [|by eauto].
    rewrite E2. eauto.
  - intros e ok He Ha r0 Hr0 Hk. destruct (decide (log_id e = id)) as [<-|]; simplify_map_eq; [|by eauto].
    rewrite E1 in Hk. eauto.
Qed.

(** An owner's action comes after what is in the log. *)
Lemma after_owner e r m :
  Inv m → recs m !! log_id e = Some r → rec_key r = log_key e → rec_state r = Running →
  vips m !! log_key e = Some (log_id e) ∨ deleting m !! log_key e = Some (log_id e) →
  (is_Some (rec_delete r) → ∃ ok, log_action e = DeleteTried ok) →
  ∀ y, y ∈ log m → after e y.
Proof.
  intros I Hr Hk Hrun Ho Hact y Hy Hkey. destruct (inv_log_ids _ I _ Hy) as [_ Hle]. rewrite <- Hkey in Hle.
  split; [by apply Hle|]. intros Hid ok Hok. rewrite Hid in Hr.
  destruct (inv_log_delete _ I _ _ Hy Hok _ Hr) as [Hd Hst]; [congruence|].
  split; [|by apply Hact]. destruct ok; [by destruct Hst|done].
Qed.

Lemma Inv_attempt id r evs vip ok m :
  Inv m → recs m !! id = Some r → rec_state r = Running →
  deleting m !! rec_key r = Some id → evs = [] →
  Inv (record {| log_key := rec_key r; log_id := id; log_action := DeleteTried ok |}
         (setRec id (attemptDelete r evs vip ok) m)).
Proof.
  intros I Hr Hrun Hd ->.
  assert (∀ y, y ∈ log m → after {| log_key := rec_key r; log_id := id; log_action := DeleteTried ok |} y) as Haft.
  { apply (after_owner _ r); simpl; eauto. }
  eapply (Inv_record _ (attemptDelete r [] vip ok)); simpl.
  - eapply Inv_leaving; [done..| | | |]; try (by destruct ok).
    + right. destruct ok; simpl; eauto.
    + intros e ok' He Ha Hid Hk. destruct (Haft _ He) as [_ Hf]; [done|]. simpl in Hf.
      destruct (Hf (eq_sym Hid) _ Ha) as [-> _]. split; [by destruct ok; simpl; eauto|done].
  - by rewrite lookup_insert_eq.
  - by destruct ok.
  - by right.
  - intros ok' [= <-]. destruct ok; simpl; eauto.
  - done.
Qed.

Lemma Inv_turn id r r' acts m :
  Inv m → recs m !! id = Some r → rec_state r = Running → turn (cancelled m) r acts r' →
  Inv (foldr (λ a, record {| log_key := rec_key r; log_id := id; log_action := a |})
         (setRec id r' m) acts).
Proof.
  intros I Hr Hrun Ht.
  pose proof (inv_alive _ I) as [Hnc Hns]. specialize (Hns _ _ Hr).
  destruct (inv_owned _ I _ _ Hr) as [Hlt Hown]. rewrite Hrun in Hown. specialize (Hown ltac:(done)).
  assert (∀ r1, similar r r1 → rec_state r1 = Running → Inv (foldr (λ a, record {| log_key := rec_key r; log_id := id; log_action := a |})
    (setRec id r1 m) (match rec_delete r, rec_current r with None, Some _ => [Reconciled] | _, _ => [] end))) as Hrec.
  { intros r1 Hs Hrun1. pose proof (Inv_similar _ _ _ _ I Hr Hs) as I'.
    destruct (rec_delete r) as [d|] eqn:Hd; [done|]. destruct (rec_current r); [|done]. simpl.
    eapply (Inv_record _ r1); simpl; [done|by rewrite lookup_insert_eq|apply Hs|done|done|].
    apply (after_owner _ r); simpl; [done..|]. rewrite Hd. by intros []. }
  inversion Ht as [Hc|Hs|vip evs ok He|vip ok Hrt Hdv|Htr|]; subst; try congruence.
  - assert (deleting m !! rec_key r = Some id ∧ evs = []) as [Hd ->].
    { destruct Hown as [Hv|Hd].
      - destruct (inv_vips _ I _ _ Hv) as (r0 & Hr0 & _ & (_ & He0 & _)). simplify_eq; try congruence.
      - split; [done|]. destruct (inv_deleting _ I _ _ Hd) as (r0 & Hr0 & _ & [(_ & v & He0 & _)|(_ & He0 & _)]);
          simplify_eq/=; try congruence. }
    by apply Inv_attempt.
  - assert (deleting m !! rec_key r = Some id ∧ rec_events r = []) as [Hd He].
    { destruct Hown as [Hv|Hd].
      - destruct (inv_vips _ I _ _ Hv) as (r0 & Hr0 & _ & (_ & _ & He0)). simplify_eq; try congruence.
      - split; [done|]. destruct (inv_deleting _ I _ _ Hd) as (r0 & Hr0 & _ & [(_ & v & _ & He0)|(_ & He0 & _)]);
          simplify_eq/=; try congruence. }
    by apply Inv_attempt.
  - apply Hrec; [|done]. by split_and!.
  - apply Hrec; [|done]. by split_and!.
Qed.

(** The callback of a loop that returned. *)
Lemma Inv_stopped id r m :
  Inv m → recs m !! id = Some r → rec_state r = Exited →
  Inv (onVIPReconcilerStopped (rec_key r) id (setRec id (finishRec r) m)).
Proof.
  intros I Hr Hex.
  destruct (inv_owned _ I _ _ Hr) as [Hlt Hown]. rewrite Hex in Hown. specialize (Hown ltac:(done)).
  destruct Hown as [Hv|Hd].
  { destruct (inv_vips _ I _ _ Hv) as (r0 & Hr0 & _ & (Hrun & _)). simplify_eq. congruence. }
  unfold onVIPReconcilerStopped. simpl. rewrite bool_decide_eq_true_2 by done.
  set (m1 := setMaps (setRec id (finishRec r) m) (vips m) (delete (rec_key r) (deleting m))
               (pendingRecreates m)).
  assert (∀ P, (∀ k, is_Some (P !! k) → k ≠ rec_key r → is_Some (pendingRecreates m !! k)) →
    P !! rec_key r = None →
    Inv (setMaps m1 (vips m1) (deleting m1) P)) as Hgone.
  { intros P HP HPk. destruct I as [I1 I2 I3 I4 I5 [I6 I6'] I7 I8 I9 I10].
    assert (∀ k id', vips m !! k = Some id' ∨ deleting m !! k = Some id' → k ≠ rec_key r → id' ≠ id) as Hne.
    { intros k id' Ho Hk ->. destruct Ho as [Ho|Ho].
      - destruct (I1 _ _ Ho) as (? & ? & ? & _). congruence.
      - destruct (I2 _ _ Ho) as (? & ? & ? & _). congruence. }
    split; simpl; try done.
    - intros key id' Hk. destruct (I1 _ _ Hk) as (r0 & ? & ? & ?). exists r0.
      rewrite lookup_insert_ne; [done|]. symmetry. apply (Hne key); [by left|].
      intros ->. by rewrite I3 in Hd by eauto.
    - intros key id' [Hk0 Hk]%lookup_delete_Some. destruct (I2 _ _ Hk) as (r0 & ? & ? & ?). exists r0.
      rewrite lookup_insert_ne; [done|]. symmetry. apply (Hne key); [by right|done].
    - intros key Hk. rewrite lookup_delete_None. right. by apply I3.
    - intros key Hk. destruct (decide (key = rec_key r)) as [->|]; [rewrite HPk in Hk; by destruct Hk|].
      rewrite lookup_delete_ne by done. apply I4. by apply HP.
    - intros id' r0 Hr0. destruct (decide (id' = id)) as [->|]; simplify_map_eq; [by split|].
      destruct (I5 _ _ Hr0) as [? Ho]. split; [done|]. intros Hs. destruct (Ho Hs) as [?|Ho']; [by left|].
      right. rewrite lookup_delete_ne; [done|]. intros Heq. rewrite <- Heq in Ho'. congruence.
    - split; [done|]. intros id' r0 Hr0. destruct (decide (id' = id)) as [->|]; simplify_map_eq; eauto.
    - intros e He. destruct (I7 _ He) as [? Hle]. split; [done|]. intros id' [?|[_ ?]%lookup_delete_Some]; eauto.
    - intros e ok He Ha r0 Hr0 Hk. destruct (decide (log_id e = id)) as [<-|]; simplify_map_eq; [|by eauto].
      simpl in Hk. destruct (I8 _ _ He Ha _ Hr Hk). by split. }
  destruct (pendingRecreates m !! rec_key r) as [pending|] eqn:Hp.
  - apply Inv_setHandover.
    2:{ intros id' [?|[_ ?]]%lookup_insert_is_Some; simpl; [lia|].
        apply Nat.lt_lt_succ_r, (inv_handover _ I). done. }
    apply (Inv_register (rec_key r)
             (setMaps m1 (vips m1) (deleting m1) (delete (rec_key r) (pendingRecreates m)))).
    + apply Hgone; [|by rewrite lookup_delete_eq]. intros k [x [_ Hx]%lookup_delete_Some] _. eauto.
    + simpl. destruct (vips m !! rec_key r) eqn:Hv; [|done].
      by rewrite (inv_disjoint _ I) in Hd by eauto.
    + simpl. by rewrite lookup_delete_eq.
  - apply (Hgone (pendingRecreates m)); [done|done].
Qed.

Lemma Inv_mstep m m' : Inv m → mstep m m' → Inv m'.
Proof.
  intros I Hs. destruct Hs.
  - by apply Inv_OnVIPUpdate.
  - by apply Inv_OnVIPDelete.
  - unfold OnHealthChange. case_match; [|done]. by apply Inv_updRec; [apply similar_trigger|].
  - unfold ReconcileAll. induction (snd <$> map_to_list (vips m)) as [|id ids IH]; simpl; [done|].
    by apply Inv_updRec; [apply similar_trigger|].
  - by eapply Inv_turn.
  - by apply Inv_stopped.
  - apply Inv_updRec; [apply similar_update|]. apply Inv_setHandover; [done|].
    intros id' [? [_ ?]%lookup_delete_Some]. apply I. eauto.
Qed.

Lemma Inv_reachable m : rtc mstep NewManager m → Inv m.
Proof.
  assert (∀ m0, Inv m0 → rtc mstep m0 m → Inv m) as Hgen.
  { intros m0 I Hs. induction Hs; eauto using Inv_mstep. }
  apply Hgen, Inv_new.
Qed.

(** ** Results *)

(** C12. One owner per key: in every reachable state the two maps of the
    manager are disjoint, a recreate is queued only behind a deletion, and two
    reconcilers of one key that have not finished are the same one; it is the
    one the maps name. *)
Theorem manager_single_owner m :
  rtc mstep NewManager m →
  (∀ key, is_Some (vips m !! key) → deleting m !! key = None) ∧
  (∀ key, is_Some (pendingRecreates m !! key) → is_Some (deleting m !! key)) ∧
  (∀ id id' r r', recs m !! id = Some r → recs m !! id' = Some r' → rec_key r = rec_key r' →
     rec_state r ≠ Finished → rec_state r' ≠ Finished → id = id').
Proof.
  intros I%Inv_reachable. split_and!; [apply I|apply I|].
  intros id id' r r' Hr Hr' Hk Hs Hs'.
  destruct (inv_owned _ I _ _ Hr) as [_ Ho], (inv_owned _ I _ _ Hr') as [_ Ho'].
  specialize (Ho Hs). specialize (Ho' Hs'). rewrite <- Hk in Ho'.
  destruct Ho as [Ho|Ho], Ho' as [Ho'|Ho']; try congruence;
    by rewrite (inv_disjoint _ I) in * by eauto.
Qed.

Lemma ForallOrdPairs_app_inv {A} (P : A → A → Prop) l1 x l2 :
  ForallOrdPairs P (l1 ++ x :: l2) → ∀ y, y ∈ l1 → P y x.
Proof.
  induction l1 as [|z l1 IH]; simpl; intros Hf y Hy; [by apply not_elem_of_nil in Hy|].
  inversion Hf as [|?? Hz Hf']; subst. apply elem_of_cons in Hy as [->|Hy]; [|by apply IH].
  rewrite Forall_forall in Hz. apply Hz. set_solver.
Qed.

(** No stale deletion: once a reconciler of a key was used, no older one
    does anything for that key; and after a reconciler tried to delete its VIP
    it reconciles no more, tries again only after a failure, and stops at the
    first success. *)
Theorem manager_no_stale_work m l1 e l2 e' :
  rtc mstep NewManager m → log m = l1 ++ e :: l2 → e' ∈ l1 → log_key e' = log_key e →
  log_id e ≤ log_id e' ∧
  (log_id e' = log_id e → ∀ ok, log_action e = DeleteTried ok →
   ok = false ∧ ∃ ok', log_action e' = DeleteTried ok').
Proof.
  intros I%Inv_reachable Hl He Hk. pose proof (inv_log _ I) as Hlog. rewrite Hl in Hlog.
  exact (ForallOrdPairs_app_inv _ _ _ _ Hlog _ He Hk).
Qed.

(** What the manager is going to look after for a key: the VIP its reconciler
    has or is being given, or the one queued behind a deletion. *)
Definition wanted (m : Manager) (key : string) : option VirtualIP :=
  match vips m !! key with
  | Some id =>
      match handover m !! id with
      | Some pending => Some pending
      | None => recs m !! id ≫= rec_current
      end
  | None => pendingRecreates m !! key
  end.
(** A callback is giving the registered reconciler of the key its VIP. *)
Definition inHandover (m : Manager) (key : string) : Prop :=
  ∃ id, vips m !! key = Some id ∧ is_Some (handover m !! id).

(** The specification of an event on what is wanted: an update replaces the
    VIP of its key; a deletion forgets it, unless the key already is in
    deletion and the VIP queued behind has another UID, so that the event is an
    old one. *)
Definition specUpdate (vip : VirtualIP) (W : string → option VirtualIP) (key : string) : option VirtualIP :=
  if decide (key = namespacedKey vip) then Some vip else W key.
Definition specDelete (vip : VirtualIP) (inDeletion : bool) (W : string → option VirtualIP) (key : string)
    : option VirtualIP :=
  if decide (key = namespacedKey vip) then
    if inDeletion then
      v ← W key; if decide (vip_UID v = vip_UID vip) then None else Some v
    else None
  else W key.

Lemma wanted_setRec id r r' m :
  recs m !! id = Some r → rec_current r' = rec_current r →
  ∀ key, wanted (setRec id r' m) key = wanted m key.
Proof.
  intros Hr Hc key. unfold wanted. simpl. destruct (vips m !! key) as [id'|]; [|done].
  destruct (handover m !! id'); [done|].
  destruct (decide (id' = id)) as [->|]; [rewrite lookup_insert_eq, Hr; simpl; congruence
                                         |by rewrite lookup_insert_ne].
Qed.

Lemma wanted_updRec f id m :
  (∀ r, rec_current (f r) = rec_current r) → ∀ key, wanted (updRec f id m) key = wanted m key.
Proof.
  intros Hf key. unfold updRec. destruct (recs m !! id) as [r|] eqn:Hr; [|done]. by eapply wanted_setRec.
Qed.

Lemma vips_lt m key id : Inv m → vips m !! key = Some id → id < next m.
Proof.
  intros I Hv. destruct (inv_vips _ I _ _ Hv) as (r & Hr & _). by destruct (inv_owned _ I _ _ Hr).
Qed.
Lemma vips_inj m key key' id : Inv m → vips m !! key = Some id → vips m !! key' = Some id → key = key'.
Proof.
  intros I Hv Hv'. destruct (inv_vips _ I _ _ Hv) as (? & ? & ? & _).
  destruct (inv_vips _ I _ _ Hv') as (? & ? & ? & _). congruence.
Qed.

(** Giving the registered reconciler of a key a VIP. *)
Lemma wanted_update key id vip m k :
  Inv m → vips m !! key = Some id → handover m !! id = None →
  wanted (updRec (update vip) id m) k = if decide (k = key) then Some vip else wanted m k.
Proof.
  intros I Hv Hh. destruct (inv_vips _ I _ _ Hv) as (r & Hr & _). unfold updRec. rewrite Hr.
  unfold wanted. simpl. case_decide as Hk; [subst; by rewrite Hv, Hh, lookup_insert_eq|].
  destruct (vips m !! k) as [id'|] eqn:Hv'; [|done]. destruct (handover m !! id'); [done|].
  rewrite lookup_insert_ne; [done|]. intros ->. eauto using vips_inj.
Qed.

(** A registered reconciler without a VIP. *)
Lemma wanted_register key m k :
  Inv m → wanted (register key m) k = if decide (k = key) then None else wanted m k.
Proof.
  intros I. unfold wanted. simpl. case_decide as Hk.
  - subst. rewrite !lookup_insert_eq. destruct (handover m !! next m) eqn:Hh; [|done].
    assert (next m < next m); [|lia]. apply (inv_handover _ I). by rewrite Hh.
  - rewrite lookup_insert_ne by done. destruct (vips m !! k) as [id|] eqn:Hv; [|done].
    pose proof (vips_lt _ _ _ I Hv). by rewrite lookup_insert_ne by lia.
Qed.

Lemma handover_fresh m : Inv m → handover m !! next m = None.
Proof.
  intros I. destruct (handover m !! next m) eqn:Hh; [|done].
  assert (next m < next m); [|lia]. apply (inv_handover _ I). by rewrite Hh.
Qed.

Lemma wanted_OnVIPUpdate vip m key :
  Inv m → ¬ inHandover m (namespacedKey vip) →
  wanted (OnVIPUpdate vip m) key = specUpdate vip (wanted m) key.
Proof.
  intros I Hnh. unfold OnVIPUpdate, specUpdate. destruct (deleting m !! namespacedKey vip) as [id|] eqn:Hd.
  - unfold wanted. simpl. case_decide as Hk.
    + subst. destruct (vips m !! namespacedKey vip) eqn:Hv; [|by rewrite lookup_insert_eq].
      by rewrite (inv_disjoint _ I) in Hd by eauto.
    + by rewrite lookup_insert_ne.
  - destruct (vips m !! namespacedKey vip) as [id|] eqn:Hv.
    + apply wanted_update; [done..|]. destruct (handover m !! id) eqn:Hh; [|done].
      destruct Hnh. exists id. by rewrite Hh.
    + rewrite (wanted_update (namespacedKey vip)); simpl.
      * rewrite wanted_register by done. by repeat case_decide.
      * by apply Inv_register.
      * by rewrite lookup_insert_eq.
      * by apply handover_fresh.
Qed.

Lemma wanted_OnVIPDelete vip m key :
  Inv m →
  wanted (OnVIPDelete vip m) key =
  specDelete vip (bool_decide (is_Some (deleting m !! namespacedKey vip))) (wanted m) key.
Proof.
  intros I. unfold OnVIPDelete, specDelete. destruct (vips m !! namespacedKey vip) as [id|] eqn:Hv.
  - rewrite (inv_disjoint _ I) by eauto. rewrite bool_decide_eq_false_2 by (by intros [? ?]).
    rewrite wanted_updRec by done. unfold wanted. simpl. case_decide as Hk'.
    + subst. rewrite lookup_delete_eq. destruct (pendingRecreates m !! namespacedKey vip) eqn:Hp; [|done].
      destruct (inv_pending _ I (namespacedKey vip)) as [x Hx]; [by rewrite Hp|].
      by rewrite (inv_disjoint _ I) in Hx by eauto.
    + by rewrite lookup_delete_ne.
  - unfold wanted. destruct (pendingRecreates m !! namespacedKey vip) as [v|] eqn:Hp.
    + rewrite (bool_decide_eq_true_2 (is_Some _)) by (apply I; eauto). case_bool_decide as Hu; simpl.
      * case_decide as Hk; [subst; rewrite Hv, lookup_delete_eq, Hp; simpl; by rewrite decide_True
                           |by rewrite lookup_delete_ne].
      * case_decide as Hk; [|done]. subst. rewrite Hv, Hp. simpl. by rewrite decide_False.
    + case_decide as Hk; [|done]. subst. rewrite Hv, Hp. by destruct (bool_decide _).
Qed.

Lemma wanted_stopped id r m key :
  Inv m → recs m !! id = Some r → rec_state r = Exited →
  wanted (onVIPReconcilerStopped (rec_key r) id (setRec id (finishRec r) m)) key = wanted m key.
Proof.
  intros I Hr Hex. rewrite <- (wanted_setRec id r (finishRec r) m Hr eq_refl key).
  destruct (inv_owned _ I _ _ Hr) as [Hlt Hown]. rewrite Hex in Hown. specialize (Hown ltac:(done)).
  destruct Hown as [Hv|Hd].
  { destruct (inv_vips _ I _ _ Hv) as (r0 & Hr0 & _ & (Hrun & _)). simplify_eq. congruence. }
  unfold onVIPReconcilerStopped. simpl. rewrite bool_decide_eq_true_2 by done.
  destruct (pendingRecreates m !! rec_key r) as [pending|] eqn:Hp; [|done].
  assert (vips m !! rec_key r = None) as Hvn.
  { destruct (vips m !! rec_key r) eqn:Hv; [|done]. by rewrite (inv_disjoint _ I) in Hd by eauto. }
  unfold wanted. simpl. destruct (decide (key = rec_key r)) as [->|Hk].
  - by rewrite Hvn, !lookup_insert_eq.
  - rewrite lookup_insert_ne by done. destruct (vips m !! key) as [id'|] eqn:Hv;
      [|by rewrite lookup_delete_ne].
    pose proof (vips_lt _ _ _ I Hv). by rewrite !(lookup_insert_ne _ (next m)) by lia.
Qed.

Lemma wanted_handover id pending m key :
  Inv m → handover m !! id = Some pending → wanted (finishHandover id pending m) key = wanted m key.
Proof.
  intros I Hh. unfold finishHandover. set (m1 := setHandover _ _).
  assert (Inv m1) as I1.
  { apply Inv_setHandover; [done|]. intros id' [? [_ ?]%lookup_delete_Some]. apply I. eauto. }
  destruct (vips m !! key) as [id'|] eqn:Hv.
  2:{ unfold updRec. destruct (recs m1 !! id); unfold wanted; simpl; by rewrite Hv. }
  destruct (decide (id' = id)) as [->|Hne].
  - rewrite (wanted_update key); [|done|done|by apply lookup_delete_eq]. rewrite decide_True by done.
    unfold wanted. by rewrite Hv, Hh.
  - unfold updRec. destruct (recs m1 !! id); unfold wanted; simpl; rewrite Hv; simpl;
      rewrite lookup_delete_ne by done; destruct (handover m !! id'); try done.
    by rewrite lookup_insert_ne.
Qed.

Lemma wanted_turn id r r' acts m key :
  recs m !! id = Some r → turn (cancelled m) r acts r' →
  wanted (foldr (λ a, record {| log_key := rec_key r; log_id := id; log_action := a |})
            (setRec id r' m) acts) key = wanted m key.
Proof.
  intros Hr Ht. assert (wanted (setRec id r' m) key = wanted m key) as <-.
  { eapply wanted_setRec; [done..|]. inversion Ht; subst; try done;
      unfold attemptDelete; by destruct ok. }
  clear Ht. induction acts as [|ac acts IH]; simpl; [done|]. by rewrite <- IH.
Qed.

Lemma wanted_ReconcileAll m key : wanted (ReconcileAll m) key = wanted m key.
Proof.
  unfold ReconcileAll. induction (snd <$> map_to_list (vips m)) as [|id ids IH]; simpl; [done|].
  by rewrite wanted_updRec.
Qed.


End Manager.

(** ** A concrete run: deleted, recreated while the deletion fails, then done *)
Module ManagerExamples.
Import Manager.

Definition vip (uid : string) : VirtualIP :=
  {| vip_Namespace := "ns"; vip_Name := "web"; vip_UID := uid; vip_Generation := 1;
     vip_DeletionTimestamp := None;
     vip_Spec := {| spec_Address := "10.0.0.1"; spec_Port := 80; spec_Protocol := ProtocolTCP;
                    spec_EncapType := ""; spec_DSCP := None; spec_Backends := [];
                    spec_HealthCheck := None |};
     vip_Status := empty_status |}.

(** The turn of reconciler [id] given by what it does. *)
Definition turned (id : nat) (r' : vipReconciler) (acts : list action) (m : Manager) : Manager :=
  foldr (λ a, record {| log_key := "ns/web"; log_id := id; log_action := a |}) (setRec id r' m) acts.
Definition theRec (id : nat) (m : Manager) : vipReconciler :=
  default (newVIPReconciler "") (recs m !! id).

Definition m1 : Manager := OnVIPUpdate (vip "u1") NewManager.
Definition m2 : Manager := turned 0 (theRec 0 m1) [Reconciled] m1.
Definition m3 : Manager := OnVIPUpdate (vip "u2") (OnVIPDelete (vip "u1") m2).
Definition m4 : Manager :=
  turned 0 (attemptDelete (theRec 0 m3) [] (vip "u1") false) [DeleteTried false] m3.
Definition m5 : Manager :=
  turned 0 (attemptDelete (theRec 0 m4) [] (vip "u1") true) [DeleteTried true] m4.
Definition m5' : Manager := onVIPReconcilerStopped "ns/web" 0 (setRec 0 (finishRec (theRec 0 m5)) m5).
Definition m6 : Manager := finishHandover 1 (vip "u2") m5'.
Definition m7 : Manager := turned 1 (theRec 1 m6) [Reconciled] m6.

Lemma reach_m3 : rtc mstep NewManager m3.
Proof.
  eapply rtc_l; [apply (step_update (vip "u1"))|].
  eapply rtc_l; [apply (step_turn 0 (theRec 0 m1) (theRec 0 m1) [Reconciled] m1); try reflexivity;
                 apply (turn_tick _ (theRec 0 m1))|].
  eapply rtc_l; [apply (step_delete (vip "u1"))|]. apply rtc_once, step_update.
Qed.

Lemma reach_m5' : rtc mstep NewManager m5'.
Proof.
  etrans; [exact reach_m3|].
  eapply rtc_l; [apply (step_turn 0 (theRec 0 m3) (attemptDelete (theRec 0 m3) [] (vip "u1") false)
                   [DeleteTried false] m3); try reflexivity;
                 apply (turn_event _ (theRec 0 m3) (vip "u1") [] false); reflexivity|].
  eapply rtc_l; [apply (step_turn 0 (theRec 0 m4) (attemptDelete (theRec 0 m4) [] (vip "u1") true)
                   [DeleteTried true] m4); try reflexivity;
                 apply (turn_retry _ (theRec 0 m4) (vip "u1") true); reflexivity|].
  apply rtc_once. apply (step_stopped 0 (theRec 0 m5) m5); reflexivity.
Qed.

Lemma reach_m6 : rtc mstep NewManager m6.
Proof. eapply rtc_r; [exact reach_m5'|]. apply (step_handover 1 (vip "u2") m5'). reflexivity. Qed.

Lemma step_m7 : mstep m6 m7.
Proof.
  apply (step_turn 1 (theRec 1 m6) (theRec 1 m6) [Reconciled] m6); try reflexivity.
  apply (turn_tick _ (theRec 1 m6)).
Qed.

Lemma manager_single_owner_witness :
  vips m6 !! "ns/web" = Some 1 ∧ deleting m6 !! "ns/web" = None.
Proof.
  split; [reflexivity|]. destruct (manager_single_owner m6 reach_m6) as [Hd _]. apply Hd.
  by exists 1.
Defined.

(** The second attempt of the reconciler came after a failed one. *)
Definition tried (ok : bool) : logEntry := {| log_key := "ns/web"; log_id := 0; log_action := DeleteTried ok |}.
Definition reconciled (id : nat) : logEntry := {| log_key := "ns/web"; log_id := id; log_action := Reconciled |}.
Lemma manager_no_stale_work_witness :
  log_id (tried false) ≤ log_id (tried true) ∧
  (false = false ∧ ∃ ok', log_action (tried true) = DeleteTried ok').
Proof.
  destruct (manager_no_stale_work m7 [reconciled 1; tried true] (tried false) [reconciled 0] (tried true))
    as [Hle Hact].
  - eapply rtc_r; [exact reach_m6|exact step_m7].
  - reflexivity.
  - right. apply list_elem_of_singleton. reflexivity.
  - reflexivity.
  - split; [exact Hle|]. apply Hact; reflexivity.
Defined.


(** The callback of a finished deletion gives the recreated reconciler its
    queued VIP only after releasing the manager's lock: an update of the same
    VIP handled in between is overwritten by the older queued one, and no
    later step brings it back: the manager's state is a reachable one with
    nothing in flight whose reconciler holds the old VIP. *)
Theorem handover_loses_update :
  rtc mstep NewManager m5' ∧
  mstep m5' (OnVIPUpdate (vip "u3") m5') ∧
  mstep (OnVIPUpdate (vip "u3") m5') (finishHandover 1 (vip "u2") (OnVIPUpdate (vip "u3") m5')) ∧
  let m := finishHandover 1 (vip "u2") (OnVIPUpdate (vip "u3") m5') in
  handover m = ∅ ∧ pendingRecreates m = ∅ ∧ wanted m "ns/web" = Some (vip "u2").
Proof.
  split; [exact reach_m5'|]. split; [apply step_update|].
  split; [apply step_handover; reflexivity|]. by vm_compute.
Qed.

End ManagerExamples.
