(* ===== verification/Lease.v ===== *)
(** * Rollout leases (internal/agent/rollout/lease.go)

    [Coordinator] lets one agent of the cluster at a time do disruptive work
    for a key: inside a process a lock per key, across processes a Kubernetes
    Lease object.  The API server is the class [LeaseAPI] with the laws of
    its optimistic concurrency; every API call of every agent is one step of
    [lstep], so calls of different agents interleave freely, and each agent
    reads its own clock. *)

From stdpp Require Import base tactics list gmap strings.
From S2P Require Import Prelude Types.

Module Lease.

(** ** Data *)
Record LeaseSpec := {
  ls_HolderIdentity : option string;
  ls_LeaseDurationSeconds : option Z;
  ls_AcquireTime : option Z;
  ls_RenewTime : option Z;
  ls_LeaseTransitions : option Z;
}.
Record Lease := { le_resourceVersion : Z; le_Spec : LeaseSpec }.

Record Config := {
  co_leaseDuration : Z;
  co_retryInterval : Z;
  co_releaseTimeout : Z;
}.
Definition defaultLeaseDuration : Z := 2 * Minute.
Definition defaultRetryInterval : Z := Second.
Definition defaultReleaseTimeout : Z := 5 * Second.
Definition maxHolderIdentityLength : nat := 128.

Definition NewWithClient (cfg : Config) : Config :=
  {| co_leaseDuration := if (co_leaseDuration cfg <=? 0)%Z then defaultLeaseDuration else co_leaseDuration cfg;
     co_retryInterval := if (co_retryInterval cfg <=? 0)%Z then defaultRetryInterval else co_retryInterval cfg;
     co_releaseTimeout := if (co_releaseTimeout cfg <=? 0)%Z then defaultReleaseTimeout else co_releaseTimeout cfg |}.

Definition valueOrEmpty (value : option string) : string := default "" value.
Definition holderOf (l : Lease) : string := valueOrEmpty (ls_HolderIdentity (le_Spec l)).

(** The nanoseconds of [d] rounded up to seconds, within [1, MaxInt32].  The
    source rounds [d.Seconds()], a float64, which keeps the nanosecond below
    2^23 seconds. *)
Definition leaseDurationSeconds (d : Z) : Z :=
  let seconds := (- (- d / Second))%Z in
  let seconds := if (seconds <? 1)%Z then 1%Z else seconds in
  if (2147483647 <? seconds)%Z then 2147483647%Z else seconds.

Definition leaseHolderIdentity (base instance : string) : string :=
  let suffix := "/" +:+ instance in
  let n := String.length suffix in
  if (String.length base + n <=? maxHolderIdentityLength)%nat then base +:+ suffix
  else if (maxHolderIdentityLength <=? n)%nat
  then String.substring (n - maxHolderIdentityLength) maxHolderIdentityLength suffix
  else String.substring 0 (maxHolderIdentityLength - n) base +:+ suffix.

(** ** Decisions on a lease; [me] is the holder identity, [now] the clock *)
Definition leaseDuration (own : Z) (s : LeaseSpec) : Z :=
  match ls_LeaseDurationSeconds s with
  | Some n => if (0 <? n)%Z then (n * Second)%Z else own
  | None => own
  end.
Definition renewedAt (s : LeaseSpec) : option Z :=
  match ls_RenewTime s with Some t => Some t | None => ls_AcquireTime s end.

Definition leaseAvailable (me : string) (own now : Z) (l : Lease) : bool :=
  let holder := holderOf l in
  if bool_decide (holder = "") || bool_decide (holder = me) then true
  else
    match renewedAt (le_Spec l) with
    | None => true
    | Some t => (t + leaseDuration own (le_Spec l) <=? now)%Z
    end.

Definition newLease (me : string) (own now : Z) : LeaseSpec :=
  {| ls_HolderIdentity := Some me; ls_LeaseDurationSeconds := Some (leaseDurationSeconds own);
     ls_AcquireTime := Some now; ls_RenewTime := Some now; ls_LeaseTransitions := Some 0%Z |}.

Definition claimLease (me : string) (own now : Z) (l : Lease) : Lease :=
  let s := le_Spec l in
  let previousHolder := holderOf l in
  let transitions := default 0%Z (ls_LeaseTransitions s) in
  let transitions := if bool_decide (previousHolder ≠ "") && bool_decide (previousHolder ≠ me)
                     then wrapS 32 (transitions + 1) else transitions in
  {| le_resourceVersion := le_resourceVersion l;
     le_Spec := {| ls_HolderIdentity := Some me;
                   ls_LeaseDurationSeconds := Some (leaseDurationSeconds own);
                   ls_AcquireTime := if bool_decide (ls_AcquireTime s = None) || bool_decide (previousHolder ≠ me)
                                     then Some now else ls_AcquireTime s;
                   ls_RenewTime := Some now;
                   ls_LeaseTransitions := Some transitions |} |}.

Definition renewLease (own now : Z) (l : Lease) : Lease :=
  let s := le_Spec l in
  {| le_resourceVersion := le_resourceVersion l;
     le_Spec := {| ls_HolderIdentity := ls_HolderIdentity s;
                   ls_LeaseDurationSeconds := Some (leaseDurationSeconds own);
                   ls_AcquireTime := ls_AcquireTime s; ls_RenewTime := Some now;
                   ls_LeaseTransitions := ls_LeaseTransitions s |} |}.

Definition releaseLease (now : Z) (l : Lease) : Lease :=
  let s := le_Spec l in
  {| le_resourceVersion := le_resourceVersion l;
     le_Spec := {| ls_HolderIdentity := None; ls_LeaseDurationSeconds := ls_LeaseDurationSeconds s;
                   ls_AcquireTime := ls_AcquireTime s; ls_RenewTime := Some now;
                   ls_LeaseTransitions := ls_LeaseTransitions s |} |}.

(** ** The API server

    [MicroTime] travels with microseconds.  A call may fail after it was
    carried out. *)
Definition micro (t : Z) : Z := (t - t `mod` 1000)%Z.
Definition microSpec (s : LeaseSpec) : LeaseSpec :=
  {| ls_HolderIdentity := ls_HolderIdentity s; ls_LeaseDurationSeconds := ls_LeaseDurationSeconds s;
     ls_AcquireTime := micro <$> ls_AcquireTime s; ls_RenewTime := micro <$> ls_RenewTime s;
     ls_LeaseTransitions := ls_LeaseTransitions s |}.

Class LeaseAPI (E : Type) := {
  apiGet : string → ST E (err + Lease);
  apiCreate : string → LeaseSpec → ST E (err + Lease);
  apiUpdate : string → Lease → ST E (err + Lease);
}.

Class LeaseAPILaws (E : Type) `{LeaseAPI E} := {
  stored : E → string → option Lease;
  get_reads : ∀ n e r e', apiGet n e = (r, e') →
    (∀ n', stored e' n' = stored e n') ∧ (∀ l, r = inr l → stored e n = Some l);
  create_new : ∀ n s e r e', apiCreate n s e = (r, e') →
    (stored e n = None ∧ ∃ l, stored e' n = Some l ∧ le_Spec l = microSpec s ∧ ∀ x, r = inr x → x = l) ∨
    (stored e' n = stored e n ∧ ∃ x, r = inl x);
  update_cas : ∀ n l e r e', apiUpdate n l e = (r, e') →
    (∃ l0 l', stored e n = Some l0 ∧ le_resourceVersion l0 = le_resourceVersion l ∧
       (le_resourceVersion l0 < le_resourceVersion l')%Z ∧ stored e' n = Some l' ∧
       le_Spec l' = microSpec (le_Spec l) ∧ ∀ x, r = inr x → x = l') ∨
    (stored e' n = stored e n ∧ ∃ x, r = inl x);
}.

(** ** What an agent does with the answer of each call

    [Idle] is before or between attempts to acquire; [Claiming] and
    [Creating] have a write ready; [Holding], [Renewing] and [Lost] are inside
    [fn], with the renewal time of the lease as last written ([Lost] after a
    renewal failed, while [fn] has not returned yet); [Finishing] and
    [Releasing] are after [fn]. *)
Inductive phase :=
  | Idle
  | Creating (s : LeaseSpec)
  | Claiming (l : Lease)
  | Holding (renewed : Z)
  | Renewing (renewed : Z) (l : Lease)
  | Lost (renewed : Z)
  | Finishing
  | Releasing (l : Lease).

Definition IsNotFound (e : err) : bool := match e with ErrNotFound _ => true | _ => false end.
Definition IsConflict (e : err) : bool := match e with ErrConflict _ => true | _ => false end.

Definition renewTime (l : Lease) : Z := default 0%Z (ls_RenewTime (le_Spec l)).

(** [tryAcquire]: after [Get], and after [Create] or [Update]. *)
Definition tryAcquire_got (me : string) (own now : Z) (r : err + Lease) : phase :=
  match r with
  | inl e => if IsNotFound e then Creating (newLease me own now) else Idle
  | inr l => if leaseAvailable me own now l then Claiming (claimLease me own now l) else Idle
  end.
Definition tryAcquire_wrote (r : err + Lease) : phase :=
  match r with inl _ => Idle | inr l => Holding (renewTime l) end.

(** [renew]: after [Get]; after [Update], which is retried on a conflict
    ([exhausted] once the retries are used up). *)
Definition renew_got (me : string) (own now t : Z) (r : err + Lease) : phase :=
  match r with
  | inl _ => Lost t
  | inr l => if bool_decide (holderOf l = me) then Renewing t (renewLease own now l) else Lost t
  end.
Definition renew_wrote (t : Z) (exhausted : bool) (r : err + Lease) : phase :=
  match r with
  | inl e => if IsConflict e && negb exhausted then Holding t else Lost t
  | inr l => Holding (renewTime l)
  end.

(** [release] *)
Definition release_got (me : string) (now : Z) (r : err + Lease) : phase :=
  match r with
  | inl _ => Idle
  | inr l => if bool_decide (holderOf l = me) then Releasing (releaseLease now l) else Idle
  end.
Definition release_wrote (exhausted : bool) (r : err + Lease) : phase :=
  match r with
  | inl e => if IsConflict e && negb exhausted then Finishing else Idle
  | inr _ => Idle
  end.

(** ** The cluster *)
Section Cluster.
Context {E : Type} `{LeaseAPI E}.
(** One key; per agent the lease duration it is configured with and its clock. *)
Variables (name : string) (dur : string → Z) (clk : string → Z → Z).

Record Cluster := { cl_api : E; cl_now : Z; cl_phase : string → phase }.

Definition goto (i : string) (p : phase) (e : E) (c : Cluster) : Cluster :=
  {| cl_api := e; cl_now := cl_now c; cl_phase := λ j, if decide (j = i) then p else cl_phase c j |}.

Inductive lstep : Cluster → Cluster → Prop :=
  | l_time t c : (cl_now c ≤ t)%Z →
      lstep c {| cl_api := cl_api c; cl_now := t; cl_phase := cl_phase c |}
  | l_acquire_get i r e c : i ≠ "" → cl_phase c i = Idle → apiGet name (cl_api c) = (r, e) →
      lstep c (goto i (tryAcquire_got i (dur i) (clk i (cl_now c)) r) e c)
  | l_create i s r e c : cl_phase c i = Creating s → apiCreate name s (cl_api c) = (r, e) →
      lstep c (goto i (tryAcquire_wrote r) e c)
  | l_claim i l r e c : cl_phase c i = Claiming l → apiUpdate name l (cl_api c) = (r, e) →
      lstep c (goto i (tryAcquire_wrote r) e c)
  | l_renew_get i t r e c : cl_phase c i = Holding t → apiGet name (cl_api c) = (r, e) →
      lstep c (goto i (renew_got i (dur i) (clk i (cl_now c)) t r) e c)
  | l_renew i t l exhausted r e c : cl_phase c i = Renewing t l → apiUpdate name l (cl_api c) = (r, e) →
      lstep c (goto i (renew_wrote t exhausted r) e c)
  | l_done i t c : cl_phase c i = Holding t ∨ cl_phase c i = Lost t →
      lstep c (goto i Finishing (cl_api c) c)
  | l_release_get i r e c : cl_phase c i = Finishing → apiGet name (cl_api c) = (r, e) →
      lstep c (goto i (release_got i (clk i (cl_now c)) r) e c)
  | l_release i l exhausted r e c : cl_phase c i = Releasing l → apiUpdate name l (cl_api c) = (r, e) →
      lstep c (goto i (release_wrote exhausted r) e c).

(** Inside [fn], with a lease last renewed at [t]. *)
Definition inside (p : phase) (t : Z) : Prop :=
  p = Holding t ∨ (∃ l, p = Renewing t l) ∨ p = Lost t.

Definition initCluster (e : E) (now : Z) : Cluster := {| cl_api := e; cl_now := now; cl_phase := λ _, Idle |}.

End Cluster.

(** ** Mutual exclusion *)
Section Exclusion.
Context {E : Type} `{LeaseAPI E} `{!LeaseAPILaws E}.
Variables (name : string) (dur : string → Z) (clk : string → Z → Z) (skew : Z).
(** Clocks do not go back, and differ by at most [skew]. *)
Hypothesis clk_mono : ∀ i t t', (t ≤ t' → clk i t ≤ clk i t')%Z.
Hypothesis clk_skew : ∀ i j t, (clk j t ≤ clk i t + skew)%Z.

Abbreviation step := (lstep name dur clk).
(** What a lease of agent [i] is good for. *)
Definition validity (i : string) : Z := (leaseDurationSeconds (dur i) * Second)%Z.

Lemma leaseDurationSeconds_pos d : (0 < leaseDurationSeconds d)%Z.
Proof.
  unfold leaseDurationSeconds. destruct (Z.ltb_spec (- (- d / Second))%Z 1);
    [done|]. destruct (Z.ltb_spec 2147483647 (- (- d / Second))%Z); lia.
Qed.

Lemma micro_le t : (micro t ≤ t)%Z.
Proof. unfold micro. pose proof (Z.mod_pos_bound t 1000). lia. Qed.
Lemma micro_mono t t' : (t ≤ t' → micro t ≤ micro t')%Z.
Proof.
  intros. unfold micro. pose proof (Z_div_mod_eq_full t 1000). pose proof (Z_div_mod_eq_full t' 1000).
  assert (t / 1000 ≤ t' / 1000)%Z by (apply Z.div_le_mono; lia). lia.
Qed.
Lemma micro_idem t : micro (micro t) = micro t.
Proof.
  unfold micro. pose proof (Z_div_mod_eq_full t 1000) as Ht.
  replace (t - t `mod` 1000)%Z with (t / 1000 * 1000)%Z by lia. rewrite Z_mod_mult. lia.
Qed.

(** A write agent [i] prepared, and a lease that is [i]'s since [t]. *)
Definition specOk (i : string) (now : Z) (s : LeaseSpec) : Prop :=
  ls_HolderIdentity s = Some i ∧ ls_LeaseDurationSeconds s = Some (leaseDurationSeconds (dur i)) ∧
  ∃ r, ls_RenewTime s = Some r ∧ (micro r ≤ micro (clk i now))%Z.
Definition owns (i : string) (t : Z) (l : Lease) : Prop :=
  holderOf l = i ∧ ls_LeaseDurationSeconds (le_Spec l) = Some (leaseDurationSeconds (dur i)) ∧
  ∃ r, ls_RenewTime (le_Spec l) = Some r ∧ (t ≤ r)%Z.
(** What was read still holds unless the lease was written since. *)
Definition readBefore (so : option Lease) (l : Lease) (P : Lease → Prop) : Prop :=
  ∃ l0, so = Some l0 ∧ (le_resourceVersion l ≤ le_resourceVersion l0)%Z ∧
        (le_resourceVersion l0 = le_resourceVersion l → P l0).
Definition heldOk (so : option Lease) (now : Z) (i : string) (t : Z) : Prop :=
  (t ≤ micro (clk i now))%Z ∧
  ((∃ l, so = Some l ∧ owns i t l) ∨ (t + validity i ≤ clk i now + skew)%Z).

Definition agentOk (so : option Lease) (now : Z) (i : string) (p : phase) : Prop :=
  (p ≠ Idle → i ≠ "") ∧
  match p with
  | Idle | Finishing => True
  | Creating s => specOk i now s
  | Claiming l => specOk i now (le_Spec l) ∧
      readBefore so l (λ l0, leaseAvailable i (dur i) (clk i now) l0 = true)
  | Holding t | Lost t => heldOk so now i t
  | Renewing t l => heldOk so now i t ∧ specOk i now (le_Spec l) ∧ (t ≤ micro (renewTime l))%Z ∧
      readBefore so l (λ l0, holderOf l0 = i)
  | Releasing l => readBefore so l (λ l0, holderOf l0 = i)
  end.

Definition LInv (c : Cluster) : Prop :=
  ∀ i, agentOk (stored (cl_api c) name) (cl_now c) i (cl_phase c i).

(** Time passing. *)
Lemma leaseAvailable_mono me own now now' l :
  (now ≤ now')%Z → leaseAvailable me own now l = true → leaseAvailable me own now' l = true.
Proof.
  unfold leaseAvailable. destruct (_ || _); [done|]. destruct (renewedAt _); [|done].
  rewrite !Z.leb_le. lia.
Qed.
Lemma specOk_time i now now' s : (now ≤ now')%Z → specOk i now s → specOk i now' s.
Proof.
  intros Hle (? & ? & r & Hr & Hm). split_and!; try done. exists r. split; [done|].
  etrans; [done|]. by apply micro_mono, clk_mono.
Qed.
Lemma heldOk_time so i t now now' : (now ≤ now')%Z → heldOk so now i t → heldOk so now' i t.
Proof.
  intros Hle [Hm Hd]. pose proof (clk_mono i _ _ Hle). split; [|destruct Hd; [by left|right; lia]].
  etrans; [done|]. by apply micro_mono.
Qed.
Lemma agentOk_time so i p now now' : (now ≤ now')%Z → agentOk so now i p → agentOk so now' i p.
Proof.
  intros Hle [Hn Hp]. split; [done|].
  destruct p; try done; try (by eapply heldOk_time); try (by eapply specOk_time).
  - destruct Hp as [Hs (l0 & -> & Hv & Ha)]. split; [by eapply specOk_time|]. exists l0. split_and!; [done..|].
    intros Heq. eapply leaseAvailable_mono; [by apply clk_mono|auto].
  - destruct Hp as (Hh & Hs & ?). split_and!; try done; [by eapply heldOk_time|by eapply specOk_time|naive_solver..].
Qed.

(** Another agent's write: it is a new version, and the lease it replaces was
    not one that [i] could still count on. *)
Lemma readBefore_write l0 l' l P :
  (le_resourceVersion l0 < le_resourceVersion l')%Z → readBefore (Some l0) l P → ∀ Q, readBefore (Some l') l Q.
Proof. intros Hlt (l1 & [= <-] & Hv & _) Q. exists l'. split_and!; [done|lia|lia]. Qed.
Lemma heldOk_write l0 l' now i t :
  (owns i t l0 → (t + validity i ≤ clk i now + skew)%Z) → heldOk (Some l0) now i t → heldOk (Some l') now i t.
Proof. intros He [Hm [(l & [= <-] & Ho)|Hd]]; split; auto. Qed.
Lemma agentOk_write l0 l' now i p :
  (le_resourceVersion l0 < le_resourceVersion l')%Z →
  (∀ t, i ≠ "" → owns i t l0 → (t + validity i ≤ clk i now + skew)%Z) →
  agentOk (Some l0) now i p → agentOk (Some l') now i p.
Proof.
  intros Hlt He [Hn Hp]. split; [done|].
  destruct p; try done; try (by eapply heldOk_write; [by intros; apply He; [apply Hn|]|]); try (by eapply readBefore_write).
  - destruct Hp as [Hs Hr]. split; [done|]. by eapply readBefore_write.
  - destruct Hp as (Hh & Hs & Ht & Hr). split_and!; try done; [by eapply heldOk_write; [by intros; apply He; [apply Hn|]|]|by eapply readBefore_write].
Qed.
Lemma agentOk_create l' now i p : agentOk None now i p → agentOk (Some l') now i p.
Proof.
  intros [Hn Hp]. split; [done|].
  assert (∀ t, heldOk None now i t → heldOk (Some l') now i t) as Hh.
  { intros t [Hm [(? & ? & _)|Hd]]; [done|]. by split; [|right]. }
  destruct p as [| |l| |t l| | |l]; try done; try (by apply Hh).
  - by destruct Hp as [_ (? & ? & _)].
  - by destruct Hp as (_ & _ & _ & ? & ? & _).
  - by destruct Hp as (? & ? & _).
Qed.

(** The agent that wrote holds the lease. *)
Lemma heldOk_wrote i now s l :
  specOk i now s → le_Spec l = microSpec s → heldOk (Some l) now i (renewTime l).
Proof.
  intros (Hh & Hd & r & Hr & Hm) Hs. unfold heldOk, owns, renewTime, holderOf. rewrite Hs. simpl.
  rewrite Hr. simpl. split; [done|]. left. exists l. rewrite Hs. simpl. rewrite Hh, Hd, Hr. simpl.
  split_and!; [done..|]. by eexists.
Qed.

(** The write of agent [j] and everyone else: [P] is what made [j] write. *)
Lemma LInv_update j l r e c p (P : Lease → Prop) :
  LInv c → apiUpdate name l (cl_api c) = (r, e) →
  readBefore (stored (cl_api c) name) l P →
  (∀ i t l0, i ≠ j → P l0 → owns i t l0 → i ≠ "" → (t + validity i ≤ clk i (cl_now c) + skew)%Z) →
  (∀ l', stored e name = Some l' → le_Spec l' = microSpec (le_Spec l) → (∀ x, r = inr x → x = l') →
     agentOk (Some l') (cl_now c) j p) →
  (∀ x, r = inl x → agentOk (stored (cl_api c) name) (cl_now c) j p) →
  LInv (goto j p e c).
Proof.
  intros I Hu Hrb Hent Hdone Hfail i. unfold goto. simpl.
  destruct (update_cas _ _ _ _ _ Hu) as [(l0 & l' & Hst & Hv & Hlt & Hst' & Hs & Hr)|[Hst (x & Hx)]].
  - rewrite Hst'. destruct (decide (i = j)) as [->|Hne]; [by apply Hdone|].
    destruct Hrb as (l1 & Hl1 & _ & HP). rewrite Hst in Hl1. injection Hl1 as <-.
    pose proof (I i) as Hi. rewrite Hst in Hi.
    apply (agentOk_write l0); [done| |done]. intros t Hi' Ho. by eapply Hent; [|apply HP| |].
  - rewrite Hst. destruct (decide (i = j)) as [->|Hne]; [by eapply Hfail|apply I].
Qed.

(** A read changes nothing for the others. *)
Lemma LInv_get j r e c p :
  LInv c → apiGet name (cl_api c) = (r, e) →
  ((∀ l, r = inr l → stored (cl_api c) name = Some l) →
   agentOk (stored (cl_api c) name) (cl_now c) j p) →
  LInv (goto j p e c).
Proof.
  intros I Hg Hp i. unfold goto. simpl. destruct (get_reads _ _ _ _ Hg) as [Hsame Hr].
  rewrite Hsame. destruct (decide (i = j)) as [->|]; [by apply Hp|apply I].
Qed.

Lemma agentOk_got i own now so r :
  i ≠ "" → own = dur i → (∀ l, r = inr l → so = Some l) →
  agentOk so now i (tryAcquire_got i own (clk i now) r).
Proof.
  intros Hi -> Hr. split; [done|]. unfold tryAcquire_got. destruct r as [e|l].
  - destruct (IsNotFound e); [|done]. unfold specOk. simpl. split_and!; [done..|]. by eexists.
  - destruct (leaseAvailable _ _ _ l) eqn:Ha; [|done]. unfold specOk. simpl. split.
    + split_and!; [done..|]. by eexists.
    + exists l. split_and!; [by apply Hr|done|done].
Qed.

(** An available lease is nobody's, the claimer's, or one its owner can no
    longer count on. *)
Lemma available_expired i j t l now :
  i ≠ j → i ≠ "" → leaseAvailable j (dur j) (clk j now) l = true → owns i t l →
  (t + validity i ≤ clk i now + skew)%Z.
Proof.
  intros Hne Hi Ha (Hh & Hd & r & Hr & Ht). unfold leaseAvailable in Ha. rewrite Hh in Ha.
  rewrite !bool_decide_eq_false_2 in Ha by done. simpl in Ha. unfold renewedAt, leaseDuration in Ha.
  rewrite Hr, Hd in Ha. pose proof (leaseDurationSeconds_pos (dur i)) as Hp.
  apply Z.ltb_lt in Hp. rewrite Hp in Ha. apply Z.leb_le in Ha. pose proof (clk_skew i j now).
  unfold validity. lia.
Qed.

Lemma other_owner i j t l : i ≠ j → holderOf l = j → owns i t l → False.
Proof. intros Hne Hh [Hi _]. congruence. Qed.

Lemma agentOk_wrote so now i s l r :
  i ≠ "" → specOk i now s → so = Some l → le_Spec l = microSpec s → (∀ x, r = inr x → x = l) →
  agentOk so now i (tryAcquire_wrote r).
Proof.
  intros Hi Hs -> Hl Hr. split; [done|]. destruct r as [x|x]; [done|]. simpl.
  rewrite (Hr x eq_refl). by eapply heldOk_wrote.
Qed.

Lemma LInv_step c c' : LInv c → step c c' → LInv c'.
Proof.
  intros I Hst. destruct Hst as [t c Ht|i r e c Hi Hp Hg|i s r e c Hp Hc|i l r e c Hp Hu|i t r e c Hp Hg
    |i t l ex r e c Hp Hu|i t c Hp|i r e c Hp Hg|i l ex r e c Hp Hu].
  - intros i. simpl. by eapply agentOk_time.
  - eapply LInv_get; [done..|]. intros Hr. by apply agentOk_got.
  - pose proof (I i) as [Hi Hs]. rewrite Hp in Hi, Hs. specialize (Hi ltac:(done)).
    destruct (create_new _ _ _ _ _ Hc) as [(Hnone & l & Hl & Hspec & Hr)|[Hsame (x & ->)]].
    + intros k. unfold goto. simpl. rewrite Hl. destruct (decide (k = i)) as [->|]; [by eapply agentOk_wrote|].
      apply agentOk_create. rewrite <- Hnone. apply I.
    + intros k. unfold goto. simpl. rewrite Hsame. destruct (decide (k = i)); [by split|apply I].
  - pose proof (I i) as [Hi Hs]. rewrite Hp in Hi, Hs. specialize (Hi ltac:(done)).
    destruct Hs as [Hs Hrb].
    eapply LInv_update; [done..| | |].
    + intros k t l0 Hne Ha Ho Hk. exact (available_expired k i t l0 (cl_now c) Hne Hk Ha Ho).
    + intros l' _ Hspec Hr. by eapply agentOk_wrote.
    + intros x ->. by split.
  - pose proof (I i) as [Hi Hh]. rewrite Hp in Hi, Hh. specialize (Hi ltac:(done)).
    eapply LInv_get; [done..|]. intros Hr. split; [done|]. unfold renew_got. destruct r as [x|l]; [done|].
    case_bool_decide as Hme; [|done]. split; [done|]. split.
    { unfold specOk. simpl. split_and!; [|done|by eexists]. unfold holderOf in Hme.
      destruct (ls_HolderIdentity (le_Spec l)); simpl in *; congruence. }
    split; [apply Hh|]. exists l. split_and!; [by apply Hr|done|done].
  - pose proof (I i) as [Hi Hh]. rewrite Hp in Hi, Hh. specialize (Hi ltac:(done)).
    destruct Hh as (Hh & Hs & Ht & Hrb).
    eapply LInv_update; [done..| | |].
    + intros k u l0 Hne Hme Ho Hk. by destruct (other_owner k i u l0).
    + intros l' _ Hspec Hr. split; [done|]. destruct r as [x|x]; simpl.
      * assert (heldOk (Some l') (cl_now c) i t) as Hh'.
        { pose proof (heldOk_wrote _ _ _ _ Hs Hspec) as [Hm [(l1 & [= <-] & Ho)|Hexp]];
            split; try apply Hh.
          - left. exists l'. split; [done|]. destruct Ho as (? & ? & r & Hr' & ?). split_and!; [done..|].
            exists r. split; [done|]. rewrite Hspec in Hr'. simpl in Hr'. unfold renewTime in Ht.
            destruct (ls_RenewTime (le_Spec l)); simplify_eq/=. done.
          - right. unfold renewTime in Hexp. rewrite Hspec in Hexp. simpl in Hexp. unfold renewTime in Ht.
            destruct Hs as (_ & _ & r & Hr' & _). rewrite Hr' in Hexp, Ht. simpl in *. lia. }
        by destruct (IsConflict x && negb ex).
      * rewrite (Hr x eq_refl). by eapply heldOk_wrote.
    + intros x ->. split; [done|]. simpl. by destruct (IsConflict x && negb ex).
  - intros k. unfold goto. simpl. destruct (decide (k = i)) as [->|]; [|apply I]. split; [|done].
    intros _. apply (I i). by destruct Hp as [-> | ->].
  - pose proof (I i) as [Hi _]. rewrite Hp in Hi. specialize (Hi ltac:(done)).
    eapply LInv_get; [done..|]. intros Hr. split; [done|]. unfold release_got. destruct r as [x|l]; [done|].
    case_bool_decide as Hme; [|done]. exists l. split_and!; [by apply Hr|done|done].
  - pose proof (I i) as [Hi Hrb]. rewrite Hp in Hi, Hrb. specialize (Hi ltac:(done)).
    eapply LInv_update; [done..| | |].
    + intros k u l0 Hne Hme Ho Hk. by destruct (other_owner k i u l0).
    + intros l' _ _ _. split; [done|]. destruct r as [x|x]; simpl; [|done]. by destruct (IsConflict x && negb ex).
    + intros x ->. split; [done|]. simpl. by destruct (IsConflict x && negb ex).
Qed.

Lemma LInv_reachable e now c : rtc step (initCluster e now) c → LInv c.
Proof.
  intros Hs. assert (∀ c0, LInv c0 → rtc step c0 c → LInv c) as Hgen.
  { intros c0 I H0. induction H0; eauto using LInv_step. }
  eapply Hgen; [|done]. intros i. by split.
Qed.

(** C13. Mutual exclusion across the cluster: with any number of agents, their
    API calls interleaved in any order and failing at will (even after they
    took effect), two agents that are inside their exclusive section, each
    with a lease its own clock shows valid for longer than the clocks differ,
    are the same agent. *)
Theorem lease_mutual_exclusion e now c i j t u :
  rtc step (initCluster e now) c →
  inside (cl_phase c i) t → inside (cl_phase c j) u →
  (clk i (cl_now c) + skew < t + validity i)%Z → (clk j (cl_now c) + skew < u + validity j)%Z →
  i = j.
Proof.
  intros I%LInv_reachable Hi Hj Ht Hu.
  assert (∀ k v, inside (cl_phase c k) v → (clk k (cl_now c) + skew < v + validity k)%Z →
    ∃ l, stored (cl_api c) name = Some l ∧ holderOf l = k) as Hown.
  { intros k v Hin Hv. assert (heldOk (stored (cl_api c) name) (cl_now c) k v) as [_ [(l & Hl & Ho & _)|?]];
      [|by exists l|lia].
    destruct (I k) as [_ Hk]. destruct Hin as [Hp|[(l & Hp)|Hp]]; rewrite Hp in Hk; [done|apply Hk|done]. }
  destruct (Hown _ _ Hi Ht) as (l & Hl & <-), (Hown _ _ Hj Hu) as (l' & Hl' & <-). congruence.
Qed.

End Exclusion.

(** ** A lease that is free or expired is acquired *)
Section Progress.
Context {E : Type} `{LeaseAPI E} `{!LeaseAPILaws E}.
Variables (name : string) (dur : string → Z) (clk : string → Z → Z).
(** The API server answers. *)
Hypothesis get_answers : ∀ n e,
  match stored e n with
  | Some l => ∃ e', apiGet n e = (inr l, e')
  | None => ∃ msg e', apiGet n e = (inl (ErrNotFound msg), e')
  end.
Hypothesis create_answers : ∀ n s e, stored e n = None → ∃ l e', apiCreate n s e = (inr l, e').
Hypothesis update_answers : ∀ n l l0 e,
  stored e n = Some l0 → le_resourceVersion l0 = le_resourceVersion l → ∃ l' e', apiUpdate n l e = (inr l', e').

(** C14. An idle agent gets the lease with two undisturbed calls whenever
    there is none, nobody holds it, it held it itself before, or the time its
    holder recorded has passed on the agent's clock; and the others stay
    where they are. *)
Theorem lease_acquired i c :
  i ≠ "" → cl_phase c i = Idle →
  (∀ l, stored (cl_api c) name = Some l →
     holderOf l = "" ∨ holderOf l = i ∨
     ∃ r n, ls_RenewTime (le_Spec l) = Some r ∧ ls_LeaseDurationSeconds (le_Spec l) = Some n ∧ (0 < n)%Z ∧
            (r + n * Second ≤ clk i (cl_now c))%Z) →
  ∃ c' l, rtc (lstep name dur clk) c c' ∧ stored (cl_api c') name = Some l ∧ holderOf l = i ∧
    cl_phase c' i = Holding (micro (clk i (cl_now c))) ∧ ∀ j, j ≠ i → cl_phase c' j = cl_phase c j.
Proof.
  intros Hi Hidle Hfree. pose proof (get_answers name (cl_api c)) as Hg.
  destruct (stored (cl_api c) name) as [l0|] eqn:Hst.
  - destruct Hg as (e1 & Hg). destruct (get_reads _ _ _ _ Hg) as [Hsame _].
    assert (leaseAvailable i (dur i) (clk i (cl_now c)) l0 = true) as Ha.
    { unfold leaseAvailable. destruct (Hfree _ eq_refl) as [->|[->|(r & n & Hr & Hn & Hpos & Hexp)]].
      - done.
      - by rewrite (bool_decide_eq_true_2 (i = i)), orb_true_r.
      - destruct (_ || _); [done|]. unfold renewedAt, leaseDuration. rewrite Hr, Hn.
        apply Z.ltb_lt in Hpos. rewrite Hpos. by apply Z.leb_le. }
    set (l1 := claimLease i (dur i) (clk i (cl_now c)) l0).
    destruct (update_answers name l1 l0 e1) as (l2 & e2 & Hu); [by rewrite Hsame|done|].
    destruct (update_cas _ _ _ _ _ Hu) as [(l3 & l' & _ & _ & _ & Hst' & Hs & Hr)|[_ (x & Hx)]]; [|done].
    specialize (Hr _ eq_refl). subst l2.
    set (c1 := goto i (Claiming l1) e1 c).
    exists (goto i (Holding (renewTime l')) e2 c1), l'. split_and!; simpl.
    + eapply rtc_l; [eapply (l_acquire_get _ _ _ i (inr l0) e1); [done..|exact Hg]|].
      simpl. rewrite Ha. apply rtc_once. eapply (l_claim _ _ _ i l1 (inr l') e2 c1); [|exact Hu].
      simpl. by rewrite decide_True.
    + done.
    + unfold holderOf. by rewrite Hs.
    + rewrite decide_True by done. unfold renewTime. by rewrite Hs.
    + intros j Hj. by rewrite !decide_False.
  - destruct Hg as (msg & e1 & Hg). destruct (get_reads _ _ _ _ Hg) as [Hsame _].
    set (s := newLease i (dur i) (clk i (cl_now c))).
    destruct (create_answers name s e1) as (l2 & e2 & Hc); [by rewrite Hsame|].
    destruct (create_new _ _ _ _ _ Hc) as [(_ & l' & Hst' & Hs & Hr)|[_ (x & Hx)]]; [|done].
    specialize (Hr _ eq_refl). subst l2.
    set (c1 := goto i (Creating s) e1 c).
    exists (goto i (Holding (renewTime l')) e2 c1), l'. split_and!; simpl.
    + eapply rtc_l; [eapply (l_acquire_get _ _ _ i (inl (ErrNotFound msg)) e1); [done..|exact Hg]|].
      simpl. apply rtc_once. eapply (l_create _ _ _ i s (inr l') e2 c1); [|exact Hc].
      simpl. by rewrite decide_True.
    + done.
    + unfold holderOf. by rewrite Hs.
    + rewrite decide_True by done. unfold renewTime. by rewrite Hs.
    + intros j Hj. by rewrite !decide_False.
Qed.

End Progress.

(** ** The lock per key inside a process

    [localLocks] maps a key to a lock object with a reference count; the
    channel of capacity one is [lock_taken].  A goroutine waits for the
    channel, is inside, or has emptied the channel and not yet dropped its
    reference. *)
Record localLeaseLock := { lock_refs : Z; lock_taken : bool }.
Inductive goPhase := Waiting | Inside | Left.
Record goroutine := { go_key : string; go_lock : nat; go_phase : goPhase }.
Record Local := {
  lc_localLocks : gmap string nat;
  lc_locks : gmap nat localLeaseLock;
  lc_next : nat;
  lc_gos : gmap nat goroutine;
}.

Definition newLocal : Local := {| lc_localLocks := ∅; lc_locks := ∅; lc_next := 0; lc_gos := ∅ |}.

(** [acquireLocal] up to its [select], for goroutine [g]. *)
Definition acquireLocal (g : nat) (key : string) (s : Local) : Local :=
  let '(id, locks, localLocks, next) :=
    match lc_localLocks s !! key with
    | Some id => (id, lc_locks s, lc_localLocks s, lc_next s)
    | None => (lc_next s, <[lc_next s := {| lock_refs := 0; lock_taken := false |}]> (lc_locks s),
               <[key := lc_next s]> (lc_localLocks s), S (lc_next s))
    end in
  {| lc_localLocks := localLocks;
     lc_locks := alter (λ l, {| lock_refs := lock_refs l + 1; lock_taken := lock_taken l |}) id locks;
     lc_next := next;
     lc_gos := <[g := {| go_key := key; go_lock := id; go_phase := Waiting |}]> (lc_gos s) |}.

(** [lock.ch <- struct{}{}] and [<-lock.ch] *)
Definition setTaken (taken : bool) (g : nat) (go : goroutine) (p : goPhase) (s : Local) : Local :=
  {| lc_localLocks := lc_localLocks s;
     lc_locks := alter (λ l, {| lock_refs := lock_refs l; lock_taken := taken |}) (go_lock go) (lc_locks s);
     lc_next := lc_next s;
     lc_gos := <[g := {| go_key := go_key go; go_lock := go_lock go; go_phase := p |}]> (lc_gos s) |}.

Definition releaseLocalRef (g : nat) (go : goroutine) (s : Local) : Local :=
  match lc_locks s !! go_lock go with
  | None => s
  | Some l =>
      {| lc_localLocks := if (lock_refs l - 1 =? 0)%Z then delete (go_key go) (lc_localLocks s)
                          else lc_localLocks s;
         lc_locks := <[go_lock go := {| lock_refs := lock_refs l - 1; lock_taken := lock_taken l |}]> (lc_locks s);
         lc_next := lc_next s;
         lc_gos := delete g (lc_gos s) |}
  end.

Inductive gstep : Local → Local → Prop :=
  | g_acquire g key s : lc_gos s !! g = None → gstep s (acquireLocal g key s)
  | g_take g go l s : lc_gos s !! g = Some go → go_phase go = Waiting →
      lc_locks s !! go_lock go = Some l → lock_taken l = false →
      gstep s (setTaken true g go Inside s)
  | g_cancel g go s : lc_gos s !! g = Some go → go_phase go = Waiting →
      gstep s (releaseLocalRef g go s)
  | g_unlock g go s : lc_gos s !! g = Some go → go_phase go = Inside →
      gstep s (setTaken false g go Left s)
  | g_leave g go s : lc_gos s !! g = Some go → go_phase go = Left →
      gstep s (releaseLocalRef g go s).

(** Goroutines that refer to a lock. *)
Definition users (id : nat) (gos : gmap nat goroutine) : gmap nat goroutine :=
  filter (λ p, go_lock p.2 = id) gos.

Record GInv (s : Local) : Prop := {
  gi_map : ∀ g go, lc_gos s !! g = Some go → lc_localLocks s !! go_key go = Some (go_lock go);
  gi_refs : ∀ key id, lc_localLocks s !! key = Some id →
    id < lc_next s ∧ ∃ l, lc_locks s !! id = Some l ∧ lock_refs l = Z.of_nat (size (users id (lc_gos s)));
  gi_inj : ∀ key key' id, lc_localLocks s !! key = Some id → lc_localLocks s !! key' = Some id → key = key';
  gi_taken : ∀ g go l, lc_gos s !! g = Some go → go_phase go = Inside →
    lc_locks s !! go_lock go = Some l → lock_taken l = true;
  gi_one : ∀ g g' go go', lc_gos s !! g = Some go → lc_gos s !! g' = Some go' →
    go_phase go = Inside → go_phase go' = Inside → go_lock go = go_lock go' → g = g';
}.

Lemma users_insert_new id g go gos :
  gos !! g = None →
  size (users id (<[g := go]> gos)) = (if decide (go_lock go = id) then 1 else 0) + size (users id gos).
Proof.
  intros Hg. unfold users. rewrite map_filter_insert. simpl. case_decide; simpl.
  - rewrite map_size_insert_None; [done|]. apply map_lookup_filter_None. by left.
  - by rewrite delete_id.
Qed.
Lemma users_update id g go go' gos :
  gos !! g = Some go → go_lock go' = go_lock go → size (users id (<[g := go']> gos)) = size (users id gos).
Proof.
  intros Hg Hl. rewrite <- (insert_id gos g go Hg) at 2. rewrite <- (insert_delete_eq gos g go'), <- (insert_delete_eq gos g go).
  rewrite !users_insert_new by apply lookup_delete_eq. by rewrite Hl.
Qed.
Lemma users_delete id g go gos :
  gos !! g = Some go →
  size (users id gos) = (if decide (go_lock go = id) then 1 else 0) + size (users id (delete g gos)).
Proof.
  intros Hg. rewrite <- (insert_id gos g go Hg) at 1. rewrite <- (insert_delete_eq gos g go).
  by rewrite users_insert_new by apply lookup_delete_eq.
Qed.

Lemma GInv_acquire g key s : GInv s → lc_gos s !! g = None → GInv (acquireLocal g key s).
Proof.
  intros [I1 I2 I3 I4 I5] Hg. unfold acquireLocal.
  destruct (lc_localLocks s !! key) as [id|] eqn:Hk.
  - destruct (I2 _ _ Hk) as (Hlt & l & Hl & Hrefs). split; simpl.
    + intros g' go' [[<- <-]|[Hne Hg']]%lookup_insert_Some; simpl; eauto.
    + intros key' id' Hk'. destruct (I2 _ _ Hk') as (Hlt' & l' & Hl' & Hrefs'). split; [done|].
      rewrite users_insert_new by done. simpl. destruct (decide (id = id')) as [->|Hne].
      * rewrite lookup_alter_eq, Hl'. eexists; split; [done|]. simpl. lia.
      * rewrite lookup_alter_ne by done. exists l'. split; [done|]. lia.
    + done.
    + intros g' go' l' [[<- <-]|[Hne Hg']]%lookup_insert_Some Hp Hl'; [done|].
      destruct (decide (id = go_lock go')) as [->|Hne'].
      * rewrite lookup_alter_eq, Hl in Hl'. simplify_eq/=. eauto.
      * rewrite lookup_alter_ne in Hl' by done. eauto.
    + intros g1 g2 go1 go2 [[<- <-]|[Hne1 Hg1]]%lookup_insert_Some [[<- <-]|[Hne2 Hg2]]%lookup_insert_Some;
        try done. by apply I5.
  - assert (∀ key' id', lc_localLocks s !! key' = Some id' → id' ≠ lc_next s) as Hold.
    { intros key' id' Hk' ->. destruct (I2 _ _ Hk'). lia. }
    assert (∀ g' go', lc_gos s !! g' = Some go' → go_lock go' ≠ lc_next s) as Holdg by eauto.
    assert (size (users (lc_next s) (lc_gos s)) = 0) as Hnone.
    { apply map_size_empty_iff, map_eq. intros g'. rewrite lookup_empty. apply map_lookup_filter_None. right.
      intros go' Hg'. simpl. by eapply Holdg. }
    split; simpl.
    + intros g' go' [[<- <-]|[Hne Hg']]%lookup_insert_Some; simpl; [by rewrite lookup_insert_eq|].
      rewrite lookup_insert_ne; [eauto|]. intros Heq. specialize (I1 _ _ Hg'). congruence.
    + intros key' id' [[<- <-]|[Hne Hk']]%lookup_insert_Some; rewrite users_insert_new by done; simpl.
      * split; [lia|]. rewrite lookup_alter_eq, lookup_insert_eq. eexists; split; [done|].
        rewrite decide_True by done. simpl. lia.
      * destruct (I2 _ _ Hk') as (Hlt' & l' & Hl' & Hrefs'). split; [lia|]. specialize (Hold _ _ Hk').
        rewrite lookup_alter_ne, lookup_insert_ne by done. exists l'. split; [done|]. by rewrite decide_False.
    + intros k1 k2 id [[<- <-]|[Hne1 Hk1]]%lookup_insert_Some [[<- Hid]|[Hne2 Hk2]]%lookup_insert_Some; try done.
      * by destruct (Hold _ _ Hk2).
      * by destruct (Hold _ _ Hk1).
      * by eapply I3.
    + intros g' go' l' [[<- <-]|[Hne Hg']]%lookup_insert_Some Hp; [done|]. specialize (Holdg _ _ Hg').
      rewrite lookup_alter_ne, lookup_insert_ne by done. eauto.
    + intros g1 g2 go1 go2 [[<- <-]|[Hne1 Hg1]]%lookup_insert_Some [[<- <-]|[Hne2 Hg2]]%lookup_insert_Some;
        try done. by apply I5.
Qed.

(** Moving a goroutine on, with what it does to the channel of its lock. *)
Lemma GInv_setTaken taken g go p s :
  GInv s → lc_gos s !! g = Some go →
  (p = Inside → taken = true) →
  (∀ g' go', g' ≠ g → lc_gos s !! g' = Some go' → go_lock go' = go_lock go → go_phase go' = Inside → False) →
  GInv (setTaken taken g go p s).
Proof.
  intros [I1 I2 I3 I4 I5] Hg Hp Hno. split; simpl.
  - intros g' go' [[<- <-]|[Hne Hg']]%lookup_insert_Some; simpl; eauto.
  - intros key id Hk. destruct (I2 _ _ Hk) as (Hlt & l & Hl & Hrefs). split; [done|].
    rewrite (users_update id g go) by done. destruct (decide (go_lock go = id)) as [<-|].
    + rewrite lookup_alter_eq, Hl. by eexists.
    + rewrite lookup_alter_ne by done. eauto.
  - done.
  - intros g' go' l [[<- <-]|[Hne Hg']]%lookup_insert_Some Hin; simpl in *.
    + rewrite lookup_alter_eq. destruct (lc_locks s !! go_lock go); [|done]. intros [= <-]. auto.
    + destruct (decide (go_lock go = go_lock go')) as [Heq|]; [by destruct (Hno g' go')|].
      rewrite lookup_alter_ne by done. eauto.
  - intros g1 g2 go1 go2 [[<- <-]|[Hne1 Hg1]]%lookup_insert_Some [[<- <-]|[Hne2 Hg2]]%lookup_insert_Some
      Hp1 Hp2 Hl; simpl in *; [done| | |by eapply I5].
    + by destruct (Hno g2 go2).
    + by destruct (Hno g1 go1).
Qed.

Lemma GInv_releaseLocalRef g go s :
  GInv s → lc_gos s !! g = Some go → go_phase go ≠ Inside → GInv (releaseLocalRef g go s).
Proof.
  intros [I1 I2 I3 I4 I5] Hg Hp. unfold releaseLocalRef.
  pose proof (I1 _ _ Hg) as Hk. destruct (I2 _ _ Hk) as (Hlt & l & Hl & Hrefs). rewrite Hl.
  pose proof (users_delete (go_lock go) g go _ Hg) as Hd. rewrite decide_True in Hd by done.
  assert (∀ key id, (if (lock_refs l - 1 =? 0)%Z then delete (go_key go) (lc_localLocks s) else lc_localLocks s)
    !! key = Some id → lc_localLocks s !! key = Some id) as Hsub.
  { intros key id. case_match; [|done]. by intros [_ ?]%lookup_delete_Some. }
  split; simpl.
  - intros g' go' [Hne Hg']%lookup_delete_Some. case_match eqn:Hz; [|eauto].
    apply Z.eqb_eq in Hz. rewrite lookup_delete_ne; [eauto|]. intros Heq.
    assert (size (users (go_lock go) (delete g (lc_gos s))) = 0) as Hs by lia.
    apply map_size_empty_iff in Hs. assert (go_lock go' = go_lock go) as Hlk.
    { specialize (I1 _ _ Hg'). rewrite <- Heq in I1. congruence. }
    assert (users (go_lock go) (delete g (lc_gos s)) !! g' = Some go') as Hu.
    { apply map_lookup_filter_Some. split; [|done]. by rewrite lookup_delete_ne. }
    by rewrite Hs, lookup_empty in Hu.
  - intros key id Hk'%Hsub. destruct (I2 _ _ Hk') as (Hlt' & l' & Hl' & Hrefs'). split; [done|].
    pose proof (users_delete id g go _ Hg) as Hd'. destruct (decide (go_lock go = id)) as [<-|Hne].
    + rewrite lookup_insert_eq. eexists; split; [done|]. simpl. lia.
    + rewrite lookup_insert_ne by done. exists l'. split; [done|]. lia.
  - intros k1 k2 id H1%Hsub H2%Hsub. by eapply I3.
  - intros g' go' l' [Hne Hg']%lookup_delete_Some Hin Hl'. destruct (decide (go_lock go = go_lock go')) as [Heq|].
    + rewrite Heq, lookup_insert_eq in Hl'. simplify_eq/=. rewrite Heq in Hl. eauto.
    + rewrite lookup_insert_ne in Hl' by done. eauto.
  - intros g1 g2 go1 go2 [_ Hg1]%lookup_delete_Some [_ Hg2]%lookup_delete_Some. by eapply I5.
Qed.

Lemma GInv_step s s' : GInv s → gstep s s' → GInv s'.
Proof.
  intros I Hs. destruct Hs as [g key s Hg|g go l s Hg Hp Hl Ht|g go s Hg Hp|g go s Hg Hp|g go s Hg Hp].
  - by apply GInv_acquire.
  - apply GInv_setTaken; [done..|]. intros g' go' Hne Hg' Heq Hin.
    rewrite <- Heq in Hl. pose proof (gi_taken _ I _ _ _ Hg' Hin Hl). congruence.
  - apply GInv_releaseLocalRef; [done..|]. by rewrite Hp.
  - apply GInv_setTaken; [done..|]. intros g' go' Hne Hg' Heq Hin.
    apply Hne. by eapply (gi_one _ I).
  - apply GInv_releaseLocalRef; [done..|]. by rewrite Hp.
Qed.

(** Inside one process at most one goroutine at a time is inside the
    exclusive section of a key, although lock objects are dropped with their
    last reference and made anew; and every goroutine that waits or works
    still finds its lock in the map. *)
Theorem local_mutual_exclusion s g g' go go' :
  rtc gstep newLocal s → lc_gos s !! g = Some go → lc_gos s !! g' = Some go' → go_key go = go_key go' →
  lc_localLocks s !! go_key go = Some (go_lock go) ∧ go_lock go = go_lock go' ∧
  (go_phase go = Inside → go_phase go' = Inside → g = g').
Proof.
  intros Hs Hg Hg' Hk. assert (GInv s) as I.
  { assert (∀ s0, GInv s0 → rtc gstep s0 s → GInv s) as Hgen.
    { intros s0 I0 H0. induction H0; eauto using GInv_step. }
    eapply Hgen; [|done]. by split. }
  pose proof (gi_map _ I _ _ Hg) as H1. pose proof (gi_map _ I _ _ Hg') as H2. rewrite <- Hk in H2.
  assert (go_lock go = go_lock go') as Heq by congruence. split_and!; [done..|].
  intros Hp Hp'. by eapply (gi_one _ I).
Qed.

End Lease.

(** ** A concrete API server and cluster *)
Module LeaseExamples.
Import Lease.

(** The objects by name; a write makes the next version. *)
Abbreviation API := (gmap string Lease).
#[local] Instance mapAPI : LeaseAPI API := {|
  apiGet := λ n e, (match e !! n with Some l => inr l | None => inl (ErrNotFound "lease") end, e);
  apiCreate := λ n s e,
    match e !! n with
    | Some _ => (inl (ErrAlreadyExists "lease"), e)
    | None => let l := {| le_resourceVersion := 1; le_Spec := microSpec s |} in (inr l, <[n := l]> e)
    end;
  apiUpdate := λ n l e,
    match e !! n with
    | None => (inl (ErrNotFound "lease"), e)
    | Some l0 =>
        if bool_decide (le_resourceVersion l0 = le_resourceVersion l) then
          let l' := {| le_resourceVersion := le_resourceVersion l0 + 1; le_Spec := microSpec (le_Spec l) |} in
          (inr l', <[n := l']> e)
        else (inl (ErrConflict "lease"), e)
    end;
|}.

#[local] Instance mapAPILaws : LeaseAPILaws API.
Proof.
  refine {| stored := λ (e : API) n, e !! n |}.
  - intros n e r e' [= <- <-]. split; [done|]. intros l. by destruct (e !! n); intros [= ->].
  - intros n s e r e'. simpl. destruct (e !! n) eqn:He; intros [= <- <-]; [right; by eauto|].
    left. split; [done|]. eexists. rewrite lookup_insert_eq. split_and!; [done..|]. by intros x [= <-].
  - intros n l e r e'. simpl. destruct (e !! n) as [l0|] eqn:He; [|intros [= <- <-]; right; by eauto].
    case_bool_decide; intros [= <- <-]; [|right; by eauto]. left. eexists l0, _.
    rewrite lookup_insert_eq. split_and!; [done|done| |done|done|]; [simpl; lia|]. by intros x [= <-].
Defined.

Definition dur (i : string) : Z := 120 * Second.
(** The clock of the second agent is two seconds ahead. *)
Definition clk (i : string) (t : Z) : Z := if bool_decide (i = "b") then t + 2 * Second else t.
Lemma clk_mono i t t' : (t ≤ t' → clk i t ≤ clk i t')%Z.
Proof. unfold clk. case_bool_decide; lia. Qed.
Lemma clk_skew i j t : (clk j t ≤ clk i t + 2 * Second)%Z.
Proof. unfold clk, Second. repeat case_bool_decide; lia. Qed.

(** Agent [a] acquires by creating, time passes within its lease, [b] asks. *)
Definition c0 : Cluster := initCluster (∅ : API) 0.
Definition after (i : string) (p : err + Lease → phase) (m : ST API (err + Lease)) (c : Cluster) : Cluster :=
  goto i (p (m (cl_api c)).1) (m (cl_api c)).2 c.
Definition asked (i : string) (c : Cluster) : Cluster :=
  after i (tryAcquire_got i (dur i) (clk i (cl_now c))) (apiGet "k") c.
Definition c1 : Cluster := asked "a" c0.
Definition c2 : Cluster := after "a" tryAcquire_wrote (apiCreate "k" (newLease "a" (dur "a") 0)) c1.
Definition c3 : Cluster := {| cl_api := cl_api c2; cl_now := 60 * Second; cl_phase := cl_phase c2 |}.
Definition c4 : Cluster := asked "b" c3.

Lemma reach_c4 : rtc (lstep "k" dur clk) c0 c4.
Proof.
  eapply rtc_l; [by apply (l_acquire_get "k" dur clk "a" (apiGet "k" (cl_api c0)).1 (cl_api c1) c0)|].
  eapply rtc_l; [by apply (l_create "k" dur clk "a" (newLease "a" (dur "a") 0)
                          (apiCreate "k" (newLease "a" (dur "a") 0) (cl_api c1)).1 (cl_api c2) c1)|].
  eapply rtc_l; [by apply (l_time "k" dur clk (60 * Second) c2)|].
  apply rtc_once. by apply (l_acquire_get "k" dur clk "b" (apiGet "k" (cl_api c3)).1 (cl_api c4) c3).
Qed.

Lemma lease_mutual_exclusion_witness :
  inside (cl_phase c4 "a") 0 ∧ cl_phase c4 "b" = Idle ∧
  (clk "a" (cl_now c4) + 2 * Second < 0 + validity dur "a")%Z ∧ "a" = "a".
Proof.
  split; [by left|]. split; [reflexivity|]. split; [by vm_compute|].
  apply (lease_mutual_exclusion "k" dur clk (2 * Second) clk_mono clk_skew ∅ 0 c4 "a" "a" 0 0 reach_c4);
    first [by left | by vm_compute].
Defined.

(** Two minutes later [b] takes the lease over. *)
Definition c5 : Cluster := {| cl_api := cl_api c4; cl_now := 118 * Second; cl_phase := cl_phase c4 |}.
Lemma lease_acquired_witness :
  ∃ c' l, rtc (lstep "k" dur clk) c5 c' ∧ stored (cl_api c') "k" = Some l ∧ holderOf l = "b".
Proof.
  destruct (lease_acquired (E := API) "k" dur clk) with (i := "b") (c := c5)
    as (c' & l & Hs & Hl & Hh & _).
  - intros n e. simpl. destruct (e !! n); eauto.
  - intros n s e Hn. simpl in *. rewrite Hn. eauto.
  - intros n l l0 e He Hv. simpl in *. rewrite He, bool_decide_eq_true_2 by done. eauto.
  - done.
  - reflexivity.
  - intros l Hl. vm_compute in Hl. injection Hl as <-. right. right. eexists _, _.
    split; [reflexivity|]. split; [reflexivity|]. by vm_compute.
  - by exists c', l.
Defined.

(** Two goroutines on one key: one inside, one waiting. *)
Definition l1 : Local := acquireLocal 2 "k" (acquireLocal 1 "k" newLocal).
Definition go1 : goroutine := {| go_key := "k"; go_lock := 0; go_phase := Waiting |}.
Definition l2 : Local := setTaken true 1 go1 Inside l1.
Lemma local_mutual_exclusion_witness : lc_localLocks l2 !! "k" = Some 0.
Proof.
  apply (local_mutual_exclusion l2 1 2 {| go_key := "k"; go_lock := 0; go_phase := Inside |} go1);
    try reflexivity.
  eapply rtc_l; [apply (g_acquire 1 "k"); reflexivity|].
  eapply rtc_l; [apply (g_acquire 2 "k"); reflexivity|].
  apply rtc_once. by eapply (g_take 1 go1 {| lock_refs := 2; lock_taken := false |}).
Defined.

End LeaseExamples.
