(* ===== verification/Status.v ===== *)
(** * Status of a VirtualIP (internal/agent/status/updater.go)

    Every agent writes what it observes into the status of the VirtualIP; the
    aggregate fields and conditions are rebuilt from the observations that
    are fresh.  The condition helpers of apimachinery are the class
    [ConditionAPI], the API server is [VIPClient]. *)

From Stdlib Require Import Ascii.
From stdpp Require Import base tactics list sorting gmap strings pretty.
From S2P Require Import Prelude Types Net.

Module Status.

(** ** Constants *)
Definition DefaultAgentStatusTTL : Z := 2 * Minute.
Definition MaxAgentStatusTTL : Z := Hour.
Definition DefaultExpiredAgentStatusRetention : Z := 7 * 24 * Hour.
Definition reasonAgentStatusExpired : string := "AgentStatusExpired".

(** ** apimachinery's condition helpers

    [SetStatusCondition] reads the clock when it changes a status. *)
Class ConditionAPI := {
  SetStatusCondition : Z → list Condition → Condition → list Condition;
  FindStatusCondition : list Condition → string → option Condition;
}.
(** The condition with its transition at this time. *)
Definition stamped (t : Z) (c : Condition) : Condition :=
  {| cond_Type := cond_Type c; cond_Status := cond_Status c; cond_ObservedGeneration := cond_ObservedGeneration c;
     cond_LastTransitionTime := Some t; cond_Reason := cond_Reason c; cond_Message := cond_Message c |}.
Class ConditionLaws `{ConditionAPI} : Prop := {
  find_first : ∀ cs ty, FindStatusCondition cs ty = head (filter (λ c, cond_Type c = ty) cs);
  find_set : ∀ t cs c, ∃ c', FindStatusCondition (SetStatusCondition t cs c) (cond_Type c) = Some c' ∧
    cond_Status c' = cond_Status c ∧ cond_Reason c' = cond_Reason c ∧ cond_Message c' = cond_Message c ∧
    cond_ObservedGeneration c' = cond_ObservedGeneration c;
  find_set_ne : ∀ t cs c ty, ty ≠ cond_Type c →
    FindStatusCondition (SetStatusCondition t cs c) ty = FindStatusCondition cs ty;
  set_absent : ∀ t cs c, FindStatusCondition cs (cond_Type c) = None → cond_LastTransitionTime c = None →
    SetStatusCondition t cs c = cs ++ [stamped t c];
}.

(** ** Time *)

(** [time.Time{}] in nanoseconds since 1970, and [t.Sub(u)], which saturates. *)
Definition zeroTime : Z := -62135596800 * Second.
Definition maxDuration : Z := 2 ^ 63 - 1.
Definition minDuration : Z := - 2 ^ 63.
Definition timeSub (t u : Z) : Z := Z.max minDuration (Z.min maxDuration (t - u)).

Definition normalizeAgentStatusTTL (ttl : Z) : Z :=
  if (ttl <=? 0)%Z then DefaultAgentStatusTTL
  else if (MaxAgentStatusTTL <? ttl)%Z then MaxAgentStatusTTL
  else ttl.

Definition durationSeconds (ttl : Z) : Z :=
  let ttl := normalizeAgentStatusTTL ttl in
  if (Z.rem ttl Second =? 0)%Z then Z.quot ttl Second else (Z.quot ttl Second + 1)%Z.

Definition sanitizeAgentStatusTTLSeconds (ttlSeconds : Z) : Z :=
  if (ttlSeconds <=? 0)%Z then 0%Z
  else if (Z.quot MaxAgentStatusTTL Second <? ttlSeconds)%Z then Z.quot MaxAgentStatusTTL Second
  else ttlSeconds.

Definition agentStatusUpdateTime (status : AgentStatus) : Z := default zeroTime (as_LastUpdateTime status).

Definition agentStatusExpired (status : AgentStatus) (now ttl : Z) : bool :=
  match as_LastUpdateTime status with
  | None => true
  | Some t => (ttl <? timeSub now t)%Z
  end.

Definition agentStatusTTL (status : AgentStatus) (fallback : Z) : Z :=
  if (0 <? as_TTLSeconds status)%Z then
    if (Z.quot MaxAgentStatusTTL Second <? as_TTLSeconds status)%Z then MaxAgentStatusTTL
    else normalizeAgentStatusTTL (as_TTLSeconds status * Second)
  else normalizeAgentStatusTTL fallback.

(** ** Backends *)
Definition healthySetOf (backends : list BackendSpec) : gset string := list_to_set (be_Address <$> backends).

Fixpoint countHealthy (backends : list BackendSpec) (healthySet seen : gset string) (count : Z) : Z :=
  match backends with
  | [] => count
  | be :: backends' =>
      if bool_decide (be_Address be ∈ seen) then countHealthy backends' healthySet seen count
      else countHealthy backends' healthySet ({[be_Address be]} ∪ seen)
             (if bool_decide (be_Address be ∈ healthySet) then count + 1 else count)
  end.
Definition countConfiguredHealthyBackends (backends : list BackendSpec) (healthySet : gset string) : Z :=
  countHealthy backends healthySet ∅ 0.

Definition backendStatus (healthySet : gset string) (be : BackendSpec) : BackendStatus :=
  let healthy := bool_decide (be_Address be ∈ healthySet) in
  {| bs_Address := be_Address be; bs_Healthy := healthy; bs_LastProbeTime := None;
     bs_Message := if healthy then "healthy" else "unhealthy" |}.
Definition buildBackendStatuses (backends : list BackendSpec) (healthySet : gset string)
    : list BackendStatus :=
  backendStatus healthySet <$> take MaxVirtualIPStatusBackends backends.

(** ** The bitmap of healthy backends *)

(** [bitmap[i/8] |= 1 << uint(i%8)] for the healthy ones. *)
Fixpoint setBits (backends : list BackendSpec) (healthySet : gset string) (i : nat) (bitmap : list Z) : list Z :=
  match backends with
  | [] => bitmap
  | be :: backends' =>
      setBits backends' healthySet (S i)
        (if bool_decide (be_Address be ∈ healthySet)
         then alter (λ b, Z.lor b (Z.shiftl 1 (Z.of_nat (i mod 8)))) (i / 8) bitmap
         else bitmap)
  end.

(** The trailing zero bytes are cut off. *)
Fixpoint dropZeros (r : list Z) : list Z :=
  match r with b :: r' => if (b =? 0)%Z then dropZeros r' else r | [] => [] end.
Definition trimZeros (bitmap : list Z) : list Z := reverse (dropZeros (reverse bitmap)).

(** [hex.EncodeToString] and [hex.DecodeString]. *)
Definition hexChar (n : Z) : ascii := ascii_of_N (Z.to_N (if (n <? 10)%Z then n + 48 else n + 87)).
Fixpoint hexEncode (bytes : list Z) : string :=
  match bytes with
  | [] => ""
  | b :: bytes' => String (hexChar (Z.shiftr b 4)) (String (hexChar (Z.land b 15)) (hexEncode bytes'))
  end.
Fixpoint hexDecode (s : string) : option (list Z) :=
  match s with
  | "" => Some []
  | String _ "" => None
  | String c1 (String c2 s') =>
      hi ← hex_value (code c1); lo ← hex_value (code c2); rest ← hexDecode s';
      Some (Z.lor (Z.shiftl hi 4) lo :: rest)
  end.

Definition buildHealthyBackendBitmap (backends : list BackendSpec) (healthySet : gset string) : string :=
  match backends with
  | [] => ""
  | _ =>
      if bool_decide (healthySet = ∅) then ""
      else hexEncode (trimZeros (setBits backends healthySet 0 (replicate ((length backends + 7) / 8) 0%Z)))
  end.

Fixpoint addFromBitmap (backends : list BackendSpec) (decoded : list Z) (i : nat) (healthySet : gset string)
    : gset string :=
  match backends with
  | [] => healthySet
  | be :: backends' =>
      match decoded !! (i / 8) with
      | None => healthySet
      | Some b =>
          addFromBitmap backends' decoded (S i)
            (if (Z.land b (Z.shiftl 1 (Z.of_nat (i mod 8))) =? 0)%Z then healthySet
             else {[be_Address be]} ∪ healthySet)
      end
  end.
(** [None] is the result false. *)
Definition addHealthyBackendsFromBitmap (healthySet : gset string) (backends : list BackendSpec)
    (bitmap : string) : option (gset string) :=
  if bool_decide (bitmap = "") then None
  else decoded ← hexDecode bitmap; Some (addFromBitmap backends decoded 0 healthySet).

(** ** Limits of the CRD schema *)
Definition SanitizeBackendStatuses (statuses : list BackendStatus) : list BackendStatus :=
  take MaxVirtualIPStatusBackends statuses.

Definition withTTLAndBackends (status : AgentStatus) (ttl : Z) (backends : list BackendStatus) : AgentStatus :=
  {| as_AgentID := as_AgentID status; as_ObservedGeneration := as_ObservedGeneration status;
     as_HealthyBackends := as_HealthyBackends status; as_TotalBackends := as_TotalBackends status;
     as_Backends := backends; as_HealthyBackendBitmap := as_HealthyBackendBitmap status;
     as_Conditions := as_Conditions status; as_LastUpdateTime := as_LastUpdateTime status;
     as_TTLSeconds := ttl |}.
Definition sanitizeAgentStatus (status : AgentStatus) : AgentStatus :=
  withTTLAndBackends status (sanitizeAgentStatusTTLSeconds (as_TTLSeconds status))
    (SanitizeBackendStatuses (as_Backends status)).

(** [sort.SliceStable]: newest first, then by agent. *)
Definition statusLess (x y : AgentStatus) : bool :=
  let left := agentStatusUpdateTime x in
  let right := agentStatusUpdateTime y in
  if negb (left =? right)%Z then (right <? left)%Z else String.ltb (as_AgentID x) (as_AgentID y).
Fixpoint insertStable (x : AgentStatus) (l : list AgentStatus) : list AgentStatus :=
  match l with
  | [] => [x]
  | y :: l' => if statusLess y x then y :: insertStable x l' else x :: l
  end.
Definition sortStable (l : list AgentStatus) : list AgentStatus := foldr insertStable [] l.

Definition capAgentStatuses (statuses : list AgentStatus) : list AgentStatus :=
  if (length statuses <=? MaxVirtualIPStatusAgentStatuses)%nat then statuses
  else take MaxVirtualIPStatusAgentStatuses (sortStable statuses).

(** The loop copies the list only once an entry changes; its result is the
    same list of entries either way. *)
Definition SanitizeAgentStatuses (statuses : list AgentStatus) : list AgentStatus :=
  capAgentStatuses (sanitizeAgentStatus <$> statuses).

Definition SanitizeVirtualIPStatus (status : VirtualIPStatus) : VirtualIPStatus :=
  {| st_ObservedGeneration := st_ObservedGeneration status;
     st_HealthyBackends := st_HealthyBackends status; st_TotalBackends := st_TotalBackends status;
     st_Backends := SanitizeBackendStatuses (st_Backends status);
     st_AgentStatuses := SanitizeAgentStatuses (st_AgentStatuses status);
     st_Conditions := st_Conditions status |}.

(** ** Observations *)
Fixpoint upsertLoop (statuses : list AgentStatus) (next : AgentStatus) (generation : Z) : list AgentStatus * bool :=
  match statuses with
  | [] => ([], false)
  | status :: statuses' =>
      let '(out, replaced) := upsertLoop statuses' next generation in
      if bool_decide (as_AgentID status = as_AgentID next) then (next :: out, true)
      else if (as_ObservedGeneration status =? generation)%Z then (status :: out, replaced)
      else (out, replaced)
  end.
Definition upsertAgentStatus (statuses : list AgentStatus) (next : AgentStatus) (generation : Z)
    : list AgentStatus :=
  let '(out, replaced) := upsertLoop statuses next generation in
  if replaced then out else out ++ [next].

(** [clock] is what [time.Now()] would give, used when [now] is zero. *)
Definition splitAgentStatuses (clock : Z) (statuses : list AgentStatus) (generation : Z) (now ttl : Z)
    : list AgentStatus * list AgentStatus :=
  let ttl := normalizeAgentStatusTTL ttl in
  let now := if (now =? zeroTime)%Z then clock else now in
  foldr (λ status '(fresh, expired),
    if negb (as_ObservedGeneration status =? generation)%Z then (fresh, expired)
    else if agentStatusExpired status now (agentStatusTTL status ttl) then
      if agentStatusExpired status now DefaultExpiredAgentStatusRetention then (fresh, expired)
      else (fresh, status :: expired)
    else (status :: fresh, expired)) ([], []) statuses.

Definition clampHealthyBackendCount (count total : Z) : Z :=
  if (count <? 0)%Z then 0%Z else if (total <? count)%Z then total else count.

(** One status of the loop of [aggregateHealthyBackends]. *)
Definition addStatus (backends : list BackendSpec) (status : AgentStatus) (acc : gset string * Z)
    : gset string * Z :=
  let '(healthySet, reportedCount) := acc in
  match addHealthyBackendsFromBitmap healthySet backends (as_HealthyBackendBitmap status) with
  | Some healthySet' => (healthySet', reportedCount)
  | None =>
      let healthySet := foldl (λ s b, if bs_Healthy b then {[bs_Address b]} ∪ s else s) healthySet
                          (as_Backends status) in
      let total := Z.of_nat (length backends) in
      let healthySet := if (as_TotalBackends status =? total)%Z && (total <=? as_HealthyBackends status)%Z
                        then healthySetOf backends ∪ healthySet else healthySet in
      let count := clampHealthyBackendCount (as_HealthyBackends status) total in
      (healthySet, if (reportedCount <? count)%Z then count else reportedCount)
  end.
Definition aggregateHealthyBackends (backends : list BackendSpec) (statuses : list AgentStatus)
    : gset string * Z :=
  let '(healthySet, reportedCount) := foldl (λ acc status, addStatus backends status acc) (∅, 0%Z) statuses in
  let n := Z.of_nat (size healthySet) in
  (healthySet, if (reportedCount <? n)%Z then n else reportedCount).

Definition preserveNonAgentConditions (conditions : list Condition) : list Condition :=
  filter (λ c, cond_Type c ∉ [ConditionServing; ConditionRouteAdvertised; ConditionDataPlaneReady]) conditions.

Definition aggregateCondition (type : string) (generation : Z) (status reason message : string) : Condition :=
  {| cond_Type := type; cond_Status := status; cond_ObservedGeneration := generation;
     cond_LastTransitionTime := None; cond_Reason := reason; cond_Message := message |}.

Definition endpoint (vip : VirtualIP) : string :=
  let spec := vip_Spec vip in
  spec_Address spec +:+ ":" +:+ pretty (spec_Port spec) +:+ "/" +:+ spec_Protocol spec.

(** ** Aggregate conditions *)
Section Aggregation.
Context `{ConditionAPI}.

(** The verdict of a loop over the fresh statuses: [unknown] is the reason and
    message of the first one that does not know. *)
Abbreviation unknownOf := (option (string * string)).

Definition missing (what : string) (status : AgentStatus) : string * string :=
  ("MissingAgentCondition", "Agent " +:+ as_AgentID status +:+ " has not reported " +:+ what).

(** [true]: an agent is serving. *)
Fixpoint servingLoop (statuses : list AgentStatus) (unknown : unknownOf) : bool * unknownOf :=
  match statuses with
  | [] => (false, unknown)
  | status :: statuses' =>
      match FindStatusCondition (as_Conditions status) ConditionServing with
      | None => servingLoop statuses' (Some (default (missing "serving state" status) unknown))
      | Some serving =>
          if bool_decide (cond_Status serving = ConditionTrue) then (true, unknown)
          else if bool_decide (cond_Status serving = ConditionUnknown)
          then servingLoop statuses' (Some (default (cond_Reason serving, cond_Message serving) unknown))
          else servingLoop statuses' unknown
      end
  end.

Definition aggregateServingCondition (vip : VirtualIP) (statuses expiredStatuses : list AgentStatus) : Condition :=
  let mk := aggregateCondition ConditionServing (vip_Generation vip) in
  match statuses, expiredStatuses with
  | [], _ :: _ => mk ConditionUnknown reasonAgentStatusExpired
      "Only expired agent observations are available; serving state is unknown"
  | [], [] => mk ConditionUnknown "NoAgentStatus" "No agent has reported serving state for this generation"
  | _ :: _, _ =>
      match servingLoop statuses None with
      | (true, _) => mk ConditionTrue "AgentServing" ("At least one agent is serving " +:+ endpoint vip)
      | (false, Some (reason, message)) => mk ConditionUnknown reason message
      | (false, None) =>
          match expiredStatuses with
          | _ :: _ => mk ConditionUnknown reasonAgentStatusExpired
              "Some agent observations have expired; serving state is unknown"
          | [] =>
              match spec_Backends (vip_Spec vip) with
              | [] => mk ConditionFalse "NoBackends" ("No backends configured for " +:+ endpoint vip)
              | _ :: _ => mk ConditionFalse "NoAgentServing" ("No agent is serving " +:+ endpoint vip)
              end
          end
      end
  end.

(** An agent that is not ready, or whether one reported and the first that did
    not. *)
Fixpoint dataPlaneLoop (statuses : list AgentStatus) (seen : bool) (absent : unknownOf)
    : Condition + bool * unknownOf :=
  match statuses with
  | [] => inr (seen, absent)
  | status :: statuses' =>
      match FindStatusCondition (as_Conditions status) ConditionDataPlaneReady with
      | None => dataPlaneLoop statuses' seen (Some (default (missing "data plane apply state" status) absent))
      | Some dataPlane =>
          if bool_decide (cond_Status dataPlane ≠ ConditionTrue) then inl dataPlane
          else dataPlaneLoop statuses' true absent
      end
  end.

Definition aggregateDataPlaneReadyCondition (vip : VirtualIP) (statuses expiredStatuses : list AgentStatus)
    : option Condition :=
  let mk := aggregateCondition ConditionDataPlaneReady (vip_Generation vip) in
  match dataPlaneLoop statuses false None with
  | inl dataPlane => Some (mk (cond_Status dataPlane) (cond_Reason dataPlane) (cond_Message dataPlane))
  | inr (_, Some (reason, message)) => Some (mk ConditionUnknown reason message)
  | inr (true, None) =>
      Some (mk ConditionTrue "Applied" "Desired VIP is applied to the data plane by all reporting agents")
  | inr (false, None) =>
      match statuses with
      | [] =>
          if existsb (λ status, bool_decide (is_Some
               (FindStatusCondition (as_Conditions status) ConditionDataPlaneReady))) expiredStatuses
          then Some (mk ConditionUnknown reasonAgentStatusExpired
                 "Only expired agent observations are available; data plane apply state is unknown")
          else None
      | _ :: _ => None
      end
  end.

Fixpoint routeLoop (statuses : list AgentStatus) (advertised : Z) (unknown : unknownOf) : Z * unknownOf :=
  match statuses with
  | [] => (advertised, unknown)
  | status :: statuses' =>
      match FindStatusCondition (as_Conditions status) ConditionRouteAdvertised with
      | None => routeLoop statuses' advertised
                  (Some (default (missing "route advertisement state" status) unknown))
      | Some route =>
          if bool_decide (cond_Status route = ConditionTrue) then routeLoop statuses' (advertised + 1) unknown
          else if bool_decide (cond_Status route = ConditionUnknown)
          then routeLoop statuses' advertised (Some (default (cond_Reason route, cond_Message route) unknown))
          else routeLoop statuses' advertised unknown
      end
  end.

Definition aggregateRouteAdvertisedCondition (vip : VirtualIP) (statuses expiredStatuses : list AgentStatus)
    : Condition :=
  let mk := aggregateCondition ConditionRouteAdvertised (vip_Generation vip) in
  let address := spec_Address (vip_Spec vip) in
  match statuses, expiredStatuses with
  | [], _ :: _ => mk ConditionUnknown reasonAgentStatusExpired
      "Only expired agent observations are available; route advertisement state is unknown"
  | [], [] => mk ConditionUnknown "NoAgentStatus"
      "No agent has reported route advertisement state for this generation"
  | _ :: _, _ =>
      match routeLoop statuses 0 None with
      | (_, Some (reason, message)) => mk ConditionUnknown reason message
      | (advertised, None) =>
          if (0 <? advertised)%Z
          then mk ConditionTrue "Advertised"
                 ("VIP address " +:+ address +:+ " is advertised by " +:+ pretty advertised +:+ " agent(s)")
          else
            match expiredStatuses with
            | _ :: _ => mk ConditionUnknown reasonAgentStatusExpired
                "Some agent observations have expired; route advertisement state is unknown"
            | [] => mk ConditionFalse "NotAdvertised"
                ("VIP address " +:+ address +:+ " is not advertised by any reporting agent")
            end
      end
  end.

(** ** Rebuilding the aggregate *)
Definition setStatus (vip : VirtualIP) (status : VirtualIPStatus) : VirtualIP :=
  {| vip_Namespace := vip_Namespace vip; vip_Name := vip_Name vip; vip_UID := vip_UID vip;
     vip_Generation := vip_Generation vip; vip_DeletionTimestamp := vip_DeletionTimestamp vip;
     vip_Spec := vip_Spec vip; vip_Status := status |}.

Definition aggregateConditions (clock : Z) (vip : VirtualIP) (fresh expired : list AgentStatus) : list Condition :=
  let conditions := preserveNonAgentConditions (st_Conditions (vip_Status vip)) in
  let conditions := SetStatusCondition clock conditions (aggregateServingCondition vip fresh expired) in
  let conditions := SetStatusCondition clock conditions (aggregateRouteAdvertisedCondition vip fresh expired) in
  match aggregateDataPlaneReadyCondition vip fresh expired with
  | Some dataPlane => SetStatusCondition clock conditions dataPlane
  | None => conditions
  end.

Definition applyAggregateStatus (clock : Z) (vip : VirtualIP) (generation : Z) (fresh expired : list AgentStatus)
    : VirtualIP :=
  let backends := spec_Backends (vip_Spec vip) in
  let '(healthySet, healthyCount) := aggregateHealthyBackends backends fresh in
  setStatus vip
    {| st_ObservedGeneration := generation; st_HealthyBackends := healthyCount;
       st_TotalBackends := Z.of_nat (length backends);
       st_Backends := buildBackendStatuses backends healthySet;
       st_AgentStatuses := st_AgentStatuses (vip_Status vip);
       st_Conditions := aggregateConditions clock vip fresh expired |}.

Definition withAgentStatuses (status : VirtualIPStatus) (statuses : list AgentStatus) : VirtualIPStatus :=
  {| st_ObservedGeneration := st_ObservedGeneration status;
     st_HealthyBackends := st_HealthyBackends status; st_TotalBackends := st_TotalBackends status;
     st_Backends := st_Backends status; st_AgentStatuses := statuses;
     st_Conditions := st_Conditions status |}.

Definition RefreshAggregateStatus (clock : Z) (vip : VirtualIP) (generation now ttl : Z) : VirtualIP :=
  let '(fresh, expired) := splitAgentStatuses clock (st_AgentStatuses (vip_Status vip)) generation now ttl in
  let vip := setStatus vip
    (withAgentStatuses (vip_Status vip) (SanitizeAgentStatuses (fresh ++ expired))) in
  applyAggregateStatus clock vip generation fresh expired.

(** ** Writing a status *)
Record Updater := { up_agentID : string; up_agentStatusTTL : Z }.

(** [hostname] is what [os.Hostname()] gives, empty on an error. *)
Definition normalizeAgentID (hostname agentID : string) : string :=
  if bool_decide (agentID ≠ "") then agentID
  else if bool_decide (hostname ≠ "") then hostname else "unknown".

Definition setConditions (clock generation : Z) (conditions : list Condition) : list Condition :=
  foldl (λ cs c, SetStatusCondition clock cs
    {| cond_Type := cond_Type c; cond_Status := cond_Status c; cond_ObservedGeneration := generation;
       cond_LastTransitionTime := cond_LastTransitionTime c; cond_Reason := cond_Reason c;
       cond_Message := cond_Message c |}) [] conditions.

(** The observation an agent writes. *)
Definition observation (u : Updater) (hostname : string) (now : Z) (vip : VirtualIP)
    (healthyBackends : list BackendSpec) (conditions : list Condition) : AgentStatus :=
  let backends := spec_Backends (vip_Spec vip) in
  let healthySet := healthySetOf healthyBackends in
  {| as_AgentID := normalizeAgentID hostname (up_agentID u);
     as_ObservedGeneration := vip_Generation vip;
     as_HealthyBackends := countConfiguredHealthyBackends backends healthySet;
     as_TotalBackends := Z.of_nat (length backends);
     as_Backends := buildBackendStatuses backends healthySet;
     as_HealthyBackendBitmap := buildHealthyBackendBitmap backends healthySet;
     as_Conditions := setConditions now (vip_Generation vip) conditions;
     as_LastUpdateTime := Some now;
     as_TTLSeconds := durationSeconds (normalizeAgentStatusTTL (up_agentStatusTTL u)) |}.

(** The object read is another incarnation, another generation or going away. *)
Definition stale (current vip : VirtualIP) : bool :=
  bool_decide (vip_UID current ≠ vip_UID vip) || negb (vip_Generation current =? vip_Generation vip)%Z
  || bool_decide (is_Some (vip_DeletionTimestamp current)).

(** One attempt of [UpdateVIPStatus]: what it writes for the object it read. *)
Definition nextVIPStatus (u : Updater) (hostname : string) (now : Z) (vip : VirtualIP)
    (healthyBackends : list BackendSpec) (conditions : list Condition) (current : VirtualIP) : option VirtualIP :=
  if stale current vip then None
  else
    let agentStatus := observation u hostname now vip healthyBackends conditions in
    let status := vip_Status current in
    let current := setStatus current (withAgentStatuses status
      (upsertAgentStatus (st_AgentStatuses status) agentStatus (vip_Generation vip))) in
    let current := RefreshAggregateStatus now current (vip_Generation vip) now
                     (normalizeAgentStatusTTL (up_agentStatusTTL u)) in
    Some (setStatus current (SanitizeVirtualIPStatus (vip_Status current))).

(** One attempt of [UpdateHealthCheckCondition]. *)
Definition nextHealthCheckCondition (u : Updater) (now : Z) (vip : VirtualIP) (condition : Condition)
    (current : VirtualIP) : option VirtualIP :=
  if stale current vip then None
  else
    let condition :=
      {| cond_Type := ConditionHealthCheckReady; cond_Status := cond_Status condition;
         cond_ObservedGeneration := vip_Generation vip;
         cond_LastTransitionTime := cond_LastTransitionTime condition;
         cond_Reason := cond_Reason condition; cond_Message := cond_Message condition |} in
    let status := vip_Status current in
    let withCond statuses := setStatus current
      {| st_ObservedGeneration := st_ObservedGeneration status;
         st_HealthyBackends := st_HealthyBackends status; st_TotalBackends := st_TotalBackends status;
         st_Backends := st_Backends status; st_AgentStatuses := statuses;
         st_Conditions := SetStatusCondition now (st_Conditions status) condition |} in
    let current :=
      if bool_decide (cond_Status condition = ConditionFalse)
      then RefreshAggregateStatus now (withCond (st_AgentStatuses status)) (vip_Generation vip) now
             (normalizeAgentStatusTTL (up_agentStatusTTL u))
      else withCond (SanitizeAgentStatuses (st_AgentStatuses status)) in
    Some (setStatus current (SanitizeVirtualIPStatus (vip_Status current))).

(** The API server, and the clock a closure reads. *)
Class VIPClient (E : Type) := {
  vipGet : string → string → ST E (err + VirtualIP);
  vipStatusUpdate : VirtualIP → ST E error;
  vipNow : ST E Z;
}.

Section Writing.
Context {E : Type} `{!VIPClient E}.

(** [retry.RetryOnConflict]: [steps] attempts at most. *)
Fixpoint retryOnConflict (steps : nat) (fn : ST E error) : ST E error :=
  e ← fn;
  match e, steps with
  | Some (ErrConflict _), S (S _ as steps') => retryOnConflict steps' fn
  | _, _ => mret e
  end.

(** The closure of both updates: read, compute, write. *)
Definition attempt (vip : VirtualIP) (next : Z → VirtualIP → option VirtualIP) : ST E error :=
  r ← vipGet (vip_Namespace vip) (vip_Name vip);
  match r with
  | inl (ErrNotFound _) => mret None
  | inl e => mret (Some e)
  | inr current =>
      now ← vipNow;
      match next now current with
      | None => mret None
      | Some vip' => vipStatusUpdate vip'
      end
  end.

Definition UpdateVIPStatus (u : Updater) (hostname : string) (steps : nat) (vip : VirtualIP)
    (healthyBackends : list BackendSpec) (conditions : list Condition) : ST E error :=
  retryOnConflict steps
    (attempt vip (λ now, nextVIPStatus u hostname now vip healthyBackends conditions)).

Definition UpdateHealthCheckCondition (u : Updater) (steps : nat) (vip : VirtualIP) (condition : Condition)
    : ST E error :=
  retryOnConflict steps (attempt vip (λ now, nextHealthCheckCondition u now vip condition)).

End Writing.
End Aggregation.

(** ** The bitmap says which backends are healthy *)
#[local] Arguments Nat.div : simpl never.
#[local] Arguments Nat.modulo : simpl never.

(** Bit [k] of a bitmap; none beyond its end. *)
Definition bit (k : nat) (bm : list Z) : bool :=
  match bm !! (k / 8) with Some b => Z.testbit b (Z.of_nat (k mod 8)) | None => false end.
Definition isByte (b : Z) : Prop := (0 ≤ b < 256)%Z.

Lemma div_mod_8_inj i k : i / 8 = k / 8 → i mod 8 = k mod 8 → i = k.
Proof. intros Hd Hm. rewrite (Nat.div_mod_eq i 8), (Nat.div_mod_eq k 8). congruence. Qed.

Lemma testbit_single (n k : nat) : Z.testbit (Z.shiftl 1 (Z.of_nat n)) (Z.of_nat k) = bool_decide (n = k).
Proof.
  rewrite Z.shiftl_1_l, Z.pow2_bits_eqb by lia. case_bool_decide as Hnk.
  - subst. by rewrite Z.eqb_refl.
  - apply Z.eqb_neq. lia.
Qed.

Lemma land_single b (n : nat) :
  (Z.land b (Z.shiftl 1 (Z.of_nat n)) =? 0)%Z = negb (Z.testbit b (Z.of_nat n)).
Proof.
  destruct (Z.testbit b (Z.of_nat n)) eqn:Hb; simpl.
  - apply Z.eqb_neq. intros H0. apply (f_equal (λ z, Z.testbit z (Z.of_nat n))) in H0.
    rewrite Z.land_spec, testbit_single, Hb, Z.bits_0, bool_decide_eq_true_2 in H0; done.
  - apply Z.eqb_eq, Z.bits_inj'. intros k Hk. rewrite Z.bits_0, Z.land_spec.
    rewrite <- (Z2Nat.id k) by done. rewrite testbit_single. case_bool_decide as Hnk; [|by rewrite andb_false_r].
    rewrite <- Hnk. by rewrite Hb.
Qed.

Lemma lor_byte b (n : nat) : isByte b → n < 8 → isByte (Z.lor b (Z.shiftl 1 (Z.of_nat n))).
Proof.
  unfold isByte. intros [Hb1 Hb2] Hn. rewrite Z.shiftl_1_l.
  assert (0 ≤ 2 ^ Z.of_nat n)%Z by (apply Z.pow_nonneg; lia).
  split; [by apply Z.lor_nonneg|]. destruct (decide (Z.lor b (2 ^ Z.of_nat n) = 0)%Z) as [->|Hne]; [lia|].
  assert (0 ≤ Z.lor b (2 ^ Z.of_nat n))%Z by (by apply Z.lor_nonneg).
  change 256%Z with (2 ^ 8)%Z. apply Z.log2_lt_pow2; [lia|]. rewrite Z.log2_lor by done.
  rewrite Z.log2_pow2 by lia. apply Z.max_lub_lt; [|lia].
  destruct (decide (b = 0)%Z) as [->|]; [done|]. apply Z.log2_lt_pow2; lia.
Qed.

Lemma bit_setBit i k bm :
  i / 8 < length bm →
  bit k (alter (λ b, Z.lor b (Z.shiftl 1 (Z.of_nat (i mod 8)))) (i / 8) bm) = bool_decide (i = k) || bit k bm.
Proof.
  intros Hlen. unfold bit. destruct (decide (i / 8 = k / 8)) as [Heq|Hne].
  - rewrite <- Heq, list_lookup_alter_eq. destruct (lookup_lt_is_Some_2 bm (i / 8) Hlen) as [b ->]. simpl.
    rewrite Z.lor_spec, testbit_single, orb_comm. f_equal. apply bool_decide_ext.
    split; [by apply div_mod_8_inj|by intros ->].
  - rewrite list_lookup_alter_ne by done. rewrite bool_decide_eq_false_2 by congruence. done.
Qed.

Definition healthyAt (backends : list BackendSpec) (hs : gset string) (j : nat) : bool :=
  match backends !! j with Some be => bool_decide (be_Address be ∈ hs) | None => false end.

Lemma setBits_spec backends hs i bm :
  i + length backends ≤ 8 * length bm → Forall isByte bm →
  Forall isByte (setBits backends hs i bm) ∧
  ∀ k, bit k (setBits backends hs i bm) =
       bit k bm || (bool_decide (i ≤ k) && healthyAt backends hs (k - i)).
Proof.
  revert i bm. induction backends as [|be bes IH]; intros i bm Hlen Hb; simpl.
  { split; [done|]. intros k. unfold healthyAt. by rewrite lookup_nil, andb_false_r, orb_false_r. }
  simpl in Hlen. assert (i / 8 < length bm) as Hi.
  { apply Nat.Div0.div_lt_upper_bound. lia. }
  assert (∀ k, bool_decide (i ≤ k) && healthyAt (be :: bes) hs (k - i) =
    (bool_decide (i = k) && bool_decide (be_Address be ∈ hs)) ||
    (bool_decide (S i ≤ k) && healthyAt bes hs (k - S i))) as Hcons.
  { intros k. unfold healthyAt. destruct (decide (i = k)) as [->|Hne].
    - rewrite !bool_decide_eq_true_2, Nat.sub_diag by done. simpl.
      rewrite (bool_decide_eq_false_2 (S k ≤ k)) by lia. by rewrite orb_false_r.
    - rewrite (bool_decide_eq_false_2 (i = k)) by done. simpl.
      destruct (decide (S i ≤ k)).
      + rewrite !bool_decide_eq_true_2 by lia. replace (k - i) with (S (k - S i)) by lia. done.
      + by rewrite !bool_decide_eq_false_2 by lia. }
  case_bool_decide as Hh.
  - set (bm' := alter _ _ bm).
    assert (length bm' = length bm) as Hlen' by apply length_alter.
    assert (Forall isByte bm') as Hb'.
    { apply Forall_alter; [done|]. intros b Hbi HPb. apply lor_byte; [done|]. apply Nat.mod_upper_bound. lia. }
    destruct (IH (S i) bm') as [IHb IHk]; [lia|done|]. split; [done|]. intros k.
    rewrite IHk, Hcons. unfold bm'. rewrite bit_setBit by done.
    by rewrite andb_true_r, orb_assoc, (orb_comm (bool_decide _)).
  - destruct (IH (S i) bm) as [IHb IHk]; [lia|done|]. split; [done|]. intros k.
    rewrite IHk, Hcons. by rewrite andb_false_r.
Qed.

(** Cutting zero bytes off the end changes no bit. *)
Lemma dropZeros_suffix r : ∃ n, r = replicate n 0%Z ++ dropZeros r.
Proof.
  induction r as [|b r [n IH]]; simpl; [by exists 0|]. destruct (Z.eqb_spec b 0) as [->|].
  - exists (S n). simpl. by f_equal.
  - by exists 0.
Qed.
Lemma trimZeros_app bm : ∃ n, bm = trimZeros bm ++ replicate n 0%Z.
Proof.
  destruct (dropZeros_suffix (reverse bm)) as [n Hn]. exists n. unfold trimZeros.
  apply (f_equal reverse) in Hn. rewrite reverse_involutive, reverse_app, reverse_replicate in Hn. done.
Qed.
Lemma bit_trimZeros k bm : bit k (trimZeros bm) = bit k bm.
Proof.
  destruct (trimZeros_app bm) as [n Hn]. rewrite Hn at 2. unfold bit.
  destruct (decide (k / 8 < length (trimZeros bm))) as [Hlt|Hge].
  - by rewrite lookup_app_l.
  - rewrite lookup_app_r by lia. rewrite (lookup_ge_None_2 (trimZeros bm)) by lia.
    destruct (replicate n 0%Z !! _) as [b|] eqn:Hb; [|done].
    apply lookup_replicate in Hb as [-> _]. by rewrite Z.bits_0.
Qed.
Lemma trimZeros_last bm b l : trimZeros bm = l ++ [b] → b ≠ 0%Z.
Proof.
  unfold trimZeros. intros Heq. apply (f_equal reverse) in Heq.
  rewrite reverse_involutive, reverse_snoc in Heq. revert Heq.
  induction (reverse bm) as [|x r IH]; simpl; [done|]. destruct (Z.eqb_spec x 0); [done|]. by intros [= <- _].
Qed.

Lemma nonzero_bit bm :
  Forall isByte bm → bm ≠ [] → (∀ l b, bm = l ++ [b] → b ≠ 0%Z) → ∃ k, bit k bm = true.
Proof.
  intros Hb Hne Hlast. destruct (exists_last Hne) as (l & b & ->). specialize (Hlast l b eq_refl).
  apply Forall_app in Hb as [_ Hb]. rewrite Forall_singleton in Hb. unfold isByte in Hb.
  assert (Z.log2 b < 8)%Z as Hlog.
  { apply Z.log2_lt_pow2; [lia|]. change (2 ^ 8)%Z with 256%Z. lia. }
  pose proof (Z.log2_nonneg b).
  exists (length l * 8 + Z.to_nat (Z.log2 b)). unfold bit.
  rewrite Nat.div_add_l, (Nat.div_small (Z.to_nat _)), Nat.add_0_r by lia.
  rewrite list_lookup_middle by done. rewrite Nat.add_comm, Nat.Div0.mod_add, Nat.mod_small by lia.
  rewrite Z2Nat.id by done. apply Z.bit_log2. lia.
Qed.

(** Hexadecimal there and back. *)
Lemma hex_value_hexChar n : (0 ≤ n < 16)%Z → hex_value (code (hexChar n)) = Some n.
Proof.
  intros Hn. assert (n ∈ seqZ 0 16) as Hin by (apply elem_of_seqZ; lia).
  revert Hin. generalize n. clear. intros n Hin.
  repeat (apply elem_of_cons in Hin as [->|Hin]; [done|]). by apply not_elem_of_nil in Hin.
Qed.
Lemma hexDecode_hexEncode bytes : Forall isByte bytes → hexDecode (hexEncode bytes) = Some bytes.
Proof.
  induction 1 as [|b bytes Hb _ IH]; [done|]. simpl. unfold isByte in Hb.
  assert (0 ≤ Z.shiftr b 4 < 16)%Z as Hhi.
  { rewrite Z.shiftr_div_pow2 by lia. change (2 ^ 4)%Z with 16%Z. split; [apply Z.div_pos; lia|].
    apply Z.div_lt_upper_bound; lia. }
  assert (Z.land b 15 = b `mod` 16)%Z as Hland by (change 15%Z with (Z.ones 4); by rewrite Z.land_ones).
  pose proof (Z.mod_pos_bound b 16).
  rewrite !hex_value_hexChar by lia. simpl. rewrite IH. simpl. do 2 f_equal.
  rewrite Hland. change (b `mod` 16)%Z with (b `mod` 2 ^ 4)%Z. rewrite <- Z.land_ones by lia.
  rewrite <- Z.ldiff_ones_r by lia. apply Z.bits_inj'. intros k Hk.
  rewrite Z.lor_spec, Z.ldiff_spec, Z.land_spec. by destruct (Z.testbit b k), (Z.testbit (Z.ones 4) k).
Qed.

Lemma addFromBitmap_spec backends decoded i s x :
  x ∈ addFromBitmap backends decoded i s ↔
  x ∈ s ∨ ∃ j be, backends !! j = Some be ∧ be_Address be = x ∧ bit (i + j) decoded = true.
Proof.
  revert i s. induction backends as [|be bes IH]; intros i s; simpl.
  { split; [by left|]. intros [?|(j & be & Hj & _)]; [done|]. by rewrite lookup_nil in Hj. }
  destruct (decoded !! (i / 8)) as [b|] eqn:Hd.
  - rewrite IH, land_single. assert (bit i decoded = Z.testbit b (Z.of_nat (i mod 8))) as Hbit
      by (unfold bit; by rewrite Hd). rewrite <- Hbit. split.
    + intros [Hx|(j & be' & Hj & Ha & Hb)].
      * destruct (bit i decoded) eqn:Hi; simpl in Hx; [|by left].
        apply elem_of_union in Hx as [->%elem_of_singleton|]; [|by left].
        right. exists 0, be. rewrite Nat.add_0_r. done.
      * right. exists (S j), be'. by rewrite Nat.add_succ_r.
    + intros [Hx|([|j] & be' & Hj & Ha & Hb)].
      * left. destruct (bit i decoded); simpl; set_solver.
      * left. rewrite Nat.add_0_r in Hb. rewrite Hb. simpl in *. simplify_eq. set_solver.
      * right. exists j, be'. rewrite Nat.add_succ_r in Hb. done.
  - split; [by left|]. intros [?|(j & be' & Hj & Ha & Hb)]; [done|]. unfold bit in Hb.
    apply lookup_ge_None in Hd. rewrite (lookup_ge_None_2 decoded) in Hb; [done|].
    etrans; [done|]. apply Nat.Div0.div_le_mono. lia.
Qed.

(** The healthy ones among the backends. *)
Definition healthyAmong (backends : list BackendSpec) (hs : gset string) : gset string := healthySetOf backends ∩ hs.

Lemma healthyAmong_spec backends hs x :
  x ∈ healthyAmong backends hs ↔ ∃ j be, backends !! j = Some be ∧ be_Address be = x ∧ healthyAt backends hs j = true.
Proof.
  unfold healthyAmong, healthySetOf, healthyAt. rewrite elem_of_intersection, elem_of_list_to_set, list_elem_of_fmap. split.
  - intros [(be & -> & Hbe) Hx]. apply list_elem_of_lookup in Hbe as [j Hj]. exists j, be. rewrite Hj.
    by rewrite bool_decide_eq_true_2.
  - intros (j & be & Hj & <- & Hh). rewrite Hj in Hh. apply bool_decide_eq_true in Hh. split; [|done].
    exists be. split; [done|]. by eapply list_elem_of_lookup_2.
Qed.

(** Reading the bitmap an agent wrote back over the same backends. *)
Lemma bitmap_read backends hs s :
  addHealthyBackendsFromBitmap s backends (buildHealthyBackendBitmap backends hs) =
  if decide (healthyAmong backends hs = ∅) then None else Some (healthyAmong backends hs ∪ s).
Proof.
  unfold addHealthyBackendsFromBitmap, buildHealthyBackendBitmap.
  destruct backends as [|be bes]; [by rewrite decide_True by exact (intersection_empty_l_L hs)|].
  destruct (decide (hs = ∅)) as [->|Hemp].
  { rewrite (bool_decide_eq_true_2 (∅ = ∅)) by done. by rewrite decide_True by exact (intersection_empty_r_L _). }
  rewrite (bool_decide_eq_false_2 (hs = ∅)) by done.
  set (bs := be :: bes). set (bm := replicate ((length bs + 7) / 8) 0%Z).
  assert (length bs ≤ 8 * length bm) as Hlen.
  { unfold bm. rewrite length_replicate. pose proof (Nat.div_mod_eq (length bs + 7) 8).
    pose proof (Nat.mod_upper_bound (length bs + 7) 8). lia. }
  destruct (setBits_spec bs hs 0 bm) as [Hbytes Hbits]; [done|by apply Forall_replicate|].
  set (r := setBits bs hs 0 bm) in *.
  assert (∀ k, bit k (trimZeros r) = healthyAt bs hs k) as Hbit.
  { intros k. rewrite bit_trimZeros, Hbits, Nat.sub_0_r. unfold bm, bit.
    destruct (replicate _ 0%Z !! _) as [b|] eqn:Hb; [|done].
    apply lookup_replicate in Hb as [-> _]. by rewrite Z.bits_0. }
  assert (Forall isByte (trimZeros r)) as Hb'.
  { destruct (trimZeros_app r) as [n Hn]. rewrite Hn in Hbytes. by apply Forall_app in Hbytes as [? _]. }
  destruct (trimZeros r) as [|b l] eqn:Hr.
  - simpl. rewrite decide_True; [done|]. apply set_eq. intros x. rewrite healthyAmong_spec.
    split; [|set_solver]. intros (j & be' & _ & _ & Hh). rewrite <- Hbit in Hh. done.
  - rewrite bool_decide_eq_false_2 by done. rewrite hexDecode_hexEncode by done. cbv [mbind option_bind].
    rewrite decide_False.
    + f_equal. apply set_eq. intros x. rewrite addFromBitmap_spec, elem_of_union, healthyAmong_spec.
      setoid_rewrite Hbit. split; intros [?|?]; auto.
    + intros Hnone. destruct (nonzero_bit (b :: l)) as [k Hk]; [done|done| |].
      { intros l' b' Heq. rewrite <- Hr in Heq. by eapply trimZeros_last. }
      rewrite Hbit in Hk. unfold healthyAt in Hk. destruct (bs !! k) as [be'|] eqn:Hbe; [|done].
      assert (be_Address be' ∈ healthyAmong bs hs); [|set_solver]. apply healthyAmong_spec. exists k, be'.
      unfold healthyAt. by rewrite Hbe.
Qed.

(** What an agent writes as its bitmap is read back, over the same list of
    backends, as exactly the backends of the list that are healthy; when there
    are none the bitmap is empty and reading it says so. *)
Theorem bitmap_roundtrip backends hs s :
  addHealthyBackendsFromBitmap s backends (buildHealthyBackendBitmap backends hs) =
  if decide (healthySetOf backends ∩ hs = ∅) then None else Some (healthySetOf backends ∩ hs ∪ s).
Proof. apply bitmap_read. Qed.

(** ** Counting and the union over agents *)
Lemma countHealthy_spec backends hs seen count :
  countHealthy backends hs seen count =
  (count + Z.of_nat (size (healthyAmong backends hs ∖ seen)))%Z.
Proof.
  revert seen count. induction backends as [|be bes IH]; intros seen count; simpl.
  { unfold healthyAmong, healthySetOf. simpl. rewrite intersection_empty_l_L, empty_difference_L, size_empty. lia. }
  assert (healthyAmong (be :: bes) hs = ({[be_Address be]} ∩ hs) ∪ healthyAmong bes hs) as ->.
  { unfold healthyAmong, healthySetOf. simpl. set_solver. }
  case_bool_decide as Hs.
  - rewrite IH. do 3 f_equal. set_solver.
  - rewrite IH. case_bool_decide as Hh.
    + replace ((({[be_Address be]} ∩ hs) ∪ healthyAmong bes hs) ∖ seen)
        with ({[be_Address be]} ∪ healthyAmong bes hs ∖ ({[be_Address be]} ∪ seen))
        by (apply set_eq; intros x; destruct (decide (x = be_Address be)); set_solver).
      rewrite (size_union {[be_Address be]}) by set_solver. rewrite size_singleton. lia.
    + do 3 f_equal. unfold healthyAmong. apply set_eq. intros x.
      destruct (decide (x = be_Address be)) as [->|]; set_solver.
Qed.

Lemma countConfigured_spec backends hs :
  countConfiguredHealthyBackends backends hs = Z.of_nat (size (healthyAmong backends hs)).
Proof. unfold countConfiguredHealthyBackends. rewrite countHealthy_spec, difference_empty_L. lia. Qed.

(** A status that reports [hs] for these backends. *)
Record reports (backends : list BackendSpec) (hs : gset string) (status : AgentStatus) : Prop := {
  rp_bitmap : as_HealthyBackendBitmap status = buildHealthyBackendBitmap backends hs;
  rp_backends : as_Backends status = buildBackendStatuses backends hs;
  rp_healthy : as_HealthyBackends status = countConfiguredHealthyBackends backends hs;
}.

Lemma unhealthy_statuses backends hs (s : gset string) :
  healthyAmong backends hs = ∅ →
  foldl (λ s b, if bs_Healthy b then {[bs_Address b]} ∪ s else s) s (buildBackendStatuses backends hs) = s.
Proof.
  intros Hnone. unfold buildBackendStatuses.
  assert (∀ be, be ∈ take MaxVirtualIPStatusBackends backends → be_Address be ∉ hs) as Hall.
  { intros be Hbe Hin. assert (be_Address be ∈ healthyAmong backends hs); [|set_solver].
    unfold healthyAmong, healthySetOf. rewrite elem_of_intersection, elem_of_list_to_set. split; [|done].
    apply list_elem_of_fmap. exists be. split; [done|]. apply elem_of_take in Hbe as (i & Hi & _).
    by eapply list_elem_of_lookup_2. }
  revert Hall. generalize (take MaxVirtualIPStatusBackends backends). intros l.
  induction l as [|be l IH]; intros Hall; simpl; [done|].
  rewrite bool_decide_eq_false_2 by (apply Hall; by left). apply IH. intros be' Hbe'. apply Hall. by right.
Qed.

Lemma addStatus_reports backends hs status s n :
  reports backends hs status → (0 ≤ n)%Z →
  addStatus backends status (s, n) = (healthyAmong backends hs ∪ s, n).
Proof.
  intros [Hb Hbs Hh] Hn. unfold addStatus. rewrite Hb, bitmap_read.
  case_decide as Hnone; [|done]. rewrite Hbs, unhealthy_statuses by done.
  rewrite Hh, countConfigured_spec, Hnone, size_empty. rewrite union_empty_l_L.
  assert (clampHealthyBackendCount (Z.of_nat 0) (Z.of_nat (length backends)) = 0%Z) as ->.
  { unfold clampHealthyBackendCount. change (Z.of_nat 0) with 0%Z.
    destruct (Z.ltb_spec 0 0); [lia|]. destruct (Z.ltb_spec (Z.of_nat (length backends)) 0); lia. }
  destruct (Z.ltb_spec n 0); [lia|]. destruct ((_ =? _)%Z && _) eqn:Hfull; [|done].
  apply andb_true_iff in Hfull as [_ Hle]. apply Z.leb_le in Hle. destruct backends; simpl in Hle; [|lia].
  unfold healthySetOf. simpl. by rewrite union_empty_l_L.
Qed.

#[local] Arguments addStatus : simpl never.

Lemma size_healthySetOf backends : size (healthySetOf backends) ≤ length backends.
Proof.
  induction backends as [|be bes IH]; [done|].
  change (healthySetOf (be :: bes)) with ({[be_Address be]} ∪ healthySetOf bes : gset string).
  rewrite size_union_alt, size_singleton. simpl.
  assert (size (healthySetOf bes ∖ {[be_Address be]}) ≤ size (healthySetOf bes))
    by (apply subseteq_size; set_solver).
  lia.
Qed.

(** The aggregate of what agents wrote for a VIP is the union: the healthy
    backends are those of the spec at least one of the given agents found
    healthy, and the count is their number, never more than there are
    backends. *)
Theorem aggregate_union backends statuses hss :
  Forall2 (reports backends) hss statuses →
  aggregateHealthyBackends backends statuses =
    (healthySetOf backends ∩ ⋃ hss, Z.of_nat (size (healthySetOf backends ∩ ⋃ hss))) ∧
  size (healthySetOf backends ∩ ⋃ hss) ≤ length backends.
Proof.
  intros Hall. split.
  - assert (∀ s, foldl (λ acc status, addStatus backends status acc) (s, 0%Z) statuses =
      (healthyAmong backends (⋃ hss) ∪ s, 0%Z)) as Hfold.
    { induction Hall as [|hs status hss statuses Hr _ IH]; intros s; simpl.
      { unfold healthyAmong. by rewrite intersection_empty_r_L, union_empty_l_L. }
      rewrite (addStatus_reports _ hs) by done. rewrite IH. f_equal. unfold healthyAmong. set_solver. }
    unfold aggregateHealthyBackends. rewrite Hfold, !union_empty_r_L. f_equal.
    fold (healthyAmong backends (⋃ hss)). destruct (Z.ltb_spec 0 (Z.of_nat (size (healthyAmong backends (⋃ hss))))); lia.
  - etrans; [apply subseteq_size, intersection_subseteq_l|]. apply size_healthySetOf.
Qed.

Lemma observation_reports `{ConditionAPI} u hostname now vip healthyBackends conditions :
  reports (spec_Backends (vip_Spec vip)) (healthySetOf healthyBackends)
    (observation u hostname now vip healthyBackends conditions).
Proof. by constructor. Qed.

(** ** Which observations count *)

(** An observation of this generation that is no older than its own time to
    live, which is never more than an hour. *)
Definition freshReport (generation now ttl : Z) (status : AgentStatus) : Prop :=
  as_ObservedGeneration status = generation ∧
  ∃ t, as_LastUpdateTime status = Some t ∧ (now - t ≤ agentStatusTTL status ttl)%Z.
(** One that is kept in the list, fresh or not. *)
Definition retained (generation now : Z) (status : AgentStatus) : Prop :=
  as_ObservedGeneration status = generation ∧
  ∃ t, as_LastUpdateTime status = Some t ∧ (now - t ≤ DefaultExpiredAgentStatusRetention)%Z.

Lemma normalizeAgentStatusTTL_bounds ttl : (0 < normalizeAgentStatusTTL ttl ≤ MaxAgentStatusTTL)%Z.
Proof.
  unfold normalizeAgentStatusTTL. destruct (Z.leb_spec ttl 0); [done|].
  destruct (Z.ltb_spec MaxAgentStatusTTL ttl); [done|lia].
Qed.
Lemma normalizeAgentStatusTTL_idemp ttl :
  normalizeAgentStatusTTL (normalizeAgentStatusTTL ttl) = normalizeAgentStatusTTL ttl.
Proof.
  pose proof (normalizeAgentStatusTTL_bounds ttl) as Hb. revert Hb. generalize (normalizeAgentStatusTTL ttl).
  intros z Hb. unfold normalizeAgentStatusTTL. destruct (Z.leb_spec z 0); [lia|].
  destruct (Z.ltb_spec MaxAgentStatusTTL z); [lia|done].
Qed.
Lemma agentStatusTTL_bounds status fallback : (0 < agentStatusTTL status fallback ≤ MaxAgentStatusTTL)%Z.
Proof.
  unfold agentStatusTTL. destruct (0 <? as_TTLSeconds status)%Z; [|apply normalizeAgentStatusTTL_bounds].
  destruct (_ <? as_TTLSeconds status)%Z; [done|]. apply normalizeAgentStatusTTL_bounds.
Qed.
Lemma agentStatusTTL_normalize status ttl :
  agentStatusTTL status (normalizeAgentStatusTTL ttl) = agentStatusTTL status ttl.
Proof. unfold agentStatusTTL. by rewrite normalizeAgentStatusTTL_idemp. Qed.

(** The saturation of [Sub] is out of reach of the time to live. *)
Lemma agentStatusExpired_spec status now ttl :
  (0 ≤ ttl < maxDuration)%Z →
  agentStatusExpired status now ttl = false ↔ ∃ t, as_LastUpdateTime status = Some t ∧ (now - t ≤ ttl)%Z.
Proof.
  intros Httl. unfold agentStatusExpired, timeSub, minDuration. unfold maxDuration in *.
  destruct (as_LastUpdateTime status) as [t|]; [|split; [done|by intros (? & ? & _)]].
  rewrite Z.ltb_ge. split; [intros ?; exists t; split; [done|lia]|]. intros (t' & [= <-] & ?). lia.
Qed.

Definition freshb (generation now ttl : Z) (s : AgentStatus) : bool :=
  (as_ObservedGeneration s =? generation)%Z && negb (agentStatusExpired s now (agentStatusTTL s ttl)).
Definition retainedb (generation now : Z) (s : AgentStatus) : bool :=
  (as_ObservedGeneration s =? generation)%Z && negb (agentStatusExpired s now DefaultExpiredAgentStatusRetention).

Lemma freshb_spec generation now ttl s : freshb generation now ttl s ↔ freshReport generation now ttl s.
Proof.
  unfold freshb, freshReport. rewrite andb_True, negb_True, Is_true_false, Is_true_true, Z.eqb_eq.
  pose proof (agentStatusTTL_bounds s ttl) as Hb. rewrite agentStatusExpired_spec; [done|].
  assert (MaxAgentStatusTTL < maxDuration)%Z by done. lia.
Qed.
Lemma retainedb_spec generation now s : retainedb generation now s ↔ retained generation now s.
Proof.
  unfold retainedb, retained. rewrite andb_True, negb_True, Is_true_false, Is_true_true, Z.eqb_eq.
  by rewrite agentStatusExpired_spec.
Qed.

Lemma splitAgentStatuses_filter clock statuses generation now ttl :
  now ≠ zeroTime →
  splitAgentStatuses clock statuses generation now ttl =
  (filter (freshb generation now ttl) statuses,
   filter (λ s, retainedb generation now s ∧ ¬ freshb generation now ttl s) statuses).
Proof.
  intros Hnow. unfold splitAgentStatuses. destruct (Z.eqb_spec now zeroTime); [done|].
  induction statuses as [|x statuses IH]; simpl; [done|]. rewrite IH, !filter_cons.
  assert (freshb generation now ttl x = (as_ObservedGeneration x =? generation)%Z &&
    negb (agentStatusExpired x now (agentStatusTTL x ttl))) as Hf by done.
  assert (retainedb generation now x = (as_ObservedGeneration x =? generation)%Z &&
    negb (agentStatusExpired x now DefaultExpiredAgentStatusRetention)) as Hr by done.
  rewrite agentStatusTTL_normalize.
  destruct (as_ObservedGeneration x =? generation)%Z,
    (agentStatusExpired x now (agentStatusTTL x ttl)),
    (agentStatusExpired x now DefaultExpiredAgentStatusRetention); simpl in *; rewrite Hf, Hr;
    repeat case_decide; simpl in *; try done; tauto.
Qed.

Lemma splitAgentStatuses_spec clock statuses generation now ttl :
  now ≠ zeroTime →
  (∀ s, s ∈ (splitAgentStatuses clock statuses generation now ttl).1 ↔
        s ∈ statuses ∧ freshReport generation now ttl s) ∧
  (∀ s, s ∈ (splitAgentStatuses clock statuses generation now ttl).2 ↔
        s ∈ statuses ∧ retained generation now s ∧ ¬ freshReport generation now ttl s).
Proof.
  intros Hnow. rewrite splitAgentStatuses_filter by done. simpl. split; intros s.
  - rewrite list_elem_of_filter, freshb_spec. tauto.
  - rewrite list_elem_of_filter, retainedb_spec, freshb_spec. tauto.
Qed.

(** ** The aggregate conditions say what the fresh observations say *)
Section Truth.
Context `{ConditionLaws}.

(** The list has the condition [ty] with this status. *)
Definition conditionIs (cs : list Condition) (ty st : string) : Prop :=
  ∃ c, FindStatusCondition cs ty = Some c ∧ cond_Status c = st.
#[local] Abbreviation says ty st s := (conditionIs (as_Conditions s) ty st).

Lemma conditionIs_set_eq t cs c st : conditionIs (SetStatusCondition t cs c) (cond_Type c) st ↔ cond_Status c = st.
Proof.
  destruct (find_set t cs c) as (c' & Hf & Hs & _). unfold conditionIs. rewrite Hf. split.
  - intros (? & [= <-] & ?). congruence.
  - intros <-. by exists c'.
Qed.
Lemma conditionIs_set_ne t cs c ty st :
  ty ≠ cond_Type c → conditionIs (SetStatusCondition t cs c) ty st ↔ conditionIs cs ty st.
Proof. intros Hne. unfold conditionIs. by rewrite find_set_ne. Qed.

(** Dropping the aggregate conditions drops nothing else. *)
Lemma find_preserve cs ty :
  FindStatusCondition (preserveNonAgentConditions cs) ty =
  if decide (ty ∈ [ConditionServing; ConditionRouteAdvertised; ConditionDataPlaneReady]) then None
  else FindStatusCondition cs ty.
Proof.
  rewrite !find_first. unfold preserveNonAgentConditions.
  set (agent := [ConditionServing; ConditionRouteAdvertised; ConditionDataPlaneReady]).
  induction cs as [|c cs IH]; [by case_decide|]. fold agent in IH.
  destruct (decide (cond_Type c ∈ agent)) as [Hin|Hin].
  - rewrite (filter_cons_False (λ c, cond_Type c ∉ agent)) by (by intros Hc). rewrite IH.
    case_decide; [done|]. rewrite filter_cons_False; [done|]. by intros <-.
  - rewrite (filter_cons_True (λ c, cond_Type c ∉ agent)) by done.
    destruct (decide (cond_Type c = ty)) as [<-|Hne].
    + rewrite decide_False by done. by rewrite !filter_cons_True by done.
    + by rewrite !(filter_cons_False (λ c, cond_Type c = ty)) by done.
Qed.

Lemma servingLoop_true statuses u :
  (servingLoop statuses u).1 = true ↔ ∃ s, s ∈ statuses ∧ says ConditionServing ConditionTrue s.
Proof.
  unfold conditionIs. revert u. induction statuses as [|x statuses IH]; intros u; simpl; [set_solver|].
  setoid_rewrite elem_of_cons.
  destruct (FindStatusCondition (as_Conditions x) ConditionServing) as [c|] eqn:Hc.
  - case_bool_decide as Ht; [split; [|done]; intros _; exists x; split; [by left|by exists c]|].
    assert (∀ v, (servingLoop statuses v).1 = true ↔
      ∃ s, (s = x ∨ s ∈ statuses) ∧
        ∃ c, FindStatusCondition (as_Conditions s) ConditionServing = Some c ∧ cond_Status c = ConditionTrue) as Hrest.
    { intros v. rewrite IH. split; [intros (s & ? & ?); exists s; auto|].
      intros (s & [->|?] & c' & Hc' & ?); [congruence|]. exists s; split; [done|by exists c']. }
    case_bool_decide; apply Hrest.
  - rewrite IH. split; [intros (s & ? & ?); exists s; auto|].
    intros (s & [->|?] & c' & Hc' & ?); [congruence|]. exists s; split; [done|by exists c'].
Qed.

Lemma routeLoop_spec statuses n u :
  ((routeLoop statuses n u).2 = None ↔
    u = None ∧ ∀ s, s ∈ statuses → ∃ c, FindStatusCondition (as_Conditions s) ConditionRouteAdvertised = Some c ∧
      cond_Status c ≠ ConditionUnknown) ∧
  (n ≤ (routeLoop statuses n u).1)%Z ∧
  ((n < (routeLoop statuses n u).1)%Z ↔ ∃ s, s ∈ statuses ∧ says ConditionRouteAdvertised ConditionTrue s).
Proof.
  unfold conditionIs. revert n u. induction statuses as [|x statuses IH]; intros n u; simpl.
  { split_and!; [set_solver|lia|]. split; [lia|set_solver]. }
  setoid_rewrite elem_of_cons.
  destruct (FindStatusCondition (as_Conditions x) ConditionRouteAdvertised) as [c|] eqn:Hc.
  - case_bool_decide as Ht; [|case_bool_decide as Hu].
    + destruct (IH (n + 1)%Z u) as (IH1 & IH2 & IH3). split_and!; [|lia|].
      * rewrite IH1. split; [|naive_solver]. intros [-> Hall]. split; [done|].
        intros s [->|?]; [exists c; split; [done|by rewrite Ht]|auto].
      * split; [|lia]. intros _. exists x. split; [by left|by exists c].
    + destruct (IH n (Some (default (cond_Reason c, cond_Message c) u))) as (IH1 & IH2 & IH3).
      split_and!; [|done|].
      * rewrite IH1. split; [naive_solver|]. intros [_ Hall]. destruct (Hall x) as (c' & ? & ?); [by left|congruence].
      * rewrite IH3. split; [naive_solver|]. intros (s & [->|?] & c' & ? & ?); [congruence|eauto].
    + destruct (IH n u) as (IH1 & IH2 & IH3). split_and!; [|done|].
      * rewrite IH1. split; [|naive_solver]. intros [-> Hall]. split; [done|]. intros s [->|?]; [by exists c|auto].
      * rewrite IH3. split; [naive_solver|]. intros (s & [->|?] & c' & ? & ?); [congruence|eauto].
  - destruct (IH n (Some (default (missing "route advertisement state" x) u))) as (IH1 & IH2 & IH3).
    split_and!; [|done|].
    + rewrite IH1. split; [naive_solver|]. intros [_ Hall]. destruct (Hall x) as (c' & ? & ?); [by left|congruence].
    + rewrite IH3. split; [naive_solver|]. intros (s & [->|?] & c' & ? & ?); [congruence|eauto].
Qed.

Lemma dataPlaneLoop_ready statuses seen absent :
  dataPlaneLoop statuses seen absent = inr (true, None) ↔
  absent = None ∧ (seen = true ∨ statuses ≠ []) ∧
  ∀ s, s ∈ statuses → says ConditionDataPlaneReady ConditionTrue s.
Proof.
  unfold conditionIs. revert seen absent. induction statuses as [|x statuses IH]; intros seen absent; simpl.
  { split; [intros [= -> ->]; set_solver|]. intros (-> & [->|?] & _); done. }
  setoid_rewrite elem_of_cons.
  destruct (FindStatusCondition (as_Conditions x) ConditionDataPlaneReady) as [c|] eqn:Hc.
  - case_bool_decide as Ht.
    + split; [done|]. intros (_ & _ & Hall). destruct (Hall x) as (c' & ? & ?); [by left|congruence].
    + rewrite IH. split.
      * intros (-> & _ & Hall). split_and!; [done|by right|]. intros s [->|?]; [by exists c|auto].
      * intros (-> & _ & Hall). split_and!; [done|by left|auto].
  - rewrite IH. split; [naive_solver|]. intros (_ & _ & Hall). destruct (Hall x) as (c' & ? & ?); [by left|congruence].
Qed.
Lemma dataPlaneLoop_not statuses seen absent c :
  dataPlaneLoop statuses seen absent = inl c → cond_Status c ≠ ConditionTrue.
Proof.
  revert seen absent. induction statuses as [|x statuses IH]; intros seen absent; simpl; [done|].
  destruct (FindStatusCondition _ _) as [c'|]; [|apply IH]. case_bool_decide; [by intros [= <-]|apply IH].
Qed.

Lemma aggregateServing_true vip fresh expired :
  cond_Status (aggregateServingCondition vip fresh expired) = ConditionTrue ↔
  ∃ s, s ∈ fresh ∧ says ConditionServing ConditionTrue s.
Proof.
  rewrite <- (servingLoop_true fresh None). unfold aggregateServingCondition.
  destruct fresh as [|x fresh]; [by destruct expired|].
  destruct (servingLoop (x :: fresh) None) as [[] [[r m]|]]; simpl; [done..|].
  destruct expired; [|done]. by destruct (spec_Backends (vip_Spec vip)).
Qed.

Lemma aggregateRoute_true vip fresh expired :
  cond_Status (aggregateRouteAdvertisedCondition vip fresh expired) = ConditionTrue ↔
  (∃ s, s ∈ fresh ∧ says ConditionRouteAdvertised ConditionTrue s) ∧
  ∀ s, s ∈ fresh → ∃ c, FindStatusCondition (as_Conditions s) ConditionRouteAdvertised = Some c ∧
    cond_Status c ≠ ConditionUnknown.
Proof.
  destruct (routeLoop_spec fresh 0 None) as (Hu & _ & Ht). rewrite <- Ht.
  assert (∀ P : Prop, P ↔ None (A:=string * string) = None ∧ P) as Hnone by naive_solver.
  rewrite (Hnone (∀ s, _)), <- Hu. clear Hu Ht Hnone. unfold aggregateRouteAdvertisedCondition.
  destruct fresh as [|x fresh]; [destruct expired; simpl; (split; [done|lia])|].
  destruct (routeLoop (x :: fresh) 0 None) as [n [[r m]|]]; simpl; [naive_solver|].
  destruct (Z.ltb_spec 0 n); simpl; [naive_solver|]. destruct expired; simpl; (split; [done|lia]).
Qed.

Lemma aggregateDataPlane_true vip fresh expired :
  (∃ c, aggregateDataPlaneReadyCondition vip fresh expired = Some c ∧ cond_Status c = ConditionTrue) ↔
  fresh ≠ [] ∧ ∀ s, s ∈ fresh → says ConditionDataPlaneReady ConditionTrue s.
Proof.
  assert (∀ P : Prop, P ↔ None (A:=string * string) = None ∧ P) as Hnone by naive_solver.
  transitivity (dataPlaneLoop fresh false None = inr (true, None)).
  - unfold aggregateDataPlaneReadyCondition.
    destruct (dataPlaneLoop fresh false None) as [c|[[] [[r m]|]]] eqn:Hl; simpl; [|naive_solver..|].
    + apply dataPlaneLoop_not in Hl. split; [|done]. intros (c' & [= <-] & ?). done.
    + split; [|done]. intros (c' & Hc & ?). destruct fresh; [|done]. destruct (existsb _ expired); by simplify_eq.
  - rewrite dataPlaneLoop_ready. naive_solver.
Qed.

Lemma aggregate_types vip fresh expired :
  cond_Type (aggregateServingCondition vip fresh expired) = ConditionServing ∧
  cond_Type (aggregateRouteAdvertisedCondition vip fresh expired) = ConditionRouteAdvertised ∧
  ∀ c, aggregateDataPlaneReadyCondition vip fresh expired = Some c → cond_Type c = ConditionDataPlaneReady.
Proof.
  unfold aggregateServingCondition, aggregateRouteAdvertisedCondition, aggregateDataPlaneReadyCondition.
  split_and!.
  - destruct fresh, expired; repeat case_match; done.
  - destruct fresh, expired; repeat case_match; done.
  - intros c. repeat case_match; intros; by simplify_eq.
Qed.

(** The aggregate Serving condition is appended anew each time. *)
Lemma aggregate_serving_stamped clock vip fresh expired :
  ∃ c, FindStatusCondition (aggregateConditions clock vip fresh expired) ConditionServing = Some c ∧
       cond_LastTransitionTime c = Some clock.
Proof.
  destruct (aggregate_types vip fresh expired) as (Ts & Tr & Td). exists (stamped clock (aggregateServingCondition vip fresh expired)).
  split; [|done]. set (base := preserveNonAgentConditions (st_Conditions (vip_Status vip))).
  assert (FindStatusCondition base ConditionServing = None) as Hnone.
  { unfold base. rewrite find_preserve. by rewrite decide_True by set_solver. }
  assert (FindStatusCondition (SetStatusCondition clock base (aggregateServingCondition vip fresh expired)) ConditionServing =
    Some (stamped clock (aggregateServingCondition vip fresh expired))) as Hset.
  { rewrite set_absent.
    - rewrite find_first, filter_app. rewrite find_first in Hnone.
      destruct (filter _ base) as [|c0 l]; [|done]. by rewrite filter_cons_True by done.
    - by rewrite Ts.
    - unfold aggregateServingCondition. destruct fresh, expired; repeat case_match; done. }
  unfold aggregateConditions. fold base.
  destruct (aggregateDataPlaneReadyCondition vip fresh expired) as [d|] eqn:Hd.
  - rewrite find_set_ne by (by rewrite (Td _ eq_refl)). by rewrite find_set_ne by (by rewrite Tr).
  - by rewrite find_set_ne by (by rewrite Tr).
Qed.

(** What the rebuilt list of conditions has. *)
Lemma aggregateConditions_spec clock vip fresh expired ty st :
  conditionIs (aggregateConditions clock vip fresh expired) ty st ↔
  if decide (ty = ConditionServing) then cond_Status (aggregateServingCondition vip fresh expired) = st
  else if decide (ty = ConditionRouteAdvertised)
  then cond_Status (aggregateRouteAdvertisedCondition vip fresh expired) = st
  else if decide (ty = ConditionDataPlaneReady)
  then ∃ c, aggregateDataPlaneReadyCondition vip fresh expired = Some c ∧ cond_Status c = st
  else conditionIs (st_Conditions (vip_Status vip)) ty st.
Proof.
  destruct (aggregate_types vip fresh expired) as (Ts & Tr & Td).
  assert (∀ c, ty ≠ cond_Type c → ∀ cs, conditionIs (SetStatusCondition clock cs c) ty st ↔ conditionIs cs ty st)
    as Hne by (intros; by apply conditionIs_set_ne).
  assert (∀ c cs, ty = cond_Type c → conditionIs (SetStatusCondition clock cs c) ty st ↔ cond_Status c = st)
    as Heq by (intros c cs ->; apply conditionIs_set_eq).
  unfold aggregateConditions.
  set (base := SetStatusCondition clock (SetStatusCondition clock _ _) _).
  assert (ty ≠ ConditionDataPlaneReady →
    conditionIs (match aggregateDataPlaneReadyCondition vip fresh expired with
      Some d => SetStatusCondition clock base d | None => base end) ty st ↔ conditionIs base ty st) as Hbase.
  { intros Hty. destruct (aggregateDataPlaneReadyCondition _ _ _) as [d|] eqn:Hd; [|done].
    apply Hne. by rewrite (Td _ eq_refl). }
  repeat case_decide; try subst ty.
  - rewrite Hbase by done. unfold base. rewrite Hne by by rewrite Tr. by apply Heq.
  - rewrite Hbase by done. by apply Heq.
  - destruct (aggregateDataPlaneReadyCondition _ _ _) as [d|] eqn:Hd.
    + rewrite Heq by (by rewrite (Td _ eq_refl)). naive_solver.
    + unfold base. rewrite !Hne by (by rewrite ?Ts, ?Tr). unfold conditionIs. rewrite find_preserve.
      rewrite decide_True by set_solver. naive_solver.
  - rewrite Hbase by done. unfold base. rewrite !Hne by (by rewrite ?Ts, ?Tr). unfold conditionIs.
    rewrite find_preserve, decide_False by set_solver. done.
Qed.


End Truth.

(** ** Limits *)
Lemma insertStable_perm x l : insertStable x l ≡ₚ x :: l.
Proof.
  induction l as [|y l IH]; simpl; [done|]. destruct (statusLess y x); [|done].
  rewrite IH. apply Permutation_swap.
Qed.
Lemma sortStable_perm l : sortStable l ≡ₚ l.
Proof. induction l as [|x l IH]; simpl; [done|]. by rewrite insertStable_perm, IH. Qed.

Abbreviation newer := (λ x y, agentStatusUpdateTime y ≤ agentStatusUpdateTime x)%Z.

Lemma statusLess_newer x y : if statusLess x y then newer x y else newer y x.
Proof.
  unfold statusLess. destruct (Z.eqb_spec (agentStatusUpdateTime x) (agentStatusUpdateTime y)) as [->|]; simpl.
  - by destruct (String.ltb _ _).
  - destruct (Z.ltb_spec (agentStatusUpdateTime y) (agentStatusUpdateTime x)); lia.
Qed.
Lemma insertStable_sorted x l : StronglySorted newer l → StronglySorted newer (insertStable x l).
Proof.
  induction 1 as [|y l Hl IH Hy]; simpl; [repeat constructor|].
  pose proof (statusLess_newer y x) as Hless. destruct (statusLess y x).
  - constructor; [done|]. rewrite insertStable_perm. by constructor.
  - constructor; [by constructor|]. constructor; [done|]. eapply Forall_impl; [exact Hy|]. simpl. lia.
Qed.
Lemma sortStable_sorted l : StronglySorted newer (sortStable l).
Proof. induction l as [|x l IH]; simpl; [constructor|by apply insertStable_sorted]. Qed.

(** Only the oldest are dropped, and only above the limit. *)
Lemma capAgentStatuses_spec l :
  length (capAgentStatuses l) ≤ MaxVirtualIPStatusAgentStatuses ∧
  ∃ dropped, l ≡ₚ capAgentStatuses l ++ dropped ∧
    (∀ x y, x ∈ capAgentStatuses l → y ∈ dropped → newer x y) ∧
    (length l ≤ MaxVirtualIPStatusAgentStatuses → dropped = [] ∧ capAgentStatuses l = l).
Proof.
  unfold capAgentStatuses. destruct (Nat.leb_spec (length l) MaxVirtualIPStatusAgentStatuses).
  { split; [done|]. exists []. rewrite app_nil_r. set_solver. }
  split; [apply firstn_le_length|]. exists (drop MaxVirtualIPStatusAgentStatuses (sortStable l)). split_and!.
  - by rewrite take_drop, sortStable_perm.
  - pose proof (sortStable_sorted l) as Hs. rewrite <- (take_drop MaxVirtualIPStatusAgentStatuses (sortStable l)) in Hs.
    intros x y Hx Hy. exact (StronglySorted_app_1_elem_of _ _ _ _ _ Hs Hx Hy).
  - lia.
Qed.

Lemma sanitizeAgentStatusTTLSeconds_bounds z :
  (0 ≤ sanitizeAgentStatusTTLSeconds z ≤ 3600)%Z ∧
  ((0 ≤ z ≤ 3600)%Z → sanitizeAgentStatusTTLSeconds z = z).
Proof.
  unfold sanitizeAgentStatusTTLSeconds. change (Z.quot MaxAgentStatusTTL Second) with 3600%Z.
  destruct (Z.leb_spec z 0); [lia|]. destruct (Z.ltb_spec 3600 z); lia.
Qed.

(** Within the limits of the schema. *)
Definition agentStatusBounded (s : AgentStatus) : Prop :=
  (0 ≤ as_TTLSeconds s ≤ 3600)%Z ∧ length (as_Backends s) ≤ MaxVirtualIPStatusBackends.
Lemma sanitizeAgentStatus_bounded s : agentStatusBounded (sanitizeAgentStatus s).
Proof.
  split; simpl; [apply sanitizeAgentStatusTTLSeconds_bounds|]. apply firstn_le_length.
Qed.
Lemma sanitizeAgentStatus_id s : agentStatusBounded s → sanitizeAgentStatus s = s.
Proof.
  intros [Ht Hb]. unfold sanitizeAgentStatus, withTTLAndBackends, SanitizeBackendStatuses.
  rewrite take_ge by done. rewrite (proj2 (sanitizeAgentStatusTTLSeconds_bounds _)) by done. by destruct s.
Qed.
Lemma sanitizeAgentStatus_idemp s : sanitizeAgentStatus (sanitizeAgentStatus s) = sanitizeAgentStatus s.
Proof. apply sanitizeAgentStatus_id, sanitizeAgentStatus_bounded. Qed.

Lemma SanitizeAgentStatuses_bounded l : Forall agentStatusBounded (SanitizeAgentStatuses l).
Proof.
  destruct (capAgentStatuses_spec (sanitizeAgentStatus <$> l)) as (_ & dropped & Hperm & _).
  assert (Forall agentStatusBounded (sanitizeAgentStatus <$> l)) as Hall.
  { apply Forall_fmap, Forall_forall. intros s _. apply sanitizeAgentStatus_bounded. }
  rewrite Hperm in Hall. by apply Forall_app in Hall as [? _].
Qed.
Lemma SanitizeAgentStatuses_id l :
  Forall agentStatusBounded l → length l ≤ MaxVirtualIPStatusAgentStatuses → SanitizeAgentStatuses l = l.
Proof.
  intros Hb Hl. unfold SanitizeAgentStatuses.
  assert (sanitizeAgentStatus <$> l = l) as ->.
  { rewrite <- (list_fmap_id l) at 2. apply list_fmap_ext. intros i s Hs.
    apply sanitizeAgentStatus_id. by eapply Forall_lookup_1. }
  destruct (capAgentStatuses_spec l) as (_ & dropped & _ & _ & Hid). by apply Hid.
Qed.

(** C24. What is written fits the limits of the schema: at most 1024 backends, in
    the aggregate and per agent, at most 256 agents, times to live between 0
    and an hour.  Agents are only dropped above the limit, and then the oldest
    observations go; a status within the limits is written as it is. *)
Theorem sanitize_bounds status :
  let status' := SanitizeVirtualIPStatus status in
  length (st_Backends status') ≤ 1024 ∧
  length (st_AgentStatuses status') ≤ 256 ∧
  Forall (λ s, (0 ≤ as_TTLSeconds s ≤ 3600)%Z ∧ length (as_Backends s) ≤ 1024) (st_AgentStatuses status') ∧
  (∃ dropped, sanitizeAgentStatus <$> st_AgentStatuses status ≡ₚ st_AgentStatuses status' ++ dropped ∧
    (∀ x y, x ∈ st_AgentStatuses status' → y ∈ dropped →
      agentStatusUpdateTime y ≤ agentStatusUpdateTime x)%Z ∧
    (length (st_AgentStatuses status) ≤ 256 → dropped = [])) ∧
  SanitizeVirtualIPStatus status' = status'.
Proof.
  intros status'. pose proof (SanitizeAgentStatuses_bounded (st_AgentStatuses status)) as Hb.
  destruct (capAgentStatuses_spec (sanitizeAgentStatus <$> st_AgentStatuses status))
    as (Hlen & dropped & Hperm & Hnew & Hid).
  split_and!; [apply firstn_le_length|exact Hlen|exact Hb| |].
  - exists dropped. split_and!; [done..|]. intros Hl. apply Hid. by rewrite length_fmap.
  - unfold status', SanitizeVirtualIPStatus. simpl. f_equal.
    + unfold SanitizeBackendStatuses. by rewrite take_idemp.
    + by apply SanitizeAgentStatuses_id.
Qed.

(** ** One write *)
Lemma upsertLoop_spec l next generation :
  let '(out, replaced) := upsertLoop l next generation in
  (∀ x, x ∈ out ↔ (replaced = true ∧ x = next) ∨
    (x ∈ l ∧ as_AgentID x ≠ as_AgentID next ∧ as_ObservedGeneration x = generation)) ∧
  (as_AgentID <$> out) `sublist_of` (as_AgentID <$> l) ∧
  (replaced = false → as_AgentID next ∉ as_AgentID <$> l).
Proof.
  induction l as [|y l IH]; simpl; [set_solver|].
  destruct (upsertLoop l next generation) as [out replaced]. destruct IH as (IHin & IHsub & IHrep).
  case_bool_decide as Hid; [|destruct (Z.eqb_spec (as_ObservedGeneration y) generation) as [Hg|Hg]].
  - split_and!; [|simpl; rewrite Hid; by constructor|done].
    intros x. rewrite !elem_of_cons, IHin. split; [naive_solver|].
    intros [[_ ->]|([->|Hx] & Hne & Hg)]; [by left|done|]. right. by right.
  - split_and!; [|simpl; by constructor|set_solver].
    intros x. rewrite !elem_of_cons, IHin. split; [naive_solver|].
    intros [?|([->|Hx] & Hne & Hg')]; [by right; left|by left|by right; right].
  - split_and!; [|simpl; by constructor|set_solver].
    intros x. rewrite !elem_of_cons, IHin. split; [naive_solver|].
    intros [?|([->|Hx] & Hne & Hg')]; [by left|done|by right].
Qed.

Lemma upsertAgentStatus_spec l next generation :
  (∀ x, x ∈ upsertAgentStatus l next generation ↔ x = next ∨
    (x ∈ l ∧ as_AgentID x ≠ as_AgentID next ∧ as_ObservedGeneration x = generation)) ∧
  (NoDup (as_AgentID <$> l) → NoDup (as_AgentID <$> upsertAgentStatus l next generation)) ∧
  length (upsertAgentStatus l next generation) ≤ S (length l).
Proof.
  unfold upsertAgentStatus. pose proof (upsertLoop_spec l next generation) as Hloop.
  destruct (upsertLoop l next generation) as [out replaced]. destruct Hloop as (Hin & Hsub & Hrep).
  pose proof (sublist_length _ _ Hsub) as Hlen. rewrite !length_fmap in Hlen.
  destruct replaced.
  - split_and!; [intros x; rewrite Hin; naive_solver| |lia]. intros Hnd. by eapply sublist_NoDup.
  - split_and!; [intros x; rewrite elem_of_app, list_elem_of_singleton, Hin; naive_solver| |].
    + intros Hnd. rewrite fmap_app. apply NoDup_app. split_and!; [by eapply sublist_NoDup| |apply NoDup_singleton].
      intros x Hx Hn. apply list_elem_of_singleton in Hn as ->. apply (Hrep eq_refl).
      by eapply elem_of_submseteq, sublist_submseteq.
    + rewrite length_app. simpl. lia.
Qed.

(** The observations kept are some of those there were. *)
Lemma split_submseteq clock statuses generation now ttl :
  now ≠ zeroTime →
  (splitAgentStatuses clock statuses generation now ttl).1 ++
  (splitAgentStatuses clock statuses generation now ttl).2 ⊆+ statuses.
Proof.
  intros Hnow. rewrite splitAgentStatuses_filter by done. simpl.
  rewrite <- (filter_app_complement (freshb generation now ttl) statuses) at 3.
  apply submseteq_app; [done|]. rewrite <- list_filter_filter. apply sublist_submseteq, sublist_filter.
Qed.

Lemma durationSeconds_bounds ttl : (0 < durationSeconds ttl ≤ 3600)%Z.
Proof.
  unfold durationSeconds. pose proof (normalizeAgentStatusTTL_bounds ttl) as Hb. revert Hb.
  generalize (normalizeAgentStatusTTL ttl). intros z Hb.
  pose proof (Z.quot_rem' z Second) as Hz. pose proof (Z.rem_bound_pos z Second) as Hr.
  change MaxAgentStatusTTL with (3600 * Second)%Z in Hb. change Second with 1000000000%Z in *.
  destruct (Z.eqb_spec (Z.rem z 1000000000) 0); lia.
Qed.

Section Write.
Context `{ConditionAPI}.

Lemma observation_bounded u hostname now vip healthyBackends conditions :
  agentStatusBounded (observation u hostname now vip healthyBackends conditions).
Proof.
  split; simpl; [pose proof (durationSeconds_bounds (normalizeAgentStatusTTL (up_agentStatusTTL u))); lia|].
  unfold buildBackendStatuses. rewrite length_fmap. apply firstn_le_length.
Qed.

Lemma observation_fresh u hostname now vip healthyBackends conditions ttl :
  freshReport (vip_Generation vip) now ttl (observation u hostname now vip healthyBackends conditions).
Proof.
  split; [done|]. exists now. split; [done|].
  pose proof (agentStatusTTL_bounds (observation u hostname now vip healthyBackends conditions) ttl). lia.
Qed.

Lemma fresh_retained generation now ttl s : freshReport generation now ttl s → retained generation now s.
Proof.
  intros (Hg & t & Ht & Hle). split; [done|]. exists t. split; [done|].
  pose proof (agentStatusTTL_bounds s ttl).
  assert (MaxAgentStatusTTL ≤ DefaultExpiredAgentStatusRetention)%Z by done. lia.
Qed.

Lemma Refresh_agentStatuses clock vip generation now ttl :
  st_AgentStatuses (vip_Status (RefreshAggregateStatus clock vip generation now ttl)) =
  SanitizeAgentStatuses ((splitAgentStatuses clock (st_AgentStatuses (vip_Status vip)) generation now ttl).1 ++
                         (splitAgentStatuses clock (st_AgentStatuses (vip_Status vip)) generation now ttl).2).
Proof.
  unfold RefreshAggregateStatus, applyAggregateStatus. destruct (splitAgentStatuses _ _ _ _ _) as [f e].
  by destruct (aggregateHealthyBackends _ _).
Qed.

(** The list that goes out, while it is within the limit. *)
Lemma Refresh_members clock vip generation now ttl :
  now ≠ zeroTime → length (st_AgentStatuses (vip_Status vip)) ≤ 256 →
  let l := st_AgentStatuses (vip_Status (RefreshAggregateStatus clock vip generation now ttl)) in
  SanitizeAgentStatuses l = l ∧
  (∀ s, s ∈ l ↔ ∃ s0, s0 ∈ st_AgentStatuses (vip_Status vip) ∧ retained generation now s0 ∧
    s = sanitizeAgentStatus s0) ∧
  (NoDup (as_AgentID <$> st_AgentStatuses (vip_Status vip)) → NoDup (as_AgentID <$> l)).
Proof.
  intros Hnow Hlen l. set (statuses := st_AgentStatuses (vip_Status vip)) in *.
  destruct (splitAgentStatuses_spec clock statuses generation now ttl Hnow) as [Hf He].
  pose proof (split_submseteq clock statuses generation now ttl Hnow) as Hsub.
  unfold l. rewrite Refresh_agentStatuses. fold statuses.
  destruct (splitAgentStatuses clock statuses generation now ttl) as [f e]. simpl in *.
  assert (SanitizeAgentStatuses (f ++ e) = sanitizeAgentStatus <$> (f ++ e)) as ->.
  { unfold SanitizeAgentStatuses. destruct (capAgentStatuses_spec (sanitizeAgentStatus <$> f ++ e)) as (_ & d & _ & _ & Hid).
    apply Hid. rewrite length_fmap. apply submseteq_length in Hsub. change MaxVirtualIPStatusAgentStatuses with 256. lia. }
  split_and!.
  - apply SanitizeAgentStatuses_id.
    + apply Forall_fmap, Forall_forall. intros s _. apply sanitizeAgentStatus_bounded.
    + rewrite length_fmap. apply submseteq_length in Hsub. change MaxVirtualIPStatusAgentStatuses with 256. lia.
  - intros s. rewrite list_elem_of_fmap. setoid_rewrite elem_of_app. setoid_rewrite Hf. setoid_rewrite He.
    split.
    + intros (s0 & -> & [[Hin Hfr]|(Hin & Hr & _)]); exists s0; split_and!; eauto using fresh_retained.
    + intros (s0 & Hin & Hr & ->). exists s0. split; [done|].
      destruct (decide (freshb generation now ttl s0)) as [Hfr|Hfr]; rewrite freshb_spec in Hfr; auto.
  - intros Hnd. rewrite <- list_fmap_compose. change (as_AgentID ∘ sanitizeAgentStatus) with as_AgentID.
    apply (fmap_submseteq as_AgentID), submseteq_Permutation in Hsub as [k Hk].
    rewrite Hk in Hnd. by apply NoDup_app in Hnd as [? _].
Qed.

(** One write of an agent is nothing when the object read is another
    incarnation, another generation or being deleted.  Otherwise it adds this
    agent's observation, which is fresh, replaces whatever the agent had written
    before, keeps what every other agent observed of this generation within the
    last seven days, drops the rest, changes nothing but the status, and never
    lists an agent twice if none was. *)
Theorem nextVIPStatus_effect u hostname now vip healthyBackends conditions current :
  now ≠ zeroTime → length (st_AgentStatuses (vip_Status current)) < 256 →
  let own := observation u hostname now vip healthyBackends conditions in
  match nextVIPStatus u hostname now vip healthyBackends conditions current with
  | None => stale current vip = true
  | Some next =>
      stale current vip = false ∧ next = setStatus current (vip_Status next) ∧
      st_ObservedGeneration (vip_Status next) = vip_Generation vip ∧
      (∀ ttl, freshReport (vip_Generation vip) now ttl own) ∧
      (∀ s, s ∈ st_AgentStatuses (vip_Status next) ↔ s = own ∨
        ∃ s0, s0 ∈ st_AgentStatuses (vip_Status current) ∧ as_AgentID s0 ≠ as_AgentID own ∧
          retained (vip_Generation vip) now s0 ∧ s = sanitizeAgentStatus s0) ∧
      (NoDup (as_AgentID <$> st_AgentStatuses (vip_Status current)) →
       NoDup (as_AgentID <$> st_AgentStatuses (vip_Status next)))
  end.
Proof.
  intros Hnow Hlen own. unfold nextVIPStatus. destruct (stale current vip); [done|]. fold own.
  set (l := upsertAgentStatus (st_AgentStatuses (vip_Status current)) own (vip_Generation vip)).
  destruct (upsertAgentStatus_spec (st_AgentStatuses (vip_Status current)) own (vip_Generation vip))
    as (Hin & Hnd & Hl). fold l in Hin, Hnd, Hl.
  set (cur := setStatus current (withAgentStatuses (vip_Status current) l)).
  set (ttl := normalizeAgentStatusTTL (up_agentStatusTTL u)).
  destruct (Refresh_members now cur (vip_Generation vip) now ttl) as (Hid & Hmem & Hrnd); [done|simpl; lia|].
  split_and!; [done| | |intros; apply observation_fresh| |].
  1,2: unfold RefreshAggregateStatus, applyAggregateStatus;
    destruct (splitAgentStatuses _ _ _ _ _) as [f e]; destruct (aggregateHealthyBackends _ _); done.
  - intros s. simpl. rewrite Hid, Hmem. simpl. setoid_rewrite Hin. split.
    + intros (s0 & [->|(Hs0 & Hne & Hg)] & Hr & ->).
      * left. apply sanitizeAgentStatus_id, observation_bounded.
      * right. by exists s0.
    + intros [->|(s0 & Hs0 & Hne & Hr & ->)].
      * exists own. split_and!; [by left|eapply fresh_retained, (observation_fresh _ _ _ _ _ _ 0)|].
        symmetry. apply sanitizeAgentStatus_id, observation_bounded.
      * exists s0. split_and!; [right; split_and!; [done..|by destruct Hr]|done..].
  - simpl. rewrite Hid. intros Hnd0. apply Hrnd. by apply Hnd.
Qed.

End Write.

End Status.

(** ** Examples *)
Module StatusExamples.
Import Status.

(** The helpers as apimachinery has them: the first condition of the type is
    changed in place, or a new one is appended. *)
Definition set_existing (t : Z) (new old : Condition) : Condition :=
  {| cond_Type := cond_Type old; cond_Status := cond_Status new;
     cond_ObservedGeneration := cond_ObservedGeneration new;
     cond_LastTransitionTime :=
       if bool_decide (cond_Status old = cond_Status new) then cond_LastTransitionTime old
       else Some (default t (cond_LastTransitionTime new));
     cond_Reason := cond_Reason new; cond_Message := cond_Message new |}.
Fixpoint set_condition (t : Z) (cs : list Condition) (new : Condition) : list Condition :=
  match cs with
  | [] => [{| cond_Type := cond_Type new; cond_Status := cond_Status new;
              cond_ObservedGeneration := cond_ObservedGeneration new;
              cond_LastTransitionTime := Some (default t (cond_LastTransitionTime new));
              cond_Reason := cond_Reason new; cond_Message := cond_Message new |}]
  | c :: cs' => if bool_decide (cond_Type c = cond_Type new) then set_existing t new c :: cs'
                else c :: set_condition t cs' new
  end.
#[local] Instance conditions : ConditionAPI :=
  {| SetStatusCondition := set_condition;
     FindStatusCondition cs ty := head (filter (λ c, cond_Type c = ty) cs) |}.
#[local] Instance conditions_laws : ConditionLaws.
Proof.
  split.
  - done.
  - intros t cs new. simpl. induction cs as [|c cs IH]; simpl.
    + rewrite filter_cons_True by done. by eexists.
    + case_bool_decide as Hc.
      * rewrite filter_cons_True by done. by eexists.
      * by rewrite filter_cons_False by done.
  - intros t cs new ty Hne. simpl. induction cs as [|c cs IH]; simpl.
    + by rewrite filter_cons_False by (by intros <-).
    + case_bool_decide as Hc.
      * rewrite !filter_cons_False; [done|congruence|simpl; congruence].
      * rewrite !filter_cons. by case_decide.
  - intros t cs new. simpl. induction cs as [|c cs IH]; simpl.
    + intros _ Hl. unfold stamped. by rewrite Hl.
    + rewrite filter_cons. case_decide as Hc; [done|]. rewrite bool_decide_eq_false_2 by done.
      intros Hn Hl. f_equal. by apply IH.
Qed.

Definition backend (a : string) : BackendSpec := {| be_Address := a; be_MonitorAddress := ""; be_Weight := 1 |}.
Definition b1 := backend "10.0.0.1".
Definition b2 := backend "10.0.0.2".
Definition b3 := backend "10.0.0.3".
Definition vip0 : VirtualIP :=
  {| vip_Namespace := "ns"; vip_Name := "web"; vip_UID := "u1"; vip_Generation := 3;
     vip_DeletionTimestamp := None;
     vip_Spec := {| spec_Address := "192.0.2.1"; spec_Port := 80; spec_Protocol := ProtocolTCP;
       spec_EncapType := EncapTypeGRE4; spec_DSCP := None; spec_Backends := [b1; b2; b3];
       spec_HealthCheck := None |};
     vip_Status := empty_status |}.
Definition now0 : Z := 1700000000 * Second.
Definition serving (st : string) : Condition :=
  {| cond_Type := ConditionServing; cond_Status := st; cond_ObservedGeneration := 0;
     cond_LastTransitionTime := None; cond_Reason := "r"; cond_Message := "m" |}.
Definition agentA : Updater := {| up_agentID := "a"; up_agentStatusTTL := 0 |}.
Definition agentB : Updater := {| up_agentID := "b"; up_agentStatusTTL := 0 |}.
Definition obsA : AgentStatus := observation agentA "" now0 vip0 [b1] [serving ConditionTrue].
Definition obsB : AgentStatus := observation agentB "" (now0 + Second) vip0 [b1; b3] [serving ConditionFalse].
Definition vip1 : VirtualIP := setStatus vip0 (withAgentStatuses empty_status [obsA]).
Definition vip2 : VirtualIP := setStatus vip0 (withAgentStatuses empty_status [obsA; obsB]).

Lemma aggregate_union_witness :
  aggregateHealthyBackends [b1; b2; b3] [obsA; obsB] = ({["10.0.0.1"; "10.0.0.3"]}, 2%Z).
Proof.
  destruct (aggregate_union [b1; b2; b3] [obsA; obsB] [healthySetOf [b1]; healthySetOf [b1; b3]]) as [H _].
  - repeat constructor.
  - rewrite H. vm_compute. reflexivity.
Defined.


Lemma nextVIPStatus_effect_witness :
  ∃ next, nextVIPStatus agentB "" (now0 + Second) vip0 [b1; b3] [serving ConditionFalse] vip1 = Some next ∧
    obsA ∈ st_AgentStatuses (vip_Status next) ∧ obsB ∈ st_AgentStatuses (vip_Status next).
Proof.
  pose proof (nextVIPStatus_effect agentB "" (now0 + Second) vip0 [b1; b3] [serving ConditionFalse] vip1) as H.
  destruct (nextVIPStatus agentB "" (now0 + Second) vip0 [b1; b3] [serving ConditionFalse] vip1) as [next|].
  - destruct H as (_ & _ & _ & _ & Hmem & _); [done|simpl; lia|]. exists next. split; [reflexivity|].
    split; apply Hmem; [right|left; reflexivity]. exists obsA. split_and!; [by left|done| |reflexivity].
    split; [reflexivity|]. exists now0. split; [reflexivity|]. by vm_compute.
  - exfalso. assert (stale vip1 vip0 = false) as Hn by reflexivity. rewrite H in Hn; [done|done|simpl; lia].
Defined.

End StatusExamples.
