(* ===== verification/Watcher.v ===== *)
(** * Watching VirtualIPs (internal/agent/watcher/watcher.go)

    The event handler turns informer events into updates and deletions; until
    the initial cleanup is done the gate keeps them back, one per VirtualIP.
    The gate runs on two threads, the informer's and the one that releases it:
    a step relation interleaves them. *)

From stdpp Require Import base tactics list gmap strings relations.
From S2P Require Import Prelude Types.

Module Watcher.

(** ** Events *)

(** What an informer hands over: an object, the last state it knows of one that
    is gone ([DeletedFinalStateUnknown]), or something else. *)
Inductive object := OVip (vip : VirtualIP) | OTombstone (o : object) | OOther.

Inductive pendingEventType := pendingEventAdd | pendingEventUpdate | pendingEventDelete.
Record pendingSyncEvent := {
  key : string;
  eventType : pendingEventType;
  obj : object;
  oldObj : object;
  isInInitialList : bool;
}.

(** The calls on the handler of the agent. *)
Inductive call := OnVIPUpdate (vip : VirtualIP) | OnVIPDelete (vip : VirtualIP).

(** ** The event handler *)
Definition deleting (vip : VirtualIP) : bool := bool_decide (is_Some (vip_DeletionTimestamp vip)).

Definition sameObservedSpec (oldVIP newVIP : VirtualIP) : bool :=
  (vip_Generation oldVIP =? vip_Generation newVIP)%Z && bool_decide (vip_Spec oldVIP = vip_Spec newVIP).

Definition OnAdd (o : object) : list call :=
  match o with
  | OVip vip => if deleting vip then [OnVIPDelete vip] else [OnVIPUpdate vip]
  | _ => []
  end.
Definition OnUpdate (old new : object) : list call :=
  match new with
  | OVip vip =>
      if deleting vip then [OnVIPDelete vip]
      else
        match old with
        | OVip oldVIP => if sameObservedSpec oldVIP vip then [] else [OnVIPUpdate vip]
        | _ => [OnVIPUpdate vip]
        end
  | _ => []
  end.
Definition OnDelete (o : object) : list call :=
  match o with
  | OVip vip => [OnVIPDelete vip]
  | OTombstone (OVip vip) => [OnVIPDelete vip]
  | _ => []
  end.

Definition virtualIPEventKey (o : object) : string :=
  let keyOf vip :=
    if bool_decide (vip_Namespace vip = "" ∨ vip_Name vip = "") then ""
    else vip_Namespace vip +:+ "/" +:+ vip_Name vip in
  match o with
  | OVip vip => keyOf vip
  | OTombstone (OVip vip) => keyOf vip
  | _ => ""
  end.

Definition newPendingAdd (o : object) (initial : bool) : pendingSyncEvent :=
  {| key := virtualIPEventKey o; eventType := pendingEventAdd; obj := o; oldObj := OOther; isInInitialList := initial |}.
Definition newPendingUpdate (old new : object) : pendingSyncEvent :=
  {| key := virtualIPEventKey new; eventType := pendingEventUpdate; obj := new; oldObj := old; isInInitialList := false |}.
Definition newPendingDelete (o : object) : pendingSyncEvent :=
  {| key := virtualIPEventKey o; eventType := pendingEventDelete; obj := o; oldObj := OOther; isInInitialList := false |}.

Definition deliver (e : pendingSyncEvent) : list call :=
  match eventType e with
  | pendingEventAdd => OnAdd (obj e)
  | pendingEventUpdate => OnUpdate (oldObj e) (obj e)
  | pendingEventDelete => OnDelete (obj e)
  end.

(** ** The gate *)

(** A missing entry of the map is the zero event, whose key is empty. *)
Definition coalescePendingEvent (existing : option pendingSyncEvent) (next : pendingSyncEvent) : pendingSyncEvent :=
  match existing with
  | None => next
  | Some existing =>
      if bool_decide (key existing = "") then next
      else
        let withObj := {| key := key existing; eventType := eventType existing; obj := obj next;
                          oldObj := oldObj existing; isInInitialList := isInInitialList existing |} in
        match eventType existing, eventType next with
        | pendingEventAdd, pendingEventUpdate => withObj
        | pendingEventUpdate, pendingEventUpdate => withObj
        | _, _ => next
        end
  end.

(** [batch] are the events the releasing thread still has to deliver, [calls]
    what the handler has been called with. *)
Record initialSyncEventGate := {
  released : bool;
  releasing : bool;
  pendingOrder : list string;
  pendingByKey : gmap string pendingSyncEvent;
  pendingUnkeyed : list pendingSyncEvent;
  batch : list pendingSyncEvent;
  calls : list call;
}.
Definition newInitialSyncEventGate : initialSyncEventGate :=
  {| released := false; releasing := false; pendingOrder := []; pendingByKey := ∅; pendingUnkeyed := [];
     batch := []; calls := [] |}.

Definition enqueue (event : pendingSyncEvent) (h : initialSyncEventGate) : initialSyncEventGate :=
  if released h then
    {| released := released h; releasing := releasing h; pendingOrder := pendingOrder h;
       pendingByKey := pendingByKey h; pendingUnkeyed := pendingUnkeyed h; batch := batch h;
       calls := calls h ++ deliver event |}
  else if bool_decide (key event = "") then
    {| released := released h; releasing := releasing h; pendingOrder := pendingOrder h;
       pendingByKey := pendingByKey h; pendingUnkeyed := pendingUnkeyed h ++ [event]; batch := batch h;
       calls := calls h |}
  else
    {| released := released h; releasing := releasing h;
       pendingOrder := match pendingByKey h !! key event with
                       | None => pendingOrder h ++ [key event]
                       | Some _ => pendingOrder h
                       end;
       pendingByKey := <[key event := coalescePendingEvent (pendingByKey h !! key event) event]> (pendingByKey h);
       pendingUnkeyed := pendingUnkeyed h; batch := batch h; calls := calls h |}.

Definition takePendingLocked (h : initialSyncEventGate) : list pendingSyncEvent :=
  omap (λ k, pendingByKey h !! k) (pendingOrder h) ++ pendingUnkeyed h.
(** The gate with nothing pending and these flags. *)
Definition taken (rel ing : bool) (events : list pendingSyncEvent) (h : initialSyncEventGate) : initialSyncEventGate :=
  {| released := rel; releasing := ing; pendingOrder := []; pendingByKey := ∅; pendingUnkeyed := [];
     batch := events; calls := calls h |}.

(** The start of [Release], up to the first unlock. *)
Definition Release_begin (h : initialSyncEventGate) : initialSyncEventGate :=
  if released h || releasing h then h else taken false true (takePendingLocked h) h.
(** One event of the inner loop. *)
Definition Release_deliver (e : pendingSyncEvent) (rest : list pendingSyncEvent) (h : initialSyncEventGate)
    : initialSyncEventGate :=
  {| released := released h; releasing := releasing h; pendingOrder := pendingOrder h;
     pendingByKey := pendingByKey h; pendingUnkeyed := pendingUnkeyed h; batch := rest;
     calls := calls h ++ deliver e |}.
(** The end of a round: the next batch, or done. *)
Definition Release_round (h : initialSyncEventGate) : initialSyncEventGate :=
  match takePendingLocked h with
  | [] => taken true false [] h
  | events => taken false true events h
  end.

(** Steps of the releasing thread. *)
Inductive rstep : initialSyncEventGate → initialSyncEventGate → Prop :=
  | rstep_deliver e rest h : releasing h = true → batch h = e :: rest → rstep h (Release_deliver e rest h)
  | rstep_round h : releasing h = true → batch h = [] → rstep h (Release_round h).

(** ** The informer

    [informs store e store']: an event an informer emits when its store goes from
    one state to the next.  An update reports the object it replaces; as long as
    it is the same object (the same UID), being deleted is not undone. *)
Inductive informs : gmap string VirtualIP → pendingSyncEvent → gmap string VirtualIP → Prop :=
  | informs_add store vip initial :
      vip_Namespace vip ≠ "" → vip_Name vip ≠ "" → store !! namespacedKey vip = None →
      informs store (newPendingAdd (OVip vip) initial) (<[namespacedKey vip := vip]> store)
  | informs_update store old new :
      vip_Namespace new ≠ "" → vip_Name new ≠ "" → store !! namespacedKey new = Some old →
      vip_UID old = vip_UID new → (deleting old = true → deleting new = true) →
      informs store (newPendingUpdate (OVip old) (OVip new)) (<[namespacedKey new := new]> store)
  | informs_delete store vip o :
      vip_Namespace vip ≠ "" → vip_Name vip ≠ "" → is_Some (store !! namespacedKey vip) →
      o = OVip vip ∨ o = OTombstone (OVip vip) →
      informs store (newPendingDelete o) (delete (namespacedKey vip) store)
  | informs_other store e : key e = "" → deliver e = [] → informs store e store.

(** The gate with the informer's store. *)
Inductive gstep : gmap string VirtualIP * initialSyncEventGate → gmap string VirtualIP * initialSyncEventGate → Prop :=
  | gstep_event store e store' h : informs store e store' → gstep (store, h) (store', enqueue e h)
  | gstep_begin store h : gstep (store, h) (store, Release_begin h)
  | gstep_release store h h' : rstep h h' → gstep (store, h) (store, h').

(** ** What the calls ask for *)
Definition ask (view : gmap string VirtualIP) (c : call) : gmap string VirtualIP :=
  match c with
  | OnVIPUpdate vip => <[namespacedKey vip := vip]> view
  | OnVIPDelete vip => delete (namespacedKey vip) view
  end.
Definition asked (cs : list call) : gmap string VirtualIP := foldl ask ∅ cs.

(** What they should ask for: the objects of the store that are not going away. *)
Definition desired (store : gmap string VirtualIP) (k : string) : option VirtualIP :=
  vip ← store !! k; if deleting vip then None else Some vip.

(** Up to the status, which the agent writes itself. *)
Definition sameVIP (a b : option VirtualIP) : Prop :=
  match a, b with
  | Some a, Some b => vip_UID a = vip_UID b ∧ vip_Generation a = vip_Generation b ∧ vip_Spec a = vip_Spec b
  | None, None => True
  | _, _ => False
  end.

(** ** One key at a time *)
Definition askAt (k : string) (v : option VirtualIP) (c : call) : option VirtualIP :=
  match c with
  | OnVIPUpdate vip => if decide (namespacedKey vip = k) then Some vip else v
  | OnVIPDelete vip => if decide (namespacedKey vip = k) then None else v
  end.
Definition runAt (k : string) (v : option VirtualIP) (e : pendingSyncEvent) : option VirtualIP :=
  foldl (askAt k) v (deliver e).

Lemma ask_lookup k m cs : foldl ask m cs !! k = foldl (askAt k) (m !! k) cs.
Proof.
  revert m. induction cs as [|c cs IH]; intros m; simpl; [done|]. rewrite IH. f_equal.
  destruct c as [vip|vip]; simpl; case_decide as Hk; subst; by simplify_map_eq.
Qed.
Lemma askAt_events k v es : foldl (askAt k) v (es ≫= deliver) = foldl (runAt k) v es.
Proof.
  revert v. induction es as [|e es IH]; intros v; [done|].
  rewrite bind_cons, foldl_app, IH. done.
Qed.

(** Keyed events concern their key only. *)
Lemma eventKey_ns vip k : virtualIPEventKey (OVip vip) = k → k ≠ "" → namespacedKey vip = k.
Proof. unfold virtualIPEventKey. case_bool_decide; [intros <- Hk; by destruct Hk|]. by intros <- _. Qed.
Lemma eventKey_eq vip :
  vip_Namespace vip ≠ "" → vip_Name vip ≠ "" →
  virtualIPEventKey (OVip vip) = namespacedKey vip ∧ namespacedKey vip ≠ "".
Proof.
  intros Hns Hn. unfold virtualIPEventKey. rewrite bool_decide_eq_false_2 by (by intros [?|?]).
  split; [done|]. unfold namespacedKey. by destruct (vip_Namespace vip).
Qed.
Lemma runAt_other k v e : key e = virtualIPEventKey (obj e) → key e ≠ "" → key e ≠ k → runAt k v e = v.
Proof.
  intros Hkey Hne Hk. rewrite Hkey in Hne, Hk.
  assert (∀ vip, virtualIPEventKey (OVip vip) ≠ "" → virtualIPEventKey (OVip vip) ≠ k →
    foldl (askAt k) v [OnVIPUpdate vip] = v ∧ foldl (askAt k) v [OnVIPDelete vip] = v) as Hc.
  { intros vip H1 H2. rewrite <- (eventKey_ns vip _ eq_refl H1) in H2. simpl. by rewrite !decide_False. }
  unfold runAt, deliver, OnAdd, OnUpdate, OnDelete. destruct (obj e) as [vip|[vip| |]|]; [..|by destruct (eventType e)];
    try by destruct (eventType e).
  - destruct (Hc vip Hne Hk) as [Hu Hd]. destruct (eventType e), (deleting vip); try done.
    destruct (oldObj e) as [old| |]; [destruct (sameObservedSpec old vip)|..]; done.
  - destruct (Hc vip Hne Hk) as [Hu Hd]. by destruct (eventType e).
Qed.

Lemma sameVIP_refl v : sameVIP v v.
Proof. by destruct v. Qed.
Lemma sameVIP_trans a b c : sameVIP a b → sameVIP b c → sameVIP a c.
Proof. destruct a, b, c; simpl; intuition congruence. Qed.

Definition alive (vip : VirtualIP) : option VirtualIP := if deleting vip then None else Some vip.
Lemma desired_insert_eq store vip k : desired (<[k := vip]> store) k = alive vip.
Proof. unfold desired. by simplify_map_eq. Qed.
Lemma desired_ne store store' k : store' !! k = store !! k → desired store' k = desired store k.
Proof. unfold desired. by intros ->. Qed.

(** Delivering one event, where the handler asked for [v] before. *)
Lemma runAt_add v vip k initial :
  namespacedKey vip = k → runAt k v (newPendingAdd (OVip vip) initial) = alive vip.
Proof.
  intros <-. unfold runAt, alive, deliver, newPendingAdd, OnAdd. cbn [eventType obj].
  destruct (deleting vip); simpl; by rewrite decide_True.
Qed.
Lemma runAt_update v old new k :
  namespacedKey new = k → vip_UID old = vip_UID new → (deleting old = true → deleting new = true) →
  sameVIP v (alive old) →
  sameVIP (runAt k v (newPendingUpdate (OVip old) (OVip new))) (alive new).
Proof.
  intros <- Hu Hd Hv. unfold runAt, deliver, newPendingUpdate, OnUpdate. cbn [eventType obj oldObj].
  unfold alive in *. destruct (deleting new); simpl.
  { by rewrite decide_True. }
  destruct (deleting old); [by specialize (Hd eq_refl)|].
  unfold sameObservedSpec. destruct (Z.eqb_spec (vip_Generation old) (vip_Generation new)) as [Hg|];
    [case_bool_decide as Hs|]; simpl; [|by rewrite decide_True..].
  eapply sameVIP_trans; [exact Hv|]. done.
Qed.
Lemma runAt_delete v vip k o :
  namespacedKey vip = k → o = OVip vip ∨ o = OTombstone (OVip vip) → runAt k v (newPendingDelete o) = None.
Proof.
  intros <- Ho. unfold runAt, deliver, newPendingDelete, OnDelete. cbn [eventType obj].
  destruct Ho as [-> | ->]; simpl; by rewrite decide_True.
Qed.

(** ** Invariant of the gate *)

(** A pending event brings the handler from [v] to what the store has. *)
Inductive closes (store : gmap string VirtualIP) (k : string) (v : option VirtualIP) : pendingSyncEvent → Prop :=
  | closes_add vip initial : store !! k = Some vip → virtualIPEventKey (OVip vip) = k →
      closes store k v {| key := k; eventType := pendingEventAdd; obj := OVip vip; oldObj := OOther;
                          isInInitialList := initial |}
  | closes_update old vip : store !! k = Some vip → virtualIPEventKey (OVip vip) = k →
      vip_UID old = vip_UID vip → (deleting old = true → deleting vip = true) → sameVIP v (alive old) →
      closes store k v {| key := k; eventType := pendingEventUpdate; obj := OVip vip; oldObj := OVip old;
                          isInInitialList := false |}
  | closes_delete vip o : store !! k = None → virtualIPEventKey (OVip vip) = k →
      o = OVip vip ∨ o = OTombstone (OVip vip) →
      closes store k v {| key := k; eventType := pendingEventDelete; obj := o; oldObj := OOther;
                          isInInitialList := false |}.

Lemma closes_runAt store k v e : k ≠ "" → closes store k v e → sameVIP (runAt k v e) (desired store k).
Proof.
  intros Hne. destruct 1 as [vip initial Hs Hk|old vip Hs Hk Hu Hd Hv|vip o Hs Hk Ho]; unfold desired; rewrite Hs;
    cbn [mbind option_bind]; apply (eventKey_ns _ _) in Hk; try done.
  - change (sameVIP (runAt k v (newPendingAdd (OVip vip) initial)) (alive vip)).
    rewrite runAt_add by done. apply sameVIP_refl.
  - exact (runAt_update v old vip k Hk Hu Hd Hv).
  - change (sameVIP (runAt k v (newPendingDelete o)) None). by rewrite (runAt_delete _ vip).
Qed.
Lemma closes_key store k v e : closes store k v e → key e = k ∧ virtualIPEventKey (obj e) = k.
Proof.
  destruct 1 as [vip initial Hs Hk|old vip Hs Hk|vip o Hs Hk Ho]; [done..|].
  split; [done|]. simpl. by destruct Ho as [-> | ->].
Qed.
Lemma closes_ext store store' k v v' e :
  store' !! k = store !! k → sameVIP v' v → closes store k v e → closes store' k v' e.
Proof.
  intros Hs Hv. destruct 1 as [vip initial|old vip ? ? ? ? Hold|vip o].
  - apply closes_add; congruence.
  - apply closes_update; [congruence|done..|]. by eapply sameVIP_trans.
  - apply (closes_delete _ _ _ vip); [congruence|done..].
Qed.

(** What the handler is asked for once the batch is delivered. *)
Definition inFlight (h : initialSyncEventGate) (k : string) : option VirtualIP :=
  foldl (runAt k) (asked (calls h) !! k) (batch h).

Record GInv (s : gmap string VirtualIP * initialSyncEventGate) : Prop := {
  gi_store : ∀ k vip, s.1 !! k = Some vip → virtualIPEventKey (OVip vip) = k ∧ k ≠ "";
  gi_released : released s.2 = true → releasing s.2 = false ∧ batch s.2 = [] ∧ pendingByKey s.2 = ∅;
  gi_closed : released s.2 = false → releasing s.2 = false → batch s.2 = [] ∧ calls s.2 = [];
  gi_order : NoDup (pendingOrder s.2) ∧ ∀ k, k ∈ pendingOrder s.2 ↔ is_Some (pendingByKey s.2 !! k);
  gi_unkeyed : Forall (λ e, deliver e = []) (pendingUnkeyed s.2);
  gi_view : ∀ k,
    match pendingByKey s.2 !! k with
    | None => sameVIP (inFlight s.2 k) (desired s.1 k)
    | Some e => k ≠ "" ∧ closes s.1 k (inFlight s.2 k) e
    end;
}.

Lemma GInv_init : GInv (∅, newInitialSyncEventGate).
Proof.
  split; simpl; try done.
  - split; [constructor|]. intros k. rewrite lookup_empty. split; [by intros ?%not_elem_of_nil|by intros [? ?]].
Qed.

(** Taking what is pending brings every key up to date. *)
Lemma taken_view k v (order : list string) (pend : gmap string pendingSyncEvent) store :
  NoDup order → (∀ k', k' ∈ order → is_Some (pend !! k')) →
  (∀ k' e, pend !! k' = Some e → k' ≠ "" ∧ key e = k' ∧ virtualIPEventKey (obj e) = k') →
  (∀ e, pend !! k = Some e → closes store k v e) →
  sameVIP (foldl (runAt k) v (omap (λ k', pend !! k') order))
    (if decide (k ∈ order) then desired store k else v).
Proof.
  intros Hnd Hsome Hkeys Hc.
  assert (∀ order v, NoDup order → (∀ k', k' ∈ order → is_Some (pend !! k')) →
    foldl (runAt k) v (omap (λ k', pend !! k') order) =
    if decide (k ∈ order) then default v (runAt k v <$> pend !! k) else v) as Hfold.
  { clear -Hkeys. induction order as [|k0 order IH]; intros v Hnd Hsome; [done|].
    apply NoDup_cons in Hnd as [Hk0 Hnd]. destruct (Hsome k0) as [e He]; [by left|]. simpl. rewrite He. simpl.
    rewrite IH by (try done; intros; apply Hsome; by right). destruct (Hkeys _ _ He) as (Hne & Hke & Hko).
    destruct (decide (k = k0)) as [->|Hk].
    - rewrite decide_False, decide_True by (done || by left). by rewrite He.
    - rewrite runAt_other by congruence. destruct (decide (k ∈ order)) as [Hin|Hin].
      + by rewrite decide_True by by right.
      + rewrite decide_False; [done|]. by intros [->|?]%elem_of_cons. }
  rewrite Hfold by done. case_decide as Hin; [|apply sameVIP_refl].
  destruct (Hsome _ Hin) as [e He]. rewrite He. simpl. apply closes_runAt; [by apply Hkeys in He as [? _]|auto].
Qed.

Lemma informs_store store e store' :
  informs store e store' → (∀ k vip, store !! k = Some vip → virtualIPEventKey (OVip vip) = k ∧ k ≠ "") →
  ∀ k vip, store' !! k = Some vip → virtualIPEventKey (OVip vip) = k ∧ k ≠ "".
Proof.
  intros Hi Hst k v. destruct Hi as [store vip initial Hns Hn|store old new Hns Hn|store vip o Hns Hn|]; [| | |apply Hst].
  - intros [[<- <-]|[_ ?]]%lookup_insert_Some; [by apply eventKey_eq|by apply Hst].
  - intros [[<- <-]|[_ ?]]%lookup_insert_Some; [by apply eventKey_eq|by apply Hst].
  - intros [_ ?]%lookup_delete_Some. by apply Hst.
Qed.

(** An event closes the gap of its key, whatever the handler was asked for
    before it, and leaves the other keys of the store. *)
Lemma informs_closes store e store' v :
  informs store e store' → key e ≠ "" →
  (sameVIP v (desired store (key e)) → closes store' (key e) v e) ∧
  (∀ k, k ≠ key e → store' !! k = store !! k).
Proof.
  assert (∀ vip, vip_Namespace vip ≠ "" → vip_Name vip ≠ "" → virtualIPEventKey (OVip vip) = namespacedKey vip) as Hk
    by (intros; by apply eventKey_eq).
  intros Hi Hne. destruct Hi as [store vip initial Hns Hn Hs|store old new Hns Hn Hs Hu Hd|store vip o Hns Hn Hs Ho|];
    [| | |done].
  - cbn [key newPendingAdd] in *. rewrite Hk in * by done. split; [|intros; by simplify_map_eq].
    intros _. unfold newPendingAdd. rewrite Hk by done. apply closes_add; [by simplify_map_eq|by apply Hk].
  - cbn [key newPendingUpdate] in *. rewrite Hk in * by done. split; [|intros; by simplify_map_eq].
    intros Hv. unfold newPendingUpdate. rewrite Hk by done.
    apply closes_update; [by simplify_map_eq|by apply Hk|done|done|]. unfold desired in Hv. by rewrite Hs in Hv.
  - assert (key (newPendingDelete o) = namespacedKey vip) as Hko by (destruct Ho as [-> | ->]; by apply Hk).
    rewrite Hko in *. split; [|intros; by simplify_map_eq].
    intros _. unfold newPendingDelete in *. cbn [key] in Hko. rewrite Hko.
    apply (closes_delete _ _ _ vip); [by simplify_map_eq|by apply Hk|done].
Qed.

(** Coalescing an event into the pending one of its key. *)
Lemma coalesce_closes store e store' v existing :
  informs store e store' → key e ≠ "" → closes store (key e) v existing →
  closes store' (key e) v (coalescePendingEvent (Some existing) e).
Proof.
  intros Hi Hne Hc. destruct (closes_key _ _ _ _ Hc) as [Hke _]. unfold coalescePendingEvent.
  rewrite Hke, bool_decide_eq_false_2 by done.
  destruct (informs_closes store e store' (desired store (key e)) Hi Hne) as [Hself _].
  specialize (Hself (sameVIP_refl _)).
  assert (eventType e ≠ pendingEventUpdate → closes store' (key e) v e) as Hreplace.
  { intros Hty. revert Hself Hty. generalize (key e) as k. intros k Hcl. destruct Hcl as [vip ini|old vip|vip o].
    - intros _. by apply closes_add.
    - simpl. congruence.
    - intros _. by apply (closes_delete _ _ _ vip). }
  destruct (eventType e) eqn:Hty; [destruct (eventType existing); by apply Hreplace| |
                                   destruct (eventType existing); by apply Hreplace].
  clear Hself Hreplace. destruct Hi as [| store old new Hns Hn Hs Hu Hd| |]; [done| |done|done].
  destruct (eventKey_eq _ Hns Hn) as [Hk _]. cbn [key newPendingUpdate obj] in *. rewrite Hk in *.
  destruct Hc as [vip0 ini0 H1 H2|old0 vip0 H1 H2 H3 H4 H5|vip0 o0 H1 H2 H3]; cbn [key eventType oldObj isInInitialList];
    [| |congruence].
  - apply closes_add; [by simplify_map_eq|done].
  - assert (vip0 = old) as -> by congruence.
    apply closes_update; [by simplify_map_eq|done|congruence|auto|done].
Qed.

Lemma informs_key store e store' :
  informs store e store' →
  (key e = "" ∧ deliver e = [] ∧ store' = store) ∨ (key e ≠ "" ∧ key e = virtualIPEventKey (obj e)).
Proof.
  destruct 1 as [store vip initial Hns Hn Hs|store old new Hns Hn Hs Hu Hd|store vip o Hns Hn Hs Ho|]; [right..|by left].
  - destruct (eventKey_eq _ Hns Hn) as [Hk Hne]. split; [|done]. cbn [key newPendingAdd]. congruence.
  - destruct (eventKey_eq _ Hns Hn) as [Hk Hne]. split; [|done]. cbn [key newPendingUpdate]. congruence.
  - destruct (eventKey_eq _ Hns Hn) as [Hk Hne]. split; [|done].
    destruct Ho as [-> | ->]; cbn [key newPendingDelete]; [congruence|]. change (virtualIPEventKey (OVip vip) ≠ ""). congruence.
Qed.

Lemma asked_app cs cs' k : asked (cs ++ cs') !! k = foldl (askAt k) (asked cs !! k) cs'.
Proof. unfold asked. by rewrite foldl_app, ask_lookup. Qed.

Lemma GInv_event store e store' h : GInv (store, h) → informs store e store' → GInv (store', enqueue e h).
Proof.
  intros [Hst Hrel Hclosed [Hnd Hord] Hunk Hview] Hi. simpl in *.
  pose proof (informs_store _ _ _ Hi Hst) as Hst'.
  unfold enqueue. destruct (released h) eqn:Hr; [|case_bool_decide as Hk].
  - destruct (Hrel eq_refl) as (Hring & Hb & Hp). split; simpl; try done.
    intros k. specialize (Hview k). rewrite Hp in *. rewrite lookup_empty in *. unfold inFlight in *. simpl.
    rewrite Hb in *. simpl in *. rewrite asked_app. fold (runAt k (asked (calls h) !! k) e).
    destruct (informs_key _ _ _ Hi) as [(_ & Hd & ->)|[Hne Hke]].
    + unfold runAt. by rewrite Hd.
    + destruct (decide (k = key e)) as [->|Hk].
      * apply closes_runAt; [done|]. by apply (informs_closes _ _ _ _ Hi Hne).
      * rewrite runAt_other by done. rewrite (desired_ne store store'); [done|].
        by apply (informs_closes _ _ _ None Hi Hne).
  - destruct (informs_key _ _ _ Hi) as [(_ & Hd & ->)|[Hne _]]; [|done].
    split; simpl; try done. rewrite Forall_app, Forall_singleton. done.
  - split; simpl; try done.
    + split.
      * destruct (pendingByKey h !! key e) eqn:He; [done|]. apply NoDup_app. split_and!; [done| |apply NoDup_singleton].
        intros k Hk1 Hk2%list_elem_of_singleton. subst k. apply Hord in Hk1 as [? ?]. congruence.
      * intros k. rewrite lookup_insert_is_Some. destruct (pendingByKey h !! key e) eqn:He.
        -- rewrite Hord. split; [|intros [<-|[_ ?]]; [by rewrite He|done]].
           intros ?. destruct (decide (key e = k)); [by left|by right].
        -- rewrite elem_of_app, list_elem_of_singleton, Hord. destruct (decide (key e = k)); naive_solver.
    + intros k. destruct (informs_closes _ _ _ (inFlight h (key e)) Hi Hk) as [Hself Hother].
      destruct (decide (k = key e)) as [->|Hne].
      * rewrite lookup_insert_eq. split; [done|]. specialize (Hview (key e)).
        destruct (pendingByKey h !! key e) as [existing|]; [|by apply Hself].
        destruct Hview as [_ Hc]. by eapply coalesce_closes.
      * rewrite lookup_insert_ne by done. specialize (Hview k).
        destruct (pendingByKey h !! k) as [e'|].
        -- destruct Hview as [? Hc]. split; [done|]. eapply closes_ext; [by apply Hother|apply sameVIP_refl|done].
        -- rewrite (desired_ne store store'); [done|]. by apply Hother.
Qed.

(** What is pending, delivered after the batch. *)
Lemma takePending_view store h k :
  GInv (store, h) → sameVIP (foldl (runAt k) (inFlight h k) (takePendingLocked h)) (desired store k).
Proof.
  intros [Hst Hrel Hclosed [Hnd Hord] Hunk Hview]. simpl in *. unfold takePendingLocked. rewrite foldl_app.
  assert (∀ v, foldl (runAt k) v (pendingUnkeyed h) = v) as ->.
  { induction Hunk as [|e es He _ IH]; intros v; simpl; [done|]. rewrite IH. unfold runAt. by rewrite He. }
  assert (∀ k' e, pendingByKey h !! k' = Some e → k' ≠ "" ∧ key e = k' ∧ virtualIPEventKey (obj e) = k') as Hkeys.
  { intros k' e He. specialize (Hview k'). rewrite He in Hview. destruct Hview as [Hne Hc].
    split; [done|by eapply closes_key]. }
  eapply sameVIP_trans.
  - apply (taken_view k _ _ _ store); [done|intros k'; by rewrite Hord|done|].
    intros e He. specialize (Hview k). rewrite He in Hview. by destruct Hview.
  - case_decide as Hin; [apply sameVIP_refl|]. specialize (Hview k).
    destruct (pendingByKey h !! k) eqn:He; [|done]. exfalso. apply Hin, Hord. by rewrite He.
Qed.

Lemma GInv_taken store h rel ing :
  GInv (store, h) → batch h = [] → negb rel = ing → (rel = true → takePendingLocked h = []) →
  GInv (store, taken rel ing (takePendingLocked h) h).
Proof.
  intros Hinv Hb Hflags Hdone. pose proof (takePending_view store h) as Hv.
  pose proof (gi_store _ Hinv) as Hst. split; simpl; try done.
  - intros ->. split_and!; [by destruct ing|by apply Hdone|done].
  - intros -> ->. done.
  - split; [constructor|]. intros k. rewrite lookup_empty. split; [by intros ?%not_elem_of_nil|by intros [? ?]].
  - intros k. rewrite lookup_empty. specialize (Hv k Hinv). unfold inFlight in *. simpl. by rewrite Hb in Hv.
Qed.

Lemma gate_step s s' : gstep s s' → GInv s → GInv s'.
Proof.
  destruct 1 as [store e store' h Hi|store h|store h h' Hr]; intros Hinv.
  - by eapply GInv_event.
  - unfold Release_begin. destruct (released h) eqn:Hrel; [done|]. destruct (releasing h) eqn:Hing; [done|]. simpl.
    apply GInv_taken; [done|by apply (gi_closed _ Hinv)|done|done].
  - destruct Hr as [e rest h Hing Hb|h Hing Hb].
    + assert (released h = false) as Hrel.
      { destruct (released h) eqn:Hr; [|done]. destruct (gi_released _ Hinv Hr) as [? _]. simpl in *. congruence. }
      destruct Hinv as [Hst _ _ Hord Hunk Hview]. split; simpl in *; try done; try congruence.
      intros k. specialize (Hview k). unfold inFlight in *. simpl. rewrite Hb in Hview. simpl in Hview.
      rewrite asked_app. exact Hview.
    + unfold Release_round. destruct (takePendingLocked h) as [|e es] eqn:Ht.
      * rewrite <- Ht. by apply GInv_taken.
      * rewrite <- Ht. by apply GInv_taken.
Qed.

Lemma GInv_reachable s : rtc gstep (∅, newInitialSyncEventGate) s → GInv s.
Proof.
  intros Hr. assert (GInv (∅, newInitialSyncEventGate)) as Hinit by apply GInv_init. revert Hinit.
  induction Hr as [|? ? ? Hs _ IH]; [done|]. intros Hinv. apply IH. by eapply gate_step.
Qed.


(** [Release] ends: when no further event comes in, the releasing thread
    delivers what is pending and opens the gate in finitely many steps. *)
Theorem release_finishes h : releasing h = true → ∃ h', rtc rstep h h' ∧ released h' = true ∧ batch h' = [].
Proof.
  assert (∀ b h, releasing h = true → batch h = b → ∃ h', rtc rstep h h' ∧ releasing h' = true ∧ batch h' = [] ∧
    pendingByKey h' = pendingByKey h ∧ pendingOrder h' = pendingOrder h ∧ pendingUnkeyed h' = pendingUnkeyed h) as Hbatch.
  { induction b as [|e b IH]; intros h0 Hing Hb.
    - exists h0. done.
    - destruct (IH (Release_deliver e b h0)) as (h' & Hrtc & Hrest); [done|done|]. exists h'. split; [|done].
      eapply rtc_l; [by apply rstep_deliver|done]. }
  intros Hing. destruct (Hbatch (batch h) h Hing eq_refl) as (h1 & Hr1 & Hing1 & Hb1 & _).
  assert (rstep h1 (Release_round h1)) as Hs1 by (by apply rstep_round). unfold Release_round in Hs1.
  destruct (takePendingLocked h1) as [|e es] eqn:Ht.
  - exists (taken true false [] h1). split; [|done]. eapply rtc_r; done.
  - destruct (Hbatch (e :: es) (taken false true (e :: es) h1)) as (h2 & Hr2 & Hing2 & Hb2 & Hp & Ho & Hu); [done|done|].
    simpl in *. assert (rstep h2 (Release_round h2)) as Hs2 by (by apply rstep_round).
    assert (Release_round h2 = taken true false [] h2) as Hdone.
    { unfold Release_round, takePendingLocked. by rewrite Ho, Hu. }
    rewrite Hdone in Hs2. exists (taken true false [] h2). split; [|done].
    etrans; [exact Hr1|]. eapply rtc_l; [exact Hs1|]. eapply rtc_r; done.
Qed.

End Watcher.

(** ** Examples *)
Module WatcherExamples.
Import Watcher.

Definition web (gen : Z) (port : Z) (del : option Z) : VirtualIP :=
  {| vip_Namespace := "ns"; vip_Name := "web"; vip_UID := "u1"; vip_Generation := gen;
     vip_DeletionTimestamp := del;
     vip_Spec := {| spec_Address := "192.0.2.1"; spec_Port := port; spec_Protocol := ProtocolTCP;
       spec_EncapType := EncapTypeGRE4; spec_DSCP := None; spec_Backends := []; spec_HealthCheck := None |};
     vip_Status := empty_status |}.

(** The object is listed and changed while the gate is closed, changed again
    while the first event is being delivered, and once more when the gate is
    open. *)
Definition put (vip : VirtualIP) (store : gmap string VirtualIP) := <[namespacedKey vip := vip]> store.
Definition add1 := newPendingAdd (OVip (web 1 80 None)) true.
Definition upd (gen port : Z) := newPendingUpdate (OVip (web gen port None)) (OVip (web (gen + 1) (port + 1) None)).
Definition s1 := put (web 1 80 None) ∅.
Definition s2 := put (web 2 81 None) s1.
Definition s3 := put (web 3 82 None) s2.
Definition s4 := put (web 4 83 None) s3.
Definition h0 := enqueue add1 newInitialSyncEventGate.
Definition h1 := enqueue (upd 1 80) h0.
Definition h2 := Release_begin h1.
Definition h3 := enqueue (upd 2 81) h2.
Definition h4 := Release_deliver (newPendingAdd (OVip (web 2 81 None)) true) [] h3.
Definition h5 := Release_round h4.
Definition h6 := Release_deliver (upd 2 81) [] h5.
Definition h7 := Release_round h6.
Definition h8 := enqueue (upd 3 82) h7.

Lemma reach_h8 : rtc gstep (∅, newInitialSyncEventGate) (s4, h8).
Proof.
  apply (rtc_l _ _ (s1, h0)); [by apply gstep_event, informs_add|].
  apply (rtc_l _ _ (s2, h1)); [by apply gstep_event, (informs_update s1)|].
  apply (rtc_l _ _ (s2, h2)); [apply gstep_begin|].
  apply (rtc_l _ _ (s3, h3)); [by apply gstep_event, (informs_update s2)|].
  apply (rtc_l _ _ (s3, h4)); [by apply gstep_release, rstep_deliver|].
  apply (rtc_l _ _ (s3, h5)); [by apply gstep_release, rstep_round|].
  apply (rtc_l _ _ (s3, h6)); [by apply gstep_release, rstep_deliver|].
  apply (rtc_l _ _ (s3, h7)); [by apply gstep_release, rstep_round|].
  apply (rtc_l _ _ (s4, h8)); [by apply gstep_event, (informs_update s3)|].
  apply rtc_refl.
Qed.


Lemma release_finishes_witness : ∃ h', rtc rstep h3 h' ∧ released h' = true ∧ batch h' = [].
Proof. exact (release_finishes h3 eq_refl). Defined.

End WatcherExamples.
