(* ===== verification/Cleanup.v ===== *)
(** * Cleaning up after a restart (cmd/arcalb-agent/main.go)

    Before the first event is handled the agent compares the configurations it
    kept in its store with the VirtualIPs that exist, and takes down what is
    stale: the route, the VIP in the data plane, then the record of it. *)

From Stdlib Require Import Ascii.
From stdpp Require Import base tactics list sorting gmap strings.
From S2P Require Import Prelude Types Store Routing Vpp DataPlane Validation Health Reconciler ReconcilerSim.

Module Cleanup.
Import Validation Health Reconciler.

Inductive retainedConfigSource := retainedConfigLastApplied | retainedConfigPending.
Definition sourceString (s : retainedConfigSource) : string :=
  match s with retainedConfigLastApplied => "last-applied" | retainedConfigPending => "pending" end.

Record retainedConfig := { rc_key : string; rc_source : retainedConfigSource; rc_vip : VirtualIP }.

Definition uint8PtrEqual (a b : option Z) : bool :=
  match a, b with None, None => true | Some a, Some b => (a =? b)%Z | _, _ => false end.

Definition sameRetainedVIPIdentity (a b : VirtualIP) : bool :=
  let a := vip_Spec a in let b := vip_Spec b in
  bool_decide (spec_Address a = spec_Address b) && (spec_Port a =? spec_Port b)%Z &&
  bool_decide (spec_Protocol a = spec_Protocol b) && bool_decide (spec_EncapType a = spec_EncapType b) &&
  uint8PtrEqual (spec_DSCP a) (spec_DSCP b).

(** [strings.Cut(s, "/")] *)
Fixpoint cutSlash (s : string) : option (string * string) :=
  match s with
  | "" => None
  | String c s' =>
      if Ascii.eqb c "/"%char then Some ("", s')
      else '(before, after) ← cutSlash s'; Some (String c before, after)
  end.

Definition rolloutKeyForCleanup (key : string) (vip : VirtualIP) : string :=
  if bool_decide (spec_Address (vip_Spec vip) ≠ "") then "vip-address/" +:+ spec_Address (vip_Spec vip)
  else "virtualip/" +:+ key.

(** ** The VirtualIPs that exist *)

(** [currentByKey], the keys of [currentValidByKey] and [currentAddresses]. *)
Record Current := {
  currentByKey : gmap string VirtualIP;
  currentValid : gset string;
  currentAddresses : gset string;
}.
Definition noCurrent : Current := {| currentByKey := ∅; currentValid := ∅; currentAddresses := ∅ |}.

(** What the process has: the collaborators that may be nil. *)
Record CleanupConfig := { cc_hasStore : bool; cc_hasDataPlane : bool; cc_hasRouter : bool; cc_hasRollouts : bool }.

Record Host (R D B S : Type) := MkHost { h_router : R; h_dp : D; h_db : B; h_env : S }.
#[global] Arguments MkHost {R D B S}.
#[global] Arguments h_router {R D B S}.
#[global] Arguments h_dp {R D B S}.
#[global] Arguments h_db {R D B S}.
#[global] Arguments h_env {R D B S}.

Section Operations.
Context {R D B S : Type}.
Context `{!Router R} `{!DataPlane D} `{!Store.Bolt B} `{!MapOrder B} `{!Codec VirtualIPSpec} `{!HttpGuts} `{!Env S}.
Variable cc : CleanupConfig.
Abbreviation host := (Host R D B S).

Definition onRouter {A} (m : ST R A) : ST host A := λ h,
  let '(a, r) := m (h_router h) in (a, MkHost r (h_dp h) (h_db h) (h_env h)).
Definition onDp {A} (m : ST D A) : ST host A := λ h,
  let '(a, d) := m (h_dp h) in (a, MkHost (h_router h) d (h_db h) (h_env h)).
Definition onDb {A} (m : ST B A) : ST host A := λ h,
  let '(a, b) := m (h_db h) in (a, MkHost (h_router h) (h_dp h) b (h_env h)).
Definition onEnv {A} (m : ST S A) : ST host A := λ h,
  let '(a, s) := m (h_env h) in (a, MkHost (h_router h) (h_dp h) (h_db h) s).

(** The loop over [currentVIPs]; a [*VirtualIP] that is being deleted counts as
    gone. *)
Definition addCurrent (b : B) (c : Current) (vip : VirtualIP) : Current :=
  let key := KeyForVIP vip in
  if bool_decide (is_Some (vip_DeletionTimestamp vip)) then c
  else
    let byKey := <[key := vip]> (currentByKey c) in
    match Validate b (Some vip) with
    | Some _ => {| currentByKey := byKey; currentValid := currentValid c; currentAddresses := currentAddresses c |}
    | None => {| currentByKey := byKey; currentValid := {[key]} ∪ currentValid c;
                 currentAddresses := {[spec_Address (vip_Spec vip)]} ∪ currentAddresses c |}
    end.
Definition collectCurrent (b : B) (vips : list VirtualIP) : Current := foldl (addCurrent b) noCurrent vips.

Definition virtualIPFromRetainedConfig (key data : string) (source : retainedConfigSource) : err + VirtualIP :=
  match cutSlash key with
  | None => inl (ErrMsg ("invalid namespaced VIP key " +:+ quoted key))
  | Some (namespace, name) =>
      if bool_decide (namespace = "" ∨ name = "") then inl (ErrMsg ("invalid namespaced VIP key " +:+ quoted key))
      else
        match unmarshal data with
        | inl e => inl (errorf ("failed to decode " +:+ sourceString source +:+ " config for " +:+ key +:+ ": ") e)
        | inr spec =>
            inr {| vip_Namespace := namespace; vip_Name := name; vip_UID := ""; vip_Generation := 0;
                   vip_DeletionTimestamp := None; vip_Spec := spec; vip_Status := empty_status |}
        end
  end.

Definition orFirst (firstErr : error) (e : err) : error := match firstErr with None => Some e | _ => firstErr end.

(** One of the two decoding loops, over the entries in the order of the map. *)
Fixpoint decodeRetained (source : retainedConfigSource) (entries : list (string * string)) (firstErr : error)
    : list retainedConfig * error :=
  match entries with
  | [] => ([], firstErr)
  | (key, data) :: rest =>
      match virtualIPFromRetainedConfig key data source with
      | inl e => decodeRetained source rest (orFirst firstErr e)
      | inr vip =>
          let '(l, e) := decodeRetained source rest firstErr in
          ({| rc_key := key; rc_source := source; rc_vip := vip |} :: l, e)
      end
  end.

(** The addresses an invalid current VIP still serves are in use. *)
Definition protectAddress (c : Current) (addrs : gset string) (r : retainedConfig) : gset string :=
  let address := spec_Address (vip_Spec (rc_vip r)) in
  if bool_decide (is_Some (currentByKey c !! rc_key r)) && negb (bool_decide (rc_key r ∈ currentValid c))
     && negb (bool_decide (address = ""))
  then {[address]} ∪ addrs else addrs.

(** The [continue]s of the last loop. *)
Definition keepRetained (c : Current) (r : retainedConfig) : bool :=
  match currentByKey c !! rc_key r with
  | Some currentVIP =>
      negb (bool_decide (rc_key r ∈ currentValid c)) || sameRetainedVIPIdentity (rc_vip r) currentVIP
  | None => false
  end.

Definition cleanupRetainedVIP (key : string) (source : retainedConfigSource) (vip : VirtualIP)
    (withdrawRoute deleteHealthStates : bool) : ST host error :=
  e ← (if withdrawRoute && cc_hasRouter cc then onRouter (WithdrawVIP (spec_Address (vip_Spec vip)))
       else mret None);
  match e with
  | Some e => mret (Some (errorf "failed to withdraw stale retained VIP route: " e))
  | None =>
      e ← onDp (dpRemoveVIP vip);
      match e with
      | Some e => mret (Some (errorf "failed to remove stale retained VIP from dataplane: " e))
      | None =>
          e ← (match source with
               | retainedConfigLastApplied =>
                   e ← onDb (Store.DeleteLastConfig key);
                   mret (errorf "failed to delete stale last-applied config: " <$> e)
               | retainedConfigPending =>
                   e ← onDb (Store.DeletePendingConfig key);
                   mret (errorf "failed to delete stale pending config: " <$> e)
               end);
          match e with
          | Some e => mret (Some e)
          | None =>
              if negb deleteHealthStates then mret None
              else
                e ← onDb (Store.DeleteHealthStatesForVIP key);
                mret (errorf "failed to delete stale health states: " <$> e)
          end
      end
  end.

Definition runExclusive (key : string) (fn : ST host error) : ST host error :=
  e ← onEnv (beginExclusive key);
  match e with
  | Some e => mret (Some e)
  | None => r ← fn; onEnv (endExclusive key r)
  end.

(** One retained configuration of the last loop. *)
Definition cleanupOne (c : Current) (addrs : gset string) (r : retainedConfig) : ST host error :=
  let withdrawRoute := negb (bool_decide (spec_Address (vip_Spec (rc_vip r)) ∈ addrs)) in
  let deleteHealthStates := negb (bool_decide (is_Some (currentByKey c !! rc_key r))) in
  let cleanup := cleanupRetainedVIP (rc_key r) (rc_source r) (rc_vip r) withdrawRoute deleteHealthStates in
  if cc_hasRollouts cc then runExclusive (rolloutKeyForCleanup (rc_key r) (rc_vip r)) cleanup else cleanup.

Fixpoint cleanupLoop (c : Current) (addrs : gset string) (rs : list retainedConfig) (firstErr : error)
    : ST host error :=
  match rs with
  | [] => mret firstErr
  | r :: rest =>
      if keepRetained c r then cleanupLoop c addrs rest firstErr
      else
        e ← cleanupOne c addrs r;
        cleanupLoop c addrs rest (match e with Some e => orFirst firstErr e | None => firstErr end)
  end.

(** The order of the loops over maps, which is unspecified, is the one of the
    store at the start. *)
Definition cleanupStaleLastConfigs (currentVIPs : list VirtualIP) : ST host error :=
  if negb (cc_hasStore cc) || negb (cc_hasDataPlane cc) then mret None
  else
    h ← get;
    '(lastConfigs, e) ← onDb Store.LoadAllLastConfigs;
    match e with
    | Some e => mret (Some (errorf "failed to load last-applied configs: " e))
    | None =>
        '(pendingConfigs, e) ← onDb Store.LoadAllPendingConfigs;
        match e with
        | Some e => mret (Some (errorf "failed to load pending configs: " e))
        | None =>
            if bool_decide (lastConfigs = ∅) && bool_decide (pendingConfigs = ∅) then mret None
            else
              let c := collectCurrent (h_db h) currentVIPs in
              let '(l1, e1) := decodeRetained retainedConfigLastApplied (mapRange (h_db h) lastConfigs) None in
              let '(l2, e2) := decodeRetained retainedConfigPending (mapRange (h_db h) pendingConfigs) e1 in
              let retained := l1 ++ l2 in
              cleanupLoop c (foldl (protectAddress c) (currentAddresses c) retained) retained e2
        end
    end.

End Operations.

(** ** What is left after a cleanup *)

Definition bucketOf (source : retainedConfigSource) (db : Store.DB) : gmap string string :=
  match source with
  | retainedConfigLastApplied => Store.last_config db
  | retainedConfigPending => Store.pending_config db
  end.

#[export] Instance source_eq_dec : EqDecision retainedConfigSource.
Proof. solve_decision. Defined.

Lemma cutSlash_spec s a b : cutSlash s = Some (a, b) → s = a +:+ "/" +:+ b.
Proof.
  revert a. induction s as [|ch s IH]; intros a; simpl; [done|].
  destruct (Ascii.eqb_spec ch "/"%char) as [->|Hne].
  - intros [= <- <-]. done.
  - destruct (cutSlash s) as [[a' b']|] eqn:Hs; simpl; [|done]. intros [= <- <-].
    unfold String.app in *. simpl. f_equal. by apply IH.
Qed.

#[local] Arguments Store.DeleteLastConfig : simpl never.
#[local] Arguments Store.DeletePendingConfig : simpl never.
#[local] Arguments Store.DeleteHealthStatesForVIP : simpl never.

Section Properties.
Context {R D B S : Type}.
Context `{!Router R} `{!Clock R} `{!RouterLaws R} `{!DataPlane D} `{!DataPlaneLaws D} `{!Store.Bolt B} `{!Store.BoltLaws B}.
Context `{!MapOrder B} `{!Codec VirtualIPSpec} `{!HttpGuts} `{!Env S} `{!EnvLaws S}.
Variable cc : CleanupConfig.
Abbreviation host := (Host R D B S).
Implicit Types h : host.

Abbreviation announcedAt h := (IsAnnounced (h_router h)).
Abbreviation appliedAt h := (dpApplied (h_dp h)).
Abbreviation dbAt h := (Store.dbOf (h_db h)).

Lemma virtualIPFromRetainedConfig_key key data source vip :
  virtualIPFromRetainedConfig key data source = inr vip → namespacedKey vip = key.
Proof.
  unfold virtualIPFromRetainedConfig. destruct (cutSlash key) as [[ns name]|] eqn:Hc; [|done].
  case_bool_decide; [done|]. destruct (unmarshal data); [done|]. intros [= <-]. simpl.
  apply cutSlash_spec in Hc as ->. done.
Qed.

(** The outcome of one cleanup, for its key and for the others. *)
Record cleaned (r : retainedConfig) (withdraw : bool) (e : error) h h' : Prop := {
  cl_route_frame : ∀ a, withdraw = false ∨ a ≠ spec_Address (vip_Spec (rc_vip r)) → announcedAt h' a = announcedAt h a;
  cl_route_mono : ∀ a, announcedAt h' a = true → announcedAt h a = true;
  cl_dp_frame : ∀ k, k ≠ namespacedKey (rc_vip r) → appliedAt h' k = appliedAt h k;
  cl_db : ∀ source k, bucketOf source (dbAt h') !! k = bucketOf source (dbAt h) !! k ∨
    (source = rc_source r ∧ k = rc_key r ∧ bucketOf source (dbAt h') !! k = None ∧
     (withdraw = true → cc_hasRouter cc = true → announcedAt h' (spec_Address (vip_Spec (rc_vip r))) = false));
  cl_done : e = None → bucketOf (rc_source r) (dbAt h') !! rc_key r = None ∧
    appliedAt h' (namespacedKey (rc_vip r)) = None;
}.

Lemma deleteHealth_db key (b b' : B) e :
  Store.DeleteHealthStatesForVIP key b = (e, b') → ∀ source, bucketOf source (Store.dbOf b') = bucketOf source (Store.dbOf b).
Proof.
  intros Hd source. destruct (Store.boltUpdate_atomic _ _ _ _ Hd) as [(_ & _ & Hdb)|[_ Hdb]]; rewrite Hdb; [|done].
  by destruct source.
Qed.
Lemma deleteConfig_db source key (b b' : B) e :
  (match source with
   | retainedConfigLastApplied => Store.DeleteLastConfig key
   | retainedConfigPending => Store.DeletePendingConfig key end) b = (e, b') →
  (e ≠ None → ∀ s, bucketOf s (Store.dbOf b') = bucketOf s (Store.dbOf b)) ∧
  (e = None → ∀ s, bucketOf s (Store.dbOf b') =
     if decide (s = source) then delete key (bucketOf s (Store.dbOf b)) else bucketOf s (Store.dbOf b)).
Proof.
  intros Hd. assert ((e = None ∧ Store.dbOf b' = (match source with retainedConfigLastApplied => Store.set_last
    | retainedConfigPending => Store.set_pending end) (delete key) (Store.dbOf b)) ∨ (e ≠ None ∧ Store.dbOf b' = Store.dbOf b))
    as [[-> Hdb]|[He Hdb]] by (destruct source; by apply Store.txDelete_update).
  - split; [done|]. intros _ s. rewrite Hdb. by destruct source, s.
  - split; [|done]. intros _ s. by rewrite Hdb.
Qed.

Lemma withdraw_step (w : bool) a h e h1 :
  (if w && cc_hasRouter cc then onRouter (WithdrawVIP a) else mret None) h = (e, h1) →
  h_dp h1 = h_dp h ∧ h_db h1 = h_db h ∧
  (∀ b, w = false ∨ b ≠ a → announcedAt h1 b = announcedAt h b) ∧
  (∀ b, announcedAt h1 b = true → announcedAt h b = true) ∧
  (e = None → w = true → cc_hasRouter cc = true → announcedAt h1 a = false).
Proof.
  destruct (w && cc_hasRouter cc) eqn:Hw.
  - apply andb_true_iff in Hw as [-> _]. unfold onRouter.
    destruct (WithdrawVIP a (h_router h)) as [e' r] eqn:Hr. intros [= <- <-]. simpl. split_and!; [done..| | |].
    + intros b [?|Hb]; [done|]. destruct e' as [x|]; [by rewrite (withdraw_err _ _ _ _ Hr)|].
      by rewrite (withdraw_ok _ _ _ Hr), decide_False.
    + intros b. destruct e' as [x|]; [by rewrite (withdraw_err _ _ _ _ Hr)|].
      rewrite (withdraw_ok _ _ _ Hr). by case_decide.
    + intros -> _ _. by rewrite (withdraw_ok _ _ _ Hr), decide_True.
  - intros [= <- <-]. split_and!; try done. intros _ -> Hrt. by rewrite Hrt in Hw.
Qed.

Lemma cleanupRetainedVIP_spec r withdraw del h e h' :
  cleanupRetainedVIP cc (rc_key r) (rc_source r) (rc_vip r) withdraw del h = (e, h') → cleaned r withdraw e h h'.
Proof.
  unfold cleanupRetainedVIP. intros Hrun. unfold mbind, ST_bind in Hrun.
  destruct ((if withdraw && cc_hasRouter cc then onRouter (WithdrawVIP (spec_Address (vip_Spec (rc_vip r))))
             else mret None) h) as [e1 h1] eqn:E1.
  apply withdraw_step in E1 as (Hdp & Hdb & Hframe & Hmono & Hgone).
  destruct e1 as [x|].
  { injection Hrun as <- <-. split; try done; [intros k _; by rewrite Hdp|]. intros s k. left. by rewrite Hdb. }
  unfold onDp in Hrun. destruct (dpRemoveVIP (rc_vip r) (h_dp h1)) as [e2 d2] eqn:E2. rewrite Hdp in E2.
  assert (∀ k, k ≠ namespacedKey (rc_vip r) → dpApplied d2 k = appliedAt h k) as Hdp2.
  { intros k Hk. by rewrite (remove_frame _ _ _ _ _ E2 Hk). }
  destruct e2 as [x|].
  { injection Hrun as <- <-. split; try done. intros s k. left. simpl. by rewrite Hdb. }
  set (del1 := match rc_source r with retainedConfigLastApplied => Store.DeleteLastConfig (rc_key r)
    | retainedConfigPending => Store.DeletePendingConfig (rc_key r) end).
  destruct (del1 (h_db h1)) as [e3 b3] eqn:E3.
  pose proof (deleteConfig_db _ _ _ _ _ E3) as [Hfail Hok].
  assert (∃ e4 b4, (e3 ≠ None → e4 ≠ None ∧ b4 = b3) ∧
    (e3 = None → ∀ s, bucketOf s (Store.dbOf b4) = bucketOf s (Store.dbOf b3)) ∧
    (e, h') = (e4, MkHost (h_router h1) d2 b4 (h_env h1))) as (e4 & b4 & Hf4 & Hok4 & [= -> ->]).
  { unfold del1 in E3. unfold onDb in Hrun.
    destruct (rc_source r); simpl in Hrun; rewrite E3 in Hrun;
      (destruct e3 as [x|]; simpl in Hrun;
        [injection Hrun as <- <-; (refine (ex_intro _ _ (ex_intro _ _ (conj _ (conj _ eq_refl)))); [by split|done])|]);
      (destruct del; simpl in Hrun;
        [destruct (Store.DeleteHealthStatesForVIP (rc_key r) b3) as [e5 b5] eqn:E5;
         injection Hrun as <- <-; eexists _, b5; (split; [done|split; [intros _; by eapply deleteHealth_db|reflexivity]])
        |injection Hrun as <- <-; exists None, b3; split_and!; done]). }
  split; simpl; try done.
  - intros s k. destruct e3 as [x|].
    + destruct Hf4 as [_ ->]; [done|]. left. by rewrite Hfail, Hdb.
    + rewrite (Hok4 eq_refl), (Hok eq_refl), Hdb. case_decide as Hs; [|by left].
      destruct (decide (k = rc_key r)) as [->|Hk]; [right|left; by rewrite lookup_delete_ne].
      split_and!; [done|done|by rewrite lookup_delete_eq|]. by apply Hgone.
  - intros ->. destruct e3 as [x|]; [by destruct Hf4|]. split; [|by eapply remove_ok].
    rewrite (Hok4 eq_refl), (Hok eq_refl), decide_True by done. apply lookup_delete_eq.
Qed.

Lemma cleanupOne_spec c addrs r h e h' :
  cleanupOne cc c addrs r h = (e, h') →
  cleaned r (negb (bool_decide (spec_Address (vip_Spec (rc_vip r)) ∈ addrs))) e h h'.
Proof.
  unfold cleanupOne. destruct (cc_hasRollouts cc); [|by apply cleanupRetainedVIP_spec].
  unfold runExclusive. unfold mbind, ST_bind, onEnv at 1.
  destruct (beginExclusive _ (h_env h)) as [[x|] s1] eqn:Hb.
  { intros [= <- <-]. split; try done; simpl; auto. }
  destruct (cleanupRetainedVIP _ _ _ _ _ _ _) as [e1 h1] eqn:Hc. apply cleanupRetainedVIP_spec in Hc.
  unfold onEnv. destruct (endExclusive _ e1 (h_env h1)) as [e2 s2] eqn:He. intros [= <- <-].
  destruct Hc as [E1 E2 E3 E4 E5]. split; try done. intros ->. apply E5.
  destruct e1 as [x|]; [|done]. by apply end_keeps_error in He.
Qed.

Definition staleIn (c : Current) (rs : list retainedConfig) (r : retainedConfig) : Prop :=
  r ∈ rs ∧ keepRetained c r = false.

Lemma cleanupLoop_spec c addrs rs e0 h e h' :
  cleanupLoop cc c addrs rs e0 h = (e, h') →
  (∀ a, a ∈ addrs → announcedAt h' a = announcedAt h a) ∧
  (∀ a, announcedAt h' a = true → announcedAt h a = true) ∧
  (∀ k, (∀ r, staleIn c rs r → namespacedKey (rc_vip r) ≠ k) → appliedAt h' k = appliedAt h k) ∧
  (∀ source k, bucketOf source (dbAt h') !! k = bucketOf source (dbAt h) !! k ∨
    (bucketOf source (dbAt h') !! k = None ∧ ∃ r, staleIn c rs r ∧ rc_source r = source ∧ rc_key r = k ∧
     (spec_Address (vip_Spec (rc_vip r)) ∉ addrs → cc_hasRouter cc = true →
      announcedAt h' (spec_Address (vip_Spec (rc_vip r))) = false))) ∧
  (e = None → e0 = None ∧ (∀ k, appliedAt h k = None → appliedAt h' k = None) ∧
    ∀ r, staleIn c rs r → bucketOf (rc_source r) (dbAt h') !! rc_key r = None ∧
      appliedAt h' (namespacedKey (rc_vip r)) = None).
Proof.
  unfold staleIn. revert e0 h. induction rs as [|r rs IH]; intros e0 h; simpl.
  { intros [= <- <-]. split_and!; try done; [by left|]. intros ->. split_and!; [done..|]. by intros r [?%not_elem_of_nil _]. }
  destruct (keepRetained c r) eqn:Hkeep.
  { intros Hrun. apply IH in Hrun as (A1 & A2 & A3 & A4 & A5). split_and!; [done|done| | |].
    - intros k Hk. apply A3. intros r' [Hin ?]. apply Hk. split; [by right|done].
    - intros s k. destruct (A4 s k) as [?|(? & r' & [? ?] & ?)]; [by left|right]. split; [done|]. exists r'.
      split; [split; [by right|done]|done].
    - intros He. destruct (A5 He) as (? & ? & A6). split_and!; [done..|].
      intros r' [[->|Hin]%elem_of_cons Hk]; [congruence|by apply A6]. }
  unfold mbind, ST_bind. destruct (cleanupOne cc c addrs r h) as [e1 h1] eqn:E1. intros Hrun.
  apply cleanupOne_spec in E1 as [B1 B2 B3 B4 B5]. apply IH in Hrun as (A1 & A2 & A3 & A4 & A5). split_and!.
  - intros a Ha. rewrite (A1 _ Ha). apply B1. destruct (decide (a = spec_Address (vip_Spec (rc_vip r)))) as [->|]; [left|by right].
    by rewrite bool_decide_eq_true_2.
  - intros a Ha. by apply B2, A2.
  - intros k Hk. rewrite A3; [apply B3|].
    + intros ->. apply (Hk r); [|done]. split; [by left|done].
    + intros r' [Hin ?]. apply Hk. split; [by right|done].
  - intros s k. destruct (A4 s k) as [->|(HA & r' & [? ?] & ?)].
    + destruct (B4 s k) as [?|(-> & -> & Hn & Hgone)]; [by left|right]. split; [done|]. exists r.
      split; [split; [by left|done]|]. split_and!; [done|done|]. intros Hna Hrt.
      specialize (Hgone (eq_trans (f_equal negb (bool_decide_eq_false_2 _ Hna)) eq_refl) Hrt).
      destruct (announcedAt h' _) eqn:Ha; [|done]. apply A2 in Ha. congruence.
    + right. split; [done|]. exists r'. split; [split; [by right|done]|done].
  - intros He. destruct (A5 He) as (He1 & A6 & A7). assert (e1 = None ∧ e0 = None) as [-> ->].
    { destruct e1, e0; simpl in He1; done. }
    destruct (B5 eq_refl) as [B6 B7]. split_and!; [done| |].
    + intros k Hk. apply A6. destruct (decide (k = namespacedKey (rc_vip r))) as [->|Hne]; [done|]. by rewrite B3.
    + intros r' [[->|Hin]%elem_of_cons Hk]; [|by apply A7]. split; [|by apply A6].
      destruct (A4 (rc_source r) (rc_key r)) as [->|[? _]]; done.
Qed.

(** ** Reading the store and the list of VirtualIPs *)
Lemma forEach_map (b : Store.bucket) : list_to_map (Store.forEach b) = b.
Proof.
  assert (Store.forEach b ≡ₚ map_to_list b) as Hp by apply merge_sort_Permutation.
  rewrite <- (list_to_map_to_list b) at 2. apply list_to_map_proper; [|done].
  rewrite Hp. apply NoDup_fst_map_to_list.
Qed.
Lemma LoadAllLastConfigs_reads (b b' : B) m :
  Store.LoadAllLastConfigs b = ((m, None), b') → Store.dbOf b' = Store.dbOf b ∧ m = Store.last_config (Store.dbOf b).
Proof.
  intros Hl. destruct (Store.boltView_reads _ _ _ _ _ _ Hl) as [-> [[= ->]|[_ ?]]]; [|done].
  by rewrite forEach_map.
Qed.
Lemma LoadAllPendingConfigs_reads (b b' : B) m :
  Store.LoadAllPendingConfigs b = ((m, None), b') → Store.dbOf b' = Store.dbOf b ∧ m = Store.pending_config (Store.dbOf b).
Proof.
  intros Hl. destruct (Store.boltView_reads _ _ _ _ _ _ Hl) as [-> [[= ->]|[_ ?]]]; [|done].
  by rewrite forEach_map.
Qed.

Lemma decodeRetained_spec source entries e0 :
  let '(l, e) := decodeRetained source entries e0 in
  (∀ r, r ∈ l ↔ rc_source r = source ∧ ∃ data, (rc_key r, data) ∈ entries ∧
    virtualIPFromRetainedConfig (rc_key r) data source = inr (rc_vip r)) ∧
  (e = None → e0 = None ∧ ∀ k data, (k, data) ∈ entries → ∃ vip, virtualIPFromRetainedConfig k data source = inr vip).
Proof.
  revert e0. induction entries as [|[key data] entries IH]; intros e0; simpl.
  { split; [|by split; [|intros ? ? ?%not_elem_of_nil]].
    intros r. split; [by intros ?%not_elem_of_nil|]. by intros (_ & ? & ?%not_elem_of_nil & _). }
  destruct (virtualIPFromRetainedConfig key data source) as [x|vip] eqn:Hd.
  - specialize (IH (orFirst e0 x)). destruct (decodeRetained source entries (orFirst e0 x)) as [l e].
    destruct IH as [IH1 IH2]. split.
    + intros r. rewrite IH1. setoid_rewrite elem_of_cons. split; [naive_solver|].
      intros (? & data' & [[= <- <-]|Hin] & Hv); [congruence|eauto].
    + intros He. destruct (IH2 He) as [He0 _]. by destruct e0.
  - specialize (IH e0). destruct (decodeRetained source entries e0) as [l e]. destruct IH as [IH1 IH2]. split.
    + intros r. rewrite elem_of_cons, IH1. setoid_rewrite elem_of_cons. split.
      * intros [->|(? & data' & ? & ?)]; [simpl; eauto|eauto 6].
      * intros (Hs & data' & [[= Hk <-]|Hin] & Hv); [left|by right; eauto].
        rewrite Hk in Hv. destruct r as [k s v]; simpl in *. subst. congruence.
    + intros He. destruct (IH2 He) as [? IH3]. split; [done|]. intros k data'.
      intros [[= -> ->]|?]%elem_of_cons; eauto.
Qed.

(** A VirtualIP of the list that is not going away. *)
Definition lives (vips : list VirtualIP) (k : string) (vip : VirtualIP) : Prop :=
  vip ∈ vips ∧ KeyForVIP vip = k ∧ vip_DeletionTimestamp vip = None.
Definition valid (b : B) (vip : VirtualIP) : Prop := Validate b (Some vip) = None.

Lemma lives_snoc vips vip k v :
  lives (vips ++ [vip]) k v ↔ lives vips k v ∨ (v = vip ∧ KeyForVIP vip = k ∧ vip_DeletionTimestamp vip = None).
Proof.
  unfold lives. rewrite elem_of_app, list_elem_of_singleton. split.
  - intros ([?| ->] & ? & ?); auto.
  - intros [(? & ? & ?)|(-> & ? & ?)]; auto.
Qed.
Lemma lives_nil k v : ¬ lives [] k v.
Proof. by intros [?%not_elem_of_nil _]. Qed.

Lemma collectCurrent_spec b vips :
  NoDup (KeyForVIP <$> vips) →
  let c := collectCurrent b vips in
  (∀ k vip, currentByKey c !! k = Some vip ↔ lives vips k vip) ∧
  (∀ k, k ∈ currentValid c ↔ ∃ vip, lives vips k vip ∧ valid b vip) ∧
  (∀ a, a ∈ currentAddresses c ↔ ∃ k vip, lives vips k vip ∧ valid b vip ∧ spec_Address (vip_Spec vip) = a).
Proof.
  unfold collectCurrent. simpl. induction vips as [|vip vips IH] using rev_ind; intros Hnd.
  { simpl. split_and!; [intros k v; rewrite lookup_empty; split; [done|by intros ?%lives_nil]|..];
      intros x; split; [by intros ?%elem_of_empty|by intros (? & ?%lives_nil & _)
                       |by intros ?%elem_of_empty|by intros (? & ? & ?%lives_nil & _)]. }
  rewrite fmap_app in Hnd. apply NoDup_app in Hnd as (Hnd & Hnew & _). rewrite foldl_snoc.
  destruct (IH Hnd) as (I1 & I2 & I3). clear IH. set (c := foldl (addCurrent b) noCurrent vips) in *.
  assert (∀ k v, lives vips k v → k ≠ KeyForVIP vip) as Hdiff.
  { intros k v (Hv & <- & _) Heq. apply (Hnew (KeyForVIP v)); [apply list_elem_of_fmap; eauto|].
    simpl. rewrite Heq. by left. }
  unfold addCurrent. case_bool_decide as Hdel.
  { assert (∀ k v, lives (vips ++ [vip]) k v ↔ lives vips k v) as Hl.
    { intros k v. rewrite lives_snoc. split; [|by left]. intros [?|(_ & _ & Hd)]; [done|]. rewrite Hd in Hdel. by destruct Hdel. }
    repeat setoid_rewrite Hl. done. }
  assert (vip_DeletionTimestamp vip = None) as Hd by (by apply eq_None_not_Some).
  assert (∀ k v, <[KeyForVIP vip:=vip]> (currentByKey c) !! k = Some v ↔ lives (vips ++ [vip]) k v) as Hby.
  { intros k v. rewrite lookup_insert_Some, I1, lives_snoc. split.
    - intros [[<- <-]|[_ ?]]; auto.
    - intros [Hv|(-> & <- & _)]; [right|by left]. split; [|done]. by eapply not_eq_sym, Hdiff. }
  repeat setoid_rewrite lives_snoc. setoid_rewrite lives_snoc in Hby.
  destruct (Validate b (Some vip)) eqn:Hval; simpl.
  - assert (¬ valid b vip) as Hinv by (unfold valid; by rewrite Hval).
    split_and!; [done|intros k; rewrite I2|intros a; rewrite I3]; split.
    + intros (v & ? & ?). eauto.
    + intros (v & [?|(-> & _)] & ?); [eauto|done].
    + intros (k & v & ? & ? & ?). eauto 6.
    + intros (k & v & [?|(-> & _)] & ? & ?); [eauto|done].
  - split_and!; [done| |].
    + intros k. rewrite elem_of_union, elem_of_singleton, I2. split.
      * intros [->|(v & ? & ?)]; [exists vip; auto|eauto].
      * intros (v & [?|(-> & ? & _)] & ?); [right; eauto|by left].
    + intros a. rewrite elem_of_union, elem_of_singleton, I3. split.
      * intros [->|(k & v & ? & ? & ?)]; [exists (KeyForVIP vip), vip; auto|eauto 6].
      * intros (k & v & [?|(-> & _)] & ? & ?); [right; eauto|by left].
Qed.

Lemma protect_spec c rs addrs a :
  a ∈ foldl (protectAddress c) addrs rs ↔
  a ∈ addrs ∨ (a ≠ "" ∧ ∃ r, r ∈ rs ∧ spec_Address (vip_Spec (rc_vip r)) = a ∧
    is_Some (currentByKey c !! rc_key r) ∧ rc_key r ∉ currentValid c).
Proof.
  revert addrs. induction rs as [|r rs IH]; intros addrs; simpl.
  { split; [by left|]. intros [?|(_ & ? & ?%not_elem_of_nil & _)]; done. }
  rewrite IH. setoid_rewrite elem_of_cons. unfold protectAddress.
  destruct (bool_decide (is_Some (currentByKey c !! rc_key r)) && _ && _) eqn:Hp.
  - rewrite !andb_true_iff, !negb_true_iff in Hp. destruct Hp as [[Hc%bool_decide_eq_true Hv%bool_decide_eq_false] Ha%bool_decide_eq_false].
    rewrite elem_of_union, elem_of_singleton. split.
    + intros [[->|?]|(? & r' & ? & ?)]; [right|by left|right]; (split; [done|]); [exists r|exists r']; auto.
    + intros [?|(? & r' & [->|?] & ? & ?)]; [by left; right|left; left; congruence|right]. split; [done|]. by exists r'.
  - split.
    + intros [?|(? & r' & ? & ?)]; [by left|right]. split; [done|]. exists r'; auto.
    + intros [?|(Hne & r' & [->|?] & Ha & Hc & Hv)]; [by left| |right; split; [done|]; by exists r'].
      exfalso. rewrite bool_decide_eq_true_2, !bool_decide_eq_false_2 in Hp; [done|by rewrite Ha|done|done].
Qed.

(** ** The outcome *)

(** A configuration of the store, decoded. *)
Definition retainedIn h (source : retainedConfigSource) (k : string) (vip : VirtualIP) : Prop :=
  ∃ data, bucketOf source (dbAt h) !! k = Some data ∧ virtualIPFromRetainedConfig k data source = inr vip.

(** It is kept: the VirtualIP still exists, and is invalid, so that what it was
    goes on, or is still this VIP. *)
Definition stays (vips : list VirtualIP) h (k : string) (vip : VirtualIP) : Prop :=
  ∃ cur, lives vips k cur ∧ (valid (h_db h) cur → sameRetainedVIPIdentity vip cur = true).

(** An address in use: of a valid VirtualIP, or of what an invalid one was. *)
Definition inUse (vips : list VirtualIP) h (a : string) : Prop :=
  (∃ k cur, lives vips k cur ∧ valid (h_db h) cur ∧ spec_Address (vip_Spec cur) = a) ∨
  (a ≠ "" ∧ ∃ source k vip cur, retainedIn h source k vip ∧ spec_Address (vip_Spec vip) = a ∧
    lives vips k cur ∧ ¬ valid (h_db h) cur).

Lemma keepRetained_spec vips h r :
  NoDup (KeyForVIP <$> vips) →
  keepRetained (collectCurrent (h_db h) vips) r = true ↔ stays vips h (rc_key r) (rc_vip r).
Proof.
  intros Hnd. destruct (collectCurrent_spec (h_db h) vips Hnd) as (Hby & Hval & _).
  set (c := collectCurrent (h_db h) vips) in *. unfold keepRetained, stays.
  assert (∀ cur, currentByKey c !! rc_key r = Some cur → (rc_key r ∈ currentValid c ↔ valid (h_db h) cur)) as Hv.
  { intros cur Hc. rewrite Hval. split; [|apply Hby in Hc; eauto].
    intros (v & Hl & Hva). apply Hby in Hl. by assert (cur = v) as -> by congruence. }
  destruct (currentByKey c !! rc_key r) as [cur|] eqn:Hc.
  - specialize (Hv cur eq_refl). rewrite orb_true_iff, negb_true_iff, bool_decide_eq_false, Hv. split.
    + intros Hk. exists cur. split; [by apply Hby|]. intros ?. by destruct Hk.
    + intros (cur' & Hl & Himp). apply Hby in Hl. assert (cur = cur') as <- by congruence.
      destruct (Validate (h_db h) (Some cur)) eqn:Hva; [left|right; by apply Himp]. unfold valid. by rewrite Hva.
  - split; [done|]. intros (cur' & Hl & _). apply Hby in Hl. congruence.
Qed.

(** The run is the loop over what the store has, or an error before it. *)
Lemma cleanup_run vips h e h' :
  cc_hasStore cc = true → cc_hasDataPlane cc = true →
  cleanupStaleLastConfigs cc vips h = (e, h') →
  ∃ h1, h_router h1 = h_router h ∧ h_dp h1 = h_dp h ∧ dbAt h1 = dbAt h ∧
  ((e ≠ None ∧ h' = h1) ∨
   ∃ rs e2, (∀ r, r ∈ rs ↔ retainedIn h (rc_source r) (rc_key r) (rc_vip r)) ∧
    (e2 = None → ∀ source k data, bucketOf source (dbAt h) !! k = Some data →
      ∃ vip, virtualIPFromRetainedConfig k data source = inr vip) ∧
    let c := collectCurrent (h_db h) vips in
    cleanupLoop cc c (foldl (protectAddress c) (currentAddresses c) rs) rs e2 h1 = (e, h')).
Proof.
  intros Hst Hdp. unfold cleanupStaleLastConfigs. rewrite Hst, Hdp. cbn [negb orb].
  unfold mbind, mret, ST_bind, ST_ret, get, onDb.
  destruct (Store.LoadAllLastConfigs (h_db h)) as [[lastC e1] b1] eqn:Hl1. cbn [h_db].
  destruct e1 as [x|].
  { intros [= <- <-]. eexists. destruct (Store.boltView_reads _ _ _ _ _ _ Hl1) as [Hd _].
    (split_and!; [..|by left]); done. }
  apply LoadAllLastConfigs_reads in Hl1 as [Hd1 ->].
  cbn beta iota match delta [h_db h_router h_dp h_env].
  destruct (Store.LoadAllPendingConfigs b1) as [[pendC e2] b2] eqn:Hl2. cbn [h_db h_router h_dp h_env].
  destruct e2 as [x|].
  { intros [= <- <-]. eexists. destruct (Store.boltView_reads _ _ _ _ _ _ Hl2) as [Hd _].
    (split_and!; [..|by left]); simpl; congruence. }
  apply LoadAllPendingConfigs_reads in Hl2 as [Hd2 ->]. rewrite Hd1 in *.
  set (h1 := MkHost (h_router h) (h_dp h) b2 (h_env h)).
  destruct (bool_decide _ && bool_decide _) eqn:Hemp.
  { apply andb_true_iff in Hemp as [Hno1%bool_decide_eq_true Hno2%bool_decide_eq_true].
    assert (∀ source k data, bucketOf source (dbAt h) !! k = Some data → False) as Hno.
    { intros [] k data; simpl; [rewrite Hno1|rewrite Hno2]; by rewrite lookup_empty. }
    intros [= <- <-]. exists h1. split_and!; [done..|]. right. exists [], None. split_and!; [| |done].
    - intros r. split; [by intros ?%not_elem_of_nil|]. intros (data & Hdat & _). by destruct (Hno _ _ _ Hdat).
    - intros _ s k data Hdat. by destruct (Hno _ _ _ Hdat). }
  pose proof (decodeRetained_spec retainedConfigLastApplied (mapRange (h_db h) (Store.last_config (dbAt h))) None) as D1.
  destruct (decodeRetained retainedConfigLastApplied _ None) as [l1 e1]. destruct D1 as [D1 D1'].
  pose proof (decodeRetained_spec retainedConfigPending (mapRange (h_db h) (Store.pending_config (dbAt h))) e1) as D2.
  destruct (decodeRetained retainedConfigPending _ e1) as [l2 e2]. destruct D2 as [D2 D2'].
  intros Hloop. exists h1. split_and!; [done..|]. right. exists (l1 ++ l2), e2. split_and!; [| |exact Hloop].
  - intros r. rewrite elem_of_app, D1, D2. unfold retainedIn. repeat setoid_rewrite mapRange_lookup.
    destruct (rc_source r); simpl; split; [intros [[_ ?]|[? _]]|left| intros [[? _]|[_ ?]]|right]; done.
  - intros He2. destruct (D2' He2) as [He1 Dp]. destruct (D1' He1) as [_ Dl].
    intros [] k data Hk; simpl in Hk; [apply Dl|apply Dp]; by apply mapRange_lookup.
Qed.

(** C10. The cleanup at the start, whatever fails on the way: it never touches the
    route of an address in use; a record leaves the store only for a VIP that is
    stale, and only after its route is withdrawn, so that a failure is repeated
    at the next start; VIPs that stay are not touched in the data plane.  When
    it reports no error, every record is of a VIP that stays, or it is gone with
    the VIP in the data plane. *)
Theorem cleanup_outcome vips h e h' :
  cc_hasStore cc = true → cc_hasDataPlane cc = true → NoDup (KeyForVIP <$> vips) →
  cleanupStaleLastConfigs cc vips h = (e, h') →
  (∀ a, inUse vips h a → announcedAt h' a = announcedAt h a) ∧
  (∀ source k, bucketOf source (dbAt h') !! k = bucketOf source (dbAt h) !! k ∨
    (bucketOf source (dbAt h') !! k = None ∧ ∃ vip, retainedIn h source k vip ∧ ¬ stays vips h k vip ∧
     (cc_hasRouter cc = true → ¬ inUse vips h (spec_Address (vip_Spec vip)) →
      announcedAt h' (spec_Address (vip_Spec vip)) = false))) ∧
  (∀ k, (∀ source vip, retainedIn h source k vip → stays vips h k vip) → appliedAt h' k = appliedAt h k) ∧
  (e = None → ∀ source k data, bucketOf source (dbAt h) !! k = Some data → ∃ vip,
    virtualIPFromRetainedConfig k data source = inr vip ∧
    (stays vips h k vip ∨ (bucketOf source (dbAt h') !! k = None ∧ appliedAt h' k = None))).
Proof.
  intros Hst Hdp Hnd Hrun.
  destruct (cleanup_run _ _ _ _ Hst Hdp Hrun) as (h1 & Er & Ed & Eb & [[He ->]|(rs & e2 & Hrs & Hdec & Hloop)]).
  { rewrite Er, Ed, Eb. split_and!; [done|by left|done|done]. }
  destruct (collectCurrent_spec (h_db h) vips Hnd) as (Hby & Hval & Haddr).
  pose proof (keepRetained_spec vips h) as Hkeep. cbn zeta in Hloop.
  set (c := collectCurrent (h_db h) vips) in *.
  assert (∀ a, a ∈ foldl (protectAddress c) (currentAddresses c) rs ↔ inUse vips h a) as Huse.
  { intros a. rewrite protect_spec, Haddr. unfold inUse. apply or_iff_compat_l, and_iff_compat_l. split.
    - intros (r & Hr & Ha & [cur Hc] & Hnv). exists (rc_source r), (rc_key r), (rc_vip r), cur.
      split_and!; [by apply Hrs|done|by apply Hby|]. intros Hv. apply Hnv, Hval. exists cur. split; [by apply Hby|done].
    - intros (s & k & vip & cur & Hr & Ha & Hl & Hnv).
      exists {| rc_key := k; rc_source := s; rc_vip := vip |}. simpl. split_and!; [by apply Hrs|done|by exists cur; apply Hby|].
      rewrite Hval. intros (cur' & Hl' & Hv). apply Hby in Hl, Hl'. congruence. }
  destruct (cleanupLoop_spec _ _ _ _ _ _ _ Hloop) as (A1 & A2 & A3 & A4 & A5).
  assert (∀ r, staleIn c rs r ↔ retainedIn h (rc_source r) (rc_key r) (rc_vip r) ∧ ¬ stays vips h (rc_key r) (rc_vip r)) as Hstale.
  { intros r. unfold staleIn. rewrite Hrs, <- (Hkeep r Hnd), not_true_iff_false. done. }
  rewrite <- Er, <- Ed, <- Eb. split_and!.
  - intros a Ha. by apply A1, Huse.
  - intros s k. destruct (A4 s k) as [?|(Hn & r & Hr & <- & <- & Hgone)]; [by left|right]. split; [done|].
    exists (rc_vip r). apply Hstale in Hr as [Hr Hns]. split_and!; [done|done|].
    intros Hrt Hnu. apply Hgone; [|done]. by rewrite Huse.
  - intros k Hk. apply A3. intros r Hr Heq. apply Hstale in Hr as [Hr Hns]. apply Hns.
    assert (rc_key r = k) as Hrk; [|rewrite Hrk in *; by eapply Hk].
    destruct Hr as (data & _ & Hv). by rewrite <- (virtualIPFromRetainedConfig_key _ _ _ _ Hv).
  - intros He source k data Hk. destruct (A5 He) as (He2 & _ & A6).
    destruct (Hdec He2 source k data) as [vip Hv]; [by rewrite <- Eb|]. exists vip. split; [done|].
    set (r := {| rc_key := k; rc_source := source; rc_vip := vip |}).
    destruct (keepRetained c r) eqn:Hkp; [left; by apply (Hkeep r)|right].
    destruct (A6 r) as [Hb Ha]; [split; [apply Hrs; exists data; split; [by rewrite <- Eb|done]|done]|].
    split; [exact Hb|]. by rewrite <- (virtualIPFromRetainedConfig_key _ _ _ _ Hv).
Qed.

End Properties.
End Cleanup.

(** ** Example: one VIP was deleted while the agent was down *)
Module CleanupExamples.
Import Cleanup Validation Reconciler ReconcilerSim StoreExamples NoopRouter NoopDataPlane.

#[local] Instance guts : HttpGuts :=
  {| ValidHostHeader := λ _, true; ValidHeaderFieldName := λ _, true; ValidHeaderFieldValue := λ _, true |}.
#[local] Instance dbMapOrder : MapOrder Store.DB.
Proof. refine {| mapRange := λ V _ m, map_to_list m |}. done. Defined.

Definition mk (name address : string) : VirtualIP :=
  {| vip_Namespace := "ns"; vip_Name := name; vip_UID := "u-" +:+ name; vip_Generation := 1;
     vip_DeletionTimestamp := None;
     vip_Spec := {| spec_Address := address; spec_Port := 80; spec_Protocol := ProtocolTCP;
                    spec_EncapType := EncapTypeGRE4; spec_DSCP := None;
                    spec_Backends := [{| be_Address := "10.0.0.1"; be_MonitorAddress := ""; be_Weight := 1 |}];
                    spec_HealthCheck := None |};
     vip_Status := empty_status |}.
Definition saved (vip : VirtualIP) (db : Store.DB) : Store.DB :=
  match marshal (vip_Spec vip) with inr data => (Store.SaveLastConfig (namespacedKey vip) data db).2 | inl _ => db end.

Definition allOn : CleanupConfig :=
  {| cc_hasStore := true; cc_hasDataPlane := true; cc_hasRouter := true; cc_hasRollouts := true |}.
Definition host0 : Host NoopRouter.Noop NoopDataPlane.Noop Store.DB SimEnv :=
  MkHost (NoopRouter.NoopAnnounceVIP "192.0.2.1" (NoopRouter.NoopAnnounceVIP "192.0.2.9"
            {| NoopRouter.announced := ∅; NoopRouter.clock := 0 |}).2).2
    (NoopDataPlane.NoopApplyVIP (mk "web" "192.0.2.1") []
       (NoopDataPlane.NoopApplyVIP (mk "old" "192.0.2.9") [] NoopDataPlane.NewNoop).2).2
    (saved (mk "web" "192.0.2.1") (saved (mk "old" "192.0.2.9") emptyDB))
    {| se_current := None; se_down := []; se_reports := []; se_refused := [] |}.
Definition cleanup : error * Host NoopRouter.Noop NoopDataPlane.Noop Store.DB SimEnv :=
  cleanupStaleLastConfigs allOn [mk "web" "192.0.2.1"] host0.

Lemma cleanup_outcome_witness :
  cleanup.1 = None ∧
  IsAnnounced (h_router cleanup.2) "192.0.2.1" = true ∧ IsAnnounced (h_router cleanup.2) "192.0.2.9" = false ∧
  dpApplied (h_dp cleanup.2) "ns/old" = None.
Proof.
  assert (cleanup.1 = None) as He by (vm_compute; reflexivity).
  destruct (cleanup_outcome allOn [mk "web" "192.0.2.1"] host0 cleanup.1 cleanup.2) as (Huse & _ & _ & Hdone).
  - reflexivity.
  - reflexivity.
  - apply NoDup_singleton.
  - unfold cleanup. by destruct (cleanupStaleLastConfigs _ _ _).
  - split; [exact He|]. split; [|split].
    + rewrite Huse; [vm_compute; reflexivity|]. left. exists "ns/web", (mk "web" "192.0.2.1"). split_and!.
      * split; [by apply list_elem_of_singleton|split; reflexivity].
      * vm_compute. reflexivity.
      * reflexivity.
    + vm_compute. reflexivity.
    + destruct (bucketOf retainedConfigLastApplied (Store.dbOf (h_db host0)) !! "ns/old") as [data|] eqn:Hb;
        [|vm_compute in Hb; discriminate Hb].
      destruct (Hdone He retainedConfigLastApplied "ns/old" data Hb) as (vip & _ & [(cur & (Hin & Hk & _) & _)|[_ Hn]]); [|exact Hn].
      apply list_elem_of_singleton in Hin. rewrite Hin in Hk. vm_compute in Hk. discriminate Hk.
Defined.

End CleanupExamples.
