(* ===== verification/Agent.v ===== *)
(** * The agent (cmd/arcalb-agent/main.go)

    The handler of VirtualIP events puts the components together: validation,
    the health check engine, the status updater and the reconciler manager. *)

From stdpp Require Import base tactics list gmap strings relations.
From S2P Require Import Prelude Types Store Validation Health Manager Status Watcher.

Module Agent.
Import Validation Health.

(** The engine with its store, the manager, and the API server. *)
Record AgentState (B E : Type) := MkAgent {
  ag_engine : Engine * B;
  ag_manager : Manager.Manager;
  ag_api : E;
}.
#[global] Arguments MkAgent {B E}.
#[global] Arguments ag_engine {B E}.
#[global] Arguments ag_manager {B E}.
#[global] Arguments ag_api {B E}.

Section Handler.
Context {B E : Type}.
Context `{!Store.Bolt B} `{!Codec Store.BackendHealthRecord} `{!MapOrder B} `{!HttpGuts}.
Context `{!Status.ConditionAPI} `{!Status.VIPClient E}.
Abbreviation agent := (AgentState B E).

(** The fixed parts: whether there is a status updater, and it; the attempts of
    a status update; the times a clock gives; [err.Error()]. *)
Variable hasStatusUpdater : bool.
Variable updater : Status.Updater.
Variable steps : nat.
Variable clock : nat → Z.
Variable errorText : ferr → string.

Definition onEngine {A} (m : ST (Engine * B) A) : ST agent A := λ s,
  let '(a, e) := m (ag_engine s) in (a, MkAgent e (ag_manager s) (ag_api s)).
Definition onManager (f : Manager.Manager → Manager.Manager) : ST agent unit := λ s,
  (tt, MkAgent (ag_engine s) (f (ag_manager s)) (ag_api s)).
Definition onAPI {A} (m : ST E A) : ST agent A := λ s,
  let '(a, e) := m (ag_api s) in (a, MkAgent (ag_engine s) (ag_manager s) e).

(** An error of the update is only logged. *)
Definition updateHealthCheckCondition (vip : VirtualIP) (status reason message : string) : ST agent unit :=
  if hasStatusUpdater then
    _ ← onAPI (Status.UpdateHealthCheckCondition updater steps vip
                 {| cond_Type := ConditionHealthCheckReady; cond_Status := status;
                    cond_ObservedGeneration := vip_Generation vip; cond_LastTransitionTime := None;
                    cond_Reason := reason; cond_Message := message |});
    mret tt
  else mret tt.

Definition OnVIPUpdate (vip : VirtualIP) : ST agent unit :=
  let vipKey := KeyForVIP vip in
  match ValidateDataPlane (Some vip) with
  | Some _ => mret tt
  | None =>
      match spec_HealthCheck (vip_Spec vip) with
      | Some _ =>
          e ← onEngine (UpdateVIP clock vip);
          match e with
          | Some e =>
              onEngine (StopVIP vipKey);;
              updateHealthCheckCondition vip ConditionFalse "InvalidHealthCheck" (errorText e);;
              onManager (Manager.OnVIPUpdate vip)
          | None =>
              updateHealthCheckCondition vip ConditionTrue "Configured" "Health check configured";;
              onManager (Manager.OnVIPUpdate vip)
          end
      | None =>
          onEngine (StopVIP vipKey);;
          updateHealthCheckCondition vip ConditionTrue "Disabled" "Health check disabled";;
          onManager (Manager.OnVIPUpdate vip)
      end
  end.

Definition OnVIPDelete (vip : VirtualIP) : ST agent unit :=
  onEngine (StopVIP (KeyForVIP vip));; onManager (Manager.OnVIPDelete vip).

(** ** The agent's steps: calls of the watcher, a change of health, and what the
    reconcilers do on their own. *)
Inductive background : Manager.Manager → Manager.Manager → Prop :=
  | bg_all m : background m (Manager.ReconcileAll m)
  | bg_turn id r r' acts m :
      Manager.recs m !! id = Some r → Manager.rec_state r = Manager.Running →
      Manager.turn (Manager.cancelled m) r acts r' →
      background m (foldr (λ a, Manager.record {| Manager.log_key := Manager.rec_key r; Manager.log_id := id;
                                                  Manager.log_action := a |}) (Manager.setRec id r' m) acts)
  | bg_stopped id r m :
      Manager.recs m !! id = Some r → Manager.rec_state r = Manager.Exited →
      background m (Manager.onVIPReconcilerStopped (Manager.rec_key r) id
                      (Manager.setRec id (Manager.finishRec r) m))
  | bg_handover id pending m :
      Manager.handover m !! id = Some pending → background m (Manager.finishHandover id pending m).

Definition handle (c : Watcher.call) : ST agent unit :=
  match c with Watcher.OnVIPUpdate vip => OnVIPUpdate vip | Watcher.OnVIPDelete vip => OnVIPDelete vip end.

Inductive astep : agent → agent → Prop :=
  | astep_call c s : astep s (handle c s).2
  | astep_result result s :
      astep s (let '(changes, e) := handleResult result (ag_engine s) in
               MkAgent e (foldl (λ m ch, Manager.OnHealthChange (sc_vipKey ch) m) (ag_manager s) changes) (ag_api s))
  | astep_background m' s : background (ag_manager s) m' → astep s (MkAgent (ag_engine s) m' (ag_api s)).

(** ** One event *)
Context `{!Store.BoltLaws B}.

Lemma updateHealthCheckCondition_frame vip status reason message s :
  ag_engine (updateHealthCheckCondition vip status reason message s).2 = ag_engine s ∧
  ag_manager (updateHealthCheckCondition vip status reason message s).2 = ag_manager s.
Proof.
  unfold updateHealthCheckCondition. destruct hasStatusUpdater; [|done]. unfold mbind, ST_bind, onAPI.
  by destruct (Status.UpdateHealthCheckCondition _ _ _ _ _).
Qed.

Lemma StopVIP_untracked k eng (b : B) :
  eng_vips (StopVIP k (eng, b)).2.1 = delete k (eng_vips eng) ∧ (StopVIP k (eng, b)).2.2 = b.
Proof.
  unfold StopVIP, modify. simpl. split; [|done]. destruct (eng_vips eng !! k) eqn:Hk; simpl; [done|].
  by rewrite delete_id.
Qed.

Lemma UpdateVIP_tracks vip spec eng (b : B) r eng' b' :
  spec_HealthCheck (vip_Spec vip) = Some spec → NoDup (be_Address <$> spec_Backends (vip_Spec vip)) →
  UpdateVIP clock vip (eng, b) = (r, (eng', b')) →
  (r ≠ None ∧ eng' = eng) ∨
  (r = None ∧ runtimeOk spec ∧
   (∀ k', k' ≠ KeyForVIP vip → eng_vips eng' !! k' = eng_vips eng !! k') ∧
   ∀ a, is_Some (lookupBackend (KeyForVIP vip) a eng') ↔ a ∈ be_Address <$> spec_Backends (vip_Spec vip)).
Proof.
  intros Hs Hnd Hrun.
  destruct (UpdateVIP_cases _ _ _ _ _ _ _ _ Hs Hrun) as [(? & ? & _)|(-> & _ & Hok & prober & m & _ & Hi & ->)]; [by left|].
  right. destruct (initBackends_spec _ _ _ _ _ _ _ _ _ _ Hi Hnd) as [Hin Hout]. split_and!; [done|done| |].
  - intros k' Hk. simpl. by rewrite lookup_insert_ne.
  - intros a. unfold lookupBackend. simpl. rewrite lookup_insert_eq. simpl. split.
    + intros [bhs Hb]. destruct (decide (a ∈ be_Address <$> spec_Backends (vip_Spec vip))) as [|Hn]; [done|].
      rewrite (Hout _ Hn) in Hb. by rewrite lookup_empty in Hb.
    + intros (be & -> & Hbe)%list_elem_of_fmap. destruct (Hin _ Hbe) as (now & b1 & _ & ->). eauto.
Qed.

Lemma onEngine_bind {A C} (m : ST (Engine * B) A) (f : A → ST agent C) e mg api :
  (onEngine m ≫= f) (MkAgent e mg api) = f (m e).1 (MkAgent (m e).2 mg api).
Proof. unfold mbind, ST_bind, onEngine. simpl. by destruct (m e). Qed.

(** The end of every branch: the condition, then the reconciler. *)
Lemma report_then_update vip status reason message e m api :
  let s' := ((updateHealthCheckCondition vip status reason message;; onManager (Manager.OnVIPUpdate vip))
               (MkAgent e m api)).2 in
  ag_manager s' = Manager.OnVIPUpdate vip m ∧ ag_engine s' = e.
Proof.
  unfold mbind, ST_bind.
  pose proof (updateHealthCheckCondition_frame vip status reason message (MkAgent e m api)) as [He Hm].
  destruct (updateHealthCheckCondition _ _ _ _ _) as [[] s1]. simpl in *. by rewrite Hm.
Qed.

(** The manager's part of a call. *)
Lemma OnVIPUpdate_manager vip s :
  ag_manager (OnVIPUpdate vip s).2 =
  match ValidateDataPlane (Some vip) with Some _ => ag_manager s | None => Manager.OnVIPUpdate vip (ag_manager s) end.
Proof.
  unfold OnVIPUpdate. destruct (ValidateDataPlane (Some vip)); [done|]. destruct s as [e m api].
  destruct (spec_HealthCheck (vip_Spec vip)); rewrite onEngine_bind; [|apply report_then_update].
  destruct (UpdateVIP clock vip e).1; [rewrite onEngine_bind|]; apply report_then_update.
Qed.
Lemma OnVIPDelete_manager vip s : ag_manager (OnVIPDelete vip s).2 = Manager.OnVIPDelete vip (ag_manager s).
Proof. destruct s as [e m api]. unfold OnVIPDelete. by rewrite onEngine_bind. Qed.


(** Deleting a VIP ends its health checks before the reconciler takes it
    down, and touches no other VIP of the engine. *)
Theorem OnVIPDelete_effect vip s :
  let s' := (OnVIPDelete vip s).2 in
  ag_manager s' = Manager.OnVIPDelete vip (ag_manager s) ∧
  eng_vips (ag_engine s').1 = delete (KeyForVIP vip) (eng_vips (ag_engine s).1) ∧
  ag_api s' = ag_api s.
Proof.
  destruct s as [[eng b] m api]. unfold OnVIPDelete. rewrite onEngine_bind.
  destruct (StopVIP_untracked (KeyForVIP vip) eng b) as [Hdel _]. done.
Qed.

(** ** Only valid VIPs are looked after *)

(** Every VIP the manager holds for reconciling satisfies [P]. *)
Record holds (P : VirtualIP → Prop) (m : Manager.Manager) : Prop := {
  ho_recs : ∀ id r vip, Manager.recs m !! id = Some r → Manager.rec_current r = Some vip → P vip;
  ho_pending : ∀ k vip, Manager.pendingRecreates m !! k = Some vip → P vip;
  ho_handover : ∀ id vip, Manager.handover m !! id = Some vip → P vip;
}.

Section Holds.
Context (P : VirtualIP → Prop).

Lemma holds_updRec f id m :
  (∀ r vip, Manager.rec_current (f r) = Some vip → Manager.rec_current r = Some vip ∨ P vip) →
  holds P m → holds P (Manager.updRec f id m).
Proof.
  intros Hf [Q1 Q2 Q3]. unfold Manager.updRec. destruct (Manager.recs m !! id) as [r|] eqn:Hr; [|done].
  split; simpl; [|done..]. intros id' r' vip. destruct (decide (id' = id)) as [->|].
  - rewrite lookup_insert_eq. intros [= <-] Hc. destruct (Hf _ _ Hc); [by eapply Q1|done].
  - rewrite lookup_insert_ne by done. apply Q1.
Qed.
Lemma holds_setRec id r r' m :
  Manager.recs m !! id = Some r → Manager.rec_current r' = Manager.rec_current r →
  holds P m → holds P (Manager.setRec id r' m).
Proof.
  intros Hr Hc [Q1 Q2 Q3]. split; simpl; [|done..]. intros id' r0 vip. destruct (decide (id' = id)) as [->|].
  - rewrite lookup_insert_eq. intros [= <-] Hv. eapply Q1; [done|congruence].
  - rewrite lookup_insert_ne by done. apply Q1.
Qed.
Lemma holds_register k m : holds P m → holds P (Manager.register k m).
Proof.
  intros [Q1 Q2 Q3]. split; simpl; [|done..]. intros id r vip. destruct (decide (id = Manager.next m)) as [->|].
  - rewrite lookup_insert_eq. by intros [= <-].
  - rewrite lookup_insert_ne by done. apply Q1.
Qed.
Lemma holds_setMaps m vs ds ps :
  (∀ k vip, ps !! k = Some vip → P vip) → holds P m → holds P (Manager.setMaps m vs ds ps).
Proof. intros Hps [Q1 Q2 Q3]. by split. Qed.
Lemma holds_setHandover m ho :
  (∀ id vip, ho !! id = Some vip → P vip) → holds P m → holds P (Manager.setHandover ho m).
Proof. intros Hho [Q1 Q2 Q3]. by split. Qed.

Lemma holds_update vip m : P vip → holds P m → holds P (Manager.OnVIPUpdate vip m).
Proof.
  intros Hvip Hm. unfold Manager.OnVIPUpdate.
  assert (∀ r vip', Manager.rec_current (Manager.update vip r) = Some vip' →
    Manager.rec_current r = Some vip' ∨ P vip') as Hu.
  { intros r vip'. simpl. intros [= <-]. by right. }
  destruct (Manager.deleting m !! _); [|destruct (Manager.vips m !! _)].
  - apply holds_setMaps; [|done]. intros k v [[_ <-]|[_ ?]]%lookup_insert_Some; [done|by eapply ho_pending].
  - by apply holds_updRec.
  - by apply holds_updRec, holds_register.
Qed.
Lemma holds_delete vip m : holds P m → holds P (Manager.OnVIPDelete vip m).
Proof.
  intros Hm. unfold Manager.OnVIPDelete. pose proof (ho_pending _ _ Hm) as Hp.
  destruct (Manager.vips m !! _).
  - apply holds_updRec; [intros r v; simpl; by left|]. by apply holds_setMaps.
  - destruct (Manager.pendingRecreates m !! _); [|done]. case_bool_decide; [|done].
    apply holds_setMaps; [|done]. intros k0 v0 [_ ?]%lookup_delete_Some. by eapply Hp.
Qed.
Lemma holds_trigger id m : holds P m → holds P (Manager.updRec Manager.triggerReconcile id m).
Proof. apply holds_updRec. intros r v. by left. Qed.

Lemma holds_background m m' : background m m' → holds P m → holds P m'.
Proof.
  destruct 1 as [m|id r r' acts m Hr Hrun Ht|id r m Hr Hex|id pending m Hh]; intros Hm.
  - unfold Manager.ReconcileAll. induction (snd <$> map_to_list (Manager.vips m)); simpl; [done|by apply holds_trigger].
  - assert (holds P (Manager.setRec id r' m)) as Hset.
    { eapply holds_setRec; [done| |done]. destruct Ht; simpl; try done; unfold Manager.attemptDelete; by destruct ok. }
    clear -Hset. induction acts as [|a acts IH]; simpl; [done|]. by destruct IH; split.
  - assert (holds P (Manager.setRec id (Manager.finishRec r) m)) as Hset by (by eapply holds_setRec).
    revert Hset. generalize (Manager.setRec id (Manager.finishRec r) m). clear. intros m Hm.
    pose proof (ho_pending _ _ Hm) as Hp. unfold Manager.onVIPReconcilerStopped. case_bool_decide.
    + destruct (Manager.pendingRecreates m !! Manager.rec_key r) as [pending|] eqn:Hpk; [|by apply holds_setMaps].
      apply holds_setHandover; [|apply holds_register, holds_setMaps; [|by apply holds_setMaps]].
      * intros i v [[_ <-]|[_ Hv]]%lookup_insert_Some; [by eapply Hp|by eapply (ho_handover _ _ Hm)].
      * simpl. intros k v [_ ?]%lookup_delete_Some. by eapply Hp.
    + destruct (Manager.vips m !! Manager.rec_key r); [|done]. case_bool_decide; [by apply holds_setMaps|by apply holds_trigger].
  - unfold Manager.finishHandover. apply holds_updRec.
    + intros r v. simpl. intros [= <-]. right. by eapply ho_handover.
    + apply holds_setHandover; [|done]. intros i v [_ ?]%lookup_delete_Some. by eapply (ho_handover _ _ Hm).
Qed.
End Holds.

Lemma holds_astep s s' :
  astep s s' → holds (dataPlaneOk ∘ vip_Spec) (ag_manager s) → holds (dataPlaneOk ∘ vip_Spec) (ag_manager s').
Proof.
  destruct 1 as [c s|result s|m' s Hb]; intros Hm.
  - destruct c as [vip|vip]; cbn [handle].
    + pose proof (OnVIPUpdate_manager vip s) as Hu. destruct (ValidateDataPlane (Some vip)) eqn:Hval; rewrite Hu; [done|].
      apply holds_update; [|done]. by apply ValidateDataPlane_spec.
    + rewrite OnVIPDelete_manager. by apply holds_delete.
  - destruct (handleResult result (ag_engine s)) as [changes e]. simpl. revert Hm. generalize (ag_manager s).
    induction changes as [|ch changes IH]; intros m Hm; simpl; [done|]. apply IH. unfold Manager.OnHealthChange.
    destruct (Manager.vips m !! _); [by apply holds_trigger|done].
  - simpl. by eapply holds_background.
Qed.

(** C8. However events, probe results and reconciler goroutines interleave, every
    VIP a reconciler works on, or will, has a well-formed data-plane spec: an
    address and backends that parse and suit the encapsulation, ports, weights
    and DSCP in range, backends pairwise different. *)
Theorem agent_reconciles_wellformed s0 s :
  ag_manager s0 = Manager.NewManager → rtc astep s0 s →
  ∀ k vip, Manager.wanted (ag_manager s) k = Some vip → dataPlaneOk (vip_Spec vip).
Proof.
  intros Q0 Hrtc. assert (holds (dataPlaneOk ∘ vip_Spec) (ag_manager s)) as [Q1 Q2 Q3].
  { assert (holds (dataPlaneOk ∘ vip_Spec) (ag_manager s0)) as Hinit.
    { rewrite Q0. split; simpl; intros; by simplify_map_eq. }
    revert Hinit. clear Q0. induction Hrtc as [|? ? ? Hs _ IH]; [done|]. intros Hm. by eapply IH, holds_astep. }
  intros k vip. unfold Manager.wanted. destruct (Manager.vips (ag_manager s) !! k) as [id|]; [|apply Q2].
  destruct (Manager.handover (ag_manager s) !! id) as [v|] eqn:Hh; [intros [= <-]; by eapply Q3|].
  destruct (Manager.recs (ag_manager s) !! id) as [r|] eqn:Hr; simpl; [|done]. by apply (Q1 id r).
Qed.

(** An object deleted and created again while the watch was down comes as an
    update from the old to the new one.  When the new one has the generation and
    the spec of the old, the watcher takes it for a change of the status and
    calls nobody, then and at every resync; and the agent, which still has the
    old object, never writes a status again: each write is skipped as stale. *)
Theorem recreated_object_ignored old new u hostname now healthyBackends conditions condition :
  vip_Generation new = vip_Generation old → vip_Spec new = vip_Spec old → vip_UID new ≠ vip_UID old →
  Watcher.deleting new = false →
  Watcher.OnUpdate (Watcher.OVip old) (Watcher.OVip new) = [] ∧
  Watcher.OnUpdate (Watcher.OVip new) (Watcher.OVip new) = [] ∧
  Status.nextVIPStatus u hostname now old healthyBackends conditions new = None ∧
  Status.nextHealthCheckCondition u now old condition new = None.
Proof.
  intros Hg Hs Hu Hd. unfold Watcher.OnUpdate, Watcher.sameObservedSpec.
  rewrite Hd, Hg, Hs, !Z.eqb_refl, !bool_decide_eq_true_2 by done.
  unfold Status.nextVIPStatus, Status.nextHealthCheckCondition, Status.stale.
  rewrite bool_decide_eq_true_2 by done. done.
Qed.

End Handler.
End Agent.

(** ** Examples *)
Module AgentExamples.
Import Agent Validation Health StoreExamples.
#[local] Existing Instance HealthExamples.guts.
#[local] Existing Instance HealthExamples.dbMapOrder.
#[local] Existing Instance StatusExamples.conditions.

(** An API server without objects. *)
#[local] Instance noServer : Status.VIPClient unit :=
  {| Status.vipGet := λ _ _ s, (inl (ErrNotFound "virtualip"), s);
     Status.vipStatusUpdate := λ _ s, (None, s); Status.vipNow := λ s, (0%Z, s) |}.

Definition vip1 : VirtualIP := HealthExamples.vip [HealthExamples.be1; HealthExamples.be2].
Definition agent0 : AgentState Store.DB unit := MkAgent HealthExamples.eng0 Manager.NewManager tt.
Definition call1 : ST (AgentState Store.DB unit) unit :=
  handle true StatusExamples.agentA 5 HealthExamples.clock (λ _, "invalid") (Watcher.OnVIPUpdate vip1).

Lemma agent_reconciles_wellformed_witness :
  Manager.wanted (ag_manager (call1 agent0).2) "ns/a" = Some vip1 ∧ dataPlaneOk (vip_Spec vip1).
Proof.
  assert (Manager.wanted (ag_manager (call1 agent0).2) "ns/a" = Some vip1) as Hw by (vm_compute; reflexivity).
  split; [exact Hw|].
  apply (agent_reconciles_wellformed true StatusExamples.agentA 5 HealthExamples.clock (λ _, "invalid")
           agent0 (call1 agent0).2 eq_refl) with (k := "ns/a"); [|exact Hw].
  apply rtc_once, astep_call.
Defined.


Definition web (uid : string) : VirtualIP :=
  {| vip_Namespace := "ns"; vip_Name := "web"; vip_UID := uid; vip_Generation := 1; vip_DeletionTimestamp := None;
     vip_Spec := vip_Spec vip1; vip_Status := empty_status |}.
Lemma recreated_object_ignored_witness :
  Watcher.OnUpdate (Watcher.OVip (web "u1")) (Watcher.OVip (web "u2")) = [] ∧
  Status.nextVIPStatus StatusExamples.agentA "" 5 (web "u1") [] [] (web "u2") = None.
Proof.
  destruct (recreated_object_ignored (web "u1") (web "u2") StatusExamples.agentA "" 5 [] []
    (StatusExamples.serving ConditionTrue)) as (H1 & _ & H2 & _); try reflexivity; [discriminate|].
  split; [exact H1|exact H2].
Defined.

End AgentExamples.
