(* ===== verification/Operator.v ===== *)
(** * The operator (internal/operator/controller/virtualip_controller.go,
    internal/operator/webhook/virtualip_webhook.go)

    The controller keeps the finalizer, and rewrites the status from what the
    agents observed together with its own verdict on the configuration; the
    webhook refuses invalid objects. *)

From stdpp Require Import base tactics list gmap strings pretty.
From S2P Require Import Prelude Types Store Validation Health Status.

Module Operator.
Import Validation Status.

Definition finalizerName : string := "arca.io/virtualip-protection".
Definition ConditionReady : string := "Ready".

(** An object with its finalizers. *)
Record Object := { ob_vip : VirtualIP; ob_finalizers : list string }.
Record VirtualIPReconciler := { AgentStatusTTL : Z; AgentStatusRequeueAfter : Z }.
(** [ctrl.Result]: only [RequeueAfter] is used. *)
Definition Result : Type := Z.

(** [controllerutil]'s functions on finalizers, and what they do. *)
Class Finalizers := {
  ContainsFinalizer : Object → string → bool;
  AddFinalizer : Object → string → Object;
  RemoveFinalizer : Object → string → Object;
}.
Class FinalizerLaws `{Finalizers} : Prop := {
  contains_spec : ∀ o f, ContainsFinalizer o f = bool_decide (f ∈ ob_finalizers o);
  add_spec : ∀ o f, f ∉ ob_finalizers o →
    ob_vip (AddFinalizer o f) = ob_vip o ∧ ob_finalizers (AddFinalizer o f) = ob_finalizers o ++ [f];
  remove_spec : ∀ o f, ob_vip (RemoveFinalizer o f) = ob_vip o ∧
    ob_finalizers (RemoveFinalizer o f) = filter (λ g, g ≠ f) (ob_finalizers o);
}.

(** The API server and the clock. *)
Class OperatorClient (E : Type) := {
  opGet : string → string → ST E (err + Object);
  opUpdate : Object → ST E error;
  opStatusUpdate : Object → ST E error;
  opNow : ST E Z;
}.

Section Operations.
Context {E : Type} `{!OperatorClient E} `{!Finalizers} `{!ConditionAPI} `{!HttpGuts} `{!MapOrder E}.
Variable r : VirtualIPReconciler.
(** [err.Error()] of a validation error. *)
Variable errorText : ferr → string.

Definition effectiveAgentStatusTTL : Z :=
  if (0 <? AgentStatusTTL r)%Z then AgentStatusTTL r else DefaultAgentStatusTTL.
Definition effectiveAgentStatusRequeueAfter : Z :=
  if (0 <? AgentStatusRequeueAfter r)%Z then AgentStatusRequeueAfter r
  else
    let ttl := effectiveAgentStatusTTL in
    if (ttl <=? 2 * Second)%Z then ttl else Z.quot ttl 2.
Definition shouldRequeueAgentStatusPrune (vip : VirtualIP) : bool :=
  (st_ObservedGeneration (vip_Status vip) =? vip_Generation vip)%Z &&
  (0 <? length (st_AgentStatuses (vip_Status vip)))%nat.

(** The status before the operator's own condition. *)
Definition carriedStatus (now : Z) (vip : VirtualIP) : VirtualIPStatus :=
  let status := vip_Status vip in
  let newStatus :=
    {| st_ObservedGeneration := st_ObservedGeneration status;
       st_HealthyBackends := st_HealthyBackends status;
       st_TotalBackends := Z.of_nat (length (spec_Backends (vip_Spec vip)));
       st_Backends := st_Backends status; st_AgentStatuses := st_AgentStatuses status;
       st_Conditions := st_Conditions status |} in
  SanitizeVirtualIPStatus
    (if (st_ObservedGeneration newStatus =? vip_Generation vip)%Z
     then vip_Status (RefreshAggregateStatus now (setStatus vip newStatus) (vip_Generation vip) now
                        effectiveAgentStatusTTL)
     else newStatus).

Definition readyCondition (e : E) (vip : VirtualIP) (totalBackends : Z) : Condition :=
  let mk status reason message :=
    {| cond_Type := ConditionReady; cond_Status := status; cond_ObservedGeneration := vip_Generation vip;
       cond_LastTransitionTime := None; cond_Reason := reason; cond_Message := message |} in
  match ValidateSpec e (vip_Spec vip) with
  | Some err => mk ConditionFalse "InvalidSpec" (errorText err)
  | None =>
      if (totalBackends =? 0)%Z then mk ConditionFalse "NoBackends" "No backends configured"
      else mk ConditionTrue "Configured" (pretty totalBackends +:+ " backends configured")
  end.

Definition withConditions (status : VirtualIPStatus) (cs : list Condition) : VirtualIPStatus :=
  {| st_ObservedGeneration := st_ObservedGeneration status;
     st_HealthyBackends := st_HealthyBackends status; st_TotalBackends := st_TotalBackends status;
     st_Backends := st_Backends status; st_AgentStatuses := st_AgentStatuses status; st_Conditions := cs |}.

(** The status [updateStatus] arrives at. *)
Definition nextStatus (e : E) (now : Z) (vip : VirtualIP) : VirtualIPStatus :=
  let newStatus := carriedStatus now vip in
  withConditions newStatus
    (SetStatusCondition now (st_Conditions newStatus) (readyCondition e vip (st_TotalBackends newStatus))).

(** [newStatus.Conditions] is the slice of [vip.Status.Conditions], unless the
    aggregate was refreshed, which copies it; and [meta.SetStatusCondition] writes
    to a condition it finds in place.  So the status the new one is compared with
    already has the new Ready condition where it had one. *)
Definition sharedConditions (now : Z) (vip : VirtualIP) (ready : Condition) : list Condition :=
  let conditions := st_Conditions (vip_Status vip) in
  if (st_ObservedGeneration (vip_Status vip) =? vip_Generation vip)%Z then conditions
  else
    match FindStatusCondition conditions (cond_Type ready) with
    | Some _ => SetStatusCondition now conditions ready
    | None => conditions
    end.

(** The status is written only when it is another one; the object in memory then
    has it. *)
Definition updateStatus (o : Object) : ST E (Object * error) :=
  now ← opNow;
  e ← get;
  let vip := ob_vip o in
  let status := nextStatus e now vip in
  let ready := readyCondition e vip (st_TotalBackends status) in
  let vip := setStatus vip (withConditions (vip_Status vip) (sharedConditions now vip ready)) in
  let o := {| ob_vip := vip; ob_finalizers := ob_finalizers o |} in
  if bool_decide (vip_Status vip = status) then mret (o, None)
  else
    let o := {| ob_vip := setStatus vip status; ob_finalizers := ob_finalizers o |} in
    x ← opStatusUpdate o;
    mret (o, errorf "failed to update status: " <$> x).

Definition Reconcile (namespace name : string) : ST E (Result * error) :=
  got ← opGet namespace name;
  match got with
  | inl (ErrNotFound _) => mret (0%Z, None)
  | inl e => mret (0%Z, Some (errorf "failed to get VirtualIP: " e))
  | inr o =>
      if bool_decide (is_Some (vip_DeletionTimestamp (ob_vip o))) then
        if ContainsFinalizer o finalizerName then
          x ← opUpdate (RemoveFinalizer o finalizerName);
          mret (0%Z, errorf "failed to remove finalizer: " <$> x)
        else mret (0%Z, None)
      else if negb (ContainsFinalizer o finalizerName) then
        x ← opUpdate (AddFinalizer o finalizerName);
        match x with
        | Some x => mret (0%Z, Some (errorf "failed to add finalizer: " x))
        | None => mret (1%Z, None)
        end
      else
        '(o', x) ← updateStatus o;
        match x with
        | Some x => mret (0%Z, Some x)
        | None =>
            mret (if shouldRequeueAgentStatusPrune (ob_vip o') then effectiveAgentStatusRequeueAfter else 0%Z, None)
        end
  end.

(** ** The webhook *)
Definition validateVirtualIP (e : E) (vip : VirtualIP) : option ferr := Validate e (Some vip).
Definition ValidateCreate (e : E) (vip : VirtualIP) : option ferr := validateVirtualIP e vip.
Definition ValidateUpdate (e : E) (_ newVIP : VirtualIP) : option ferr := validateVirtualIP e newVIP.
Definition ValidateDelete (_ : VirtualIP) : option ferr := None.

End Operations.
(** ** Results *)
Section Results.
Context {E : Type} `{!OperatorClient E} `{!Finalizers} `{!ConditionAPI} `{!ConditionLaws} `{!HttpGuts} `{!MapOrder E}.
Variable r : VirtualIPReconciler.
Variable errorText : ferr → string.
Implicit Types e : E.

(** The parts of the refreshed status. *)
Lemma Refresh_status clock vip generation now ttl :
  ∃ fresh expired vip0,
    st_Conditions (vip_Status (RefreshAggregateStatus clock vip generation now ttl)) =
      aggregateConditions clock vip0 fresh expired ∧ st_Conditions (vip_Status vip0) = st_Conditions (vip_Status vip) ∧
    st_ObservedGeneration (vip_Status (RefreshAggregateStatus clock vip generation now ttl)) = generation ∧
    st_TotalBackends (vip_Status (RefreshAggregateStatus clock vip generation now ttl)) =
      Z.of_nat (length (spec_Backends (vip_Spec vip))).
Proof.
  unfold RefreshAggregateStatus, applyAggregateStatus. destruct (splitAgentStatuses _ _ _ _ _) as [f x].
  destruct (aggregateHealthyBackends _ _).
  by exists f, x, (setStatus vip (withAgentStatuses (vip_Status vip) (SanitizeAgentStatuses (f ++ x)))).
Qed.

Lemma carriedStatus_generation now vip :
  st_ObservedGeneration (carriedStatus r now vip) = st_ObservedGeneration (vip_Status vip) ∧
  st_TotalBackends (carriedStatus r now vip) = Z.of_nat (length (spec_Backends (vip_Spec vip))).
Proof.
  unfold carriedStatus. simpl. destruct (Z.eqb_spec (st_ObservedGeneration (vip_Status vip)) (vip_Generation vip)) as [Hg|]; [|done].
  match goal with |- context [RefreshAggregateStatus ?c ?v ?g ?n ?t] =>
    destruct (Refresh_status c v g n t) as (f & x & v0 & _ & _ & Ho & Ht) end.
  by rewrite Ho, Ht, Hg.
Qed.

Lemma readyCondition_true e vip n :
  cond_Type (readyCondition errorText e vip n) = ConditionReady ∧
  (cond_Status (readyCondition errorText e vip n) = ConditionTrue ↔ ValidateSpec e (vip_Spec vip) = None ∧ n ≠ 0%Z).
Proof.
  unfold readyCondition. destruct (ValidateSpec e (vip_Spec vip)); [by split; [|split; [|intros [? _]]]|].
  destruct (Z.eqb_spec n 0) as [->|]; (split; [done|]); simpl; split; try done; by intros [_ ?].
Qed.

(** What the operator writes: Ready exactly when the spec is valid and has
    backends; it never claims that a generation was observed which no agent
    observed; of the agents' observations it drops only those of another
    generation, or older than seven days, once one of this generation was
    aggregated, and otherwise none. *)
Theorem nextStatus_effect e now vip :
  now ≠ zeroTime → length (st_AgentStatuses (vip_Status vip)) ≤ 256 →
  let status := nextStatus r errorText e now vip in
  (conditionIs (st_Conditions status) ConditionReady ConditionTrue ↔
    ValidateSpec e (vip_Spec vip) = None ∧ spec_Backends (vip_Spec vip) ≠ []) ∧
  st_ObservedGeneration status = st_ObservedGeneration (vip_Status vip) ∧
  (∀ s, s ∈ st_AgentStatuses status ↔ ∃ s0, s0 ∈ st_AgentStatuses (vip_Status vip) ∧ s = sanitizeAgentStatus s0 ∧
    (st_ObservedGeneration (vip_Status vip) = vip_Generation vip → retained (vip_Generation vip) now s0)).
Proof.
  intros Hnow Hlen. destruct (carriedStatus_generation now vip) as [Hgen Htot]. cbn zeta.
  unfold nextStatus, withConditions. cbn [st_Conditions st_ObservedGeneration st_AgentStatuses]. split_and!.
  - rewrite Htot. destruct (readyCondition_true e vip (Z.of_nat (length (spec_Backends (vip_Spec vip))))) as [Ht Hs].
    rewrite <- Ht at 1. rewrite conditionIs_set_eq, Hs. apply and_iff_compat_l.
    destruct (spec_Backends (vip_Spec vip)); simpl; split; congruence || lia.
  - done.
  - unfold carriedStatus. simpl.
    destruct (Z.eqb_spec (st_ObservedGeneration (vip_Status vip)) (vip_Generation vip)) as [Hg|Hg].
    + match goal with |- context [RefreshAggregateStatus ?c ?v ?g ?n ?t] =>
        destruct (Refresh_members c v g n t Hnow Hlen) as (Hid & Hmem & _) end.
      intros s. rewrite Hid, Hmem. simpl. naive_solver.
    + intros s. simpl. unfold SanitizeAgentStatuses.
      destruct (capAgentStatuses_spec (sanitizeAgentStatus <$> st_AgentStatuses (vip_Status vip))) as (_ & d & _ & _ & Hid).
      destruct Hid as [_ Hid]; [by rewrite length_fmap|]. rewrite Hid, list_elem_of_fmap. naive_solver.
Qed.

(** A refreshed status has the transition of its Serving condition at the time of
    the refresh. *)
Lemma nextStatus_stamped e now vip :
  st_ObservedGeneration (vip_Status vip) = vip_Generation vip →
  ∃ c, FindStatusCondition (st_Conditions (nextStatus r errorText e now vip)) ConditionServing = Some c ∧
       cond_LastTransitionTime c = Some now.
Proof.
  intros Hg. unfold nextStatus, carriedStatus. simpl. rewrite Hg, Z.eqb_refl.
  match goal with |- context [RefreshAggregateStatus ?c ?v ?g ?n ?t] =>
    destruct (Refresh_status c v g n t) as (f & x & v0 & Hc & _ & _ & _) end.
  simpl. rewrite Hc. destruct (aggregate_serving_stamped now v0 f x) as (c & Hf & Hl). exists c. split; [|done].
  rewrite find_set_ne; [done|].
  match goal with |- context [readyCondition ?t ?a ?b ?n] => by rewrite (proj1 (readyCondition_true a b n)) end.
Qed.

(** A reconcile of a live object with the finalizer, down to its status. *)
Lemma Reconcile_live namespace name o e0 e1 :
  opGet namespace name e0 = (inr o, e1) → vip_DeletionTimestamp (ob_vip o) = None →
  ContainsFinalizer o finalizerName = true →
  (Reconcile r errorText namespace name e0).2 = (updateStatus r errorText o e1).2.
Proof.
  intros Hget Hdel Hfin. unfold Reconcile. unfold_monad. rewrite Hget, Hfin. cbn [negb].
  rewrite bool_decide_eq_false_2 by (rewrite Hdel; by intros [? ?]).
  by destruct (updateStatus r errorText o e1) as [[o' [x|]] e2].
Qed.

(** Once the agents have observed the current generation, every reconcile writes
    the status, although nothing changed: the aggregate conditions are computed
    without their old transition times, so the transition of Serving is set to the
    time of the reconcile, and the comparison that is to skip the write fails. *)
Theorem operator_rewrites_status namespace name o e0 e1 e2 now :
  opGet namespace name e0 = (inr o, e1) → opNow e1 = (now, e2) →
  vip_DeletionTimestamp (ob_vip o) = None → ContainsFinalizer o finalizerName = true →
  st_ObservedGeneration (vip_Status (ob_vip o)) = vip_Generation (ob_vip o) →
  (∀ c, FindStatusCondition (st_Conditions (vip_Status (ob_vip o))) ConditionServing = Some c →
        cond_LastTransitionTime c ≠ Some now) →
  ∃ o' x c, opStatusUpdate o' e2 = (x, (Reconcile r errorText namespace name e0).2) ∧
    FindStatusCondition (st_Conditions (vip_Status (ob_vip o'))) ConditionServing = Some c ∧
    cond_LastTransitionTime c = Some now.
Proof.
  intros Hget Hclock Hdel Hfin Hg Hold. rewrite (Reconcile_live _ _ _ _ _ Hget Hdel Hfin).
  destruct (nextStatus_stamped e2 now (ob_vip o) Hg) as (c & Hc & Hstamp).
  unfold updateStatus, sharedConditions. unfold_monad. rewrite Hclock, Hg, Z.eqb_refl.
  rewrite bool_decide_eq_false_2.
  2: { intros Heq. apply (Hold c); [|done]. rewrite <- Hc, <- Heq. done. }
  set (o' := {| ob_vip := _; ob_finalizers := _ |}).
  destruct (opStatusUpdate o' e2) as [x e3] eqn:Hup. exists o', x, c. split_and!; [|exact Hc|done].
  by destruct x.
Qed.

(** While the agents have not observed the current generation, a Ready condition
    that is there is never corrected: whatever the spec has become, a reconcile that
    finds the counts up to date writes nothing, because the new condition is set in
    the slice it is then compared with. *)
Theorem unobserved_ready_kept namespace name o e0 e1 e2 now c :
  opGet namespace name e0 = (inr o, e1) → opNow e1 = (now, e2) →
  vip_DeletionTimestamp (ob_vip o) = None → ContainsFinalizer o finalizerName = true →
  st_ObservedGeneration (vip_Status (ob_vip o)) ≠ vip_Generation (ob_vip o) →
  FindStatusCondition (st_Conditions (vip_Status (ob_vip o))) ConditionReady = Some c →
  st_TotalBackends (vip_Status (ob_vip o)) = Z.of_nat (length (spec_Backends (vip_Spec (ob_vip o)))) →
  SanitizeVirtualIPStatus (vip_Status (ob_vip o)) = vip_Status (ob_vip o) →
  (Reconcile r errorText namespace name e0).2 = e2.
Proof.
  intros Hget Hclock Hdel Hfin Hg Hready Htot Hsan. rewrite (Reconcile_live _ _ _ _ _ Hget Hdel Hfin).
  apply Z.eqb_neq in Hg.
  assert (carriedStatus r now (ob_vip o) = vip_Status (ob_vip o)) as Hcar.
  { unfold carriedStatus. cbn [st_ObservedGeneration]. rewrite Hg, <- Htot, <- Hsan at 1.
    by destruct (vip_Status (ob_vip o)). }
  unfold updateStatus, sharedConditions. unfold_monad. rewrite Hclock, Hg.
  rewrite (proj1 (readyCondition_true _ _ _)), Hready.
  rewrite bool_decide_eq_true_2; [done|]. unfold nextStatus. by rewrite !Hcar.
Qed.

(** What a reconcile writes: for an object being deleted at most the object
    without its finalizer; for a live one without it the object with it; and a
    status only for a live object that has it.  No write changes the spec, an
    update of the object leaves the status, an update of the status leaves the
    finalizers.  A status that is not written differs at most in its conditions,
    and once the generation is observed not at all. *)
Theorem Reconcile_writes `{!FinalizerLaws} namespace name o e0 e1 :
  opGet namespace name e0 = (inr o, e1) →
  let e' := (Reconcile r errorText namespace name e0).2 in
  let live := vip_DeletionTimestamp (ob_vip o) = None in
  (e' = e1 ∧ ¬ live ∧ finalizerName ∉ ob_finalizers o) ∨
  (∃ o' x, opUpdate o' e1 = (x, e') ∧ ob_vip o' = ob_vip o ∧
    (live ↔ finalizerName ∈ ob_finalizers o') ∧ (live ↔ finalizerName ∉ ob_finalizers o) ∧
    ∀ f, f ≠ finalizerName → f ∈ ob_finalizers o' ↔ f ∈ ob_finalizers o) ∨
  (live ∧ finalizerName ∈ ob_finalizers o ∧ ∃ now e2, opNow e1 = (now, e2) ∧
    let status := nextStatus r errorText e2 now (ob_vip o) in
    (e' = e2 ∧ status = withConditions (vip_Status (ob_vip o)) (st_Conditions status) ∧
      (st_ObservedGeneration (vip_Status (ob_vip o)) = vip_Generation (ob_vip o) → status = vip_Status (ob_vip o))) ∨
    ∃ o' x, opStatusUpdate o' e2 = (x, e') ∧ ob_vip o' = setStatus (ob_vip o) status ∧
      ob_finalizers o' = ob_finalizers o).
Proof.
  intros Hget e' live. unfold e', Reconcile. unfold_monad. rewrite Hget, !contains_spec.
  case_bool_decide as Hdel.
  - assert (¬ live) as Hdead by (unfold live; by destruct Hdel as [? ->]).
    case_bool_decide as Hfin; [right; left|by left].
    destruct (remove_spec o finalizerName) as [Hv Hf].
    destruct (opUpdate (RemoveFinalizer o finalizerName) e1) as [x e2] eqn:Hup.
    exists (RemoveFinalizer o finalizerName), x. split_and!; [done|done|..]; rewrite ?Hf.
    + split; [done|]. by intros [? _]%list_elem_of_filter.
    + by split.
    + intros f Hne. rewrite list_elem_of_filter. tauto.
  - assert (live) as Hlive by (by apply eq_None_not_Some). case_bool_decide as Hfin; cbn [negb].
    + right. right. split_and!; [done|done|]. unfold updateStatus. unfold_monad.
      destruct (opNow e1) as [now e2]. exists now, e2. split; [done|]. case_bool_decide as Heq.
      { left. split; [done|]. simpl in Heq. rewrite <- Heq. split; [by destruct (vip_Status (ob_vip o))|].
        intros Hg. unfold sharedConditions. rewrite Hg, Z.eqb_refl. by destruct (vip_Status (ob_vip o)). }
      right. set (o' := {| ob_vip := _; ob_finalizers := _ |}).
      destruct (opStatusUpdate o' e2) as [x e3] eqn:Hup. exists o', x. split_and!; [|done|done]. by destruct x.
    + right. left. destruct (add_spec o finalizerName Hfin) as [Hv Hf].
      destruct (opUpdate (AddFinalizer o finalizerName) e1) as [x e2] eqn:Hup.
      exists (AddFinalizer o finalizerName), x. rewrite Hup. split_and!; [by destruct x|done|..]; rewrite ?Hf.
      * split; [|done]. intros _. apply elem_of_app. right. by left.
      * done.
      * intros f Hne. rewrite elem_of_app, list_elem_of_singleton. tauto.
Qed.

(** ** What is admitted is accepted *)
Lemma prober_exists spec : probeOk spec → ∃ prober, Health.newProberFromSpec spec = inr prober.
Proof.
  unfold Health.newProberFromSpec, probeOk. rewrite !elem_of_cons, !elem_of_nil.
  intros [([-> |[-> |[]]] & h & -> & _)|[([-> |[-> |[]]] & t & -> & _)| ->]]; eexists; vm_compute; reflexivity.
Qed.


End Results.
End Operator.

(** ** Examples: a server with one object *)
Module OperatorExamples.
Import Operator Validation Status StoreExamples.
#[local] Existing Instance HealthExamples.guts.
#[local] Existing Instance HealthExamples.dbMapOrder.
#[local] Existing Instance StatusExamples.conditions.
#[local] Existing Instance StatusExamples.conditions_laws.

Record Server := { sv_object : option Object; sv_clock : Z }.
#[local] Instance server : OperatorClient Server :=
  {| opGet := λ _ _ s, (match sv_object s with Some o => inr o | None => inl (ErrNotFound "virtualip") end, s);
     opUpdate := λ o s, (None, {| sv_object := Some o; sv_clock := sv_clock s |});
     opStatusUpdate := λ o s, (None, {| sv_object := Some o; sv_clock := sv_clock s |});
     opNow := λ s, (sv_clock s, {| sv_object := sv_object s; sv_clock := sv_clock s + Second |}) |}.
#[local] Instance serverMapOrder : MapOrder Server.
Proof. refine {| mapRange := λ V _ m, map_to_list m |}. done. Defined.
#[local] Instance finalizers : Finalizers :=
  {| ContainsFinalizer := λ o f, bool_decide (f ∈ ob_finalizers o);
     AddFinalizer := λ o f, {| ob_vip := ob_vip o; ob_finalizers := ob_finalizers o ++ [f] |};
     RemoveFinalizer := λ o f, {| ob_vip := ob_vip o; ob_finalizers := filter (λ g, g ≠ f) (ob_finalizers o) |} |}.
#[local] Instance finalizer_laws : FinalizerLaws.
Proof. by split. Qed.

Definition rec0 : VirtualIPReconciler := {| AgentStatusTTL := 0; AgentStatusRequeueAfter := 0 |}.
Definition text (_ : ferr) : string := "invalid".
(** A VIP one agent has observed. *)
Definition observed : VirtualIP :=
  setStatus StatusExamples.vip0
    {| st_ObservedGeneration := 3; st_HealthyBackends := 1; st_TotalBackends := 3; st_Backends := [];
       st_AgentStatuses := [StatusExamples.obsA]; st_Conditions := [] |}.
Definition server0 : Server := {| sv_object := None; sv_clock := StatusExamples.now0 |}.
Definition now1 : Z := StatusExamples.now0.
Definition now2 : Z := (StatusExamples.now0 + Second)%Z.

Lemma nextStatus_effect_witness :
  conditionIs (st_Conditions (nextStatus rec0 text server0 now1 observed)) ConditionReady ConditionTrue.
Proof.
  destruct (nextStatus_effect rec0 text server0 now1 observed) as [Hready _].
  - discriminate.
  - simpl. lia.
  - apply Hready. split; [vm_compute; reflexivity|discriminate].
Defined.

Definition written : Object :=
  {| ob_vip := setStatus observed (nextStatus rec0 text server0 now1 observed); ob_finalizers := [finalizerName] |}.
Definition server1 : Server := {| sv_object := Some written; sv_clock := now2 |}.

Lemma operator_rewrites_status_witness :
  ∃ o c, sv_object (Reconcile rec0 text "ns" "web" server1).2 = Some o ∧
    FindStatusCondition (st_Conditions (vip_Status (ob_vip o))) ConditionServing = Some c ∧
    cond_LastTransitionTime c = Some now2.
Proof.
  destruct (operator_rewrites_status rec0 text "ns" "web" written server1 server1
    {| sv_object := Some written; sv_clock := now2 + Second |} now2) as (o' & x & c & Hup & Hc & Ht).
  - reflexivity.
  - reflexivity.
  - reflexivity.
  - reflexivity.
  - reflexivity.
  - intros c Hc. assert (cond_LastTransitionTime <$> Some c = Some (Some now1)) as Hs
      by (rewrite <- Hc; vm_compute; reflexivity). injection Hs as ->. discriminate.
  - exists o', c. split; [|exact (conj Hc Ht)].
    change (sv_object (Reconcile rec0 text "ns" "web" server1).2) with
      (sv_object (x, (Reconcile rec0 text "ns" "web" server1).2).2). rewrite <- Hup. reflexivity.
Defined.

(** A VIP the agents know in generation 2, whose address was edited to nonsense. *)
Definition broken : Object :=
  {| ob_vip :=
       let spec := vip_Spec StatusExamples.vip0 in
       {| vip_Namespace := "ns"; vip_Name := "web"; vip_UID := "1"; vip_Generation := 3;
          vip_DeletionTimestamp := None;
          vip_Spec := {| spec_Address := "not an address"; spec_Port := spec_Port spec;
                         spec_Protocol := spec_Protocol spec; spec_EncapType := spec_EncapType spec;
                         spec_DSCP := spec_DSCP spec; spec_Backends := spec_Backends spec;
                         spec_HealthCheck := spec_HealthCheck spec |};
          vip_Status :=
            {| st_ObservedGeneration := 2; st_HealthyBackends := 1; st_TotalBackends := 3; st_Backends := [];
               st_AgentStatuses := [];
               st_Conditions := [{| cond_Type := ConditionReady; cond_Status := ConditionTrue;
                                    cond_ObservedGeneration := 2; cond_LastTransitionTime := Some now1;
                                    cond_Reason := "Configured"; cond_Message := "3 backends configured" |}] |} |};
     ob_finalizers := [finalizerName] |}.

(** The invalid spec stays Ready on the server. *)
Lemma unobserved_ready_kept_witness :
  ValidateSpec server0 (vip_Spec (ob_vip broken)) ≠ None ∧
  sv_object (Reconcile rec0 text "ns" "web" {| sv_object := Some broken; sv_clock := now1 |}).2 = Some broken.
Proof.
  split; [vm_compute; discriminate|].
  rewrite (unobserved_ready_kept rec0 text "ns" "web" broken {| sv_object := Some broken; sv_clock := now1 |}
    {| sv_object := Some broken; sv_clock := now1 |} {| sv_object := Some broken; sv_clock := now1 + Second |} now1
    {| cond_Type := ConditionReady; cond_Status := ConditionTrue;
       cond_ObservedGeneration := 2; cond_LastTransitionTime := Some now1;
       cond_Reason := "Configured"; cond_Message := "3 backends configured" |});
    [reflexivity|reflexivity|reflexivity|reflexivity|reflexivity|discriminate|vm_compute; reflexivity..].
Defined.

Lemma Reconcile_writes_witness :
  let bare := {| ob_vip := observed; ob_finalizers := [] |} in
  let s := {| sv_object := Some bare; sv_clock := now1 |} in
  ∃ o', sv_object (Reconcile rec0 text "ns" "web" s).2 = Some o' ∧ finalizerName ∈ ob_finalizers o'.
Proof.
  intros bare s.
  destruct (Reconcile_writes rec0 text "ns" "web" bare s s) as [(_ & Hl & _)|[(o' & x & Hup & _ & Hfin & _)|(_ & Hfin & _)]].
  - reflexivity.
  - by destruct Hl.
  - exists o'. split; [|by apply Hfin].
    assert (sv_object (opUpdate o' s).2 = Some o') as Hs by reflexivity. by rewrite Hup in Hs.
  - by apply not_elem_of_nil in Hfin.
Defined.


End OperatorExamples.
