(* ===== verification/Frr.v ===== *)
(** * The FRR router (internal/agent/routing/frr.go)

    Routes are static null routes configured through vtysh.  The program vtysh
    is the class [VTYShell]; what FRR makes of the commands is [RoutingTable]. *)

From stdpp Require Import base tactics list gmap strings pretty.
From S2P Require Import Prelude Types Net Routing.

Module Frr.

Record FRRConfig := { VTYShPath : string; RouteTag : Z; CmdTimeout : Z }.
(** [map[string]bool]: a missing address is not announced. *)
Record FRR := { announced : gmap string bool }.

(** Running vtysh with these arguments: its output, and an error. *)
Class VTYShell (E : Type) := { runCommand : string → list string → ST E (string * error); statFile : string → E → error }.

Section Operations.
Context {E : Type} `{!VTYShell E}.

Definition NewFRR (cfg : FRRConfig) (e : E) : err + FRRConfig * FRR :=
  let cfg := {| VTYShPath := if bool_decide (VTYShPath cfg = "") then "/usr/bin/vtysh" else VTYShPath cfg;
                RouteTag := if (RouteTag cfg =? 0)%Z then 10000%Z else RouteTag cfg;
                CmdTimeout := if (CmdTimeout cfg =? 0)%Z then 10 * Second else CmdTimeout cfg |} in
  match statFile (VTYShPath cfg) e with
  | Some x => inl (ErrWrap ("vtysh not found at " +:+ VTYShPath cfg +:+ ": ") x "")
  | None => inr (cfg, {| announced := ∅ |})
  end.

Variable cfg : FRRConfig.

Definition routeCmd (ipv4Cmd ipv6Cmd addr : string) : err + string :=
  match ParseIP addr with
  | None => inl (ErrMsg ("invalid VIP address: " +:+ addr))
  | Some ip =>
      match To4 ip with
      | None => inr (ipv6Cmd +:+ " " +:+ addr +:+ "/128 Null0 tag " +:+ pretty (RouteTag cfg))
      | Some _ => inr (ipv4Cmd +:+ " " +:+ addr +:+ "/32 Null0 tag " +:+ pretty (RouteTag cfg))
      end
  end.
Definition inTerminal (cmd : err + string) : err + list string :=
  match cmd with inl e => inl e | inr c => inr ["configure terminal"; c; "end"] end.
Definition addRouteCmd (addr : string) : err + list string := inTerminal (routeCmd "ip route" "ipv6 route" addr).
Definition deleteRouteCmd (addr : string) : err + list string :=
  inTerminal (routeCmd "no ip route" "no ipv6 route" addr).

(** [-c] before every command. *)
Definition vtyshArgs (commands : list string) : list string := commands ≫= λ c, ["-c"; c].
Definition execVTYSh (commands : list string) : ST E error :=
  '(output, e) ← runCommand (VTYShPath cfg) (vtyshArgs commands);
  mret ((λ e, ErrWrap "vtysh error: " e (", output: " +:+ output)) <$> e).

Definition FRRAnnounceVIP (vipAddress : string) : ST (FRR * E) error :=
  match addRouteCmd vipAddress with
  | inl e => mret (Some e)
  | inr commands =>
      e ← on_snd (execVTYSh commands);
      match e with
      | Some e => mret (Some (errorf ("failed to announce route for " +:+ vipAddress +:+ ": ") e))
      | None => modify (λ '(f, e), ({| announced := <[vipAddress := true]> (announced f) |}, e));; mret None
      end
  end.
Definition FRRWithdrawVIP (vipAddress : string) : ST (FRR * E) error :=
  match deleteRouteCmd vipAddress with
  | inl e => mret (Some e)
  | inr commands =>
      e ← on_snd (execVTYSh commands);
      match e with
      | Some e => mret (Some (errorf ("failed to withdraw route for " +:+ vipAddress +:+ ": ") e))
      | None => modify (λ '(f, e), ({| announced := delete vipAddress (announced f) |}, e));; mret None
      end
  end.
Definition FRRIsAnnounced (s : FRR * E) (vipAddress : string) : bool := default false (announced s.1 !! vipAddress).

Definition FRR_Router : Router (FRR * E) :=
  {| AnnounceVIP := FRRAnnounceVIP; WithdrawVIP := FRRWithdrawVIP; IsAnnounced := FRRIsAnnounced |}.
Definition FRR_Clock `{!Clock E} : Clock (FRR * E) := {| readClock := on_snd readClock |}.

(** ** The contract of a router *)

(** What a call leaves in the map, by its result. *)
Lemma announce_map a s r s' :
  FRRAnnounceVIP a s = (r, s') →
  announced s'.1 = match r with None => <[a := true]> (announced s.1) | Some _ => announced s.1 end.
Proof.
  unfold FRRAnnounceVIP. destruct (addRouteCmd a) as [x|cmds]; unfold_monad; [by intros [= <- <-]|].
  destruct s as [f e]. destruct (execVTYSh cmds e) as [[x|] e1]; by intros [= <- <-].
Qed.
Lemma withdraw_map a s r s' :
  FRRWithdrawVIP a s = (r, s') →
  announced s'.1 = match r with None => delete a (announced s.1) | Some _ => announced s.1 end.
Proof.
  unfold FRRWithdrawVIP. destruct (deleteRouteCmd a) as [x|cmds]; unfold_monad; [by intros [= <- <-]|].
  destruct s as [f e]. destruct (execVTYSh cmds e) as [[x|] e1]; by intros [= <- <-].
Qed.

(** FRR is a router in the sense the route coordinator needs: whatever vtysh
    does, a call that succeeds sets the route of its address and no other, one
    that fails changes no tracked route, and reading the clock changes none. *)
Theorem FRR_is_router `{!Clock E} : @RouterLaws (FRR * E) FRR_Router FRR_Clock.
Proof.
  split; simpl; unfold FRRIsAnnounced.
  - intros a s s' Hs b. rewrite (announce_map _ _ _ _ Hs). case_decide as Hb; [subst; by simplify_map_eq|].
    by rewrite lookup_insert_ne.
  - intros a s s' x Hs b. by rewrite (announce_map _ _ _ _ Hs).
  - intros a s s' Hs b. rewrite (withdraw_map _ _ _ _ Hs). case_decide as Hb; [subst; by simplify_map_eq|].
    by rewrite lookup_delete_ne.
  - intros a s s' x Hs b. by rewrite (withdraw_map _ _ _ _ Hs).
  - intros [f e] s' t. unfold on_snd. destruct (readClock e). by intros [= _ <-].
Qed.

(** ** The routing table

    FRR keeps a static route per prefix, that is per address as a value, however
    it is spelled. *)
Class RoutingTable := {
  routeTo : E → list Z → bool;
  table_add : ∀ a cmds ip e out e', addRouteCmd a = inr cmds → ParseIP a = Some ip →
    runCommand (VTYShPath cfg) (vtyshArgs cmds) e = ((out, None), e') →
    ∀ ip', routeTo e' ip' = if decide (ip' = ip) then true else routeTo e ip';
  table_delete : ∀ a cmds ip e out e', deleteRouteCmd a = inr cmds → ParseIP a = Some ip →
    runCommand (VTYShPath cfg) (vtyshArgs cmds) e = ((out, None), e') →
    ∀ ip', routeTo e' ip' = if decide (ip' = ip) then false else routeTo e ip';
}.

Section Table.
Context `{!RoutingTable}.

Lemma announce_table a s s' :
  FRRAnnounceVIP a s = (None, s') →
  ∃ ip, ParseIP a = Some ip ∧ ∀ ip', routeTo s'.2 ip' = if decide (ip' = ip) then true else routeTo s.2 ip'.
Proof.
  unfold FRRAnnounceVIP. destruct (addRouteCmd a) as [x|cmds] eqn:Hc; unfold_monad; [done|].
  assert (is_Some (ParseIP a)) as [ip Hip].
  { unfold addRouteCmd, routeCmd in Hc. by destruct (ParseIP a). }
  destruct s as [f e]. unfold execVTYSh. unfold_monad.
  destruct (runCommand (VTYShPath cfg) (vtyshArgs cmds) e) as [[out [x|]] e1] eqn:Hr; [done|]. intros [= <-].
  exists ip. split; [done|]. by eapply table_add.
Qed.
Lemma withdraw_table a s s' :
  FRRWithdrawVIP a s = (None, s') →
  ∃ ip, ParseIP a = Some ip ∧ ∀ ip', routeTo s'.2 ip' = if decide (ip' = ip) then false else routeTo s.2 ip'.
Proof.
  unfold FRRWithdrawVIP. destruct (deleteRouteCmd a) as [x|cmds] eqn:Hc; unfold_monad; [done|].
  assert (is_Some (ParseIP a)) as [ip Hip].
  { unfold deleteRouteCmd, routeCmd in Hc. by destruct (ParseIP a). }
  destruct s as [f e]. unfold execVTYSh. unfold_monad.
  destruct (runCommand (VTYShPath cfg) (vtyshArgs cmds) e) as [[out [x|]] e1] eqn:Hr; [done|]. intros [= <-].
  exists ip. split; [done|]. by eapply table_delete.
Qed.

(** A run of calls that all succeed. *)
Inductive routeCall := Announce (a : string) | Withdraw (a : string).
Definition runCall (c : routeCall) : ST (FRR * E) error :=
  match c with Announce a => FRRAnnounceVIP a | Withdraw a => FRRWithdrawVIP a end.
Definition callAddress (c : routeCall) : string := match c with Announce a => a | Withdraw a => a end.
Inductive succeeds : list routeCall → FRR * E → FRR * E → Prop :=
  | succeeds_nil s : succeeds [] s s
  | succeeds_cons c cs s s1 s' : runCall c s = (None, s1) → succeeds cs s1 s' → succeeds (c :: cs) s s'.


(** Two spellings of one address are two addresses for the agent and one
    route for FRR: once both are announced, withdrawing one takes the route away
    while the other is still reported as announced. *)
Theorem frr_spellings_share_route a b ip s s1 s2 s3 :
  a ≠ b → ParseIP a = Some ip → ParseIP b = Some ip →
  FRRAnnounceVIP a s = (None, s1) → FRRAnnounceVIP b s1 = (None, s2) → FRRWithdrawVIP b s2 = (None, s3) →
  FRRIsAnnounced s3 a = true ∧ routeTo s3.2 ip = false.
Proof.
  intros Hab Ha Hb H1 H2 H3. split.
  - unfold FRRIsAnnounced. rewrite (withdraw_map _ _ _ _ H3), lookup_delete_ne by done.
    rewrite (announce_map _ _ _ _ H2), lookup_insert_ne by done. rewrite (announce_map _ _ _ _ H1). by simplify_map_eq.
  - destruct (withdraw_table _ _ _ H3) as (ip' & Hip & Ht). rewrite Ht, decide_True; [done|congruence].
Qed.

End Table.
End Operations.
End Frr.

(** ** Examples: a shell that knows the commands for a few addresses *)
Module FrrExamples.
Import Frr.

Definition cfg : FRRConfig := {| VTYShPath := "/usr/bin/vtysh"; RouteTag := 10000; CmdTimeout := 10 * Second |}.

Lemma app_tail_inj (a a' t : string) : a +:+ t = a' +:+ t → a = a'.
Proof.
  assert (∀ x y : string, String.length (x +:+ y) = String.length x + String.length y) as Hlen.
  { intros x y. unfold String.app. induction x as [|ch x IH]; simpl; [done|by rewrite IH]. }
  revert a'. induction a as [|ch a IH]; intros [|ch' a'] Heq; [done|..].
  - apply (f_equal String.length) in Heq. rewrite Hlen in Heq. simpl in Heq. unfold String.app in Heq. simpl in Heq.
    exfalso. pose proof (Hlen a' t). unfold String.app in *. simpl in *. lia.
  - apply (f_equal String.length) in Heq. pose proof (Hlen a t). unfold String.app in *. simpl in *. lia.
  - unfold String.app in *. simpl in Heq. injection Heq as -> Heq. f_equal. by apply IH.
Qed.

(** A command names its address and what to do with it. *)
Lemma routeCmd_inj c4 c6 a a' cmd :
  (c4, c6) ∈ [("ip route", "ipv6 route"); ("no ip route", "no ipv6 route")] →
  routeCmd cfg c4 c6 a = inr cmd → routeCmd cfg c4 c6 a' = inr cmd → a = a'.
Proof.
  unfold routeCmd. intros Hc.
  destruct (ParseIP a) as [ip|]; [|done]. destruct (ParseIP a') as [ip'|]; [|done].
  apply elem_of_cons in Hc as [[= -> ->]|Hc]; [|apply list_elem_of_singleton in Hc as [= -> ->]];
    destruct (To4 ip), (To4 ip'); intros [= <-] [= Heq]; try done; symmetry; eapply app_tail_inj; exact Heq.
Qed.

Definition table := gset (list Z).
Definition known : list string := ["192.0.2.1"; "2001:db8::1"; "2001:DB8::1"].
Definition argsOf (cmd : err + list string) : option (list string) :=
  match cmd with inl _ => None | inr c => Some (vtyshArgs c) end.
Definition matching (f : string → err + list string) (args : list string) : option string :=
  head (filter (λ a, argsOf (f a) = Some args) known).
#[local] Instance shell : VTYShell table :=
  {| runCommand := λ _ args t,
       match matching (addRouteCmd cfg) args, matching (deleteRouteCmd cfg) args with
       | Some a, _ => (("", None), match ParseIP a with Some ip => {[ip]} ∪ t | None => t end)
       | None, Some a => (("", None), match ParseIP a with Some ip => t ∖ {[ip]} | None => t end)
       | None, None => (("% Unknown command", Some (ErrMsg "exit status 1")), t)
       end;
     statFile := λ _ _, None |}.

Lemma matching_spec f args a : matching f args = Some a → ∃ c, f a = inr c ∧ vtyshArgs c = args.
Proof.
  unfold matching. intros Hh. apply head_Some_elem_of, list_elem_of_filter in Hh as [Hh _].
  unfold argsOf in Hh. destruct (f a) as [|c]; [done|]. exists c. by split; [|injection Hh].
Qed.
Lemma terminal_inj cmd cmd' c c' :
  inTerminal cmd = inr c → inTerminal cmd' = inr c' → vtyshArgs c = vtyshArgs c' → ∃ x, cmd = inr x ∧ cmd' = inr x.
Proof. destruct cmd, cmd'; simpl; try done. intros [= <-] [= <-] [= ->]. eauto. Qed.
Lemma add_not_delete a a' x :
  routeCmd cfg "ip route" "ipv6 route" a = inr x → routeCmd cfg "no ip route" "no ipv6 route" a' = inr x → False.
Proof. unfold routeCmd. by repeat case_match; intros [= <-] [=]. Qed.

#[local] Instance frrTable : RoutingTable cfg.
Proof.
  refine {| routeTo := λ t ip, bool_decide (ip ∈ t) |}.
  - intros a cmds ip t out t' Hc Hip Hrun ip'. simpl in Hrun.
    destruct (matching (addRouteCmd cfg) (vtyshArgs cmds)) as [a'|] eqn:Hm.
    + apply matching_spec in Hm as (c & Hc' & Hargs).
      destruct (terminal_inj _ _ _ _ Hc Hc' (eq_sym Hargs)) as (x & Hx & Hx').
      rewrite <- (routeCmd_inj "ip route" "ipv6 route" a a' x) in Hrun; [|by left|done..].
      rewrite Hip in Hrun. injection Hrun as <- <-. case_decide as Hd; [subst; apply bool_decide_eq_true; set_solver|].
      apply bool_decide_ext. set_solver.
    + destruct (matching (deleteRouteCmd cfg) (vtyshArgs cmds)) as [a'|] eqn:Hm'; [|done].
      apply matching_spec in Hm' as (c & Hc' & Hargs).
      destruct (terminal_inj _ _ _ _ Hc Hc' (eq_sym Hargs)) as (x & Hx & Hx'). by destruct (add_not_delete a a' x).
  - intros a cmds ip t out t' Hc Hip Hrun ip'. simpl in Hrun.
    destruct (matching (addRouteCmd cfg) (vtyshArgs cmds)) as [a'|] eqn:Hm.
    + apply matching_spec in Hm as (c & Hc' & Hargs).
      destruct (terminal_inj _ _ _ _ Hc Hc' (eq_sym Hargs)) as (x & Hx & Hx'). by destruct (add_not_delete a' a x).
    + destruct (matching (deleteRouteCmd cfg) (vtyshArgs cmds)) as [a'|] eqn:Hm'; [|done].
      apply matching_spec in Hm' as (c & Hc' & Hargs).
      destruct (terminal_inj _ _ _ _ Hc Hc' (eq_sym Hargs)) as (x & Hx & Hx').
      rewrite <- (routeCmd_inj "no ip route" "no ipv6 route" a a' x) in Hrun; [|right; by left|done..].
      rewrite Hip in Hrun. injection Hrun as <- <-. case_decide as Hd; [subst; apply bool_decide_eq_false; set_solver|].
      apply bool_decide_ext. set_solver.
Defined.

Definition frr0 : FRR * table := ({| announced := ∅ |}, ∅).
Definition s1 := (FRRAnnounceVIP cfg "2001:db8::1" frr0).2.
Definition s2 := (FRRAnnounceVIP cfg "192.0.2.1" s1).2.
Definition s3 := (FRRWithdrawVIP cfg "2001:db8::1" s2).2.
Definition v4 : list Z := v4Prefix ++ [192; 0; 2; 1]%Z.


Definition v6 : list Z := [32; 1; 13; 184; 0; 0; 0; 0; 0; 0; 0; 0; 0; 0; 0; 1]%Z.
Definition t2 := (FRRAnnounceVIP cfg "2001:DB8::1" s1).2.
Definition t3 := (FRRWithdrawVIP cfg "2001:DB8::1" t2).2.
Lemma frr_spellings_share_route_witness :
  FRRIsAnnounced t3 "2001:db8::1" = true ∧ routeTo cfg t3.2 v6 = false.
Proof.
  apply (frr_spellings_share_route cfg "2001:db8::1" "2001:DB8::1" v6 frr0 s1 t2 t3);
    first [discriminate|vm_compute; reflexivity].
Defined.

End FrrExamples.
