(* ===== verification/Yaml.v ===== *)
(** * Strict YAML decoding (internal/common/yamlutil/yaml.go)

    The YAML library is a parameter: the nodes its decoder yields for a file and
    its strict decoding into a struct.  [rejectDuplicateMappingKeys] is shown to
    accept exactly the trees in which no mapping repeats a key. *)

From stdpp Require Import base tactics list gmap strings pretty.
From S2P Require Import Prelude.

Module Yaml.

(** ** yaml.Node: the fields the code reads. *)
Inductive Kind := DocumentNode | SequenceNode | MappingNode | ScalarNode | AliasNode.
#[global] Instance Kind_eq_dec : EqDecision Kind.
Proof. solve_decision. Defined.
Inductive Node := mkNode (kind : Kind) (tag value : string) (line : Z) (content : list Node).
Definition NodeKind (n : Node) : Kind := let 'mkNode k _ _ _ _ := n in k.
Definition Tag (n : Node) : string := let 'mkNode _ t _ _ _ := n in t.
Definition Value (n : Node) : string := let 'mkNode _ _ v _ _ := n in v.
Definition Line (n : Node) : Z := let 'mkNode _ _ _ l _ := n in l.
Definition Content (n : Node) : list Node := let 'mkNode _ _ _ _ c := n in c.

Definition joinYAMLPath (parent key : string) : string :=
  if bool_decide (parent = "") then key else parent +:+ "." +:+ key.

Definition duplicateKey (keyPath : string) (line first : Z) : err :=
  ErrMsg ("duplicate yaml key " +:+ quoted keyPath +:+ " at line " +:+ pretty line +:+
          " (first defined at line " +:+ pretty first +:+ ")").

(** The nodes are never nil.  [seen] holds the lines of the keys met. *)
Fixpoint rejectDuplicateMappingKeys (node : Node) (path : string) : error :=
  let children := fix children (path : string) (l : list Node) : error :=
    match l with
    | [] => None
    | child :: l =>
        match rejectDuplicateMappingKeys child path with
        | Some e => Some e
        | None => children path l
        end
    end in
  let pairs := fix pairs (seen : gmap string Z) (l : list Node) : error :=
    match l with
    | keyNode :: valueNode :: l =>
        let keyPath := joinYAMLPath path (Value keyNode) in
        match seen !! Value keyNode with
        | Some first => Some (duplicateKey keyPath (Line keyNode) first)
        | None =>
            match rejectDuplicateMappingKeys valueNode keyPath with
            | Some e => Some e
            | None => pairs (<[Value keyNode := Line keyNode]> seen) l
            end
        end
    | _ => None
    end in
  match node with
  | mkNode DocumentNode _ _ _ content => children path content
  | mkNode MappingNode _ _ _ content => pairs ∅ content
  | mkNode SequenceNode _ _ _ content => children (path +:+ "[]") content
  | _ => None
  end.

(** ** DecodeStrict

    [Decode i] is what the [i]-th [Decode] of a node decoder over the file
    yields; [decodeKnown] decodes its first document into the result with
    [KnownFields(true)]. *)
Inductive decoded := Decoded (node : Node) | AtEOF | DecodeFailed (e : err).

Definition DecodeStrict {A} (Decode : nat → decoded) (decodeKnown : err + A) : err + A :=
  match Decode 0 with
  | DecodeFailed e => inl e
  | AtEOF => inl (ErrMsg "EOF")
  | Decoded node =>
      match rejectDuplicateMappingKeys node "" with
      | Some e => inl e
      | None =>
          match Decode 1 with
          | Decoded _ => inl (ErrMsg "multiple yaml documents are not supported")
          | DecodeFailed e => inl e
          | AtEOF => decodeKnown
          end
      end
  end.

(** ** Specification: the entries of a mapping, and trees without repeated keys *)
Fixpoint entries (l : list Node) : list (string * Node) :=
  match l with
  | k :: v :: l => (Value k, v) :: entries l
  | _ => []
  end.
Inductive uniqueKeys : Node → Prop :=
  | uniqueMapping t v n l :
      NoDup (entries l).*1 → Forall uniqueKeys (entries l).*2 → uniqueKeys (mkNode MappingNode t v n l)
  | uniqueList k t v n l :
      k = DocumentNode ∨ k = SequenceNode → Forall uniqueKeys l → uniqueKeys (mkNode k t v n l)
  | uniqueLeaf k t v n l : k = ScalarNode ∨ k = AliasNode → uniqueKeys (mkNode k t v n l).

(** ** Theorems *)

(** Induction with a hypothesis for every child. *)
Section Node_ind.
Variable P : Node → Prop.
Variable step : ∀ k t v n l, Forall P l → P (mkNode k t v n l).
Fixpoint Node_nested (node : Node) : P node :=
  match node with
  | mkNode k t v n l =>
      step k t v n l ((fix go l : Forall P l :=
        match l with [] => List.Forall_nil _ | c :: l => List.Forall_cons _ _ _ (Node_nested c) (go l) end) l)
  end.
End Node_ind.

(** The two loops, as functions of the recursive call. *)
Lemma children_spec (f : Node → string → error) (P : Node → Prop) path l :
  Forall (λ c, ∀ path, f c path = None ↔ P c) l →
  (fix children (path : string) (l : list Node) : error :=
     match l with
     | [] => None
     | child :: l => match f child path with Some e => Some e | None => children path l end
     end) path l = None ↔ Forall P l.
Proof.
  induction 1 as [|c l Hc Hl IH]; [done|].
  specialize (Hc path). destruct (f c path) as [e|].
  - split; [done|]. intros [HP _]%Forall_cons. by apply Hc in HP.
  - split; [intros ?%IH|intros [_ ?]%Forall_cons; by apply IH]. apply Forall_cons. split; [by apply Hc|done].
Qed.

Lemma pairs_spec (f : Node → string → error) (P : Node → Prop) path l seen :
  Forall (λ c, ∀ path, f c path = None ↔ P c) l →
  (fix pairs (seen : gmap string Z) (l : list Node) : error :=
     match l with
     | keyNode :: valueNode :: l =>
         let keyPath := joinYAMLPath path (Value keyNode) in
         match seen !! Value keyNode with
         | Some first => Some (duplicateKey keyPath (Line keyNode) first)
         | None =>
             match f valueNode keyPath with
             | Some e => Some e
             | None => pairs (<[Value keyNode := Line keyNode]> seen) l
             end
         end
     | _ => None
     end) seen l = None ↔
  (∀ k, k ∈ (entries l).*1 → seen !! k = None) ∧ NoDup (entries l).*1 ∧ Forall P (entries l).*2.
Proof.
  intros Hf. remember (length l) as n eqn:Hn. revert l seen Hf Hn.
  induction (lt_wf n) as [n _ IH]; intros [|k [|v l]] seen Hf Hn;
    [by split; [intros _; split_and!; [by intros ? ?%elem_of_nil| constructor..] |]..|].
  apply Forall_cons in Hf as [_ Hf]. apply Forall_cons in Hf as [Hv Hf].
  simpl. destruct (seen !! Value k) as [first|] eqn:Hk.
  { split; [done|]. intros [Hs _]. specialize (Hs (Value k)). set_solver. }
  specialize (IH (length l) ltac:(simpl in Hn; lia) l (<[Value k := Line k]> seen) Hf eq_refl).
  destruct (f v (joinYAMLPath path (Value k))) as [e|] eqn:Hfv.
  { split; [done|]. intros (_ & _ & [HP _]%Forall_cons). apply (Hv (joinYAMLPath path (Value k))) in HP. congruence. }
  apply Hv in Hfv. rewrite IH, NoDup_cons, Forall_cons. setoid_rewrite elem_of_cons. split.
  - intros (Hs & ? & ?). split_and!; auto.
    + intros k' [->|Hk']; [done|]. destruct (decide (k' = Value k)) as [->|]; [done|].
      specialize (Hs k' Hk'). by rewrite lookup_insert_ne in Hs.
    + intros Hin. specialize (Hs _ Hin). by rewrite lookup_insert_eq in Hs.
  - intros (Hs & (Hn1 & ?) & ? & ?). split_and!; auto.
    intros k' Hk'. destruct (decide (k' = Value k)) as [->|]; [done|]. rewrite lookup_insert_ne; auto.
Qed.

Lemma rejectDuplicate_spec node path : rejectDuplicateMappingKeys node path = None ↔ uniqueKeys node.
Proof.
  revert path. induction node as [k t v n l IH] using Node_nested. intros path. destruct k; simpl.
  - rewrite (children_spec rejectDuplicateMappingKeys uniqueKeys _ l IH).
    split; [by intros; apply uniqueList; auto|]. inversion 1; naive_solver.
  - rewrite (children_spec rejectDuplicateMappingKeys uniqueKeys _ l IH).
    split; [by intros; apply uniqueList; auto|]. inversion 1; naive_solver.
  - rewrite (pairs_spec rejectDuplicateMappingKeys uniqueKeys _ l _ IH).
    split; [intros (_ & ? & ?); by apply uniqueMapping|].
    inversion 1; subst; [|naive_solver..]. split_and!; auto.
  - split; [|done]. intros _. apply uniqueLeaf. auto.
  - split; [|done]. intros _. apply uniqueLeaf. auto.
Qed.

(** A file is decoded exactly when it holds one YAML document, no mapping in it
    repeats a key, and the library's strict decoding accepts it; the result is the
    library's. *)
Theorem DecodeStrict_exact {A} (Decode : nat → decoded) (decodeKnown : err + A) (a : A) :
  DecodeStrict Decode decodeKnown = inr a ↔
  ∃ node, Decode 0 = Decoded node ∧ uniqueKeys node ∧ Decode 1 = AtEOF ∧ decodeKnown = inr a.
Proof.
  unfold DecodeStrict. destruct (Decode 0) as [node| |e]; [|naive_solver..].
  pose proof (rejectDuplicate_spec node "") as Hr.
  destruct (rejectDuplicateMappingKeys node "") as [e|].
  { split; [done|]. intros (? & [= <-] & Hu & _). by apply Hr in Hu. }
  destruct (Decode 1); naive_solver.
Qed.

End Yaml.
