(* ===== verification/Duration.v ===== *)
(** * Go durations (time.ParseDuration)

    The parser of the standard library the configuration relies on, on bytes and
    on 64-bit words.  The fraction of a number is scaled in float64: the
    operations of the Standard Library's [SpecFloat] with 53 bits of precision. *)

From Stdlib Require Import SpecFloat.
From stdpp Require Import base tactics list gmap strings.
From S2P Require Import Prelude Types Net.

Module Duration.

(** ** float64 *)
Definition float64 : Z → spec_float := λ z, binary_normalize 53 1024 z 0 false.
Definition fmul : spec_float → spec_float → spec_float := SFmul 53 1024.
Definition fdiv : spec_float → spec_float → spec_float := SFdiv 53 1024.
#[global] Arguments float64 : simpl never.
(** The integer part, of a finite number. *)
Definition ftrunc (f : spec_float) : option Z :=
  match f with
  | S754_zero _ => Some 0%Z
  | S754_finite s m e => Some (Z.quot (cond_Zopp s (Zpos m) * 2 ^ Z.max 0 e) (2 ^ Z.max 0 (- e)))%Z
  | _ => None
  end.

(** ** The parser *)
Definition is_dot (c : Z) : bool := (c =? 46)%Z.

(** [leadingInt]: [None] on overflow. *)
Fixpoint leadingInt (x : Z) (s : list Z) : option (Z * list Z) :=
  match s with
  | c :: s' =>
      if is_digit c then
        if (2 ^ 63 / 10 <? x)%Z then None
        else
          let x := (x * 10 + (c - 48))%Z in
          if (2 ^ 63 <? x)%Z then None else leadingInt x s'
      else Some (x, s)
  | [] => Some (x, s)
  end.
(** [leadingFraction]: digits beyond the precision of a word are skipped. *)
Fixpoint leadingFraction (x : Z) (scale : spec_float) (overflow : bool) (s : list Z)
    : Z * spec_float * list Z :=
  match s with
  | c :: s' =>
      if is_digit c then
        if overflow then leadingFraction x scale overflow s'
        else if ((2 ^ 63 - 1) / 10 <? x)%Z then leadingFraction x scale true s'
        else
          let y := (x * 10 + (c - 48))%Z in
          if (2 ^ 63 <? y)%Z then leadingFraction x scale true s'
          else leadingFraction y (fmul scale (float64 10)) overflow s'
      else (x, scale, s)
  | [] => (x, scale, s)
  end.
(** The unit: everything up to the next dot or digit. *)
Fixpoint leadingUnit (s : list Z) : list Z * list Z :=
  match s with
  | c :: s' => if is_dot c || is_digit c then ([], s) else let '(u, r) := leadingUnit s' in (c :: u, r)
  | [] => ([], [])
  end.

Definition unitMap : list (list Z * Z) :=
  [(bytes_of "ns", 1); (bytes_of "us", 1000); ([194; 181; 115], 1000); ([206; 188; 115], 1000);
   (bytes_of "ms", 1000000); (bytes_of "s", Second); (bytes_of "m", Minute); (bytes_of "h", 60 * Minute)]%Z.
Definition unitOf (u : list Z) : option Z := (λ '(_, p), p.2) <$> list_find (λ p, p.1 = u) unitMap.

Inductive durError := InvalidDuration | MissingUnit | UnknownUnit (u : list Z).
Definition durMessage (orig : string) (e : durError) : err :=
  match e with
  | InvalidDuration => ErrMsg ("time: invalid duration " +:+ quoted orig)
  | MissingUnit => ErrMsg ("time: missing unit in duration " +:+ quoted orig)
  | UnknownUnit u =>
      ErrMsg ("time: unknown unit " +:+ quoted (String.string_of_list_ascii (Ascii.ascii_of_N ∘ Z.to_N <$> u)) +:+
              " in duration " +:+ quoted orig)
  end.

(** The fraction [f / scale] of a unit, in nanoseconds; the conversion to uint64
    is of a number below the unit. *)
Definition fraction (f : Z) (scale : spec_float) (unit : Z) : Z :=
  wrapU 64 (default 0%Z (ftrunc (fmul (float64 f) (fdiv (float64 unit) scale)))).

(** [(\.[0-9]* )?]: the digits, their scale, whether there are any, and the rest. *)
Definition optionalFraction (s : list Z) : Z * spec_float * bool * list Z :=
  match s with
  | c :: s' =>
      if is_dot c then
        let '(f, scale, s2) := leadingFraction 0 (float64 1) false s' in
        (f, scale, negb (length s' =? length s2), s2)
      else (0%Z, float64 1, false, s)
  | [] => (0%Z, float64 1, false, s)
  end.

(** One number and unit: its nanoseconds and the rest. *)
Definition parseTerm (s : list Z) : durError + Z * list Z :=
  match s with
  | [] => inl InvalidDuration
  | c :: _ =>
      if negb (is_dot c || is_digit c) then inl InvalidDuration
      else
        match leadingInt 0 s with
        | None => inl InvalidDuration
        | Some (v, s1) =>
            let pre := negb (length s =? length s1) in
            let '(f, scale, post, s2) := optionalFraction s1 in
            if negb pre && negb post then inl InvalidDuration
            else
              match leadingUnit s2 with
              | ([], _) => inl MissingUnit
              | (u, s3) =>
                  match unitOf u with
                  | None => inl (UnknownUnit u)
                  | Some unit =>
                      if (2 ^ 63 / unit <? v)%Z then inl InvalidDuration
                      else
                        let v := (v * unit)%Z in
                        if (0 <? f)%Z then
                          let v := wrapU 64 (v + fraction f scale unit) in
                          if (2 ^ 63 <? v)%Z then inl InvalidDuration else inr (v, s3)
                        else inr (v, s3)
                  end
              end
        end
  end.

(** The loop; a round consumes at least a byte, so the length is fuel enough. *)
Fixpoint parseTerms (fuel : nat) (d : Z) (s : list Z) : durError + Z :=
  match s, fuel with
  | [], _ => inr d
  | _, 0 => inl InvalidDuration
  | _, S fuel =>
      match parseTerm s with
      | inl e => inl e
      | inr (v, s) =>
          let d := wrapU 64 (d + v) in
          if (2 ^ 63 <? d)%Z then inl InvalidDuration else parseTerms fuel d s
      end
  end.

Definition parseUnsigned (neg : bool) (s : list Z) : durError + Z :=
  if bool_decide (s = [48%Z]) then inr 0%Z
  else if bool_decide (s = []) then inl InvalidDuration
  else
    match parseTerms (length s) 0 s with
    | inl e => inl e
    | inr d =>
        if neg then inr (wrapS 64 (- wrapS 64 d))
        else if (2 ^ 63 - 1 <? d)%Z then inl InvalidDuration
        else inr d
    end.
Definition ParseDuration (orig : string) : err + Z :=
  match
    match bytes_of orig with
    | 45 :: s => parseUnsigned true s
    | 43 :: s => parseUnsigned false s
    | s => parseUnsigned false s
    end%Z
  with
  | inl e => inl (durMessage orig e)
  | inr d => inr d
  end.

(** ** What it accepts *)
Example parse_seconds : ParseDuration "30s" = inr (30 * Second)%Z.
Proof. vm_compute. reflexivity. Qed.
Example parse_fraction : ParseDuration "-1h1.5m0.25s" = inr (- (61 * Minute + 30 * Second + 250000000))%Z.
Proof. vm_compute. reflexivity. Qed.
Example parse_no_unit : ParseDuration "30" = inl (ErrMsg ("time: missing unit in duration " +:+ quoted "30")).
Proof. vm_compute. reflexivity. Qed.

(** A round consumes input, so the fuel of the loop is enough: more does not change
    the result. *)
Lemma leadingInt_length x s v r : leadingInt x s = Some (v, r) → length r ≤ length s.
Proof.
  revert x. induction s as [|c s IH]; intros x; simpl; [by intros [= _ <-]|].
  repeat case_match; intros Heq; simplify_eq/=; [|done]. apply IH in Heq. lia.
Qed.
Lemma leadingFraction_length x sc o s f sc' r : leadingFraction x sc o s = (f, sc', r) → length r ≤ length s.
Proof.
  revert x sc o. induction s as [|c s IH]; intros x sc o; simpl; [by intros [= _ _ <-]|].
  repeat case_match; intros Heq; simplify_eq/=; try done; apply IH in Heq; lia.
Qed.
Lemma leadingUnit_length s u r : leadingUnit s = (u, r) → length s = length u + length r.
Proof.
  revert u. induction s as [|c s IH]; intros u; simpl; [by intros [= <- <-]|].
  case_match; [by intros [= <- <-]|]. destruct (leadingUnit s) as [u' r'] eqn:Hu. intros [= <- <-].
  simpl. by rewrite (IH u').
Qed.
Lemma optionalFraction_length s f sc post r : optionalFraction s = (f, sc, post, r) → length r ≤ length s.
Proof.
  destruct s as [|c s]; simpl; [by intros [= _ _ _ <-]|]. case_match; [|by intros [= _ _ _ <-]].
  destruct (leadingFraction 0 (float64 1) false s) as [[f' sc'] s2] eqn:H2. apply leadingFraction_length in H2.
  intros [= _ _ _ <-]. lia.
Qed.
Lemma parseTerm_consumes s v r : parseTerm s = inr (v, r) → length r < length s.
Proof.
  unfold parseTerm. destruct s as [|c s0]; [done|]. remember (c :: s0) as s. case_match; [done|].
  destruct (leadingInt 0 s) as [[v1 s1]|] eqn:H1; [|done]. apply leadingInt_length in H1.
  destruct (optionalFraction s1) as [[[f sc] post] s2] eqn:H2. apply optionalFraction_length in H2.
  case_match; [done|].
  destruct (leadingUnit s2) as [[|u0 u] s3] eqn:H3; [done|]. apply leadingUnit_length in H3. simpl in H3.
  repeat case_match; intros ?; simplify_eq; lia.
Qed.

Lemma parseTerms_fuel n m d s : length s ≤ n → length s ≤ m → parseTerms n d s = parseTerms m d s.
Proof.
  revert m d s. induction n as [|n IH]; intros m d [|c s] Hn Hm; simpl in Hn, Hm;
    [by destruct m|lia|by destruct m|].
  destruct m as [|m]; [lia|]. cbn [parseTerms]. destruct (parseTerm (c :: s)) as [e|[v r]] eqn:Hp; [done|].
  apply parseTerm_consumes in Hp. simpl in Hp. case_match; [done|]. apply IH; lia.
Qed.

(** The result is an int64. *)
Lemma parseTerms_range n d s d' : (0 <= d <= 2 ^ 63)%Z → parseTerms n d s = inr d' → (0 <= d' <= 2 ^ 63)%Z.
Proof.
  revert d s. induction n as [|n IH]; intros d [|c s] Hd; cbn [parseTerms]; [by intros [= <-]|done|by intros [= <-]|].
  destruct (parseTerm (c :: s)) as [e|[v r]]; [done|]. case_match eqn:Hc; [done|]. apply IH.
  apply Z.ltb_ge in Hc. pose proof (wrapU_range 64 (d + v) ltac:(lia)). lia.
Qed.
Lemma parseUnsigned_range neg s d : parseUnsigned neg s = inr d → (- 2 ^ 63 <= d < 2 ^ 63)%Z.
Proof.
  unfold parseUnsigned. repeat case_bool_decide; [by intros [= <-]|done|].
  destruct (parseTerms (length s) 0 s) as [e|d'] eqn:Ht; [done|]. apply parseTerms_range in Ht; [|lia].
  destruct neg; [intros [= <-]; by apply (wrapS_range 64)|].
  case_match eqn:Hlt; [done|]. apply Z.ltb_ge in Hlt. intros [= <-]. lia.
Qed.
Lemma ParseDuration_range s d : ParseDuration s = inr d → (- 2 ^ 63 <= d < 2 ^ 63)%Z.
Proof.
  unfold ParseDuration. repeat case_match; intros Heq; simplify_eq;
    match goal with H : _ = inr d |- _ => revert H end; repeat case_match; intros ?;
    eauto using parseUnsigned_range.
Qed.

End Duration.
