(* ===== verification/Config.v ===== *)
(** * The agent's configuration (internal/agent/config/v2_config.go,
    internal/common/models/agent_validation.go)

    The decoding of the VPP settings from YAML nodes, the environment overrides,
    the defaults and the validation, composed by [LoadV2Config].  The YAML library
    and the system calls are the class [Environment]. *)

From Stdlib Require Import SpecFloat.
From stdpp Require Import base tactics list gmap strings.
From S2P Require Import Prelude Types Net Reconciler Status Yaml Duration.

Module Config.
Import Yaml Duration.

(** ** Settings *)
Record AgentSettings := { ID : string; StorePath : string; ReconcileInterval : Z; StatusTTL : Z }.
Record KubernetesSettings := { Kubeconfig : string; Namespace : string; ResyncInterval : Z }.
Record VPPSettings := {
  v_SocketPath : option string;
  v_ConnectTimeout : option Z;
  v_ReconnectInterval : option Z;
  v_EncapType : option string;
  v_DSCP : option Z;
  v_ServiceType : option string;
  v_NewFlowsTableLength : option Z;
  v_FailOnAllBackendsDown : option bool;
  v_StateVerificationInterval : option Z;
  v_RetainedVIPTuningDriftPolicy : option string;
  v_RetainedVIPTuningDriftDrain : option Z;
  v_RollingRecreateDrain : option Z;
}.
Record VPPDataPlaneConfig := {
  SocketPath : string;
  ConnectTimeout : Z;
  ReconnectInterval : Z;
  EncapType : string;
  DSCP : Z;
  ServiceType : string;
  NewFlowsTableLength : Z;
  FailOnAllBackendsDown : bool;
  StateVerificationInterval : Z;
  RetainedVIPTuningDriftPolicy : string;
  RetainedVIPTuningDriftDrain : Z;
  RollingRecreateDrain : Z;
}.
Record DataPlaneSettings := { dp_Type : string; dp_VPP : option VPPSettings; dp_VPPConfig : VPPDataPlaneConfig }.
Record RoutingSettings := {
  rt_Enabled : bool; rt_Type : string; rt_VTYShPath : string; rt_RouteTag : Z; rt_CmdTimeout : Z }.
Record RolloutSettings := { ro_Enabled : bool; ro_LeaseNamespace : string; ro_LeaseDuration : Z; ro_RetryInterval : Z }.
Record HCSettings := { hs_WorkerCount : Z; hs_MaxConcurrentChecks : Z; hs_DefaultTimeout : Z }.
Record MetricsSettings := { ms_Enabled : bool; ms_Address : string; ms_Path : string }.
Record TelemetrySettings := { OTLPEndpoint : string; OTLPInsecure : bool }.
Record LogSettings := { lg_Level : string; lg_Format : string }.
Record V2Config := {
  Agent : AgentSettings;
  Kubernetes : KubernetesSettings;
  DataPlane : DataPlaneSettings;
  Routing : RoutingSettings;
  Rollout : RolloutSettings;
  HealthCheck : HCSettings;
  Metrics : MetricsSettings;
  Telemetry : TelemetrySettings;
  Log : LogSettings;
}.

(** [if bad { return fmt.Errorf(msg) }] *)
Definition check {A} (bad : bool) (msg : string) (k : err + A) : err + A := if bad then inl (ErrMsg msg) else k.
Definition bindE {A B} (m : err + A) (f : A → err + B) : err + B := match m with inl e => inl e | inr a => f a end.

(** ** Agent IDs (models.ValidateAgentID)

    [unicode.IsSpace] and [unicode.IsControl] of the rune a byte string starts
    with, and what follows it.  The runes in question have one to three bytes in
    UTF-8, and their first bytes start no other rune. *)
Definition spaceRune (s : list Z) : option (list Z) :=
  match s with
  | [] => None
  | c :: s1 =>
      if bool_decide (c ∈ [9; 10; 11; 12; 13; 32]%Z) then Some s1
      else
        match s1 with
        | [] => None
        | c2 :: s2 =>
            if bool_decide ((c, c2) ∈ [(194, 133); (194, 160)]%Z) then Some s2
            else
              match s2 with
              | [] => None
              | c3 :: s3 =>
                  if bool_decide ((c, c2, c3) ∈ [(225, 154, 128); (226, 129, 159); (227, 128, 128);
                                                 (226, 128, 168); (226, 128, 169); (226, 128, 175)]%Z)
                     || (bool_decide ((c, c2) = (226, 128)%Z) && (128 <=? c3)%Z && (c3 <=? 138)%Z)
                  then Some s3 else None
              end
        end
  end.
Definition controlRune (s : list Z) : bool :=
  match s with
  | [] => false
  | c :: s1 =>
      ((0 <=? c) && (c <? 32) || (c =? 127))%Z ||
      match s1 with [] => false | c2 :: _ => ((c =? 194) && (128 <=? c2) && (c2 <=? 159))%Z end
  end.
(** [strings.ContainsFunc] with both. *)
Fixpoint containsSpaceOrControl (s : list Z) : bool :=
  match s with
  | [] => false
  | _ :: s' => bool_decide (is_Some (spaceRune s)) || controlRune s || containsSpaceOrControl s'
  end.
(** [strings.TrimSpace(s) == ""], with the length as fuel. *)
Fixpoint allSpace (fuel : nat) (s : list Z) : bool :=
  match s, fuel with
  | [], _ => true
  | _, 0 => false
  | _, S fuel => match spaceRune s with Some s' => allSpace fuel s' | None => false end
  end.
Definition ValidateAgentID (field value : string) : error :=
  let s := bytes_of value in
  if allSpace (length s) s then Some (ErrMsg (field +:+ " is required"))
  else if containsSpaceOrControl s
  then Some (ErrMsg (field +:+ " must not contain whitespace or control characters"))
  else None.

(** ** What the loader asks of the system and of libraries

    [os.Getenv], [os.Hostname], [os.ReadFile]; the YAML library's node decoder
    over a file, its strict decoder, which calls [UnmarshalYAML] of the type it
    decodes, and [Decode] of a scalar node; [strconv.ParseFloat]; and the
    conversion of a float64 out of the range of int64, which Go leaves to the
    machine. *)
Class Environment (Settings Cfg : Type) := {
  Getenv : string → string;
  Hostname : err + string;
  ReadFile : string → err + string;
  DecodeNode : string → nat → decoded;
  DecodeKnown : (Node → err + Settings) → string → err + Cfg;
  DecodeBool : Node → option bool;
  DecodeInt64 : Node → option Z;
  ParseFloat : string → option spec_float;
  outOfRange : spec_float → Z;
}.

(** [strconv.ParseBool] *)
Definition ParseBool (s : string) : option bool :=
  if bool_decide (s ∈ ["1"; "t"; "T"; "TRUE"; "true"; "True"]) then Some true
  else if bool_decide (s ∈ ["0"; "f"; "F"; "FALSE"; "false"; "False"]) then Some false
  else None.

Section Loading.
Context {E : Environment VPPSettings V2Config}.

(** [if v := os.Getenv(name); v != ""] *)
Definition override {A} (name : string) (old : A) (f : string → err + A) : err + A :=
  if bool_decide (Getenv name ≠ "") then f (Getenv name) else inr old.
Definition overrideString (name old : string) : err + string := override name old inr.
Definition overrideBool (name : string) (old : bool) : err + bool :=
  override name old (λ v, match ParseBool v with
    | Some b => inr b
    | None => inl (ErrWrap (name +:+ " must be a boolean: ") (ErrMsg ("strconv.ParseBool: parsing " +:+ quoted v +:+ ": invalid syntax")) "") end).

Definition applyV2EnvOverrides (cfg : V2Config) : err + V2Config :=
  bindE (overrideString "ARCA_AGENT_ID" (ID (Agent cfg))) (λ id,
  bindE (override "ARCA_AGENT_STATUS_TTL" (StatusTTL (Agent cfg)) (λ v,
           match ParseDuration v with
           | inl e => inl (errorf "ARCA_AGENT_STATUS_TTL must be a duration: " e)
           | inr ttl => inr ttl end)) (λ ttl,
  bindE (overrideString "ARCA_KUBECONFIG" (Kubeconfig (Kubernetes cfg))) (λ kubeconfig,
  bindE (overrideString "ARCA_NAMESPACE" (Namespace (Kubernetes cfg))) (λ namespace,
  bindE (overrideString "ARCA_DATAPLANE_TYPE" (dp_Type (DataPlane cfg))) (λ dptype,
  bindE (overrideString "ARCA_OTLP_ENDPOINT" (OTLPEndpoint (Telemetry cfg))) (λ endpoint,
  bindE (overrideBool "ARCA_OTLP_INSECURE" (OTLPInsecure (Telemetry cfg))) (λ insecure,
  bindE (overrideString "ARCA_METRICS_ADDRESS" (ms_Address (Metrics cfg))) (λ address,
  bindE (overrideBool "ARCA_ROLLOUT_ENABLED" (ro_Enabled (Rollout cfg))) (λ enabled,
  bindE (overrideString "ARCA_ROLLOUT_LEASE_NAMESPACE" (ro_LeaseNamespace (Rollout cfg))) (λ leaseNamespace,
  inr {| Agent := {| ID := id; StorePath := StorePath (Agent cfg);
                     ReconcileInterval := ReconcileInterval (Agent cfg); StatusTTL := ttl |};
         Kubernetes := {| Kubeconfig := kubeconfig; Namespace := namespace;
                          ResyncInterval := ResyncInterval (Kubernetes cfg) |};
         DataPlane := {| dp_Type := dptype; dp_VPP := dp_VPP (DataPlane cfg);
                         dp_VPPConfig := dp_VPPConfig (DataPlane cfg) |};
         Routing := Routing cfg;
         Rollout := {| ro_Enabled := enabled; ro_LeaseNamespace := leaseNamespace;
                       ro_LeaseDuration := ro_LeaseDuration (Rollout cfg);
                       ro_RetryInterval := ro_RetryInterval (Rollout cfg) |};
         HealthCheck := HealthCheck cfg;
         Metrics := {| ms_Enabled := ms_Enabled (Metrics cfg); ms_Address := address; ms_Path := ms_Path (Metrics cfg) |};
         Telemetry := {| OTLPEndpoint := endpoint; OTLPInsecure := insecure |};
         Log := Log cfg |})))))))))).

(** ** Defaults: the zero value of a setting is replaced. *)
Definition orString (s d : string) : string := if bool_decide (s = "") then d else s.
Definition orZ (z d : Z) : Z := if (z =? 0)%Z then d else z.

Definition applyV2Defaults (cfg : V2Config) : V2Config :=
  let a := Agent cfg in let k := Kubernetes cfg in let r := Routing cfg in let o := Rollout cfg in
  let h := HealthCheck cfg in let m := Metrics cfg in let l := Log cfg in
  {| Agent := {| ID := ID a; StorePath := orString (StorePath a) "/var/lib/arca-lb/agent.db";
                 ReconcileInterval := orZ (ReconcileInterval a) (30 * Second);
                 StatusTTL := orZ (StatusTTL a) Status.DefaultAgentStatusTTL |};
     Kubernetes := {| Kubeconfig := Kubeconfig k; Namespace := Namespace k;
                      ResyncInterval := orZ (ResyncInterval k) (30 * Second) |};
     DataPlane := DataPlane cfg;
     Routing := {| rt_Enabled := rt_Enabled r; rt_Type := rt_Type r;
                   rt_VTYShPath := orString (rt_VTYShPath r) "/usr/bin/vtysh";
                   rt_RouteTag := orZ (rt_RouteTag r) 10000; rt_CmdTimeout := orZ (rt_CmdTimeout r) (10 * Second) |};
     Rollout := {| ro_Enabled := ro_Enabled o; ro_LeaseNamespace := ro_LeaseNamespace o;
                   ro_LeaseDuration := orZ (ro_LeaseDuration o) (2 * Minute);
                   ro_RetryInterval := orZ (ro_RetryInterval o) Second |};
     HealthCheck := {| hs_WorkerCount := orZ (hs_WorkerCount h) 4;
                       hs_MaxConcurrentChecks := orZ (hs_MaxConcurrentChecks h) 64;
                       hs_DefaultTimeout := orZ (hs_DefaultTimeout h) (3 * Second) |};
     Metrics := {| ms_Enabled := ms_Enabled m; ms_Address := orString (ms_Address m) "127.0.0.1:9090";
                   ms_Path := orString (ms_Path m) "/metrics" |};
     Telemetry := Telemetry cfg;
     Log := {| lg_Level := orString (lg_Level l) "info"; lg_Format := orString (lg_Format l) "json" |} |}.

(** ** VPP settings *)
Definition defaultV2VPPSettings : VPPDataPlaneConfig :=
  {| SocketPath := "/run/vpp/api.sock"; ConnectTimeout := 10 * Second; ReconnectInterval := 5 * Second;
     EncapType := "L3DSR"; DSCP := 10; ServiceType := "CLUSTERIP"; NewFlowsTableLength := 65536;
     FailOnAllBackendsDown := false; StateVerificationInterval := 30 * Second;
     RetainedVIPTuningDriftPolicy := ""; RetainedVIPTuningDriftDrain := 0; RollingRecreateDrain := 0 |}.

Definition validV2VPPEncapType (value : string) : bool :=
  bool_decide (value ∈ ["GRE4"; "GRE6"; "L3DSR"; "NAT4"; "NAT6"]).
Definition validV2VPPServiceType (value : string) : bool := bool_decide (value ∈ ["CLUSTERIP"; "NODEPORT"]).
Definition validV2VPPTuningDriftPolicy (value : string) : bool := bool_decide (value ∈ ["preserve"; "rolling_recreate"]).
Definition isPowerOfTwo (value : Z) : bool := ((0 <? value) && (Z.land value (value - 1) =? 0))%Z.

(** An optional setting: the default, or the value if the check passes. *)
Definition setting {A} (given : option A) (dflt : A) (bad : A → bool) (msg : string) : err + A :=
  match given with
  | None => inr dflt
  | Some v => check (bad v) msg (inr v)
  end.
Definition positive (given : option Z) (dflt : Z) (msg : string) : err + Z :=
  setting given dflt (λ v, v <=? 0)%Z msg.

Definition parseV2VPPSettings (vpp : option VPPSettings) : err + VPPDataPlaneConfig :=
  let d := defaultV2VPPSettings in
  match vpp with
  | None => inr d
  | Some vpp =>
      bindE (setting (v_SocketPath vpp) (SocketPath d) (λ v, bool_decide (v = ""))
               "dataplane.vpp.socket_path must be a non-empty string") (λ socketPath,
      bindE (setting (v_EncapType vpp) (EncapType d) (λ v, negb (validV2VPPEncapType v))
               "dataplane.vpp.encap_type must be one of GRE4, GRE6, L3DSR, NAT4, NAT6") (λ encapType,
      bindE (setting (v_DSCP vpp) (DSCP d) (λ v, (v <? 1) || (63 <? v))%Z
               "dataplane.vpp.dscp must be an integer between 1 and 63") (λ dscp,
      bindE (setting (v_ServiceType vpp) (ServiceType d) (λ v, negb (validV2VPPServiceType v))
               "dataplane.vpp.service_type must be one of CLUSTERIP, NODEPORT") (λ serviceType,
      bindE (setting (v_NewFlowsTableLength vpp) (NewFlowsTableLength d)
               (λ v, (v <? 1) || (2 ^ 32 - 1 <? v) || negb (isPowerOfTwo v))%Z
               "dataplane.vpp.new_flows_table_length must be a power-of-two integer between 1 and 4294967295") (λ length,
      bindE (positive (v_ConnectTimeout vpp) (ConnectTimeout d)
               "dataplane.vpp.connect_timeout must be a positive duration") (λ connectTimeout,
      bindE (positive (v_ReconnectInterval vpp) (ReconnectInterval d)
               "dataplane.vpp.reconnect_interval must be a positive duration") (λ reconnectInterval,
      bindE (setting (v_RetainedVIPTuningDriftPolicy vpp) (RetainedVIPTuningDriftPolicy d)
               (λ v, bool_decide (v ≠ "") && negb (validV2VPPTuningDriftPolicy v))
               "dataplane.vpp.retained_vip_tuning_drift_policy must be one of preserve, rolling_recreate") (λ policy,
      bindE (positive (v_StateVerificationInterval vpp) (StateVerificationInterval d)
               "dataplane.vpp.state_verification_interval must be a positive duration") (λ verification,
      bindE (positive (v_RetainedVIPTuningDriftDrain vpp) (RetainedVIPTuningDriftDrain d)
               "dataplane.vpp.retained_vip_tuning_drift_drain must be a positive duration") (λ driftDrain,
      bindE (positive (v_RollingRecreateDrain vpp) (RollingRecreateDrain d)
               "dataplane.vpp.rolling_recreate_drain must be a positive duration") (λ recreateDrain,
      inr {| SocketPath := socketPath; ConnectTimeout := connectTimeout; ReconnectInterval := reconnectInterval;
             EncapType := encapType; DSCP := wrapU 8 dscp; ServiceType := serviceType;
             NewFlowsTableLength := wrapU 32 length;
             FailOnAllBackendsDown := default (FailOnAllBackendsDown d) (v_FailOnAllBackendsDown vpp);
             StateVerificationInterval := verification; RetainedVIPTuningDriftPolicy := policy;
             RetainedVIPTuningDriftDrain := driftDrain; RollingRecreateDrain := recreateDrain |})))))))))))
  end.

(** ** Validation; it fills in the ID and the VPP configuration. *)
Definition validateV2 (cfg : V2Config) : err + V2Config :=
  bindE (if bool_decide (ID (Agent cfg) = "") then
           match Hostname with
           | inl e => inl (ErrWrap "agent.id is required (hostname lookup failed: " e ")")
           | inr hostname => inr hostname
           end
         else inr (ID (Agent cfg))) (λ id,
  match ValidateAgentID "agent.id" id with
  | Some e => inl e
  | None =>
      check (ReconcileInterval (Agent cfg) <=? 0)%Z "agent.reconcileInterval must be positive" (
      check (StatusTTL (Agent cfg) <=? 0)%Z "agent.statusTTL must be positive" (
      check (ResyncInterval (Kubernetes cfg) <=? 0)%Z "kubernetes.resyncInterval must be positive" (
      check (hs_WorkerCount (HealthCheck cfg) <=? 0)%Z "healthCheck.workerCount must be positive" (
      check (hs_MaxConcurrentChecks (HealthCheck cfg) <=? 0)%Z "healthCheck.maxConcurrentChecks must be positive" (
      check (hs_DefaultTimeout (HealthCheck cfg) <=? 0)%Z "healthCheck.defaultTimeout must be positive" (
      check (bool_decide (dp_Type (DataPlane cfg) = "")) "dataplane.type is required" (
      check (negb (bool_decide (dp_Type (DataPlane cfg) ∈ ["vpp"; "noop"])))
        ("unsupported dataplane.type: " +:+ dp_Type (DataPlane cfg)) (
      bindE (if bool_decide (dp_Type (DataPlane cfg) = "vpp") then parseV2VPPSettings (dp_VPP (DataPlane cfg))
             else inr defaultV2VPPSettings) (λ vppConfig,
      check (bool_decide (rt_Type (Routing cfg) = "")) "routing.type is required" (
      check (negb (bool_decide (rt_Type (Routing cfg) ∈ ["frr"; "noop"])))
        ("unsupported routing.type: " +:+ rt_Type (Routing cfg)) (
      check (rt_CmdTimeout (Routing cfg) <=? 0)%Z "routing.cmdTimeout must be positive" (
      check (ro_LeaseDuration (Rollout cfg) <=? 0)%Z "rollout.leaseDuration must be positive" (
      check (ro_RetryInterval (Rollout cfg) <=? 0)%Z "rollout.retryInterval must be positive" (
      check (ms_Enabled (Metrics cfg) && negb (String.prefix "/" (ms_Path (Metrics cfg))))
        "metrics.path must be an absolute HTTP path" (
      check (ms_Enabled (Metrics cfg) && bool_decide (ms_Path (Metrics cfg) ∈ ["/health"; "/livez"; "/readyz"]))
        ("metrics.path must not be " +:+ ms_Path (Metrics cfg)) (
      inr {| Agent := {| ID := id; StorePath := StorePath (Agent cfg);
                         ReconcileInterval := ReconcileInterval (Agent cfg); StatusTTL := StatusTTL (Agent cfg) |};
             Kubernetes := Kubernetes cfg;
             DataPlane := {| dp_Type := dp_Type (DataPlane cfg); dp_VPP := dp_VPP (DataPlane cfg);
                             dp_VPPConfig := vppConfig |};
             Routing := Routing cfg; Rollout := Rollout cfg; HealthCheck := HealthCheck cfg;
             Metrics := Metrics cfg; Telemetry := Telemetry cfg; Log := Log cfg |}))))))))))))))))
  end).

(** ** VPP settings from YAML (UnmarshalYAML) *)
Definition knownV2VPPSetting (key : string) : bool :=
  bool_decide (key ∈ ["socket_path"; "connect_timeout"; "reconnect_interval"; "encap_type"; "dscp"; "service_type";
    "new_flows_table_length"; "fail_on_all_backends_down"; "state_verification_interval";
    "retained_vip_tuning_drift_policy"; "retained_vip_tuning_drift_drain"; "rolling_recreate_drain"]).

Definition isScalar (value : Node) (tag : string) : bool :=
  bool_decide (NodeKind value = ScalarNode ∧ Tag value = tag).
Definition decodeV2StringSetting (path : string) (value : Node) : err + string :=
  if isScalar value "!!str" then inr (Value value) else inl (ErrMsg (path +:+ " must be a string")).
Definition decodeV2BoolSetting (path : string) (value : Node) : err + bool :=
  match (if isScalar value "!!bool" then DecodeBool value else None) with
  | Some parsed => inr parsed
  | None => inl (ErrMsg (path +:+ " must be a boolean"))
  end.
Definition decodeV2IntegerSetting (path : string) (value : Node) : err + Z :=
  match (if isScalar value "!!int" then DecodeInt64 value else None) with
  | Some parsed => inr parsed
  | None => inl (ErrMsg (path +:+ " must be an integer"))
  end.
(** [time.Duration(f)] *)
Definition durationOfFloat (f : spec_float) : Z :=
  match ftrunc f with
  | Some z => if ((- 2 ^ 63 <=? z) && (z <? 2 ^ 63))%Z then z else outOfRange f
  | None => outOfRange f
  end.
Definition decodeV2DurationSetting (path : string) (value : Node) : err + Z :=
  let fail := inl (ErrMsg (path +:+ " must be a duration")) in
  if bool_decide (NodeKind value ≠ ScalarNode) then fail
  else if bool_decide (Tag value = "!!int") then
    match DecodeInt64 value with
    | None => fail
    | Some seconds => inr (wrapS 64 (seconds * Second))
    end
  else if bool_decide (Tag value = "!!float") then
    match ParseFloat (Value value) with
    | None => fail
    | Some seconds => inr (durationOfFloat (fmul seconds (float64 Second)))
    end
  else if bool_decide (Tag value = "!!str") then
    if bool_decide (Value value = "") then fail
    else match ParseDuration (Value value) with inl _ => fail | inr duration => inr duration end
  else fail.

Definition emptyVPPSettings : VPPSettings :=
  Build_VPPSettings None None None None None None None None None None None None.

(** One case of the switch: the setting is decoded and its field set. *)
Definition unmarshalSetting (s : VPPSettings) (key : string) (value : Node) : err + VPPSettings :=
  let path := "dataplane.vpp." +:+ key in
  let '(Build_VPPSettings sock conn rec encap dscp svc len fail verif policy ddrain rdrain) := s in
  let isKey k := bool_decide (key = k) in
  if isKey "socket_path" then bindE (decodeV2StringSetting path value) (λ v,
    inr (Build_VPPSettings (Some v) conn rec encap dscp svc len fail verif policy ddrain rdrain))
  else if isKey "connect_timeout" then bindE (decodeV2DurationSetting path value) (λ v,
    inr (Build_VPPSettings sock (Some v) rec encap dscp svc len fail verif policy ddrain rdrain))
  else if isKey "reconnect_interval" then bindE (decodeV2DurationSetting path value) (λ v,
    inr (Build_VPPSettings sock conn (Some v) encap dscp svc len fail verif policy ddrain rdrain))
  else if isKey "encap_type" then bindE (decodeV2StringSetting path value) (λ v,
    inr (Build_VPPSettings sock conn rec (Some v) dscp svc len fail verif policy ddrain rdrain))
  else if isKey "dscp" then bindE (decodeV2IntegerSetting path value) (λ v,
    inr (Build_VPPSettings sock conn rec encap (Some v) svc len fail verif policy ddrain rdrain))
  else if isKey "service_type" then bindE (decodeV2StringSetting path value) (λ v,
    inr (Build_VPPSettings sock conn rec encap dscp (Some v) len fail verif policy ddrain rdrain))
  else if isKey "new_flows_table_length" then bindE (decodeV2IntegerSetting path value) (λ v,
    inr (Build_VPPSettings sock conn rec encap dscp svc (Some v) fail verif policy ddrain rdrain))
  else if isKey "fail_on_all_backends_down" then bindE (decodeV2BoolSetting path value) (λ v,
    inr (Build_VPPSettings sock conn rec encap dscp svc len (Some v) verif policy ddrain rdrain))
  else if isKey "state_verification_interval" then bindE (decodeV2DurationSetting path value) (λ v,
    inr (Build_VPPSettings sock conn rec encap dscp svc len fail (Some v) policy ddrain rdrain))
  else if isKey "retained_vip_tuning_drift_policy" then bindE (decodeV2StringSetting path value) (λ v,
    inr (Build_VPPSettings sock conn rec encap dscp svc len fail verif (Some v) ddrain rdrain))
  else if isKey "retained_vip_tuning_drift_drain" then bindE (decodeV2DurationSetting path value) (λ v,
    inr (Build_VPPSettings sock conn rec encap dscp svc len fail verif policy (Some v) rdrain))
  else if isKey "rolling_recreate_drain" then bindE (decodeV2DurationSetting path value) (λ v,
    inr (Build_VPPSettings sock conn rec encap dscp svc len fail verif policy ddrain (Some v)))
  else inr s.
Fixpoint unmarshalSettings (s : VPPSettings) (content : list Node) : err + VPPSettings :=
  match content with
  | keyNode :: valueNode :: content =>
      if negb (knownV2VPPSetting (Value keyNode))
      then inl (ErrMsg ("dataplane.vpp." +:+ Value keyNode +:+ " is not supported"))
      else bindE (unmarshalSetting s (Value keyNode) valueNode) (λ s, unmarshalSettings s content)
  | _ => inr s
  end.
Definition UnmarshalYAML (value : Node) : err + VPPSettings :=
  if bool_decide (NodeKind value ≠ MappingNode) then inl (ErrMsg "dataplane.vpp must be a mapping")
  else unmarshalSettings emptyVPPSettings (Content value).

(** ** LoadV2Config *)
Definition decodeStrictYAML (data : string) : err + V2Config :=
  DecodeStrict (DecodeNode data) (DecodeKnown UnmarshalYAML data).

Definition LoadV2Config (path : string) : err + V2Config :=
  match ReadFile path with
  | inl e => inl (errorf ("failed to read config file " +:+ path +:+ ": ") e)
  | inr data =>
      match decodeStrictYAML data with
      | inl e => inl (errorf "failed to parse config file: " e)
      | inr cfg =>
          match applyV2EnvOverrides cfg with
          | inl e => inl (errorf "invalid environment override: " e)
          | inr cfg =>
              match validateV2 (applyV2Defaults cfg) with
              | inl e => inl (errorf "config validation failed: " e)
              | inr cfg => inr cfg
              end
          end
      end
  end.

(** ** The reconciler's drift settings (cmd/arcalb-agent/main.go) *)
Definition retainedVIPTuningDriftConfig (vpp : VPPDataPlaneConfig) : Reconciler.TuningDriftConfig :=
  {| Reconciler.Policy := RetainedVIPTuningDriftPolicy vpp;
     Reconciler.DrainDuration :=
       if (0 <? RetainedVIPTuningDriftDrain vpp)%Z then RetainedVIPTuningDriftDrain vpp
       else if (0 <? RollingRecreateDrain vpp)%Z then RollingRecreateDrain vpp
       else 0%Z |}.

(** ** What a loaded configuration satisfies *)
(** The VPP configuration the settings describe: given values, defaults for the
    others. *)
Definition vppAsGiven (vpp : option VPPSettings) : VPPDataPlaneConfig :=
  let d := defaultV2VPPSettings in
  match vpp with
  | None => d
  | Some s =>
      {| SocketPath := default (SocketPath d) (v_SocketPath s);
         ConnectTimeout := default (ConnectTimeout d) (v_ConnectTimeout s);
         ReconnectInterval := default (ReconnectInterval d) (v_ReconnectInterval s);
         EncapType := default (EncapType d) (v_EncapType s);
         DSCP := default (DSCP d) (v_DSCP s);
         ServiceType := default (ServiceType d) (v_ServiceType s);
         NewFlowsTableLength := default (NewFlowsTableLength d) (v_NewFlowsTableLength s);
         FailOnAllBackendsDown := default (FailOnAllBackendsDown d) (v_FailOnAllBackendsDown s);
         StateVerificationInterval := default (StateVerificationInterval d) (v_StateVerificationInterval s);
         RetainedVIPTuningDriftPolicy := default (RetainedVIPTuningDriftPolicy d) (v_RetainedVIPTuningDriftPolicy s);
         RetainedVIPTuningDriftDrain := default (RetainedVIPTuningDriftDrain d) (v_RetainedVIPTuningDriftDrain s);
         RollingRecreateDrain := default (RollingRecreateDrain d) (v_RollingRecreateDrain s) |}
  end.
Record wellFormedVPP (c : VPPDataPlaneConfig) : Prop := {
  wf_socket : SocketPath c ≠ "";
  wf_encap : EncapType c ∈ ["GRE4"; "GRE6"; "L3DSR"; "NAT4"; "NAT6"];
  wf_dscp : (1 <= DSCP c <= 63)%Z;
  wf_service : ServiceType c ∈ ["CLUSTERIP"; "NODEPORT"];
  wf_table : ∃ k, (0 <= k < 32)%Z ∧ NewFlowsTableLength c = (2 ^ k)%Z;
  wf_intervals : Forall (Z.lt 0) [ConnectTimeout c; ReconnectInterval c; StateVerificationInterval c];
  wf_policy : RetainedVIPTuningDriftPolicy c ∈ [""; "preserve"; "rolling_recreate"];
  wf_drains : Forall (Z.le 0) [RetainedVIPTuningDriftDrain c; RollingRecreateDrain c];
}.
Record wellFormed (c : V2Config) : Prop := {
  wf_id : ID (Agent c) ≠ "" ∧ containsSpaceOrControl (bytes_of (ID (Agent c))) = false;
  wf_positive : Forall (Z.lt 0)
    [ReconcileInterval (Agent c); StatusTTL (Agent c); ResyncInterval (Kubernetes c);
     hs_WorkerCount (HealthCheck c); hs_MaxConcurrentChecks (HealthCheck c); hs_DefaultTimeout (HealthCheck c);
     rt_CmdTimeout (Routing c); ro_LeaseDuration (Rollout c); ro_RetryInterval (Rollout c)];
  wf_named : Forall (λ s, s ≠ "")
    [StorePath (Agent c); rt_VTYShPath (Routing c); ms_Address (Metrics c); ms_Path (Metrics c);
     lg_Level (Log c); lg_Format (Log c)];
  wf_types : dp_Type (DataPlane c) ∈ ["vpp"; "noop"] ∧ rt_Type (Routing c) ∈ ["frr"; "noop"];
  wf_vpp : wellFormedVPP (dp_VPPConfig (DataPlane c));
  wf_vpp_given : dp_VPPConfig (DataPlane c) =
    if bool_decide (dp_Type (DataPlane c) = "vpp") then vppAsGiven (dp_VPP (DataPlane c)) else defaultV2VPPSettings;
  wf_metrics : ms_Enabled (Metrics c) = true →
    String.prefix "/" (ms_Path (Metrics c)) = true ∧ ms_Path (Metrics c) ∉ ["/health"; "/livez"; "/readyz"];
}.

(** ** Theorems *)
Lemma isPowerOfTwo_spec v : isPowerOfTwo v = true ↔ ∃ k, (0 <= k)%Z ∧ v = (2 ^ k)%Z.
Proof.
  unfold isPowerOfTwo. rewrite andb_true_iff, Z.ltb_lt, Z.eqb_eq. split.
  - intros [Hv Hl]. exists (Z.log2 v). split; [apply Z.log2_nonneg|].
    destruct (Z.log2_spec v Hv) as [Hlo Hhi]. destruct (decide (v = 2 ^ Z.log2 v)%Z) as [|Hne]; [done|].
    assert (Z.log2 (v - 1) = Z.log2 v) as Hlog.
    { apply Z.log2_unique; [apply Z.log2_nonneg|]. lia. }
    assert (0 < v - 1)%Z as Hv1.
    { pose proof (Z.pow_pos_nonneg 2 (Z.log2 v) ltac:(lia) (Z.log2_nonneg v)). lia. }
    assert (Z.testbit (Z.land v (v - 1)) (Z.log2 v) = true) as Hb.
    { rewrite Z.land_spec, Z.bit_log2 by done. rewrite <- Hlog at 1. by apply Z.bit_log2. }
    by rewrite Hl, Z.bits_0 in Hb.
  - intros (k & Hk & ->). split; [by apply Z.pow_pos_nonneg|].
    replace (2 ^ k - 1)%Z with (Z.ones k) by (rewrite Z.ones_equiv; lia).
    rewrite Z.land_ones by done. apply Z.mod_same. pose proof (Z.pow_pos_nonneg 2 k). lia.
Qed.

Lemma check_inv {A} bad msg (k : err + A) a : check bad msg k = inr a → bad = false ∧ k = inr a.
Proof. unfold check. by destruct bad. Qed.
Lemma bindE_inv {A B} (m : err + A) (f : A → err + B) b : bindE m f = inr b → ∃ a, m = inr a ∧ f a = inr b.
Proof. unfold bindE. destruct m as [e|a]; [done|eauto]. Qed.
(** An optional setting is the given one or the default, and the check holds of it
    if the default passes it. *)
Lemma setting_inv {A} (given : option A) d bad msg a :
  bad d = false → setting given d bad msg = inr a → a = default d given ∧ bad a = false.
Proof. intros Hd. destruct given as [v|]; [intros [? [= ->]]%check_inv; auto|]. intros [= <-]. auto. Qed.
(** A duration is positive, or the default. *)
Lemma positive_inv given d msg a :
  (0 <= d)%Z → positive given d msg = inr a → a = default d given ∧ (0 <= a)%Z ∧ (0 < d → 0 < a)%Z.
Proof.
  intros Hd. destruct given as [v|]; [intros [?%Z.leb_gt [= ->]]%check_inv|intros [= <-]]; split_and!; simpl; auto; lia.
Qed.

(** Peels the checks and binds off a result, one after the other. *)
Ltac peel :=
  repeat match goal with
  | H : check _ _ _ = inr _ |- _ => apply check_inv in H; destruct H as [? H]
  | H : bindE _ _ = inr _ |- _ => apply bindE_inv in H; destruct H as (? & ? & H)
  | H : setting _ _ _ _ = inr _ |- _ => apply setting_inv in H; [destruct H as [-> H]|reflexivity]
  | H : positive _ _ _ = inr _ |- _ => apply positive_inv in H; [destruct H as [-> [H ?]]|by vm_compute]
  end.

Lemma default_wellFormedVPP : wellFormedVPP defaultV2VPPSettings.
Proof. split; try (by repeat constructor); try set_solver. exists 16%Z. by split. Qed.

Lemma table_bits v : ((v <? 1) || (2 ^ 32 - 1 <? v))%Z || negb (isPowerOfTwo v) = false →
  ∃ k, (0 <= k < 32)%Z ∧ v = (2 ^ k)%Z.
Proof.
  intros [[?%Z.ltb_ge Hhi%Z.ltb_ge]%orb_false_iff Hp%negb_false_iff]%orb_false_iff.
  apply isPowerOfTwo_spec in Hp as (k & Hk & ->). exists k. split; [|done]. split; [done|].
  apply (Z.pow_lt_mono_r_iff 2); lia.
Qed.

Lemma policy_known v : bool_decide (v ≠ "") && negb (validV2VPPTuningDriftPolicy v) = false →
  v ∈ [""; "preserve"; "rolling_recreate"].
Proof.
  intros [->%bool_decide_eq_false_1%dec_stable|?%negb_false_iff%bool_decide_eq_true]%andb_false_iff; set_solver.
Qed.

Lemma parseV2VPPSettings_spec vpp c :
  parseV2VPPSettings vpp = inr c → c = vppAsGiven vpp ∧ wellFormedVPP c.
Proof.
  destruct vpp as [s|]; [|intros [= <-]; split; [done|apply default_wellFormedVPP]].
  intros H. unfold parseV2VPPSettings in H. peel. injection H as <-.
  match goal with H : context [isPowerOfTwo] |- _ => apply table_bits in H as (k & Hk & Htable) end.
  match goal with H : context [validV2VPPTuningDriftPolicy] |- _ => apply policy_known in H end.
  match goal with H : (_ || _)%bool = false |- _ => apply orb_false_iff in H as [?%Z.ltb_ge ?%Z.ltb_ge] end.
  assert (2 ^ k < 2 ^ 32)%Z by (apply Z.pow_lt_mono_r; lia).
  assert (0 < 2 ^ k)%Z by (apply Z.pow_pos_nonneg; lia). simpl in *.
  rewrite (wrapU_small 8), (wrapU_small 32) by lia. split; [done|].
  repeat match goal with
  | H : bool_decide _ = false |- _ => apply bool_decide_eq_false in H
  | H : negb _ = false |- _ => apply negb_false_iff, bool_decide_eq_true in H
  | H : (0 < _)%Z → _ |- _ => specialize (H eq_refl)
  end.
  split; simpl; try done; [by exists k|by repeat constructor..].
Qed.

Lemma ValidateAgentID_spec field value :
  ValidateAgentID field value = None → value ≠ "" ∧ containsSpaceOrControl (bytes_of value) = false.
Proof. unfold ValidateAgentID. repeat case_match; try done. split; [by intros ->|done]. Qed.

Lemma orString_nonempty s d : d ≠ "" → orString s d ≠ "".
Proof. unfold orString. by case_bool_decide. Qed.

Lemma validateV2_spec c0 c :
  validateV2 c0 = inr c →
  Forall (λ s, s ≠ "") [StorePath (Agent c0); rt_VTYShPath (Routing c0); ms_Address (Metrics c0);
                        ms_Path (Metrics c0); lg_Level (Log c0); lg_Format (Log c0)] →
  wellFormed c.
Proof.
  unfold validateV2. intros (id & _ & H)%bindE_inv Hnamed.
  destruct (ValidateAgentID "agent.id" id) as [e|] eqn:Hid; [done|]. apply ValidateAgentID_spec in Hid.
  peel. injection H as <-.
  repeat match goal with
  | H : bool_decide _ = false |- _ => apply bool_decide_eq_false in H
  | H : negb _ = false |- _ => apply negb_false_iff, bool_decide_eq_true in H
  | H : (_ <=? _)%Z = false |- _ => apply Z.leb_gt in H
  end.
  rename select VPPDataPlaneConfig into vpp.
  assert (wellFormedVPP vpp ∧ vpp = if bool_decide (dp_Type (DataPlane c0) = "vpp")
                                   then vppAsGiven (dp_VPP (DataPlane c0)) else defaultV2VPPSettings) as [??].
  { rename select (_ = inr vpp) into Hvpp. destruct (bool_decide (dp_Type (DataPlane c0) = "vpp")).
    - by apply parseV2VPPSettings_spec in Hvpp as [-> ?].
    - injection Hvpp as <-. split; [apply default_wellFormedVPP|done]. }
  split; simpl; auto; [by repeat constructor|]. intros Hen. rewrite Hen in *. simpl in *. split.
  - by apply negb_false_iff.
  - by eapply bool_decide_eq_false_1.
Qed.


(** ** The settings UnmarshalYAML reads *)

(** The value of a key: its last entry, decoded. *)
Definition lastEntry (key : string) (content : list Node) : option Node :=
  snd <$> last (filter (λ e, e.1 = key) (entries content)).
Definition decodedEntry {A} (decode : string → Node → err + A) (old : option A) (key : string) (content : list Node)
    : option A :=
  match lastEntry key content with
  | None => old
  | Some value => match decode ("dataplane.vpp." +:+ key) value with inr v => Some v | inl _ => None end
  end.
Definition settingsIn (s : VPPSettings) (content : list Node) : VPPSettings :=
  let str old key := decodedEntry decodeV2StringSetting old key content in
  let int old key := decodedEntry decodeV2IntegerSetting old key content in
  let dur old key := decodedEntry decodeV2DurationSetting old key content in
  {| v_SocketPath := str (v_SocketPath s) "socket_path";
     v_ConnectTimeout := dur (v_ConnectTimeout s) "connect_timeout";
     v_ReconnectInterval := dur (v_ReconnectInterval s) "reconnect_interval";
     v_EncapType := str (v_EncapType s) "encap_type";
     v_DSCP := int (v_DSCP s) "dscp";
     v_ServiceType := str (v_ServiceType s) "service_type";
     v_NewFlowsTableLength := int (v_NewFlowsTableLength s) "new_flows_table_length";
     v_FailOnAllBackendsDown :=
       decodedEntry decodeV2BoolSetting (v_FailOnAllBackendsDown s) "fail_on_all_backends_down" content;
     v_StateVerificationInterval := dur (v_StateVerificationInterval s) "state_verification_interval";
     v_RetainedVIPTuningDriftPolicy := str (v_RetainedVIPTuningDriftPolicy s) "retained_vip_tuning_drift_policy";
     v_RetainedVIPTuningDriftDrain := dur (v_RetainedVIPTuningDriftDrain s) "retained_vip_tuning_drift_drain";
     v_RollingRecreateDrain := dur (v_RollingRecreateDrain s) "rolling_recreate_drain" |}.

Lemma lastEntry_cons key k v content :
  lastEntry key (k :: v :: content) =
  match lastEntry key content with
  | Some w => Some w
  | None => if bool_decide (Value k = key) then Some v else None
  end.
Proof.
  unfold lastEntry. cbn [entries]. rewrite filter_cons. case_decide as Hk; simpl in Hk.
  - rewrite last_cons, bool_decide_true by done. by destruct (last _) as [[]|].
  - rewrite bool_decide_false by done. by destruct (last _) as [[]|].
Qed.

(** An entry for another key changes nothing, one for the key replaces the value. *)
Lemma decodedEntry_cons {A} (decode : string → Node → err + A) old key k v content :
  decodedEntry decode old key (k :: v :: content) =
  decodedEntry decode
    (if bool_decide (Value k = key) then
       match decode ("dataplane.vpp." +:+ key) v with inr x => Some x | inl _ => None end
     else old) key content.
Proof.
  unfold decodedEntry. rewrite lastEntry_cons. destruct (lastEntry key content); [done|]. by case_bool_decide.
Qed.

Lemma unmarshalSetting_spec s k v s' content :
  knownV2VPPSetting (Value k) = true → unmarshalSetting s (Value k) v = inr s' →
  settingsIn s' content = settingsIn s (k :: v :: content).
Proof.
  intros Hk H. unfold settingsIn. rewrite !decodedEntry_cons.
  apply bool_decide_eq_true in Hk. destruct s. unfold unmarshalSetting in H.
  repeat (apply elem_of_cons in Hk as [Hk|Hk]); [..|by apply elem_of_nil in Hk]; rewrite Hk in *;
    simpl in H; apply bindE_inv in H as (x & Hd & [= <-]); simpl; by rewrite Hd.
Qed.

Lemma unmarshalSettings_spec s content s' :
  unmarshalSettings s content = inr s' → s' = settingsIn s content.
Proof.
  remember (length content) as n eqn:Hn. revert s content Hn.
  induction (lt_wf n) as [n _ IH]. intros s [|k [|v content]] Hn; simpl;
    [by intros [= <-]; destruct s..|].
  destruct (knownV2VPPSetting (Value k)) eqn:Hk; [|done]. simpl. intros (s1 & Hs1 & H)%bindE_inv.
  rewrite <- (unmarshalSetting_spec _ _ _ _ _ Hk Hs1). apply (IH (length content)); [simpl in Hn; lia|done..].
Qed.

(** A duration setting written as an integer number of seconds is read exactly
    while its nanoseconds fit an int64; beyond, the multiplication wraps around: a
    setting of 18446744074 seconds is read as 0.29 seconds, which is positive, so no
    later check refuses it. *)
Theorem integer_duration_setting path value seconds :
  NodeKind value = ScalarNode → Tag value = "!!int" → DecodeInt64 value = Some seconds →
  (-9223372036 <= seconds <= 9223372036 → decodeV2DurationSetting path value = inr (seconds * Second))%Z ∧
  (seconds = 18446744074 → decodeV2DurationSetting path value = inr 290448384)%Z.
Proof.
  intros Hk Ht Hd. unfold decodeV2DurationSetting. rewrite Hk, Ht, Hd. simpl. split; [|by intros ->].
  intros ?. by rewrite wrapS_small by (unfold Second; lia).
Qed.

End Loading.
End Config.

Module ConfigExamples.
Import Yaml Config.

Definition scalar (tag value : string) : Node := mkNode ScalarNode tag value 1 [].
Definition vppNode (timeout : string) : Node :=
  mkNode MappingNode "!!map" "" 1
    [scalar "!!str" "connect_timeout"; scalar "!!int" timeout; scalar "!!str" "dscp"; scalar "!!int" "12";
     scalar "!!str" "rolling_recreate_drain"; scalar "!!str" "1.5m"].
Definition zeroVPP : VPPDataPlaneConfig := Build_VPPDataPlaneConfig "" 0 0 "" 0 "" 0 false 0 "" 0 0.
Definition fileConfig (vpp : option VPPSettings) : V2Config :=
  {| Agent := {| ID := ""; StorePath := ""; ReconcileInterval := 0; StatusTTL := 0 |};
     Kubernetes := {| Kubeconfig := ""; Namespace := "edge"; ResyncInterval := Minute |};
     DataPlane := {| dp_Type := "vpp"; dp_VPP := vpp; dp_VPPConfig := zeroVPP |};
     Routing := {| rt_Enabled := true; rt_Type := "frr"; rt_VTYShPath := ""; rt_RouteTag := 0; rt_CmdTimeout := 0 |};
     Rollout := {| ro_Enabled := false; ro_LeaseNamespace := ""; ro_LeaseDuration := 0; ro_RetryInterval := 0 |};
     HealthCheck := {| hs_WorkerCount := 0; hs_MaxConcurrentChecks := 0; hs_DefaultTimeout := 0 |};
     Metrics := {| ms_Enabled := true; ms_Address := ""; ms_Path := "" |};
     Telemetry := {| OTLPEndpoint := ""; OTLPInsecure := false |};
     Log := {| lg_Level := ""; lg_Format := "" |} |}.

Definition decimal (s : string) : Z := foldl (λ a c, (a * 10 + (c - 48))%Z) 0%Z (bytes_of s).
(** A host named [edge-1]; a file is the timeout its VPP section gives. *)
Definition host : Environment VPPSettings V2Config :=
  {| Getenv := λ name, if bool_decide (name = "ARCA_AGENT_STATUS_TTL") then "90s" else "";
     Hostname := inr "edge-1";
     ReadFile := inr;
     DecodeNode := λ data i, match i with 0 => Decoded (vppNode data) | _ => AtEOF end;
     DecodeKnown := λ unmarshal data, bindE (unmarshal (vppNode data)) (λ s, inr (fileConfig (Some s)));
     DecodeBool := λ n, ParseBool (Value n);
     DecodeInt64 := λ n, Some (decimal (Value n));
     ParseFloat := λ _, None;
     outOfRange := λ _, 0%Z |}.

Definition loaded (timeout : string) : option V2Config :=
  match @LoadV2Config host timeout with inr c => Some c | inl _ => None end.


Lemma integer_duration_setting_witness :
  @decodeV2DurationSetting host "p" (scalar "!!int" "18446744074") = inr 290448384%Z ∧
  (λ c, ConnectTimeout (dp_VPPConfig (DataPlane c))) <$> loaded "18446744074" = Some 290448384%Z.
Proof.
  split; [|vm_compute; reflexivity].
  by apply (@integer_duration_setting host "p" (scalar "!!int" "18446744074") 18446744074).
Defined.

End ConfigExamples.
