(* ===== verification/Models.v ===== *)
(** * The version 1 resources (internal/common/models, internal/common/datastore/validation.go)

    The VIPs, health checks and backends of the controller's datastores, the
    untyped health check settings, and the checks every store makes before it
    writes.  The pointers are not nil here. *)

From Stdlib Require Import SpecFloat.
From stdpp Require Import base tactics list gmap strings pretty.
From S2P Require Import Prelude Types Net Validation Duration Config.

Module Models.
Import Validation.

(** ** Untyped settings: what [interface{}] holds after JSON decoding, or is given
    by a caller.  A map is in the order it is ranged over. *)
Inductive any :=
  | Nil
  | Bool (b : bool)
  | Int (z : Z)
  | Int32 (z : Z)
  | Int64 (z : Z)
  | Float (f : spec_float)
  | Str (s : string)
  | Slice (l : list any)
  | Ints (l : list Z)
  | Floats (l : list spec_float)
  | Object (m : list (string * any))
  | Strings (m : list (string * string)).
Abbreviation HCConfig := (gmap string any).

(** ** Resources.  A nil [Config] is [None]. *)
Record HealthCheck := {
  h_ID : string; h_VIPID : string; h_Type : string;
  h_IntervalSec : Z; h_TimeoutSec : Z; h_RiseCount : Z; h_FallCount : Z;
  h_Config : option HCConfig;
  h_CreatedAt : option Z; h_UpdatedAt : option Z;
}.
Record Backend := {
  b_ID : string; b_VIPID : string; b_IP : string; b_Weight : Z;
  b_CreatedAt : option Z; b_UpdatedAt : option Z;
}.
Record VIP := {
  v_ID : string; v_VIP : string; v_Port : Z; v_Protocol : string; v_LBMethod : string;
  v_EncapType : string; v_DSCP : option Z;
  v_CreatedAt : option Z; v_UpdatedAt : option Z;
  v_HealthCheck : option HealthCheck;
  v_Backends : list Backend;
}.
Definition LBMethodMaglev : string := "maglev".
(** [models.VIP{ID: id}] and [models.Backend{ID: id, VIPID: vipID}] *)
Definition emptyVIP (id : string) : VIP :=
  {| v_ID := id; v_VIP := ""; v_Port := 0; v_Protocol := ""; v_LBMethod := ""; v_EncapType := ""; v_DSCP := None;
     v_CreatedAt := None; v_UpdatedAt := None; v_HealthCheck := None; v_Backends := [] |}.
Definition emptyBackend (id vipID : string) : Backend :=
  {| b_ID := id; b_VIPID := vipID; b_IP := ""; b_Weight := 0; b_CreatedAt := None; b_UpdatedAt := None |}.
(** What agents are given (config.go). *)
Record VIPConfig := { vc_VIP : VIP; vc_HealthCheck : option HealthCheck; vc_Backends : list Backend }.
Record ConfigSnapshot := { cs_Revision : Z; cs_VIPs : list VIPConfig }.

(** ** Errors (errors.go) *)
Definition NotFound : err := ErrNotFound "resource not found".
Definition Conflict : err := ErrConflict "resource conflict".
Definition InvalidInput : err := ErrMsg "invalid input".
(** [fmt.Errorf("%w: ...", ErrInvalidInput)] *)
Definition invalid (what : string) : error := Some (ErrWrap "" InvalidInput (": " +:+ what)).
(** [errors.Is(err, ErrNotFound)] *)
Fixpoint isNotFound (e : err) : bool :=
  match e with
  | ErrNotFound _ => true
  | ErrWrap _ e _ => isNotFound e
  | _ => false
  end.

(** ** Formatted errors of the shared checks, evaluated *)
Fixpoint sprintf (format : list Z) (args : list (string * string)) : string :=
  match format with
  | 37 :: v :: format' =>
      match args with
      | (plain, quotedText) :: args' => (if (v =? 113)%Z then quotedText else plain) +:+ sprintf format' args'
      | [] => "%!" +:+ sprintf format' args
      end
  | c :: format' => String.String (Ascii.ascii_of_N (Z.to_N c)) (sprintf format' args)
  | [] => ""
  end%Z.
Fixpoint ferrText (e : ferr) : string :=
  match e with
  | Errorf format args =>
      sprintf (bytes_of format)
        ((fix texts (l : list farg) : list (string * string) :=
            match l with
            | [] => []
            | AStr s :: l => (s, quoted s) :: texts l
            | AInt z :: l => (pretty z, pretty z) :: texts l
            | AErr e :: l => (ferrText e, ferrText e) :: texts l
            end) args)
  end.
Definition toErr (e : option ferr) : error := (ErrMsg ∘ ferrText) <$> e.

(** ** url.Parse

    Whether a reference parses, and then whether it has a scheme and a host.  A
    host is taken as it is: one that is refused or accepted makes no difference
    to a check that refuses all of them. *)
Definition isAlpha (c : Z) : bool := ((65 <=? c) && (c <=? 90) || (97 <=? c) && (c <=? 122))%Z.
(** [getScheme]: the scheme, if any, and the rest; [None] for a leading colon. *)
Fixpoint getScheme (i : nat) (s all : list Z) : option (bool * list Z) :=
  match s with
  | [] => Some (false, all)
  | c :: s' =>
      if isAlpha c then getScheme (S i) s' all
      else if is_digit c || bool_decide (c ∈ [43; 45; 46]%Z) then
        if (i =? 0)%nat then Some (false, all) else getScheme (S i) s' all
      else if (c =? 58)%Z then if (i =? 0)%nat then None else Some (true, s')
      else Some (false, all)
  end.
(** [validUserinfo] *)
Definition userinfoByte (c : Z) : bool :=
  isAlpha c || is_digit c ||
  bool_decide (c ∈ [45; 46; 95; 58; 126; 33; 36; 38; 39; 40; 41; 42; 43; 44; 59; 61; 37; 64]%Z).
(** The authority without its host is the part up to the last [@]. *)
Fixpoint lastAt (s : list Z) : option (list Z * list Z) :=
  match s with
  | [] => None
  | c :: s' =>
      match lastAt s' with
      | Some (u, h) => Some (c :: u, h)
      | None => if (c =? 64)%Z then Some ([], s') else None
      end
  end.
(** Whether it has a host; [None] if the user information is refused. *)
Definition parseAuthority (s : list Z) : option bool :=
  match lastAt s with
  | None => Some (bool_decide (s ≠ []))
  | Some (userinfo, host) =>
      if bool_decide (host ≠ []) then Some true
      else if forallb userinfoByte userinfo && unescapes userinfo then Some false
      else None
  end.
Definition urlParse (path : string) : option (bool * bool) :=
  let '(u, frag) := cut 35 (bytes_of path) in
  if existsb isCTL u then None
  else
    match getScheme 0 u u with
    | None => None
    | Some (scheme, rest) =>
        let rest := (cut 63 rest).1 in
        let finish host path := if unescapes path && unescapes frag then Some (scheme, host) else None in
        if negb (hasPrefix [47]%Z rest) then
          if scheme then if unescapes frag then Some (true, false) else None
          else if bool_decide (58%Z ∈ (cut 47 rest).1) then None
          else finish false rest
        else if (scheme || negb (hasPrefix [47; 47; 47]%Z rest)) && hasPrefix [47; 47]%Z rest then
          let '(authority, path) := cut 47 (drop 2 rest) in
          match parseAuthority authority with
          | None => None
          | Some host => finish host path
          end
        else finish false rest
    end.

(** ** Health check settings (health_check_validation.go) *)
Section HealthChecks.
Context {H : HttpGuts}.
(** [int(f)] out of the range of an int64, which Go leaves to the machine. *)
Variable outOfRange : spec_float → Z.

Definition healthCheckInt (raw : any) : option Z :=
  match raw with
  | Int z | Int32 z | Int64 z => Some z
  | Float f =>
      match Duration.ftrunc f with
      | None => None
      | Some z =>
          match f with
          | S754_finite _ _ e => if (e <? 0)%Z && negb (SFeqb f (Duration.float64 z)) then None
                                 else Some (if ((- 2 ^ 63 <=? z) && (z <? 2 ^ 63))%Z then z else outOfRange f)
          | _ => Some z
          end
      end
  | _ => None
  end.

Definition present (config : HCConfig) (key : string) : option any :=
  match config !! key with None | Some Nil => None | Some raw => Some raw end.
Definition healthCheckConfigInt (config : HCConfig) (key : string) (minValue maxValue : Z) : err + Z :=
  match present config key with
  | None => inl (ErrMsg (key +:+ " is required"))
  | Some raw =>
      let fail := inl (ErrMsg (key +:+ " must be an integer between " +:+ pretty minValue +:+ " and " +:+ pretty maxValue)) in
      match healthCheckInt raw with
      | None => fail
      | Some value => if ((value <? minValue) || (maxValue <? value))%Z then fail else inr value
      end
  end.
Definition optionalStringHealthCheckConfig (config : HCConfig) (key : string) : error :=
  match present config key with
  | None | Some (Str _) => None
  | Some _ => Some (ErrMsg (key +:+ " must be a string"))
  end.
(** [raw.(string)] of a setting: [""] if it is another type. *)
Definition stringSetting (config : HCConfig) (key : string) : string :=
  match config !! key with Some (Str s) => s | _ => "" end.
Definition validateHTTPPathConfig (path : string) : error :=
  if bool_decide (path = "") then None
  else
    match urlParse path with
    | None => Some (ErrMsg "path must be a valid relative HTTP path")
    | Some (isAbs, host) => if isAbs || host then Some (ErrMsg "path must be a relative HTTP path") else None
    end.
(** [strings.ToUpper], as far as it yields ASCII letters of the methods: of the
    other runes only the long s (U+017F) has one as its upper case. *)
Fixpoint toUpper (s : list Z) : list Z :=
  match s with
  | [] => []
  | 197 :: 191 :: s => 83 :: toUpper s
  | c :: s => (if (97 <=? c) && (c <=? 122) then c - 32 else c) :: toUpper s
  end%Z.
Definition validateHTTPMethodConfig (method : string) : error :=
  if bool_decide (method = "") then None
  else if bool_decide (toUpper (bytes_of method) ∈ [bytes_of "GET"; bytes_of "HEAD"; bytes_of "POST"]) then None
  else Some (ErrMsg "method must be one of GET, HEAD, POST").
Definition validateHTTPHostHeaderConfig (host : string) : error :=
  match ValidateHTTPHostHeader host with
  | None => None
  | Some e => Some (ErrWrap "host_header " (ErrMsg (ferrText e)) "")
  end.
Definition validateExpectedCode (raw : any) : error :=
  let fail := Some (ErrMsg "expected_codes must be integers between 100 and 599") in
  match healthCheckInt raw with
  | None => fail
  | Some code => if ((code <? 100) || (599 <? code))%Z then fail else None
  end.
Fixpoint firstError {A} (f : A → error) (l : list A) : error :=
  match l with
  | [] => None
  | a :: l => match f a with Some e => Some e | None => firstError f l end
  end.
Definition validateExpectedCodes (raw : option any) : error :=
  match raw with
  | None => None
  | Some (Slice codes) => firstError validateExpectedCode codes
  | Some (Ints codes) => firstError (validateExpectedCode ∘ Int) codes
  | Some (Floats codes) => firstError (validateExpectedCode ∘ Float) codes
  | Some _ => Some (ErrMsg "expected_codes must be an array of integers")
  end.
Definition validateHeaders (raw : option any) : error :=
  match raw with
  | None => None
  | Some (Object headers) =>
      firstError (λ '(key, value),
        match value with
        | Nil => None
        | Str s => toErr (validateHTTPHeader key s)
        | _ => Some (ErrMsg "headers values must be strings")
        end) headers
  | Some (Strings headers) => toErr (firstHeaderError headers)
  | Some _ => Some (ErrMsg "headers must be an object")
  end.
Definition validateHTTPHealthCheckConfig (config : HCConfig) : error :=
  firstError id
    [optionalStringHealthCheckConfig config "path";
     validateHTTPPathConfig (stringSetting config "path");
     optionalStringHealthCheckConfig config "method";
     validateHTTPMethodConfig (stringSetting config "method");
     optionalStringHealthCheckConfig config "host_header";
     validateHTTPHostHeaderConfig (stringSetting config "host_header");
     match present config "tls_skip_verify" with
     | None | Some (Bool _) => None
     | Some _ => Some (ErrMsg "tls_skip_verify must be a boolean")
     end;
     validateExpectedCodes (present config "expected_codes");
     validateHeaders (present config "headers")].
Definition validateTCPHealthCheckConfig (config : HCConfig) : error :=
  firstError (optionalStringHealthCheckConfig config) ["send"; "expect"].

Definition ValidateHealthCheckConfig (hcType : string) (config : option HCConfig) : error :=
  if bool_decide (hcType ∈ [HCTypeHTTP; HCTypeHTTPS; HCTypeTCP; HCTypeTLSHello]) then
    match config with
    | None => Some (ErrMsg ("config is required for " +:+ hcType +:+ " health checks"))
    | Some config =>
        match healthCheckConfigInt config "port" 1 65535 with
        | inl e => Some e
        | inr _ =>
            if bool_decide (hcType ∈ [HCTypeHTTP; HCTypeHTTPS]) then validateHTTPHealthCheckConfig config
            else if bool_decide (hcType = HCTypeTCP) then validateTCPHealthCheckConfig config
            else None
        end
    end
  else if bool_decide (hcType = HCTypePing) then None
  else Some (ErrMsg ("unsupported health check type: " +:+ hcType)).

Definition outside (lo hi v : Z) (name : string) : error :=
  if ((v <? lo) || (hi <? v))%Z
  then Some (ErrMsg ("health check " +:+ name +:+ " must be between " +:+ pretty lo +:+ " and " +:+ pretty hi +:+ ", got " +:+ pretty v))
  else None.
Definition ValidateHealthCheckTiming (hc : HealthCheck) : error :=
  firstError id
    [outside 1 MaxHealthCheckSeconds (h_IntervalSec hc) "interval_sec";
     outside 1 MaxHealthCheckSeconds (h_TimeoutSec hc) "timeout_sec";
     if (h_IntervalSec hc <=? h_TimeoutSec hc)%Z
     then Some (ErrMsg "health check timeout_sec must be less than interval_sec") else None;
     outside 1 MaxHealthCheckCount (h_RiseCount hc) "rise_count";
     outside 1 MaxHealthCheckCount (h_FallCount hc) "fall_count"].

(** ** Checks before a write (datastore/validation.go) *)
Definition MaxResourceIDBytes : nat := 256.
Fixpoint containsRune (rune : list Z → bool) (s : list Z) : bool :=
  match s with [] => false | _ :: s' => rune s || containsRune rune s' end.
Definition ValidateResourceID (field value : string) : error :=
  let s := bytes_of value in
  if bool_decide (value = "") then invalid (field +:+ " is required")
  else if (MaxResourceIDBytes <? length s)%nat
  then invalid (field +:+ " must be at most " +:+ pretty (Z.of_nat MaxResourceIDBytes) +:+ " bytes")
  else if bool_decide (47%Z ∈ s) then invalid (field +:+ " must not contain '/'")
  else if containsRune (λ s, bool_decide (is_Some (Config.spaceRune s))) s
  then invalid (field +:+ " must not contain whitespace")
  else if containsRune Config.controlRune s then invalid (field +:+ " must not contain control characters")
  else None.
Definition validateOptionalResourceID (field value : string) : error :=
  if bool_decide (value = "") then None else ValidateResourceID field value.

Definition validateVIPAddressFamily (ip : list Z) (encapType : string) : error :=
  let isIPv4 := bool_decide (is_Some (To4 ip)) in
  if EncapRequiresIPv4VIP encapType then
    if isIPv4 then None else invalid ("vip must be IPv4 when encap_type is " +:+ encapType)
  else if EncapRequiresIPv6VIP encapType then
    if isIPv4 then invalid ("vip must be IPv6 when encap_type is " +:+ encapType) else None
  else None.

Definition validateDSCP (encapType : string) (dscp : option Z) : error :=
  match dscp with
  | None => None
  | Some d =>
      if (63 <? d)%Z then invalid "vip dscp must be between 0 and 63"
      else if bool_decide (encapType = EncapTypeL3DSR) && (d =? 0)%Z
      then invalid "vip dscp must be between 1 and 63 for L3DSR" else None
  end.
Definition validateHealthCheckForWrite (hc : option HealthCheck) : error :=
  match hc with
  | None => None
  | Some hc =>
      match ValidateHealthCheckTiming hc with
      | Some e => invalid (errString e)
      | None =>
          match ValidateHealthCheckConfig (h_Type hc) (h_Config hc) with
          | Some e => invalid ("invalid health check config: " +:+ errString e)
          | None => None
          end
      end
  end.
Definition ValidateVIPForWrite (vip : VIP) : error :=
  match validateOptionalResourceID "vip id" (v_ID vip), ParseIP (v_VIP vip) with
  | Some e, _ => Some e
  | None, None => invalid "vip must be a valid IP address"
  | None, Some ip =>
      let encapType := EffectiveEncapType (v_EncapType vip) in
      firstError id
        [if ((v_Port vip <? 1) || (65535 <? v_Port vip))%Z then invalid "vip port must be between 1 and 65535" else None;
         if bool_decide (v_Protocol vip ∈ [ProtocolTCP; ProtocolUDP]) then None
         else invalid "vip protocol must be TCP or UDP";
         if bool_decide (v_LBMethod vip ∈ [""; LBMethodMaglev]) then None else invalid "vip lb_method is unsupported";
         if bool_decide (v_EncapType vip = "") || IsValidEncapType (v_EncapType vip) then None
         else invalid "vip encap_type is unsupported";
         validateVIPAddressFamily ip encapType;
         validateDSCP encapType (v_DSCP vip);
         validateHealthCheckForWrite (v_HealthCheck vip)]
  end.

Definition ValidateBackendFieldsForWrite (backend : Backend) : error :=
  firstError id
    [validateOptionalResourceID "backend id" (b_ID backend);
     match ParseIP (b_IP backend) with Some _ => None | None => invalid "backend ip must be a valid IP address" end;
     if ((b_Weight backend <? 1) || (100 <? b_Weight backend))%Z
     then invalid "backend weight must be between 1 and 100" else None].
Definition ValidateBackendForWrite (backend : Backend) : error :=
  firstError id [ValidateBackendFieldsForWrite backend; ValidateResourceID "backend vip_id" (b_VIPID backend)].

Definition ValidateBackendIPFamilyForVIP (vip : VIP) (backendIP : string) : error :=
  match ParseIP backendIP with
  | None => invalid "backend ip must be a valid IP address"
  | Some ip =>
      let encapType := EffectiveEncapType (v_EncapType vip) in
      let isIPv4 := bool_decide (is_Some (To4 ip)) in
      if EncapRequiresIPv4Backend encapType then
        if isIPv4 then None else invalid ("backend ip must be IPv4 when encap_type is " +:+ encapType)
      else if EncapRequiresIPv6Backend encapType then
        if isIPv4 then invalid ("backend ip must be IPv6 when encap_type is " +:+ encapType) else None
      else None
  end.
Definition ValidateBackendAddressFamilyForVIP (vip : VIP) (backend : Backend) : error :=
  ValidateBackendIPFamilyForVIP vip (b_IP backend).
Definition ValidateBackendFamiliesForVIP (vip : VIP) (backends : list Backend) : error :=
  firstError (ValidateBackendAddressFamilyForVIP vip) backends.

End HealthChecks.

Lemma noError_each {A} (f : A → error) l : firstError f l = None → ∀ a, a ∈ l → f a = None.
Proof.
  induction l as [|a l IH]; simpl; [by intros _ a ?%elem_of_nil|]. destruct (f a) eqn:Hf; [done|].
  intros H x [->|Hx]%elem_of_cons; auto.
Qed.
End Models.
