(* ===== verification/Etcd.v ===== *)
(** * The etcd datastore (internal/common/datastore/etcd)

    Every operation of the store is a sequence of calls of the etcd client, between
    which other clients run: a tree of calls, whose branches are the answers.  The
    loops end with the deadline every request has; a number of rounds stands for it.
    etcd itself is the class [Etcd] with its documented behaviour as laws: reads see
    the current keys, a transaction applies all of its operations at once when all
    of its comparisons hold, and a call that fails may or may not have been applied. *)

From Stdlib Require Import SpecFloat.
From stdpp Require Import base tactics list gmap strings pretty.
From S2P Require Import Prelude Types Net Store Validation Duration Config Models.

Module Etcd.
Import Models Validation.

(** ** etcd *)
Record KV := { Value : string; ModRevision : Z; Version : Z }.
Inductive Cmp :=
  | VersionIs (key : string) (n : Z)
  | VersionAbove (key : string) (n : Z)
  | ValueIs (key : string) (value : string)
  | ModRevisionIs (key : string) (revision : Z).
(** A deletion has the end of its range, [""] for a single key. *)
Inductive Op := OpPut (key value : string) | OpDelete (key rangeEnd : string) | OpGet (key : string).
Definition isRead (o : Op) : bool := match o with OpGet _ => true | _ => false end.

(** Byte order of strings. *)
Fixpoint bytesLt (a b : list Z) : bool :=
  match a, b with
  | _, [] => false
  | [], _ :: _ => true
  | x :: a, y :: b => (x <? y)%Z || ((x =? y)%Z && bytesLt a b)
  end.
Definition strLt (a b : string) : bool := bytesLt (bytes_of a) (bytes_of b).
(** The end ["\000"] stands for no end. *)
Definition noEnd : string := String.String Ascii.zero "".
Definition inRange (k from rangeEnd : string) : bool :=
  if bool_decide (rangeEnd = "") then bool_decide (k = from)
  else if bool_decide (rangeEnd = noEnd) then negb (strLt k from)
  else negb (strLt k from) && strLt k rangeEnd.

Definition holds (s : gmap string KV) (c : Cmp) : bool :=
  match c with
  | VersionIs k n => (default 0%Z (Version <$> s !! k) =? n)%Z
  | VersionAbove k n => (n <? default 0%Z (Version <$> s !! k))%Z
  | ValueIs k v => bool_decide (Value <$> s !! k = Some v)
  | ModRevisionIs k r => (default 0%Z (ModRevision <$> s !! k) =? r)%Z
  end.
(** One operation of a transaction at a revision. *)
Definition applyOp (revision : Z) (s : gmap string KV) (o : Op) : gmap string KV :=
  match o with
  | OpPut k v =>
      <[k := {| Value := v; ModRevision := revision; Version := default 0%Z (Version <$> s !! k) + 1 |}]> s
  | OpDelete k rangeEnd => filter (λ kv, inRange kv.1 k rangeEnd = false) s
  | OpGet _ => s
  end.
Definition applyOps (revision : Z) (ops : list Op) (s : gmap string KV) : gmap string KV :=
  foldl (applyOp revision) s ops.

Class Etcd (E : Type) := {
  view : E → gmap string KV;
  revisionOf : E → Z;
  etcdGet : string → ST E (err + option KV);
  etcdList : string → ST E (err + list (string * KV));
  etcdTxn : list Cmp → list Op → ST E (err + bool);
}.

(** [GetPrefixRangeEnd]: the last byte that is not 255, incremented; what ends in
    such bytes is cut off. *)
Fixpoint prefixEndRev (s : list Z) : list Z :=
  match s with
  | [] => []
  | c :: s => if (c <? 255)%Z then (c + 1)%Z :: s else prefixEndRev s
  end.
Definition string_of (s : list Z) : string := String.string_of_list_ascii ((λ c, Ascii.ascii_of_N (Z.to_N c)) <$> s).
Definition prefixEnd (p : string) : string :=
  match prefixEndRev (reverse (bytes_of p)) with
  | [] => noEnd
  | s => string_of (reverse s)
  end.
Definition OpDeletePrefix (p : string) : Op := OpDelete p (prefixEnd p).
Definition hasPrefixS (p k : string) : bool := hasPrefix (bytes_of p) (bytes_of k).

(** ** Programs of calls *)
Inductive prog (A : Type) : Type :=
  | Ret (a : A)
  | Get (key : string) (c : err + option KV → prog A)
  | ListPrefix (prefix : string) (c : err + list (string * KV) → prog A)
  | Txn (cmps : list Cmp) (ops : list Op) (c : err + bool → prog A)
  | Now (c : Z → prog A)
  | NewUUID (c : string → prog A).
Arguments Ret {A}. Arguments Get {A}. Arguments ListPrefix {A}. Arguments Txn {A}. Arguments Now {A}. Arguments NewUUID {A}.

Fixpoint bindP {A B} (m : prog A) (k : A → prog B) : prog B :=
  match m with
  | Ret a => k a
  | Get key c => Get key (λ r, bindP (c r) k)
  | ListPrefix p c => ListPrefix p (λ r, bindP (c r) k)
  | Txn cmps ops c => Txn cmps ops (λ r, bindP (c r) k)
  | Now c => Now (λ r, bindP (c r) k)
  | NewUUID c => NewUUID (λ r, bindP (c r) k)
  end.
#[global] Instance prog_ret : MRet prog := λ A a, Ret a.
#[global] Instance prog_bind : MBind prog := λ A B k m, bindP m k.

(** [if err != nil { return ..., err }] *)
Definition try {A B} (m : prog (err + A)) (k : A → prog (err + B)) : prog (err + B) :=
  r ← m; match r with inl e => mret (inl e) | inr a => k a end.
Notation "x ←? m ; k" := (try m (λ x, k)) (at level 20, m at level 100, k at level 200, right associativity).
(** The same with the error wrapped. *)
Definition wrapping {A} (prefix : string) (m : prog (err + A)) : prog (err + A) :=
  r ← m; mret (match r with inl e => inl (errorf prefix e) | inr a => inr a end).
Definition check {B} (e : error) (k : prog (err + B)) : prog (err + B) :=
  match e with Some e => mret (inl e) | None => k end.
Definition lift {A} (r : err + A) : prog (err + A) := mret r.

(** ** strconv *)
Fixpoint parseDigits (acc : Z) (s : list Z) : option Z :=
  match s with
  | [] => Some acc
  | c :: s => if is_digit c then parseDigits (acc * 10 + (c - 48)) s else None
  end.
Definition ParseInt (s : string) : option Z :=
  let parse neg s :=
    match s with
    | [] => None
    | _ => match parseDigits 0 s with
           | None => None
           | Some n => let z := if neg : bool then (- n)%Z else n in
                       if ((- 2 ^ 63 <=? z) && (z <? 2 ^ 63))%Z then Some z else None
           end
    end in
  match bytes_of s with
  | [] => None
  | c :: s => if (c =? 45)%Z then parse true s else if (c =? 43)%Z then parse false s else parse false (c :: s)
  end.
Definition FormatInt (z : Z) : string := pretty z.

(** [url.PathEscape]: the bytes that stay, and percent encoding for the others. *)
Definition unreserved (c : Z) : bool :=
  isAlpha c || is_digit c ||
  bool_decide (c ∈ [45; 95; 46; 126; 36; 38; 43; 58; 61; 64]%Z).
Definition upperHex (n : Z) : Z := if (n <? 10)%Z then (48 + n)%Z else (55 + n)%Z.
Fixpoint pathEscape (s : list Z) : list Z :=
  match s with
  | [] => []
  | c :: s => (if unreserved c then [c] else [37; upperHex (Z.shiftr c 4); upperHex (Z.land c 15)]) ++ pathEscape s
  end%Z.
Definition etcdKeyEscape (value : string) : string := string_of (pathEscape (bytes_of value)).

Section Operations.
Context {G : HttpGuts} {CV : Codec VIP} {CB : Codec Backend}.
Variable outOfRange : spec_float → Z.
Variable keyPrefix : string.
(** Rounds of a loop before the deadline. *)
Variable rounds : nat.
Definition deadline : err := ErrContext "context deadline exceeded".

(** ** Keys (client.go, index.go) *)
Definition vipKey (id : string) : string := keyPrefix +:+ "/vips/" +:+ id.
Definition vipPrefix : string := keyPrefix +:+ "/vips/".
Definition backendKey (vipID backendID : string) : string := keyPrefix +:+ "/backends/" +:+ vipID +:+ "/" +:+ backendID.
Definition backendPrefix (vipID : string) : string := keyPrefix +:+ "/backends/" +:+ vipID +:+ "/".
Definition revisionKey : string := keyPrefix +:+ "/revision".
Definition backendIndexKey (backendID : string) : string := keyPrefix +:+ "/backend-index/" +:+ backendID.
Definition backendIndexPrefix : string := keyPrefix +:+ "/backend-index/".
Definition vipTupleIndexKey (vip : VIP) : string :=
  keyPrefix +:+ "/vip-index/" +:+ v_Protocol vip +:+ "/" +:+ pretty (v_Port vip) +:+ "/" +:+ etcdKeyEscape (v_VIP vip).
Definition backendIPIndexKey (vipID ip : string) : string :=
  keyPrefix +:+ "/backend-ip-index/" +:+ vipID +:+ "/" +:+ etcdKeyEscape ip.
Definition backendIPIndexPrefix (vipID : string) : string := keyPrefix +:+ "/backend-ip-index/" +:+ vipID +:+ "/".
Definition sameVIPTuple (a b : VIP) : bool :=
  bool_decide (v_VIP a = v_VIP b) && (v_Port a =? v_Port b)%Z && bool_decide (v_Protocol a = v_Protocol b).

(** ** The revision (revision.go) *)
Definition etcdTxnCheck : Type := Cmp * err.

Definition initRevision : prog (err + unit) :=
  wrapping "failed to initialize revision in etcd: "
    (_ ←? Txn [VersionIs revisionKey 0] [OpPut revisionKey "1"] Ret; mret (inr tt)).

Definition getRevisionValue : prog (err + string) :=
  kv ←? wrapping "failed to get revision from etcd: " (Get revisionKey Ret);
  mret (match kv with None => inl (ErrMsg "revision not found") | Some kv => inr (Value kv) end).
Definition parseRevision (value : string) : err + Z :=
  match ParseInt value with
  | None => inl (errorf "failed to parse revision: " (ErrMsg ("strconv.ParseInt: parsing " +:+ quoted value +:+ ": invalid syntax")))
  | Some n => inr n
  end.
Definition GetRevision : prog (err + Z) :=
  value ←? getRevisionValue; mret (parseRevision value).

Fixpoint IncrementRevision (n : nat) : prog (err + Z) :=
  match n with
  | 0 => mret (inl (errorf "failed to get revision from etcd: " deadline))
  | S n =>
      currentValue ←? getRevisionValue;
      currentRevision ←? lift (parseRevision currentValue);
      let newRevision := wrapS 64 (currentRevision + 1) in
      ok ←? wrapping "failed to increment revision: "
              (Txn [ValueIs revisionKey currentValue] [OpPut revisionKey (FormatInt newRevision)] Ret);
      if ok : bool then mret (inr newRevision) else IncrementRevision n
  end.

Fixpoint firstFailedEtcdTxnCheck (checks : list etcdTxnCheck) : prog (err + error) :=
  match checks with
  | [] => mret (inr None)
  | (cmp, e) :: checks =>
      ok ←? wrapping "failed to check transaction condition: " (Txn [cmp] [OpGet revisionKey] Ret);
      if ok : bool then firstFailedEtcdTxnCheck checks else mret (inr (Some e))
  end.
Fixpoint commitWithRevision (n : nat) (checks : list etcdTxnCheck) (ops : list Op) : prog (err + unit) :=
  match n with
  | 0 => mret (inl (errorf "failed to get revision from etcd: " deadline))
  | S n =>
      currentValue ←? getRevisionValue;
      currentRevision ←? lift (parseRevision currentValue);
      ok ←? wrapping "failed to commit revision transaction: "
              (Txn (ValueIs revisionKey currentValue :: checks.*1)
                   (ops ++ [OpPut revisionKey (FormatInt (wrapS 64 (currentRevision + 1)))]) Ret);
      if ok : bool then mret (inr tt)
      else
        failed ←? firstFailedEtcdTxnCheck checks;
        match failed with
        | Some e => mret (inl e)
        | None => commitWithRevision n checks ops
        end
  end.

(** ** Reading *)
Fixpoint unmarshalAll {A} `{Codec A} (what : string) (kvs : list (string * KV)) : err + list A :=
  match kvs with
  | [] => inr []
  | (_, kv) :: kvs =>
      match unmarshal (Value kv) with
      | inl e => inl (errorf ("failed to unmarshal " +:+ what +:+ ": ") e)
      | inr a => match unmarshalAll what kvs with inl e => inl e | inr l => inr (a :: l) end
      end
  end.

Definition getVIPWithModRevision (id : string) : prog (err + VIP * Z) :=
  kv ←? wrapping "failed to get VIP from etcd: " (Get (vipKey id) Ret);
  mret (match kv with
        | None => inl NotFound
        | Some kv =>
            match unmarshal (Value kv) with
            | inl e => inl (errorf "failed to unmarshal VIP: " e)
            | inr vip => inr (vip, ModRevision kv)
            end
        end).
Definition GetVIP (id : string) : prog (err + VIP) :=
  check (ValidateResourceID "vip id" id) (p ←? getVIPWithModRevision id; mret (inr p.1)).
Definition ListVIPs : prog (err + list VIP) :=
  kvs ←? wrapping "failed to list VIPs from etcd: " (ListPrefix vipPrefix Ret);
  mret (unmarshalAll "VIP" kvs).
Definition GetBackend (id : string) : prog (err + Backend) :=
  check (ValidateResourceID "backend id" id) (
  index ←? wrapping "failed to get backend index from etcd: " (Get (backendIndexKey id) Ret);
  match index with
  | None => mret (inl NotFound)
  | Some index =>
      kv ←? wrapping "failed to get backend from etcd: " (Get (backendKey (Value index) id) Ret);
      mret (match kv with
            | None => inl NotFound
            | Some kv =>
                match unmarshal (Value kv) with
                | inl e => inl (errorf "failed to unmarshal backend: " e)
                | inr backend => inr backend
                end
            end)
  end).
Definition ListBackends (vipID : string) : prog (err + list Backend) :=
  check (ValidateResourceID "backend vip_id" vipID) (
  kvs ←? wrapping "failed to list backends from etcd: " (ListPrefix (backendPrefix vipID) Ret);
  mret (unmarshalAll "backend" kvs)).

(** ** Indexes (index.go) *)
Definition checkVIPTupleAvailable (vip : VIP) : prog (err + unit) :=
  vips ←? ListVIPs;
  mret (if existsb (λ existing, bool_decide (v_ID existing ≠ v_ID vip) && sameVIPTuple existing vip) vips
        then inl Conflict else inr tt).
Definition checkBackendIPAvailable (backend : Backend) : prog (err + unit) :=
  backends ←? ListBackends (b_VIPID backend);
  mret (if existsb (λ existing, bool_decide (b_ID existing ≠ b_ID backend) && bool_decide (b_IP existing = b_IP backend)) backends
        then inl Conflict else inr tt).

Definition getIndexOwner (indexKey description : string) : prog (err + option string) :=
  kv ←? wrapping ("failed to get " +:+ description +:+ " from etcd: ") (Get indexKey Ret);
  mret (inr (Value <$> kv)).
(** The two claims differ in keys and messages: the owner of the index, after it was
    put there if there was none and the resource exists. *)
Fixpoint claimIndex (n : nat) (key indexKey id description resource : string) : prog (err + bool) :=
  match n with
  | 0 => mret (inl (errorf ("failed to get " +:+ description +:+ " from etcd: ") deadline))
  | S n =>
      owner ←? getIndexOwner indexKey description;
      match owner with
      | Some owner => mret (inr (bool_decide (owner = id)))
      | None =>
          ok ←? wrapping ("failed to ensure " +:+ description +:+ " in etcd: ")
                  (Txn [VersionAbove key 0; VersionIs indexKey 0] [OpPut indexKey id] Ret);
          if ok : bool then mret (inr true)
          else
            kv ←? wrapping ("failed to verify " +:+ resource +:+ " from etcd: ") (Get key Ret);
            match kv with
            | None => mret (inl NotFound)
            | Some _ => claimIndex n key indexKey id description resource
            end
      end
  end.
Definition claimVIPTupleIndex (vip : VIP) : prog (err + bool) :=
  claimIndex rounds (vipKey (v_ID vip)) (vipTupleIndexKey vip) (v_ID vip) "VIP tuple index" "VIP".
Definition claimBackendIPIndex (backend : Backend) : prog (err + bool) :=
  claimIndex rounds (backendKey (b_VIPID backend) (b_ID backend)) (backendIPIndexKey (b_VIPID backend) (b_IP backend))
    (b_ID backend) "backend IP index" "backend".

(** ** VIPs (vip.go) *)
Definition prepareHealthCheckForVIP (uuid : string) (vip : VIP) (existing : option VIP) (now : Z) : VIP :=
  match v_HealthCheck vip with
  | None => vip
  | Some hc =>
      let old := existing ≫= v_HealthCheck in
      let id := if bool_decide (h_ID hc = "") then
                  match old with
                  | Some old => if bool_decide (h_ID old ≠ "") then h_ID old else uuid
                  | None => uuid
                  end
                else h_ID hc in
      let created := match h_CreatedAt hc with
                     | Some t => Some t
                     | None => match old ≫= h_CreatedAt with Some t => Some t | None => Some now end
                     end in
      {| v_ID := v_ID vip; v_VIP := v_VIP vip; v_Port := v_Port vip; v_Protocol := v_Protocol vip;
         v_LBMethod := v_LBMethod vip; v_EncapType := v_EncapType vip; v_DSCP := v_DSCP vip;
         v_CreatedAt := v_CreatedAt vip; v_UpdatedAt := v_UpdatedAt vip;
         v_HealthCheck := Some
           {| h_ID := id; h_VIPID := v_ID vip; h_Type := h_Type hc; h_IntervalSec := h_IntervalSec hc;
              h_TimeoutSec := h_TimeoutSec hc; h_RiseCount := h_RiseCount hc; h_FallCount := h_FallCount hc;
              h_Config := h_Config hc; h_CreatedAt := created; h_UpdatedAt := Some now |};
         v_Backends := v_Backends vip |}
  end.
Definition stampVIP (id lbMethod : string) (created : option Z) (now : Z) (vip : VIP) : VIP :=
  {| v_ID := id; v_VIP := v_VIP vip; v_Port := v_Port vip; v_Protocol := v_Protocol vip;
     v_LBMethod := lbMethod; v_EncapType := v_EncapType vip; v_DSCP := v_DSCP vip;
     v_CreatedAt := created; v_UpdatedAt := Some now;
     v_HealthCheck := v_HealthCheck vip; v_Backends := v_Backends vip |}.
Definition newVIP (uuid hcUUID : string) (now : Z) (vip : VIP) : VIP :=
  prepareHealthCheckForVIP hcUUID
    (stampVIP (if bool_decide (v_ID vip = "") then uuid else v_ID vip)
       (if bool_decide (v_LBMethod vip = "") then LBMethodMaglev else v_LBMethod vip)
       (match v_CreatedAt vip with None => Some now | t => t end) now vip) None now.
Definition marshalling {A} `{Codec A} (what : string) (a : A) : prog (err + string) :=
  wrapping ("failed to marshal " +:+ what +:+ ": ") (lift (marshal a)).

(** The identifiers are generated whether they are needed or not.  The result is the
    object as the caller finds it afterwards. *)
Definition CreateVIP (vip : VIP) : prog (err + VIP) :=
  check (ValidateVIPForWrite outOfRange vip) (
  NewUUID (λ uuid, NewUUID (λ hcUUID, Now (λ now,
  let vip := newVIP uuid hcUUID now vip in
  data ←? marshalling "VIP" vip;
  _ ←? wrapping "failed to verify VIP tuple: " (checkVIPTupleAvailable vip);
  let key := vipKey (v_ID vip) in
  let indexKey := vipTupleIndexKey vip in
  _ ←? wrapping "failed to put VIP to etcd: "
         (commitWithRevision rounds [(VersionIs key 0, Conflict); (VersionIs indexKey 0, Conflict)]
            [OpPut key data; OpPut indexKey (v_ID vip)]);
  mret (inr vip))))).

(** What UpdateVIP commits. *)
Definition updateVIPChecks (vip existing : VIP) (revisionValue : string) (oldIndexOwned : bool) : list etcdTxnCheck :=
  let oldIndexKey := vipTupleIndexKey existing in
  let newIndexKey := vipTupleIndexKey vip in
  [(VersionAbove (vipKey (v_ID vip)) 0, NotFound); (ValueIs revisionKey revisionValue, Conflict)] ++
  (if oldIndexOwned then [(VersionAbove oldIndexKey 0, NotFound); (ValueIs oldIndexKey (v_ID vip), NotFound)] else []) ++
  (if bool_decide (oldIndexKey ≠ newIndexKey) then [(VersionIs newIndexKey 0, Conflict)] else []).
Definition updateVIPOps (vip existing : VIP) (data : string) (oldIndexOwned : bool) : list Op :=
  let oldIndexKey := vipTupleIndexKey existing in
  let newIndexKey := vipTupleIndexKey vip in
  [OpPut (vipKey (v_ID vip)) data] ++
  (if bool_decide (oldIndexKey ≠ newIndexKey) && oldIndexOwned then [OpDelete oldIndexKey ""] else []) ++
  [OpPut newIndexKey (v_ID vip)].
Definition UpdateVIP (vip : VIP) : prog (err + VIP) :=
  check (ValidateResourceID "vip id" (v_ID vip)) (
  check (ValidateVIPForWrite outOfRange vip) (
  revisionValue ←? getRevisionValue;
  existing ←? wrapping "VIP not found: " (GetVIP (v_ID vip));
  oldIndexOwned ←? wrapping "failed to ensure VIP tuple index: " (claimVIPTupleIndex existing);
  NewUUID (λ hcUUID, Now (λ now,
  let vip := prepareHealthCheckForVIP hcUUID (stampVIP (v_ID vip) (v_LBMethod vip) (v_CreatedAt existing) now vip)
               (Some existing) now in
  data ←? marshalling "VIP" vip;
  _ ←? wrapping "failed to verify VIP tuple: " (checkVIPTupleAvailable vip);
  backends ←? wrapping "failed to list backends for VIP validation: " (ListBackends (v_ID vip));
  check (ValidateBackendFamiliesForVIP vip backends) (
  _ ←? wrapping "failed to update VIP in etcd: "
         (commitWithRevision rounds (updateVIPChecks vip existing revisionValue oldIndexOwned)
            (updateVIPOps vip existing data oldIndexOwned));
  mret (inr vip)))))).

(** *** Indexes of backends left behind *)
Definition backendIndexKeysForVIP (vipID : string) : prog (err + list string) :=
  kvs ←? wrapping "failed to list backend indexes from etcd: " (ListPrefix backendIndexPrefix Ret);
  mret (inr (filter (λ p, Value p.2 = vipID) kvs).*1).
Fixpoint deleteIPIndexes (vipID : string) (kvs : list (string * KV)) : prog (err + unit) :=
  match kvs with
  | [] => mret (inr tt)
  | (indexKey, kv) :: kvs =>
      _ ←? wrapping "failed to delete backend IP indexes from etcd: "
             (Txn [ValueIs indexKey (Value kv); VersionIs (backendKey vipID (Value kv)) 0] [OpDelete indexKey ""] Ret);
      deleteIPIndexes vipID kvs
  end.
Definition deleteBackendIPIndexesForVIP (vipID : string) : prog (err + unit) :=
  kvs ←? wrapping "failed to list backend IP indexes from etcd: " (ListPrefix (backendIPIndexPrefix vipID) Ret);
  deleteIPIndexes vipID kvs.
(** [strings.TrimPrefix] *)
Definition trimPrefix (p s : string) : string :=
  if hasPrefixS p s then string_of (drop (length (bytes_of p)) (bytes_of s)) else s.
Fixpoint deleteIndexes (vipID : string) (indexKeys : list string) : prog (err + unit) :=
  match indexKeys with
  | [] => mret (inr tt)
  | indexKey :: indexKeys =>
      if negb (hasPrefixS backendIndexPrefix indexKey) then deleteIndexes vipID indexKeys
      else
        let backendID := trimPrefix backendIndexPrefix indexKey in
        _ ←? wrapping "failed to delete backend indexes from etcd: "
               (Txn [ValueIs indexKey vipID; VersionIs (backendKey vipID backendID) 0] [OpDelete indexKey ""] Ret);
        deleteIndexes vipID indexKeys
  end.
Definition deleteBackendIndexesForVIP (vipID : string) : prog (err + unit) :=
  _ ←? deleteBackendIPIndexesForVIP vipID;
  indexKeys ←? backendIndexKeysForVIP vipID;
  deleteIndexes vipID indexKeys.

(** A failure to find the VIP still cleans its indexes up; an error of that comes
    first. *)
Definition cleanupNotFound {A} (id : string) (m : prog (err + A)) : prog (err + A) :=
  r ← m;
  match r with
  | inr a => mret (inr a)
  | inl e =>
      let failed := inl (errorf "failed to delete VIP from etcd: " e) in
      if isNotFound e then _ ←? deleteBackendIndexesForVIP id; mret failed else mret failed
  end.
Definition deleteVIPChecks (id indexKey : string) (indexOwned : bool) : list etcdTxnCheck :=
  (VersionAbove (vipKey id) 0, NotFound) ::
  (if indexOwned then [(VersionAbove indexKey 0, NotFound); (ValueIs indexKey id, NotFound)] else []).
Definition deleteVIPOps (id indexKey : string) (indexOwned : bool) : list Op :=
  [OpDelete (vipKey id) ""; OpDeletePrefix (backendPrefix id)] ++ (if indexOwned then [OpDelete indexKey ""] else []).
Definition DeleteVIP (id : string) : prog (err + unit) :=
  check (ValidateResourceID "vip id" id) (
  vip ←? cleanupNotFound id (GetVIP id);
  indexOwned ←? wrapping "failed to ensure VIP tuple index: " (claimVIPTupleIndex vip);
  let indexKey := vipTupleIndexKey vip in
  _ ←? cleanupNotFound id
         (commitWithRevision rounds (deleteVIPChecks id indexKey indexOwned) (deleteVIPOps id indexKey indexOwned));
  deleteBackendIndexesForVIP id).

(** ** Backends (backend.go) *)
Definition stampBackend (id vipID : string) (created : option Z) (now : Z) (b : Backend) : Backend :=
  {| b_ID := id; b_VIPID := vipID; b_IP := b_IP b; b_Weight := b_Weight b; b_CreatedAt := created; b_UpdatedAt := Some now |}.
Definition addBackendChecks (backend : Backend) (parentVIPRevision : Z) : list etcdTxnCheck :=
  [(VersionAbove (vipKey (b_VIPID backend)) 0, NotFound);
   (ModRevisionIs (vipKey (b_VIPID backend)) parentVIPRevision, Conflict);
   (VersionIs (backendKey (b_VIPID backend) (b_ID backend)) 0, Conflict);
   (VersionIs (backendIndexKey (b_ID backend)) 0, Conflict);
   (VersionIs (backendIPIndexKey (b_VIPID backend) (b_IP backend)) 0, Conflict)].
Definition addBackendOps (backend : Backend) (data : string) : list Op :=
  [OpPut (backendKey (b_VIPID backend) (b_ID backend)) data;
   OpPut (backendIndexKey (b_ID backend)) (b_VIPID backend);
   OpPut (backendIPIndexKey (b_VIPID backend) (b_IP backend)) (b_ID backend)].
Definition AddBackend (backend : Backend) : prog (err + Backend) :=
  check (ValidateBackendForWrite backend) (
  NewUUID (λ uuid, Now (λ now,
  let backend := stampBackend (if bool_decide (b_ID backend = "") then uuid else b_ID backend) (b_VIPID backend)
                   (match b_CreatedAt backend with None => Some now | t => t end) now backend in
  data ←? marshalling "backend" backend;
  parent ←? wrapping "failed to verify VIP: " (getVIPWithModRevision (b_VIPID backend));
  check (ValidateBackendAddressFamilyForVIP parent.1 backend) (
  _ ←? wrapping "failed to verify backend IP: " (checkBackendIPAvailable backend);
  _ ←? wrapping "failed to put backend to etcd: "
         (commitWithRevision rounds (addBackendChecks backend parent.2) (addBackendOps backend data));
  mret (inr backend))))).

Definition updateBackendChecks (backend existing : Backend) (parentVIPRevision : Z) (oldIPIndexOwned : bool) : list etcdTxnCheck :=
  let key := backendKey (b_VIPID backend) (b_ID backend) in
  let indexKey := backendIndexKey (b_ID backend) in
  let oldIPIndexKey := backendIPIndexKey (b_VIPID existing) (b_IP existing) in
  let newIPIndexKey := backendIPIndexKey (b_VIPID backend) (b_IP backend) in
  [(VersionAbove (vipKey (b_VIPID backend)) 0, NotFound);
   (ModRevisionIs (vipKey (b_VIPID backend)) parentVIPRevision, Conflict);
   (VersionAbove key 0, NotFound); (VersionAbove indexKey 0, NotFound); (ValueIs indexKey (b_VIPID backend), NotFound)] ++
  (if oldIPIndexOwned then [(VersionAbove oldIPIndexKey 0, NotFound); (ValueIs oldIPIndexKey (b_ID backend), NotFound)] else []) ++
  (if bool_decide (oldIPIndexKey ≠ newIPIndexKey) then [(VersionIs newIPIndexKey 0, Conflict)] else []).
Definition updateBackendOps (backend existing : Backend) (data : string) (oldIPIndexOwned : bool) : list Op :=
  let oldIPIndexKey := backendIPIndexKey (b_VIPID existing) (b_IP existing) in
  let newIPIndexKey := backendIPIndexKey (b_VIPID backend) (b_IP backend) in
  [OpPut (backendKey (b_VIPID backend) (b_ID backend)) data; OpPut (backendIndexKey (b_ID backend)) (b_VIPID backend)] ++
  (if bool_decide (oldIPIndexKey ≠ newIPIndexKey) && oldIPIndexOwned then [OpDelete oldIPIndexKey ""] else []) ++
  [OpPut newIPIndexKey (b_ID backend)].
Definition UpdateBackend (backend : Backend) : prog (err + Backend) :=
  check (ValidateResourceID "backend id" (b_ID backend)) (
  check (ValidateBackendFieldsForWrite backend) (
  existing ←? wrapping "backend not found: " (GetBackend (b_ID backend));
  oldIPIndexOwned ←? wrapping "failed to ensure backend IP index: " (claimBackendIPIndex existing);
  Now (λ now,
  let backend := stampBackend (b_ID backend) (b_VIPID existing) (b_CreatedAt existing) now backend in
  check (ValidateBackendForWrite backend) (
  parent ←? wrapping "failed to verify VIP: " (getVIPWithModRevision (b_VIPID backend));
  check (ValidateBackendAddressFamilyForVIP parent.1 backend) (
  data ←? marshalling "backend" backend;
  _ ←? wrapping "failed to verify backend IP: " (checkBackendIPAvailable backend);
  _ ←? wrapping "failed to update backend in etcd: "
         (commitWithRevision rounds (updateBackendChecks backend existing parent.2 oldIPIndexOwned)
            (updateBackendOps backend existing data oldIPIndexOwned));
  mret (inr backend)))))).

Definition deleteBackendChecks (backend : Backend) (ipIndexOwned : bool) : list etcdTxnCheck :=
  let indexKey := backendIndexKey (b_ID backend) in
  let ipIndexKey := backendIPIndexKey (b_VIPID backend) (b_IP backend) in
  [(VersionAbove (backendKey (b_VIPID backend) (b_ID backend)) 0, NotFound);
   (VersionAbove indexKey 0, NotFound); (ValueIs indexKey (b_VIPID backend), NotFound)] ++
  (if ipIndexOwned then [(VersionAbove ipIndexKey 0, NotFound); (ValueIs ipIndexKey (b_ID backend), NotFound)] else []).
Definition deleteBackendOps (backend : Backend) (ipIndexOwned : bool) : list Op :=
  [OpDelete (backendKey (b_VIPID backend) (b_ID backend)) ""; OpDelete (backendIndexKey (b_ID backend)) ""] ++
  (if ipIndexOwned then [OpDelete (backendIPIndexKey (b_VIPID backend) (b_IP backend)) ""] else []).
Definition DeleteBackend (id : string) : prog (err + unit) :=
  check (ValidateResourceID "backend id" id) (
  backend ←? wrapping "failed to get backend: " (GetBackend id);
  ipIndexOwned ←? wrapping "failed to ensure backend IP index: " (claimBackendIPIndex backend);
  wrapping "failed to delete backend from etcd: "
    (commitWithRevision rounds (deleteBackendChecks backend ipIndexOwned) (deleteBackendOps backend ipIndexOwned))).

(** ** The configuration for agents (client.go) *)
Definition GetConfig : prog (err + ConfigSnapshot) :=
  vips ←? wrapping "failed to list VIPs: " ListVIPs;
  revision ←? wrapping "failed to get revision: " GetRevision;
  kvs ←? wrapping "failed to list backends from etcd: " (ListPrefix (keyPrefix +:+ "/backends/") Ret);
  backends ←? lift (unmarshalAll "backend" kvs);
  mret (inr {| cs_Revision := revision;
    cs_VIPs := (λ vip, {| vc_VIP := vip; vc_HealthCheck := v_HealthCheck vip;
                          vc_Backends := filter (λ b, b_VIPID b = v_ID vip) backends |}) <$> vips |}).

End Operations.
End Etcd.
