(* ===== verification/EtcdSafety.v ===== *)
(** * The etcd datastore under concurrent clients

    Any number of clients run the operations of [Etcd], interleaved at every call;
    calls may fail, before or after they were applied.  The invariant of the stored
    keys is shown by a rely-guarantee argument: what a client has read may have
    changed by the time it commits, except for what its comparisons pin down. *)

From Stdlib Require Import SpecFloat.
From stdpp Require Import base tactics list gmap strings pretty.
From S2P Require Import Prelude Types Net Store Validation Duration Config Models Etcd.

Module EtcdSafety.
Import Models Validation Etcd.

(** ** Strings and keys *)
Lemma app_assoc_s a b c : (a +:+ b) +:+ c = a +:+ (b +:+ c).
Proof. unfold String.app. induction a as [|x a IH]; simpl; [done|by rewrite IH]. Qed.
Lemma app_inj_l p a b : p +:+ a = p +:+ b → a = b.
Proof. unfold String.app. induction p as [|x p IH]; simpl; [done|]. intros [= ?]. auto. Qed.

Lemma bytes_app a b : bytes_of (a +:+ b) = bytes_of a ++ bytes_of b.
Proof. unfold bytes_of, String.app. induction a as [|x a IH]; simpl; [done|]. f_equal. exact IH. Qed.
Lemma string_bytes s : string_of (bytes_of s) = s.
Proof.
  unfold string_of, bytes_of. rewrite <- list_fmap_compose. etransitivity; [|apply String.string_of_list_ascii_of_string].
  f_equal. etransitivity; [|apply list_fmap_id]. apply list_fmap_ext. intros _ c _. unfold compose, code. simpl.
  rewrite N2Z.id. apply Ascii.ascii_N_embedding.
Qed.
Lemma bytes_inj a b : bytes_of a = bytes_of b → a = b.
Proof. intros H. by rewrite <- (string_bytes a), <- (string_bytes b), H. Qed.

Definition byte (c : Z) : Prop := (0 <= c < 256)%Z.
Lemma bytes_string s : Forall byte s → bytes_of (string_of s) = s.
Proof.
  intros Hs. unfold bytes_of, string_of. rewrite String.list_ascii_of_string_of_list_ascii, <- list_fmap_compose.
  etransitivity; [|apply list_fmap_id]. apply list_fmap_ext. intros i c Hi. unfold compose, code.
  assert (byte c) as Hc by (by eapply Forall_lookup_1). unfold byte in Hc.
  rewrite Ascii.N_ascii_embedding; simpl; lia.
Qed.
Lemma code_byte c : byte (code c).
Proof. unfold byte, code. pose proof (Ascii.N_ascii_bounded c). lia. Qed.
Lemma bytes_byte s : Forall byte (bytes_of s).
Proof. apply Forall_fmap, Forall_forall. intros c _. apply code_byte. Qed.

Lemma hasPrefixS_spec p k : hasPrefixS p k = true ↔ ∃ t, k = p +:+ t.
Proof.
  unfold hasPrefixS. assert (∀ a b, hasPrefix a b = true ↔ ∃ t, b = a ++ t) as H.
  { induction a as [|x a IH]; intros [|y b]; simpl; [naive_solver..|].
    rewrite andb_true_iff, Z.eqb_eq, IH. split; [intros [-> [t ->]]; by exists t|intros [t [= -> ->]]; eauto]. }
  rewrite H. split; [|intros [t ->]; exists (bytes_of t); apply bytes_app].
  intros [t Ht]. exists (string_of t). apply bytes_inj. rewrite bytes_app, bytes_string; [done|].
  pose proof (bytes_byte k) as Hk. rewrite Ht in Hk. by apply Forall_app in Hk as [_ Hk].
Qed.

(** A range that ends a prefix holds exactly the keys with the prefix. *)
Lemma bytesLt_prefix a c k :
  negb (bytesLt k (a ++ [c])) && bytesLt k (a ++ [(c + 1)%Z]) = hasPrefix (a ++ [c]) k.
Proof.
  revert k. induction a as [|x a IH]; intros [|y k]; simpl; try done.
  - destruct (Z.ltb_spec y c), (Z.eqb_spec y c), (Z.ltb_spec y (c + 1)), (Z.eqb_spec y (c + 1)), (Z.eqb_spec c y);
      try lia; destruct k; done.
  - rewrite <- IH. destruct (Z.ltb_spec y x), (Z.eqb_spec y x), (Z.eqb_spec x y); try lia; done.
Qed.
Lemma inRange_prefix k p q : p = q +:+ "/" → inRange k p (prefixEnd p) = hasPrefixS p k.
Proof.
  intros ->. unfold inRange, prefixEnd, hasPrefixS, strLt. rewrite bytes_app, reverse_app. simpl.
  change (bytes_of "/") with [47%Z]. simpl. rewrite reverse_cons, reverse_involutive.
  assert (Forall byte (bytes_of q ++ [48%Z])) as Hb.
  { apply Forall_app. split; [apply bytes_byte|]. constructor; [|constructor]. unfold byte. lia. }
  rewrite !bool_decide_eq_false_2; [rewrite bytes_string by done; exact (bytesLt_prefix _ 47 _)|..];
    intros He; apply (f_equal bytes_of) in He; rewrite bytes_string in He by done; destruct (bytes_of q) as [|? []]; done.
Qed.

(** *** Escaping *)
Lemma upperHex_inj a b : (0 <= a < 16)%Z → (0 <= b < 16)%Z → upperHex a = upperHex b → a = b.
Proof. unfold upperHex. intros ?? H. destruct (Z.ltb_spec a 10), (Z.ltb_spec b 10); lia. Qed.
Lemma nibbles c : byte c → (0 <= Z.shiftr c 4 < 16 ∧ 0 <= Z.land c 15 < 16 ∧ c = 16 * Z.shiftr c 4 + Z.land c 15)%Z.
Proof.
  unfold byte. intros Hc. rewrite Z.shiftr_div_pow2 by lia. change 15%Z with (Z.ones 4). rewrite Z.land_ones by lia.
  pose proof (Z.div_mod c (2 ^ 4)). pose proof (Z.mod_pos_bound c (2 ^ 4)).
  split_and!; try lia. all: change (2 ^ 4)%Z with 16%Z in *; lia.
Qed.
Lemma pathEscape_inj a b : Forall byte a → Forall byte b → pathEscape a = pathEscape b → a = b.
Proof.
  intros Ha. revert b. induction Ha as [|x a Hx Ha IH]; intros b Hb; destruct Hb as [|y b Hy Hb]; simpl; [done|..].
  1: destruct (unreserved y); done.
  1: destruct (unreserved x); done.
  destruct (unreserved x) eqn:Ex, (unreserved y) eqn:Ey; simpl; intros [= Hxy]; subst.
  - f_equal. by apply IH.
  - by vm_compute in Ex.
  - by vm_compute in Ey.
  - destruct (nibbles x Hx) as (? & ? & Ex'), (nibbles y Hy) as (? & ? & Ey').
    assert (x = y) as ->; [|f_equal; by apply IH].
    rewrite Ex', Ey'. f_equal; [f_equal|]; by apply upperHex_inj.
Qed.
Lemma pathEscape_byte s : Forall byte s → Forall byte (pathEscape s).
Proof.
  induction 1 as [|c s Hc Hs IH]; simpl; [constructor|]. apply Forall_app. split; [|done].
  destruct (nibbles c Hc) as (? & ? & _).
  destruct (unreserved c); rewrite !Forall_cons, Forall_nil; split_and!; try done;
    unfold byte, upperHex; try lia; case_match; lia.
Qed.
Lemma etcdKeyEscape_inj a b : etcdKeyEscape a = etcdKeyEscape b → a = b.
Proof.
  unfold etcdKeyEscape. intros He. apply (f_equal bytes_of) in He.
  rewrite !bytes_string in He by apply pathEscape_byte, bytes_byte.
  apply bytes_inj, pathEscape_inj; auto using bytes_byte.
Qed.

(** *** Numbers *)
Definition digitChar (c : Ascii.ascii) : Prop := is_digit (code c) = true.
Lemma pretty_N_char_digit n : (n < 10)%N → code (pretty_N_char n) = (48 + Z.of_N n)%Z.
Proof. intros Hn. destruct n as [|p]; [done|]. do 4 (destruct p as [p|p|]; try done; try lia). Qed.
Lemma parse_pretty_go x s : parseDigits 0 (bytes_of (pretty_N_go x s)) = parseDigits (Z.of_N x) (bytes_of s).
Proof.
  revert s. induction (N.lt_wf_0 x) as [x _ IH]. intros s. destruct (decide (0 < x)%N) as [Hx|Hx].
  - rewrite pretty_N_go_step by done. rewrite IH by (apply N.div_lt; lia).
    change (bytes_of (String (pretty_N_char (x `mod` 10)) s)) with (code (pretty_N_char (x `mod` 10)) :: bytes_of s).
    pose proof (N.mod_lt x 10 ltac:(lia)). cbn [parseDigits]. rewrite pretty_N_char_digit by lia.
    pose proof (N.div_mod x 10 ltac:(lia)) as Hdiv. remember (x `mod` 10)%N as m. remember (x `div` 10)%N as q.
    unfold is_digit. rewrite (proj2 (Z.leb_le 48 _)), (proj2 (Z.leb_le _ 57)) by lia. simpl. f_equal. lia.
  - assert (x = 0%N) as -> by lia. by rewrite pretty_N_go_0.
Qed.
Lemma ParseInt_Format n : (1 <= n < 2 ^ 63)%Z → ParseInt (FormatInt n) = Some n.
Proof.
  intros Hn. destruct n as [|p|p]; [lia| |lia]. unfold FormatInt.
  change (pretty (Z.pos p)) with (pretty_N_go (N.pos p) "").
  assert (parseDigits 0 (bytes_of (pretty_N_go (N.pos p) "")) = Some (Z.pos p)) as Hp
    by exact (parse_pretty_go (N.pos p) "").
  assert (∀ c, c ∈ bytes_of (pretty_N_go (N.pos p) "") → is_digit c = true) as Hd.
  { enough (∀ acc l z, parseDigits acc l = Some z → ∀ c, c ∈ l → is_digit c = true) as H by (intros; eapply H; eauto).
    intros acc l. revert acc. induction l as [|d l IH]; intros acc z; simpl; [by intros _ c ?%elem_of_nil|].
    destruct (is_digit d) eqn:Ed; [|done]. intros Hz c [->|Hc]%elem_of_cons; eauto. }
  unfold ParseInt. destruct (bytes_of (pretty_N_go (N.pos p) "")) as [|c l] eqn:Hl; [done|].
  specialize (Hd c ltac:(left)). unfold is_digit in Hd.
  apply andb_true_iff in Hd as [?%Z.leb_le ?%Z.leb_le].
  destruct (Z.eqb_spec c 45); [lia|]. destruct (Z.eqb_spec c 43); [lia|]. rewrite Hp.
  by rewrite (proj2 (Z.leb_le _ _)), (proj2 (Z.ltb_lt _ _)) by lia.
Qed.

(** *** Slashes *)
Lemma noSlash_bytes s : Store.noSlash s = true ↔ 47%Z ∉ bytes_of s.
Proof.
  unfold bytes_of. induction s as [|c s IH]; simpl; [split; [intros _; apply not_elem_of_nil|done]|].
  rewrite andb_true_iff, IH, not_elem_of_cons. apply and_iff_compat_r.
  rewrite negb_true_iff, Ascii.eqb_neq. split.
  - intros Hc Hne. apply Hc. rewrite <- (Ascii.ascii_N_embedding c). unfold code in Hne.
    by replace (Ascii.N_of_ascii c) with 47%N by lia.
  - by intros Hne ->.
Qed.
Lemma noSlash_digits s acc z : parseDigits acc (bytes_of s) = Some z → Store.noSlash s = true.
Proof.
  intros H. apply noSlash_bytes. revert acc H. induction (bytes_of s) as [|c l IH]; intros acc; simpl.
  - intros _. apply not_elem_of_nil.
  - destruct (is_digit c) eqn:Ed; [|done]. intros H. apply not_elem_of_cons. split; [|eauto]. by intros <-.
Qed.
Lemma noSlash_pretty (z : Z) : Store.noSlash (pretty z) = true.
Proof.
  assert (∀ p, Store.noSlash (pretty_N_go (N.pos p) "") = true) as H.
  { intros p. apply (noSlash_digits _ 0 (Z.pos p)). exact (parse_pretty_go (N.pos p) ""). }
  destruct z as [|p|p]; [done|exact (H p)|exact (H p)].
Qed.

(** ** What JSON keeps of a resource

    [json.Marshal] replaces bytes that are not UTF-8, and numbers of the untyped
    settings come back as floating point; of what is written in ASCII the identity
    and the encapsulation come back. *)
Definition ascii (s : string) : Prop := Forall (λ c, c < 128)%Z (bytes_of s).
Definition sameVIP (v w : VIP) : Prop :=
  v_ID v = v_ID w ∧ v_VIP v = v_VIP w ∧ v_Port v = v_Port w ∧ v_Protocol v = v_Protocol w ∧ v_EncapType v = v_EncapType w.
Definition sameBackend (b c : Backend) : Prop := b_ID b = b_ID c ∧ b_VIPID b = b_VIPID c ∧ b_IP b = b_IP c.
Class ResourceCodecs `{Codec VIP} `{Codec Backend} : Prop := {
  vip_codec : ∀ (v : VIP) data, marshal v = inr data →
    ascii (v_ID v) → ascii (v_VIP v) → ascii (v_Protocol v) → ascii (v_EncapType v) →
    ∃ w, unmarshal data = inr w ∧ sameVIP v w;
  backend_codec : ∀ (b : Backend) data, marshal b = inr data → ascii (b_ID b) → ascii (b_VIPID b) → ascii (b_IP b) →
    ∃ c, unmarshal data = inr c ∧ sameBackend b c;
}.

(** ** The laws of etcd *)
Class EtcdLaws (E : Type) `{Etcd E} : Prop := {
  get_law : ∀ (e : E) k r e', etcdGet k e = (r, e') →
    view e' = view e ∧ revisionOf e' = revisionOf e ∧ ∀ v, r = inr v → v = view e !! k;
  list_law : ∀ (e : E) p r e', etcdList p e = (r, e') →
    view e' = view e ∧ revisionOf e' = revisionOf e ∧
    ∀ l, r = inr l → ∀ k kv, (k, kv) ∈ l ↔ view e !! k = Some kv ∧ hasPrefixS p k = true;
  txn_law : ∀ (e : E) cmps ops r e', etcdTxn cmps ops e = (r, e') →
    let unchanged := view e' = view e ∧ revisionOf e' = revisionOf e in
    let applied := forallb (holds (view e)) cmps = true ∧
      if forallb isRead ops then unchanged
      else (revisionOf e < revisionOf e')%Z ∧ view e' = applyOps (revisionOf e') ops (view e) in
    match r with
    | inr true => applied
    | inr false => unchanged ∧ forallb (holds (view e)) cmps = false
    | inl _ => unchanged ∨ applied
    end;
  revision_int64 : ∀ e : E, (revisionOf e < 2 ^ 63)%Z;
}.

Section Safety.
Context {G : HttpGuts} {CV : Codec VIP} {CB : Codec Backend} {RC : ResourceCodecs}.
Variable outOfRange : spec_float → Z.
Variable keyPrefix : string.
Variable rounds : nat.
#[local] Abbreviation vipKey := (vipKey keyPrefix).
#[local] Abbreviation backendKey := (backendKey keyPrefix).
#[local] Abbreviation revisionKey := (revisionKey keyPrefix).
#[local] Abbreviation backendIndexKey := (backendIndexKey keyPrefix).
#[local] Abbreviation vipTupleIndexKey := (vipTupleIndexKey keyPrefix).
#[local] Abbreviation backendIPIndexKey := (backendIPIndexKey keyPrefix).

(** ** Distinct resources have distinct keys *)
Ltac keys := unfold Etcd.vipKey, Etcd.backendKey, Etcd.revisionKey, Etcd.backendIndexKey,
  Etcd.vipTupleIndexKey, Etcd.backendIPIndexKey, Etcd.backendIPIndexPrefix, Etcd.backendIndexPrefix,
  Etcd.vipPrefix, Etcd.backendPrefix in *.
Ltac diffkeys := keys; rewrite ?app_assoc_s; intros ?%app_inj_l; discriminate.

Lemma vipKey_inj a b : vipKey a = vipKey b → a = b.
Proof. keys. intros [= H]%app_inj_l. exact H. Qed.
Lemma backendIndexKey_inj a b : backendIndexKey a = backendIndexKey b → a = b.
Proof. keys. intros [= H]%app_inj_l. exact H. Qed.
Lemma backendKey_inj a b c d :
  Store.noSlash a = true → Store.noSlash c = true → backendKey a b = backendKey c d → a = c ∧ b = d.
Proof. keys. intros Ha Hc [= H]%app_inj_l. by apply Store.slash_split in H. Qed.
Lemma vipTupleIndexKey_inj v w :
  Store.noSlash (v_Protocol v) = true → Store.noSlash (v_Protocol w) = true → vipTupleIndexKey v = vipTupleIndexKey w →
  v_Protocol v = v_Protocol w ∧ v_Port v = v_Port w ∧ v_VIP v = v_VIP w.
Proof.
  keys. intros Hv Hw [= H]%app_inj_l. apply Store.slash_split in H as [? H]; [|done..].
  apply Store.slash_split in H as [?%(inj pretty) ?%etcdKeyEscape_inj]; auto using noSlash_pretty.
Qed.
(** Keys that are neither a VIP, nor a backend, nor the revision. *)
Definition indexLike (k : string) : Prop :=
  (∀ id, k ≠ vipKey id) ∧ (∀ vid bid, k ≠ backendKey vid bid) ∧ k ≠ revisionKey.
Lemma tupleIndex_like v : indexLike (vipTupleIndexKey v).
Proof. split_and!; [intros ?|intros ??|]; diffkeys. Qed.
Lemma ipIndex_like v ip : indexLike (backendIPIndexKey v ip).
Proof. split_and!; [intros ?|intros ??|]; diffkeys. Qed.
Lemma backendIndex_like b : indexLike (backendIndexKey b).
Proof. split_and!; [intros ?|intros ??|]; diffkeys. Qed.
Lemma ipIndex_prefix v k : hasPrefixS (backendIPIndexPrefix keyPrefix v) k = true →
  indexLike k ∧ (∀ w, k ≠ vipTupleIndexKey w) ∧ (∀ b, k ≠ backendIndexKey b).
Proof.
  intros [t ->]%hasPrefixS_spec. split_and!; [split_and!; [intros ?|intros ??|]|intros ?|intros ?]; diffkeys.
Qed.

(** ** The stored state *)
Definition St : Type := gmap string KV * Z.
Definition revnum (s : St) : Z := default 0%Z ((Value <$> s.1 !! revisionKey) ≫= ParseInt).

Record VIPOk (s : gmap string KV) (id : string) (vip : VIP) : Prop := {
  vo_id : v_ID vip = id;
  vo_slash : Store.noSlash id = true;
  vo_ascii : ascii id;
  vo_protocol : Store.noSlash (v_Protocol vip) = true;
  vo_index : Value <$> s !! vipTupleIndexKey vip = Some id;
}.
Record BackendOk (s : gmap string KV) (vid bid : string) (b : Backend) : Prop := {
  ok_id : b_ID b = bid;
  ok_vip : b_VIPID b = vid;
  ok_slash : Store.noSlash bid = true;
  ok_ascii : ascii bid;
  ok_parent : ∃ kv vip, s !! vipKey vid = Some kv ∧ unmarshal (Value kv) = inr vip ∧
    ValidateBackendAddressFamilyForVIP vip b = None;
  ok_index : Value <$> s !! backendIndexKey bid = Some vid;
}.
Record Inv (s : St) : Prop := {
  inv_revision : ∃ kv n, s.1 !! revisionKey = Some kv ∧ Value kv = FormatInt n ∧ (1 <= n <= s.2)%Z;
  inv_version : ∀ k kv, s.1 !! k = Some kv → (1 <= Version kv)%Z;
  inv_mod : ∀ k kv, s.1 !! k = Some kv → (ModRevision kv <= s.2)%Z;
  inv_int64 : (s.2 < 2 ^ 63)%Z;
  inv_vip : ∀ id kv, s.1 !! vipKey id = Some kv → ∃ vip, unmarshal (Value kv) = inr vip ∧ VIPOk s.1 id vip;
  inv_backend : ∀ vid bid kv, Store.noSlash vid = true → s.1 !! backendKey vid bid = Some kv →
    ∃ b, unmarshal (Value kv) = inr b ∧ BackendOk s.1 vid bid b;
  inv_index : ∀ bid kv, s.1 !! backendIndexKey bid = Some kv → Store.noSlash (Value kv) = true;
}.

(** What other clients leave: revisions grow; while the revision number stays the VIPs
    and backends do; and a VIP with an old modification revision is unchanged. *)
Record rely (s s' : St) : Prop := {
  rl_rev : (s.2 <= s'.2)%Z;
  rl_num : (revnum s <= revnum s')%Z;
  rl_same : revnum s = revnum s' → (∀ id, s'.1 !! vipKey id = s.1 !! vipKey id) ∧
    (∀ vid bid, s'.1 !! backendKey vid bid = s.1 !! backendKey vid bid);
  rl_mod : ∀ id kv, s'.1 !! vipKey id = Some kv → (ModRevision kv <= s.2)%Z → s.1 !! vipKey id = Some kv;
}.
#[global] Instance rely_preorder : PreOrder rely.
Proof.
  split.
  - intros s. by split.
  - intros s1 s2 s3 [R1 N1 S1 M1] [R2 N2 S2 M2]. split; [lia|lia| |].
    + intros Hn. destruct S1 as [V1 B1]; [lia|]. destruct S2 as [V2 B2]; [lia|].
      split; [intros id; by rewrite V2|intros vid bid; by rewrite B2].
    + intros id kv Hk Hm. apply M1; [|done]. apply M2; [done|]. lia.
Qed.

(** ** Safe programs *)
Fixpoint safe {A} (p : prog A) (Q : A → St → Prop) (s : St) : Prop :=
  match p with
  | Ret a => Q a s
  | Get k c => ∀ s', rely s s' → Inv s' → ∀ r, (∀ v, r = inr v → v = s'.1 !! k) → safe (c r) Q s'
  | ListPrefix p c => ∀ s', rely s s' → Inv s' → ∀ r,
      (∀ l, r = inr l → ∀ k kv, (k, kv) ∈ l ↔ s'.1 !! k = Some kv ∧ hasPrefixS p k = true) → safe (c r) Q s'
  | Txn cmps ops c => ∀ s', rely s s' → Inv s' →
      (∀ r, r ≠ inr true → (r = inr false → forallb (holds s'.1) cmps = false) → safe (c r) Q s') ∧
      (forallb (holds s'.1) cmps = true →
       if forallb isRead ops then safe (c (inr true)) Q s'
       else ∀ rev, (s'.2 < rev < 2 ^ 63)%Z →
         let s'' := (applyOps rev ops s'.1, rev) in
         Inv s'' ∧ rely s' s'' ∧ ∀ r, r ≠ inr false → safe (c r) Q s'')
  | Now c => ∀ t, safe (c t) Q s
  | NewUUID c => ∀ u, Store.noSlash u = true → ascii u → safe (c u) Q s
  end.

Lemma safe_bind {A B} (m : prog A) (k : A → prog B) Q s :
  safe m (λ a, safe (k a) Q) s → safe (bindP m k) Q s.
Proof.
  revert s. induction m as [a|key c IH|p c IH|cmps ops c IH|c IH|c IH]; intros s; simpl; [done|..]; intros Hs; intros;
    try (by apply IH, Hs).
  destruct (Hs s') as [Hno Hyes]; [done|done|]. split; [intros r ? ?; by apply IH, Hno|].
  intros Hok. specialize (Hyes Hok). destruct (forallb isRead ops); [by apply IH|].
  intros rev Hrev. destruct (Hyes rev Hrev) as (? & ? & Hc). split_and!; [done|done|]. intros r Hr. by apply IH, Hc.
Qed.
Lemma safe_mono {A} (m : prog A) (Q Q' : A → St → Prop) s :
  (∀ a s', Q a s' → Q' a s') → safe m Q s → safe m Q' s.
Proof.
  intros HQ. revert s. induction m as [a|key c IH|p c IH|cmps ops c IH|c IH|c IH]; intros s; simpl; [apply HQ|..];
    intros Hs; intros; try (by apply IH, Hs).
  destruct (Hs s') as [Hno Hyes]; [done|done|]. split; [intros r ? ?; by apply IH, Hno|].
  intros Hok. specialize (Hyes Hok). destruct (forallb isRead ops); [by apply IH|].
  intros rev Hrev. destruct (Hyes rev Hrev) as (? & ? & Hc). split_and!; [done|done|]. intros r Hr. by apply IH, Hc.
Qed.

(** ** Transactions on the keys *)
Lemma lookup_put_eq rev s k v :
  applyOp rev s (OpPut k v) !! k =
  Some {| Value := v; ModRevision := rev; Version := default 0%Z (Version <$> s !! k) + 1 |}.
Proof. apply lookup_insert_eq. Qed.
Lemma lookup_put_ne rev s k k' v : k ≠ k' → applyOp rev s (OpPut k v) !! k' = s !! k'.
Proof. apply lookup_insert_ne. Qed.
Lemma lookup_del rev s k r k' : applyOp rev s (OpDelete k r) !! k' = if inRange k' k r then None else s !! k'.
Proof.
  unfold applyOp. destruct (s !! k') as [kv|] eqn:Hk.
  - destruct (inRange k' k r) eqn:Hr; [apply map_lookup_filter_None_2; right; intros ? _ Hf; simpl in Hf; congruence|].
    by apply map_lookup_filter_Some_2.
  - rewrite map_lookup_filter_None_2 by auto. by case_match.
Qed.
Lemma lookup_del_ne rev s k k' : k ≠ k' → applyOp rev s (OpDelete k "") !! k' = s !! k'.
Proof. intros Hne. rewrite lookup_del. unfold inRange. simpl. by rewrite bool_decide_eq_false_2. Qed.
Lemma lookup_del_eq rev s k : applyOp rev s (OpDelete k "") !! k = None.
Proof. rewrite lookup_del. unfold inRange. simpl. by rewrite bool_decide_eq_true_2. Qed.
Lemma lookup_delete_Some rev s k r k' kv : applyOp rev s (OpDelete k r) !! k' = Some kv → s !! k' = Some kv.
Proof. rewrite lookup_del. by case_match. Qed.

(** Versions and modification revisions, and what an old one says. *)
Lemma applyOps_entry rev ops s k kv :
  (∀ k kv, s !! k = Some kv → 1 <= Version kv)%Z → applyOps rev ops s !! k = Some kv →
  (1 <= Version kv)%Z ∧ (s !! k = Some kv ∨ ModRevision kv = rev).
Proof.
  revert s. induction ops as [|o ops IH]; intros s Hs; simpl; [eauto|]. intros Hk. apply IH in Hk as [Hv Hk].
  - split; [done|]. destruct Hk as [Hk|]; [|auto]. destruct o as [k' v|k' r|k']; [|left; by eapply lookup_delete_Some|auto].
    destruct (decide (k' = k)) as [->|]; [|rewrite lookup_put_ne in Hk; auto].
    rewrite lookup_put_eq in Hk. injection Hk as <-. by right.
  - clear -Hs. intros k kv. destruct o as [k' v|k' r|k']; [|intros H%lookup_delete_Some; eauto|eauto].
    destruct (decide (k' = k)) as [->|]; [|rewrite lookup_put_ne; eauto].
    rewrite lookup_put_eq. intros [= <-]. simpl. destruct (s !! k) as [kv0|] eqn:H0; simpl; [|lia].
    specialize (Hs _ _ H0). lia.
Qed.

(** A comparison with version 0 says whether a key is there. *)
Lemma version_zero (s : St) k : Inv s → holds s.1 (VersionIs k 0) = true ↔ s.1 !! k = None.
Proof.
  intros Hinv. simpl. destruct (s.1 !! k) as [kv|] eqn:Hk; simpl; [|done].
  pose proof (inv_version s Hinv _ _ Hk). rewrite Z.eqb_eq. split; [lia|done].
Qed.
Lemma version_above (s : St) k : holds s.1 (VersionAbove k 0) = true → is_Some (s.1 !! k).
Proof. simpl. destruct (s.1 !! k); [eauto|done]. Qed.

(** The VIPs and backends of a set of keys. *)
Definition DataOk (m : gmap string KV) : Prop :=
  (∀ id kv, m !! vipKey id = Some kv → ∃ vip, unmarshal (Value kv) = inr vip ∧ VIPOk m id vip) ∧
  (∀ vid bid kv, Store.noSlash vid = true → m !! backendKey vid bid = Some kv →
    ∃ b, unmarshal (Value kv) = inr b ∧ BackendOk m vid bid b) ∧
  (∀ bid kv, m !! backendIndexKey bid = Some kv → Store.noSlash (Value kv) = true).
Lemma Inv_data s : Inv s → DataOk s.1.
Proof. intros Hi. split_and!; apply Hi. Qed.

(** It only depends on the VIPs, the backends and their indexes. *)
Lemma DataOk_same m m' :
  (∀ id, m' !! vipKey id = m !! vipKey id) → (∀ vid bid, m' !! backendKey vid bid = m !! backendKey vid bid) →
  (∀ id kv vip, m !! vipKey id = Some kv → unmarshal (Value kv) = inr vip →
     Value <$> m !! vipTupleIndexKey vip = Some id → Value <$> m' !! vipTupleIndexKey vip = Some id) →
  (∀ vid bid kv, Store.noSlash vid = true → m !! backendKey vid bid = Some kv →
     Value <$> m !! backendIndexKey bid = Some vid → Value <$> m' !! backendIndexKey bid = Some vid) →
  (∀ bid kv, m' !! backendIndexKey bid = Some kv → m !! backendIndexKey bid = Some kv) →
  DataOk m → DataOk m'.
Proof.
  intros Hv Hb Ht Hi Hx (Hvips & Hbacks & Hindex). split_and!; [..|by eauto].
  - intros id kv Hk. rewrite Hv in Hk. destruct (Hvips _ _ Hk) as (vip & Hu & [? ? ? ? ?]). exists vip. split; [done|].
    split; eauto.
  - intros vid bid kv Hvid Hk. rewrite Hb in Hk. destruct (Hbacks _ _ _ Hvid Hk) as (b & Hu & [? ? ? ? ? ?]).
    exists b. split; [done|]. split; eauto. by rewrite Hv.
Qed.

(** A write of an index alone keeps the invariant, and is not seen by others. *)
Lemma index_write s rev o k :
  Inv s → (s.2 < rev < 2 ^ 63)%Z → indexLike k → (∀ v, o ≠ OpGet v) →
  (∀ k', k' ≠ k → applyOp rev s.1 o !! k' = s.1 !! k') →
  (∀ id kv vip, s.1 !! vipKey id = Some kv → unmarshal (Value kv) = inr vip → k = vipTupleIndexKey vip →
     Value <$> applyOp rev s.1 o !! k = Value <$> s.1 !! k) →
  (∀ vid bid kv, Store.noSlash vid = true → s.1 !! backendKey vid bid = Some kv → k = backendIndexKey bid →
     Value <$> applyOp rev s.1 o !! k = Value <$> s.1 !! k) →
  (∀ bid, k = backendIndexKey bid → applyOp rev s.1 o !! k = None) →
  let s'' := (applyOps rev [o] s.1, rev) in Inv s'' ∧ rely s s''.
Proof.
  intros Hinv Hrev (Lv & Lb & Lr) Ho Hother Htuple Hindex Hgone s''.
  assert (∀ k', k' ≠ k → s''.1 !! k' = s.1 !! k') as Hs by exact Hother.
  assert (revnum s'' = revnum s) as Hnum by (unfold revnum; by rewrite Hs).
  assert (DataOk s''.1) as (Hv & Hb & Hx).
  { apply (DataOk_same s.1); [intros; apply Hs, not_eq_sym, Lv|intros; apply Hs, not_eq_sym, Lb|..|by apply Inv_data].
    - intros id kv vip Hk Hu Hval. destruct (decide (vipTupleIndexKey vip = k)) as [He|]; [|by rewrite Hs].
      rewrite He in *. rewrite <- Hval. by eapply Htuple.
    - intros vid bid kv Hvid Hk Hval. destruct (decide (backendIndexKey bid = k)) as [He|]; [|by rewrite Hs].
      rewrite He in *. rewrite <- Hval. by eapply Hindex.
    - intros bid kv Hk. destruct (decide (backendIndexKey bid = k)) as [He|]; [|by rewrite <- Hs].
      rewrite He in Hk. change (applyOp rev s.1 o !! k = Some kv) in Hk. by rewrite (Hgone bid) in Hk. }
  pose proof (applyOps_entry rev [o] s.1) as Hent. destruct Hinv as [(kv & n & Hk & Hval & Hn) Hver Hmod H64 _ _ _].
  split; split; auto; try (simpl; lia).
  - exists kv, n. split_and!; [rewrite Hs; auto|done|lia|simpl; lia].
  - intros k' kv' Hk'. by apply (Hent _ _ Hver) in Hk' as [? _].
  - intros k' kv' Hk'. apply (Hent _ _ Hver) in Hk' as [_ [Hk'| ->]]; [|simpl; lia]. specialize (Hmod _ _ Hk'). simpl. lia.
  - intros id kv' Hk' _. rewrite <- Hk'. symmetry. apply Hs. auto.
Qed.

(** A commit with the next revision number keeps the invariant if what it writes
    does, whatever else it does is seen by the number. *)
Lemma commit_write s rev n ops :
  Inv s → (s.2 < rev < 2 ^ 63)%Z → Value <$> s.1 !! revisionKey = Some (FormatInt n) → (1 <= n <= s.2)%Z →
  DataOk (applyOps rev ops s.1) →
  let s'' := (applyOps rev (ops ++ [OpPut revisionKey (FormatInt (wrapS 64 (n + 1)))]) s.1, rev) in
  Inv s'' ∧ rely s s''.
Proof.
  intros Hinv Hrev Hval Hn Hdata s''.
  assert (s''.1 = applyOp rev (applyOps rev ops s.1) (OpPut revisionKey (FormatInt (wrapS 64 (n + 1))))) as Hs''
    by (unfold s'', applyOps; by rewrite foldl_app).
  rewrite wrapS_small in Hs'' by lia.
  assert (∃ kv, s''.1 !! revisionKey = Some kv ∧ Value kv = FormatInt (n + 1)) as (kv & Hkv & Hvalue).
  { rewrite Hs'', lookup_put_eq. eauto. }
  assert (revnum s = n) as Hnum by (unfold revnum; rewrite Hval; simpl; by rewrite ParseInt_Format by lia).
  assert (revnum s'' = n + 1)%Z as Hnum'' by (unfold revnum; rewrite Hkv; simpl; rewrite Hvalue, ParseInt_Format by lia; done).
  assert (∀ k', k' ≠ revisionKey → s''.1 !! k' = applyOps rev ops s.1 !! k') as Hs
    by (intros; rewrite Hs'', lookup_put_ne; auto).
  assert (DataOk s''.1) as (Hv & Hb & Hx).
  { apply (DataOk_same (applyOps rev ops s.1)); try done.
    - intros id. apply Hs. diffkeys.
    - intros vid bid. apply Hs. diffkeys.
    - intros id kv' vip _ _ H'. rewrite Hs; [done|]. apply tupleIndex_like.
    - intros vid bid kv' _ _ H'. rewrite Hs; [done|]. apply backendIndex_like.
    - intros bid kv'. rewrite Hs; [done|]. apply backendIndex_like. }
  pose proof (applyOps_entry rev (ops ++ [OpPut revisionKey (FormatInt (wrapS 64 (n + 1)))]) s.1) as Hent.
  destruct Hinv as [_ Hver Hmod H64 _ _ _]. split; split; auto; try (simpl; lia).
  - exists kv, (n + 1)%Z. split_and!; [done|done|lia|simpl; lia].
  - intros k' kv' Hk'. by apply (Hent _ _ Hver) in Hk' as [? _].
  - intros k' kv' Hk'. apply (Hent _ _ Hver) in Hk' as [_ [Hk'| ->]]; [|simpl; lia]. specialize (Hmod _ _ Hk'). simpl. lia.
  - intros id kv' Hk' Hold. apply (Hent _ _ Hver) in Hk' as [_ [Hk'|He]]; [done|]. lia.
Qed.

(** ** Reasoning about operations: what holds after a success *)
Definition gives {A} (m : prog (err + A)) (P : A → St → Prop) (s : St) : Prop :=
  safe m (λ r s', Inv s' ∧ rely s s' ∧ ∀ a, r = inr a → P a s') s.

Lemma safe_from {A} (m : prog A) (Q : A → St → Prop) s s0 :
  rely s0 s → safe m (λ r s', Inv s' ∧ rely s s' ∧ Q r s') s → safe m (λ r s', Inv s' ∧ rely s0 s' ∧ Q r s') s.
Proof. intros Hr. apply safe_mono. intros a s' (? & ? & ?). split_and!; [done|by etransitivity|done]. Qed.
Lemma gives_try {A B} (m : prog (err + A)) (k : A → prog (err + B)) P s :
  gives m (λ a, gives (k a) P) s → gives (try m k) P s.
Proof.
  intros Hm. apply safe_bind. eapply safe_mono; [|exact Hm]. intros [e|a] s' (Hi & Hr & Ha); simpl; [by split_and!|].
  apply safe_from; [done|by apply Ha].
Qed.
Lemma gives_wrap {A} prefix (m : prog (err + A)) P s : gives m P s → gives (wrapping prefix m) P s.
Proof.
  intros Hm. apply safe_bind. eapply safe_mono; [|exact Hm]. intros [e|a] s' (Hi & Hr & Ha); by split_and!.
Qed.
Lemma gives_check {A} e (k : prog (err + A)) P s : Inv s → (e = None → gives k P s) → gives (check e k) P s.
Proof. intros Hi Hk. destruct e; [by split_and!|auto]. Qed.
Lemma gives_ret {A} (r : err + A) (P : A → St → Prop) s : Inv s → (∀ a, r = inr a → P a s) → gives (mret r) P s.
Proof. intros. by split_and!. Qed.
Lemma gives_get k P s : (∀ s', rely s s' → Inv s' → P (s'.1 !! k) s') → gives (Get k Ret) P s.
Proof. intros HP s' Hr Hi r Hv. split_and!; [done|done|]. intros a ->. rewrite (Hv a eq_refl). auto. Qed.
Lemma gives_list p P s :
  (∀ s' l, rely s s' → Inv s' → (∀ k kv, (k, kv) ∈ l ↔ s'.1 !! k = Some kv ∧ hasPrefixS p k = true) → P l s') →
  gives (ListPrefix p Ret) P s.
Proof. intros HP s' Hr Hi r Hv. split_and!; [done|done|]. intros l ->. apply HP; auto. Qed.
(** A transaction that keeps the invariant, of whose outcome nothing is used. *)
Lemma gives_txn cmps ops P s :
  (∀ s', rely s s' → Inv s' → forallb (holds s'.1) cmps = true → ∀ rev, (s'.2 < rev < 2 ^ 63)%Z →
     let s'' := (applyOps rev ops s'.1, rev) in Inv s'' ∧ rely s' s'') →
  (∀ b s', rely s s' → Inv s' → P b s') → gives (Txn cmps ops Ret) P s.
Proof.
  intros Hok HP s' Hr Hi. split; [intros r ? ?; simpl; split_and!; eauto|].
  intros Hc. case_match; [simpl; split_and!; eauto|]. intros rev Hrev. destruct (Hok s' Hr Hi Hc rev Hrev) as [Hi' Hr'].
  split_and!; [done|done|]. intros r _. assert (rely s (applyOps rev ops s'.1, rev)) by (by etransitivity).
  simpl; split_and!; eauto.
Qed.
Lemma gives_read cmps ops P s :
  forallb isRead ops = true → (∀ b s', rely s s' → Inv s' → P b s') → gives (Txn cmps ops Ret) P s.
Proof.
  intros Hro HP s' Hr Hi. split; [intros r ? ?; simpl; split_and!; eauto|].
  intros Hc. rewrite Hro. simpl; split_and!; eauto.
Qed.
Lemma gives_mono {A} (m : prog (err + A)) (P P' : A → St → Prop) s :
  (∀ a s', rely s s' → Inv s' → P a s' → P' a s') → gives m P s → gives m P' s.
Proof. intros HP. apply safe_mono. intros r s' (Hi & Hr & Ha). split_and!; auto. Qed.

(** Later states follow earlier ones; and a program that ends. *)
Ltac later := solve [reflexivity | eassumption | etransitivity; eassumption
  | etransitivity; [eassumption|]; etransitivity; eassumption].
Ltac ends HP := apply gives_ret; [done|]; first [by intros ? [=] | intros ? _; apply HP; [later|done]].

(** *** The revision *)
Lemma getRevisionValue_gives P s :
  (∀ v s', rely s s' → Inv s' → Value <$> s'.1 !! revisionKey = Some v → P v s') → gives (getRevisionValue keyPrefix) P s.
Proof.
  intros HP. apply gives_try, gives_wrap, gives_get. intros s' Hr Hi. apply gives_ret; [done|].
  intros v Hv. apply HP; auto. destruct (s'.1 !! revisionKey); [|done]. by injection Hv as <-.
Qed.
Lemma revision_number (s : St) v n :
  Inv s → Value <$> s.1 !! revisionKey = Some v → parseRevision v = inr n →
  v = FormatInt n ∧ (1 <= n <= s.2)%Z.
Proof.
  intros [(kv & n0 & Hk & Hv & Hn) _ _ H64 _ _ _] Hval Hp. rewrite Hk in Hval. injection Hval as <-.
  unfold parseRevision in Hp. rewrite Hv, ParseInt_Format in Hp by lia. injection Hp as <-. done.
Qed.
Lemma firstFailed_gives checks P s :
  Inv s → (∀ r s', rely s s' → Inv s' → P r s') → gives (firstFailedEtcdTxnCheck keyPrefix checks) P s.
Proof.
  revert s. induction checks as [|[cmp e] checks IH]; intros s Hi HP; simpl; [ends HP|].
  apply gives_try, gives_wrap, gives_read; [done|]. intros b s' Hr Hi'. destruct b; [|ends HP].
  apply IH; [done|]. intros r s2 Hr2. apply HP. by etransitivity.
Qed.
Lemma commit_gives n checks ops P s :
  Inv s →
  (∀ s', rely s s' → Inv s' → forallb (holds s'.1) checks.*1 = true → ∀ rev, (s'.2 < rev < 2 ^ 63)%Z →
     DataOk (applyOps rev ops s'.1)) →
  (∀ r s', rely s s' → Inv s' → P r s') → gives (commitWithRevision keyPrefix n checks ops) P s.
Proof.
  revert s. induction n as [|n IH]; intros s Hi Hops HP; simpl; [by apply gives_ret|].
  apply gives_try, getRevisionValue_gives. intros v s1 Hr1 Hi1 Hv1.
  apply gives_try, gives_ret; [done|]. intros m Hm. apply gives_try, gives_wrap, gives_txn.
  - intros s2 Hr2 Hi2 Hc rev Hrev. simpl in Hc. apply andb_true_iff in Hc as [Hval Hc].
    apply bool_decide_eq_true in Hval. destruct (revision_number s1 v m Hi1 Hv1 Hm) as [-> _].
    destruct (revision_number s2 (FormatInt m) m Hi2 Hval) as [_ Hm2].
    { destruct (revision_number s1 _ m Hi1 Hv1 Hm). done. }
    apply commit_write; auto. apply Hops; auto. by etransitivity.
  - intros b s2 Hr2 Hi2. assert (rely s s2) as Hr by (by etransitivity).
    destruct b; [ends HP|]. apply gives_try, firstFailed_gives; [done|].
    intros r s3 Hr3 Hi3. assert (rely s s3) by (by etransitivity). destruct r; [by apply gives_ret|].
    apply IH; [done|intros s4 Hr4; apply Hops; by etransitivity|intros r s4 Hr4; apply HP; by etransitivity].
Qed.

(** *** Indexes *)
Lemma claim_gives n key k id d r P s :
  Inv s → indexLike k → (∀ b, k ≠ backendIndexKey b) → (∀ b s', rely s s' → Inv s' → P b s') →
  gives (claimIndex n key k id d r) P s.
Proof.
  revert s. induction n as [|n IH]; intros s Hi Hk Hnb HP; simpl; [by apply gives_ret|].
  apply gives_try. unfold getIndexOwner. apply gives_try, gives_wrap, gives_get. intros s1 Hr1 Hi1.
  apply gives_ret; [done|]. intros owner [= <-]. destruct (s1.1 !! k) as [kv|] eqn:Hk1; simpl.
  { ends HP. }
  apply gives_try, gives_wrap, gives_txn.
  - intros s2 Hr2 Hi2 Hc rev Hrev. simpl in Hc. apply andb_true_iff in Hc as [_ [Hc _]%andb_true_iff].
    apply (version_zero s2 k Hi2) in Hc. apply (index_write s2 rev (OpPut k id) k); [done|done|done|done|..].
    + intros k' Hne. by apply lookup_put_ne.
    + intros i kv vip Hv Hu ->. destruct (inv_vip s2 Hi2 _ _ Hv) as (vip' & Hu' & [_ _ _ _ Hx]).
      rewrite Hu in Hu'. injection Hu' as <-. by rewrite Hc in Hx.
    + intros vid bid kv _ _ ->. by destruct (Hnb bid).
    + intros bid ->. by destruct (Hnb bid).
  - intros b s2 Hr2 Hi2. assert (rely s s2) by (by etransitivity). destruct b; [ends HP|].
    apply gives_try, gives_wrap, gives_get. intros s3 Hr3 Hi3. assert (rely s s3) by (by etransitivity).
    destruct (s3.1 !! key); [|by apply gives_ret]. apply IH; [done..|]. intros b s4 Hr4. apply HP. by etransitivity.
Qed.
Lemma claimVIP_gives vip P s :
  Inv s → (∀ b s', rely s s' → Inv s' → P b s') → gives (claimVIPTupleIndex keyPrefix rounds vip) P s.
Proof. intros Hi HP. apply claim_gives; [done|apply tupleIndex_like|intros b; diffkeys|done]. Qed.
Lemma claimBackend_gives b P s :
  Inv s → (∀ b s', rely s s' → Inv s' → P b s') → gives (claimBackendIPIndex keyPrefix rounds b) P s.
Proof. intros Hi HP. apply claim_gives; [done|apply ipIndex_like|intros b'; diffkeys|done]. Qed.

Lemma trimPrefix_app p t : trimPrefix p (p +:+ t) = t.
Proof.
  unfold trimPrefix. rewrite (proj2 (hasPrefixS_spec p (p +:+ t))) by eauto.
  rewrite bytes_app, drop_app_length. apply string_bytes.
Qed.
Lemma deleteIPIndexes_gives vid kvs s :
  Inv s → (∀ k kv, (k, kv) ∈ kvs → hasPrefixS (backendIPIndexPrefix keyPrefix vid) k = true) →
  gives (deleteIPIndexes keyPrefix vid kvs) (λ _ _, True) s.
Proof.
  revert s. induction kvs as [|[k kv] kvs IH]; intros s Hi Hp; simpl; [by apply gives_ret|].
  destruct (ipIndex_prefix vid k) as (Hl & Ht & Hb); [by eapply Hp; left|].
  apply gives_try, gives_wrap, gives_txn; [|intros _ s' _ Hi'; apply IH; [done|intros; eapply Hp; by right]].
  intros s2 _ Hi2 _ rev Hrev. apply (index_write s2 rev (OpDelete k "") k); [done|done|done|done|..].
  - intros k' Hne. by apply lookup_del_ne.
  - intros i kv' vip _ _ ->. by destruct (Ht vip).
  - intros v b kv' _ _ ->. by destruct (Hb b).
  - intros b ->. by destruct (Hb b).
Qed.
Lemma deleteIndexes_gives vid keys s : Inv s → gives (deleteIndexes keyPrefix vid keys) (λ _ _, True) s.
Proof.
  revert s. induction keys as [|k keys IH]; intros s Hi; simpl; [by apply gives_ret|].
  destruct (hasPrefixS (backendIndexPrefix keyPrefix) k) eqn:Hp; simpl; [|by apply IH].
  apply hasPrefixS_spec in Hp as [t ->]. rewrite trimPrefix_app.
  assert (backendIndexPrefix keyPrefix +:+ t = backendIndexKey t) as -> by (keys; by rewrite app_assoc_s).
  apply gives_try, gives_wrap, gives_txn; [|intros _ s' _ Hi'; by apply IH].
  intros s2 _ Hi2 Hc rev Hrev. simpl in Hc. apply andb_true_iff in Hc as [Hval%bool_decide_eq_true [Hver _]%andb_true_iff].
  apply (version_zero s2 (backendKey vid t) Hi2) in Hver.
  apply (index_write s2 rev (OpDelete (backendIndexKey t) "") (backendIndexKey t)); [done|done|apply backendIndex_like|done|..].
  - intros k' Hne. by apply lookup_del_ne.
  - intros i kv' vip _ _. diffkeys.
  - intros v b kv' Hv Hb <-%backendIndexKey_inj. destruct (inv_backend s2 Hi2 _ _ _ Hv Hb) as (b' & _ & [_ _ _ _ _ Hx]).
    rewrite Hval in Hx. injection Hx as <-. congruence.
  - intros b _. apply lookup_del_eq.
Qed.
Lemma cleanup_gives vid s : Inv s → gives (deleteBackendIndexesForVIP keyPrefix vid) (λ _ _, True) s.
Proof.
  intros Hi. apply gives_try, gives_try, gives_wrap, gives_list. intros s1 l _ Hi1 Hl.
  eapply gives_mono; [|apply deleteIPIndexes_gives; [done|intros k kv Hk; by apply Hl in Hk as [_ ?]]].
  intros _ s2 _ Hi2 _. apply gives_try, gives_try, gives_wrap, gives_list. intros s3 l' _ Hi3 _.
  apply gives_ret; [done|]. intros keys _. by apply deleteIndexes_gives.
Qed.

(** ** What the commits write *)
Lemma sameVIP_key v w : sameVIP v w → vipTupleIndexKey w = vipTupleIndexKey v.
Proof. intros (_ & Hv & Hp & Hpr & _). unfold Etcd.vipTupleIndexKey. by rewrite Hv, Hp, Hpr. Qed.
Lemma sameVIP_family v w b : sameVIP v w → ValidateBackendAddressFamilyForVIP w b = ValidateBackendAddressFamilyForVIP v b.
Proof. intros (_ & _ & _ & _ & He). unfold ValidateBackendAddressFamilyForVIP, ValidateBackendIPFamilyForVIP. by rewrite He. Qed.
Lemma sameBackend_family v b c :
  sameBackend b c → ValidateBackendAddressFamilyForVIP v c = ValidateBackendAddressFamilyForVIP v b.
Proof. intros (_ & _ & He). unfold ValidateBackendAddressFamilyForVIP. by rewrite He. Qed.
(** Lookups past writes to other keys. *)
Ltac other := first [by diffkeys | by apply not_eq_sym | done | by apply not_eq_sym; diffkeys
  | by intros ?%vipKey_inj | by intros ?%backendIndexKey_inj ].
Ltac past := repeat first [rewrite lookup_put_ne by other | rewrite lookup_del_ne by other].
Ltac past_in H := repeat first [rewrite lookup_put_ne in H by other | rewrite lookup_del_ne in H by other].

(** A VIP entry that is written together with its index. *)
Lemma newVIP_ok m id vip w :
  sameVIP vip w → v_ID vip = id → Store.noSlash id = true → ascii id → Store.noSlash (v_Protocol vip) = true →
  Value <$> m !! vipTupleIndexKey vip = Some id → VIPOk m id w.
Proof.
  intros Hw Hid Hs Ha Hp Hx. pose proof (sameVIP_key _ _ Hw) as Hk. destruct Hw as (? & ? & ? & Hpr & ?).
  split; [congruence|done|done|congruence|by rewrite Hk].
Qed.

Lemma create_data s rev vip data w :
  let id := v_ID vip in
  Inv s → s.1 !! vipKey id = None → s.1 !! vipTupleIndexKey vip = None →
  unmarshal data = inr w → sameVIP vip w →
  Store.noSlash id = true → ascii id → Store.noSlash (v_Protocol vip) = true →
  DataOk (applyOps rev [OpPut (vipKey id) data; OpPut (vipTupleIndexKey vip) id] s.1).
Proof.
  intros id Hi Hkey Hidx Hu Hw Hs Ha Hp. unfold applyOps. cbn [foldl].
  set (m := applyOp rev (applyOp rev s.1 (OpPut (vipKey id) data)) (OpPut (vipTupleIndexKey vip) id)).
  assert (∀ k, k ≠ vipKey id → k ≠ vipTupleIndexKey vip → m !! k = s.1 !! k) as Hm
    by (intros k H1 H2; unfold m; by rewrite !lookup_put_ne by auto).
  destruct (Inv_data s Hi) as (Hv & Hb & Hx). split_and!.
  - intros i kv Hk. destruct (decide (i = id)) as [->|Hne].
    + unfold m in Hk. rewrite lookup_put_ne, lookup_put_eq in Hk by diffkeys. injection Hk as <-. exists w. split; [done|].
      apply (newVIP_ok _ _ vip); try done. unfold m. by rewrite lookup_put_eq.
    + rewrite Hm in Hk; [|by intros ?%vipKey_inj|diffkeys].
      destruct (Hv _ _ Hk) as (v & Huv & [? ? ? ? Hxi]). exists v. split; [done|]. split; auto.
      rewrite Hm; [done|diffkeys|]. intros He. by rewrite He, Hidx in Hxi.
  - intros vid bid kv Hvid Hk. rewrite Hm in Hk by diffkeys.
    destruct (Hb _ _ _ Hvid Hk) as (b & Hub & [? ? ? ? (kvp & v & Hpar & Hup & Hfam) Hbi]). exists b. split; [done|].
    split; auto; [|by rewrite Hm by diffkeys]. exists kvp, v. split_and!; [|done|done].
    rewrite Hm; [done| |diffkeys]. intros He. by rewrite He, Hkey in Hpar.
  - intros bid kv. rewrite Hm by diffkeys. apply Hx.
Qed.

Lemma updateVIP_data s rev vip existing data w kv owned :
  let id := v_ID vip in
  Inv s → s.1 !! vipKey id = Some kv → unmarshal (Value kv) = inr existing →
  (vipTupleIndexKey existing ≠ vipTupleIndexKey vip → s.1 !! vipTupleIndexKey vip = None) →
  (∀ bid kvb b, s.1 !! backendKey id bid = Some kvb → unmarshal (Value kvb) = inr b →
     ValidateBackendAddressFamilyForVIP vip b = None) →
  unmarshal data = inr w → sameVIP vip w →
  Store.noSlash id = true → ascii id → Store.noSlash (v_Protocol vip) = true →
  DataOk (applyOps rev (updateVIPOps keyPrefix vip existing data owned) s.1).
Proof.
  intros id Hi Hkv Hue Hnew Hfams Hu Hw Hs Ha Hp.
  destruct (Inv_data s Hi) as (Hv & Hb & Hx).
  destruct (Hv _ _ Hkv) as (e' & Hue' & [Hide _ _ _ Hold]). rewrite Hue in Hue'. injection Hue' as <-.
  set (m := applyOps rev (updateVIPOps keyPrefix vip existing data owned) s.1).
  assert (m !! vipTupleIndexKey vip ≫= (λ kv, Some (Value kv)) = Some id ∧ m !! vipKey id ≫= (λ kv, Some (Value kv)) = Some data ∧
    (∀ k, k ≠ vipKey id → k ≠ vipTupleIndexKey vip → k ≠ vipTupleIndexKey existing → m !! k = s.1 !! k)) as (Hmx & Hmk & Hm).
  { unfold m, updateVIPOps, applyOps. destruct (bool_decide _ && owned); cbn [app foldl]; split_and!.
    all: try (rewrite lookup_put_eq; done).
    - rewrite lookup_put_ne, lookup_del_ne, lookup_put_eq by diffkeys. done.
    - intros k H1 H2 H3. by rewrite lookup_put_ne, lookup_del_ne, lookup_put_ne by auto.
    - rewrite lookup_put_ne, lookup_put_eq by diffkeys. done.
    - intros k H1 H2 H3. by rewrite !lookup_put_ne by auto. }
  split_and!.
  - intros i kvi Hk. destruct (decide (i = id)) as [->|Hne].
    + rewrite Hk in Hmk. injection Hmk as Hval. rewrite Hval. exists w. split; [done|].
      by apply (newVIP_ok _ _ vip).
    + rewrite Hm in Hk; [|by intros ?%vipKey_inj|diffkeys..].
      destruct (Hv _ _ Hk) as (v & Huv & [? ? ? ? Hxi]). exists v. split; [done|]. split; auto.
      assert (vipTupleIndexKey v ≠ vipTupleIndexKey existing) as Hne'.
      { intros He. rewrite He, Hold in Hxi. by injection Hxi as <-. }
      rewrite Hm; [done|diffkeys| |done]. intros He.
      destruct (decide (vipTupleIndexKey existing = vipTupleIndexKey vip)) as [Heq|Hd]; [congruence|].
      by rewrite He, (Hnew Hd) in Hxi.
  - intros vid bid kvb Hvid Hk. rewrite Hm in Hk by diffkeys.
    destruct (Hb _ _ _ Hvid Hk) as (b & Hub & [? ? ? ? (kvp & v & Hpar & Hup & Hfam) Hbi]). exists b. split; [done|].
    split; auto; [|by rewrite Hm by diffkeys]. destruct (decide (vid = id)) as [->|Hne].
    + destruct (m !! vipKey id) as [kvm|] eqn:Hkm; [|done]. injection Hmk as Hval. exists kvm, w.
      rewrite Hval. split_and!; [done|done|]. rewrite (sameVIP_family vip w b Hw). by eapply Hfams.
    + exists kvp, v. split_and!; [|done|done]. rewrite Hm; [done|by intros ?%vipKey_inj|diffkeys..].
  - intros bid kvb. rewrite Hm by diffkeys. apply Hx.
Qed.

Lemma deleteVIP_data s rev id k owned :
  Inv s → Store.noSlash id = true → indexLike k → (∀ b, k ≠ backendIndexKey b) →
  (owned = true → Value <$> s.1 !! k = Some id) →
  DataOk (applyOps rev (deleteVIPOps keyPrefix id k owned) s.1).
Proof.
  intros Hi Hs (Lv & Lb & Lr) Hnb Hown. destruct (Inv_data s Hi) as (Hv & Hb & Hx).
  set (m := applyOps rev (deleteVIPOps keyPrefix id k owned) s.1).
  assert (backendPrefix keyPrefix id = (keyPrefix +:+ "/backends/" +:+ id) +:+ "/") as Hpre
    by (keys; by rewrite !app_assoc_s).
  assert (∀ k', m !! k' = if bool_decide (k' = vipKey id) || hasPrefixS (backendPrefix keyPrefix id) k' ||
                            (bool_decide (k' = k) && owned) then None else s.1 !! k') as Hm.
  { intros k'. unfold m, deleteVIPOps, applyOps. destruct owned; cbn [app foldl]; unfold OpDeletePrefix;
      rewrite !lookup_del, !(inRange_prefix k' _ _ Hpre); unfold inRange; simpl;
      rewrite ?andb_true_r, ?andb_false_r, ?orb_false_r;
      destruct (bool_decide (k' = vipKey id)), (hasPrefixS _ k'), (bool_decide (k' = k)); done. }
  assert (∀ k' kv, m !! k' = Some kv → s.1 !! k' = Some kv) as Hsub.
  { intros k' kv. rewrite Hm. by case_match. }
  assert (∀ i t, hasPrefixS (backendPrefix keyPrefix i) t = true → ∃ b, t = backendKey i b) as Hin.
  { intros i t [u ->]%hasPrefixS_spec. exists u. keys. by rewrite !app_assoc_s. }
  assert (∀ k', k' ≠ vipKey id → k' ≠ k → (∀ b, k' ≠ backendKey id b) → m !! k' = s.1 !! k') as Hkeep.
  { intros k' H1 H2 H3. rewrite Hm, !bool_decide_eq_false_2 by done. simpl. rewrite orb_false_r.
    destruct (hasPrefixS _ k') eqn:Hp; [|done]. apply Hin in Hp as [b ->]. by destruct (H3 b). }
  split_and!.
  - intros i kv Hk. assert (i ≠ id) as Hne.
    { intros ->. rewrite Hm, bool_decide_eq_true_2 in Hk by done. done. }
    apply Hsub in Hk. destruct (Hv _ _ Hk) as (v & Huv & [? ? ? ? Hxi]). exists v. split; [done|]. split; auto.
    rewrite Hm. destruct (bool_decide _ && owned) eqn:Ho.
    + apply andb_true_iff in Ho as [He%bool_decide_eq_true ->]. rewrite He, Hown in Hxi by done. by injection Hxi as <-.
    + rewrite orb_false_r, bool_decide_eq_false_2 by diffkeys. simpl.
      destruct (hasPrefixS _ _) eqn:Hp; [|done]. apply Hin in Hp as [b Hp]. revert Hp. diffkeys.
  - intros vid bid kv Hvid Hk. assert (vid ≠ id) as Hne.
    { intros ->. rewrite Hm in Hk. rewrite (proj2 (hasPrefixS_spec _ _)) in Hk; [by rewrite orb_true_r in Hk|].
      exists bid. keys. by rewrite !app_assoc_s. }
    apply Hsub in Hk. destruct (Hb _ _ _ Hvid Hk) as (b & Hub & [? ? ? ? (kvp & v & Hpar & Hup & Hfam) Hbi]).
    exists b. split; [done|]. split; auto; [|rewrite Hkeep; [done|diffkeys|by apply not_eq_sym|intros ?; diffkeys]].
    exists kvp, v. split_and!; [|done|done]. rewrite Hkeep; [done|by intros ?%vipKey_inj|auto|intros ?; diffkeys].
  - intros bid kv Hk. apply Hsub in Hk. by eapply Hx.
Qed.

(** A backend entry with its reverse index, whatever happens to an IP index. *)
Lemma putBackend_data s rev b data c tail m :
  let vid := b_VIPID b in let bid := b_ID b in
  Inv s → unmarshal data = inr c → sameBackend b c →
  Store.noSlash vid = true → Store.noSlash bid = true → ascii bid →
  (∃ kv vip, s.1 !! vipKey vid = Some kv ∧ unmarshal (Value kv) = inr vip ∧ ValidateBackendAddressFamilyForVIP vip b = None) →
  (∀ kv, s.1 !! backendIndexKey bid = Some kv → Value kv = vid) →
  m = applyOps rev ([OpPut (backendKey vid bid) data; OpPut (backendIndexKey bid) vid] ++ tail) s.1 →
  (∀ o, o ∈ tail → ∃ ip v, o = OpPut (backendIPIndexKey vid ip) v ∨ o = OpDelete (backendIPIndexKey vid ip) "") →
  DataOk m.
Proof.
  intros vid bid Hi Hu Hc Hsv Hsb Ha (kvp & vip & Hpar & Hup & Hfam) Hidx -> Htail.
  unfold applyOps. rewrite foldl_app. cbn [foldl].
  set (m0 := applyOp rev (applyOp rev s.1 (OpPut (backendKey vid bid) data)) (OpPut (backendIndexKey bid) vid)).
  assert (DataOk m0) as Hm0.
  { assert (∀ k, k ≠ backendKey vid bid → k ≠ backendIndexKey bid → m0 !! k = s.1 !! k) as Hm
      by (intros k H1 H2; unfold m0; by rewrite !lookup_put_ne by auto).
    destruct (Inv_data s Hi) as (Hv & Hb & Hx). split_and!.
    - intros i kv Hk. rewrite Hm in Hk by diffkeys. destruct (Hv _ _ Hk) as (v & Huv & [? ? ? ? Hxi]).
      exists v. split; [done|]. split; auto. by rewrite Hm by diffkeys.
    - intros v' b' kv Hv' Hk. destruct (decide (v' = vid ∧ b' = bid)) as [[-> ->]|Hne].
      + unfold m0 in Hk. rewrite lookup_put_ne, lookup_put_eq in Hk by diffkeys. injection Hk as <-.
        exists c. split; [done|]. pose proof Hc as (Hid & Hvid & _). split; [by symmetry|by symmetry|done|done| |].
        * exists kvp, vip. rewrite Hm by diffkeys. split_and!; [done|done|]. by rewrite (sameBackend_family vip b c Hc).
        * unfold m0. by rewrite lookup_put_eq.
      + rewrite Hm in Hk; [|intros He%backendKey_inj; [by apply Hne|done|done]|diffkeys].
        destruct (Hb _ _ _ Hv' Hk) as (b1 & Hub & [? ? ? ? (kvp' & vip' & Hpar' & ? & ?) Hbi]). exists b1. split; [done|].
        split; auto; [exists kvp', vip'; by rewrite Hm by diffkeys|].
        destruct (decide (b' = bid)) as [->|Hne']; [|by rewrite Hm; [|diffkeys|intros ?%backendIndexKey_inj]].
        destruct (s.1 !! backendIndexKey bid) as [kvi|] eqn:Hki; [|done]. injection Hbi as Hbi.
        rewrite (Hidx _ eq_refl) in Hbi. by destruct Hne.
    - intros b' kv. destruct (decide (b' = bid)) as [->|Hne'].
      + unfold m0. rewrite lookup_put_eq. by intros [= <-].
      + rewrite Hm; [apply Hx|diffkeys|by intros ?%backendIndexKey_inj]. }
  clearbody m0. clear -Hm0 Htail. revert m0 Hm0. induction tail as [|o tail IH]; intros m0 Hm0; simpl; [done|].
  apply IH; [intros o' Ho'; apply Htail; by right|].
  destruct (Htail o) as (ip & v & [->| ->]); [left|..].
  - apply (DataOk_same m0); try done; intros; rewrite lookup_put_ne in * by diffkeys; done.
  - apply (DataOk_same m0); try done; intros; rewrite lookup_del_ne in * by diffkeys; done.
Qed.

Lemma deleteBackend_data s rev b owned :
  Inv s → Store.noSlash (b_VIPID b) = true → Value <$> s.1 !! backendIndexKey (b_ID b) = Some (b_VIPID b) →
  DataOk (applyOps rev (deleteBackendOps keyPrefix b owned) s.1).
Proof.
  intros Hi Hs Hidx. destruct (Inv_data s Hi) as (Hv & Hb & Hx).
  set (m := applyOps rev (deleteBackendOps keyPrefix b owned) s.1).
  assert (∀ k, k ≠ backendKey (b_VIPID b) (b_ID b) → k ≠ backendIndexKey (b_ID b) →
    k ≠ backendIPIndexKey (b_VIPID b) (b_IP b) → m !! k = s.1 !! k) as Hm.
  { intros k H1 H2 H3. unfold m, deleteBackendOps, applyOps. destruct owned; cbn [app foldl]; by rewrite !lookup_del_ne by auto. }
  assert (m !! backendKey (b_VIPID b) (b_ID b) = None ∧ m !! backendIndexKey (b_ID b) = None) as [Hk0 Hi0].
  { unfold m, deleteBackendOps, applyOps. destruct owned; cbn [app foldl]; split;
      rewrite ?lookup_del_eq, ?lookup_del_ne, ?lookup_del_eq by diffkeys; try done.
    all: rewrite ?lookup_del_ne, ?lookup_del_eq by diffkeys; done. }
  split_and!.
  - intros i kv Hk. rewrite Hm in Hk by diffkeys. destruct (Hv _ _ Hk) as (v & Huv & [? ? ? ? Hxi]).
    exists v. split; [done|]. split; auto. by rewrite Hm by diffkeys.
  - intros v' b' kv Hv' Hk. destruct (decide (backendKey v' b' = backendKey (b_VIPID b) (b_ID b))) as [He|Hne].
    { by rewrite He, Hk0 in Hk. }
    rewrite Hm in Hk by (done || diffkeys).
    destruct (Hb _ _ _ Hv' Hk) as (b1 & Hub & [? ? ? ? (kvp' & vip' & Hpar' & ? & ?) Hbi]). exists b1. split; [done|].
    split; auto; [exists kvp', vip'; by rewrite Hm by diffkeys|].
    destruct (decide (b' = b_ID b)) as [->|Hne']; [|by rewrite Hm; [|diffkeys|intros ?%backendIndexKey_inj|diffkeys]].
    rewrite Hidx in Hbi. injection Hbi as <-. by destruct Hne.
  - intros b' kv Hk. destruct (decide (b' = b_ID b)) as [->|Hne']; [by rewrite Hi0 in Hk|].
    rewrite Hm in Hk; [by eapply Hx|diffkeys|by intros ?%backendIndexKey_inj|diffkeys].
Qed.

(** ** The operations *)
Lemma ValidateResourceID_slash field v : ValidateResourceID field v = None → Store.noSlash v = true.
Proof.
  unfold ValidateResourceID. repeat (case_match; try done). intros _. apply noSlash_bytes.
  by match goal with H : bool_decide (47%Z ∈ _) = false |- _ => apply bool_decide_eq_false in H end.
Qed.
Lemma optionalID_slash field v : validateOptionalResourceID field v = None → Store.noSlash v = true.
Proof. unfold validateOptionalResourceID. case_bool_decide as He; [by subst|apply ValidateResourceID_slash]. Qed.
Lemma ValidateVIPForWrite_ids vip : ValidateVIPForWrite outOfRange vip = None →
  Store.noSlash (v_ID vip) = true ∧ Store.noSlash (v_Protocol vip) = true ∧
  ascii (v_Protocol vip) ∧ ascii (v_EncapType vip).
Proof.
  unfold ValidateVIPForWrite. destruct (validateOptionalResourceID _ _) eqn:Hid; [done|].
  destruct (ParseIP (v_VIP vip)) as [ip|]; [|done]. simpl. unfold id.
  destruct (_ || _); [done|]. case_bool_decide as Hp; [|done]. case_bool_decide; [|done].
  destruct (bool_decide (v_EncapType vip = "") || IsValidEncapType (v_EncapType vip)) eqn:He; [|done]. intros _.
  assert (ascii (v_EncapType vip)) as Ha.
  { apply orb_true_iff in He as [->%bool_decide_eq_true|He]; [constructor|].
    unfold IsValidEncapType in He. apply bool_decide_eq_true in He.
    repeat (apply elem_of_cons in He as [->|He]; [by repeat constructor|]). by apply elem_of_nil in He. }
  split; [by eapply optionalID_slash|].
  repeat (apply elem_of_cons in Hp as [->|Hp]; [split_and!; [done|by repeat constructor|done]|]). by apply elem_of_nil in Hp.
Qed.
Lemma ValidateBackendForWrite_ids b : ValidateBackendForWrite b = None →
  Store.noSlash (b_ID b) = true ∧ Store.noSlash (b_VIPID b) = true.
Proof.
  unfold ValidateBackendForWrite, ValidateBackendFieldsForWrite. simpl. unfold id.
  destruct (validateOptionalResourceID _ _) eqn:Hid; [done|]. destruct (ParseIP _); [|done].
  destruct (_ || _); [done|]. destruct (ValidateResourceID _ _) eqn:Hv; [done|]. intros _.
  eauto using optionalID_slash, ValidateResourceID_slash.
Qed.

(** Generated values. *)
Lemma gives_uuid {A} (c : string → prog (err + A)) P s :
  (∀ u, Store.noSlash u = true → ascii u → gives (c u) P s) → gives (NewUUID c) P s.
Proof. exact id. Qed.
Lemma gives_now {A} (c : Z → prog (err + A)) P s : (∀ t, gives (c t) P s) → gives (Now c) P s.
Proof. exact id. Qed.
Lemma gives_marshal {A} `{Codec A} what (a : A) P s :
  Inv s → (∀ data, marshal a = inr data → P data s) → gives (marshalling what a) P s.
Proof. intros Hi HP. apply gives_wrap, gives_ret; auto. Qed.

(** *** Reads *)
Lemma getVIP_gives id P s :
  (∀ kv vip s', rely s s' → Inv s' → s'.1 !! vipKey id = Some kv → unmarshal (Value kv) = inr vip → VIPOk s'.1 id vip →
     P (vip, ModRevision kv) s') →
  gives (getVIPWithModRevision keyPrefix id) P s.
Proof.
  intros HP. apply gives_try, gives_wrap, gives_get. intros s' Hr Hi. apply gives_ret; [done|].
  destruct (s'.1 !! vipKey id) as [kv|] eqn:Hk; [|done]. destruct (inv_vip s' Hi _ _ Hk) as (vip & Hu & Hok).
  rewrite Hu. intros a [= <-]. by apply HP.
Qed.
Lemma GetVIP_gives id P s :
  Inv s →
  (∀ kv vip s', rely s s' → Inv s' → s'.1 !! vipKey id = Some kv → unmarshal (Value kv) = inr vip → VIPOk s'.1 id vip →
     P vip s') →
  gives (GetVIP keyPrefix id) P s.
Proof.
  intros Hi HP. apply gives_check; [done|]. intros _. apply gives_try, getVIP_gives.
  intros kv vip s' ? ? ? ? ?. apply gives_ret; [done|]. intros ? [= <-]. eauto.
Qed.
Lemma GetBackend_gives id P s :
  Inv s →
  (∀ b vid s', rely s s' → Inv s' → Store.noSlash vid = true → BackendOk s'.1 vid id b → P b s') →
  gives (GetBackend keyPrefix id) P s.
Proof.
  intros Hi HP. apply gives_check; [done|]. intros _. apply gives_try, gives_wrap, gives_get. intros s1 Hr1 Hi1.
  destruct (s1.1 !! backendIndexKey id) as [kvi|] eqn:Hk; [|by apply gives_ret].
  pose proof (inv_index s1 Hi1 _ _ Hk) as Hs. apply gives_try, gives_wrap, gives_get. intros s2 Hr2 Hi2.
  apply gives_ret; [done|]. destruct (s2.1 !! Etcd.backendKey _ _ _) as [kv|] eqn:Hkb; [|done].
  destruct (inv_backend s2 Hi2 _ _ _ Hs Hkb) as (b & Hu & Hok). rewrite Hu. intros a [= <-]. eapply HP; [later|done..].
Qed.
Lemma unmarshalAll_elem {A} `{Codec A} what kvs (l : list A) :
  unmarshalAll what kvs = inr l → ∀ k kv a, (k, kv) ∈ kvs → unmarshal (Value kv) = inr a → a ∈ l.
Proof.
  revert l. induction kvs as [|[k0 kv0] kvs IH]; intros l; simpl; [by intros _ k kv a ?%elem_of_nil|].
  destruct (unmarshal (Value kv0)) as [e|a0] eqn:Hu; [done|]. destruct (unmarshalAll what kvs) as [e|l0]; [done|].
  intros [= <-] k kv a [[= -> ->]|Hin]%elem_of_cons Ha; [rewrite Hu in Ha; injection Ha as ->; left|].
  right. by eapply IH.
Qed.
Lemma ListVIPs_gives P s : (∀ l s', rely s s' → Inv s' → P l s') → gives (ListVIPs keyPrefix) P s.
Proof. intros HP. apply gives_try, gives_wrap, gives_list. intros s' l ? Hi _. apply gives_ret; auto. Qed.
Lemma ListBackends_gives vid P s :
  Inv s →
  (∀ l s', rely s s' → Inv s' →
     (∀ bid kv b, s'.1 !! backendKey vid bid = Some kv → unmarshal (Value kv) = inr b → b ∈ l) → P l s') →
  gives (ListBackends keyPrefix vid) P s.
Proof.
  intros Hi HP. apply gives_check; [done|]. intros _. apply gives_try, gives_wrap, gives_list. intros s' l Hr Hi' Hl.
  apply gives_ret; [done|]. intros bs Hbs. apply HP; [done|done|]. intros bid kv b Hk Hu.
  eapply unmarshalAll_elem; [done| |done]. apply Hl. split; [done|]. apply hasPrefixS_spec. exists bid.
  keys. by rewrite !app_assoc_s.
Qed.
Lemma checkVIPTuple_gives vip P s :
  (∀ s', rely s s' → Inv s' → P tt s') → gives (checkVIPTupleAvailable keyPrefix vip) P s.
Proof.
  intros HP. apply gives_try, ListVIPs_gives. intros l s' Hr Hi. apply gives_ret; [done|].
  intros [] _. by apply HP.
Qed.
Lemma checkBackendIP_gives b P s :
  Inv s → (∀ s', rely s s' → Inv s' → P tt s') → gives (checkBackendIPAvailable keyPrefix b) P s.
Proof.
  intros Hi HP. apply gives_try, ListBackends_gives; [done|]. intros l s' Hr Hi' _. apply gives_ret; [done|].
  intros [] _. by apply HP.
Qed.
Lemma GetRevision_gives s : gives (GetRevision keyPrefix) (λ _ _, True) s.
Proof. apply gives_try, getRevisionValue_gives. intros. by apply gives_ret. Qed.
Lemma GetConfig_gives s : gives (GetConfig keyPrefix) (λ _ _, True) s.
Proof.
  apply gives_try, gives_wrap, ListVIPs_gives. intros vips s1 _ Hi1.
  apply gives_try, gives_wrap. eapply gives_mono; [|apply GetRevision_gives]. intros n s2 _ Hi2 _.
  apply gives_try, gives_wrap, gives_list. intros s3 l _ Hi3 _. apply gives_try, gives_ret; [done|].
  intros bs _. by apply gives_ret.
Qed.
Lemma initRevision_gives s : gives (initRevision keyPrefix) (λ _ _, True) s.
Proof.
  apply gives_wrap, gives_try, gives_txn; [|intros b s' _ Hi; by apply gives_ret].
  intros s' _ Hi Hc. simpl in Hc. rewrite andb_true_r in Hc. apply (version_zero s' revisionKey Hi) in Hc.
  destruct (inv_revision s' Hi) as (kv & n & Hk & _). congruence.
Qed.
Lemma IncrementRevision_gives n s : Inv s → gives (IncrementRevision keyPrefix n) (λ _ _, True) s.
Proof.
  revert s. induction n as [|n IH]; intros s Hi; simpl; [by apply gives_ret|].
  apply gives_try, getRevisionValue_gives. intros v s1 Hr1 Hi1 Hv1. apply gives_try, gives_ret; [done|]. intros m Hm.
  apply gives_try, gives_wrap, gives_txn; [|intros b s2 _ Hi2; destruct b; [by apply gives_ret|by apply IH]].
  intros s2 Hr2 Hi2 Hc rev Hrev. simpl in Hc. rewrite andb_true_r in Hc. apply bool_decide_eq_true in Hc.
  destruct (revision_number s1 v m Hi1 Hv1 Hm) as [-> _].
  destruct (revision_number s2 (FormatInt m) m Hi2 Hc) as [_ Hm2].
  { destruct (revision_number s1 _ m Hi1 Hv1 Hm). done. }
  apply (commit_write s2 rev m []); auto. simpl. by apply Inv_data.
Qed.

(** *** VIPs *)
Definition wfVIP (vip : VIP) : Prop := ascii (v_ID vip) ∧ ascii (v_VIP vip).
Definition wfBackend (b : Backend) : Prop := ascii (b_ID b) ∧ ascii (b_IP b).

Lemma prepare_same u vip old now : sameVIP vip (prepareHealthCheckForVIP u vip old now).
Proof. unfold prepareHealthCheckForVIP. by destruct (v_HealthCheck vip). Qed.

Lemma CreateVIP_gives vip s : Inv s → wfVIP vip → gives (CreateVIP outOfRange keyPrefix rounds vip) (λ _ _, True) s.
Proof.
  intros Hi [Ha Hav]. apply gives_check; [done|]. intros Hok.
  destruct (ValidateVIPForWrite_ids vip Hok) as (Hs & Hsp & Hap & Hae).
  apply gives_uuid. intros u1 Hu1 Hau1. apply gives_uuid. intros u2 _ _. apply gives_now. intros now.
  assert (let v := newVIP u1 u2 now vip in Store.noSlash (v_ID v) = true ∧ ascii (v_ID v) ∧
    v_VIP v = v_VIP vip ∧ v_Protocol v = v_Protocol vip ∧ v_EncapType v = v_EncapType vip) as Hnew.
  { unfold newVIP. destruct (prepare_same u2 (stampVIP (if bool_decide (v_ID vip = "") then u1 else v_ID vip)
      (if bool_decide (v_LBMethod vip = "") then LBMethodMaglev else v_LBMethod vip)
      (match v_CreatedAt vip with None => Some now | t => t end) now vip) None now) as (Hid & Hv & _ & Hp & He).
    simpl in *. rewrite <- Hid, <- Hv, <- Hp, <- He. by case_bool_decide. }
  destruct Hnew as (Hn1 & Hn2 & Hn3 & Hn4 & Hn5). remember (newVIP u1 u2 now vip) as v eqn:Ev. clear Ev.
  apply gives_try, gives_marshal; [done|]. intros data Hdata.
  destruct (vip_codec v data Hdata) as (w & Hw & Hsame); [done|congruence..|].
  apply gives_try, gives_wrap, checkVIPTuple_gives. intros s1 _ Hi1.
  apply gives_try, gives_wrap, commit_gives; [done| |intros; by apply gives_ret].
  intros s2 _ Hi2 Hc rev Hrev. simpl in Hc. apply andb_true_iff in Hc as [Hk [Hx _]%andb_true_iff].
  apply (version_zero s2 (vipKey (v_ID v)) Hi2) in Hk. apply (version_zero s2 (vipTupleIndexKey v) Hi2) in Hx.
  eapply create_data; eauto. congruence.
Qed.

(** The value of the revision key pins down the VIPs and backends that were read. *)
Lemma revision_pins (s0 s1 s2 : St) v :
  rely s0 s1 → rely s1 s2 → Value <$> s0.1 !! revisionKey = Some v → Value <$> s2.1 !! revisionKey = Some v →
  (∀ id, s2.1 !! vipKey id = s1.1 !! vipKey id) ∧ (∀ vid bid, s2.1 !! backendKey vid bid = s1.1 !! backendKey vid bid).
Proof.
  intros H01 H12 H0 H2. apply (rl_same _ _ H12).
  assert (revnum s0 = revnum s2) by (unfold revnum; by rewrite H0, H2).
  pose proof (rl_num _ _ H01). pose proof (rl_num _ _ H12). lia.
Qed.
Lemma UpdateVIP_gives vip s : Inv s → wfVIP vip → gives (UpdateVIP outOfRange keyPrefix rounds vip) (λ _ _, True) s.
Proof.
  intros Hi [Ha Hav]. apply gives_check; [done|]. intros _. apply gives_check; [done|]. intros Hok.
  destruct (ValidateVIPForWrite_ids vip Hok) as (Hs & Hsp & Hap & Hae).
  apply gives_try, getRevisionValue_gives. intros rv s0 _ Hi0 Hrv.
  apply gives_try, gives_wrap, GetVIP_gives; [done|]. intros kv existing s1 Hr1 Hi1 Hkv Hue Hexi.
  apply gives_try, gives_wrap, claimVIP_gives; [done|]. intros owned s2 Hr2 Hi2.
  apply gives_uuid. intros u _ _. apply gives_now. intros now.
  pose proof (prepare_same u (stampVIP (v_ID vip) (v_LBMethod vip) (v_CreatedAt existing) now vip) (Some existing) now)
    as (Hid & Hv & Hpo & Hp & He).
  remember (prepareHealthCheckForVIP u _ _ now) as v eqn:Ev. clear Ev. simpl in Hid, Hv, Hpo, Hp, He.
  apply gives_try, gives_marshal; [done|]. intros data Hdata.
  destruct (vip_codec v data Hdata) as (w & Hw & Hsame); [congruence..|].
  apply gives_try, gives_wrap, checkVIPTuple_gives. intros s3 Hr3 Hi3.
  apply gives_try, gives_wrap, ListBackends_gives; [done|]. intros bs s4 Hr4 Hi4 Hbs.
  apply gives_check; [done|]. intros Hfam.
  apply gives_try, gives_wrap, commit_gives; [done| |intros; by apply gives_ret].
  intros s5 Hr5 Hi5 Hc rev Hrev. unfold updateVIPChecks in Hc. rewrite !fmap_app, !forallb_app in Hc. simpl in Hc.
  apply andb_true_iff in Hc as [[_ [Hrv5%bool_decide_eq_true _]%andb_true_iff]%andb_true_iff [_ Hx]%andb_true_iff].
  destruct (revision_pins s0 s1 s5 rv) as [Pv _]; [done| |done|done|]; [do 3 (etransitivity; [eassumption|]); done|].
  destruct (revision_pins s0 s4 s5 rv) as [_ Pb]; [|done|done|done|]; [do 3 (etransitivity; [eassumption|]); done|].
  apply (updateVIP_data s5 rev v existing data w kv owned); try congruence; try done.
  - intros Hne. rewrite bool_decide_eq_true_2 in Hx by done. simpl in Hx. rewrite andb_true_r in Hx.
    by apply (version_zero s5 (vipTupleIndexKey v) Hi5) in Hx.
  - intros bid kvb b Hkb Hub. rewrite Pb in Hkb. eapply noError_each; [exact Hfam|]. by eapply Hbs.
Qed.

Lemma cleanupNotFound_gives {A} id (m : prog (err + A)) P s : gives m P s → gives (cleanupNotFound keyPrefix id m) P s.
Proof.
  intros Hm. apply safe_bind. eapply safe_mono; [|exact Hm]. intros [e|a] s' (Hi & Hr & Ha); [|by split_and!].
  destruct (isNotFound e); [|by split_and!]. apply safe_from; [done|]. apply gives_try.
  eapply gives_mono; [|by apply cleanup_gives]. intros _ s2 _ Hi2 _. by apply gives_ret.
Qed.
Lemma DeleteVIP_gives id s : Inv s → gives (DeleteVIP keyPrefix rounds id) (λ _ _, True) s.
Proof.
  intros Hi. apply gives_check; [done|]. intros Hok%ValidateResourceID_slash.
  apply gives_try, cleanupNotFound_gives, GetVIP_gives; [done|]. intros kv vip s1 Hr1 Hi1 _ _ [Hid _ _ _ _].
  apply gives_try, gives_wrap, claimVIP_gives; [done|]. intros owned s2 _ Hi2.
  apply gives_try, cleanupNotFound_gives, commit_gives; [done| |intros; by apply cleanup_gives].
  intros s3 _ Hi3 Hc rev Hrev. apply deleteVIP_data; [done|done|apply tupleIndex_like|intros b; diffkeys|].
  intros ->. unfold deleteVIPChecks in Hc. simpl in Hc.
  apply andb_true_iff in Hc as [_ [_ [Hv%bool_decide_eq_true _]%andb_true_iff]%andb_true_iff]. done.
Qed.

(** *** Backends *)
(** The modification revision pins down the parent that was read. *)
Lemma parent_pins (s1 s2 : St) id kv r :
  Inv s1 → rely s1 s2 → s1.1 !! vipKey id = Some kv → r = ModRevision kv →
  holds s2.1 (VersionAbove (vipKey id) 0) = true → holds s2.1 (ModRevisionIs (vipKey id) r) = true →
  s2.1 !! vipKey id = Some kv.
Proof.
  intros Hi Hr Hk -> [kv' Hk']%version_above Hm. simpl in Hm. rewrite Hk' in Hm. apply Z.eqb_eq in Hm. simpl in Hm.
  pose proof (inv_mod s1 Hi _ _ Hk). pose proof (rl_mod _ _ Hr _ _ Hk' ltac:(lia)). congruence.
Qed.
Lemma AddBackend_gives b s : Inv s → wfBackend b → gives (AddBackend keyPrefix rounds b) (λ _ _, True) s.
Proof.
  intros Hi [Ha Hai]. apply gives_check; [done|]. intros [Hs Hsv]%ValidateBackendForWrite_ids.
  apply gives_uuid. intros u Hu Hau. apply gives_now. intros now.
  remember (stampBackend _ _ _ now b) as c eqn:Ec.
  assert (Store.noSlash (b_ID c) = true ∧ ascii (b_ID c) ∧ b_VIPID c = b_VIPID b ∧ b_IP c = b_IP b) as (Hcs & Hca & Hcv & Hci)
    by (subst c; simpl; by case_bool_decide).
  clear Ec. apply gives_try, gives_marshal; [done|]. intros data Hdata.
  apply gives_try, gives_wrap, getVIP_gives. intros kv vip s1 Hr1 Hi1 Hk Hu1 [_ _ Hav _ _].
  destruct (backend_codec c data Hdata) as (w & Hw & Hsame); [done|done|congruence|].
  apply gives_check; [done|]. intros Hfam.
  apply gives_try, gives_wrap, checkBackendIP_gives; [done|]. intros s2 Hr2 Hi2.
  apply gives_try, gives_wrap, commit_gives; [done| |intros; by apply gives_ret].
  intros s3 Hr3 Hi3 Hc rev Hrev. unfold addBackendChecks in Hc. cbn [fmap list_fmap fst forallb] in Hc.
  rewrite !andb_true_iff in Hc. destruct Hc as (Hc1 & Hc2 & Hc3 & Hc4 & _).
  assert (s3.1 !! vipKey (b_VIPID c) = Some kv) as Hpar by (eapply (parent_pins s1 s3); eauto; later).
  apply (version_zero s3 (backendIndexKey (b_ID c)) Hi3) in Hc4.
  eapply (putBackend_data s3 rev c data w [OpPut (backendIPIndexKey (b_VIPID c) (b_IP c)) (b_ID c)]); eauto.
  - congruence.
  - intros kv' Hk'. congruence.
  - intros o ->%list_elem_of_singleton. eauto.
Qed.
Lemma UpdateBackend_gives b s : Inv s → wfBackend b → gives (UpdateBackend keyPrefix rounds b) (λ _ _, True) s.
Proof.
  intros Hi [Ha Hai]. apply gives_check; [done|]. intros _. apply gives_check; [done|]. intros _.
  apply gives_try, gives_wrap, GetBackend_gives; [done|]. intros existing vid s1 Hr1 Hi1 Hsv [Hid Hvid Hsb _ _ _].
  apply gives_try, gives_wrap, claimBackend_gives; [done|]. intros owned s2 Hr2 Hi2. apply gives_now. intros now.
  remember (stampBackend _ _ _ now b) as c eqn:Ec.
  assert (b_ID c = b_ID b ∧ b_VIPID c = vid ∧ b_IP c = b_IP b) as (Hci & Hcv & Hcip) by (by subst c).
  clear Ec. apply gives_check; [done|]. intros _.
  apply gives_try, gives_wrap, getVIP_gives. intros kv vip s3 Hr3 Hi3 Hk Hu3 [_ _ Hav _ _].
  apply gives_check; [done|]. intros Hfam. apply gives_try, gives_marshal; [done|]. intros data Hdata.
  destruct (backend_codec c data Hdata) as (w & Hw & Hsame); [congruence..|].
  apply gives_try, gives_wrap, checkBackendIP_gives; [done|]. intros s4 Hr4 Hi4.
  apply gives_try, gives_wrap, commit_gives; [done| |intros; by apply gives_ret].
  intros s5 Hr5 Hi5 Hc rev Hrev. unfold updateBackendChecks in Hc. rewrite fmap_app, forallb_app in Hc.
  cbn [fmap list_fmap fst forallb] in Hc. rewrite !andb_true_iff in Hc.
  destruct Hc as ((Hc1 & Hc2 & _ & _ & Hc5 & _) & _). apply bool_decide_eq_true in Hc5.
  assert (s5.1 !! vipKey (b_VIPID c) = Some kv) as Hpar by (eapply (parent_pins s3 s5); eauto; later).
  eapply (putBackend_data s5 rev c data w _ _ Hi5 Hw Hsame); [congruence..|by eauto| |reflexivity|].
  - intros kv' Hk'. rewrite Hk' in Hc5. by injection Hc5.
  - intros o. rewrite Hcv, Hvid. destruct (_ && _); intros Ho; rewrite ?elem_of_app, ?list_elem_of_singleton in Ho;
      [destruct Ho as [->| ->]|destruct Ho as [Ho| ->]; [by apply elem_of_nil in Ho|]]; eauto.
Unshelve. exact "".
Qed.
Lemma DeleteBackend_gives id s : Inv s → gives (DeleteBackend keyPrefix rounds id) (λ _ _, True) s.
Proof.
  intros Hi. apply gives_check; [done|]. intros _.
  apply gives_try, gives_wrap, GetBackend_gives; [done|]. intros b vid s1 Hr1 Hi1 Hsv [Hid Hvid _ _ _ _].
  apply gives_try, gives_wrap, claimBackend_gives; [done|]. intros owned s2 Hr2 Hi2.
  apply gives_wrap, commit_gives; [done| |done].
  intros s3 _ Hi3 Hc rev Hrev. unfold deleteBackendChecks in Hc. rewrite fmap_app, forallb_app in Hc.
  cbn [fmap list_fmap fst forallb] in Hc. rewrite !andb_true_iff in Hc. destruct Hc as ((_ & _ & Hc & _) & _).
  apply bool_decide_eq_true in Hc. apply deleteBackend_data; [done|by rewrite Hvid|done].
Qed.

(** ** Any number of clients *)
Inductive storeCall :=
  | CallInit | CallGetRevision | CallIncrementRevision | CallGetConfig
  | CallCreateVIP (vip : VIP) | CallUpdateVIP (vip : VIP) | CallDeleteVIP (id : string) | CallGetVIP (id : string) | CallListVIPs
  | CallAddBackend (b : Backend) | CallUpdateBackend (b : Backend) | CallDeleteBackend (id : string)
  | CallGetBackend (id : string) | CallListBackends (vipID : string).
Inductive answer :=
  | Done | Number (n : Z) | Snapshot (c : ConfigSnapshot) | VIPs (l : list VIP) | Backends (l : list Backend).
Definition wfCall (c : storeCall) : Prop :=
  match c with
  | CallCreateVIP vip | CallUpdateVIP vip => wfVIP vip
  | CallAddBackend b | CallUpdateBackend b => wfBackend b
  | _ => True
  end.
Definition answering {A} (f : A → answer) (m : prog (err + A)) : prog (err + answer) := a ←? m; mret (inr (f a)).
Definition run (c : storeCall) : prog (err + answer) :=
  match c with
  | CallInit => answering (λ _, Done) (initRevision keyPrefix)
  | CallGetRevision => answering Number (GetRevision keyPrefix)
  | CallIncrementRevision => answering Number (IncrementRevision keyPrefix rounds)
  | CallGetConfig => answering Snapshot (GetConfig keyPrefix)
  | CallCreateVIP vip => answering (λ v, VIPs [v]) (CreateVIP outOfRange keyPrefix rounds vip)
  | CallUpdateVIP vip => answering (λ v, VIPs [v]) (UpdateVIP outOfRange keyPrefix rounds vip)
  | CallDeleteVIP id => answering (λ _, Done) (DeleteVIP keyPrefix rounds id)
  | CallGetVIP id => answering (λ v, VIPs [v]) (GetVIP keyPrefix id)
  | CallListVIPs => answering VIPs (ListVIPs keyPrefix)
  | CallAddBackend b => answering (λ b, Backends [b]) (AddBackend keyPrefix rounds b)
  | CallUpdateBackend b => answering (λ b, Backends [b]) (UpdateBackend keyPrefix rounds b)
  | CallDeleteBackend id => answering (λ _, Done) (DeleteBackend keyPrefix rounds id)
  | CallGetBackend id => answering (λ b, Backends [b]) (GetBackend keyPrefix id)
  | CallListBackends id => answering Backends (ListBackends keyPrefix id)
  end.

(** etcd and the programs in progress: a client starts a call, or one of them does its
    next call of etcd. *)
Inductive cstep {E} `{Etcd E} : E * list (prog (err + answer)) → E * list (prog (err + answer)) → Prop :=
  | StepStart e ps c : wfCall c → cstep (e, ps) (e, ps ++ [run c])
  | StepGet e ps i k c r e' : ps !! i = Some (Get k c) → etcdGet k e = (r, e') → cstep (e, ps) (e', <[i := c r]> ps)
  | StepList e ps i p c r e' : ps !! i = Some (ListPrefix p c) → etcdList p e = (r, e') → cstep (e, ps) (e', <[i := c r]> ps)
  | StepTxn e ps i cmps ops c r e' :
      ps !! i = Some (Txn cmps ops c) → etcdTxn cmps ops e = (r, e') → cstep (e, ps) (e', <[i := c r]> ps)
  | StepNow e ps i c t : ps !! i = Some (Now c) → cstep (e, ps) (e, <[i := c t]> ps)
  | StepUUID e ps i c u : ps !! i = Some (NewUUID c) → Store.noSlash u = true → ascii u → cstep (e, ps) (e, <[i := c u]> ps).

Definition anything {A} (_ : A) (_ : St) : Prop := True.
Lemma answering_safe {A} (f : A → answer) (m : prog (err + A)) s :
  gives m (λ _ _, True) s → safe (answering f m) anything s.
Proof.
  intros Hm. apply safe_bind. eapply safe_mono; [|exact Hm]. intros [e|a] s' (Hi & _ & _); by simpl.
Qed.
Lemma run_safe c s : Inv s → wfCall c → safe (run c) anything s.
Proof.
  intros Hi Hc. destruct c; simpl in Hc; apply answering_safe.
  all: eauto using initRevision_gives, GetRevision_gives, IncrementRevision_gives, GetConfig_gives, CreateVIP_gives,
    UpdateVIP_gives, DeleteVIP_gives, AddBackend_gives, UpdateBackend_gives, DeleteBackend_gives.
  - by apply GetVIP_gives.
  - by apply ListVIPs_gives.
  - by apply GetBackend_gives.
  - by apply ListBackends_gives.
Qed.
Lemma safe_rely {A} (m : prog A) s s' : rely s s' → safe m anything s → safe m anything s'.
Proof.
  revert s s'. induction m as [a|k c IH|p c IH|cmps ops c IH|c IH|c IH]; intros s s' Hr; simpl; [done|..]; intros Hs.
  1-3: intros s2 Hr2; apply Hs; by etransitivity.
  - intros t. by eapply IH.
  - intros u Hu Hau. by eapply IH; [|apply Hs].
Qed.

Section Machine.
Context {E : Type} {HE : Etcd E} {LE : EtcdLaws E}.
Definition stateOf (e : E) : St := (view e, revisionOf e).
Definition machineOk (m : E * list (prog (err + answer))) : Prop :=
  Inv (stateOf m.1) ∧ Forall (λ p, safe p anything (stateOf m.1)) m.2.

Lemma others e e' ps i (p : prog (err + answer)) :
  rely (stateOf e) (stateOf e') → Forall (λ p, safe p anything (stateOf e)) ps → safe p anything (stateOf e') →
  Forall (λ p, safe p anything (stateOf e')) (<[i := p]> ps).
Proof.
  intros Hr Hps Hp. apply Forall_insert; [|done]. eapply Forall_impl; [exact Hps|]. intros q. by apply safe_rely.
Qed.
Lemma same_state (e e' : E) : view e' = view e ∧ revisionOf e' = revisionOf e → stateOf e' = stateOf e.
Proof. intros [Hv Hr]. unfold stateOf. by rewrite Hv, Hr. Qed.
Lemma txn_ok e cmps ops (c : err + bool → prog (err + answer)) r e' :
  Inv (stateOf e) → safe (Txn cmps ops c) anything (stateOf e) → etcdTxn cmps ops e = (r, e') →
  Inv (stateOf e') ∧ rely (stateOf e) (stateOf e') ∧ safe (c r) anything (stateOf e').
Proof.
  intros Hi Hs Ht. destruct (Hs (stateOf e)) as [Hno Hyes]; [reflexivity|done|].
  pose proof (txn_law e cmps ops r e' Ht) as Hl. cbv zeta in Hl.
  assert (r ≠ inr false → forallb (holds (view e)) cmps = true → (forallb isRead ops = true → r ≠ inr true) →
    (if forallb isRead ops then view e' = view e ∧ revisionOf e' = revisionOf e
     else (revisionOf e < revisionOf e')%Z ∧ view e' = applyOps (revisionOf e') ops (view e)) →
    Inv (stateOf e') ∧ rely (stateOf e) (stateOf e') ∧ safe (c r) anything (stateOf e')) as Happ.
  { intros Hr Hc Hread Hcase. specialize (Hyes Hc). destruct (forallb isRead ops).
    - rewrite (same_state _ _ Hcase). split_and!; [done|reflexivity|]. apply Hno; [by apply Hread|done].
    - destruct Hcase as [Hlt Hv]. assert (stateOf e' = (applyOps (revisionOf e') ops (view e), revisionOf e')) as ->
        by (unfold stateOf; by rewrite Hv).
      destruct (Hyes (revisionOf e')) as (? & ? & Hgo); [split; [done|apply revision_int64]|]. by split_and!; [..|apply Hgo]. }
  destruct r as [x|[]].
  - destruct Hl as [Hl|[Hc Hl]]; [|by apply Happ].
    rewrite (same_state _ _ Hl). split_and!; [done|reflexivity|by apply Hno].
  - destruct Hl as [Hc Hl]. destruct (forallb isRead ops) eqn:Hro; [|by apply Happ].
    rewrite (same_state _ _ Hl). split_and!; [done|reflexivity|by apply Hyes].
  - destruct Hl as [Hl Hc]. rewrite (same_state _ _ Hl). split_and!; [done|reflexivity|by apply Hno].
Qed.
Lemma cstep_ok m m' : cstep m m' → machineOk m → machineOk m'.
Proof.
  destruct 1 as [e ps c Hc|e ps i k c r e' Hp He|e ps i p c r e' Hp He|e ps i cmps ops c r e' Hp He|e ps i c t Hp
    |e ps i c u Hp Hu Hau]; intros [Hi Hps]; simpl in *; pose proof Hps as Hps';
    try (eapply Forall_lookup_1 in Hps'; [|exact Hp]).
  - split; [done|]. apply Forall_app. split; [done|]. constructor; [by apply run_safe|constructor].
  - destruct (get_law e k r e' He) as (Hv & Hr & Hval). pose proof (same_state e e' (conj Hv Hr)) as Hs.
    split; simpl; [by rewrite Hs|]. apply (others e e'); [by rewrite Hs|done|]. rewrite Hs. by apply Hps'.
  - destruct (list_law e p r e' He) as (Hv & Hr & Hval). pose proof (same_state e e' (conj Hv Hr)) as Hs.
    split; simpl; [by rewrite Hs|]. apply (others e e'); [by rewrite Hs|done|]. rewrite Hs. by apply Hps'.
  - destruct (txn_ok e cmps ops c r e' Hi Hps' He) as (Hi' & Hr & Hc). split; simpl; [done|]. by apply (others e e').
  - split; [done|]. apply (others e e); [done|done|]. apply Hps'.
  - split; [done|]. apply (others e e); [done|done|]. by apply Hps'.
Qed.

(** A store as its users rely on it. *)
Record Consistent (m : gmap string KV) : Prop := {
  cons_revision : ∃ kv n, m !! revisionKey = Some kv ∧ ParseInt (Value kv) = Some n ∧ (1 <= n)%Z;
  cons_vip : ∀ id kv, m !! vipKey id = Some kv → ∃ vip, unmarshal (Value kv) = inr vip ∧ v_ID vip = id;
  cons_tuple : ∀ id1 kv1 vip1 id2 kv2 vip2,
    m !! vipKey id1 = Some kv1 → unmarshal (Value kv1) = inr vip1 →
    m !! vipKey id2 = Some kv2 → unmarshal (Value kv2) = inr vip2 → sameVIPTuple vip1 vip2 = true → id1 = id2;
  cons_backend : ∀ vid bid kv, Store.noSlash vid = true → m !! backendKey vid bid = Some kv →
    ∃ b kvp vip, unmarshal (Value kv) = inr b ∧ b_ID b = bid ∧ b_VIPID b = vid ∧
      m !! vipKey vid = Some kvp ∧ unmarshal (Value kvp) = inr vip ∧ ValidateBackendAddressFamilyForVIP vip b = None;
  cons_index : ∀ vid bid kv, Store.noSlash vid = true → m !! backendKey vid bid = Some kv →
    Value <$> m !! backendIndexKey bid = Some vid;
}.
Lemma Inv_consistent s : Inv s → Consistent s.1.
Proof.
  intros [(kv & n & Hk & Hval & Hn) _ _ H64 Hv Hb _]. split.
  - exists kv, n. rewrite Hval, ParseInt_Format by lia. split_and!; [done|done|lia].
  - intros id kv' Hk'. destruct (Hv _ _ Hk') as (vip & Hu & [Hid _ _ _ _]). eauto.
  - intros id1 kv1 vip1 id2 kv2 vip2 Hk1 Hu1 Hk2 Hu2 Hsame.
    destruct (Hv _ _ Hk1) as (v1 & Hu1' & [_ _ _ _ Hx1]). destruct (Hv _ _ Hk2) as (v2 & Hu2' & [_ _ _ _ Hx2]).
    rewrite Hu1 in Hu1'. injection Hu1' as <-. rewrite Hu2 in Hu2'. injection Hu2' as <-.
    unfold sameVIPTuple in Hsame. apply andb_true_iff in Hsame as [[Ha%bool_decide_eq_true Hp%Z.eqb_eq]%andb_true_iff Hpr%bool_decide_eq_true].
    assert (vipTupleIndexKey vip1 = vipTupleIndexKey vip2) as He by (unfold Etcd.vipTupleIndexKey; by rewrite Ha, Hp, Hpr).
    rewrite He in Hx1. congruence.
  - intros vid bid kv' Hs Hk'. destruct (Hb _ _ _ Hs Hk') as (b & Hu & [? ? _ _ (kvp & vip & ? & ? & ?) _]).
    by exists b, kvp, vip.
  - intros vid bid kv' Hs Hk'. destruct (Hb _ _ _ Hs Hk') as (b & Hu & [_ _ _ _ _ ?]). done.
Qed.
Lemma initial_ok (e0 e1 : E) :
  view e0 = ∅ → (0 <= revisionOf e0)%Z → etcdTxn [VersionIs revisionKey 0] [OpPut revisionKey "1"] e0 = (inr true, e1) →
  machineOk (e1, []).
Proof.
  intros Hv Hr Ht. destruct (txn_law _ _ _ _ _ Ht) as [_ [Hlt He]]. simpl in He. rewrite Hv in He.
  split; [|constructor]. simpl. unfold stateOf. rewrite He.
  assert (∀ k, k ≠ revisionKey → applyOp (revisionOf e1) ∅ (OpPut revisionKey "1") !! k = None) as Hother
    by (intros k Hk; by rewrite lookup_put_ne by auto).
  assert (∀ k kv, applyOp (revisionOf e1) ∅ (OpPut revisionKey "1") !! k = Some kv →
    kv = {| Value := "1"; ModRevision := revisionOf e1; Version := 1 |}) as Hone.
  { intros k kv Hk. destruct (decide (k = revisionKey)) as [->|Hne]; [|by rewrite Hother in Hk].
    rewrite lookup_put_eq in Hk. by injection Hk as <-. }
  pose proof (revision_int64 e1). split; simpl; try done.
  - eexists _, 1%Z. split_and!; [apply lookup_put_eq|done|lia|lia].
  - intros k kv ->%Hone. done.
  - intros k kv ->%Hone. simpl. lia.
  - intros id kv. rewrite Hother by diffkeys. done.
  - intros vid bid kv _. rewrite Hother by diffkeys. done.
  - intros bid kv. rewrite Hother by diffkeys. done.
Qed.

(** C28. However any number of clients' calls interleave on a store that starts empty, with
    any failures of etcd (before or after a transaction was applied), every reachable
    store is consistent: the revision is a number, no two virtual IPs share address,
    port and protocol, every backend has an existing parent whose encapsulation its
    address family fits, and is found by its index. *)
Theorem etcd_consistent (e0 e1 e : E) ps :
  view e0 = ∅ → (0 <= revisionOf e0)%Z →
  etcdTxn [VersionIs revisionKey 0] [OpPut revisionKey "1"] e0 = (inr true, e1) →
  rtc cstep (e1, []) (e, ps) → Consistent (view e).
Proof.
  intros Hv Hr Ht Hsteps. apply (Inv_consistent (stateOf e)).
  enough (machineOk (e, ps)) as [? _] by done.
  assert (machineOk (e1, [])) as H0 by (by eapply initial_ok).
  revert H0. induction Hsteps; eauto using cstep_ok.
Qed.
End Machine.

End Safety.
End EtcdSafety.

(** ** A run of two clients *)
Module EtcdExamples.
Import Models Validation Etcd EtcdSafety.

#[local] Instance guts : HttpGuts :=
  {| ValidHostHeader := λ _, true; ValidHeaderFieldName := λ _, true; ValidHeaderFieldValue := λ _, true |}.
(** Codecs by numbers. *)
Definition number (p : positive) : string := pretty_N_go (N.pos p) "".
Definition unnumber (s : string) : option positive :=
  match parseDigits 0 (bytes_of s) with Some (Z.pos p) => Some p | _ => None end.
Lemma unnumber_number p : unnumber (number p) = Some p.
Proof. unfold unnumber, number. by rewrite parse_pretty_go. Qed.
#[local] Instance vipCodec : Codec VIP := {|
  marshal v := inr (number (encode (v_ID v, v_VIP v, v_Port v, v_Protocol v, v_EncapType v)));
  unmarshal s :=
    match unnumber s ≫= decode with
    | Some (id, ip, port, protocol, encap) =>
        inr {| v_ID := id; v_VIP := ip; v_Port := port; v_Protocol := protocol; v_LBMethod := ""; v_EncapType := encap;
               v_DSCP := None; v_CreatedAt := None; v_UpdatedAt := None; v_HealthCheck := None; v_Backends := [] |}
    | None => inl (ErrMsg "invalid character")
    end |}.
#[local] Instance backendCodec : Codec Backend := {|
  marshal b := inr (number (encode (b_ID b, b_VIPID b, b_IP b)));
  unmarshal s :=
    match unnumber s ≫= decode with
    | Some (id, vid, ip) => inr {| b_ID := id; b_VIPID := vid; b_IP := ip; b_Weight := 1; b_CreatedAt := None; b_UpdatedAt := None |}
    | None => inl (ErrMsg "invalid character")
    end |}.
#[local] Instance codecs : ResourceCodecs.
Proof.
  split.
  - intros v data [= <-] _ _ _ _. simpl. rewrite unnumber_number. simpl. rewrite decode_encode. by eexists.
  - intros b data [= <-] _ _ _. simpl. rewrite unnumber_number. simpl. rewrite decode_encode. by eexists.
Qed.

(** etcd in memory, which stops with its revisions. *)
Definition maxRevision : Z := (2 ^ 63 - 1)%Z.
#[local] Instance memory : Etcd (gmap string KV * Z) := {|
  view e := e.1;
  revisionOf e := (e.2 `min` maxRevision)%Z;
  etcdGet k := λ e, (inr (e.1 !! k), e);
  etcdList p := λ e, (inr (filter (λ kv, hasPrefixS p kv.1 = true) (map_to_list e.1)), e);
  etcdTxn cmps ops := λ e,
    if negb (forallb (holds e.1) cmps) then (inr false, e)
    else if forallb isRead ops then (inr true, e)
    else if (e.2 <? maxRevision)%Z then (inr true, (applyOps (e.2 + 1) ops e.1, (e.2 + 1)%Z))
    else (inl (ErrMsg "etcdserver: no space"), e) |}.
#[local] Instance memory_laws : EtcdLaws (gmap string KV * Z).
Proof.
  split.
  - intros e k r e' [= <- <-]. split_and!; [done|done|]. by intros v [= <-].
  - intros e p r e' [= <- <-]. split_and!; [done|done|]. intros l [= <-] k kv.
    rewrite list_elem_of_filter, elem_of_map_to_list. simpl. tauto.
  - intros e cmps ops r e'. simpl. destruct (forallb (holds e.1) cmps) eqn:Hc; simpl; [|by intros [= <- <-]].
    destruct (forallb isRead ops); [by intros [= <- <-]|].
    destruct (Z.ltb_spec e.2 maxRevision); intros [= <- <-]; simpl; [|by left].
    rewrite !Z.min_l by lia. split_and!; [done|lia|done].
  - intros e. simpl. unfold maxRevision. lia.
Qed.

Definition state : Type := (gmap string KV * Z) * list (prog (err + answer)).
Definition begin (c : storeCall) (m : state) : state := (m.1, m.2 ++ [run (λ _, 0%Z) "/arca-lb" 3 c]).
Definition step (i : nat) (m : state) : state :=
  match m.2 !! i with
  | Some (Get k c) => let '(r, e') := etcdGet k m.1 in (e', <[i := c r]> m.2)
  | Some (ListPrefix p c) => let '(r, e') := etcdList p m.1 in (e', <[i := c r]> m.2)
  | Some (Txn cmps ops c) => let '(r, e') := etcdTxn cmps ops m.1 in (e', <[i := c r]> m.2)
  | Some (Now c) => (m.1, <[i := c 1%Z]> m.2)
  | Some (NewUUID c) => (m.1, <[i := c "u"]> m.2)
  | _ => m
  end.
#[local] Abbreviation ran := (rtc (cstep (λ _, 0%Z) "/arca-lb" 3)).
Lemma ran_step i m m' : ran m m' → ran m (step i m').
Proof.
  intros Hr. etransitivity; [exact Hr|]. destruct m' as [e ps]. unfold step. simpl.
  destruct (ps !! i) as [[a|k c|p c|cmps ops c|c|c]|] eqn:Hi; try done.
  - apply rtc_once. by eapply StepGet.
  - apply rtc_once. by eapply StepList.
  - destruct (if negb _ then _ else _) as [r e'] eqn:He. apply rtc_once. by eapply StepTxn.
  - apply rtc_once. by eapply StepNow.
  - apply rtc_once. eapply StepUUID; [done|done|]. by repeat constructor.
Qed.
Lemma ran_begin c m m' : wfCall c → ran m m' → ran m (begin c m').
Proof. intros Hc Hr. etransitivity; [exact Hr|]. destruct m' as [e ps]. apply rtc_once. by apply StepStart. Qed.
Lemma ran_steps l m m' : ran m m' → ran m (foldl (flip step) m' l).
Proof. revert m'. induction l as [|i l IH]; intros m' Hr; simpl; [done|]. by apply IH, ran_step. Qed.

Definition web (id : string) : VIP :=
  {| v_ID := id; v_VIP := "192.0.2.1"; v_Port := 80; v_Protocol := "TCP"; v_LBMethod := "maglev"; v_EncapType := "";
     v_DSCP := None; v_CreatedAt := None; v_UpdatedAt := None; v_HealthCheck := None; v_Backends := [] |}.
Definition one : Backend :=
  {| b_ID := "one"; b_VIPID := "a"; b_IP := "10.0.0.1"; b_Weight := 1; b_CreatedAt := None; b_UpdatedAt := None |}.
Definition e1 : gmap string KV * Z := (etcdTxn [VersionIs "/arca-lb/revision" 0] [OpPut "/arca-lb/revision" "1"] (∅, 0%Z)).2.
(** Two clients create the same virtual IP: both see it free, one of them commits; then a
    backend is added. *)
Definition final : state :=
  foldl (flip step)
    (begin (CallAddBackend one)
      (foldl (flip step) (begin (CallCreateVIP (web "b")) (begin (CallCreateVIP (web "a")) (e1, [])))
        (concat (replicate 5 [0; 1]) ++ replicate 6 0 ++ replicate 9 1)))
    (replicate 12 2).

Lemma etcd_consistent_witness :
  Consistent "/arca-lb" (view final.1) ∧
  (is_Some (view final.1 !! "/arca-lb/vips/a") ∧ is_Some (view final.1 !! "/arca-lb/backends/a/one")) ∧
  match final.2 with
  | [Ret (inr (VIPs [v])); Ret (inl e); Ret (inr (Backends [b]))] =>
      v_ID v = "a" ∧ e = errorf "failed to put VIP to etcd: " Conflict ∧ b_VIPID b = "a"
  | _ => False
  end.
Proof.
  split_and!.
  - assert (ran (e1, []) final) as Hr.
    { apply ran_steps, ran_begin; [by repeat constructor|].
      apply ran_steps, ran_begin; [by repeat constructor|]. apply ran_begin; [by repeat constructor|done]. }
    destruct final as [e ps]. by apply (etcd_consistent (λ _, 0%Z) "/arca-lb" 3 (∅, 0%Z) e1 e ps).
  - vm_compute. eauto.
  - vm_compute. eauto.
  - vm_compute. done.
Defined.

(** *** Races the store does not keep out *)
Definition done_ (p : prog (err + answer)) : bool := match p with Ret _ => true | _ => false end.
Definition storedVIPs (m : state) : list VIP :=
  omap (λ p, match unmarshal (Value p.2) with inr v => Some v | inl _ => None end)
    (filter (λ p, hasPrefixS "/arca-lb/vips/" p.1 = true) (map_to_list (view m.1))).
Definition moved (id ip : string) : VIP :=
  {| v_ID := id; v_VIP := ip; v_Port := 80; v_Protocol := "TCP"; v_LBMethod := "maglev"; v_EncapType := "";
     v_DSCP := None; v_CreatedAt := None; v_UpdatedAt := None; v_HealthCheck := None; v_Backends := [] |}.
(** While one client updates a virtual IP it moves to another address under a second
    client; the first puts the index of the old address back. *)
Definition leaked : state :=
  let created := foldl (flip step) (begin (CallCreateVIP (web "a")) (e1, [])) (replicate 9 0) in
  let racing := begin (CallUpdateVIP (moved "a" "192.0.2.2")) (begin (CallUpdateVIP (web "a")) created) in
  foldl (flip step) racing ([1; 1] ++ replicate 14 2 ++ replicate 14 1).
Definition reuse : state := foldl (flip step) (begin (CallCreateVIP (web "b")) leaked) (replicate 14 3).
Lemma tuple_index_leak :
  forallb done_ reuse.2 = true ∧
  existsb (λ v, bool_decide (v_VIP v = "192.0.2.1")) (storedVIPs reuse) = false ∧
  match reuse.2 !! 3 with
  | Some (Ret (inl e)) => e = errorf "failed to put VIP to etcd: " Conflict
  | _ => False
  end.
Proof. vm_compute. done. Qed.

(** A configuration read while a virtual IP is created carries the new revision without
    the virtual IP. *)
Definition torn : state :=
  foldl (flip step) (begin (CallCreateVIP (web "a")) (begin CallGetConfig (e1, []))) ([0] ++ replicate 9 1 ++ [0; 0]).
Lemma torn_snapshot :
  forallb done_ torn.2 = true ∧
  match torn.2 !! 0 with
  | Some (Ret (inr (Snapshot c))) =>
      cs_VIPs c = [] ∧ (Value <$> view torn.1 !! "/arca-lb/revision") = Some (FormatInt (cs_Revision c)) ∧
      v_ID <$> storedVIPs torn = ["a"]
  | _ => False
  end.
Proof. vm_compute. done. Qed.
End EtcdExamples.
