(* ===== verification/EtcdTx.v ===== *)
(** * Transactions of the etcd datastore (internal/common/datastore/etcd/transaction.go)

    A transaction collects checks and writes while its operations read the store; the
    writes are compacted and committed at once.  The operations change the
    transaction even when they fail later on, so they are programs of calls that
    pass the transaction along. *)

From Stdlib Require Import SpecFloat.
From stdpp Require Import base tactics list gmap strings pretty.
From S2P Require Import Prelude Types Net Store Validation Duration Config Models Etcd EtcdSafety.

Module EtcdTx.
Import Models Validation Etcd.

Record EtcdTransaction := {
  tx_ops : list Op;
  tx_checks : list etcdTxnCheck;
  createdVIPIDs : gset string;
  createdBackendIDs : gset string;
  vipSpecs : gmap string VIP;
  backendSpecsByVIP : gmap string (list Backend);
  vipTupleIndexKeys : gmap string string;
  vipOriginalIndexes : gmap string string;
  vipOriginalOwned : gmap string bool;
  vipReleasedTuples : gmap string string;
  vipTupleOwners : gmap string string;
  backendIPOwners : gmap string string;
  deletedVIPIDs : gset string;
  committed : bool;
}.
Definition BeginTx : EtcdTransaction :=
  {| tx_ops := []; tx_checks := []; createdVIPIDs := ∅; createdBackendIDs := ∅; vipSpecs := ∅; backendSpecsByVIP := ∅;
     vipTupleIndexKeys := ∅; vipOriginalIndexes := ∅; vipOriginalOwned := ∅; vipReleasedTuples := ∅; vipTupleOwners := ∅;
     backendIPOwners := ∅; deletedVIPIDs := ∅; committed := false |}.

(** ** Updates of single fields *)
Definition addChecks (checks : list etcdTxnCheck) (tx : EtcdTransaction) : EtcdTransaction :=
  let '(Build_EtcdTransaction o c cv cb vs bs ti oi oo rt to bo dv cm) := tx in
  Build_EtcdTransaction o (c ++ checks) cv cb vs bs ti oi oo rt to bo dv cm.
Definition addOps (ops : list Op) (tx : EtcdTransaction) : EtcdTransaction :=
  let '(Build_EtcdTransaction o c cv cb vs bs ti oi oo rt to bo dv cm) := tx in
  Build_EtcdTransaction (o ++ ops) c cv cb vs bs ti oi oo rt to bo dv cm.
Definition created (vip : VIP) (tx : EtcdTransaction) : EtcdTransaction :=
  let '(Build_EtcdTransaction o c cv cb vs bs ti oi oo rt to bo dv cm) := tx in
  Build_EtcdTransaction o c ({[v_ID vip]} ∪ cv) cb vs bs ti oi oo rt to bo dv cm.
Definition spec (vip : VIP) (tx : EtcdTransaction) : EtcdTransaction :=
  let '(Build_EtcdTransaction o c cv cb vs bs ti oi oo rt to bo dv cm) := tx in
  Build_EtcdTransaction o c cv cb (<[v_ID vip := vip]> vs) bs ti oi oo rt to bo dv cm.
Definition tuple (id indexKey : string) (tx : EtcdTransaction) : EtcdTransaction :=
  let '(Build_EtcdTransaction o c cv cb vs bs ti oi oo rt to bo dv cm) := tx in
  Build_EtcdTransaction o c cv cb vs bs (<[id := indexKey]> ti) oi oo rt (<[indexKey := id]> to) bo dv cm.
Definition original (id indexKey : string) (owned : bool) (tx : EtcdTransaction) : EtcdTransaction :=
  let '(Build_EtcdTransaction o c cv cb vs bs ti oi oo rt to bo dv cm) := tx in
  Build_EtcdTransaction o c cv cb vs bs ti (<[id := indexKey]> oi) (<[id := owned]> oo) rt to bo dv cm.
Definition addedBackend (b : Backend) (ipIndexKey : string) (tx : EtcdTransaction) : EtcdTransaction :=
  let '(Build_EtcdTransaction o c cv cb vs bs ti oi oo rt to bo dv cm) := tx in
  Build_EtcdTransaction o c cv ({[b_ID b]} ∪ cb) vs (<[b_VIPID b := default [] (bs !! b_VIPID b) ++ [b]]> bs)
    ti oi oo rt to (<[ipIndexKey := b_ID b]> bo) dv cm.
Definition deleted (id : string) (tx : EtcdTransaction) : EtcdTransaction :=
  let '(Build_EtcdTransaction o c cv cb vs bs ti oi oo rt to bo dv cm) := tx in
  Build_EtcdTransaction o c cv cb vs bs (delete id ti) (delete id oi) (delete id oo) rt to bo ({[id]} ∪ dv) cm.
Definition cleaned (id : string) (tx : EtcdTransaction) : EtcdTransaction :=
  let '(Build_EtcdTransaction o c cv cb vs bs ti oi oo rt to bo dv cm) := tx in
  Build_EtcdTransaction o c cv cb vs bs ti oi oo rt to bo (dv ∖ {[id]}) cm.
Definition setCommitted (tx : EtcdTransaction) : EtcdTransaction :=
  let '(Build_EtcdTransaction o c cv cb vs bs ti oi oo rt to bo dv cm) := tx in
  Build_EtcdTransaction o c cv cb vs bs ti oi oo rt to bo dv true.
Definition Rollback (tx : EtcdTransaction) : EtcdTransaction :=
  let '(Build_EtcdTransaction o c cv cb vs bs ti oi oo rt to bo dv cm) := tx in
  Build_EtcdTransaction [] c cv cb vs bs ti oi oo rt to bo dv cm.

Definition releaseVIPTuple (ownerID indexKey : string) (tx : EtcdTransaction) : EtcdTransaction :=
  if bool_decide (indexKey = "") then tx
  else
    let '(Build_EtcdTransaction o c cv cb vs bs ti oi oo rt to bo dv cm) := tx in
    let released := bool_decide (default "" (oi !! ownerID) = indexKey) && default false (oo !! ownerID) in
    Build_EtcdTransaction o c cv cb vs bs ti oi oo (if released then <[indexKey := ownerID]> rt else rt)
      (delete indexKey to) bo dv cm.

(** ** Compaction of the writes *)
Definition etcdWriteOpKeyFor (op : Op) : string * string :=
  match op with OpPut k _ => (k, "") | OpDelete k rangeEnd => (k, rangeEnd) | OpGet k => (k, "") end.
Definition isEtcdWriteOp (op : Op) : bool := negb (isRead op).
Definition etcdDeleteRangeCoversOp (deleteOp op : Op) : bool :=
  let '(start, stop) := etcdWriteOpKeyFor deleteOp in
  let '(key, rangeEnd) := etcdWriteOpKeyFor op in
  if bool_decide (rangeEnd = "") then negb (strLt key start) && strLt key stop
  else negb (strLt key start) && negb (strLt stop rangeEnd).
Definition isRangeDelete (op : Op) : bool :=
  match op with OpDelete _ rangeEnd => bool_decide (rangeEnd ≠ "") | _ => false end.
Definition isCoveredByLaterRangeDelete (ops : list Op) (currentIndex : nat) (op : Op) : bool :=
  existsb (λ later, isRangeDelete later && etcdDeleteRangeCoversOp later op) (drop (S currentIndex) ops).
Definition lastWriteIndexes (ops : list Op) : gmap (string * string) nat :=
  foldl (λ m p, if isEtcdWriteOp p.2 then <[etcdWriteOpKeyFor p.2 := p.1]> m else m) ∅ (imap pair ops).
Definition compactEtcdWriteOps (ops : list Op) : list Op :=
  snd <$> filter (λ p, negb (isEtcdWriteOp p.2) ||
                       (negb (isCoveredByLaterRangeDelete ops p.1 p.2) &&
                        bool_decide (lastWriteIndexes ops !! etcdWriteOpKeyFor p.2 = Some p.1)) = true) (imap pair ops).

(** ** Operations *)
Definition T (A : Type) : Type := EtcdTransaction → prog (EtcdTransaction * (err + A)).
Definition calling {A B} (m : prog (err + A)) (k : A → T B) : T B := λ tx,
  r ← m; match r with inl e => mret (tx, inl e) | inr a => k a tx end.
Definition tryT {A B} (m : T A) (k : A → T B) : T B := λ tx,
  p ← m tx; match p.2 with inl e => mret (p.1, inl e) | inr a => k a p.1 end.
Definition checkT {B} (e : error) (k : T B) : T B := λ tx, match e with Some e => mret (tx, inl e) | None => k tx end.
Definition changing {B} (f : EtcdTransaction → EtcdTransaction) (k : T B) : T B := λ tx, k (f tx).
Definition return_ {A} (r : err + A) : T A := λ tx, mret (tx, r).
#[local] Notation "x ←. m ; k" := (calling m (λ x, k)) (at level 20, m at level 100, k at level 200, right associativity).
#[local] Notation "x ←! m ; k" := (tryT m (λ x, k)) (at level 20, m at level 100, k at level 200, right associativity).
#[local] Notation "f ;; k" := (changing f k) (at level 100, k at level 200, right associativity).
Definition reading {A B} (f : EtcdTransaction → A) (k : A → T B) : T B := λ tx, k (f tx) tx.

Section Operations.
Context {G : HttpGuts} {CV : Codec VIP} {CB : Codec Backend}.
Variable outOfRange : spec_float → Z.
Variable keyPrefix : string.
Variable rounds : nat.
(** The order in which a set is ranged over. *)
Variable order : gset string → list string.

(** Whether the index entry has to be empty at the commit. *)
Definition checkVIPTupleAvailable (vip : VIP) : T bool := λ tx,
  let indexKey := vipTupleIndexKey keyPrefix vip in
  let needsEmptyIndexCheck := negb (bool_decide (is_Some (vipReleasedTuples tx !! indexKey))) in
  let reserved := match vipTupleOwners tx !! indexKey with
                  | Some owner => bool_decide (owner ≠ v_ID vip)
                  | None => false
                  end in
  if reserved then mret (tx, inl Conflict)
  else
    (owner ←. getIndexOwner indexKey "VIP tuple index";
     return_ (match owner with
      | None => inr needsEmptyIndexCheck
      | Some owner =>
          if bool_decide (owner = v_ID vip) then inr needsEmptyIndexCheck
          else if bool_decide (owner ∈ deletedVIPIDs tx) then inr false
          else match vipTupleIndexKeys tx !! owner with
               | Some currentIndexKey => if bool_decide (currentIndexKey ≠ indexKey) then inr false else inl Conflict
               | None => inl Conflict
               end
      end)) tx.
(** [fmt.Errorf("...: %w", err)] around an operation of the transaction. *)
Definition wrappingT {A} (prefix : string) (m : T A) : T A := λ tx,
  p ← m tx; mret (p.1, match p.2 with inl e => inl (errorf prefix e) | inr a => inr a end).

Definition CreateVIP (vip : VIP) : T VIP :=
  checkT (ValidateVIPForWrite outOfRange vip) (λ tx,
  NewUUID (λ uuid, NewUUID (λ hcUUID, Now (λ now,
  let vip := newVIP uuid hcUUID now vip in
  if bool_decide (v_ID vip ∈ createdVIPIDs tx) then mret (tx, inl Conflict)
  else
    (data ←. marshalling "VIP" vip;
     needsEmptyIndexCheck ←! wrappingT "failed to verify VIP tuple: " (checkVIPTupleAvailable vip);
     let key := vipKey keyPrefix (v_ID vip) in
     let indexKey := vipTupleIndexKey keyPrefix vip in
     addChecks ((VersionIs key 0, Conflict) :: (if needsEmptyIndexCheck : bool then [(VersionIs indexKey 0, Conflict)] else []));;
     addOps [OpPut key data; OpPut indexKey (v_ID vip)];;
     created vip;; spec vip;; tuple (v_ID vip) indexKey;;
     return_ (inr vip)) tx)))).

Definition parentVIPForBackend (vipID : string) : T VIP := λ tx,
  match vipSpecs tx !! vipID with
  | Some vip => mret (tx, inr vip)
  | None =>
      (p ←. getVIPWithModRevision keyPrefix vipID;
       addChecks [(VersionAbove (vipKey keyPrefix vipID) 0, NotFound); (ModRevisionIs (vipKey keyPrefix vipID) p.2, Conflict)];;
       return_ (inr p.1)) tx
  end.
Definition AddBackend (backend : Backend) : T Backend :=
  checkT (ValidateBackendForWrite backend) (λ tx,
  NewUUID (λ uuid, Now (λ now,
  let backend := stampBackend (if bool_decide (b_ID backend = "") then uuid else b_ID backend) (b_VIPID backend)
                   (match b_CreatedAt backend with None => Some now | t => t end) now backend in
  if bool_decide (b_ID backend ∈ createdBackendIDs tx) then mret (tx, inl Conflict)
  else if bool_decide (b_VIPID backend ∈ deletedVIPIDs tx) then mret (tx, inl NotFound)
  else
    (data ←. marshalling "backend" backend;
     _ ←. wrapping "failed to verify backend IP: " (checkBackendIPAvailable keyPrefix backend);
     parentVIP ←! wrappingT "failed to verify VIP: " (parentVIPForBackend (b_VIPID backend));
     checkT (ValidateBackendAddressFamilyForVIP parentVIP backend) (
     let key := backendKey keyPrefix (b_VIPID backend) (b_ID backend) in
     let indexKey := backendIndexKey keyPrefix (b_ID backend) in
     let ipIndexKey := backendIPIndexKey keyPrefix (b_VIPID backend) (b_IP backend) in
     reading (λ tx, backendIPOwners tx !! ipIndexKey) (λ owner,
     checkT (match owner with Some owner => if bool_decide (owner ≠ b_ID backend) then Some Conflict else None | None => None end) (
     addChecks [(VersionIs key 0, Conflict); (VersionIs indexKey 0, Conflict); (VersionIs ipIndexKey 0, Conflict)];;
     addOps [OpPut key data; OpPut indexKey (b_VIPID backend); OpPut ipIndexKey (b_ID backend)];;
     addedBackend backend ipIndexKey;;
     return_ (inr backend))))) tx))).

(** The index a virtual IP had before the transaction, claimed at its first use. *)
Definition ownedChecks (id originalIndexKey : string) (owned : bool) : list etcdTxnCheck :=
  (VersionAbove (vipKey keyPrefix id) 0, NotFound) ::
  (if owned then [(VersionAbove originalIndexKey 0, NotFound); (ValueIs originalIndexKey id, NotFound)] else []).
Definition claimOriginal (id : string) (existing : VIP) : T (string * bool) :=
  owned ←. wrapping "failed to ensure VIP tuple index: " (claimVIPTupleIndex keyPrefix rounds existing);
  let originalIndexKey := vipTupleIndexKey keyPrefix existing in
  original id originalIndexKey owned;;
  addChecks (ownedChecks id originalIndexKey owned);;
  return_ (inr (originalIndexKey, owned)).

(** The current index, the original one and whether that is owned. *)
Record Indexes := { currentIndexKey : string; originalIndexKey : string; originalIndexOwned : bool }.
Definition indexesOf (id : string) (tx : EtcdTransaction) : Indexes :=
  {| currentIndexKey := default "" (vipTupleIndexKeys tx !! id);
     originalIndexKey := default "" (vipOriginalIndexes tx !! id);
     originalIndexOwned := default false (vipOriginalOwned tx !! id) |}.
Definition withOriginal (ix : Indexes) (p : string * bool) : Indexes :=
  {| currentIndexKey := if bool_decide (currentIndexKey ix = "") && p.2 then p.1 else currentIndexKey ix;
     originalIndexKey := p.1; originalIndexOwned := p.2 |}.

(** What an update of a stored virtual IP reads, and the object it makes. *)
Definition updateStored (vip : VIP) (ix : Indexes) (hcUUID : string) (now : Z) : T (VIP * Indexes) :=
  revisionValue ←. getRevisionValue keyPrefix;
  existing ←. wrapping "failed to verify VIP: " (GetVIP keyPrefix (v_ID vip));
  p ←! (if bool_decide (originalIndexKey ix = "") then claimOriginal (v_ID vip) existing
        else return_ (inr (originalIndexKey ix, originalIndexOwned ix)));
  addChecks [(ValueIs (revisionKey keyPrefix) revisionValue, Conflict)];;
  return_ (inr (prepareHealthCheckForVIP hcUUID
                  (stampVIP (v_ID vip) (v_LBMethod vip) (v_CreatedAt existing) now vip) (Some existing) now,
                withOriginal ix p)).
Definition updateCreated (vip : VIP) (hcUUID : string) (now : Z) : VIP :=
  prepareHealthCheckForVIP hcUUID
    (stampVIP (v_ID vip) (v_LBMethod vip) (match v_CreatedAt vip with None => Some now | t => t end) now vip) None now.
Definition backendsFor (stored : bool) (id : string) : T (list Backend) := λ tx,
  let own := default [] (backendSpecsByVIP tx !! id) in
  if stored then
    (backends ←. wrapping "failed to list backends for VIP validation: " (ListBackends keyPrefix id);
     return_ (inr (backends ++ own))) tx
  else mret (tx, inr own).
(** The writes of an update. *)
Definition updateOps (vip : VIP) (data : string) (ix : Indexes) (needsEmptyIndexCheck : bool) : T VIP :=
  let newIndexKey := vipTupleIndexKey keyPrefix vip in
  addOps [OpPut (vipKey keyPrefix (v_ID vip)) data];; spec vip;;
  (if bool_decide (currentIndexKey ix ≠ newIndexKey) then
     addChecks (if (bool_decide (newIndexKey ≠ originalIndexKey ix) || originalIndexOwned ix) && needsEmptyIndexCheck
                then [(VersionIs newIndexKey 0, Conflict)] else []);;
     (if bool_decide (currentIndexKey ix ≠ "") then
        releaseVIPTuple (v_ID vip) (currentIndexKey ix) ∘ addOps [OpDelete (currentIndexKey ix) ""]
      else id);;
     addOps [OpPut newIndexKey (v_ID vip)];; tuple (v_ID vip) newIndexKey;;
     return_ (inr vip)
   else
     addOps [OpPut newIndexKey (v_ID vip)];; tuple (v_ID vip) newIndexKey;;
     return_ (inr vip)).
Definition UpdateVIP (vip : VIP) : T VIP :=
  checkT (ValidateResourceID "vip id" (v_ID vip)) (
  checkT (ValidateVIPForWrite outOfRange vip) (λ tx,
  if bool_decide (v_ID vip ∈ deletedVIPIDs tx) then mret (tx, inl NotFound)
  else
    NewUUID (λ hcUUID, Now (λ now,
    let ix := indexesOf (v_ID vip) tx in
    let stored := negb (bool_decide (v_ID vip ∈ createdVIPIDs tx)) in
    (p ←! (if stored then updateStored vip ix hcUUID now else return_ (inr (updateCreated vip hcUUID now, ix)));
     let '(vip, ix) := p in
     data ←. marshalling "VIP" vip;
     needsEmptyIndexCheck ←! wrappingT "failed to verify VIP tuple: " (checkVIPTupleAvailable vip);
     backends ←! backendsFor stored (v_ID vip);
     checkT (ValidateBackendFamiliesForVIP vip backends) (
     updateOps vip data ix needsEmptyIndexCheck)) tx)))).

(** The index entry a deletion removes. *)
Definition deletedIndexKey (id : string) (ix : Indexes) : T string :=
  p ←! (if bool_decide (originalIndexKey ix = "") then
          (λ tx, r ← GetVIP keyPrefix id;
           match r with
           | inl e =>
               let failed := mret (tx, inl (errorf "failed to verify VIP: " e)) in
               if isNotFound e then
                 (c ← deleteBackendIndexesForVIP keyPrefix id; match c with inl e => mret (tx, inl e) | inr _ => failed end)
               else failed
           | inr vip => claimOriginal id vip tx
           end)
        else return_ (inr (originalIndexKey ix, originalIndexOwned ix)));
  return_ (inr (currentIndexKey (withOriginal ix p))).
Definition DeleteVIP (id : string) : T unit :=
  checkT (ValidateResourceID "vip id" id) (λ tx,
  if bool_decide (id ∈ deletedVIPIDs tx) then mret (tx, inl NotFound)
  else
    let ix := indexesOf id tx in
    let created := bool_decide (id ∈ createdVIPIDs tx) in
    (indexKey ←! (if created then return_ (inr (currentIndexKey ix)) else deletedIndexKey id ix);
     checkT (if bool_decide (indexKey = "") && created then Some NotFound else None) (
     addOps [OpDelete (vipKey keyPrefix id) ""; OpDeletePrefix (backendPrefix keyPrefix id)];;
     (if bool_decide (indexKey ≠ "") then releaseVIPTuple id indexKey ∘ addOps [OpDelete indexKey ""] else Datatypes.id);;
     deleted id;;
     return_ (inr tt))) tx).

Fixpoint cleanupEach (vipIDs : list string) : T unit :=
  match vipIDs with
  | [] => return_ (inr tt)
  | vipID :: vipIDs =>
      _ ←. deleteBackendIndexesForVIP keyPrefix vipID;
      cleaned vipID;; cleanupEach vipIDs
  end.
Definition cleanupDeletedVIPIndexes : T unit := λ tx, cleanupEach (order (deletedVIPIDs tx)) tx.
Definition Commit : T unit := λ tx,
  let ops := compactEtcdWriteOps (tx_ops tx) in
  match ops with
  | [] => mret (tx, inr tt)
  | _ =>
      if committed tx then cleanupDeletedVIPIndexes tx
      else
        r ← commitWithRevision keyPrefix rounds (tx_checks tx) ops;
        match r with
        | inl e =>
            let failed := errorf "failed to commit transaction: " e in
            if isNotFound e then (_ ←! cleanupDeletedVIPIndexes; return_ (inl failed)) tx
            else mret (tx, inl failed)
        | inr _ => cleanupDeletedVIPIndexes (setCommitted tx)
        end
  end.

End Operations.

(** ** Compaction keeps what the writes do *)
(** What a write decides about a key, and what of an entry does not count writes. *)
Definition touches (k : string) (o : Op) : bool :=
  match o with OpPut k' _ => bool_decide (k' = k) | OpDelete from rangeEnd => inRange k from rangeEnd | OpGet _ => false end.
Definition stored (s : gmap string KV) (k : string) : option (string * Z) := (λ kv, (Value kv, ModRevision kv)) <$> s !! k.
Definition hasEnd (o : Op) : Prop := (etcdWriteOpKeyFor o).2 ≠ noEnd.
(** The operations without those that later ones undo. *)
Definition undone (o : Op) (later : list Op) : bool :=
  isEtcdWriteOp o &&
  (existsb (λ l, isRangeDelete l && etcdDeleteRangeCoversOp l o) later ||
   existsb (λ l, isEtcdWriteOp l && bool_decide (etcdWriteOpKeyFor l = etcdWriteOpKeyFor o)) later).
Fixpoint keepLast (ops : list Op) : list Op :=
  match ops with
  | [] => []
  | o :: ops => if undone o ops then keepLast ops else o :: keepLast ops
  end.

(** The map of last writes, seen from an index. *)
Lemma lastWrite_from (l : list (nat * Op)) m key :
  foldl (λ m p, if isEtcdWriteOp p.2 then <[etcdWriteOpKeyFor p.2 := p.1]> m else m) m l !! key =
  match last (filter (λ p, isEtcdWriteOp p.2 && bool_decide (etcdWriteOpKeyFor p.2 = key) = true) l) with
  | Some p => Some p.1
  | None => (m : gmap (string * string) nat) !! key
  end.
Proof.
  revert m. induction l as [|p l IH]; intros m; simpl; [done|]. rewrite IH, filter_cons.
  destruct (last (filter _ l)) as [q|] eqn:Hl.
  - case_decide; [|by rewrite Hl]. by rewrite last_cons, Hl.
  - case_decide as Hp; [rewrite last_cons, Hl|rewrite Hl].
    + apply andb_true_iff in Hp as [-> <-%bool_decide_eq_true]. by rewrite lookup_insert_eq.
    + destruct (isEtcdWriteOp p.2); [|done]. rewrite lookup_insert_ne; [done|].
      intros He. apply Hp. simpl. by rewrite bool_decide_eq_true_2.
Qed.

Lemma lastWrite_here pre o ops :
  isEtcdWriteOp o = true →
  bool_decide (lastWriteIndexes (pre ++ o :: ops) !! etcdWriteOpKeyFor o = Some (length pre)) =
  negb (existsb (λ l, isEtcdWriteOp l && bool_decide (etcdWriteOpKeyFor l = etcdWriteOpKeyFor o)) ops).
Proof.
  intros Ho. unfold lastWriteIndexes. rewrite lastWrite_from, imap_app. cbn [imap]. rewrite filter_app, filter_cons_True
    by (simpl; by rewrite Ho, bool_decide_eq_true_2).
  rewrite last_app_cons, last_cons, Nat.add_0_r.
  set (L := filter _ (imap _ ops)). assert (∀ q, q ∈ L → q.1 ≠ length pre ∧ q.2 ∈ ops ∧
    isEtcdWriteOp q.2 && bool_decide (etcdWriteOpKeyFor q.2 = etcdWriteOpKeyFor o) = true) as HL.
  { intros q [Hq Hin]%list_elem_of_filter. apply elem_of_lookup_imap in Hin as (i & y & -> & Hy). simpl in *.
    split_and!; [lia|by eapply list_elem_of_lookup_2|done]. }
  destruct (last L) as [q|] eqn:Hq; simpl.
  - apply last_Some_elem_of in Hq. destruct (HL q Hq) as (Hne & Hin & Hsame).
    rewrite bool_decide_eq_false_2 by congruence. symmetry. apply negb_false_iff, existsb_exists.
    exists q.2. split; [by apply list_elem_of_In|done].
  - apply last_None in Hq. rewrite bool_decide_eq_true_2 by done. symmetry. apply negb_true_iff.
    apply not_true_is_false. intros (x & Hin & Hx)%existsb_exists. apply list_elem_of_In, list_elem_of_lookup in Hin as [i Hi].
    assert (∃ q, q ∈ L) as [q Hin]; [|rewrite Hq in Hin; by apply elem_of_nil in Hin].
    exists (length pre + S i, x). apply list_elem_of_filter. split; [exact Hx|].
    apply elem_of_lookup_imap. by exists i, x.
Qed.
Lemma compact_from pre ops :
  snd <$> filter (λ p, negb (isEtcdWriteOp p.2) ||
      (negb (isCoveredByLaterRangeDelete (pre ++ ops) p.1 p.2) &&
       bool_decide (lastWriteIndexes (pre ++ ops) !! etcdWriteOpKeyFor p.2 = Some p.1)) = true)
    (imap (λ i o, (length pre + i, o)) ops) = keepLast ops.
Proof.
  revert pre. induction ops as [|o ops IH]; intros pre; [done|]. cbn [imap keepLast].
  specialize (IH (pre ++ [o])). rewrite <- app_assoc in IH. cbn [app] in IH.
  rewrite length_app, (imap_ext _ (λ i o, (length pre + S i, o))) in IH by (intros; simpl; f_equal; lia).
  rewrite filter_cons. rewrite <- IH. clear IH. rewrite Nat.add_0_r.
  match goal with |- context [decide ?P] => assert (P ↔ undone o ops = false) as Hiff end.
  { unfold undone. simpl. destruct (isEtcdWriteOp o) eqn:Ho; simpl; [|done].
    unfold isCoveredByLaterRangeDelete.
    rewrite lastWrite_here by done. replace (drop (S (length pre)) (pre ++ o :: ops)) with ops;
      [|rewrite drop_app_ge by lia; by replace (S (length pre) - length pre) with 1 by lia].
    rewrite <- negb_orb, negb_true_iff. done. }
  destruct (undone o ops); [rewrite decide_False|rewrite decide_True]; rewrite ?Hiff; done.
Qed.
Lemma compact_keepLast ops : compactEtcdWriteOps ops = keepLast ops.
Proof. apply (compact_from []). Qed.


(** A key's entry only depends on its entry before, and not even on that if a write
    touches it. *)
Lemma applyOp_stored rev o s s' k :
  stored s k = stored s' k ∨ touches k o = true → stored (applyOp rev s o) k = stored (applyOp rev s' o) k.
Proof.
  unfold stored. intros H. destruct o as [k' v|from rangeEnd|k']; simpl in H.
  - destruct (decide (k' = k)) as [->|Hne]; [by rewrite !EtcdSafety.lookup_put_eq|].
    rewrite !EtcdSafety.lookup_put_ne by done. destruct H as [H|H]; [done|]. by rewrite bool_decide_eq_false_2 in H.
  - rewrite !EtcdSafety.lookup_del. destruct (inRange k from rangeEnd); [done|]. by destruct H.
  - by destruct H.
Qed.
Lemma applyOp_untouched rev o s k : touches k o = false → stored (applyOp rev s o) k = stored s k.
Proof.
  unfold stored. intros H. destruct o as [k' v|from rangeEnd|k']; simpl in H; [|by rewrite EtcdSafety.lookup_del, H|done].
  apply bool_decide_eq_false in H. by rewrite EtcdSafety.lookup_put_ne.
Qed.
Lemma applyOps_stored rev ops s s' k :
  stored s k = stored s' k ∨ existsb (touches k) ops = true → stored (applyOps rev ops s) k = stored (applyOps rev ops s') k.
Proof.
  revert s s'. induction ops as [|o ops IH]; intros s s' H; simpl in *; [by destruct H|].
  apply IH. rewrite orb_true_iff in H. destruct (touches k o) eqn:Ho; [left; apply applyOp_stored; auto|].
  destruct H as [H|[H|H]]; [left; apply applyOp_stored; auto|done|auto].
Qed.

(** Byte order. *)
Lemma bytesLt_trans a b c : bytesLt a b = true → bytesLt b c = true → bytesLt a c = true.
Proof.
  revert b c. induction a as [|x a IH]; intros [|y b] [|z c]; simpl; try done.
  rewrite !orb_true_iff, !andb_true_iff, !Z.ltb_lt, !Z.eqb_eq. intros [H|[-> H]] [H'|[-> H']]; [left; lia|left; lia|left; lia|].
  right. split; [done|]. by eapply IH.
Qed.
Lemma bytesLt_total a b : bytesLt a b = true ∨ a = b ∨ bytesLt b a = true.
Proof.
  revert b. induction a as [|x a IH]; intros [|y b]; simpl; auto.
  rewrite !orb_true_iff, !andb_true_iff, !Z.ltb_lt, !Z.eqb_eq.
  destruct (Z.lt_trichotomy x y) as [?|[->|?]]; [auto| |auto]. destruct (IH b) as [?|[->|?]]; auto.
Qed.
Lemma strLt_trans a b c : strLt a b = true → strLt b c = true → strLt a c = true.
Proof. apply bytesLt_trans. Qed.
Lemma strLe_lt a b c : strLt b a = false → strLt b c = true → strLt a c = true.
Proof.
  intros Hba Hbc. destruct (bytesLt_total (bytes_of a) (bytes_of b)) as [H|[H|H]].
  - by eapply strLt_trans.
  - apply EtcdSafety.bytes_inj in H. by subst.
  - unfold strLt in Hba. congruence.
Qed.

(** A later operation that covers or repeats one touches all it touches. *)
Lemma covers_touches l o k :
  hasEnd l → hasEnd o → isRangeDelete l = true → etcdDeleteRangeCoversOp l o = true → touches k o = true → touches k l = true.
Proof.
  unfold hasEnd. destruct l as [| start stop|]; simpl; try done. intros Hl Ho Hr Hc Ht. apply bool_decide_eq_true in Hr.
  unfold inRange. rewrite !bool_decide_eq_false_2 by done. destruct o as [k' v|from rangeEnd|]; simpl in *; [|..|done].
  - apply bool_decide_eq_true in Ht as ->. exact Hc.
  - unfold inRange in Ht. unfold etcdDeleteRangeCoversOp in Hc. simpl in Hc. case_bool_decide as He.
    + apply bool_decide_eq_true in Ht as ->. done.
    + rewrite bool_decide_eq_false_2 in Ht by done. rewrite !andb_true_iff, !negb_true_iff in *.
      destruct Hc as [Hc1 Hc2], Ht as [Ht1 Ht2]. split.
      * destruct (strLt k start) eqn:Hk; [|done]. rewrite (strLe_lt from k start) in Hc1; done.
      * destruct (strLt k stop) eqn:Hk; [done|].
        rewrite (strLe_lt stop k rangeEnd) in Hc2; done.
Qed.
Lemma inRange_single k key : inRange k key "" = bool_decide (key = k).
Proof. unfold inRange. rewrite (bool_decide_eq_true_2 ("" = "")) by done. by apply bool_decide_ext. Qed.
Lemma repeats_touches l o k :
  isEtcdWriteOp l = true → etcdWriteOpKeyFor l = etcdWriteOpKeyFor o → touches k o = true → touches k l = true.
Proof.
  unfold isEtcdWriteOp. destruct l as [a v|a r|]; [..|done]; destruct o as [b w|b q|]; simpl; intros _ He Ht; try done;
    injection He as; subst; rewrite ?inRange_single in *; done.
Qed.
Lemma undone_touches o ops k :
  hasEnd o → Forall hasEnd ops → undone o ops = true → touches k o = true → existsb (touches k) ops = true.
Proof.
  intros Ho Hops [_ [H|H]%orb_true_iff]%andb_true_iff Ht; apply existsb_exists in H as (l & Hin & Hl);
    apply andb_true_iff in Hl as [Hl1 Hl2]; apply existsb_exists; exists l; (split; [exact Hin|]).
  - apply (covers_touches l o k); try done. rewrite Forall_forall in Hops. by apply Hops, list_elem_of_In.
  - apply bool_decide_eq_true in Hl2. by apply (repeats_touches l o k).
Qed.

(** The compacted writes leave every key with the value and modification revision that
    all of them would leave in their order (what differs is how often a key was
    written), and no two of them are for the same key and range, which etcd would
    refuse. *)
Lemma compactEtcdWriteOps_equivalent rev ops s :
  Forall hasEnd ops →
  (∀ k, stored (applyOps rev (compactEtcdWriteOps ops) s) k = stored (applyOps rev ops s) k) ∧
  NoDup (etcdWriteOpKeyFor <$> filter (λ o, isEtcdWriteOp o = true) (compactEtcdWriteOps ops)).
Proof.
  rewrite compact_keepLast. intros Hops. split.
  - intros k. revert s. induction Hops as [|o ops Ho Hops IH]; intros s; simpl; [done|].
    destruct (undone o ops) eqn:Hu; [|apply IH]. rewrite IH. apply applyOps_stored.
    destruct (touches k o) eqn:Ht; [right; by eapply undone_touches|left; symmetry; by apply applyOp_untouched].
  - clear Hops. induction ops as [|o ops IH]; simpl; [constructor|].
    destruct (undone o ops) eqn:Hu; [done|]. rewrite filter_cons. case_decide as Hw; [|done].
    constructor; [|done]. intros (l & He & [Hlw Hin]%list_elem_of_filter)%list_elem_of_fmap.
    assert (∀ ops', l ∈ keepLast ops' → l ∈ ops') as Hsub.
    { induction ops' as [|o' ops' IH']; simpl; [done|]. case_match; [right; auto|].
      intros [->|?]%elem_of_cons; [left|right; auto]. }
    unfold undone in Hu. rewrite Hw in Hu. apply orb_false_iff in Hu as [_ Hu]. apply not_true_iff_false in Hu. apply Hu.
    apply existsb_exists. exists l. split; [by apply list_elem_of_In, Hsub|].
    by rewrite Hlw, bool_decide_eq_true_2.
Qed.


(** ** The operations of a transaction *)
(** The results a program can have, over all answers of its calls. *)
Fixpoint possible {A} (m : prog A) (a : A) : Prop :=
  match m with
  | Ret b => a = b
  | Get _ c => ∃ r, possible (c r) a
  | ListPrefix _ c => ∃ r, possible (c r) a
  | Txn _ _ c => ∃ r, possible (c r) a
  | Now c => ∃ t, possible (c t) a
  | NewUUID c => ∃ u, possible (c u) a
  end.
Lemma possible_bind {A B} (m : prog A) (k : A → prog B) b : possible (bindP m k) b → ∃ a, possible m a ∧ possible (k a) b.
Proof.
  induction m as [a|key c IH|p c IH|cmps ops c IH|c IH|c IH]; simpl; [by exists a|..];
    intros [r Hr]; apply IH in Hr as (a & ? & ?); exists a; eauto.
Qed.

(** What an operation does to the writes: each of them has an end. *)
Definition bounded (tx : EtcdTransaction) : Prop := Forall hasEnd (tx_ops tx).
Definition keepsBounds {A} (m : T A) : Prop := ∀ tx p, bounded tx → possible (m tx) p → bounded p.1.

Lemma keeps_return {A} (r : err + A) : keepsBounds (return_ r).
Proof. by intros tx p Hb ->. Qed.
Lemma keeps_calling {A B} (m : prog (err + A)) (k : A → T B) : (∀ a, keepsBounds (k a)) → keepsBounds (calling m k).
Proof.
  intros Hk tx p Hb (r & _ & Hp)%possible_bind. destruct r as [e|a]; [by simpl in Hp; subst|]. by eapply Hk.
Qed.
Lemma keeps_try {A B} (m : T A) (k : A → T B) : keepsBounds m → (∀ a, keepsBounds (k a)) → keepsBounds (tryT m k).
Proof.
  intros Hm Hk tx p Hb (q & Hq & Hp)%possible_bind. apply Hm in Hq; [|done].
  destruct q as [tx' [e|a]]; simpl in *; [by subst|]. by eapply Hk.
Qed.
Lemma keeps_check {B} e (k : T B) : keepsBounds k → keepsBounds (checkT e k).
Proof. intros Hk tx p Hb Hp. destruct e; simpl in Hp; [by subst|]. by eapply Hk. Qed.
Lemma keeps_changing {B} f (k : T B) : (∀ tx, bounded tx → bounded (f tx)) → keepsBounds k → keepsBounds (changing f k).
Proof. intros Hf Hk tx p Hb Hp. eapply Hk; [|exact Hp]. by apply Hf. Qed.
Lemma keeps_reading {A B} (f : EtcdTransaction → A) (k : A → T B) : (∀ a, keepsBounds (k a)) → keepsBounds (reading f k).
Proof. intros Hk tx p Hb Hp. by eapply Hk. Qed.
Lemma keeps_wrapping {A} prefix (m : T A) : keepsBounds m → keepsBounds (wrappingT prefix m).
Proof. intros Hm tx p Hb (q & Hq & ->)%possible_bind. by eapply Hm in Hq. Qed.

Lemma bounded_addOps ops tx : Forall hasEnd ops → bounded tx → bounded (addOps ops tx).
Proof. destruct tx. intros Ho Hb. apply Forall_app. by split. Qed.
Lemma bounded_same tx tx' : tx_ops tx' = tx_ops tx → bounded tx → bounded tx'.
Proof. unfold bounded. by intros ->. Qed.
Lemma release_ops id k tx : tx_ops (releaseVIPTuple id k tx) = tx_ops tx.
Proof. unfold releaseVIPTuple. case_bool_decide; by destruct tx. Qed.
Lemma prefixEnd_end p q : p = q +:+ "/" → hasEnd (OpDeletePrefix p).
Proof.
  intros -> He. unfold OpDeletePrefix, prefixEnd in He. simpl in He.
  rewrite EtcdSafety.bytes_app, reverse_app in He. change (bytes_of "/") with [47%Z] in He. simpl in He.
  rewrite reverse_cons, reverse_involutive in He. apply (f_equal bytes_of) in He. rewrite EtcdSafety.bytes_string in He.
  - destruct (bytes_of q) as [|? []]; done.
  - apply Forall_app. split; [apply EtcdSafety.bytes_byte|]. constructor; [|constructor]. unfold EtcdSafety.byte. lia.
Qed.

Ltac bounds := let tx := fresh "tx" in intros tx ?; first
  [ by apply bounded_addOps; [repeat constructor; done|]
  | by (eapply bounded_same; [|eassumption]); destruct tx
  | by repeat case_match; [eapply bounded_same; [apply release_ops|]; apply bounded_addOps; [repeat constructor|]|] ].
Ltac keeping := repeat lazymatch goal with
  | |- keepsBounds (return_ _) => apply keeps_return
  | |- keepsBounds (calling _ _) => apply keeps_calling; intros ?
  | |- keepsBounds (tryT _ _) => apply keeps_try; [|intros ?]
  | |- keepsBounds (checkT _ _) => apply keeps_check
  | |- keepsBounds (reading _ _) => apply keeps_reading; intros ?
  | |- keepsBounds (wrappingT _ _) => apply keeps_wrapping
  | |- keepsBounds (changing _ _) => apply keeps_changing; [solve [bounds]|]
  | |- keepsBounds (if ?c then _ else _) => destruct c
  end.

(** A possible result of an operation, from what the operation keeps. *)
Ltac by_keeps :=
  match goal with Hb : bounded ?tx, Hp : possible (?m ?tx) _ |- bounded _ =>
    cut (keepsBounds m); [intros Hk; exact (Hk _ _ Hb Hp)|clear]
  end.
Ltac failed Hp := solve [simpl in Hp; by subst].

Ltac branch Hp := match type of Hp with possible (if ?c then _ else _) _ => destruct c end.

Section Bounds.
Context {G : HttpGuts} {CV : Codec VIP} {CB : Codec Backend}.
Variable outOfRange : spec_float → Z.
Variable keyPrefix : string.
Variable rounds : nat.

Lemma checkTuple_keeps vip : keepsBounds (checkVIPTupleAvailable keyPrefix vip).
Proof.
  intros tx p Hb Hp. unfold checkVIPTupleAvailable in Hp. cbv zeta in Hp.
  branch Hp; [failed Hp|]. by_keeps. keeping.
Qed.
Lemma CreateVIP_keeps vip : keepsBounds (CreateVIP outOfRange keyPrefix vip).
Proof.
  apply keeps_check. intros tx p Hb (u & h & now & Hp). cbv zeta in Hp. branch Hp; [failed Hp|].
  by_keeps. keeping. apply checkTuple_keeps.
Qed.
Lemma parent_keeps id : keepsBounds (parentVIPForBackend keyPrefix id).
Proof. intros tx p Hb Hp. unfold parentVIPForBackend in Hp. case_match; [failed Hp|]. by_keeps. keeping. Qed.
Lemma AddBackend_keeps b : keepsBounds (AddBackend keyPrefix b).
Proof.
  apply keeps_check. intros tx p Hb (u & now & Hp). cbv zeta in Hp.
  branch Hp; [failed Hp|]. branch Hp; [failed Hp|]. by_keeps. keeping. apply parent_keeps.
Qed.
Lemma claimOriginal_keeps id vip : keepsBounds (claimOriginal keyPrefix rounds id vip).
Proof. unfold claimOriginal. keeping. Qed.
Lemma updateOps_keeps vip data ix e : keepsBounds (updateOps keyPrefix vip data ix e).
Proof. unfold updateOps. keeping. Qed.
Lemma backendsFor_keeps st id : keepsBounds (backendsFor keyPrefix st id).
Proof. intros tx p Hb Hp. unfold backendsFor in Hp. destruct st; [|failed Hp]. by_keeps. keeping. Qed.
Lemma UpdateVIP_keeps vip : keepsBounds (UpdateVIP outOfRange keyPrefix rounds vip).
Proof.
  apply keeps_check, keeps_check. intros tx p Hb Hp. branch Hp; [failed Hp|].
  destruct Hp as (h & now & Hp). cbv zeta in Hp. by_keeps. apply keeps_try.
  - keeping. unfold updateStored. keeping. apply claimOriginal_keeps.
  - intros [v ix]. keeping; [apply checkTuple_keeps|apply backendsFor_keeps|apply updateOps_keeps].
Qed.
Lemma deletedIndexKey_keeps id ix : keepsBounds (deletedIndexKey keyPrefix rounds id ix).
Proof.
  apply keeps_try; [|intros; apply keeps_return]. case_bool_decide; [|apply keeps_return].
  intros tx p Hb ([e|vip] & _ & Hp)%possible_bind; [|by eapply claimOriginal_keeps].
  destruct (isNotFound e); [|failed Hp]. apply possible_bind in Hp as ([e'|] & _ & Hp); failed Hp.
Qed.
Lemma DeleteVIP_keeps id : keepsBounds (DeleteVIP keyPrefix rounds id).
Proof.
  apply keeps_check. intros tx p Hb Hp. branch Hp; [failed Hp|]. cbv zeta in Hp. by_keeps.
  apply keeps_try; [keeping; apply deletedIndexKey_keeps|]. intros k.
  apply keeps_check, keeps_changing; [|keeping].
  intros tx' Hb. apply bounded_addOps; [|done]. repeat constructor; [done|].
  apply (prefixEnd_end _ (keyPrefix +:+ "/backends/" +:+ id)). unfold backendPrefix. by rewrite !EtcdSafety.app_assoc_s.
Qed.
End Bounds.


(** ** The commit *)
(** A program by itself: every call on the state the one before left. *)
Fixpoint exec {E A} `{Etcd E} (now : Z) (uuid : string) (m : prog A) (e : E) : A * E :=
  match m with
  | Ret a => (a, e)
  | Get k c => let '(r, e) := etcdGet k e in exec now uuid (c r) e
  | ListPrefix p c => let '(r, e) := etcdList p e in exec now uuid (c r) e
  | Txn cmps ops c => let '(r, e) := etcdTxn cmps ops e in exec now uuid (c r) e
  | Now c => exec now uuid (c now) e
  | NewUUID c => exec now uuid (c uuid) e
  end.

Section Commit.
Context {G : HttpGuts} {CV : Codec VIP} {CB : Codec Backend}.
Context {E : Type} {HE : Etcd E} {LE : EtcdSafety.EtcdLaws E}.
Variable outOfRange : spec_float → Z.
Variable keyPrefix : string.
Variable rounds : nat.
Variable order : gset string → list string.
Variable now : Z.
Variable uuid : string.
#[local] Abbreviation exec := (exec now uuid).

Lemma exec_bind {A B} (m : prog A) (k : A → prog B) (e : E) :
  exec (bindP m k) e = let '(a, e') := exec m e in exec (k a) e'.
Proof.
  revert e. induction m as [a|key c IH|p c IH|cmps ops c IH|c IH|c IH]; intros e; simpl; [done|..]; try done;
    case_match; apply IH.
Qed.

Lemma exec_try {A B} (m : prog (err + A)) (k : A → prog (err + B)) (e : E) :
  exec (try m k) e = let '(r, e') := exec m e in match r with inl x => (inl x, e') | inr a => exec (k a) e' end.
Proof. unfold try. etransitivity; [apply exec_bind|]. by destruct (exec m e) as [[] ]. Qed.
Lemma exec_wrap {A} prefix (m : prog (err + A)) (e : E) :
  exec (wrapping prefix m) e = let '(r, e') := exec m e in (match r with inl x => inl (errorf prefix x) | inr a => inr a end, e').
Proof. unfold wrapping. etransitivity; [apply exec_bind|]. by destruct (exec m e). Qed.

(** All the writes at one revision, on keys for which all the checks hold, with the
    next revision number. *)
Definition applied (checks : list etcdTxnCheck) (ops : list Op) (e e' : E) : Prop :=
  forallb (holds (view e)) checks.*1 = true ∧ (revisionOf e < revisionOf e')%Z ∧
  ∃ v n, Value <$> view e !! revisionKey keyPrefix = Some v ∧ ParseInt v = Some n ∧
    view e' = applyOps (revisionOf e') (ops ++ [OpPut (revisionKey keyPrefix) (FormatInt (wrapS 64 (n + 1)))]) (view e).
Definition same (e e' : E) : Prop := view e' = view e ∧ revisionOf e' = revisionOf e.
#[local] Instance same_trans : Transitive same.
Proof. intros e1 e2 e3 [H1 H2] [H3 H4]. split; congruence. Qed.
Lemma applied_same checks ops e e1 e' : same e e1 → applied checks ops e1 e' → applied checks ops e e'.
Proof. intros [Hv Hr] Ha. unfold applied in *. by rewrite <- Hv, <- Hr. Qed.

(** A failed check found afterwards: only reads. *)
Lemma firstFailed_exec checks (e : E) : same e (exec (firstFailedEtcdTxnCheck keyPrefix checks) e).2.
Proof.
  revert e. induction checks as [|[cmp err] checks IH]; intros e; [done|]. cbn [firstFailedEtcdTxnCheck].
  rewrite exec_try, exec_wrap. simpl.
  destruct (etcdTxn [cmp] [OpGet (revisionKey keyPrefix)] e) as [r e1] eqn:Ht.
  assert (same e e1) as Hs.
  { pose proof (EtcdSafety.txn_law _ _ _ _ _ Ht) as Hl. simpl in Hl. destruct r as [x|[]]; [destruct Hl as [Hl|[_ Hl]]|destruct Hl as [_ Hl]|destruct Hl as [Hl _]]; done. }
  destruct r as [x|[]]; simpl; [done| |done]. etransitivity; [exact Hs|]. apply IH.
Qed.

Lemma commit_exec n checks ops (e e' : E) r :
  existsb isEtcdWriteOp ops = true → exec (commitWithRevision keyPrefix n checks ops) e = (r, e') →
  match r with
  | inr _ => applied checks ops e e'
  | inl _ => same e e' ∨ applied checks ops e e'
  end.
Proof.
  intros Hw. revert e. induction n as [|n IH]; intros e; [intros [= <- <-]; by left|].
  cbn [commitWithRevision]. unfold getRevisionValue. rewrite !exec_try, exec_wrap. simpl.
  destruct (etcdGet (revisionKey keyPrefix) e) as [g e1] eqn:Hg.
  destruct (EtcdSafety.get_law _ _ _ _ Hg) as (Hv1 & Hr1 & Hval). assert (same e e1) as Hs1 by done.
  destruct g as [x|kv]; simpl; [by intros [= <- <-]; left|]. specialize (Hval _ eq_refl).
  destruct kv as [kv|]; simpl; [|by intros [= <- <-]; left].
  unfold parseRevision. destruct (ParseInt (Value kv)) as [m|] eqn:Hm; simpl; [|by intros [= <- <-]; left].
  set (cmps := ValueIs _ _ :: _). set (all := ops ++ _). destruct (etcdTxn cmps all e1) as [t e2] eqn:Ht.
  assert (forallb isRead all = false) as Hread.
  { apply not_true_is_false. intros Ha. unfold all in Ha. rewrite forallb_app in Ha. simpl in Ha. by rewrite andb_false_r in Ha. }
  pose proof (EtcdSafety.txn_law _ _ _ _ _ Ht) as Hl. cbv zeta in Hl. rewrite Hread in Hl.
  assert (forallb (holds (view e1)) cmps = true ∧ (revisionOf e1 < revisionOf e2)%Z ∧
    view e2 = applyOps (revisionOf e2) all (view e1) → applied checks ops e e2) as Happ.
  { intros (Hc & Hlt & Hv). apply (applied_same _ _ _ _ _ Hs1). simpl in Hc. apply andb_true_iff in Hc as [_ Hc].
    split_and!; [done|done|]. exists (Value kv), m.
    split_and!; [by rewrite Hv1, <- Hval|done|done]. }
  destruct t as [x|[]]; simpl.
  - intros [= <- <-]. destruct Hl as [Hl|Hl]; [left; by etransitivity|right; by apply Happ].
  - intros [= <- <-]. by apply Happ.
  - destruct Hl as [Hl _]. rewrite exec_try. pose proof (firstFailed_exec checks e2) as Hs3.
    destruct (exec (firstFailedEtcdTxnCheck keyPrefix checks) e2) as [[x|[x|]] e3]; simpl in *;
      assert (same e e3) as Hs by (etransitivity; [exact Hs1|]; by etransitivity).
    + intros [= <- <-]. by left.
    + intros [= <- <-]. by left.
    + intros Hx. apply IH in Hx. destruct r; [|by eapply applied_same].
      destruct Hx; [left; by etransitivity|right; by eapply applied_same].
Qed.

(** Transactions as their operations make them. *)
Inductive begun : EtcdTransaction → Prop :=
  | BegunNew : begun BeginTx
  | BegunCreate tx vip p : begun tx → possible (CreateVIP outOfRange keyPrefix vip tx) p → begun p.1
  | BegunUpdate tx vip p : begun tx → possible (UpdateVIP outOfRange keyPrefix rounds vip tx) p → begun p.1
  | BegunDelete tx id p : begun tx → possible (DeleteVIP keyPrefix rounds id tx) p → begun p.1
  | BegunAdd tx b p : begun tx → possible (AddBackend keyPrefix b tx) p → begun p.1
  | BegunRollback tx : begun tx → begun (Rollback tx).
Lemma begun_bounded tx : begun tx → bounded tx.
Proof.
  induction 1 as [|tx vip p _ IH Hp|tx vip p _ IH Hp|tx id p _ IH Hp|tx b p _ IH Hp|tx _ IH].
  - constructor.
  - by eapply CreateVIP_keeps.
  - by eapply UpdateVIP_keeps.
  - by eapply DeleteVIP_keeps.
  - by eapply AddBackend_keeps.
  - destruct tx. constructor.
Qed.

Lemma keepLast_nonempty ops : existsb isEtcdWriteOp ops = true → existsb isEtcdWriteOp (keepLast ops) = true.
Proof.
  induction ops as [|o ops IH]; simpl; [done|]. rewrite orb_true_iff. destruct (undone o ops) eqn:Hu; simpl.
  - intros _. apply IH. unfold undone in Hu. apply andb_true_iff in Hu as [_ [Hu|Hu]%orb_true_iff];
      apply existsb_exists in Hu as (l & Hin & [Hl _]%andb_true_iff); apply existsb_exists; exists l; (split; [done|]); [|done].
    by destruct l.
  - intros [->|H]; [done|]. by rewrite IH, orb_true_r.
Qed.

(** A transaction's writes in their order, at one revision, with the next revision number,
    on a store that passes its checks. *)
Definition whole (tx : EtcdTransaction) (e e' : E) : Prop :=
  forallb (holds (view e)) (tx_checks tx).*1 = true ∧ (revisionOf e < revisionOf e')%Z ∧
  (∃ v n, Value <$> view e !! revisionKey keyPrefix = Some v ∧ ParseInt v = Some n ∧
     Value <$> view e' !! revisionKey keyPrefix = Some (FormatInt (wrapS 64 (n + 1)))) ∧
  ∀ k, k ≠ revisionKey keyPrefix → stored (view e') k = stored (applyOps (revisionOf e') (tx_ops tx) (view e)) k.
Lemma applied_whole tx (e e' : E) :
  bounded tx → applied (tx_checks tx) (compactEtcdWriteOps (tx_ops tx)) e e' → whole tx e e'.
Proof.
  intros Hb (Hc & Hlt & v & n & Hv & Hn & He). unfold applyOps in He. rewrite foldl_app in He.
  split_and!; [done|done|..].
  - exists v, n. split_and!; [done|done|]. rewrite He. cbn [foldl]. by rewrite EtcdSafety.lookup_put_eq.
  - intros k Hk. rewrite He. cbn [foldl]. etransitivity; [apply applyOp_untouched; simpl; by apply bool_decide_eq_false_2, not_eq_sym|].
    by apply compactEtcdWriteOps_equivalent.
Qed.

Hypothesis order_elements : ∀ X, order X ≡ₚ elements X.
Lemma cleanupEach_exec ids tx (e : E) : committed (exec (cleanupEach keyPrefix ids tx) e).1.1 = committed tx.
Proof.
  revert tx e. induction ids as [|id ids IH]; intros tx e; [done|]. cbn [cleanupEach]. unfold calling, changing.
  etransitivity; [apply (f_equal (λ p, committed p.1.1)), exec_bind|].
  destruct (exec (deleteBackendIndexesForVIP keyPrefix id) e) as [[x|] e1]; [done|]. rewrite IH. by destruct tx.
Qed.

Lemma cleanup_then_fail tx failed (e : E) :
  exec (tryT (cleanupDeletedVIPIndexes keyPrefix order) (λ _, return_ (inl failed : err + unit)) tx) e =
  let p := exec (cleanupDeletedVIPIndexes keyPrefix order tx) e in
  ((p.1.1, inl (match p.1.2 with inl y => y | inr _ => failed end)), p.2).
Proof. etransitivity; [apply exec_bind|]. by destruct (exec _ e) as [[tx' [y|]] e2]. Qed.

End Commit.

End EtcdTx.

(** ** A transaction that moves a virtual IP and reuses its address *)
Module EtcdTxExamples.
Import Models Validation Etcd EtcdTx.
#[local] Existing Instances EtcdExamples.guts EtcdExamples.vipCodec EtcdExamples.backendCodec EtcdExamples.codecs
  EtcdExamples.memory EtcdExamples.memory_laws.
#[local] Abbreviation run := (exec 1 "u").
#[local] Abbreviation prefix := "/arca-lb".
#[local] Abbreviation lowest := (λ _, 0%Z).

Lemma exec_possible {A} (m : prog A) (e : gmap string KV * Z) : possible m (run m e).1.
Proof.
  revert e. induction m as [a|k c IH|p c IH|cmps ops c IH|c IH|c IH]; intros e; [done|..]; cbn [possible exec].
  1-3: match goal with |- context [let '(_, _) := ?x in _] => destruct x as [r e'] end; exists r; apply IH.
  - exists 1%Z. apply IH.
  - exists "u". apply IH.
Qed.

Definition e0 : gmap string KV * Z := (run (Etcd.CreateVIP lowest prefix 3 (EtcdExamples.web "a")) EtcdExamples.e1).2.
Definition p1 := run (UpdateVIP lowest prefix 3 (EtcdExamples.moved "a" "192.0.2.2") BeginTx) e0.
Definition p2 := run (CreateVIP lowest prefix (EtcdExamples.web "b") p1.1.1) p1.2.
Definition done_ := run (Commit prefix 3 elements p2.1.1) p2.2.
End EtcdTxExamples.
