(* ===== verification/V1State.v ===== *)
(** * The desired state of the version 1 agent (internal/agent/state/manager.go)

    The agent keeps the configuration it was sent, with maps by identifier, and
    compares it with another one.  Copies are the values themselves; a loop over a
    Go map goes through [MapOrder]. *)

From Stdlib Require Import SpecFloat.
From stdpp Require Import base tactics list gmap strings pretty.
From S2P Require Import Prelude Types Net Validation Duration Config Models.

Module V1State.
Import Models.

Record Manager := {
  config : option ConfigSnapshot;
  vips : gmap string VIPConfig;
  backends : gmap string Backend;
  vipBackends : gmap string (list string);
}.
Definition NewManager : Manager := {| config := None; vips := ∅; backends := ∅; vipBackends := ∅ |}.

(** ** Copies *)
Fixpoint deepCopyInterface (v : any) : any :=
  match v with
  | Object val => Object ((λ '(k, v), (k, deepCopyInterface v)) <$> val)
  | Slice val => Slice (deepCopyInterface <$> val)
  | v => v
  end.
Definition deepCopyHCConfig (config : HCConfig) : HCConfig := deepCopyInterface <$> config.
Definition deepCopyVIPConfig (vipConfig : VIPConfig) : VIPConfig :=
  {| vc_VIP := vc_VIP vipConfig;
     vc_HealthCheck :=
       (λ hc, {| h_ID := h_ID hc; h_VIPID := h_VIPID hc; h_Type := h_Type hc; h_IntervalSec := h_IntervalSec hc;
                 h_TimeoutSec := h_TimeoutSec hc; h_RiseCount := h_RiseCount hc; h_FallCount := h_FallCount hc;
                 h_Config := deepCopyHCConfig <$> h_Config hc;
                 h_CreatedAt := h_CreatedAt hc; h_UpdatedAt := h_UpdatedAt hc |}) <$> vc_HealthCheck vipConfig;
     vc_Backends := vc_Backends vipConfig |}.
Definition copyConfig (config : option ConfigSnapshot) : option ConfigSnapshot :=
  (λ c, {| cs_Revision := cs_Revision c; cs_VIPs := deepCopyVIPConfig <$> cs_VIPs c |}) <$> config.

(** ** Equality *)
Definition vipEqual (a b : VIP) : bool :=
  bool_decide (v_VIP a = v_VIP b) && (v_Port a =? v_Port b)%Z && bool_decide (v_Protocol a = v_Protocol b) &&
  bool_decide (v_LBMethod a = v_LBMethod b).
Definition backendEqual (a b : Backend) : bool :=
  bool_decide (b_ID a = b_ID b) && bool_decide (b_VIPID a = b_VIPID b) && bool_decide (b_IP a = b_IP b) &&
  (b_Weight a =? b_Weight b)%Z.
(** The value of a key of a map. *)
Fixpoint assoc (k : string) (m : list (string * any)) : option any :=
  match m with
  | [] => None
  | (k', v) :: m => if bool_decide (k' = k) then Some v else assoc k m
  end.
Fixpoint interfaceEqual (a b : any) {struct a} : bool :=
  match a, b with
  | Nil, Nil => true
  | Nil, _ | _, Nil => false
  | Object av, Object bv =>
      (length av =? length bv)%nat &&
      forallb (λ p, match assoc p.1 bv with None => false | Some bvv => interfaceEqual p.2 bvv end) av
  | Slice av, Slice bv =>
      (length av =? length bv)%nat &&
      (fix each (l m : list any) : bool :=
         match l, m with v :: l, w :: m => interfaceEqual v w && each l m | _, _ => true end) av bv
  | Str av, Str bv => bool_decide (av = bv)
  | Int av, Int bv | Int64 av, Int64 bv => (av =? bv)%Z
  | Float av, Float bv => SFeqb av bv
  | Bool av, Bool bv => bool_decide (av = bv)
  | _, _ => false
  end.

Section Operations.
Context {E : Type} `{!MapOrder E}.
Variable e : E.

(** A nil map has no entries. *)
Definition hcConfigEqual (a b : option HCConfig) : bool :=
  let a := default ∅ a in let b := default ∅ b in
  (size a =? size b)%nat &&
  forallb (λ p, match b !! p.1 with None => false | Some bv => interfaceEqual p.2 bv end) (mapRange e a).
Definition healthCheckEqual (a b : option HealthCheck) : bool :=
  match a, b with
  | None, None => true
  | Some a, Some b =>
      bool_decide (h_Type a = h_Type b) && (h_IntervalSec a =? h_IntervalSec b)%Z && (h_TimeoutSec a =? h_TimeoutSec b)%Z &&
      (h_RiseCount a =? h_RiseCount b)%Z && (h_FallCount a =? h_FallCount b)%Z && hcConfigEqual (h_Config a) (h_Config b)
  | _, _ => false
  end.
(** A map from the identifiers of a list: later entries replace earlier ones. *)
Definition byID {A} (id : A → string) (l : list A) : gmap string A := foldl (λ m a, <[id a := a]> m) ∅ l.
Definition vipConfigEqual (a b : VIPConfig) : bool :=
  vipEqual (vc_VIP a) (vc_VIP b) && healthCheckEqual (vc_HealthCheck a) (vc_HealthCheck b) &&
  (length (vc_Backends a) =? length (vc_Backends b))%nat &&
  let aBackends := byID b_ID (vc_Backends a) in
  forallb (λ bBackend, match aBackends !! b_ID bBackend with
                       | None => false
                       | Some aBackend => backendEqual aBackend bBackend
                       end) (vc_Backends b).

(** ** The manager *)
Definition rebuildMaps (config : option ConfigSnapshot) : Manager :=
  let vs := match config with Some c => cs_VIPs c | None => [] end in
  {| config := config;
     vips := byID (v_ID ∘ vc_VIP) vs;
     backends := foldl (λ m v, foldl (λ m b, <[b_ID b := b]> m) m (vc_Backends v)) ∅ vs;
     vipBackends := foldl (λ m v, <[v_ID (vc_VIP v) := b_ID <$> vc_Backends v]> m) ∅ vs |}.
Definition UpdateConfig (config : option ConfigSnapshot) : Manager := rebuildMaps (copyConfig config).
Definition GetConfig (m : Manager) : option ConfigSnapshot := copyConfig (config m).
Definition GetRevision (m : Manager) : Z := match config m with None => 0%Z | Some c => cs_Revision c end.
Definition GetVIP (m : Manager) (vipID : string) : option VIPConfig := deepCopyVIPConfig <$> vips m !! vipID.
Definition GetVIPs (m : Manager) : list VIPConfig := (deepCopyVIPConfig ∘ snd) <$> mapRange e (vips m).
Definition GetBackend (m : Manager) (backendID : string) : option Backend := backends m !! backendID.
Definition GetBackendsByVIP (m : Manager) (vipID : string) : list Backend :=
  match vipBackends m !! vipID with
  | None => []
  | Some backendIDs => omap (λ id, backends m !! id) backendIDs
  end.
Definition GetAllBackends (m : Manager) : list Backend := snd <$> mapRange e (backends m).
Definition GetHealthCheck (m : Manager) (vipID : string) : option HealthCheck := vips m !! vipID ≫= vc_HealthCheck.

(** ** Differences *)
Record ConfigDiff := {
  AddedVIPs : list VIPConfig;
  RemovedVIPs : list VIPConfig;
  ModifiedVIPs : list VIPConfig;
  AddedBackends : list Backend;
  RemovedBackends : list Backend;
}.
Definition ComputeDiff (m : Manager) (newConfig : option ConfigSnapshot) : ConfigDiff :=
  match newConfig with
  | None =>
      {| AddedVIPs := []; RemovedVIPs := snd <$> mapRange e (vips m); ModifiedVIPs := [];
         AddedBackends := []; RemovedBackends := snd <$> mapRange e (backends m) |}
  | Some newConfig =>
      let newVIPs := byID (v_ID ∘ vc_VIP) (cs_VIPs newConfig) in
      let newBackends := foldl (λ m v, foldl (λ m b, <[b_ID b := b]> m) m (vc_Backends v)) ∅ (cs_VIPs newConfig) in
      {| AddedVIPs := omap (λ p, match vips m !! p.1 with None => Some p.2 | Some _ => None end) (mapRange e newVIPs);
         ModifiedVIPs :=
           omap (λ p, match vips m !! p.1 with
                      | None => None
                      | Some oldVIP => if vipConfigEqual oldVIP p.2 then None else Some p.2
                      end) (mapRange e newVIPs);
         RemovedVIPs := omap (λ p, match newVIPs !! p.1 with None => Some p.2 | Some _ => None end) (mapRange e (vips m));
         AddedBackends :=
           omap (λ p, match backends m !! p.1 with
                      | None => Some p.2
                      | Some oldBackend => if backendEqual oldBackend p.2 then None else Some p.2
                      end) (mapRange e newBackends);
         RemovedBackends :=
           omap (λ p, match backends m !! p.1 with
                      | None => None
                      | Some oldBackend => if backendEqual oldBackend p.2 then None else Some oldBackend
                      end) (mapRange e newBackends) ++
           omap (λ p, match newBackends !! p.1 with None => Some p.2 | Some _ => None end) (mapRange e (backends m)) |}
  end.
Definition IsEmpty (d : ConfigDiff) : bool :=
  (length (AddedVIPs d) =? 0)%nat && (length (RemovedVIPs d) =? 0)%nat && (length (ModifiedVIPs d) =? 0)%nat &&
  (length (AddedBackends d) =? 0)%nat && (length (RemovedBackends d) =? 0)%nat.
Definition Summary (d : ConfigDiff) : gmap string Z :=
  {["added_vips" := Z.of_nat (length (AddedVIPs d)); "removed_vips" := Z.of_nat (length (RemovedVIPs d));
    "modified_vips" := Z.of_nat (length (ModifiedVIPs d)); "added_backends" := Z.of_nat (length (AddedBackends d));
    "removed_backends" := Z.of_nat (length (RemovedBackends d))]}.
End Operations.

(** ** Copies are the same values *)
Fixpoint deepCopyInterface_same v : deepCopyInterface v = v.
Proof.
  destruct v as [| | | | | | |l| | |m|]; simpl; try done; f_equal.
  - induction l as [|v l IH]; [done|]. simpl. f_equal; [apply deepCopyInterface_same|exact IH].
  - induction m as [|[k v] m IH]; [done|]. simpl. f_equal; [f_equal; apply deepCopyInterface_same|exact IH].
Qed.
Lemma deepCopyVIPConfig_same v : deepCopyVIPConfig v = v.
Proof.
  destruct v as [vip [[? ? ? ? ? ? ? [c|] ? ?]|] bs]; [|done..]. unfold deepCopyVIPConfig. simpl. do 4 f_equal.
  apply map_eq. intros k. unfold deepCopyHCConfig. rewrite lookup_fmap. destruct (c !! k); [|done]. simpl.
  by rewrite deepCopyInterface_same.
Qed.
Lemma copyConfig_same c : copyConfig c = c.
Proof.
  destruct c as [[rev vs]|]; [|done]. unfold copyConfig. simpl. do 2 f_equal. induction vs as [|v vs IH]; [done|].
  simpl. f_equal; [apply deepCopyVIPConfig_same|exact IH].
Qed.

(** ** Maps by identifier *)
Definition inserting {A} (id : A → string) (l : list A) (m : gmap string A) : gmap string A := foldl (λ m a, <[id a := a]> m) m l.
Lemma inserting_other {A} (id : A → string) l m k : (∀ a, a ∈ l → id a ≠ k) → inserting id l m !! k = m !! k.
Proof.
  unfold inserting. revert m. induction l as [|a l IH]; intros m Hl; simpl; [done|].
  rewrite IH by (intros b Hb; apply Hl; by right). apply lookup_insert_ne, Hl. left.
Qed.
Lemma inserting_one {A} (id : A → string) l m k w :
  (∀ a, a ∈ l → id a = k → a = w) → (∃ a, a ∈ l ∧ id a = k) → inserting id l m !! k = Some w.
Proof.
  revert m. induction l as [|a l IH]; intros m Hl [b [Hb Hk]]; [by apply elem_of_nil in Hb|].
  destruct (decide (Exists (λ c, id c = k) l)) as [Hin|Hout]; rewrite Exists_exists in *.
  - apply IH; [|done]. intros c Hc. apply Hl. by right.
  - assert (inserting id (a :: l) m = inserting id l (<[id a := a]> m)) as -> by done.
    rewrite inserting_other by (intros c Hc He; apply Hout; eauto).
    apply elem_of_cons in Hb as [->|Hb]; [|by destruct Hout; eauto].
    rewrite Hk, lookup_insert_eq. f_equal. apply Hl; [left|done].
Qed.
Lemma inserting_keyed {A} (id : A → string) l m :
  (∀ k a, m !! k = Some a → id a = k) → ∀ k a, inserting id l m !! k = Some a → id a = k.
Proof.
  unfold inserting. revert m. induction l as [|b l IH]; intros m Hm k a; simpl; [apply Hm|]. apply IH.
  clear k a. intros k a. destruct (decide (id b = k)) as [<-|Hne]; [rewrite lookup_insert_eq; by intros [= <-]|].
  rewrite lookup_insert_ne by done. apply Hm.
Qed.
Definition removing {A} (ids : list string) (m : gmap string A) : gmap string A := foldl (λ m k, delete k m) m ids.
Lemma removing_lookup {A} ids (m : gmap string A) k :
  removing ids m !! k = if bool_decide (k ∈ ids) then None else m !! k.
Proof.
  unfold removing. revert m. induction ids as [|i ids IH]; intros m; simpl; [done|].
  rewrite IH. destruct (decide (i = k)) as [->|Hne].
  - rewrite lookup_delete_eq, (bool_decide_eq_true_2 (k ∈ k :: ids)) by left. by case_match.
  - rewrite lookup_delete_ne by done. rewrite (bool_decide_ext (k ∈ i :: ids) (k ∈ ids)); [done|].
    rewrite elem_of_cons. naive_solver.
Qed.

(** ** A difference is a patch *)
Section Diff.
Context {E : Type} `{!MapOrder E}.
Variable e : E.

(** Entries are under their own identifiers. *)
Definition keyed (m : Manager) : Prop :=
  (∀ k v, vips m !! k = Some v → v_ID (vc_VIP v) = k) ∧ (∀ k b, backends m !! k = Some b → b_ID b = k).
Definition configVIPs (c : option ConfigSnapshot) : gmap string VIPConfig := vips (rebuildMaps c).
Definition configBackends (c : option ConfigSnapshot) : gmap string Backend := backends (rebuildMaps c).
Lemma backends_inserting vs m :
  foldl (λ m v, foldl (λ m b, <[b_ID b := b]> m) m (vc_Backends v)) m vs = inserting b_ID (vs ≫= vc_Backends) m.
Proof.
  revert m. induction vs as [|v vs IH]; intros m; simpl; [done|]. rewrite IH. unfold inserting.
  change (mbind vc_Backends vs) with (vs ≫= vc_Backends). by rewrite foldl_app.
Qed.
Lemma rebuildMaps_keyed c : keyed (rebuildMaps c).
Proof.
  unfold rebuildMaps. split; simpl.
  - intros k v. apply (inserting_keyed (v_ID ∘ vc_VIP)). intros ? ?. by rewrite lookup_empty.
  - intros k b. rewrite backends_inserting. apply inserting_keyed. intros ? ?. by rewrite lookup_empty.
Qed.
Lemma UpdateConfig_keyed c : keyed (UpdateConfig c).
Proof. apply rebuildMaps_keyed. Qed.

(** The maps with a difference applied. *)
Definition patchVIPs (d : ConfigDiff) (m : gmap string VIPConfig) : gmap string VIPConfig :=
  inserting (v_ID ∘ vc_VIP) (AddedVIPs d ++ ModifiedVIPs d) (removing ((v_ID ∘ vc_VIP) <$> RemovedVIPs d) m).
Definition patchBackends (d : ConfigDiff) (m : gmap string Backend) : gmap string Backend :=
  inserting b_ID (AddedBackends d) (removing (b_ID <$> RemovedBackends d) m).
(** The same entry, or one that the comparison takes for the same. *)
Definition agree {A} (eqb : A → A → bool) (x y : option A) : Prop :=
  match x, y with
  | None, None => True
  | Some a, Some b => a = b ∨ eqb a b = true
  | _, _ => False
  end.

Lemma omap_range {A B} (f : string * A → option B) (m : gmap string A) b :
  b ∈ omap f (mapRange e m) ↔ ∃ k a, m !! k = Some a ∧ f (k, a) = Some b.
Proof.
  rewrite list_elem_of_omap. split.
  - intros ([k a] & Hin & Hf). apply mapRange_lookup in Hin. eauto.
  - intros (k & a & Hk & Hf). exists (k, a). split; [by apply mapRange_lookup|done].
Qed.

(** One kind of resource: [added] and [removed] lists that are right make a patch. *)
Lemma patch_agree {A} (id : A → string) (eqb : A → A → bool) (old new : gmap string A) added removed :
  (∀ k a, old !! k = Some a → id a = k) → (∀ k a, new !! k = Some a → id a = k) →
  (∀ a, a ∈ added ↔ new !! id a = Some a ∧ match old !! id a with None => True | Some o => eqb o a = false end) →
  (∀ a, a ∈ removed → old !! id a = Some a ∧ match new !! id a with None => True | Some n => eqb a n = false end) →
  (∀ k a, old !! k = Some a → new !! k = None → a ∈ removed) →
  ∀ k, agree eqb (inserting id added (removing (id <$> removed) old) !! k) (new !! k).
Proof.
  intros Hold Hnew Hadd Hrem Hgone k. destruct (new !! k) as [w|] eqn:Hw.
  - pose proof (Hnew _ _ Hw) as Hid.
    assert (match old !! k with None => True | Some o => eqb o w = false end ∨ ∃ o, old !! k = Some o ∧ eqb o w = true)
      as [Hd|(o & Ho & Hd)] by (destruct (old !! k) as [o|]; [destruct (eqb o w) eqn:?|]; eauto).
    + rewrite (inserting_one id _ _ k w).
      * by left.
      * intros a [Ha _]%Hadd Hk. rewrite Hk in Ha. congruence.
      * exists w. split; [|done]. apply Hadd. by rewrite Hid.
    + rewrite inserting_other.
      * rewrite removing_lookup, Ho. rewrite bool_decide_eq_false_2; [by right|].
        intros (r & -> & Hr)%list_elem_of_fmap. destruct (Hrem _ Hr) as [Hro Hrn]. rewrite Hw in Hrn.
        rewrite Ho in Hro. injection Hro as <-. congruence.
      * intros a [Ha Hc]%Hadd Hk. rewrite Hk in Ha, Hc. rewrite Hw in Ha. injection Ha as <-. rewrite Ho in Hc. congruence.
  - rewrite inserting_other by (intros a [Ha _]%Hadd Hk; rewrite Hk in Ha; congruence).
    rewrite removing_lookup. destruct (old !! k) as [o|] eqn:Ho; [|by case_match].
    rewrite bool_decide_eq_true_2; [done|]. apply list_elem_of_fmap. exists o. split; [by symmetry; apply Hold|eauto].
Qed.

(** What each list of a difference holds. *)
Section Lists.
Variables (m : Manager) (new : option ConfigSnapshot).
Let d := ComputeDiff e m new.
Lemma added_modified v :
  v ∈ AddedVIPs d ++ ModifiedVIPs d ↔ configVIPs new !! v_ID (vc_VIP v) = Some v ∧
    match vips m !! v_ID (vc_VIP v) with None => True | Some o => vipConfigEqual e o v = false end.
Proof.
  unfold d, ComputeDiff. destruct new as [c|]; simpl.
  2: { unfold configVIPs, rebuildMaps, byID. simpl. rewrite lookup_empty, elem_of_nil. naive_solver. }
  rewrite elem_of_app, !omap_range. change (byID (v_ID ∘ vc_VIP) (cs_VIPs c)) with (configVIPs (Some c)).
  pose proof (proj1 (rebuildMaps_keyed (Some c))) as Hkey. fold (configVIPs (Some c)) in Hkey.
  split.
  - intros [(k & a & Hk & Hf)|(k & a & Hk & Hf)]; simpl in Hf; pose proof (Hkey _ _ Hk) as Hid; simpl in Hid; subst k;
      destruct (vips m !! v_ID (vc_VIP a)) as [o|] eqn:Hm; try done.
    + injection Hf as <-. by rewrite Hm.
    + destruct (vipConfigEqual e o a) eqn:Hq; [done|]. injection Hf as <-. by rewrite Hm.
  - intros [Hk Ho]. destruct (vips m !! v_ID (vc_VIP v)) as [o|] eqn:Hm; [right|left]; exists (v_ID (vc_VIP v)), v; simpl;
      rewrite Hm; [by rewrite Ho|done].
Qed.
Lemma removed_vips v : (∀ k v, vips m !! k = Some v → v_ID (vc_VIP v) = k) →
  v ∈ RemovedVIPs d ↔ vips m !! v_ID (vc_VIP v) = Some v ∧ configVIPs new !! v_ID (vc_VIP v) = None.
Proof.
  intros Hkey. unfold d, ComputeDiff. destruct new as [c|]; simpl.
  - rewrite omap_range. change (byID (v_ID ∘ vc_VIP) (cs_VIPs c)) with (configVIPs (Some c)). split.
    + intros (k & a & Hk & Hf); simpl in Hf. destruct (configVIPs (Some c) !! k) eqn:Hn; [done|]. injection Hf as <-.
      pose proof (Hkey _ _ Hk). by subst.
    + intros [Hk Hn]. exists (v_ID (vc_VIP v)), v. simpl. by rewrite Hn.
  - rewrite list_elem_of_fmap. split.
    + intros ([k a] & -> & Hk%mapRange_lookup). simpl. by rewrite (Hkey _ _ Hk).
    + intros [Hk _]. exists (v_ID (vc_VIP v), v). split; [done|]. by apply mapRange_lookup.
Qed.
Lemma added_backends b :
  b ∈ AddedBackends d ↔ configBackends new !! b_ID b = Some b ∧
    match backends m !! b_ID b with None => True | Some o => backendEqual o b = false end.
Proof.
  unfold d, ComputeDiff. destruct new as [c|]; simpl.
  2: { unfold configBackends, rebuildMaps. simpl. rewrite lookup_empty, elem_of_nil. naive_solver. }
  pose proof (proj2 (rebuildMaps_keyed (Some c))) as Hkey. fold (configBackends (Some c)) in Hkey.
  rewrite omap_range. change (foldl _ _ _) with (configBackends (Some c)). split.
  - intros (k & a & Hk & Hf); simpl in Hf. pose proof (Hkey _ _ Hk). subst k.
    destruct (backends m !! _) as [o|] eqn:Hm; [|by simplify_eq; rewrite Hm].
    destruct (backendEqual o a) eqn:Hq; [done|]. simplify_eq. by rewrite Hm.
  - intros [Hk Ho]. exists (b_ID b), b. simpl. destruct (backends m !! b_ID b); [by rewrite Ho|done].
Qed.
Lemma removed_backends b : (∀ k b, backends m !! k = Some b → b_ID b = k) →
  b ∈ RemovedBackends d ↔ backends m !! b_ID b = Some b ∧
    match configBackends new !! b_ID b with None => True | Some n => backendEqual b n = false end.
Proof.
  intros Hkey. unfold d, ComputeDiff. destruct new as [c|]; simpl.
  - pose proof (proj2 (rebuildMaps_keyed (Some c))) as Hnew. fold (configBackends (Some c)) in Hnew.
    rewrite elem_of_app, !omap_range. change (foldl _ _ _) with (configBackends (Some c)). split.
    + intros [(k & a & Hk & Hf)|(k & a & Hk & Hf)]; simpl in Hf.
      * destruct (backends m !! k) as [o|] eqn:Hm; [|done]. destruct (backendEqual o a) eqn:Hq; [done|]. simplify_eq.
        pose proof (Hkey _ _ Hm). subst k. by rewrite Hk.
      * pose proof (Hkey _ _ Hk). subst k. destruct (configBackends (Some c) !! b_ID a) eqn:Hn; [done|]. simplify_eq. by rewrite Hn.
    + intros [Hk Hn]. destruct (configBackends (Some c) !! b_ID b) as [n|] eqn:Hc.
      * left. exists (b_ID b), n. simpl. by rewrite Hk, Hn.
      * right. exists (b_ID b), b. simpl. by rewrite Hc.
  - rewrite list_elem_of_fmap. split.
    + intros ([k a] & -> & Hk%mapRange_lookup). simpl. by rewrite (Hkey _ _ Hk).
    + intros [Hk _]. exists (b_ID b, b). split; [done|]. by apply mapRange_lookup.
Qed.
End Lists.

(** Nothing differs. *)
Definition inSync (m : Manager) (new : option ConfigSnapshot) : Prop :=
  (∀ k, match vips m !! k, configVIPs new !! k with
        | None, None => True
        | Some v, Some w => vipConfigEqual e v w = true
        | _, _ => False
        end) ∧
  (∀ k, match backends m !! k, configBackends new !! k with
        | None, None => True
        | Some b, Some c => backendEqual b c = true
        | _, _ => False
        end).

(** The difference between the state and a configuration is a patch: with the removed
    resources taken out and the added and modified ones put in, every identifier has
    what the configuration has for it, or an entry the comparison takes for the same;
    and it is empty exactly when nothing differs. *)
Lemma ComputeDiff_patch m new :
  keyed m →
  let d := ComputeDiff e m new in
  (∀ k, agree (vipConfigEqual e) (patchVIPs d (vips m) !! k) (configVIPs new !! k)) ∧
  (∀ k, agree backendEqual (patchBackends d (backends m) !! k) (configBackends new !! k)) ∧
  (IsEmpty d = true ↔ inSync m new).
Proof.
  intros [Hv Hb] d. pose proof (rebuildMaps_keyed new) as [Hnv Hnb]. split_and!.
  - apply patch_agree; [done|done|apply added_modified| |].
    + intros a [Ha Hn]%(removed_vips m new a Hv). unfold compose. by rewrite Hn.
    + intros k a Hk Hn. pose proof (Hv _ _ Hk). subst k. by apply (removed_vips m new a Hv).
  - apply patch_agree; [done|done|apply added_backends| |].
    + intros a Ha. by apply (removed_backends m new a Hb).
    + intros k a Hk Hn. pose proof (Hb _ _ Hk). subst k. apply (removed_backends m new a Hb). by rewrite Hn.
  - assert (IsEmpty d = true ↔ AddedVIPs d ++ ModifiedVIPs d = [] ∧ RemovedVIPs d = [] ∧ AddedBackends d = [] ∧ RemovedBackends d = [])
      as ->.
    { unfold IsEmpty. rewrite !andb_true_iff, !Nat.eqb_eq, !length_zero_iff_nil, app_nil. tauto. }
    assert (∀ {A} (l : list A), l = [] ↔ ∀ a, a ∉ l) as Hnil
      by (intros A l; split; [intros -> a; apply not_elem_of_nil|destruct l; [done|]; intros H; by destruct (H a); left]).
    rewrite !Hnil. split.
    + intros (Hav & Hrv & Hab & Hrb). split; intros k.
      * destruct (vips m !! k) as [v|] eqn:Hk, (configVIPs new !! k) as [w|] eqn:Hw; [|..|done].
        -- destruct (vipConfigEqual e v w) eqn:Hq; [done|]. pose proof (Hnv _ _ Hw). subst k.
           destruct (Hav w). apply added_modified. by rewrite Hk.
        -- pose proof (Hv _ _ Hk). subst k. destruct (Hrv v). by apply (removed_vips m new v Hv).
        -- pose proof (Hnv _ _ Hw). subst k. destruct (Hav w). apply added_modified. by rewrite Hk.
      * destruct (backends m !! k) as [b|] eqn:Hk, (configBackends new !! k) as [c|] eqn:Hw; [|..|done].
        -- destruct (backendEqual b c) eqn:Hq; [done|]. pose proof (Hnb _ _ Hw). subst k.
           destruct (Hab c). apply added_backends. by rewrite Hk.
        -- pose proof (Hb _ _ Hk). subst k. destruct (Hrb b). apply (removed_backends m new b Hb). by rewrite Hw.
        -- pose proof (Hnb _ _ Hw). subst k. destruct (Hab c). apply added_backends. by rewrite Hk.
    + intros [Hsv Hsb]. split_and!.
      * intros v [Hw Ho]%added_modified. specialize (Hsv (v_ID (vc_VIP v))). rewrite Hw in Hsv.
        destruct (vips m !! _); [congruence|done].
      * intros v [Hk Hn]%(removed_vips m new v Hv). specialize (Hsv (v_ID (vc_VIP v))). by rewrite Hk, Hn in Hsv.
      * intros b [Hw Ho]%added_backends. specialize (Hsb (b_ID b)). rewrite Hw in Hsb. destruct (backends m !! _); [congruence|done].
      * intros b [Hk Hn]%(removed_backends m new b Hb). specialize (Hsb (b_ID b)). rewrite Hk in Hsb.
        destruct (configBackends new !! _); [congruence|done].
Qed.
End Diff.
End V1State.
