(* ===== verification/V1Agent.v ===== *)
(** * The version 1 agent's reconciliation (internal/agent/vpp/lb.go, internal/agent/vpp/sync.go,
    internal/agent/reconciler/reconciler.go)

    The syncer keeps a cache of what it programmed into VPP; the reconciler compares
    it with the desired configuration and applies the difference.  Operations are
    state passing over the cache and VPP, one after the other. *)

From Stdlib Require Import SpecFloat.
From stdpp Require Import base tactics list gmap strings pretty.
From S2P Require Import Prelude Types Net Routing Vpp VppSim Validation Duration Config Models V1State.

(** ** The load balancer calls (lb.go) *)
Module V1Lb.
Import Models Vpp.

Record VPPLBConfig := {
  lb_EncapType : string; lb_DSCP : Z; lb_Type : string; lb_NewFlowsTableLength : Z; lb_FailOnAllBackendsDown : bool;
}.
(** [Connection.NewStream]: an error, or a channel on which requests are sent. *)
Class Streams (E : Type) := { NewStream : ST E error }.

(** [net.ParseCIDR]: an address, and a number of bits that fits it.  [dtoi] stops at 0xFFFFFF. *)
Fixpoint dtoi (s : list Z) (n : Z) : option Z :=
  match s with
  | [] => Some n
  | c :: s => if is_digit c then let n := (n * 10 + (c - 48))%Z in if (0xFFFFFF <=? n)%Z then None else dtoi s n else None
  end.
Fixpoint splitSlash (s : list Z) : option (list Z * list Z) :=
  match s with
  | [] => None
  | c :: s => if (c =? 47)%Z then Some ([], s)
              else match splitSlash s with Some (a, b) => Some (c :: a, b) | None => None end
  end.
Definition ParseCIDR (s : string) : option (list Z * Z) :=
  match splitSlash (bytes_of s) with
  | None | Some (_, []) => None
  | Some (addr, mask) =>
      match parseAddrFrom addr addr, dtoi mask 0 with
      | Some (Addr4 b), Some n => if (n <=? 32)%Z then Some (v4Prefix ++ b, n) else None
      | Some (Addr6 b []), Some n => if (n <=? 128)%Z then Some (b, n) else None
      | _, _ => None
      end
  end.
Definition address (ip : list Z) : Address := match To4 ip with Some b => IP4 b | None => IP6 ip end.
Definition parseIPAddress (ipStr : string) : err + AddressWithPrefix :=
  match ParseCIDR ipStr with
  | Some (ip, n) => inr {| pfx_Address := address ip; pfx_Len := n |}
  | None =>
      match ParseIP ipStr with
      | None => inl (ErrMsg ("invalid IP address: " +:+ ipStr))
      | Some ip => inr {| pfx_Address := address ip; pfx_Len := match To4 ip with Some _ => 32 | None => 128 end |}
      end
  end.
Definition encapTypeToAPI (encapType : string) : LbEncapType :=
  if bool_decide (encapType = "GRE4") then ENCAP_GRE4
  else if bool_decide (encapType = "GRE6") then ENCAP_GRE6
  else if bool_decide (encapType = "L3DSR") then ENCAP_L3DSR
  else if bool_decide (encapType = "NAT4") then ENCAP_NAT4
  else if bool_decide (encapType = "NAT6") then ENCAP_NAT6
  else ENCAP_GRE4.
Definition lbTypeToAPI (lbType : string) : LbSrvType :=
  if bool_decide (lbType = "CLUSTERIP") then SRV_CLUSTERIP
  else if bool_decide (lbType = "NODEPORT") then SRV_NODEPORT
  else SRV_CLUSTERIP.

Definition protocolOf (protocol : string) : err + Z :=
  if bool_decide (protocol = ProtocolTCP) then inr 6%Z
  else if bool_decide (protocol = ProtocolUDP) then inr 17%Z
  else inl (ErrMsg ("unsupported protocol: " +:+ protocol)).
(** The address, protocol and port of a request. *)
Definition identOf (vip : VIP) : err + LbVip :=
  match parseIPAddress (v_VIP vip) with
  | inl e => inl (errorf "failed to parse VIP address: " e)
  | inr pfx =>
      match protocolOf (v_Protocol vip) with
      | inl e => inl e
      | inr proto => inr {| lbv_Pfx := pfx; lbv_Protocol := proto; lbv_Port := wrapU 16 (v_Port vip) |}
      end
  end.
Definition encapOf (cfg : VPPLBConfig) (vip : VIP) : string :=
  if bool_decide (v_EncapType vip ≠ "") then v_EncapType vip else lb_EncapType cfg.
Definition dscpOf (cfg : VPPLBConfig) (vip : VIP) : err + Z :=
  if bool_decide (encapOf cfg vip = "L3DSR") then
    let dscp := default (lb_DSCP cfg) (v_DSCP vip) in
    if (dscp =? 0)%Z
    then inl (ErrMsg "invalid dscp=0 for L3DSR (DSCP mode); set vip.dscp or vpp.lb.dscp to 1-63")
    else inr dscp
  else inr 0%Z.
(** The request to add or delete a virtual IP. *)
Definition lbVipRequest (cfg : VPPLBConfig) (vip : VIP) (isDel : bool) : err + LbAddDelVip :=
  match identOf vip with
  | inl e => inl e
  | inr id =>
      match dscpOf cfg vip with
      | inl e => inl e
      | inr dscp =>
          inr {| adv_Vip := id; adv_Encap := encapTypeToAPI (encapOf cfg vip); adv_Dscp := dscp;
                 adv_Type := lbTypeToAPI (lb_Type cfg);
                 adv_TargetPort := if isDel then 0%Z else wrapU 16 (v_Port vip);
                 adv_NewFlowsTableLength := if isDel then 0%Z else lb_NewFlowsTableLength cfg;
                 adv_IsDel := isDel |}
      end
  end.
(** Address, then the backend's, then the protocol. *)
Definition asRequest (vip : VIP) (backend : Backend) (isDel : bool) : err + LbAddDelAs :=
  match parseIPAddress (v_VIP vip), parseIPAddress (b_IP backend), protocolOf (v_Protocol vip) with
  | inl e, _, _ => inl (errorf "failed to parse VIP address: " e)
  | _, inl e, _ => inl (errorf "failed to parse backend IP: " e)
  | _, _, inl e => inl e
  | inr pfx, inr addr, inr proto =>
      inr {| ada_Vip := {| lbv_Pfx := pfx; lbv_Protocol := proto; lbv_Port := wrapU 16 (v_Port vip) |};
             ada_AsAddress := pfx_Address addr; ada_IsDel := isDel |}
  end.

Section Operations.
Context {E : Type} `{!VPPConn E} `{!Streams E}.
Variable cfg : VPPLBConfig.

(** A request on a channel of its own: the error of a call, or the code VPP returns. *)
Definition sending {R} (failed : string) (req : err + R) (send : R → ST E (err + Z)) : ST E error :=
  o ← NewStream;
  match o with
  | Some e => mret (Some (errorf "failed to create API channel: " e))
  | None =>
      match req with
      | inl e => mret (Some e)
      | inr req =>
          r ← send req;
          mret (match r with
                | inl e => Some (errorf failed e)
                | inr code => if (code =? 0)%Z then None else Some (ErrMsg ("VPP returned error code: " +:+ pretty code))
                end)
      end
  end.
Definition DeleteVIPByConfig (vipConfig : VIPConfig) : ST E error :=
  sending "failed to delete VIP: " (lbVipRequest cfg (vc_VIP vipConfig) true) InvokeLbAddDelVip.
Definition AddBackendToVIP (vipConfig : VIPConfig) (backend : Backend) : ST E error :=
  sending "failed to add backend: " (asRequest (vc_VIP vipConfig) backend false) InvokeLbAddDelAs.
Definition DeleteBackendFromVIP (vipConfig : VIPConfig) (backend : Backend) : ST E error :=
  sending "failed to delete backend: " (asRequest (vc_VIP vipConfig) backend true) InvokeLbAddDelAs.
(** How many backends could not be added. *)
Fixpoint addBackends (vipConfig : VIPConfig) (backends : list Backend) : ST E nat :=
  match backends with
  | [] => mret 0
  | b :: backends =>
      e ← AddBackendToVIP vipConfig b;
      n ← addBackends vipConfig backends;
      mret (match e with Some _ => S n | None => n end)
  end.
Definition AddVIP (vipConfig : VIPConfig) : ST E error :=
  e ← sending "failed to add VIP: " (lbVipRequest cfg (vc_VIP vipConfig) false) InvokeLbAddDelVip;
  match e with
  | Some e => mret (Some e)
  | None =>
      n ← addBackends vipConfig (vc_Backends vipConfig);
      if (0 <? n)%nat && (n =? length (vc_Backends vipConfig))%nat && lb_FailOnAllBackendsDown cfg then
        _ ← DeleteVIPByConfig vipConfig;
        mret (Some (ErrMsg ("all " +:+ pretty (Z.of_nat n) +:+ " backends failed to add")))
      else mret None
  end.
End Operations.
End V1Lb.

(** ** The syncer (sync.go) *)
Module V1Sync.
Import Models Vpp V1Lb.

Record Syncer := {
  currentVIPs : gmap string VIPConfig;
  currentBackends : gmap string Backend;
  vipToBackends : gmap string (list string);
}.
Definition NewSyncer : Syncer := {| currentVIPs := ∅; currentBackends := ∅; vipToBackends := ∅ |}.

(** Updates of the cache. *)
Definition cacheVIP (v : VIPConfig) (s : Syncer) : Syncer :=
  {| currentVIPs := <[v_ID (vc_VIP v) := v]> (currentVIPs s);
     currentBackends := foldl (λ m b, <[b_ID b := b]> m) (currentBackends s) (vc_Backends v);
     vipToBackends := <[v_ID (vc_VIP v) := b_ID <$> vc_Backends v]> (vipToBackends s) |}.
Definition updateCacheAfterDeleteVIP (vipID : string) (s : Syncer) : Syncer :=
  {| currentVIPs := delete vipID (currentVIPs s);
     currentBackends := foldl (λ m id, delete id m) (currentBackends s) (default [] (vipToBackends s !! vipID));
     vipToBackends := delete vipID (vipToBackends s) |}.
Definition withBackends (v : VIPConfig) (bs : list Backend) : VIPConfig :=
  {| vc_VIP := vc_VIP v; vc_HealthCheck := vc_HealthCheck v; vc_Backends := bs |}.
Definition cacheBackend (vipID : string) (v : VIPConfig) (b : Backend) (s : Syncer) : Syncer :=
  {| currentVIPs := <[vipID := withBackends v (vc_Backends v ++ [b])]> (currentVIPs s);
     currentBackends := <[b_ID b := b]> (currentBackends s);
     vipToBackends := <[vipID := default [] (vipToBackends s !! vipID) ++ [b_ID b]]> (vipToBackends s) |}.
Definition uncacheBackend (vipID : string) (v : VIPConfig) (backendID : string) (s : Syncer) : Syncer :=
  {| currentVIPs := <[vipID := withBackends v (filter (λ b, b_ID b ≠ backendID) (vc_Backends v))]> (currentVIPs s);
     currentBackends := delete backendID (currentBackends s);
     vipToBackends := match vipToBackends s !! vipID with
                      | Some ids => <[vipID := filter (λ id, id ≠ backendID) ids]> (vipToBackends s)
                      | None => vipToBackends s
                      end |}.

Section Operations.
Context {E : Type} `{!VPPConn E} `{!Streams E} `{!MapOrder E}.
Variable cfg : VPPLBConfig.

Definition SyncVIP (vipConfig : VIPConfig) : ST (Syncer * E) error := λ '(s, e),
  let '(deleteErr, e) :=
    match currentVIPs s !! v_ID (vc_VIP vipConfig) with
    | None => (None, e)
    | Some existingConfig =>
        let '(r, e) := DeleteVIPByConfig cfg existingConfig e in (errorf "failed to delete existing VIP: " <$> r, e)
    end in
  match deleteErr with
  | Some x => (Some x, (s, e))
  | None =>
      let '(r, e) := AddVIP cfg vipConfig e in
      match r with
      | Some x => (Some (errorf "failed to add VIP to VPP: " x), (s, e))
      | None => (None, (cacheVIP vipConfig s, e))
      end
  end.
Definition DeleteVIP (vipID : string) : ST (Syncer * E) error := λ '(s, e),
  match currentVIPs s !! vipID with
  | None => (None, (s, e))
  | Some vipConfig =>
      let '(r, e) := DeleteVIPByConfig cfg vipConfig e in
      match r with
      | Some x => (Some (errorf "failed to delete VIP from VPP: " x), (s, e))
      | None => (None, (updateCacheAfterDeleteVIP vipID s, e))
      end
  end.
Definition AddBackend (vipID : string) (backend : Backend) : ST (Syncer * E) error := λ '(s, e),
  match currentVIPs s !! vipID with
  | None => (Some (ErrMsg ("VIP " +:+ vipID +:+ " not found")), (s, e))
  | Some vipConfig =>
      let '(r, e) := AddBackendToVIP vipConfig backend e in
      match r with
      | Some x => (Some (errorf "failed to add backend to VPP: " x), (s, e))
      | None => (None, (cacheBackend vipID vipConfig backend s, e))
      end
  end.
Definition DeleteBackend (vipID backendID : string) : ST (Syncer * E) error := λ '(s, e),
  match currentVIPs s !! vipID, currentBackends s !! backendID with
  | Some vipConfig, Some backend =>
      let '(r, e) := DeleteBackendFromVIP vipConfig backend e in
      match r with
      | Some x => (Some (errorf "failed to delete backend from VPP: " x), (s, e))
      | None => (None, (uncacheBackend vipID vipConfig backendID s, e))
      end
  | _, _ => (None, (s, e))
  end.
Definition GetCurrentState : ST (Syncer * E) ConfigSnapshot := λ '(s, e),
  ({| cs_Revision := 0; cs_VIPs := (V1State.deepCopyVIPConfig ∘ snd) <$> mapRange e (currentVIPs s) |}, (s, e)).
End Operations.
End V1Sync.

(** ** The reconciler (reconciler.go) *)
Module V1Reconciler.
Import Models Vpp V1Lb V1State V1Sync.

(** The health checks, as the reconciler calls them. *)
Class HealthCheckManager (E : Type) := {
  StartHealthCheck : VIPConfig → ST E error;
  StopHealthCheck : string → ST E error;
  UpdateHealthCheck : VIPConfig → ST E error;
}.
Inductive Outcome := NoChange | Failure (e : error) | Success.

Section Operations.
Context {E : Type} `{!VPPConn E} `{!Streams E} `{!MapOrder E} `{!HealthCheckManager E}.
Variable cfg : VPPLBConfig.
Variable hasHealthChecker : bool.

Definition checking (m : ST E error) : ST (Syncer * E) unit := λ '(s, e), let '(_, e) := m e in (tt, (s, e)).
(** A loop that ends with the first error. *)
Fixpoint applyEach {A} (l : list A) (f : A → ST (Syncer * E) error) : ST (Syncer * E) error :=
  match l with
  | [] => mret None
  | a :: l => r ← f a; match r with Some x => mret (Some x) | None => applyEach l f end
  end.
Fixpoint stopChecks (l : list VIPConfig) : ST (Syncer * E) unit :=
  match l with
  | [] => mret tt
  | v :: l =>
      _ ← (if hasHealthChecker && bool_decide (is_Some (vc_HealthCheck v)) then checking (StopHealthCheck (v_ID (vc_VIP v)))
           else mret tt);
      stopChecks l
  end.
Definition addVIP (v : VIPConfig) : ST (Syncer * E) error :=
  r ← SyncVIP cfg (if bool_decide (is_Some (vc_HealthCheck v)) then withBackends v [] else v);
  match r with
  | Some x => mret (Some x)
  | None =>
      _ ← (if hasHealthChecker && bool_decide (is_Some (vc_HealthCheck v)) then checking (StartHealthCheck v) else mret tt);
      mret None
  end.
Definition updateVIP (v : VIPConfig) : ST (Syncer * E) error :=
  r ← SyncVIP cfg v;
  match r with
  | Some x => mret (Some x)
  | None =>
      _ ← (if hasHealthChecker && bool_decide (is_Some (vc_HealthCheck v)) then checking (UpdateHealthCheck v) else mret tt);
      mret None
  end.
Definition applyChanges (manager : Manager) (diff : ConfigDiff) : ST (Syncer * E) error :=
  _ ← stopChecks (RemovedVIPs diff);
  r ← applyEach (RemovedBackends diff) (λ b, DeleteBackend (b_VIPID b) (b_ID b));
  match r with Some x => mret (Some x) | None =>
  r ← applyEach (RemovedVIPs diff) (λ v, DeleteVIP cfg (v_ID (vc_VIP v)));
  match r with Some x => mret (Some x) | None =>
  r ← applyEach (AddedVIPs diff) addVIP;
  match r with Some x => mret (Some x) | None =>
  r ← applyEach (ModifiedVIPs diff) updateVIP;
  match r with Some x => mret (Some x) | None =>
  applyEach (AddedBackends diff) (λ b,
    match GetHealthCheck manager (b_VIPID b) with
    | Some _ => mret None
    | None => AddBackend (b_VIPID b) b
    end) end end end end.
Definition reconcile (manager : Manager) : ST (Syncer * E) Outcome :=
  match GetConfig manager with
  | None => mret NoChange
  | Some desiredConfig =>
      currentConfig ← GetCurrentState;
      p ← get;
      let diff := ComputeDiff p.2 (UpdateConfig (Some currentConfig)) (Some desiredConfig) in
      if IsEmpty diff then mret NoChange
      else
        r ← applyChanges manager diff;
        mret (match r with Some x => Failure (Some x) | None => Success end)
  end.
End Operations.

(** ** What a pass leaves in the cache *)
Section Outcome.
Context {E : Type} `{!VPPConn E} `{!Streams E} `{!MapOrder E} `{!HealthCheckManager E}.
Variable cfg : VPPLBConfig.
Variable hasHealthChecker : bool.

(** The virtual IPs of the cache, each under its identifier. *)
Definition heads (s : Syncer) : gmap string VIP := vc_VIP <$> currentVIPs s.
Definition cacheKeyed (s : Syncer) : Prop := ∀ k v, currentVIPs s !! k = Some v → v_ID (vc_VIP v) = k.
Lemma keyed_heads s : cacheKeyed s ↔ ∀ k v, heads s !! k = Some v → v_ID v = k.
Proof.
  unfold cacheKeyed, heads. setoid_rewrite lookup_fmap. split.
  - intros H k v Hk. destruct (currentVIPs s !! k) as [c|] eqn:Hc; [|done]. injection Hk as <-. eauto.
  - intros H k v Hk. apply H. by rewrite Hk.
Qed.
Lemma heads_with s k v bs : currentVIPs s !! k = Some v → vc_VIP <$> <[k := withBackends v bs]> (currentVIPs s) = heads s.
Proof.
  intros Hk. unfold heads. rewrite fmap_insert. simpl. apply insert_id. by rewrite lookup_fmap, Hk.
Qed.

(** A state monad program changes the virtual IPs of the cache in a known way when it
    succeeds. *)
Definition changes (m : ST (Syncer * E) error) (f : gmap string VIP → gmap string VIP) : Prop :=
  ∀ s e r s' e', m (s, e) = (r, (s', e')) → r = None → heads s' = f (heads s).
Lemma DeleteBackend_changes vid bid : changes (DeleteBackend vid bid) id.
Proof.
  intros s e r s' e' Hm ->. unfold DeleteBackend in Hm. destruct (currentVIPs s !! vid) as [v|] eqn:Hv; [|by simplify_eq].
  destruct (currentBackends s !! bid) as [b|]; [|by simplify_eq]. destruct (DeleteBackendFromVIP v b e) as [[x|] e1]; simplify_eq.
  by apply heads_with.
Qed.
Lemma AddBackend_changes vid b : changes (AddBackend vid b) id.
Proof.
  intros s e r s' e' Hm ->. unfold AddBackend in Hm. destruct (currentVIPs s !! vid) as [v|] eqn:Hv; [|by simplify_eq].
  destruct (AddBackendToVIP v b e) as [[x|] e1]; simplify_eq. by apply heads_with.
Qed.
Lemma DeleteVIP_changes id : changes (DeleteVIP cfg id) (delete id).
Proof.
  intros s e r s' e' Hm ->. unfold DeleteVIP in Hm. destruct (currentVIPs s !! id) as [v|] eqn:Hv.
  - destruct (DeleteVIPByConfig cfg v e) as [[x|] e1]; simplify_eq. apply fmap_delete.
  - simplify_eq. symmetry. apply delete_id. unfold heads. by rewrite lookup_fmap, Hv.
Qed.
Lemma SyncVIP_changes v : changes (SyncVIP cfg v) <[v_ID (vc_VIP v) := vc_VIP v]>.
Proof.
  intros s e r s' e' Hm ->. unfold SyncVIP in Hm.
  destruct (match currentVIPs s !! _ with None => _ | Some _ => _ end) as [[x|] e1]; [by simplify_eq|].
  destruct (AddVIP cfg v e1) as [[x|] e2]; simplify_eq. apply fmap_insert.
Qed.
Lemma checking_changes (m : ST E error) (k : ST (Syncer * E) error) f :
  changes k f → changes (_ ← checking m; k) f.
Proof.
  intros Hk s e r s' e'. unfold_monad. unfold checking. destruct (m e) as [x e1]. by apply Hk.
Qed.
Lemma bind_changes (m k : ST (Syncer * E) error) f g :
  changes m f → changes k g → changes (r ← m; match r with Some x => mret (Some x) | None => k end) (g ∘ f).
Proof.
  intros Hm Hk s e r s' e'. unfold_monad. destruct (m (s, e)) as [[x|] [s1 e1]] eqn:H1; [intros H' ->; by simplify_eq|].
  intros H2 ->. unfold compose. rewrite <- (Hm _ _ _ _ _ H1 eq_refl). by eapply Hk.
Qed.
Lemma ret_changes : changes (mret None) id.
Proof. intros s e r s' e' [= <- <- <-] _. done. Qed.
Lemma applyEach_changes {A} (l : list A) (f : A → ST (Syncer * E) error) (g : A → gmap string VIP → gmap string VIP) :
  (∀ a, changes (f a) (g a)) → changes (applyEach l f) (λ m, foldl (λ m a, g a m) m l).
Proof.
  intros Hf. induction l as [|a l IH]; [apply ret_changes|].
  exact (bind_changes _ _ _ _ (Hf a) IH).
Qed.
Lemma add_changes v : changes (addVIP cfg hasHealthChecker v) <[v_ID (vc_VIP v) := vc_VIP v]>.
Proof.
  assert (∀ m : ST (Syncer * E) error, changes m id → changes (r ← SyncVIP cfg (if bool_decide (is_Some (vc_HealthCheck v)) then withBackends v [] else v);
    match r with Some x => mret (Some x) | None => m end) <[v_ID (vc_VIP v) := vc_VIP v]>) as H.
  { intros m Hm. change <[v_ID (vc_VIP v) := vc_VIP v]> with (id ∘ <[v_ID (vc_VIP v) := vc_VIP v]> : gmap string VIP → gmap string VIP).
    apply bind_changes; [|done]. case_bool_decide; apply (SyncVIP_changes (withBackends v [])) || apply SyncVIP_changes. }
  apply H. destruct (hasHealthChecker && _); [apply checking_changes, ret_changes|apply ret_changes].
Qed.
Lemma update_changes v : changes (updateVIP cfg hasHealthChecker v) <[v_ID (vc_VIP v) := vc_VIP v]>.
Proof.
  change <[v_ID (vc_VIP v) := vc_VIP v]> with (id ∘ <[v_ID (vc_VIP v) := vc_VIP v]> : gmap string VIP → gmap string VIP).
  apply bind_changes; [apply SyncVIP_changes|].
  destruct (hasHealthChecker && _); [apply checking_changes, ret_changes|apply ret_changes].
Qed.
Lemma stop_changes l (k : ST (Syncer * E) error) f : changes k f → changes (_ ← stopChecks hasHealthChecker l; k) f.
Proof.
  intros Hk. induction l as [|v l IH]; [done|]. intros s e r s' e'. simpl. unfold_monad.
  destruct (hasHealthChecker && _); [|apply IH]. unfold checking.
  destruct (StopHealthCheck (v_ID (vc_VIP v)) e) as [x e1]. apply IH.
Qed.
Lemma foldl_id {A B} (l : list A) (m : B) : foldl (λ m (_ : A), m) m l = m.
Proof. by induction l. Qed.
Lemma applyChanges_changes manager d :
  changes (applyChanges cfg hasHealthChecker manager d)
    (λ m, inserting v_ID (vc_VIP <$> AddedVIPs d ++ ModifiedVIPs d) (removing ((v_ID ∘ vc_VIP) <$> RemovedVIPs d) m)).
Proof.
  intros s e r s' e' Hm ->.
  assert (changes (applyChanges cfg hasHealthChecker manager d)
    ((λ m, foldl (λ m (_ : Backend), id m) m (AddedBackends d)) ∘ (λ m, foldl (λ m v, <[v_ID (vc_VIP v) := vc_VIP v]> m) m (ModifiedVIPs d)) ∘
     (λ m, foldl (λ m v, <[v_ID (vc_VIP v) := vc_VIP v]> m) m (AddedVIPs d)) ∘
     (λ m, foldl (λ m v, delete (v_ID (vc_VIP v)) m) m (RemovedVIPs d)) ∘ (λ m, foldl (λ m (_ : Backend), id m) m (RemovedBackends d)))) as Hc.
  { unfold applyChanges. apply stop_changes.
    apply bind_changes; [apply (applyEach_changes _ _ (λ _, id)); intros; apply DeleteBackend_changes|].
    apply bind_changes; [apply (applyEach_changes _ _ (λ v, delete _)); intros; apply DeleteVIP_changes|].
    apply bind_changes; [apply (applyEach_changes _ _ (λ v, insert _ _)); intros; apply add_changes|].
    apply bind_changes; [apply (applyEach_changes _ _ (λ v, insert _ _)); intros; apply update_changes|].
    apply (applyEach_changes _ _ (λ _, id)). intros b. destruct (GetHealthCheck manager (b_VIPID b)); [apply ret_changes|apply AddBackend_changes]. }
  rewrite (Hc _ _ _ _ _ Hm eq_refl). unfold compose. rewrite !foldl_id. unfold inserting, removing.
  rewrite !foldl_fmap, foldl_app. done.
Qed.
(** The state read back from the cache is the cache. *)
Lemma current_vips s (e : E) : cacheKeyed s →
  vips (UpdateConfig (Some (GetCurrentState (s, e)).1)) = currentVIPs s.
Proof.
  intros Hk. unfold UpdateConfig. rewrite copyConfig_same. simpl. apply map_eq. intros k.
  change (byID _ ?l) with (inserting (v_ID ∘ vc_VIP) l ∅).
  assert (∀ v, v ∈ (deepCopyVIPConfig ∘ snd) <$> mapRange e (currentVIPs s) ↔ currentVIPs s !! v_ID (vc_VIP v) = Some v) as Hin.
  { intros v. rewrite list_elem_of_fmap. split.
    - intros ([k' w] & -> & Hw%mapRange_lookup). simpl. rewrite deepCopyVIPConfig_same. by rewrite (Hk _ _ Hw).
    - intros Hv. exists (v_ID (vc_VIP v), v). split; [simpl; by rewrite deepCopyVIPConfig_same|]. by apply mapRange_lookup. }
  destruct (currentVIPs s !! k) as [v|] eqn:Hv.
  - pose proof (Hk _ _ Hv) as Hid. apply inserting_one.
    + intros a Ha%Hin Hka. unfold compose in Hka. rewrite Hka in Ha. congruence.
    + exists v. split; [|done]. apply Hin. by rewrite Hid.
  - rewrite inserting_other; [by rewrite lookup_empty|]. intros a Ha%Hin Hka. unfold compose in Hka. rewrite Hka in Ha. congruence.
Qed.
Lemma fmap_patch d (m : gmap string VIPConfig) :
  vc_VIP <$> patchVIPs d m =
  inserting v_ID (vc_VIP <$> AddedVIPs d ++ ModifiedVIPs d) (removing ((v_ID ∘ vc_VIP) <$> RemovedVIPs d) (vc_VIP <$> m)).
Proof.
  unfold patchVIPs. assert (∀ ids (m : gmap string VIPConfig), vc_VIP <$> removing ids m = removing ids (vc_VIP <$> m)) as <-.
  { unfold removing. induction ids as [|i ids IH]; intros m'; [done|]. simpl. by rewrite IH, fmap_delete. }
  generalize (removing ((v_ID ∘ vc_VIP) <$> RemovedVIPs d) m). generalize (AddedVIPs d ++ ModifiedVIPs d).
  unfold inserting. induction l as [|v l IH]; intros m'; [done|]. simpl. by rewrite IH, fmap_insert.
Qed.
Lemma vipEqual_refl v : vipEqual v v = true.
Proof. unfold vipEqual. by rewrite !bool_decide_eq_true_2, Z.eqb_refl by done. Qed.

End Outcome.
End V1Reconciler.

(** ** Concrete runs on the reference VPP *)
Module V1Examples.
Import Models Vpp VppSim V1Lb V1State V1Sync V1Reconciler.

#[local] Instance simStreams : Streams SimVPP := {| NewStream := λ s, (None, s) |}.
(** Health checks that never report a backend as up. *)
#[local] Instance silent : HealthCheckManager SimVPP :=
  {| StartHealthCheck := λ _ s, (None, s); StopHealthCheck := λ _ s, (None, s); UpdateHealthCheck := λ _ s, (None, s) |}.
Definition cfg : VPPLBConfig :=
  {| lb_EncapType := "GRE4"; lb_DSCP := 0; lb_Type := "CLUSTERIP"; lb_NewFlowsTableLength := 1024;
     lb_FailOnAllBackendsDown := false |}.
Definition vip (id ip encap : string) (port : Z) (dscp : option Z) : VIP :=
  {| v_ID := id; v_VIP := ip; v_Port := port; v_Protocol := "TCP"; v_LBMethod := "maglev"; v_EncapType := encap;
     v_DSCP := dscp; v_CreatedAt := None; v_UpdatedAt := None; v_HealthCheck := None; v_Backends := [] |}.
Definition backend (id ip : string) : Backend :=
  {| b_ID := id; b_VIPID := "a"; b_IP := ip; b_Weight := 1; b_CreatedAt := None; b_UpdatedAt := None |}.
Definition check : HealthCheck :=
  {| h_ID := "h"; h_VIPID := "a"; h_Type := "PING"; h_IntervalSec := 5; h_TimeoutSec := 1; h_RiseCount := 2; h_FallCount := 2;
     h_Config := None; h_CreatedAt := None; h_UpdatedAt := None |}.
Definition wanting (v : VIP) (hc : option HealthCheck) (bs : list Backend) : Manager :=
  UpdateConfig (Some {| cs_Revision := 1; cs_VIPs := [{| vc_VIP := v; vc_HealthCheck := hc; vc_Backends := bs |}] |}).
Definition start : Syncer * SimVPP := (NewSyncer, {| sim_vips := []; sim_log := []; sim_clock := 0 |}).
Definition pass (m : Manager) (p : Syncer * SimVPP) : Outcome * (Syncer * SimVPP) := reconcile cfg true m p.
Definition outcomeOf (o : Outcome) : nat := match o with NoChange => 0 | Failure _ => 1 | Success => 2 end.
Definition servers (p : Syncer * SimVPP) : list (list Address) := (elements ∘ snd) <$> sim_vips p.2.
Definition plain : Manager := wanting (vip "a" "192.0.2.1" "" 80 None) None [].


(** A virtual IP with health checks: created without backends, then recreated by the next
    pass with all of them, although no check ever succeeded. *)
Lemma unchecked_backends_serve :
  let m := wanting (vip "a" "192.0.2.1" "" 80 None) (Some check) [backend "b" "10.0.0.1"] in
  let p1 := pass m start in let p2 := pass m p1.2 in
  outcomeOf p1.1 = 2 ∧ servers p1.2 = [[]] ∧ outcomeOf p2.1 = 2 ∧ servers p2.2 = [[IP4 [10; 0; 0; 1]%Z]].
Proof. by vm_compute. Qed.
(** A virtual IP with a backend and no health checks: the backend is added with the
    virtual IP and then once more, which VPP refuses: the pass fails. *)
Lemma backends_added_twice :
  let m := wanting (vip "a" "192.0.2.1" "" 80 None) None [backend "b" "10.0.0.1"] in
  let p1 := pass m start in let p2 := pass m p1.2 in
  outcomeOf p1.1 = 1 ∧ servers p1.2 = [[IP4 [10; 0; 0; 1]%Z]] ∧ outcomeOf p2.1 = 0.
Proof. by vm_compute. Qed.
(** A change of encapsulation is not seen. *)
Lemma encap_change_unseen :
  let m encap := wanting (vip "a" "192.0.2.1" encap 80 None) None [] in
  let p1 := pass (m "GRE4") start in
  outcomeOf p1.1 = 2 ∧ outcomeOf (pass (m "NAT4") p1.2).1 = 0.
Proof. by vm_compute. Qed.
(** An update whose addition fails leaves the cache with a virtual IP that VPP does not have;
    it cannot be deleted again, so no later pass succeeds. *)
Lemma failed_update_sticks :
  let m1 := wanting (vip "a" "192.0.2.1" "GRE4" 80 None) None [] in
  let bad := wanting (vip "a" "192.0.2.1" "L3DSR" 81 None) None [] in
  let good := wanting (vip "a" "192.0.2.1" "L3DSR" 81 (Some 10%Z)) None [] in
  let p2 := pass bad (pass m1 start).2 in
  let p3 := pass good p2.2 in let p4 := pass good p3.2 in
  outcomeOf p2.1 = 1 ∧ servers p2.2 = [] ∧ outcomeOf p3.1 = 1 ∧ outcomeOf p4.1 = 1 ∧ servers p4.2 = [] ∧ p4.2 = p3.2.
Proof. vm_compute. split_and!; reflexivity. Qed.
End V1Examples.
