(* ===== verification/V1Config.v ===== *)
(** * The configuration of the version 1 agent (internal/agent/config/config.go)

    Reading, overriding, defaults and validation, and the text functions the two
    configurations of version 1 share.  The system calls and the YAML library are
    classes; durations are in nanoseconds. *)

From Stdlib Require Import SpecFloat.
From stdpp Require Import base tactics list gmap strings pretty.
From S2P Require Import Prelude Types Net Yaml Duration Config.

(** What the loaders ask of the system and of the YAML library. *)
Class Machine := {
  Getenv : string → string;
  Hostname : err + string;
  ReadFile : string → err + string;
  DecodeNode : string → nat → Yaml.decoded;
}.
Class StrictDecoder (Cfg : Type) := DecodeKnown : string → err + Cfg.

(** ** Text *)
Module Text.
(** [strings.TrimSpace] over the bytes; each step consumes one, so the length is
    enough fuel. *)
Fixpoint trimLeft (fuel : nat) (s : list Z) : list Z :=
  match fuel with
  | 0 => s
  | S fuel => match Config.spaceRune s with Some rest => trimLeft fuel rest | None => s end
  end.
Fixpoint trimRight (s : list Z) : list Z :=
  match s with
  | [] => []
  | c :: s' => if Config.allSpace (length s) s then [] else c :: trimRight s'
  end.
Definition trimSpace (s : list Z) : list Z := trimRight (trimLeft (length s) s).
(** [strings.EqualFold] against ASCII letters other than k: of the other runes only
    the long s (U+017F) folds to one. *)
Fixpoint fold (s : list Z) : list Z :=
  match s with
  | [] => []
  | 197 :: 191 :: s => 115 :: fold s
  | c :: s => (if (65 <=? c) && (c <=? 90) then c + 32 else c) :: fold s
  end%Z.
Definition equalFold (s : list Z) (t : string) : bool := bool_decide (fold s = fold (bytes_of t)).
(** [strings.ContainsAny(value, " \t\r\n")] *)
Definition hasBlank (s : string) : bool := existsb (λ c, bool_decide (c ∈ [32; 9; 13; 10]%Z)) (bytes_of s).
(** [validateAPIKey], the same in both packages. *)
Definition validateAPIKey (field value : string) : error :=
  if bool_decide (value = "") then None
  else if hasBlank value then Some (ErrMsg (field +:+ " must not contain whitespace"))
  else if (length (bytes_of value) <? 16)%nat
  then Some (ErrMsg (field +:+ " must be at least 16 characters when set"))
  else None.
(** The first of some checks that fails. *)
Fixpoint firstOf (l : list error) : error :=
  match l with [] => None | Some e :: _ => Some e | None :: l => firstOf l end.
(** [if bad { return fmt.Errorf(msg) }] *)
Definition refuse (bad : bool) (msg : string) : error := if bad then Some (ErrMsg msg) else None.
Definition isSet (s : string) : bool := bool_decide (s ≠ "").
End Text.

(** ** The agent (internal/agent/config/config.go) *)
Module AgentConfig.
Import Text.

Record AgentSettings := {
  ID : string; Metadata : gmap string string; Version : string; ReconcileInterval : Z; HeartbeatInterval : Z }.
Record TLSConfig := {
  tls_Enabled : bool; tls_CertFile : string; tls_KeyFile : string; tls_CAFile : string; tls_InsecureSkipVerify : bool }.
Record ControllerSettings := {
  Address : string; APIKey : string; TLS : TLSConfig; Timeout : Z; MaxRetries : Z; RetryBackoff : Z; MaxRetryBackoff : Z }.
Record VPPLBConfig := {
  lb_EncapType : string; lb_DSCP : Z; lb_Type : string; lb_NewFlowsTableLength : Z; lb_FailOnAllBackendsDown : bool }.
Record VPPConfig := {
  SocketPath : string; ConnectTimeout : Z; ReconnectInterval : Z; MaxReconnectAttempts : Z; LB : VPPLBConfig }.
Record FRRConfig := { frr_Enabled : bool; frr_VTYShell : string; frr_ConfigFile : string }.
Record HealthCheckConfig := { WorkerCount : Z; DefaultTimeout : Z; MaxConcurrentChecks : Z }.
Record LogConfig := { Level : string; Format : string; Output : string }.
Record MetricsConfig := { m_Enabled : bool; m_ListenAddress : string; m_Path : string; m_Timeout : Z }.
Record Config := {
  Agent : AgentSettings; Controller : ControllerSettings; VPP : VPPConfig; FRR : FRRConfig;
  HealthCheck : HealthCheckConfig; Log : LogConfig; Metrics : MetricsConfig }.

Section Loading.
Context {H : Machine}.

(** [if v := os.Getenv(name); v != "" { field = v }] *)
Definition fromEnv (name field : string) : string := if isSet (Getenv name) then Getenv name else field.
Definition applyEnvOverrides (cfg : Config) : err + Config :=
  let a := Agent cfg in let c := Controller cfg in let t := TLS c in let v := VPP cfg in let l := Log cfg in
  let enabled :=
    if isSet (Getenv "ARCA_TLS_ENABLED") then
      match Config.ParseBool (Getenv "ARCA_TLS_ENABLED") with
      | Some b => inr b
      | None => inl (errorf "ARCA_TLS_ENABLED must be a boolean: "
                       (ErrMsg ("strconv.ParseBool: parsing " +:+ quoted (Getenv "ARCA_TLS_ENABLED") +:+ ": invalid syntax")))
      end
    else inr (tls_Enabled t) in
  match enabled with
  | inl e => inl e
  | inr enabled =>
      inr {| Agent := {| ID := fromEnv "ARCA_AGENT_ID" (ID a); Metadata := Metadata a; Version := Version a;
                         ReconcileInterval := ReconcileInterval a; HeartbeatInterval := HeartbeatInterval a |};
             Controller :=
               {| Address := fromEnv "ARCA_CONTROLLER_ADDRESS" (Address c); APIKey := fromEnv "ARCA_CONTROLLER_API_KEY" (APIKey c);
                  TLS := {| tls_Enabled := enabled; tls_CertFile := fromEnv "ARCA_TLS_CERT" (tls_CertFile t);
                            tls_KeyFile := fromEnv "ARCA_TLS_KEY" (tls_KeyFile t); tls_CAFile := fromEnv "ARCA_TLS_CA" (tls_CAFile t);
                            tls_InsecureSkipVerify := tls_InsecureSkipVerify t |};
                  Timeout := Timeout c; MaxRetries := MaxRetries c; RetryBackoff := RetryBackoff c;
                  MaxRetryBackoff := MaxRetryBackoff c |};
             VPP := {| SocketPath := fromEnv "ARCA_VPP_SOCKET" (SocketPath v); ConnectTimeout := ConnectTimeout v;
                       ReconnectInterval := ReconnectInterval v; MaxReconnectAttempts := MaxReconnectAttempts v; LB := LB v |};
             FRR := FRR cfg; HealthCheck := HealthCheck cfg;
             Log := {| Level := fromEnv "ARCA_LOG_LEVEL" (Level l); Format := fromEnv "ARCA_LOG_FORMAT" (Format l);
                       Output := Output l |};
             Metrics := Metrics cfg |}
  end.

Definition applyDefaults (cfg : Config) : Config :=
  let a := Agent cfg in let c := Controller cfg in let v := VPP cfg in let f := FRR cfg in
  let h := HealthCheck cfg in let l := Log cfg in let m := Metrics cfg in
  {| Agent := {| ID := if bool_decide (ID a = "") then match Hostname with inr hostname => hostname | inl _ => "agent-unknown" end
                       else ID a;
                 Metadata := Metadata a; Version := Version a;
                 ReconcileInterval := Config.orZ (ReconcileInterval a) (30 * Second);
                 HeartbeatInterval := Config.orZ (HeartbeatInterval a) (10 * Second) |};
     Controller := {| Address := Config.orString (Address c) "localhost:50051"; APIKey := APIKey c; TLS := TLS c;
                      Timeout := Config.orZ (Timeout c) (10 * Second); MaxRetries := Config.orZ (MaxRetries c) 5;
                      RetryBackoff := Config.orZ (RetryBackoff c) Second; MaxRetryBackoff := Config.orZ (MaxRetryBackoff c) (30 * Second) |};
     VPP := {| SocketPath := Config.orString (SocketPath v) "/run/vpp/api.sock"; ConnectTimeout := Config.orZ (ConnectTimeout v) (5 * Second);
               ReconnectInterval := Config.orZ (ReconnectInterval v) (5 * Second); MaxReconnectAttempts := MaxReconnectAttempts v;
               LB := {| lb_EncapType := Config.orString (lb_EncapType (LB v)) "GRE4"; lb_DSCP := lb_DSCP (LB v);
                        lb_Type := Config.orString (lb_Type (LB v)) "CLUSTERIP";
                        lb_NewFlowsTableLength := Config.orZ (lb_NewFlowsTableLength (LB v)) 1024;
                        lb_FailOnAllBackendsDown := lb_FailOnAllBackendsDown (LB v) |} |};
     FRR := {| frr_Enabled := frr_Enabled f; frr_VTYShell := Config.orString (frr_VTYShell f) "/usr/bin/vtysh";
               frr_ConfigFile := Config.orString (frr_ConfigFile f) "/etc/frr/frr.conf" |};
     HealthCheck := {| WorkerCount := Config.orZ (WorkerCount h) 4; DefaultTimeout := Config.orZ (DefaultTimeout h) (3 * Second);
                       MaxConcurrentChecks := Config.orZ (MaxConcurrentChecks h) 100 |};
     Log := {| Level := Config.orString (Level l) "info"; Format := Config.orString (Format l) "json"; Output := Config.orString (Output l) "stdout" |};
     Metrics := {| m_Enabled := m_Enabled m; m_ListenAddress := Config.orString (m_ListenAddress m) "127.0.0.1:9090";
                   m_Path := Config.orString (m_Path m) "/metrics"; m_Timeout := Config.orZ (m_Timeout m) (10 * Second) |} |}.

Definition validate (cfg : Config) : error :=
  let a := Agent cfg in let c := Controller cfg in let t := TLS c in let v := VPP cfg in let h := HealthCheck cfg in
  let nonPositive z name := refuse (z <=? 0)%Z (name +:+ " must be positive") in
  let needsTLS b name := refuse (negb (tls_Enabled t) && b) ("controller.tls.enabled must be enabled when " +:+ name +:+ " is set") in
  firstOf
    [Config.ValidateAgentID "agent.id" (ID a);
     refuse (negb (isSet (Address c))) "controller.address is required";
     validateAPIKey "controller.api_key" (APIKey c);
     refuse (isSet (APIKey c) && negb (tls_Enabled t)) "controller.tls.enabled must be enabled when controller.api_key is set";
     refuse (isSet (APIKey c) && tls_InsecureSkipVerify t) "controller.tls.insecure_skip_verify must be false when controller.api_key is set";
     needsTLS (isSet (tls_CAFile t)) "controller.tls.ca_file";
     needsTLS (isSet (tls_CertFile t)) "controller.tls.cert_file";
     needsTLS (isSet (tls_KeyFile t)) "controller.tls.key_file";
     needsTLS (tls_InsecureSkipVerify t) "controller.tls.insecure_skip_verify";
     refuse (negb (isSet (SocketPath v))) "vpp.socket_path is required";
     refuse (negb (bool_decide (Level (Log cfg) ∈ ["debug"; "info"; "warn"; "error"]))) ("invalid log level: " +:+ Level (Log cfg));
     refuse (negb (bool_decide (Format (Log cfg) ∈ ["json"; "text"]))) ("invalid log format: " +:+ Format (Log cfg));
     refuse (tls_Enabled t && negb (isSet (tls_CAFile t))) "tls.ca_file is required when TLS is enabled";
     refuse (tls_Enabled t && xorb (isSet (tls_CertFile t)) (isSet (tls_KeyFile t)))
       "tls.cert_file and tls.key_file must both be set when client certificate is configured";
     nonPositive (ReconcileInterval a) "agent.reconcile_interval";
     nonPositive (HeartbeatInterval a) "agent.heartbeat_interval";
     nonPositive (Timeout c) "controller.timeout";
     nonPositive (MaxRetries c) "controller.max_retries";
     nonPositive (RetryBackoff c) "controller.retry_backoff";
     nonPositive (MaxRetryBackoff c) "controller.max_retry_backoff";
     refuse (MaxRetryBackoff c <? RetryBackoff c)%Z "controller.max_retry_backoff must be >= retry_backoff";
     nonPositive (ConnectTimeout v) "vpp.connect_timeout";
     nonPositive (ReconnectInterval v) "vpp.reconnect_interval";
     refuse (MaxReconnectAttempts v <? 0)%Z "vpp.max_reconnect_attempts must be non-negative (0 = infinite)";
     refuse (isSet (lb_EncapType (LB v)) && negb (bool_decide (lb_EncapType (LB v) ∈ ["GRE4"; "GRE6"; "L3DSR"; "NAT4"; "NAT6"])))
       ("invalid vpp.lb.encap_type: " +:+ lb_EncapType (LB v) +:+ " (must be one of: GRE4, GRE6, L3DSR, NAT4, NAT6)");
     refuse (isSet (lb_Type (LB v)) && negb (bool_decide (lb_Type (LB v) ∈ ["CLUSTERIP"; "NODEPORT"])))
       ("invalid vpp.lb.type: " +:+ lb_Type (LB v) +:+ " (must be one of: CLUSTERIP, NODEPORT)");
     refuse (63 <? lb_DSCP (LB v))%Z "vpp.lb.dscp must be <= 63";
     refuse ((0 <? lb_NewFlowsTableLength (LB v))%Z && negb (Config.isPowerOfTwo (lb_NewFlowsTableLength (LB v))))
       "vpp.lb.new_flows_table_length must be a power of two if set";
     nonPositive (WorkerCount h) "health_check.worker_count";
     nonPositive (DefaultTimeout h) "health_check.default_timeout";
     nonPositive (MaxConcurrentChecks h) "health_check.max_concurrent_checks"].

Context {D : StrictDecoder Config}.
Definition LoadConfig (path : string) : err + Config :=
  match ReadFile path with
  | inl e => inl (errorf "failed to read config file: " e)
  | inr data =>
      match Yaml.DecodeStrict (DecodeNode data) (DecodeKnown data) with
      | inl e => inl (errorf "failed to parse config: " e)
      | inr config =>
          match applyEnvOverrides config with
          | inl e => inl (errorf "invalid environment override: " e)
          | inr config =>
              let config := applyDefaults config in
              match validate config with
              | Some e => inl (errorf "invalid configuration: " e)
              | None => inr config
              end
          end
      end
  end.
End Loading.
End AgentConfig.
