(* ===== verification/ControllerConfig.v ===== *)
(** * The configuration of the version 1 controller
    (internal/controller/config/config.go, internal/common/datastore/factory.go)

    Reading, defaults, secrets from files and validation, and the choice of the
    store.  [url.Parse] is a parameter. *)

From Stdlib Require Import SpecFloat.
From stdpp Require Import base tactics list gmap strings pretty.
From S2P Require Import Prelude Types Net Yaml Duration Config V1Config.

Module ControllerConfig.
Import Text.

Record ServerConfig := {
  Host : string; Port : Z; APIKey : string; APIKeyFile : string; TLS : bool; CertFile : string; KeyFile : string;
  ReadTimeout : Z; WriteTimeout : Z; ReadHeaderTimeout : Z; IdleTimeout : Z; DataStoreTimeout : Z;
  MaxHeaderBytes : Z; MaxBodyBytes : Z; AllowedOrigins : list string }.
Record EtcdConfig := {
  e_Endpoints : list string; e_KeyPrefix : string; e_TLS : bool; e_CertFile : string; e_KeyFile : string; e_CAFile : string;
  e_DialTimeout : Z; e_RequestTimeout : Z }.
Record MySQLConfig := {
  s_Host : string; s_Port : Z; s_User : string; s_Password : string; s_PasswordFile : string; s_Database : string;
  s_TLSMode : string; s_TLSCAFile : string; s_TLSCertFile : string; s_TLSKeyFile : string; s_TLSServerName : string;
  s_MaxOpenConns : Z; s_MaxIdleConns : Z; s_ConnMaxLifetime : Z; s_WatchPollInterval : Z }.
Record DataStoreConfig := { ds_Type : string; Etcd : EtcdConfig; MySQL : MySQLConfig }.
Record GRPCConfig := {
  g_Host : string; g_Port : Z; g_APIKey : string; g_APIKeyFile : string; g_TLS : bool; g_CertFile : string; g_KeyFile : string;
  g_ClientCAFile : string; g_RequireClientCert : bool; g_AuthorizeAgentIDWithClientCert : bool }.
Record LogConfig := { Level : string; Format : string }.
Record Config := { Server : ServerConfig; DataStore : DataStoreConfig; GRPC : GRPCConfig; Log : LogConfig }.

(** What [url.Parse] gives of an origin. *)
Record URL := {
  u_Scheme : string; u_User : bool; u_Host : string; u_Hostname : string; u_Path : string; u_RawQuery : string; u_Fragment : string }.

Definition setDefaults (c : Config) : Config :=
  let s := Server c in let g := GRPC c in let l := Log c in
  {| Server := {| Host := Config.orString (Host s) "127.0.0.1"; Port := Config.orZ (Port s) 8080; APIKey := APIKey s; APIKeyFile := APIKeyFile s;
                  TLS := TLS s; CertFile := CertFile s; KeyFile := KeyFile s;
                  ReadTimeout := Config.orZ (ReadTimeout s) (10 * Second); WriteTimeout := Config.orZ (WriteTimeout s) (10 * Second);
                  ReadHeaderTimeout := Config.orZ (ReadHeaderTimeout s) (5 * Second); IdleTimeout := Config.orZ (IdleTimeout s) (60 * Second);
                  DataStoreTimeout := Config.orZ (DataStoreTimeout s) (5 * Second);
                  MaxHeaderBytes := Config.orZ (MaxHeaderBytes s) (Z.shiftl 1 20); MaxBodyBytes := Config.orZ (MaxBodyBytes s) (Z.shiftl 1 20);
                  AllowedOrigins := match AllowedOrigins s with [] => ["http://localhost:3000"] | l => l end |};
     DataStore := DataStore c;
     GRPC := {| g_Host := Config.orString (g_Host g) "127.0.0.1"; g_Port := Config.orZ (g_Port g) 50051; g_APIKey := g_APIKey g;
                g_APIKeyFile := g_APIKeyFile g; g_TLS := g_TLS g; g_CertFile := g_CertFile g; g_KeyFile := g_KeyFile g;
                g_ClientCAFile := g_ClientCAFile g; g_RequireClientCert := g_RequireClientCert g;
                g_AuthorizeAgentIDWithClientCert := g_AuthorizeAgentIDWithClientCert g |};
     Log := {| Level := Config.orString (Level l) "info"; Format := Config.orString (Format l) "json" |} |}.

Section Loading.
Context {H : Machine}.
(** [url.Parse]; [None] is an error. *)
Variable Parse : string → option URL.

(** [strings.TrimRight(s, "\r\n")] *)
Fixpoint trimNewlines (s : string) : string :=
  match s with
  | String.EmptyString => ""
  | String.String c s' =>
      match trimNewlines s' with
      | "" => if bool_decide (code c ∈ [13; 10]%Z) then "" else String.String c ""
      | rest => String.String c rest
      end
  end.
Definition loadSecretValue (field value filePath : string) : err + string :=
  if isSet value && isSet filePath then inl (ErrMsg (field +:+ " and " +:+ field +:+ "_file must not both be set"))
  else if negb (isSet filePath) then inr value
  else
    match ReadFile filePath with
    | inl e => inl (errorf ("failed to read " +:+ field +:+ "_file: ") e)
    | inr data => inr (trimNewlines data)
    end.
Definition loadSecrets (c : Config) : err + Config :=
  let s := Server c in let d := DataStore c in let m := MySQL d in let g := GRPC c in
  match loadSecretValue "server.api_key" (APIKey s) (APIKeyFile s) with
  | inl e => inl e
  | inr serverKey =>
      match loadSecretValue "grpc.api_key" (g_APIKey g) (g_APIKeyFile g) with
      | inl e => inl e
      | inr grpcKey =>
          match loadSecretValue "datastore.mysql.password" (s_Password m) (s_PasswordFile m) with
          | inl e => inl e
          | inr password =>
              inr {| Server := {| Host := Host s; Port := Port s; APIKey := serverKey; APIKeyFile := APIKeyFile s; TLS := TLS s;
                                  CertFile := CertFile s; KeyFile := KeyFile s; ReadTimeout := ReadTimeout s;
                                  WriteTimeout := WriteTimeout s; ReadHeaderTimeout := ReadHeaderTimeout s;
                                  IdleTimeout := IdleTimeout s; DataStoreTimeout := DataStoreTimeout s;
                                  MaxHeaderBytes := MaxHeaderBytes s; MaxBodyBytes := MaxBodyBytes s;
                                  AllowedOrigins := AllowedOrigins s |};
                     DataStore := {| ds_Type := ds_Type d; Etcd := Etcd d;
                                     MySQL := {| s_Host := s_Host m; s_Port := s_Port m; s_User := s_User m; s_Password := password;
                                                 s_PasswordFile := s_PasswordFile m; s_Database := s_Database m;
                                                 s_TLSMode := s_TLSMode m; s_TLSCAFile := s_TLSCAFile m;
                                                 s_TLSCertFile := s_TLSCertFile m; s_TLSKeyFile := s_TLSKeyFile m;
                                                 s_TLSServerName := s_TLSServerName m; s_MaxOpenConns := s_MaxOpenConns m;
                                                 s_MaxIdleConns := s_MaxIdleConns m; s_ConnMaxLifetime := s_ConnMaxLifetime m;
                                                 s_WatchPollInterval := s_WatchPollInterval m |} |};
                     GRPC := {| g_Host := g_Host g; g_Port := g_Port g; g_APIKey := grpcKey; g_APIKeyFile := g_APIKeyFile g;
                                g_TLS := g_TLS g; g_CertFile := g_CertFile g; g_KeyFile := g_KeyFile g;
                                g_ClientCAFile := g_ClientCAFile g; g_RequireClientCert := g_RequireClientCert g;
                                g_AuthorizeAgentIDWithClientCert := g_AuthorizeAgentIDWithClientCert g |};
                     Log := Log c |}
          end
      end
  end.

(** [addr.IsLoopback]: 127.0.0.0/8, also in its mapped form, and ::1. *)
Definition IsLoopback (a : Addr) : bool :=
  match a with
  | Addr4 b => bool_decide (head b = Some 127%Z)
  | Addr6 b _ =>
      match To4 b with
      | Some b => bool_decide (head b = Some 127%Z)
      | None => bool_decide (b = replicate 15 0%Z ++ [1%Z])
      end
  end.
Definition isLoopbackBindHost (host : string) : bool :=
  let host := trimSpace (bytes_of host) in
  if equalFold host "localhost" then true
  else match parseAddrFrom host host with None => false | Some addr => IsLoopback addr end.

Definition validateOrigin (origin : string) : error :=
  let invalid := Some (ErrMsg ("server.allowed_origins contains invalid origin " +:+ quoted origin)) in
  if bool_decide (origin = "") || hasBlank origin
  then Some (ErrMsg "server.allowed_origins must not contain empty or whitespace values")
  else if bool_decide (origin = "*")
  then Some (ErrMsg "server.allowed_origins must not contain wildcard origins when credentials are enabled")
  else
    match Parse origin with
    | None => invalid
    | Some u =>
        if bool_decide (u_Scheme u = "") || bool_decide (u_Host u = "") || bool_decide (u_Hostname u = "") then invalid
        else if bool_decide (u_Scheme u ≠ "http") && bool_decide (u_Scheme u ≠ "https")
        then Some (ErrMsg ("server.allowed_origins origin " +:+ quoted origin +:+ " must use http or https"))
        else if u_User u || isSet (u_Path u) || isSet (u_RawQuery u) || isSet (u_Fragment u) then invalid
        else None
    end.
Definition validateAllowedOrigins (origins : list string) : error := firstOf (validateOrigin <$> origins).

Definition validateEtcdConfig (cfg : EtcdConfig) : error :=
  let needsTLS b name := refuse (negb (e_TLS cfg) && b) ("datastore.etcd.tls must be enabled when datastore.etcd." +:+ name +:+ " is set") in
  firstOf
    [refuse (bool_decide (e_Endpoints cfg = [])) "datastore.etcd.endpoints is required";
     refuse (existsb (negb ∘ isSet) (e_Endpoints cfg)) "datastore.etcd.endpoints must not contain empty values";
     refuse (e_DialTimeout cfg <? 0)%Z "datastore.etcd.dial_timeout must be non-negative";
     refuse (e_RequestTimeout cfg <? 0)%Z "datastore.etcd.request_timeout must be non-negative";
     needsTLS (isSet (e_CAFile cfg)) "ca_file"; needsTLS (isSet (e_CertFile cfg)) "cert_file";
     needsTLS (isSet (e_KeyFile cfg)) "key_file";
     refuse (e_TLS cfg && negb (isSet (e_CAFile cfg))) "datastore.etcd.ca_file is required when datastore.etcd.tls is enabled";
     refuse (e_TLS cfg && xorb (isSet (e_CertFile cfg)) (isSet (e_KeyFile cfg)))
       "datastore.etcd.cert_file and datastore.etcd.key_file must both be set when client certificate is configured"].
Definition validateMySQLTLSConfig (cfg : MySQLConfig) : error :=
  let hasCustomTLSFields := isSet (s_TLSCAFile cfg) || isSet (s_TLSCertFile cfg) || isSet (s_TLSKeyFile cfg) || isSet (s_TLSServerName cfg) in
  let custom := bool_decide (s_TLSMode cfg = "custom") in
  firstOf
    [refuse (negb (bool_decide (s_TLSMode cfg ∈ [""; "false"; "true"; "skip-verify"; "preferred"; "custom"])))
       "datastore.mysql.tls_mode must be one of false, true, skip-verify, preferred, or custom";
     refuse (hasCustomTLSFields && negb custom) "datastore.mysql.tls_mode must be custom when MySQL TLS certificate fields are set";
     refuse (custom && negb hasCustomTLSFields) "datastore.mysql.tls_mode custom requires at least one MySQL TLS certificate field";
     refuse (custom && xorb (isSet (s_TLSCertFile cfg)) (isSet (s_TLSKeyFile cfg)))
       "datastore.mysql.tls_cert_file and datastore.mysql.tls_key_file must both be set when client certificate is configured"].
Definition validateMySQLConfig (cfg : MySQLConfig) : error :=
  firstOf
    [refuse (negb (isSet (s_Host cfg))) "datastore.mysql.host is required";
     refuse ((s_Port cfg <? 1) || (65535 <? s_Port cfg))%Z "datastore.mysql.port must be between 1 and 65535";
     refuse (negb (isSet (s_User cfg))) "datastore.mysql.user is required";
     refuse (negb (isSet (s_Database cfg))) "datastore.mysql.database is required";
     validateMySQLTLSConfig cfg;
     refuse (s_MaxOpenConns cfg <? 0)%Z "datastore.mysql.max_open_conns must be non-negative";
     refuse (s_MaxIdleConns cfg <? 0)%Z "datastore.mysql.max_idle_conns must be non-negative";
     refuse ((0 <? s_MaxOpenConns cfg) && (s_MaxOpenConns cfg <? s_MaxIdleConns cfg))%Z
       "datastore.mysql.max_idle_conns must not exceed datastore.mysql.max_open_conns";
     refuse (s_ConnMaxLifetime cfg <? 0)%Z "datastore.mysql.conn_max_lifetime must be non-negative";
     refuse (s_WatchPollInterval cfg <? 0)%Z "datastore.mysql.watch_poll_interval must be non-negative"].
Definition validateDataStore (c : Config) : error :=
  let t := ds_Type (DataStore c) in
  if bool_decide (t = "") then Some (ErrMsg "datastore.type is required")
  else if bool_decide (t = "etcd") then validateEtcdConfig (Etcd (DataStore c))
  else if bool_decide (t = "mysql") then validateMySQLConfig (MySQL (DataStore c))
  else Some (ErrMsg ("unsupported datastore.type: " +:+ t)).

Definition validate (c : Config) : error :=
  let s := Server c in let g := GRPC c in
  let nonPositive z name := refuse (z <=? 0)%Z ("server." +:+ name +:+ " must be positive") in
  let serverOpen := negb (isLoopbackBindHost (Host s)) in
  let grpcOpen := negb (isLoopbackBindHost (g_Host g)) in
  firstOf
    [refuse ((Port s <? 1) || (65535 <? Port s))%Z "server.port must be between 1 and 65535";
     validateAPIKey "server.api_key" (APIKey s);
     refuse (isSet (APIKey s) && negb (TLS s)) "server.tls must be enabled when server.api_key is set";
     refuse (negb (TLS s) && isSet (CertFile s)) "server.tls must be enabled when server.cert_file is set";
     refuse (negb (TLS s) && isSet (KeyFile s)) "server.tls must be enabled when server.key_file is set";
     refuse (TLS s && negb (isSet (CertFile s))) "server.cert_file is required when server.tls is enabled";
     refuse (TLS s && negb (isSet (KeyFile s))) "server.key_file is required when server.tls is enabled";
     refuse (serverOpen && negb (TLS s)) "server.tls must be enabled when server.host is non-loopback";
     refuse (serverOpen && negb (isSet (APIKey s))) "server.api_key or server.api_key_file must be set when server.host is non-loopback";
     nonPositive (ReadTimeout s) "read_timeout"; nonPositive (WriteTimeout s) "write_timeout";
     nonPositive (ReadHeaderTimeout s) "read_header_timeout"; nonPositive (IdleTimeout s) "idle_timeout";
     nonPositive (DataStoreTimeout s) "datastore_timeout"; nonPositive (MaxHeaderBytes s) "max_header_bytes";
     nonPositive (MaxBodyBytes s) "max_body_bytes";
     validateAllowedOrigins (AllowedOrigins s);
     validateDataStore c;
     refuse ((g_Port g <? 1) || (65535 <? g_Port g))%Z "grpc.port must be between 1 and 65535";
     validateAPIKey "grpc.api_key" (g_APIKey g);
     refuse (isSet (g_APIKey g) && negb (g_TLS g)) "grpc.tls must be enabled when grpc.api_key is set";
     refuse (g_RequireClientCert g && negb (g_TLS g)) "grpc.tls must be enabled when grpc.require_client_cert is enabled";
     refuse (g_AuthorizeAgentIDWithClientCert g && negb (g_RequireClientCert g))
       "grpc.require_client_cert must be enabled when grpc.authorize_agent_id_with_client_cert is enabled";
     refuse (negb (g_TLS g) && isSet (g_CertFile g)) "grpc.tls must be enabled when grpc.cert_file is set";
     refuse (negb (g_TLS g) && isSet (g_KeyFile g)) "grpc.tls must be enabled when grpc.key_file is set";
     refuse (negb (g_TLS g) && isSet (g_ClientCAFile g)) "grpc.tls must be enabled when grpc.client_ca_file is set";
     refuse (g_TLS g && negb (isSet (g_CertFile g))) "grpc.cert_file is required when grpc.tls is enabled";
     refuse (g_TLS g && negb (isSet (g_KeyFile g))) "grpc.key_file is required when grpc.tls is enabled";
     refuse (g_RequireClientCert g && negb (isSet (g_ClientCAFile g))) "grpc.client_ca_file is required when grpc.require_client_cert is enabled";
     refuse (g_RequireClientCert g && negb (g_AuthorizeAgentIDWithClientCert g))
       "grpc.authorize_agent_id_with_client_cert must be enabled when grpc.require_client_cert is enabled";
     refuse (grpcOpen && negb (g_TLS g)) "grpc.tls must be enabled when grpc.host is non-loopback";
     refuse (grpcOpen && negb (isSet (g_APIKey g)) && negb (g_RequireClientCert g))
       "grpc.api_key, grpc.api_key_file, or grpc.require_client_cert must be set when grpc.host is non-loopback"].

Context {D : StrictDecoder Config}.
Definition LoadConfig (path : string) : err + Config :=
  match ReadFile path with
  | inl e => inl (errorf "failed to read config file: " e)
  | inr data =>
      match Yaml.DecodeStrict (DecodeNode data) (DecodeKnown data) with
      | inl e => inl (errorf "failed to parse config file: " e)
      | inr cfg =>
          match loadSecrets (setDefaults cfg) with
          | inl e => inl (errorf "invalid config: " e)
          | inr cfg =>
              match validate cfg with
              | Some e => inl (errorf "invalid config: " e)
              | None => inr cfg
              end
          end
      end
  end.
End Loading.

(** ** The datastore's own configuration, and the factories by type (factory.go) *)
Record StoreConfig := {
  Type_ : string;
  MySQLHost : string; MySQLPort : Z; MySQLUser : string; MySQLPassword : string; MySQLDatabase : string;
  MySQLTLSMode : string; MySQLTLSCAFile : string; MySQLTLSCertFile : string; MySQLTLSKeyFile : string; MySQLTLSServerName : string;
  MySQLMaxOpenConns : Z; MySQLMaxIdleConns : Z; MySQLConnMaxLifetime : Z; MySQLWatchPollInterval : Z;
  EtcdEndpoints : list string; EtcdKeyPrefix : string; EtcdTLS : bool;
  EtcdCertFile : string; EtcdKeyFile : string; EtcdCAFile : string; EtcdDialTimeout : Z; EtcdRequestTimeout : Z }.
Definition noMySQL : MySQLConfig := Build_MySQLConfig "" 0 "" "" "" "" "" "" "" "" "" 0 0 0 0.
Definition noEtcd : EtcdConfig := Build_EtcdConfig [] "" false "" "" "" 0 0.
Definition ToDataStoreConfig (c : Config) : StoreConfig :=
  let t := ds_Type (DataStore c) in
  let m := if bool_decide (t = "mysql") then MySQL (DataStore c) else noMySQL in
  let e := if bool_decide (t = "etcd") then Etcd (DataStore c) else noEtcd in
  {| Type_ := t;
     MySQLHost := s_Host m; MySQLPort := s_Port m; MySQLUser := s_User m; MySQLPassword := s_Password m; MySQLDatabase := s_Database m;
     MySQLTLSMode := s_TLSMode m; MySQLTLSCAFile := s_TLSCAFile m; MySQLTLSCertFile := s_TLSCertFile m;
     MySQLTLSKeyFile := s_TLSKeyFile m; MySQLTLSServerName := s_TLSServerName m;
     MySQLMaxOpenConns := s_MaxOpenConns m; MySQLMaxIdleConns := s_MaxIdleConns m; MySQLConnMaxLifetime := s_ConnMaxLifetime m;
     MySQLWatchPollInterval := s_WatchPollInterval m;
     EtcdEndpoints := e_Endpoints e; EtcdKeyPrefix := e_KeyPrefix e; EtcdTLS := e_TLS e;
     EtcdCertFile := e_CertFile e; EtcdKeyFile := e_KeyFile e; EtcdCAFile := e_CAFile e;
     EtcdDialTimeout := e_DialTimeout e; EtcdRequestTimeout := e_RequestTimeout e |}.

Section Factory.
Context {S : Type}.
Definition DataStoreFactory : Type := StoreConfig → err + S.
Definition Register (name : string) (factory : DataStoreFactory) (registry : gmap string DataStoreFactory) : gmap string DataStoreFactory :=
  <[name := factory]> registry.
Definition NewDataStore (registry : gmap string DataStoreFactory) (cfg : option StoreConfig) : err + S :=
  match cfg with
  | None => inl (ErrMsg "datastore config is required")
  | Some cfg =>
      match registry !! Type_ cfg with
      | None => inl (ErrMsg ("unsupported datastore type: " +:+ Type_ cfg))
      | Some factory => factory cfg
      end
  end.
End Factory.
End ControllerConfig.
