(* ===== verification/Sync.v ===== *)
(** * What the version 1 controller sends to its agents
    (internal/controller/grpc, internal/controller/auth, the messages of pkg/grpc)

    The messages are those of the generated code; a message pointer may be nil.
    The store is the class [ConfigSyncStore].  The health check settings travel as
    JSON text, through [Codec (option HCConfig)], where [None] is the nil map. *)

From Stdlib Require Import SpecFloat.
From stdpp Require Import base tactics list gmap strings pretty.
From S2P Require Import Prelude Types Net Store Validation Duration Config Models V1Config ControllerConfig.

(** ** Messages (config.pb.go, sync.pb.go).  An enum of proto3 is any number. *)
Module Pb.
Record Timestamp := { seconds : Z; nanos : Z }.
Record VIP := {
  Id : string; Vip : string; Port : Z; Protocol : Z; LbMethod : Z;
  CreatedAt : option Timestamp; UpdatedAt : option Timestamp;
  EncapType : Z; Dscp : option Z;
}.
Record HealthCheck := {
  hc_Id : string; hc_VipId : string; hc_Type : Z;
  hc_IntervalSec : Z; hc_TimeoutSec : Z; hc_RiseCount : Z; hc_FallCount : Z;
  hc_Config : string; hc_CreatedAt : option Timestamp; hc_UpdatedAt : option Timestamp;
}.
Record Backend := {
  be_Id : string; be_VipId : string; be_Ip : string; be_Weight : Z;
  be_CreatedAt : option Timestamp; be_UpdatedAt : option Timestamp;
}.
Record VIPConfig := {
  vc_Vip : option VIP; vc_HealthCheck : option HealthCheck; vc_Backends : list (option Backend);
}.
Record ConfigSnapshot := { cfg_Revision : Z; cfg_Vips : list (option VIPConfig) }.

Definition PROTOCOL_UNSPECIFIED : Z := 0.
Definition PROTOCOL_TCP : Z := 1.
Definition PROTOCOL_UDP : Z := 2.
Definition LB_METHOD_UNSPECIFIED : Z := 0.
Definition LB_METHOD_MAGLEV : Z := 1.
Definition ENCAP_TYPE_UNSPECIFIED : Z := 0.
Definition ENCAP_TYPE_GRE4 : Z := 1.
Definition ENCAP_TYPE_GRE6 : Z := 2.
Definition ENCAP_TYPE_L3DSR : Z := 3.
Definition ENCAP_TYPE_NAT4 : Z := 4.
Definition ENCAP_TYPE_NAT6 : Z := 5.
Definition HC_TYPE_UNSPECIFIED : Z := 0.
Definition HC_TYPE_HTTP : Z := 1.
Definition HC_TYPE_HTTPS : Z := 2.
Definition HC_TYPE_TCP : Z := 3.
Definition HC_TYPE_PING : Z := 4.
Definition HC_TYPE_TLS_HELLO : Z := 5.

Record GetConfigRequest := { gcr_CurrentRevision : Z; gcr_AgentId : string }.
Record GetConfigResponse := { gcs_Config : option ConfigSnapshot; gcs_Unchanged : bool }.
Record WatchConfigRequest := { wcr_AgentId : string; wcr_CurrentRevision : Z }.
Record WatchConfigResponse := { wcs_Config : option ConfigSnapshot; wcs_Error : string }.
Record RegisterAgentRequest := { rar_AgentId : string; rar_Version : string; rar_Metadata : gmap string string }.
Record RegisterAgentResponse := { ras_Success : bool; ras_Message : string; ras_Config : option ConfigSnapshot }.
Record HeartbeatRequest := { hbr_AgentId : string; hbr_CurrentRevision : Z }.
Record HeartbeatResponse := { hbs_Success : bool; hbs_NewRevision : Z; hbs_ResyncRequired : bool }.

(** [timestamppb.New] and [AsTime].  A time is in nanoseconds since 1970; [None] is
    the zero [time.Time], the start of year 1. *)
Definition zeroSeconds : Z := -62135596800.
Definition New (t : option Z) : Timestamp :=
  match t with
  | None => {| seconds := zeroSeconds; nanos := 0 |}
  | Some n => {| seconds := n `div` 1000000000; nanos := n `mod` 1000000000 |}
  end.
Definition AsTime (t : Timestamp) : option Z :=
  let n := (seconds t * 1000000000 + nanos t)%Z in
  if (n =? zeroSeconds * 1000000000)%Z then None else Some n.
End Pb.

(** ** Errors of handlers: the gRPC status, or the error a stream gave *)
Inductive code := InvalidArgument | Internal | Unauthenticated | PermissionDenied.
Inductive rpcErr := Status (c : code) (msg : string) | StreamErr (e : err).

Module SyncService.
Import Models Validation.

(** [if err != nil { return nil, err }] *)
Definition tryE {X A B} (r : X + A) (k : A → X + B) : X + B :=
  match r with inl e => inl e | inr a => k a end.
Notation "x ←! r ; k" := (tryE r (λ x, k)) (at level 20, r at level 100, k at level 200, right associativity).
Definition guard {X} (e : option X) : X + unit := match e with Some e => inl e | None => inr tt end.

(** ** Enums *)
Definition convertProtocol (protocol : string) : Z :=
  if bool_decide (protocol = ProtocolTCP) then Pb.PROTOCOL_TCP
  else if bool_decide (protocol = ProtocolUDP) then Pb.PROTOCOL_UDP
  else Pb.PROTOCOL_UNSPECIFIED.
Definition convertLBMethod (method : string) : Z :=
  if bool_decide (method = LBMethodMaglev) then Pb.LB_METHOD_MAGLEV else Pb.LB_METHOD_UNSPECIFIED.
Definition convertEncapType (encapType : string) : Z :=
  if bool_decide (encapType = EncapTypeGRE4) then Pb.ENCAP_TYPE_GRE4
  else if bool_decide (encapType = EncapTypeGRE6) then Pb.ENCAP_TYPE_GRE6
  else if bool_decide (encapType = EncapTypeL3DSR) then Pb.ENCAP_TYPE_L3DSR
  else if bool_decide (encapType = EncapTypeNAT4) then Pb.ENCAP_TYPE_NAT4
  else if bool_decide (encapType = EncapTypeNAT6) then Pb.ENCAP_TYPE_NAT6
  else Pb.ENCAP_TYPE_UNSPECIFIED.
Definition convertHCType (hcType : string) : Z :=
  if bool_decide (hcType = HCTypeHTTP) then Pb.HC_TYPE_HTTP
  else if bool_decide (hcType = HCTypeHTTPS) then Pb.HC_TYPE_HTTPS
  else if bool_decide (hcType = HCTypeTCP) then Pb.HC_TYPE_TCP
  else if bool_decide (hcType = HCTypePing) then Pb.HC_TYPE_PING
  else if bool_decide (hcType = HCTypeTLSHello) then Pb.HC_TYPE_TLS_HELLO
  else Pb.HC_TYPE_UNSPECIFIED.

(** ** Identities: what names one resource only

    The controller checks a whole configuration before it sends it and the agent
    checks each VIP as it decodes it, with the same checks in the same order; the
    maps hold what was seen, and where. *)
Record seen := { VIPIDs : gmap string nat; VIPTuples : gmap string nat; BackendIDs : gmap string (nat * nat) }.
Definition seenNothing : seen := {| VIPIDs := ∅; VIPTuples := ∅; BackendIDs := ∅ |}.

Definition vipTupleKey (vip : VIP) : string :=
  (match ParseIP (v_VIP vip) with Some vipIP => IPString vipIP | None => v_VIP vip end)
  +:+ "/" +:+ pretty (v_Port vip) +:+ "/" +:+ v_Protocol vip.

Section Conversion.
Context {CS : Codec (option HCConfig)}.

Definition at_ (i : nat) : string := pretty (Z.of_nat i).
Definition backendAt (i j : nat) : string := "backend at vip index " +:+ at_ i +:+ " backend index " +:+ at_ j.

Fixpoint backendIdentities (i j : nat) (vipID : string) (l : list Backend)
    (ids : gmap string (nat * nat)) (seenBackendIPs : gmap string nat) : err + gmap string (nat * nat) :=
  match l with
  | [] => inr ids
  | backend :: l =>
      _ ←! guard (ValidateResourceID (backendAt i j +:+ " id") (b_ID backend));
      _ ←! guard (ValidateResourceID (backendAt i j +:+ " vip_id") (b_VIPID backend));
      if bool_decide (b_VIPID backend ≠ vipID)
      then inl (ErrMsg (backendAt i j +:+ " vip_id " +:+ quoted (b_VIPID backend) +:+ " does not match vip id " +:+ quoted vipID))
      else
        match ids !! b_ID backend with
        | Some (i', j') =>
            inl (ErrMsg (backendAt i j +:+ " duplicates backend id " +:+ quoted (b_ID backend) +:+
                         " first seen at vip index " +:+ at_ i' +:+ " backend index " +:+ at_ j'))
        | None =>
            let ids := <[b_ID backend := (i, j)]> ids in
            match ParseIP (b_IP backend) with
            | None => backendIdentities i (S j) vipID l ids seenBackendIPs
            | Some backendIP =>
                let backendIPKey := IPString backendIP in
                match seenBackendIPs !! backendIPKey with
                | Some firstIndex =>
                    inl (ErrMsg (backendAt i j +:+ " duplicates backend ip " +:+ quoted backendIPKey +:+
                                 " first seen at backend index " +:+ at_ firstIndex))
                | None => backendIdentities i (S j) vipID l ids (<[backendIPKey := j]> seenBackendIPs)
                end
            end
        end
  end.

Definition healthCheckIdentity (i : nat) (vipID : string) (hc : option HealthCheck) : err + unit :=
  let healthCheckAt := "health check at vip index " +:+ at_ i in
  match hc with
  | None => inr tt
  | Some hc =>
      _ ←! (if bool_decide (h_ID hc ≠ "") then guard (ValidateResourceID (healthCheckAt +:+ " id") (h_ID hc)) else inr tt);
      _ ←! guard (ValidateResourceID (healthCheckAt +:+ " vip_id") (h_VIPID hc));
      if bool_decide (h_VIPID hc ≠ vipID)
      then inl (ErrMsg (healthCheckAt +:+ " vip_id " +:+ quoted (h_VIPID hc) +:+ " does not match vip id " +:+ quoted vipID))
      else inr tt
  end.
Definition vipIdentity (i : nat) (vipConfig : VIPConfig) (s : seen) : err + seen :=
  let vip := vc_VIP vipConfig in
  _ ←! guard (ValidateResourceID ("vip config at index " +:+ at_ i +:+ " id") (v_ID vip));
  match VIPIDs s !! v_ID vip with
  | Some firstIndex =>
      inl (ErrMsg ("vip config at index " +:+ at_ i +:+ " duplicates vip id " +:+ quoted (v_ID vip) +:+
                   " first seen at index " +:+ at_ firstIndex))
  | None =>
      let tupleKey := vipTupleKey vip in
      match VIPTuples s !! tupleKey with
      | Some firstIndex =>
          inl (ErrMsg ("vip config at index " +:+ at_ i +:+ " duplicates vip tuple " +:+ tupleKey +:+
                       " first seen at index " +:+ at_ firstIndex))
      | None =>
          _ ←! healthCheckIdentity i (v_ID vip) (vc_HealthCheck vipConfig);
          ids ←! backendIdentities i 0 (v_ID vip) (vc_Backends vipConfig) (BackendIDs s) ∅;
          inr {| VIPIDs := <[v_ID vip := i]> (VIPIDs s); VIPTuples := <[tupleKey := i]> (VIPTuples s); BackendIDs := ids |}
      end
  end.
Fixpoint vipIdentities (i : nat) (l : list VIPConfig) (s : seen) : err + seen :=
  match l with
  | [] => inr s
  | vipConfig :: l => s ←! vipIdentity i vipConfig s; vipIdentities (S i) l s
  end.
Definition validateConfigIdentity (config : option ConfigSnapshot) : error :=
  match config with
  | None => Some (ErrMsg "config is required")
  | Some config => match vipIdentities 0 (cs_VIPs config) seenNothing with inl e => Some e | inr _ => None end
  end.

(** ** The configuration as a message *)
Definition healthCheckInt32 (field : string) (value max : Z) : err + Z :=
  if ((value <? 1) || (max <? value))%Z
  then inl (ErrMsg ("health check " +:+ field +:+ " must be between 1 and " +:+ pretty max +:+ ", got " +:+ pretty value))
  else inr (wrapS 32 value).

Definition convertVIP (vip : VIP) : Pb.VIP :=
  {| Pb.Id := v_ID vip; Pb.Vip := v_VIP vip; Pb.Port := wrapS 32 (v_Port vip);
     Pb.Protocol := convertProtocol (v_Protocol vip); Pb.LbMethod := convertLBMethod (v_LBMethod vip);
     Pb.CreatedAt := Some (Pb.New (v_CreatedAt vip)); Pb.UpdatedAt := Some (Pb.New (v_UpdatedAt vip));
     Pb.EncapType := convertEncapType (v_EncapType vip); Pb.Dscp := wrapU 32 <$> v_DSCP vip |}.
Definition convertHealthCheck (vipIndex : nat) (hc : HealthCheck) : err + Pb.HealthCheck :=
  intervalSec ←! healthCheckInt32 "interval_sec" (h_IntervalSec hc) MaxHealthCheckSeconds;
  timeoutSec ←! healthCheckInt32 "timeout_sec" (h_TimeoutSec hc) MaxHealthCheckSeconds;
  riseCount ←! healthCheckInt32 "rise_count" (h_RiseCount hc) MaxHealthCheckCount;
  fallCount ←! healthCheckInt32 "fall_count" (h_FallCount hc) MaxHealthCheckCount;
  configJSON ←! match h_Config hc with
                | None => inr ""
                | Some c =>
                    match marshal (Some c) with
                    | inl e => inl (errorf ("health check config at vip index " +:+ at_ vipIndex +:+ " is invalid: ") e)
                    | inr s => inr s
                    end
                end;
  inr {| Pb.hc_Id := h_ID hc; Pb.hc_VipId := h_VIPID hc; Pb.hc_Type := convertHCType (h_Type hc);
         Pb.hc_IntervalSec := intervalSec; Pb.hc_TimeoutSec := timeoutSec;
         Pb.hc_RiseCount := riseCount; Pb.hc_FallCount := fallCount; Pb.hc_Config := configJSON;
         Pb.hc_CreatedAt := Some (Pb.New (h_CreatedAt hc)); Pb.hc_UpdatedAt := Some (Pb.New (h_UpdatedAt hc)) |}.
Definition convertBackend (backend : Backend) : Pb.Backend :=
  {| Pb.be_Id := b_ID backend; Pb.be_VipId := b_VIPID backend; Pb.be_Ip := b_IP backend;
     Pb.be_Weight := wrapS 32 (b_Weight backend);
     Pb.be_CreatedAt := Some (Pb.New (b_CreatedAt backend)); Pb.be_UpdatedAt := Some (Pb.New (b_UpdatedAt backend)) |}.
Definition convertVIPConfig (vipIndex : nat) (vipConfig : VIPConfig) : err + Pb.VIPConfig :=
  pbHealthCheck ←! match vc_HealthCheck vipConfig with
                   | None => inr None
                   | Some hc => hc ←! convertHealthCheck vipIndex hc; inr (Some hc)
                   end;
  inr {| Pb.vc_Vip := Some (convertVIP (vc_VIP vipConfig)); Pb.vc_HealthCheck := pbHealthCheck;
         Pb.vc_Backends := (Some ∘ convertBackend) <$> vc_Backends vipConfig |}.
Fixpoint convertVIPConfigs (vipIndex : nat) (l : list VIPConfig) : err + list (option Pb.VIPConfig) :=
  match l with
  | [] => inr []
  | vipConfig :: l =>
      pbVip ←! convertVIPConfig vipIndex vipConfig;
      pbVips ←! convertVIPConfigs (S vipIndex) l;
      inr (Some pbVip :: pbVips)
  end.
Definition convertConfigToProto (config : ConfigSnapshot) : err + Pb.ConfigSnapshot :=
  _ ←! guard (validateConfigIdentity (Some config));
  pbVips ←! convertVIPConfigs 0 (cs_VIPs config);
  inr {| Pb.cfg_Revision := cs_Revision config; Pb.cfg_Vips := pbVips |}.
End Conversion.

(** ** API keys (controller/auth, auth.go)

    [strings.Fields] over the bytes: each step consumes one, so the length is
    enough fuel. *)
Fixpoint fields (fuel : nat) (s word : list Z) : list (list Z) :=
  let done := match word with [] => [] | _ => [reverse word] end in
  match fuel, s with
  | _, [] | 0, _ => done
  | S fuel, c :: s' =>
      match Config.spaceRune s with
      | Some rest => done ++ fields fuel rest []
      | None => fields fuel s' (c :: word)
      end
  end.
Definition ExtractAPIKey (authorizationValues apiKeyValues : list string) : list Z :=
  match authorizationValues with
  | [authorization] =>
      let s := bytes_of authorization in
      match fields (length s) s [] with
      | [scheme; key] => if Text.equalFold scheme "Bearer" then key else []
      | _ => []
      end
  | _ :: _ => []
  | [] => match apiKeyValues with [key] => Text.trimSpace (bytes_of key) | _ => [] end
  end.

(** How far a handler that waits for events came. *)
Inductive outcome (A : Type) := Returned (a : A) | Waiting.
Arguments Returned {A}. Arguments Waiting {A}.

Section Handlers.
(** [sha256.Sum256] *)
Variable Sum256 : list Z → list Z.

Definition APIKeyMatches (got want : list Z) : bool :=
  if bool_decide (got = []) || bool_decide (want = []) then false
  else bool_decide (Sum256 got = Sum256 want).

(** What a call carries: the metadata, if any, and the peer; the certificates are
    there for a TLS connection. *)
Record Certificate := { DNSNames : list string; IPAddresses : list (list Z); URIs : list string }.
Record Metadata := { md_authorization : list string; md_xAPIKey : list string }.
Record CallContext := { metadata : option Metadata; peer : option (option (list (option Certificate))) }.

Definition extractIncomingAPIKey (ctx : CallContext) : list Z :=
  match metadata ctx with
  | None => []
  | Some md => ExtractAPIKey (md_authorization md) (md_xAPIKey md)
  end.
Definition authenticateIncomingContext (ctx : CallContext) (expectedKey : string) : option rpcErr :=
  if bool_decide (expectedKey = "") then None
  else if APIKeyMatches (extractIncomingAPIKey ctx) (bytes_of expectedKey) then None
  else Some (Status Unauthenticated "unauthenticated").
Definition apiKeyUnaryServerInterceptor {E A} (expectedKey : string) (ctx : CallContext) (handler : ST E (rpcErr + A)) : ST E (rpcErr + A) :=
  match authenticateIncomingContext ctx expectedKey with
  | Some e => mret (inl e)
  | None => handler
  end.
Definition apiKeyStreamServerInterceptor {E A} (expectedKey : string) (ctx : CallContext) (handler : ST E (rpcErr + A)) : ST E (rpcErr + A) :=
  match authenticateIncomingContext ctx expectedKey with
  | Some e => mret (inl e)
  | None => handler
  end.

(** [net.IP.String] of an address of a certificate: 4 or 16 bytes. *)
Definition certIPString (ip : list Z) : string := if (length ip =? 4)%nat then ip4String ip else IPString ip.
Definition certificateMatchesAgentID (cert : option Certificate) (agentID : string) : bool :=
  match cert with
  | None => false
  | Some cert =>
      bool_decide (agentID ∈ DNSNames cert) || bool_decide (agentID ∈ certIPString <$> IPAddresses cert) ||
      bool_decide (agentID ∈ URIs cert)
  end.
Definition authorizeAgentIDWithClientCert (ctx : CallContext) (agentID : string) : option rpcErr :=
  match peer ctx with
  | None | Some None => Some (Status Unauthenticated "client certificate is required")
  | Some (Some certs) =>
      if existsb (λ cert, certificateMatchesAgentID cert agentID) certs then None
      else Some (Status PermissionDenied "agent_id does not match client certificate identity")
  end.

(** ** The service *)
Inductive WatchEventType :=
  | EventTypeVIPCreated | EventTypeVIPUpdated | EventTypeVIPDeleted
  | EventTypeBackendAdded | EventTypeBackendUpdated | EventTypeBackendDeleted | EventTypeError.
#[global] Instance WatchEventType_eq_dec : EqDecision WatchEventType.
Proof. solve_decision. Defined.
Record WatchEvent := {
  we_Type : WatchEventType; we_Revision : Z; we_VIP : option VIP; we_Backend : option Backend; we_Error : error;
}.
Definition errorEvent (e : err) : WatchEvent :=
  {| we_Type := EventTypeError; we_Revision := 0; we_VIP := None; we_Backend := None; we_Error := Some e |}.
Class ConfigSyncStore (E : Type) := {
  GetRevision : ST E (err + Z);
  GetConfig : ST E (err + ConfigSnapshot);
  Watch : ST E (err + unit);
}.

Context {CS : Codec (option HCConfig)}.
Context {E : Type} `{!ConfigSyncStore E}.
Variable authorizeAgentIDWithClientCertOn : bool.

Definition validateAgentID (agentID : string) : option rpcErr :=
  match Config.ValidateAgentID "agent_id" agentID with
  | Some e => Some (Status InvalidArgument (errString e))
  | None => None
  end.
Definition authorizeAgentID (ctx : CallContext) (agentID : string) : option rpcErr :=
  if authorizeAgentIDWithClientCertOn then authorizeAgentIDWithClientCert ctx agentID else None.

(** The checks every handler starts with. *)
Definition admitted {A B} (ctx : CallContext) (req : option A) (agentID : A → string) (k : A → ST E (rpcErr + B)) : ST E (rpcErr + B) :=
  match req with
  | None => mret (inl (Status InvalidArgument "request is required"))
  | Some req =>
      match validateAgentID (agentID req) with
      | Some e => mret (inl e)
      | None =>
          match authorizeAgentID ctx (agentID req) with
          | Some e => mret (inl e)
          | None => k req
          end
      end
  end.
Definition internal (what : string) (e : err) : rpcErr := Status Internal (what +:+ errString e).

Definition handleGetConfig (ctx : CallContext) (req : option Pb.GetConfigRequest) : ST E (rpcErr + Pb.GetConfigResponse) :=
  admitted ctx req Pb.gcr_AgentId (λ req,
    revision ← GetRevision;
    match revision with
    | inl e => mret (inl (internal "failed to get revision: " e))
    | inr revision =>
        let unchanged r := (0 <? Pb.gcr_CurrentRevision req)%Z && (Pb.gcr_CurrentRevision req =? r)%Z in
        if unchanged revision then mret (inr {| Pb.gcs_Config := None; Pb.gcs_Unchanged := true |})
        else
          config ← GetConfig;
          match config with
          | inl e => mret (inl (internal "failed to get config: " e))
          | inr config =>
              if unchanged (cs_Revision config) then mret (inr {| Pb.gcs_Config := None; Pb.gcs_Unchanged := true |})
              else
                match convertConfigToProto config with
                | inl e => mret (inl (internal "failed to convert config: " e))
                | inr pbConfig => mret (inr {| Pb.gcs_Config := Some pbConfig; Pb.gcs_Unchanged := false |})
                end
          end
    end).

Definition RegisterAgent (ctx : CallContext) (req : option Pb.RegisterAgentRequest) : ST E (rpcErr + Pb.RegisterAgentResponse) :=
  admitted ctx req Pb.rar_AgentId (λ _,
    config ← GetConfig;
    match config with
    | inl _ => mret (inr {| Pb.ras_Success := false; Pb.ras_Message := "Failed to get configuration"; Pb.ras_Config := None |})
    | inr config =>
        match convertConfigToProto config with
        | inl _ => mret (inr {| Pb.ras_Success := false; Pb.ras_Message := "Failed to convert configuration"; Pb.ras_Config := None |})
        | inr pbConfig =>
            mret (inr {| Pb.ras_Success := true; Pb.ras_Message := "Agent registered successfully"; Pb.ras_Config := Some pbConfig |})
        end
    end).

Definition Heartbeat (ctx : CallContext) (req : option Pb.HeartbeatRequest) : ST E (rpcErr + Pb.HeartbeatResponse) :=
  admitted ctx req Pb.hbr_AgentId (λ req,
    revision ← GetRevision;
    match revision with
    | inl e => mret (inl (internal "failed to get revision: " e))
    | inr revision =>
        mret (inr {| Pb.hbs_Success := true; Pb.hbs_NewRevision := revision;
                     Pb.hbs_ResyncRequired := negb (Pb.hbr_CurrentRevision req =? revision)%Z |})
    end).

(** *** The watch

    What a [select] chose, in order; with nothing left, the handler is waiting. *)
Inductive selected := StreamDone | Event (event : WatchEvent) | EventsClosed | TimerFired.
Context (Send : Pb.WatchConfigResponse → ST E error).

Definition validateWatchEvent (event : WatchEvent) : option rpcErr :=
  if bool_decide (we_Type event ≠ EventTypeError) then None
  else
    match we_Error event with
    | None => Some (Status Internal "datastore watch error")
    | Some e => Some (internal "datastore watch error: " e)
    end.
(** The result [(closed, err)] and the choices left. *)
Fixpoint coalesceWatchEvents (l : list selected) : outcome (bool * option rpcErr) * list selected :=
  match l with
  | [] => (Waiting, [])
  | StreamDone :: l => (Returned (true, None), l)
  | EventsClosed :: l => (Returned (false, None), l)
  | Event event :: l =>
      match validateWatchEvent event with
      | Some e => (Returned (false, Some e), l)
      | None => coalesceWatchEvents l
      end
  | TimerFired :: l => (Returned (false, None), l)
  end.
(** Reading and sending: [Some] is an error that ends the stream. *)
Definition sendUpdate : ST E (option rpcErr) :=
  config ← GetConfig;
  match config with
  | inl _ => mret None
  | inr config =>
      match convertConfigToProto config with
      | inl _ => mret None
      | inr pbConfig =>
          e ← Send {| Pb.wcs_Config := Some pbConfig; Pb.wcs_Error := "" |};
          mret (StreamErr <$> e)
      end
  end.
(** One round per choice of the outer [select]: the choices bound them.  The timer
    exists inside [coalesceWatchEvents] only. *)
Fixpoint watchLoop (fuel : nat) (l : list selected) : ST E (outcome (option rpcErr)) :=
  match fuel, l with
  | _, [] | 0, _ => mret Waiting
  | S _, (StreamDone | EventsClosed) :: _ => mret (Returned None)
  | S fuel, TimerFired :: l => watchLoop fuel l
  | S fuel, Event event :: l =>
      match validateWatchEvent event with
      | Some e => mret (Returned (Some e))
      | None =>
          match coalesceWatchEvents l with
          | (Waiting, _) => mret Waiting
          | (Returned (_, Some e), _) => mret (Returned (Some e))
          | (Returned (true, None), _) => mret (Returned None)
          | (Returned (false, None), l) =>
              e ← sendUpdate;
              match e with
              | Some e => mret (Returned (Some e))
              | None => watchLoop fuel l
              end
          end
      end
  end.
Definition WatchConfig (ctx : CallContext) (req : option Pb.WatchConfigRequest) (l : list selected)
    : ST E (rpcErr + outcome (option rpcErr)) :=
  admitted ctx req Pb.wcr_AgentId (λ req,
    watching ← Watch;
    match watching with
    | inl e => mret (inl (internal "failed to start watch: " e))
    | inr _ =>
        config ← GetConfig;
        match config with
        | inl e => mret (inl (internal "failed to get config: " e))
        | inr config =>
            if (cs_Revision config =? Pb.wcr_CurrentRevision req)%Z
            then r ← watchLoop (length l) l; mret (inr r)
            else
              match convertConfigToProto config with
              | inl e => mret (inl (internal "failed to convert config: " e))
              | inr pbConfig =>
                  e ← Send {| Pb.wcs_Config := Some pbConfig; Pb.wcs_Error := "" |};
                  match e with
                  | Some e => mret (inl (StreamErr e))
                  | None => r ← watchLoop (length l) l; mret (inr r)
                  end
              end
        end
    end).
End Handlers.

(** ** The server (server.go): which interceptors and credentials it starts with *)
Section Server.
Import ControllerConfig.
Variable Sum256 : list Z → list Z.
(** [tls.LoadX509KeyPair], [os.ReadFile] and [AppendCertsFromPEM]. *)
Variable LoadX509KeyPair : string → string → error.
Variable readFile : string → err + string.
Variable AppendCertsFromPEM : string → bool.

Inductive ClientAuth := NoClientCert | VerifyClientCertIfGiven | RequireAndVerifyClientCert.
Record ServerOptions := { so_APIKey : option string; so_TLS : option ClientAuth }.

Definition serverTLSConfig (g : GRPCConfig) : err + ClientAuth :=
  match LoadX509KeyPair (g_CertFile g) (g_KeyFile g) with
  | Some e => inl (errorf "failed to load server certificate: " e)
  | None =>
      if g_RequireClientCert g && bool_decide (g_ClientCAFile g = "")
      then inl (ErrMsg "grpc.client_ca_file is required when grpc.require_client_cert is enabled")
      else if bool_decide (g_ClientCAFile g ≠ "") then
        match readFile (g_ClientCAFile g) with
        | inl e => inl (errorf "failed to read client CA file: " e)
        | inr caData =>
            if AppendCertsFromPEM caData
            then inr (if g_RequireClientCert g then RequireAndVerifyClientCert else VerifyClientCertIfGiven)
            else inl (ErrMsg "failed to parse client CA file")
        end
      else inr NoClientCert
  end.
Definition grpcServerOptions (g : GRPCConfig) : err + ServerOptions :=
  if Text.isSet (g_APIKey g) && negb (g_TLS g) then inl (ErrMsg "grpc.tls must be enabled when grpc.api_key is set")
  else
    let key := if Text.isSet (g_APIKey g) then Some (g_APIKey g) else None in
    if negb (g_TLS g) then inr {| so_APIKey := key; so_TLS := None |}
    else
      match serverTLSConfig g with
      | inl e => inl (errorf "failed to load gRPC TLS config: " e)
      | inr auth => inr {| so_APIKey := key; so_TLS := Some auth |}
      end.
(** A call as the server runs it: through the interceptor, if there is one. *)
Definition serveUnary {E A} (o : ServerOptions) (ctx : CallContext) (handler : ST E (rpcErr + A)) : ST E (rpcErr + A) :=
  match so_APIKey o with Some key => apiKeyUnaryServerInterceptor Sum256 key ctx handler | None => handler end.
Definition serveStream {E A} (o : ServerOptions) (ctx : CallContext) (handler : ST E (rpcErr + A)) : ST E (rpcErr + A) :=
  match so_APIKey o with Some key => apiKeyStreamServerInterceptor Sum256 key ctx handler | None => handler end.
End Server.
End SyncService.
