(* ===== verification/SyncClient.v ===== *)
(** * The version 1 agent's side of the synchronisation (internal/agent/grpc)

    Decoding and checking a configuration message, and the client that registers,
    watches, sends heartbeats and fetches.  The controller as it is reached over the
    connection, the handler that is given the configurations and the waits are the
    class [Peer]. *)

From Stdlib Require Import SpecFloat.
From stdpp Require Import base tactics list gmap strings pretty.
From S2P Require Import Prelude Types Net Store Validation Duration Config Models V1Config ControllerConfig Sync.

Module SyncClient.
Import Models Validation SyncService.

(** ** Enums *)
Definition convertProtoProtocol (protocol : Z) : string :=
  if (protocol =? Pb.PROTOCOL_TCP)%Z then ProtocolTCP
  else if (protocol =? Pb.PROTOCOL_UDP)%Z then ProtocolUDP
  else "".
Definition convertProtoLBMethod (method : Z) : string :=
  if (method =? Pb.LB_METHOD_UNSPECIFIED)%Z || (method =? Pb.LB_METHOD_MAGLEV)%Z then LBMethodMaglev else "invalid".
Definition convertProtoEncapType (encapType : Z) : string :=
  if (encapType =? Pb.ENCAP_TYPE_GRE4)%Z then EncapTypeGRE4
  else if (encapType =? Pb.ENCAP_TYPE_GRE6)%Z then EncapTypeGRE6
  else if (encapType =? Pb.ENCAP_TYPE_L3DSR)%Z then EncapTypeL3DSR
  else if (encapType =? Pb.ENCAP_TYPE_NAT4)%Z then EncapTypeNAT4
  else if (encapType =? Pb.ENCAP_TYPE_NAT6)%Z then EncapTypeNAT6
  else if (encapType =? Pb.ENCAP_TYPE_UNSPECIFIED)%Z then ""
  else "invalid".
Definition convertProtoHCType (hcType : Z) : string :=
  if (hcType =? Pb.HC_TYPE_HTTP)%Z then HCTypeHTTP
  else if (hcType =? Pb.HC_TYPE_HTTPS)%Z then HCTypeHTTPS
  else if (hcType =? Pb.HC_TYPE_TCP)%Z then HCTypeTCP
  else if (hcType =? Pb.HC_TYPE_PING)%Z then HCTypePing
  else if (hcType =? Pb.HC_TYPE_TLS_HELLO)%Z then HCTypeTLSHello
  else "".

(** ** Decoding *)
Definition vipAt (i : nat) : string := "vip config at index " +:+ at_ i.
Definition convertProtoDSCP (vipIndex : nat) (encapType : string) (dscp : option Z) : err + option Z :=
  match dscp with
  | None => inr None
  | Some value =>
      if (63 <? value)%Z then inl (ErrMsg (vipAt vipIndex +:+ " dscp must be between 0 and 63, got " +:+ pretty value))
      else if bool_decide (EffectiveEncapType encapType = EncapTypeL3DSR) && (value =? 0)%Z
      then inl (ErrMsg (vipAt vipIndex +:+ " dscp must be 1-63 when encap_type is L3DSR"))
      else inr (Some (wrapU 8 value))
  end.

Definition validateVIPAddressFamily (vipIndex : nat) (vipIP : list Z) (encapType : string) : error :=
  let isIPv4 := bool_decide (is_Some (To4 vipIP)) in
  if EncapRequiresIPv4VIP encapType then
    if isIPv4 then None else Some (ErrMsg (vipAt vipIndex +:+ " encap_type " +:+ encapType +:+ " requires an IPv4 vip"))
  else if EncapRequiresIPv6VIP encapType then
    if isIPv4 then Some (ErrMsg (vipAt vipIndex +:+ " encap_type NAT6 requires an IPv6 vip")) else None
  else None.
Definition validateBackendAddressFamily (vipIndex backendIndex : nat) (address : string) (backendIP : list Z) (encapType : string) : error :=
  let isIPv4 := bool_decide (is_Some (To4 backendIP)) in
  if EncapRequiresIPv4Backend encapType then
    if isIPv4 then None
    else Some (ErrMsg (backendAt vipIndex backendIndex +:+ " ip " +:+ quoted address +:+ " must be IPv4 for encap_type " +:+ encapType))
  else if EncapRequiresIPv6Backend encapType then
    if isIPv4
    then Some (ErrMsg (backendAt vipIndex backendIndex +:+ " ip " +:+ quoted address +:+ " must be IPv6 for encap_type " +:+ encapType))
    else None
  else None.

Fixpoint backendsDataPlane (vipIndex backendIndex : nat) (encapType : string) (l : list Backend) : error :=
  match l with
  | [] => None
  | backend :: l =>
      match ParseIP (b_IP backend) with
      | None => Some (ErrMsg (backendAt vipIndex backendIndex +:+ " ip " +:+ quoted (b_IP backend) +:+ " is not a valid IP address"))
      | Some backendIP =>
          match validateBackendAddressFamily vipIndex backendIndex (b_IP backend) backendIP encapType with
          | Some e => Some e
          | None =>
              if ((b_Weight backend <? 1) || (100 <? b_Weight backend))%Z
              then Some (ErrMsg (backendAt vipIndex backendIndex +:+ " weight must be between 1 and 100, got " +:+ pretty (b_Weight backend)))
              else backendsDataPlane vipIndex (S backendIndex) encapType l
          end
      end
  end.
Definition validateVIPConfigDataPlane (vipIndex : nat) (vipConfig : VIPConfig) : error :=
  let vip := vc_VIP vipConfig in
  match ParseIP (v_VIP vip) with
  | None => Some (ErrMsg (vipAt vipIndex +:+ " vip " +:+ quoted (v_VIP vip) +:+ " is not a valid IP address"))
  | Some vipIP =>
      let encapType := EffectiveEncapType (v_EncapType vip) in
      firstError id
        [if ((v_Port vip <? 1) || (65535 <? v_Port vip))%Z
         then Some (ErrMsg (vipAt vipIndex +:+ " port must be between 1 and 65535, got " +:+ pretty (v_Port vip))) else None;
         if bool_decide (v_Protocol vip ∈ [ProtocolTCP; ProtocolUDP]) then None
         else Some (ErrMsg (vipAt vipIndex +:+ " protocol must be TCP or UDP"));
         if bool_decide (v_LBMethod vip = LBMethodMaglev) then None else Some (ErrMsg (vipAt vipIndex +:+ " lb_method must be maglev"));
         if bool_decide (v_EncapType vip ≠ "") && negb (IsValidEncapType (v_EncapType vip))
         then Some (ErrMsg (vipAt vipIndex +:+ " encap_type " +:+ quoted (v_EncapType vip) +:+ " is not valid")) else None;
         validateVIPAddressFamily vipIndex vipIP encapType;
         backendsDataPlane vipIndex 0 encapType (vc_Backends vipConfig)]
  end.
(** The checks of identities are the controller's, a VIP at a time. *)
Definition validateVIPConfigIdentity (vipIndex : nat) (vipConfig : VIPConfig) (s : seen) : err + seen :=
  vipIdentity vipIndex vipConfig s.

Section Decoding.
Context {CS : Codec (option HCConfig)} {G : HttpGuts}.
Variable outOfRange : spec_float → Z.

Definition timeOf (t : option Pb.Timestamp) : option Z := t ≫= Pb.AsTime.
Definition convertProtoHealthCheck (i : nat) (hc : Pb.HealthCheck) : err + HealthCheck :=
  let invalidConfig e := errorf ("health check config at vip index " +:+ at_ i +:+ " is invalid: ") e in
  let t := convertProtoHCType (Pb.hc_Type hc) in
  config ←! (if bool_decide (Pb.hc_Config hc = "") then inr None
             else match unmarshal (Pb.hc_Config hc) with
                  | inl e => inl (invalidConfig e)
                  | inr None => inl (ErrMsg ("health check config at vip index " +:+ at_ i +:+ " must be a JSON object"))
                  | inr (Some c) => inr (Some c)
                  end);
  let healthCheck :=
    {| h_ID := Pb.hc_Id hc; h_VIPID := Pb.hc_VipId hc; h_Type := t;
       h_IntervalSec := Pb.hc_IntervalSec hc; h_TimeoutSec := Pb.hc_TimeoutSec hc;
       h_RiseCount := Pb.hc_RiseCount hc; h_FallCount := Pb.hc_FallCount hc; h_Config := config;
       h_CreatedAt := timeOf (Pb.hc_CreatedAt hc); h_UpdatedAt := timeOf (Pb.hc_UpdatedAt hc) |} in
  _ ←! match ValidateHealthCheckConfig outOfRange t config with Some e => inl (invalidConfig e) | None => inr tt end;
  _ ←! match ValidateHealthCheckTiming healthCheck with
       | Some e => inl (errorf ("health check at vip index " +:+ at_ i +:+ " is invalid: ") e)
       | None => inr tt
       end;
  inr healthCheck.
Fixpoint convertProtoBackends (i j : nat) (l : list (option Pb.Backend)) : err + list Backend :=
  match l with
  | [] => inr []
  | None :: _ => inl (ErrMsg (backendAt i j +:+ " is required"))
  | Some b :: l =>
      backends ←! convertProtoBackends i (S j) l;
      inr ({| b_ID := Pb.be_Id b; b_VIPID := Pb.be_VipId b; b_IP := Pb.be_Ip b; b_Weight := Pb.be_Weight b;
              b_CreatedAt := timeOf (Pb.be_CreatedAt b); b_UpdatedAt := timeOf (Pb.be_UpdatedAt b) |} :: backends)
  end.
Definition convertProtoVIPConfig (i : nat) (c : option Pb.VIPConfig) (s : seen) : err + (VIPConfig * seen) :=
  match c with
  | None => inl (ErrMsg (vipAt i +:+ " is required"))
  | Some c =>
      match Pb.vc_Vip c with
      | None => inl (ErrMsg (vipAt i +:+ " is missing vip"))
      | Some vip =>
          let encapType := convertProtoEncapType (Pb.EncapType vip) in
          dscp ←! convertProtoDSCP i encapType (Pb.Dscp vip);
          healthCheck ←! match Pb.vc_HealthCheck c with
                         | None => inr None
                         | Some hc => hc ←! convertProtoHealthCheck i hc; inr (Some hc)
                         end;
          backends ←! convertProtoBackends i 0 (Pb.vc_Backends c);
          let vipConfig :=
            {| vc_VIP :=
                 {| v_ID := Pb.Id vip; v_VIP := Pb.Vip vip; v_Port := Pb.Port vip;
                    v_Protocol := convertProtoProtocol (Pb.Protocol vip); v_LBMethod := convertProtoLBMethod (Pb.LbMethod vip);
                    v_EncapType := encapType; v_DSCP := dscp;
                    v_CreatedAt := timeOf (Pb.CreatedAt vip); v_UpdatedAt := timeOf (Pb.UpdatedAt vip);
                    v_HealthCheck := None; v_Backends := [] |};
               vc_HealthCheck := healthCheck; vc_Backends := backends |} in
          _ ←! guard (validateVIPConfigDataPlane i vipConfig);
          s ←! validateVIPConfigIdentity i vipConfig s;
          inr (vipConfig, s)
      end
  end.
Fixpoint convertProtoVIPConfigs (i : nat) (l : list (option Pb.VIPConfig)) (s : seen) : err + list VIPConfig :=
  match l with
  | [] => inr []
  | c :: l =>
      r ←! convertProtoVIPConfig i c s;
      vips ←! convertProtoVIPConfigs (S i) l r.2;
      inr (r.1 :: vips)
  end.
Definition convertProtoToConfig (pbConfig : option Pb.ConfigSnapshot) : err + ConfigSnapshot :=
  match pbConfig with
  | None => inl (ErrMsg "config snapshot is required")
  | Some pbConfig =>
      vips ←! convertProtoVIPConfigs 0 (Pb.cfg_Vips pbConfig) seenNothing;
      inr {| cs_Revision := Pb.cfg_Revision pbConfig; cs_VIPs := vips |}
  end.
End Decoding.

(** ** The client *)
Record Client := {
  currentRevision : Z;
  connected : bool;
  hasConn : bool;       (* [conn] and [client], set and cleared together *)
  started : bool;
  cancelled : bool;     (* the context made by [Start] *)
  stopClosed : bool;    (* [stopCh] *)
  doneClosed : bool;    (* [doneCh] *)
  loops : bool;         (* the watch and heartbeat goroutines were started *)
}.
Definition NewClient : Client :=
  {| currentRevision := 0; connected := false; hasConn := false; started := false; cancelled := false;
     stopClosed := false; doneClosed := false; loops := false |}.

(** The states of a connection, and what a receive on a stream gave. *)
Inductive connState := Idle | Connecting | Ready | TransientFailure | Shutdown.
#[global] Instance connState_eq_dec : EqDecision connState.
Proof. solve_decision. Defined.
Inductive received := EOF | RecvErr (e : err) | Recv (resp : option Pb.WatchConfigResponse).

(** [client.RegisterAgent] and the other calls; [grpc.NewClient] with the states its
    connection goes through before the deadline; the handler; a sleep, [false] if it
    was cut short; and what [c.ctx.Err()] says. *)
Class Peer (E : Type) := {
  rpcRegisterAgent : Pb.RegisterAgentRequest → ST E (err + option Pb.RegisterAgentResponse);
  rpcHeartbeat : Pb.HeartbeatRequest → ST E (err + option Pb.HeartbeatResponse);
  rpcGetConfig : Pb.GetConfigRequest → ST E (err + option Pb.GetConfigResponse);
  rpcWatchConfig : Pb.WatchConfigRequest → ST E error;
  dial : string → ST E (err + list connState);
  configHandler : option (ConfigSnapshot → ST E error);
  sleep : Z → ST E bool;
  ctxErr : ST E error;
}.

Section Client.
Context {CS : Codec (option HCConfig)} {G : HttpGuts}.
Variable outOfRange : spec_float → Z.
Context {E : Type} `{!Peer E}.
Variable config : AgentConfig.Config.
Definition World : Type := Client * E.
#[local] Abbreviation M := (ST World).

Definition client : M Client := on_fst get.
Definition update (f : Client → Client) : M unit := on_fst (modify f).
Definition setCurrentRevision (revision : Z) : M unit :=
  update (λ c, {| currentRevision := revision; connected := connected c; hasConn := hasConn c; started := started c;
                  cancelled := cancelled c; stopClosed := stopClosed c; doneClosed := doneClosed c; loops := loops c |}).
Definition setConn (conn : bool) : M unit :=
  update (λ c, {| currentRevision := currentRevision c; connected := conn; hasConn := conn; started := started c;
                  cancelled := cancelled c; stopClosed := stopClosed c; doneClosed := doneClosed c; loops := loops c |}).
(** The flags of the life cycle. *)
Definition setLife (start cancel stop done run : bool) : M unit :=
  update (λ c, {| currentRevision := currentRevision c; connected := connected c; hasConn := hasConn c; started := start;
                  cancelled := cancel; stopClosed := stop; doneClosed := done; loops := run |}).

Definition applyConfig (config : option ConfigSnapshot) : M error :=
  match config with
  | None => mret (Some (ErrMsg "config is required"))
  | Some config =>
      e ← match configHandler with None => mret None | Some handler => on_snd (handler config) end;
      match e with
      | Some e => mret (Some e)
      | None => _ ← setCurrentRevision (cs_Revision config); mret None
      end
  end.

(** Decode and apply, with the messages of the caller. *)
Definition receiveConfig (convertFailed applyFailed : string) (pbConfig : Pb.ConfigSnapshot) : M error :=
  match convertProtoToConfig outOfRange (Some pbConfig) with
  | inl e => mret (Some (errorf convertFailed e))
  | inr config => e ← applyConfig (Some config); mret (errorf applyFailed <$> e)
  end.

Definition register : M error :=
  c ← client;
  if negb (hasConn c) then mret (Some (ErrMsg "not connected"))
  else
    resp ← on_snd (rpcRegisterAgent {| Pb.rar_AgentId := AgentConfig.ID (AgentConfig.Agent config);
                                       Pb.rar_Version := AgentConfig.Version (AgentConfig.Agent config);
                                       Pb.rar_Metadata := AgentConfig.Metadata (AgentConfig.Agent config) |});
    match resp with
    | inl e => mret (Some (errorf "registration failed: " e))
    | inr None => mret (Some (ErrMsg "registration returned nil response"))
    | inr (Some resp) =>
        if negb (Pb.ras_Success resp) then mret (Some (ErrMsg ("registration rejected: " +:+ Pb.ras_Message resp)))
        else
          match Pb.ras_Config resp with
          | None => mret None
          | Some pbConfig =>
              receiveConfig "failed to convert initial configuration: " "failed to apply initial configuration: " pbConfig
          end
    end.

Definition fetchConfig : M error :=
  c ← client;
  if negb (connected c) || negb (hasConn c) then mret (Some (ErrMsg "not connected"))
  else
    resp ← on_snd (rpcGetConfig {| Pb.gcr_CurrentRevision := currentRevision c;
                                   Pb.gcr_AgentId := AgentConfig.ID (AgentConfig.Agent config) |});
    match resp with
    | inl e => mret (Some (errorf "failed to get config: " e))
    | inr None => mret (Some (ErrMsg "get config returned nil response"))
    | inr (Some resp) =>
        if Pb.gcs_Unchanged resp then mret None
        else
          match Pb.gcs_Config resp with
          | None => mret None
          | Some pbConfig => receiveConfig "failed to convert config: " "failed to apply config: " pbConfig
          end
    end.

Definition sendHeartbeat : M error :=
  c ← client;
  if negb (connected c) || negb (hasConn c) then mret (Some (ErrMsg "not connected"))
  else
    resp ← on_snd (rpcHeartbeat {| Pb.hbr_AgentId := AgentConfig.ID (AgentConfig.Agent config);
                                   Pb.hbr_CurrentRevision := currentRevision c |});
    match resp with
    | inl e => mret (Some (errorf "heartbeat failed: " e))
    | inr None => mret (Some (ErrMsg "heartbeat returned nil response"))
    | inr (Some resp) =>
        if negb (Pb.hbs_Success resp) then mret (Some (ErrMsg "heartbeat rejected"))
        else if Pb.hbs_ResyncRequired resp then _ ← fetchConfig; mret None
        else mret None
    end.
(** What each round of a loop waited for. *)
Inductive tick := Tick | Stopping.
Fixpoint heartbeatLoop (l : list tick) : M unit :=
  match l with
  | [] | Stopping :: _ => mret tt
  | Tick :: l => _ ← sendHeartbeat; heartbeatLoop l
  end.

(** *** The watch stream: what each round of its [select] chose *)
Inductive watchStep := StopSeen | CtxDone (e : err) | Received (r : received).
Fixpoint watchStream (l : list watchStep) : M (outcome error) :=
  match l with
  | [] => mret Waiting
  | StopSeen :: _ => mret (Returned None)
  | CtxDone e :: _ => mret (Returned (Some e))
  | Received EOF :: _ => mret (Returned (Some (errorf "watch stream closed by server: " (ErrMsg "EOF"))))
  | Received (RecvErr e) :: _ => mret (Returned (Some (errorf "watch stream error: " e)))
  | Received (Recv None) :: _ => mret (Returned (Some (ErrMsg "watch stream returned nil response")))
  | Received (Recv (Some resp)) :: l =>
      e ← match Pb.wcs_Config resp with
          | None => mret None
          | Some pbConfig => receiveConfig "failed to convert configuration: " "failed to apply configuration: " pbConfig
          end;
      match e with
      | Some e => mret (Returned (Some e))
      | None => watchStream l
      end
  end.
Definition watch (l : list watchStep) : M (outcome error) :=
  c ← client;
  if negb (connected c) then mret (Returned (Some (ErrMsg "not connected to controller")))
  else if negb (hasConn c) then mret (Returned (Some (ErrMsg "not connected")))
  else
    e ← on_snd (rpcWatchConfig {| Pb.wcr_AgentId := AgentConfig.ID (AgentConfig.Agent config);
                                  Pb.wcr_CurrentRevision := currentRevision c |});
    match e with
    | Some e => mret (Returned (Some (errorf "failed to start watch: " e)))
    | None => watchStream l
    end.

(** *** Connecting *)
Definition sleepWithStop (d : Z) : M bool := if (d <=? 0)%Z then mret true else on_snd (sleep d).
Definition grpcClientTarget (address : string) : string :=
  if containsRune (hasPrefix (bytes_of "://")) (bytes_of address) then address else "passthrough:///" +:+ address.
(** [waitForReady]: the states seen until the deadline, which ends the last wait. *)
Fixpoint waitForReady (states : list connState) : error :=
  match states with
  | [] => Some (ErrContext "context deadline exceeded")
  | Ready :: _ => None
  | Shutdown :: _ => Some (ErrMsg "connection shut down before becoming ready")
  | _ :: states => waitForReady states
  end.
(** [backoff *= 2], at most the maximum. *)
Definition nextBackoff (backoff : Z) : Z :=
  let backoff := wrapS 64 (backoff * 2) in
  let most := AgentConfig.MaxRetryBackoff (AgentConfig.Controller config) in
  if (most <? backoff)%Z then most else backoff.
Fixpoint attempts (tries : nat) (backoff : Z) : M error :=
  match tries with
  | 0 => mret (Some (ErrMsg ("failed to connect after " +:+ pretty (AgentConfig.MaxRetries (AgentConfig.Controller config)) +:+ " attempts")))
  | S tries =>
      conn ← on_snd (dial (grpcClientTarget (AgentConfig.Address (AgentConfig.Controller config))));
      match (match conn with inl e => Some e | inr states => waitForReady states end) with
      | None => _ ← setConn true; mret None
      | Some _ =>
          if (tries =? 0)%nat then attempts tries backoff
          else
            slept ← sleepWithStop backoff;
            if negb slept then
              e ← on_snd ctxErr;
              mret (Some (match e with None => ErrMsg "connection cancelled during retry"
                                     | Some e => errorf "connection cancelled: " e end))
            else attempts tries (nextBackoff backoff)
      end
  end.

(** [loadTLSConfig]: the files as the system reads them. *)
Record TLSClientConfig := { InsecureSkipVerify : bool; ClientCertificate : bool }.
Variable readFile : string → err + string.
Variable AppendCertsFromPEM : string → bool.
Variable LoadX509KeyPair : string → string → error.
Definition loadTLSConfig (t : AgentConfig.TLSConfig) : err + TLSClientConfig :=
  match readFile (AgentConfig.tls_CAFile t) with
  | inl e => inl (errorf "failed to read CA cert: " e)
  | inr caData =>
      if negb (AppendCertsFromPEM caData) then inl (ErrMsg "failed to parse CA cert")
      else
        let cert := AgentConfig.tls_CertFile t in let key := AgentConfig.tls_KeyFile t in
        if Text.isSet cert || Text.isSet key then
          if negb (Text.isSet cert) || negb (Text.isSet key)
          then inl (ErrMsg "tls.cert_file and tls.key_file must both be set when client certificate is configured")
          else
            match LoadX509KeyPair cert key with
            | Some e => inl (errorf "failed to load client cert: " e)
            | None => inr {| InsecureSkipVerify := AgentConfig.tls_InsecureSkipVerify t; ClientCertificate := true |}
            end
        else inr {| InsecureSkipVerify := AgentConfig.tls_InsecureSkipVerify t; ClientCertificate := false |}
  end.
(** What a connection is made with: the credentials, [None] for plain text, and the
    authorization its calls carry (auth.go). *)
Record DialOptions := { do_TLS : option TLSClientConfig; do_Authorization : option string }.
Definition outgoingAPIKey (apiKey : string) : option string := if Text.isSet apiKey then Some ("Bearer " +:+ apiKey) else None.
Definition dialOptions : err + DialOptions :=
  let c := AgentConfig.Controller config in let t := AgentConfig.TLS c in
  if Text.isSet (AgentConfig.APIKey c) && negb (AgentConfig.tls_Enabled t)
  then inl (ErrMsg "controller.tls.enabled must be enabled when controller.api_key is set")
  else if Text.isSet (AgentConfig.APIKey c) && AgentConfig.tls_InsecureSkipVerify t
  then inl (ErrMsg "controller.tls.insecure_skip_verify must be false when controller.api_key is set")
  else if AgentConfig.tls_Enabled t then
    match loadTLSConfig t with
    | inl e => inl (errorf "failed to load TLS config: " e)
    | inr tls => inr {| do_TLS := Some tls; do_Authorization := outgoingAPIKey (AgentConfig.APIKey c) |}
    end
  else inr {| do_TLS := None; do_Authorization := outgoingAPIKey (AgentConfig.APIKey c) |}.
Definition connect : M error :=
  match dialOptions with
  | inl e => mret (Some e)
  | inr _ =>
      attempts (Z.to_nat (AgentConfig.MaxRetries (AgentConfig.Controller config)))
        (AgentConfig.RetryBackoff (AgentConfig.Controller config))
  end.
Definition reconnect : M error := _ ← setConn false; connect.

(** A round of [watchLoop]: what its [select] chose, the stream, and after a failed
    watch whether the context is done and [stopCh] closed. *)
Record round := { ends : bool; stream : list watchStep; ctxDone : bool; stopSeen : bool }.
Fixpoint watchRounds (l : list round) : M unit :=
  match l with
  | [] => mret tt
  | r :: l =>
      if ends r then mret tt
      else
        result ← watch (stream r);
        match result with
        | Waiting => mret tt
        | Returned None => watchRounds l
        | Returned (Some _) =>
            if ctxDone r || stopSeen r then mret tt
            else
              _ ← reconnect;
              slept ← sleepWithStop (AgentConfig.RetryBackoff (AgentConfig.Controller config));
              if slept : bool then watchRounds l else mret tt
        end
  end.
(** [defer close(c.doneCh)] *)
Definition watchLoop (l : list round) : M unit :=
  _ ← watchRounds l;
  c ← client;
  setLife (started c) (cancelled c) (stopClosed c) true (loops c).

(** *** Life cycle *)
Definition cleanupFailedStart : M unit :=
  _ ← setConn false;
  c ← client;
  setLife false true (stopClosed c) true (loops c).
Definition Start : M error :=
  c ← client;
  if started c then mret (Some (ErrMsg "client already started"))
  else
    _ ← setLife true false false false (loops c);
    e ← connect;
    match e with
    | Some e => _ ← cleanupFailedStart; mret (Some (errorf "failed to connect to controller: " e))
    | None =>
        e ← register;
        match e with
        | Some e => _ ← cleanupFailedStart; mret (Some (errorf "failed to register agent: " e))
        | None => _ ← setLife true false false false true; mret None
        end
    end.
(** [Stop], once the goroutines have ended: the cancelled context ends them, and
    [doneCh] is closed by the watch loop. *)
Definition Stop : M unit :=
  c ← client;
  if negb (started c) then mret tt
  else if stopClosed c then setLife (started c) true true (doneClosed c) (loops c)
  else
    _ ← setConn false;
    setLife false true true true false.
End Client.
End SyncClient.
