(* ===== verification/SyncSafety.v ===== *)
(** * The synchronisation of the version 1 programs, proved
    (internal/controller/grpc, internal/agent/grpc, the two configurations)

    Identities are unique exactly when the checks pass; a configuration of what the
    store's checks admit reaches the agent unchanged; a heartbeat brings an agent
    up to date; a call on an open address is authenticated. *)

From Stdlib Require Import SpecFloat.
From stdpp Require Import base tactics list gmap strings pretty.
From S2P Require Import Prelude Types Net Store Yaml Validation Duration Config Models V1Config ControllerConfig Sync SyncClient.

Module SyncSafety.
Import Models Validation SyncService SyncClient.

(** ** Identities *)
Definition validID (value : string) : Prop := ValidateResourceID "" value = None.
Lemma validID_field field value : ValidateResourceID field value = None ↔ validID value.
Proof. unfold validID, ValidateResourceID, invalid. by repeat case_match. Qed.
Lemma guard_ok {X} (e : option X) u : guard e = inr u ↔ e = None.
Proof. destruct e, u; naive_solver. Qed.
Lemma tryE_ok {X A B} (r : X + A) (k : A → X + B) b : tryE r k = inr b ↔ ∃ a, r = inr a ∧ k a = inr b.
Proof. destruct r; naive_solver. Qed.

Definition ipKey (b : Backend) : option string := IPString <$> ParseIP (b_IP b).
(** What names a backend, within its VIP and everywhere. *)
Definition backendNamed (vipID : string) (b : Backend) : Prop := validID (b_ID b) ∧ b_VIPID b = vipID.
Record vipNamed (c : VIPConfig) : Prop := {
  vn_id : validID (v_ID (vc_VIP c));
  vn_check : ∀ hc, vc_HealthCheck c = Some hc → (h_ID hc = "" ∨ validID (h_ID hc)) ∧ h_VIPID hc = v_ID (vc_VIP c);
  vn_backends : Forall (backendNamed (v_ID (vc_VIP c))) (vc_Backends c);
  vn_ips : NoDup (omap ipKey (vc_Backends c));
}.
Record identified (l : list VIPConfig) : Prop := {
  id_vips : Forall vipNamed l;
  id_ids : NoDup (v_ID ∘ vc_VIP <$> l);
  id_tuples : NoDup (vipTupleKey ∘ vc_VIP <$> l);
  id_backends : NoDup (l ≫= λ c, b_ID <$> vc_Backends c);
}.

(** Keys that are all different and not yet in a map. *)
Definition unseen {V} (m : gmap string V) (l : list string) : Prop := NoDup l ∧ ∀ k, k ∈ l → m !! k = None.
Lemma unseen_nil {V} (m : gmap string V) : unseen m [].
Proof. split; [constructor|]. intros k Hk. by apply not_elem_of_nil in Hk. Qed.
Lemma unseen_cons {V} (m : gmap string V) k v l : unseen m (k :: l) ↔ m !! k = None ∧ unseen (<[k := v]> m) l.
Proof.
  unfold unseen. rewrite NoDup_cons. setoid_rewrite elem_of_cons. split.
  - intros [[Hk Hl] Hm]. split_and!; [auto..|]. intros x Hx. rewrite lookup_insert_ne by (intros ->; done). auto.
  - intros (Hk & Hl & Hm). split_and!; [|done|].
    + intros Hin. specialize (Hm _ Hin). by rewrite lookup_insert_eq in Hm.
    + intros x [->|Hx]; [done|]. specialize (Hm _ Hx). by apply lookup_insert_None in Hm as [? _].
Qed.
Lemma unseen_empty {V} l : unseen (∅ : gmap string V) l ↔ NoDup l.
Proof. unfold unseen. split; [by intros [? _]|]. intros. split; [done|]. intros. apply lookup_empty. Qed.

Lemma backendIdentities_ok i j vipID l ids ips :
  validID vipID →
  (∃ ids', backendIdentities i j vipID l ids ips = inr ids') ↔
  Forall (backendNamed vipID) l ∧ unseen ids (b_ID <$> l) ∧ unseen ips (omap ipKey l).
Proof.
  intros Hv. revert j ids ips. induction l as [|b l IH]; intros j ids ips; simpl.
  { split; [|eauto]. auto using unseen_nil. }
  rewrite Forall_cons, (unseen_cons ids _ (i, j)). unfold backendNamed at 1. unfold tryE, guard.
  rewrite <- (validID_field (backendAt i j +:+ " id") (b_ID b)).
  destruct (ValidateResourceID (backendAt i j +:+ " id") (b_ID b)) eqn:H1; [naive_solver|].
  destruct (ValidateResourceID (backendAt i j +:+ " vip_id") (b_VIPID b)) eqn:H2.
  { split; [naive_solver|]. intros (((_ & Hb) & _) & _). by rewrite Hb, (proj2 (validID_field _ _) Hv) in H2. }
  case_bool_decide as H3; [naive_solver|].
  destruct (ids !! b_ID b) as [[]|] eqn:H4; [naive_solver|].
  unfold ipKey at 1. destruct (ParseIP (b_IP b)) as [ip|]; simpl.
  - rewrite (unseen_cons ips _ j). destruct (ips !! IPString ip); [naive_solver|]. rewrite IH. naive_solver.
  - rewrite IH. naive_solver.
Qed.

Lemma backendIdentities_ids i j vipID l ids ips ids' k :
  backendIdentities i j vipID l ids ips = inr ids' → (ids' !! k = None ↔ ids !! k = None ∧ k ∉ b_ID <$> l).
Proof.
  revert j ids ips. induction l as [|b l IH]; intros j ids ips H; simpl in H.
  { simplify_eq. split; [|naive_solver]. intros. split; [done|]. apply not_elem_of_nil. }
  unfold tryE in H. csimpl. rewrite not_elem_of_cons.
  repeat (case_match; simplify_eq/=); rewrite (IH _ _ _ H), lookup_insert_None; naive_solver.
Qed.

Lemma healthCheckIdentity_ok i vipID h u :
  validID vipID →
  healthCheckIdentity i vipID h = inr u ↔
  ∀ hc, h = Some hc → (h_ID hc = "" ∨ validID (h_ID hc)) ∧ h_VIPID hc = vipID.
Proof.
  intros Hv. destruct u, h as [hc|]; [|naive_solver]. unfold healthCheckIdentity.
  rewrite tryE_ok. setoid_rewrite tryE_ok. setoid_rewrite guard_ok. setoid_rewrite validID_field. split.
  - intros (a & H1 & u & H2 & H3) ? [= <-]. case_bool_decide as H4; [done|]. split; [|done].
    case_bool_decide; [|by left]. apply guard_ok, validID_field in H1. by right.
  - intros H. destruct (H _ eq_refl) as [H1 H2]. exists tt. split.
    { case_bool_decide as H4; [|done]. apply guard_ok, validID_field. naive_solver. }
    exists tt. rewrite H2. split; [done|]. by rewrite bool_decide_false by auto.
Qed.
Lemma vipIdentity_ok i c s :
  (∃ s', vipIdentity i c s = inr s') ↔
  vipNamed c ∧ VIPIDs s !! v_ID (vc_VIP c) = None ∧ VIPTuples s !! vipTupleKey (vc_VIP c) = None ∧
  unseen (BackendIDs s) (b_ID <$> vc_Backends c).
Proof.
  unfold vipIdentity.
  destruct (ValidateResourceID ("vip config at index " +:+ at_ i +:+ " id") (v_ID (vc_VIP c))) eqn:Hid; simpl.
  { split; [naive_solver|]. intros [[Hv _ _ _] _]. apply (validID_field ("vip config at index " +:+ at_ i +:+ " id")) in Hv. congruence. }
  apply validID_field in Hid.
  destruct (VIPIDs s !! v_ID (vc_VIP c)); [naive_solver|].
  destruct (VIPTuples s !! vipTupleKey (vc_VIP c)); [naive_solver|].
  pose proof (backendIdentities_ok i 0 _ (vc_Backends c) (BackendIDs s) ∅ Hid) as HB. rewrite unseen_empty in HB.
  split.
  - intros [s' H]. apply tryE_ok in H as (u & H1 & H). pose proof (proj1 (healthCheckIdentity_ok _ _ _ _ Hid) H1) as HC. apply tryE_ok in H as (ids & H2 & _).
    destruct (proj1 HB (ex_intro _ _ H2)) as (? & ? & ?). split_and!; [by constructor|done..].
  - intros ([_ H1 H2 H3] & _ & _ & H4). destruct (proj2 HB) as [ids Hids]; [done|].
    rewrite (proj2 (healthCheckIdentity_ok i _ _ tt Hid) H1), Hids. simpl. eauto.
Qed.
Lemma vipIdentity_seen i c s s' :
  vipIdentity i c s = inr s' →
  VIPIDs s' = <[v_ID (vc_VIP c) := i]> (VIPIDs s) ∧ VIPTuples s' = <[vipTupleKey (vc_VIP c) := i]> (VIPTuples s) ∧
  ∀ k, BackendIDs s' !! k = None ↔ BackendIDs s !! k = None ∧ k ∉ b_ID <$> vc_Backends c.
Proof.
  unfold vipIdentity. intros (u & _ & H)%tryE_ok. repeat (case_match; try done).
  all: repeat (apply tryE_ok in H as (? & ? & H)); simplify_eq/=; eauto using backendIdentities_ids.
Qed.
Lemma unseen_app {V} (m : gmap string V) l k : unseen m (l ++ k) ↔ unseen m l ∧ NoDup k ∧ ∀ x, x ∈ k → m !! x = None ∧ x ∉ l.
Proof. unfold unseen. rewrite NoDup_app. setoid_rewrite elem_of_app. naive_solver. Qed.

Lemma vipIdentities_ok i l s :
  (∃ s', vipIdentities i l s = inr s') ↔
  Forall vipNamed l ∧ unseen (VIPIDs s) (v_ID ∘ vc_VIP <$> l) ∧ unseen (VIPTuples s) (vipTupleKey ∘ vc_VIP <$> l) ∧
  unseen (BackendIDs s) (l ≫= λ c, b_ID <$> vc_Backends c).
Proof.
  revert i s. induction l as [|c l IH]; intros i s; simpl.
  { split; [|eauto]. auto using unseen_nil. }
  csimpl. rewrite Forall_cons, (unseen_cons (VIPIDs s) _ i), (unseen_cons (VIPTuples s) _ i), unseen_app.
  destruct (vipIdentity i c s) as [e|s1] eqn:H; simpl.
  { split; [naive_solver|]. intros ((? & _) & (? & _) & (? & _) & ? & _).
    destruct (proj2 (vipIdentity_ok i c s)) as [s1 Hs]; [done|congruence]. }
  rewrite IH. destruct (vipIdentity_seen _ _ _ _ H) as (-> & -> & HB).
  destruct (proj1 (vipIdentity_ok i c s) (ex_intro _ _ H)) as (? & ? & ? & ?).
  assert (unseen (BackendIDs s1) (l ≫= λ c, b_ID <$> vc_Backends c) ↔
    NoDup (l ≫= λ c, b_ID <$> vc_Backends c) ∧
    ∀ x, x ∈ (l ≫= λ c, b_ID <$> vc_Backends c) → BackendIDs s !! x = None ∧ x ∉ b_ID <$> vc_Backends c) as ->.
  { unfold unseen. by setoid_rewrite HB. }
  naive_solver.
Qed.
(** Exactly the configurations in which every name is used once pass. *)
Lemma validateConfigIdentity_ok config : validateConfigIdentity (Some config) = None ↔ identified (cs_VIPs config).
Proof.
  pose proof (vipIdentities_ok 0 (cs_VIPs config) seenNothing) as H. simpl in *. rewrite !unseen_empty in H.
  destruct (vipIdentities 0 (cs_VIPs config) seenNothing) as [e|s]; split; [done| |naive_solver (eauto using Build_identified)|done].
  intros []. naive_solver.
Qed.

(** ** What an agent is given of a configuration *)
Definition deliveredTime (t : option Z) : option Z :=
  if decide (t = Some (Pb.zeroSeconds * 1000000000)%Z) then None else t.
Definition deliveredCheck (hc : HealthCheck) : HealthCheck :=
  {| h_ID := h_ID hc; h_VIPID := h_VIPID hc; h_Type := h_Type hc; h_IntervalSec := h_IntervalSec hc;
     h_TimeoutSec := h_TimeoutSec hc; h_RiseCount := h_RiseCount hc; h_FallCount := h_FallCount hc; h_Config := h_Config hc;
     h_CreatedAt := deliveredTime (h_CreatedAt hc); h_UpdatedAt := deliveredTime (h_UpdatedAt hc) |}.
Definition deliveredBackend (b : Backend) : Backend :=
  {| b_ID := b_ID b; b_VIPID := b_VIPID b; b_IP := b_IP b; b_Weight := b_Weight b;
     b_CreatedAt := deliveredTime (b_CreatedAt b); b_UpdatedAt := deliveredTime (b_UpdatedAt b) |}.
(** The method is spelled out, and the VIP does not carry its check and backends a
    second time. *)
Definition deliveredVIP (v : VIP) : VIP :=
  {| v_ID := v_ID v; v_VIP := v_VIP v; v_Port := v_Port v; v_Protocol := v_Protocol v; v_LBMethod := LBMethodMaglev;
     v_EncapType := v_EncapType v; v_DSCP := v_DSCP v; v_CreatedAt := deliveredTime (v_CreatedAt v);
     v_UpdatedAt := deliveredTime (v_UpdatedAt v); v_HealthCheck := None; v_Backends := [] |}.
Definition deliveredVIPConfig (c : VIPConfig) : VIPConfig :=
  {| vc_VIP := deliveredVIP (vc_VIP c); vc_HealthCheck := deliveredCheck <$> vc_HealthCheck c;
     vc_Backends := deliveredBackend <$> vc_Backends c |}.
Definition delivered (c : ConfigSnapshot) : ConfigSnapshot :=
  {| cs_Revision := cs_Revision c; cs_VIPs := deliveredVIPConfig <$> cs_VIPs c |}.

Lemma AsTime_New t : Pb.AsTime (Pb.New t) = deliveredTime t.
Proof.
  unfold Pb.AsTime, Pb.New, deliveredTime. destruct t as [n|]; simpl; [|done].
  replace (n `div` 1000000000 * 1000000000 + n `mod` 1000000000)%Z with n.
  2: { pose proof (Z.div_mod n 1000000000 ltac:(lia)). lia. }
  case_decide; simplify_eq; [by rewrite Z.eqb_refl|]. destruct (Z.eqb_spec n (Pb.zeroSeconds * 1000000000)); [|done]. by subst n.
Qed.
Lemma firstError_ok (l : list error) : firstError id l = None ↔ Forall (λ e, e = None) l.
Proof. induction l as [|[e|] l IH]; simpl; [naive_solver| |]; rewrite Forall_cons; naive_solver. Qed.

(** Settings that came out of JSON go through it once more unchanged. *)
Class SettingsCodec `{Codec (option HCConfig)} : Prop :=
  settings_stable : ∀ text (c : HCConfig), unmarshal text = inr (Some c) →
    ∃ s, marshal (Some c) = inr s ∧ s ≠ "" ∧ unmarshal s = inr (Some c).

Section Delivery.
Context {CS : Codec (option HCConfig)} {SC : SettingsCodec} {G : HttpGuts}.
Variable outOfRange : spec_float → Z.

(** What the store's checks admit, with a DSCP as a byte and settings read from JSON. *)
Record storable (c : VIPConfig) : Prop := {
  st_vip : ValidateVIPForWrite outOfRange (vc_VIP c) = None;
  st_check : vc_HealthCheck c = v_HealthCheck (vc_VIP c);
  st_backends : Forall (λ b, ValidateBackendForWrite b = None ∧ ValidateBackendAddressFamilyForVIP (vc_VIP c) b = None) (vc_Backends c);
  st_dscp : ∀ d, v_DSCP (vc_VIP c) = Some d → (0 <= d)%Z;
  st_settings : ∀ hc m, vc_HealthCheck c = Some hc → h_Config hc = Some m → ∃ text, unmarshal text = inr (Some m);
}.

Lemma protocol_roundtrip p : p ∈ [ProtocolTCP; ProtocolUDP] → convertProtoProtocol (convertProtocol p) = p.
Proof. rewrite !elem_of_cons, elem_of_nil. by intros [->|[->|[]]]. Qed.
Lemma lbMethod_roundtrip m : convertProtoLBMethod (convertLBMethod m) = LBMethodMaglev.
Proof. unfold convertLBMethod. by case_bool_decide. Qed.
Lemma encapType_roundtrip t : t = "" ∨ IsValidEncapType t = true → convertProtoEncapType (convertEncapType t) = t.
Proof.
  intros [->|H]; [done|]. unfold IsValidEncapType in H. apply bool_decide_eq_true in H.
  rewrite !elem_of_cons, elem_of_nil in H. by destruct_or!; subst.
Qed.
Lemma hcType_roundtrip t c : ValidateHealthCheckConfig outOfRange t c = None → convertProtoHCType (convertHCType t) = t.
Proof.
  unfold ValidateHealthCheckConfig. case_bool_decide as H.
  { intros _. rewrite !elem_of_cons, elem_of_nil in H. by destruct_or!; subst. }
  case_bool_decide; [|done]. by subst.
Qed.

Lemma inRange_false lo hi v : ((v <? lo) || (hi <? v))%Z = false ↔ (lo <= v <= hi)%Z.
Proof. rewrite orb_false_iff. lia. Qed.
Lemma healthCheckInt32_ok field v max :
  (max < 2 ^ 31)%Z → (1 <= v <= max)%Z → healthCheckInt32 field v max = inr v.
Proof.
  intros Hm Hv. unfold healthCheckInt32. rewrite (proj2 (inRange_false 1 max v) Hv). f_equal. apply wrapS_small; lia.
Qed.
Lemma timing_ok hc : ValidateHealthCheckTiming hc = None →
  (1 <= h_IntervalSec hc <= MaxHealthCheckSeconds ∧ 1 <= h_TimeoutSec hc <= MaxHealthCheckSeconds ∧
   1 <= h_RiseCount hc <= MaxHealthCheckCount ∧ 1 <= h_FallCount hc <= MaxHealthCheckCount)%Z.
Proof.
  unfold ValidateHealthCheckTiming. rewrite firstError_ok, !Forall_cons. unfold outside. intros H.
  rewrite <- !inRange_false. repeat (destruct ((_ || _)%bool); [naive_solver|]). done.
Qed.
Lemma ValidateHealthCheckTiming_delivered hc : ValidateHealthCheckTiming (deliveredCheck hc) = ValidateHealthCheckTiming hc.
Proof. done. Qed.

Lemma convertHealthCheck_roundtrip i hc :
  validateHealthCheckForWrite outOfRange (Some hc) = None →
  (∀ m, h_Config hc = Some m → ∃ text, unmarshal text = inr (Some m)) →
  ∃ pb, convertHealthCheck i hc = inr pb ∧ convertProtoHealthCheck outOfRange i pb = inr (deliveredCheck hc).
Proof.
  simpl. intros H HS. destruct (ValidateHealthCheckTiming hc) eqn:Ht; [done|].
  destruct (ValidateHealthCheckConfig outOfRange (h_Type hc) (h_Config hc)) eqn:Hc; [done|].
  destruct (timing_ok _ Ht) as (H1 & H2 & H3 & H4).
  assert (∃ text, match h_Config hc with None => inr "" | Some c => marshal (Some c) end = inr text ∧
    (h_Config hc = None ∧ text = "" ∨ text ≠ "" ∧ ∃ c, h_Config hc = Some c ∧ unmarshal text = inr (Some c))) as (text & Ht1 & Ht2).
  { destruct (h_Config hc) as [c|]; [|by eauto 6]. destruct (HS _ eq_refl) as [t0 H0].
    destruct (settings_stable _ _ H0) as (t1 & ? & ? & ?). eauto 10. }
  unfold convertHealthCheck. assert (MaxHealthCheckSeconds < 2 ^ 31)%Z as HM by (by vm_compute). rewrite !healthCheckInt32_ok by assumption. cbn [tryE].
  exists {| Pb.hc_Id := h_ID hc; Pb.hc_VipId := h_VIPID hc; Pb.hc_Type := convertHCType (h_Type hc);
         Pb.hc_IntervalSec := h_IntervalSec hc; Pb.hc_TimeoutSec := h_TimeoutSec hc;
         Pb.hc_RiseCount := h_RiseCount hc; Pb.hc_FallCount := h_FallCount hc; Pb.hc_Config := text;
         Pb.hc_CreatedAt := Some (Pb.New (h_CreatedAt hc)); Pb.hc_UpdatedAt := Some (Pb.New (h_UpdatedAt hc)) |}.
  split.
  { destruct (h_Config hc); [rewrite Ht1|]; simplify_eq/=; done. }
  unfold convertProtoHealthCheck. cbn -[ValidateHealthCheckTiming ValidateHealthCheckConfig].
  rewrite (hcType_roundtrip _ _ Hc).
  assert ((if bool_decide (text = "") then inr None
             else match unmarshal text with
                  | inl e => inl (errorf ("health check config at vip index " +:+ at_ i +:+ " is invalid: ") e)
                  | inr None => inl (ErrMsg ("health check config at vip index " +:+ at_ i +:+ " must be a JSON object"))
                  | inr (Some c) => inr (Some c)
                  end) = (inr (h_Config hc) : err + option HCConfig)) as ->.
  { destruct Ht2 as [[-> ->]|(Hne & c & -> & ->)]; [done|]. by rewrite bool_decide_false. }
  cbn -[ValidateHealthCheckTiming ValidateHealthCheckConfig]. rewrite Hc. cbn -[ValidateHealthCheckTiming].
  rewrite !AsTime_New. change (Build_HealthCheck _ _ _ _ _ _ _ _ _ _) with (deliveredCheck hc).
  by rewrite ValidateHealthCheckTiming_delivered, Ht.
Qed.

Lemma convertBackends_roundtrip i j l :
  Forall (λ b, ValidateBackendForWrite b = None) l →
  convertProtoBackends i j ((Some ∘ convertBackend) <$> l) = inr (deliveredBackend <$> l).
Proof.
  revert j. induction l as [|b l IH]; intros j H; [done|]. apply Forall_cons in H as [Hb Hl]. csimpl.
  rewrite (IH _ Hl). cbn [tryE]. do 2 f_equal. unfold deliveredBackend. rewrite !AsTime_New. f_equal.
  unfold ValidateBackendForWrite in Hb. apply firstError_ok in Hb. rewrite !Forall_cons in Hb. destruct Hb as [Hb _].
  unfold ValidateBackendFieldsForWrite in Hb. apply firstError_ok in Hb. rewrite !Forall_cons in Hb. destruct Hb as (_ & _ & Hw & _).
  destruct ((_ || _)%bool) eqn:Hw'; [done|]. apply inRange_false in Hw'. apply wrapS_small; lia.
Qed.

Lemma backendIdentities_delivered i j vipID l ids ips :
  backendIdentities i j vipID (deliveredBackend <$> l) ids ips = backendIdentities i j vipID l ids ips.
Proof. revert j ids ips. induction l as [|b l IH]; intros; [done|]. csimpl. unfold tryE. repeat (case_match; [done|]). repeat (case_match; try done). Qed.
Lemma vipIdentity_delivered i c s : vipIdentity i (deliveredVIPConfig c) s = vipIdentity i c s.
Proof. unfold vipIdentity. simpl. rewrite backendIdentities_delivered. by destruct (vc_HealthCheck c). Qed.

Lemma validateBackendAddressFamily_ok i j vip b :
  ValidateBackendForWrite b = None → ValidateBackendAddressFamilyForVIP vip b = None →
  ∃ ip, ParseIP (b_IP b) = Some ip ∧ (1 <= b_Weight b <= 100)%Z ∧
        validateBackendAddressFamily i j (b_IP b) ip (EffectiveEncapType (v_EncapType vip)) = None.
Proof.
  unfold ValidateBackendForWrite, ValidateBackendFieldsForWrite, ValidateBackendAddressFamilyForVIP, ValidateBackendIPFamilyForVIP.
  rewrite firstError_ok, !Forall_cons. intros [Hf _]. apply firstError_ok in Hf. rewrite !Forall_cons in Hf. destruct Hf as (_ & _ & Hw & _).
  destruct ((_ || _)%bool) eqn:Hw'; [done|]. apply inRange_false in Hw'.
  destruct (ParseIP (b_IP b)) as [ip|]; [|done]. intros H. exists ip. split_and!; [done|lia..|].
  unfold validateBackendAddressFamily. by repeat (case_match; try done).
Qed.
Lemma backendsDataPlane_ok i j vip l :
  Forall (λ b, ValidateBackendForWrite b = None ∧ ValidateBackendAddressFamilyForVIP vip b = None) l →
  backendsDataPlane i j (EffectiveEncapType (v_EncapType vip)) (deliveredBackend <$> l) = None.
Proof.
  revert j. induction l as [|b l IH]; intros j; [done|]. rewrite Forall_cons. intros [[H1 H2] Hl]. csimpl.
  destruct (validateBackendAddressFamily_ok i j vip b H1 H2) as (ip & -> & Hw & ->).
  rewrite (proj2 (inRange_false 1 100 _) Hw). auto.
Qed.

(** A VIP the store admits is one the agent can program. *)
Lemma validateVIPConfigDataPlane_ok i c : storable c → validateVIPConfigDataPlane i (deliveredVIPConfig c) = None.
Proof.
  intros [Hv _ Hb _ _]. unfold ValidateVIPForWrite in Hv. destruct (validateOptionalResourceID _ _); [done|].
  unfold validateVIPConfigDataPlane. cbn [deliveredVIPConfig deliveredVIP vc_VIP vc_Backends v_VIP v_Port v_Protocol v_LBMethod v_EncapType].
  destruct (ParseIP (v_VIP (vc_VIP c))) as [ip|]; [|done].
  apply firstError_ok in Hv. rewrite !Forall_cons in Hv. destruct Hv as (H1 & H2 & _ & H4 & H5 & _).
  apply firstError_ok. rewrite !Forall_cons. split_and!.
  - by destruct ((_ || _)%bool).
  - by destruct (bool_decide (v_Protocol (vc_VIP c) ∈ _)).
  - done.
  - rewrite bool_decide_ne_true. by destruct (bool_decide (v_EncapType (vc_VIP c) = "")), (IsValidEncapType (v_EncapType (vc_VIP c))).
  - unfold Models.validateVIPAddressFamily, validateVIPAddressFamily in *. by repeat (case_match; try done).
  - by apply backendsDataPlane_ok.
  - done.
Qed.

Lemma convertProtoDSCP_ok i vip :
  validateDSCP (EffectiveEncapType (v_EncapType vip)) (v_DSCP vip) = None → (∀ d, v_DSCP vip = Some d → (0 <= d)%Z) →
  convertProtoDSCP i (v_EncapType vip) (wrapU 32 <$> v_DSCP vip) = inr (v_DSCP vip).
Proof.
  unfold validateDSCP. destruct (v_DSCP vip) as [d|]; [|done]. intros H Hd. specialize (Hd _ eq_refl). simpl.
  destruct (Z.ltb_spec 63 d); [done|]. rewrite (wrapU_small 32) by lia. destruct (Z.ltb_spec 63 d); [lia|].
  case_match; [done|]. rewrite wrapU_small; [done|lia].
Qed.

Lemma convertVIPConfig_roundtrip i c s s' :
  storable c → vipIdentity i c s = inr s' →
  ∃ pb, convertVIPConfig i c = inr pb ∧ convertProtoVIPConfig outOfRange i (Some pb) s = inr (deliveredVIPConfig c, s').
Proof.
  intros Hst Hid. pose proof (validateVIPConfigDataPlane_ok i c Hst) as HD. destruct Hst as [Hv Hc Hb Hd Hs].
  unfold ValidateVIPForWrite in Hv. destruct (validateOptionalResourceID _ _); [done|].
  destruct (ParseIP (v_VIP (vc_VIP c))); [|done]. apply firstError_ok in Hv. rewrite !Forall_cons in Hv.
  destruct Hv as (HP & HPr & _ & HE & _ & HDS & HH & _). rewrite <- Hc in HH.
  assert (∃ pbhc, match vc_HealthCheck c with None => inr None | Some hc => hc ←! convertHealthCheck i hc; inr (Some hc) end = inr pbhc ∧
     match pbhc with None => inr None | Some hc => hc ←! convertProtoHealthCheck outOfRange i hc; inr (Some hc) end
     = inr (deliveredCheck <$> vc_HealthCheck c)) as (pbhc & HC1 & HC2).
  { destruct (vc_HealthCheck c) as [hc|]; [|by exists None].
    destruct (convertHealthCheck_roundtrip i hc HH) as (pb & -> & H2); [by eauto|]. exists (Some pb). by rewrite H2. }
  unfold convertVIPConfig. rewrite HC1. cbn [tryE]. eexists. split; [reflexivity|].
  unfold convertProtoVIPConfig. cbn [Pb.vc_Vip Pb.vc_HealthCheck Pb.vc_Backends]. cbn [convertVIP Pb.EncapType Pb.Dscp].
  rewrite encapType_roundtrip.
  2: { destruct (bool_decide (v_EncapType (vc_VIP c) = "")) eqn:Hx; [left; by apply bool_decide_eq_true in Hx|].
       right. simpl in HE. by destruct (IsValidEncapType _). }
  rewrite convertProtoDSCP_ok by done. cbn [tryE]. rewrite HC2. cbn [tryE]. rewrite convertBackends_roundtrip.
  2: { eapply Forall_impl; [exact Hb|]. by intros ? [? _]. }
  cbn [tryE convertVIP Pb.Id Pb.Vip Pb.Port Pb.Protocol Pb.LbMethod Pb.CreatedAt Pb.UpdatedAt].
  rewrite lbMethod_roundtrip, protocol_roundtrip by (apply (bool_decide_unpack _); simpl in HPr; by destruct (bool_decide (v_Protocol (vc_VIP c) ∈ _))).
  unfold timeOf. cbn [mbind option_bind]. rewrite !AsTime_New. rewrite wrapS_small; [|lia|].
  2: { destruct ((_ || _)%bool) eqn:Hx in HP; [done|]. apply inRange_false in Hx. lia. }
  match goal with |- context [validateVIPConfigDataPlane i ?x] => change x with (deliveredVIPConfig c) end.
  rewrite HD. cbn [guard tryE]. unfold validateVIPConfigIdentity. rewrite vipIdentity_delivered, Hid. done.
Qed.
Lemma convertVIPConfigs_roundtrip i l s s' :
  Forall storable l → vipIdentities i l s = inr s' →
  ∃ pb, convertVIPConfigs i l = inr pb ∧ convertProtoVIPConfigs outOfRange i pb s = inr (deliveredVIPConfig <$> l).
Proof.
  revert i s. induction l as [|c l IH]; intros i s Hl Hid; [by exists []|]. apply Forall_cons in Hl as [Hc Hl].
  simpl in Hid. apply tryE_ok in Hid as (s1 & H1 & H2).
  destruct (convertVIPConfig_roundtrip i c s s1 Hc H1) as (pb & E1 & E2). destruct (IH _ _ Hl H2) as (pbs & E3 & E4).
  exists (Some pb :: pbs). cbn [convertVIPConfigs convertProtoVIPConfigs]. rewrite E1. cbn [tryE]. rewrite E3. split; [done|].
  rewrite E2. cbn [tryE fst snd]. by rewrite E4.
Qed.
(** What the store admits reaches the agent. *)
Lemma delivery config :
  Forall storable (cs_VIPs config) → identified (cs_VIPs config) →
  ∃ pb, convertConfigToProto config = inr pb ∧ convertProtoToConfig outOfRange (Some pb) = inr (delivered config).
Proof.
  intros Hst Hid. apply validateConfigIdentity_ok in Hid. unfold convertConfigToProto. rewrite Hid. cbn [guard tryE].
  unfold validateConfigIdentity in Hid. destruct (vipIdentities 0 (cs_VIPs config) seenNothing) as [|s] eqn:H; [done|].
  destruct (convertVIPConfigs_roundtrip 0 _ _ _ Hst H) as (pb & -> & E). cbn [tryE]. eexists. split; [done|]. simpl. by rewrite E.
Qed.

(** ** What an agent accepts, whoever sent it *)
Definition familyOK (needs4 needs6 : bool) (ip : list Z) : Prop :=
  (needs4 = true → is_Some (To4 ip)) ∧ (needs4 = false → needs6 = true → To4 ip = None).
Record programmable (c : VIPConfig) : Prop := {
  pr_vip : ∃ ip, ParseIP (v_VIP (vc_VIP c)) = Some ip ∧
    familyOK (EncapRequiresIPv4VIP (EffectiveEncapType (v_EncapType (vc_VIP c))))
             (EncapRequiresIPv6VIP (EffectiveEncapType (v_EncapType (vc_VIP c)))) ip;
  pr_port : (1 <= v_Port (vc_VIP c) <= 65535)%Z;
  pr_protocol : v_Protocol (vc_VIP c) ∈ [ProtocolTCP; ProtocolUDP];
  pr_method : v_LBMethod (vc_VIP c) = LBMethodMaglev;
  pr_encap : v_EncapType (vc_VIP c) = "" ∨ IsValidEncapType (v_EncapType (vc_VIP c)) = true;
  pr_dscp : ∀ d, v_DSCP (vc_VIP c) = Some d →
    (d <= 63)%Z ∧ (EffectiveEncapType (v_EncapType (vc_VIP c)) = EncapTypeL3DSR → d ≠ 0%Z);
  pr_check : ∀ hc, vc_HealthCheck c = Some hc →
    ValidateHealthCheckTiming hc = None ∧ ValidateHealthCheckConfig outOfRange (h_Type hc) (h_Config hc) = None;
  pr_backends : ∀ b, b ∈ vc_Backends c → (1 <= b_Weight b <= 100)%Z ∧ ∃ ip, ParseIP (b_IP b) = Some ip ∧
    familyOK (EncapRequiresIPv4Backend (EffectiveEncapType (v_EncapType (vc_VIP c))))
             (EncapRequiresIPv6Backend (EffectiveEncapType (v_EncapType (vc_VIP c)))) ip;
}.

Lemma familyOK_of (needs4 needs6 : bool) ip (e1 e2 : err) :
  (if needs4 then if bool_decide (is_Some (To4 ip)) then None else Some e1
   else if needs6 then if bool_decide (is_Some (To4 ip)) then Some e2 else None else None) = None →
  familyOK needs4 needs6 ip.
Proof.
  intros H. split; intros; subst; case_bool_decide as Hb; try done. destruct (To4 ip); [|done]. by destruct Hb.
Qed.
Lemma backendsDataPlane_sound i j t l b :
  backendsDataPlane i j t l = None → b ∈ l → (1 <= b_Weight b <= 100)%Z ∧ ∃ ip, ParseIP (b_IP b) = Some ip ∧
    familyOK (EncapRequiresIPv4Backend t) (EncapRequiresIPv6Backend t) ip.
Proof.
  revert j. induction l as [|b' l IH]; intros j H Hin; [by apply not_elem_of_nil in Hin|]. simpl in H.
  destruct (ParseIP (b_IP b')) as [ip|] eqn:Hip; [|done]. destruct (validateBackendAddressFamily _ _ _ _ _) eqn:Hf; [done|].
  destruct ((_ || _)%bool) eqn:Hw; [done|]. apply elem_of_cons in Hin as [->|Hin]; [|eauto].
  apply inRange_false in Hw. split; [done|]. exists ip. split; [done|]. by eapply familyOK_of.
Qed.
(** A [uint32] of a message is not negative. *)
Definition wellTyped (c : Pb.VIPConfig) : Prop := ∀ vip d, Pb.vc_Vip c = Some vip → Pb.Dscp vip = Some d → (0 <= d)%Z.
Lemma convertProtoDSCP_sound i t d r :
  (∀ v, d = Some v → (0 <= v)%Z) → convertProtoDSCP i t d = inr r →
  ∀ x, r = Some x → (x <= 63)%Z ∧ (EffectiveEncapType t = EncapTypeL3DSR → x ≠ 0%Z).
Proof.
  unfold convertProtoDSCP. destruct d as [v|]; [|by intros _ [= <-] ?]. intros Hv. specialize (Hv _ eq_refl).
  destruct (Z.ltb_spec 63 v); [done|]. destruct (_ && _) eqn:Hx; [done|]. intros [= <-] ? [= <-].
  rewrite wrapU_small by lia. split; [done|]. intros Ht ->. by rewrite bool_decide_true in Hx.
Qed.
Lemma convertProtoHealthCheck_sound i pb hc :
  convertProtoHealthCheck outOfRange i pb = inr hc →
  ValidateHealthCheckTiming hc = None ∧ ValidateHealthCheckConfig outOfRange (h_Type hc) (h_Config hc) = None.
Proof.
  unfold convertProtoHealthCheck. intros (c & _ & H)%tryE_ok. apply tryE_ok in H as (? & H1 & H). apply tryE_ok in H as (? & H2 & [= <-]).
  cbn [h_Type h_Config]. split; [by destruct (ValidateHealthCheckTiming _)|by destruct (ValidateHealthCheckConfig _ _ _)].
Qed.
Lemma validateVIPConfigDataPlane_sound i c :
  validateVIPConfigDataPlane i c = None →
  (∀ d, v_DSCP (vc_VIP c) = Some d → (d <= 63)%Z ∧ (EffectiveEncapType (v_EncapType (vc_VIP c)) = EncapTypeL3DSR → d ≠ 0%Z)) →
  (∀ hc, vc_HealthCheck c = Some hc →
    ValidateHealthCheckTiming hc = None ∧ ValidateHealthCheckConfig outOfRange (h_Type hc) (h_Config hc) = None) →
  programmable c.
Proof.
  unfold validateVIPConfigDataPlane. destruct (ParseIP (v_VIP (vc_VIP c))) as [ip|] eqn:Hip; [|done].
  rewrite firstError_ok, !Forall_cons. intros (H1 & H2 & H3 & H4 & H5 & H6 & _) HD HH. constructor; [..|done|done|].
  - exists ip. split; [done|]. by eapply familyOK_of.
  - destruct ((_ || _)%bool) eqn:Hp in H1; [done|]. by apply inRange_false in Hp.
  - apply (bool_decide_unpack _). by destruct (bool_decide (v_Protocol _ ∈ _)).
  - apply (bool_decide_unpack _). by destruct (bool_decide (v_LBMethod _ = _)).
  - rewrite bool_decide_ne_true in H4. destruct (bool_decide (v_EncapType (vc_VIP c) = "")) eqn:Hx.
    { left. by apply bool_decide_eq_true in Hx. } right. by destruct (IsValidEncapType _).
  - intros b. by eapply backendsDataPlane_sound.
Qed.
Lemma convertProtoVIPConfig_sound i pb s c s' :
  (∀ x, pb = Some x → wellTyped x) → convertProtoVIPConfig outOfRange i pb s = inr (c, s') →
  programmable c ∧ vipIdentity i c s = inr s'.
Proof.
  unfold convertProtoVIPConfig. destruct pb as [pb|]; [|done]. intros HT. specialize (HT _ eq_refl).
  destruct (Pb.vc_Vip pb) as [vip|] eqn:Hvip; [|done].
  intros (dscp & HD & H)%tryE_ok. apply tryE_ok in H as (hc & HH & H). apply tryE_ok in H as (bs & _ & H).
  apply tryE_ok in H as (u & HP & H). apply tryE_ok in H as (s1 & HI & [= <- <-]). apply guard_ok in HP.
  split; [|done]. eapply validateVIPConfigDataPlane_sound; [exact HP|..]; cbn [vc_VIP vc_HealthCheck v_DSCP v_EncapType].
  - eapply convertProtoDSCP_sound; [|exact HD]. intros v. by apply HT.
  - intros x ->. destruct (Pb.vc_HealthCheck pb) as [h|]; [|done]. apply tryE_ok in HH as (y & Hy & [= <-]).
    by eapply convertProtoHealthCheck_sound.
Qed.
Lemma convertProtoVIPConfigs_sound i pbs s l :
  (∀ x, Some x ∈ pbs → wellTyped x) → convertProtoVIPConfigs outOfRange i pbs s = inr l →
  Forall programmable l ∧ ∃ s', vipIdentities i l s = inr s'.
Proof.
  revert i s l. induction pbs as [|pb pbs IH]; intros i s l HT H; [simplify_eq/=; by eauto|]. cbn [convertProtoVIPConfigs] in H.
  apply tryE_ok in H as ([c s1] & H1 & H). apply tryE_ok in H as (l' & H2 & [= <-]).
  apply convertProtoVIPConfig_sound in H1 as [Hc Hi].
  2: { intros x ->. apply HT. by left. }
  destruct (IH (S i) s1 l') as [Hl Hs]; [|exact H2|].
  { intros. apply HT. by right. }
  split; [by constructor|]. simpl. by rewrite Hi.
Qed.
Lemma decoding_sound pb config :
  (∀ x, Some x ∈ Pb.cfg_Vips pb → wellTyped x) → convertProtoToConfig outOfRange (Some pb) = inr config →
  cs_Revision config = Pb.cfg_Revision pb ∧ Forall programmable (cs_VIPs config) ∧ identified (cs_VIPs config).
Proof.
  intros HT. cbn [convertProtoToConfig]. intros (l & H & [= <-])%tryE_ok.
  destruct (convertProtoVIPConfigs_sound _ _ _ _ HT H) as [Hp [s Hs]]. split_and!; [done..|].
  apply validateConfigIdentity_ok. simpl. by rewrite Hs.
Qed.

(** A configuration an agent may act on. *)
Definition sound (config : ConfigSnapshot) : Prop := Forall programmable (cs_VIPs config) ∧ identified (cs_VIPs config).

(** C31. The controller and the agent agree on what they exchange.  Every
    configuration made of resources the store's checks admit, with names used once,
    is converted by the controller and decoded by the agent to the same
    configuration: only the load balancing method is spelled out and a VIP does not
    repeat its check and backends.  And whatever message an agent decodes, well
    typed but otherwise arbitrary, is a configuration it can program, in which every
    name is used once, with the revision of the message. *)
Theorem sync_roundtrip :
  (∀ config, Forall storable (cs_VIPs config) → identified (cs_VIPs config) →
     ∃ pb, convertConfigToProto config = inr pb ∧ convertProtoToConfig outOfRange (Some pb) = inr (delivered config)) ∧
  (∀ pb config, (∀ x, Some x ∈ Pb.cfg_Vips pb → wellTyped x) → convertProtoToConfig outOfRange (Some pb) = inr config →
     cs_Revision config = Pb.cfg_Revision pb ∧ sound config).
Proof. split; [exact delivery|]. unfold sound. eauto using decoding_sound. Qed.

(** ** The client *)
Section Client.
Context {E : Type} `{!Peer E}.
Variable config : AgentConfig.Config.
Variable readFile : string → err + string.
Variable AppendCertsFromPEM : string → bool.
Variable LoadX509KeyPair : string → string → error.
#[local] Abbreviation M := (ST (World (E := E))).
Definition typedSnapshot (o : option Pb.ConfigSnapshot) : Prop := ∀ pb x, o = Some pb → Some x ∈ Pb.cfg_Vips pb → wellTyped x.

(** A property of the environment that the calls keep, and the handler as long as it
    is given sound configurations; messages are well typed. *)
Record respected (I : E → Prop) : Prop := {
  re_register : ∀ req e r e', I e → rpcRegisterAgent req e = (r, e') → I e' ∧ ∀ m, r = inr (Some m) → typedSnapshot (Pb.ras_Config m);
  re_heartbeat : ∀ req e r e', I e → rpcHeartbeat req e = (r, e') → I e';
  re_getConfig : ∀ req e r e', I e → rpcGetConfig req e = (r, e') → I e' ∧ ∀ m, r = inr (Some m) → typedSnapshot (Pb.gcs_Config m);
  re_watch : ∀ req e r e', I e → rpcWatchConfig req e = (r, e') → I e';
  re_dial : ∀ t e r e', I e → dial t e = (r, e') → I e';
  re_handler : ∀ h c e r e', configHandler = Some h → sound c → I e → h c e = (r, e') → I e';
  re_sleep : ∀ d e r e', I e → sleep d e = (r, e') → I e';
  re_ctxErr : ∀ e r e', I e → ctxErr e = (r, e') → I e';
}.

Section Invariant.
Variable I : E → Prop.
Hypothesis HI : respected I.
(** The connection is there exactly while the client counts as connected. *)
Definition good (w : World (E := E)) : Prop := I w.2 ∧ connected w.1 = hasConn w.1.
Definition keepsGood {A} (m : M A) : Prop := ∀ w, good w → good (m w).2.

Lemma keepsGood_ret {A} (a : A) : keepsGood (mret a).
Proof. by intros w. Qed.
Lemma keepsGood_bind {A B} (m : M A) (k : A → M B) : keepsGood m → (∀ a, keepsGood (k a)) → keepsGood (m ≫= k).
Proof. intros Hm Hk w Hw. unfold mbind, ST_bind. specialize (Hm w Hw). destruct (m w) as [a w']. by apply Hk. Qed.
Lemma keepsGood_client : keepsGood client.
Proof. by intros [c e]. Qed.
Lemma keepsGood_revision r : keepsGood (setCurrentRevision r).
Proof. by intros [c e]. Qed.
Lemma keepsGood_conn b : keepsGood (setConn b).
Proof. by intros [c e] [? _]. Qed.
Lemma keepsGood_life a b c d f : keepsGood (setLife a b c d f).
Proof. by intros [? e]. Qed.
Lemma keepsGood_call {A B} (m : ST E A) (P : A → Prop) (k : A → M B) :
  (∀ e r e', I e → m e = (r, e') → I e' ∧ P r) → (∀ a, P a → keepsGood (k a)) → keepsGood (on_snd m ≫= k).
Proof.
  intros Hm Hk [c e] [Hi Hc]. unfold mbind, ST_bind, on_snd. destruct (m e) as [r e'] eqn:Hr.
  destruct (Hm _ _ _ Hi Hr) as [? ?]. by apply Hk.
Qed.
Lemma keepsGood_plain {A B} (m : ST E A) (k : A → M B) :
  (∀ e r e', I e → m e = (r, e') → I e') → (∀ a, keepsGood (k a)) → keepsGood (on_snd m ≫= k).
Proof. intros Hm Hk. apply (keepsGood_call m (λ _, True)); [|eauto]. eauto. Qed.
Create HintDb good.
#[local] Hint Resolve keepsGood_ret keepsGood_client keepsGood_revision keepsGood_conn keepsGood_life : good.
Ltac good := repeat (first [solve [eauto with good] | apply keepsGood_bind | match goal with |- keepsGood _ => fail 1 | |- ∀ _, _ => intro end | case_match]).

Lemma applyConfig_good o : (∀ c, o = Some c → sound c) → keepsGood (applyConfig o).
Proof.
  intros Ho. destruct o as [c|]; [|apply keepsGood_ret]. specialize (Ho _ eq_refl). unfold applyConfig.
  destruct configHandler as [h|] eqn:Hh.
  - apply keepsGood_plain; [|good]. intros. by eapply (re_handler I HI).
  - good.
Qed.
Lemma receiveConfig_good a b pb : typedSnapshot (Some pb) → keepsGood (receiveConfig outOfRange a b pb).
Proof.
  intros HT. unfold receiveConfig. destruct (convertProtoToConfig _ _) as [|c] eqn:Hc; [apply keepsGood_ret|].
  apply keepsGood_bind; [|good]. apply applyConfig_good. intros ? [= <-].
  apply decoding_sound in Hc as (_ & ? & ?); [done|]. intros x. by apply (HT pb).
Qed.
Lemma register_good : keepsGood (register outOfRange config).
Proof.
  unfold register. apply keepsGood_bind; [good|]. intros c. case_match; [good|].
  eapply keepsGood_call; [intros; by eapply (re_register I HI)|]. intros [|[m|]] Hm; [good| |good].
  case_match; [good|]. destruct (Pb.ras_Config m) eqn:Hc; [|good]. apply receiveConfig_good. rewrite <- Hc. by apply Hm.
Qed.
Lemma fetchConfig_good : keepsGood (fetchConfig outOfRange config).
Proof.
  unfold fetchConfig. apply keepsGood_bind; [good|]. intros c. case_match; [good|].
  eapply keepsGood_call; [intros; by eapply (re_getConfig I HI)|]. intros [|[m|]] Hm; [good| |good].
  case_match; [good|]. destruct (Pb.gcs_Config m) eqn:Hc; [|good]. apply receiveConfig_good. rewrite <- Hc. by apply Hm.
Qed.
Lemma sendHeartbeat_good : keepsGood (sendHeartbeat outOfRange config).
Proof.
  unfold sendHeartbeat. apply keepsGood_bind; [good|]. intros c. case_match; [good|].
  apply keepsGood_plain; [intros; by eapply (re_heartbeat I HI)|]. pose proof fetchConfig_good. good.
Qed.
Lemma heartbeatLoop_good l : keepsGood (heartbeatLoop outOfRange config l).
Proof. pose proof sendHeartbeat_good. induction l as [|[] l IH]; simpl; good. Qed.

Definition typedStep (s : watchStep) : Prop := ∀ m, s = Received (Recv (Some m)) → typedSnapshot (Pb.wcs_Config m).
Lemma watchStream_good l : Forall typedStep l → keepsGood (watchStream outOfRange l).
Proof.
  induction 1 as [|s l Hs Hl IH]; [good|]. destruct s as [|e|[|e|[m|]]]; simpl; [good..| |good].
  apply keepsGood_bind; [|good]. destruct (Pb.wcs_Config m) eqn:Hc; [|good]. apply receiveConfig_good. rewrite <- Hc. by apply Hs.
Qed.
Lemma watch_good l : Forall typedStep l → keepsGood (watch outOfRange config l).
Proof.
  intros Hl. unfold watch. apply keepsGood_bind; [good|]. intros c. case_match; [good|]. case_match; [good|].
  apply keepsGood_plain; [intros; by eapply (re_watch I HI)|]. pose proof (watchStream_good l Hl). good.
Qed.
Lemma sleepWithStop_good d : keepsGood (sleepWithStop d).
Proof.
  unfold sleepWithStop. case_match; [good|]. intros [c e] [Hi Hc]. unfold on_snd. destruct (sleep d e) as [r e'] eqn:Hr.
  split; [|done]. by eapply (re_sleep I HI).
Qed.
Lemma attempts_good n b : keepsGood (attempts config n b).
Proof.
  revert b. induction n as [|n IH]; intros b; [good|]. simpl. apply keepsGood_plain; [intros; by eapply (re_dial I HI)|].
  intros r. destruct (match r with inl e => Some e | inr states => waitForReady states end); [|good].
  destruct (n =? 0)%nat; [good|]. apply keepsGood_bind; [apply sleepWithStop_good|]. intros slept.
  destruct (negb slept); [|good]. apply keepsGood_plain; [intros; by eapply (re_ctxErr I HI)|]. good.
Qed.
#[local] Abbreviation connect := (connect config readFile AppendCertsFromPEM LoadX509KeyPair).
Lemma connect_good : keepsGood connect.
Proof. unfold SyncClient.connect. case_match; [good|]. apply attempts_good. Qed.
Lemma watchRounds_good l :
  Forall (λ r, Forall typedStep (stream r)) l → keepsGood (watchRounds outOfRange config readFile AppendCertsFromPEM LoadX509KeyPair l).
Proof.
  pose proof connect_good. induction 1 as [|r l Hr Hl IH]; [good|]. simpl. case_match; [good|].
  apply keepsGood_bind; [by apply watch_good|]. intros [[e|]|]; [|good..]. case_match; [good|].
  apply keepsGood_bind; [unfold reconnect; good|]. intros _. apply keepsGood_bind; [apply sleepWithStop_good|]. good.
Qed.
Lemma cleanupFailedStart_good : keepsGood cleanupFailedStart.
Proof. unfold cleanupFailedStart. good. Qed.
Lemma Start_good : keepsGood (Start outOfRange config readFile AppendCertsFromPEM LoadX509KeyPair).
Proof. pose proof connect_good. pose proof register_good. pose proof cleanupFailedStart_good. unfold Start. good. Qed.
Lemma Stop_good : keepsGood Stop.
Proof. unfold Stop. good. Qed.
End Invariant.

(** What a program does with a client. *)
Inductive clientOp := DoStart | DoStop | DoWatch (l : list round) | DoHeartbeats (l : list tick).
Definition perform (o : clientOp) : M unit :=
  match o with
  | DoStart => _ ← Start outOfRange config readFile AppendCertsFromPEM LoadX509KeyPair; mret tt
  | DoStop => Stop
  | DoWatch l => watchLoop outOfRange config readFile AppendCertsFromPEM LoadX509KeyPair l
  | DoHeartbeats l => heartbeatLoop outOfRange config l
  end.
Definition performAll (l : list clientOp) (w : World (E := E)) : World (E := E) := foldl (λ w o, (perform o w).2) w l.
Definition typedOp (o : clientOp) : Prop := match o with DoWatch l => Forall (λ r, Forall typedStep (stream r)) l | _ => True end.
Lemma perform_good I o : respected I → typedOp o → keepsGood I (perform o).
Proof.
  intros HI Ho. destruct o as [| |l|l]; simpl.
  - apply keepsGood_bind; [by apply Start_good|]. intros. apply keepsGood_ret.
  - apply Stop_good.
  - apply keepsGood_bind; [by apply watchRounds_good|]. intros _. apply keepsGood_bind; [apply keepsGood_client|].
    intros. apply keepsGood_life.
  - by apply heartbeatLoop_good.
Qed.
Lemma performAll_good I l w : respected I → Forall typedOp l → good I w → good I (performAll l w).
Proof. intros HI Hl. revert w. induction Hl; intros w Hw; simpl; [done|]. apply IHHl. by apply perform_good. Qed.
End Client.

(** ** Both together: the calls of the client answered by the handlers *)
Section Together.
Context {E : Type} `{!ConfigSyncStore E}.
Variable authorize : bool.
Variable ctx : CallContext.
Variable handler : ConfigSnapshot → ST E error.
Variable dialing : string → ST E (err + list connState).
Variable sleeping : Z → ST E bool.
Variable contextErr : ST E error.
Variable startWatch : Pb.WatchConfigRequest → ST E error.

(** An error status as the client sees it. *)
Definition codeString (c : code) : string :=
  match c with InvalidArgument => "InvalidArgument" | Internal => "Internal" | Unauthenticated => "Unauthenticated"
             | PermissionDenied => "PermissionDenied" end.
Definition rpcError (e : rpcErr) : err :=
  match e with Status c msg => ErrMsg ("rpc error: code = " +:+ codeString c +:+ " desc = " +:+ msg) | StreamErr e => e end.
Definition answered {A} (m : ST E (rpcErr + A)) : ST E (err + option A) :=
  r ← m; mret (match r with inl e => inl (rpcError e) | inr a => inr (Some a) end).
#[local] Instance overService : Peer E := {|
  rpcRegisterAgent req := answered (RegisterAgent authorize ctx (Some req));
  rpcHeartbeat req := answered (Heartbeat authorize ctx (Some req));
  rpcGetConfig req := answered (handleGetConfig authorize ctx (Some req));
  rpcWatchConfig := startWatch;
  dial := dialing;
  configHandler := Some handler;
  sleep := sleeping;
  ctxErr := contextErr;
|}.

Definition withRevision (r : Z) (c : Client) : Client :=
  {| currentRevision := r; connected := connected c; hasConn := hasConn c; started := started c;
     cancelled := cancelled c; stopClosed := stopClosed c; doneClosed := doneClosed c; loops := loops c |}.

(** A store that is not being written, with a configuration its checks admitted. *)
Record quiet (e : E) (config : ConfigSnapshot) : Prop := {
  q_revision : GetRevision e = (inr (cs_Revision config), e);
  q_config : GetConfig e = (inr config, e);
  q_storable : Forall storable (cs_VIPs config);
  q_identified : identified (cs_VIPs config);
}.
(** A client that may call. *)
Record callable (cfg : AgentConfig.Config) (c : Client) : Prop := {
  ca_id : Config.ValidateAgentID "agent_id" (AgentConfig.ID (AgentConfig.Agent cfg)) = None;
  ca_authorized : authorizeAgentID authorize ctx (AgentConfig.ID (AgentConfig.Agent cfg)) = None;
  ca_connected : connected c = true;
  ca_conn : hasConn c = true;
}.
(** The handler was given the configuration: what becomes of client and environment. *)
Definition handedOn (config : ConfigSnapshot) (c : Client) (e : E) : error * (Client * E) :=
  let '(r, e') := handler (delivered config) e in
  match r with None => (None, (withRevision (cs_Revision config) c, e')) | Some x => (Some x, (c, e')) end.

Lemma admitted_callable {A B} cfg c (req : A) (agentID : A → string) (k : A → ST E (rpcErr + B)) :
  callable cfg c → agentID req = AgentConfig.ID (AgentConfig.Agent cfg) → admitted authorize ctx (Some req) agentID k = k req.
Proof. intros [Hv Ha _ _] Hi. unfold admitted, validateAgentID. by rewrite Hi, Hv, Ha. Qed.
Lemma receiveConfig_delivered a b config pb c e :
  convertProtoToConfig outOfRange (Some pb) = inr (delivered config) →
  receiveConfig (Peer0 := overService) outOfRange a b pb (c, e) =
  let '(r, w) := handedOn config c e in (errorf b <$> r, w).
Proof.
  intros H. unfold receiveConfig. rewrite H. unfold applyConfig, handedOn, mbind, ST_bind, on_snd. simpl.
  by destruct (handler (delivered config) e) as [[]].
Qed.

#[local] Arguments answered : simpl never.
#[local] Arguments Heartbeat : simpl never.
#[local] Arguments handleGetConfig : simpl never.
#[local] Arguments RegisterAgent : simpl never.
#[local] Arguments fetchConfig : simpl never.
#[local] Arguments convertProtoToConfig : simpl never.
#[local] Arguments receiveConfig : simpl never.

(** A heartbeat brings an agent up to date, and a registration starts it so:
    with the store at rest, a heartbeat of an agent at another revision gives the
    handler exactly the stored configuration and, if the handler takes it, moves the
    agent to its revision, so that the next heartbeat finds nothing to do; an agent
    at the store's revision is left alone.  A configuration the handler refuses
    leaves the revision, so the next heartbeat tries again; a registration fails
    with it. *)
Theorem heartbeat_syncs cfg c e config :
  quiet e config → callable cfg c →
  sendHeartbeat (Peer0 := overService) outOfRange cfg (c, e) =
    (if (currentRevision c =? cs_Revision config)%Z then (None, (c, e)) else (None, (handedOn config c e).2)) ∧
  register (Peer0 := overService) outOfRange cfg (c, e) =
    (let '(r, w) := handedOn config c e in (errorf "failed to apply initial configuration: " <$> r, w)).
Proof.
  intros [Hr Hc Hst Hid] Hcall. pose proof Hcall as [_ _ Hcn Hconn].
  destruct (delivery config Hst Hid) as (pb & Hpb & Hdec). split.
  - unfold sendHeartbeat, mbind, ST_bind, client, get, on_fst, on_snd. simpl. rewrite Hcn, Hconn. simpl.
    unfold answered, Heartbeat, mbind, ST_bind. rewrite (admitted_callable cfg c) by done. rewrite Hr. simpl.
    destruct (Z.eqb_spec (currentRevision c) (cs_Revision config)) as [|Hne]; [done|]. simpl.
    unfold fetchConfig, mbind, ST_bind, client, get, on_fst, on_snd. simpl. rewrite Hcn, Hconn. simpl.
    unfold answered, handleGetConfig, mbind, ST_bind. rewrite (admitted_callable cfg c) by done. rewrite Hr.
    cbn [Pb.gcr_CurrentRevision]. rewrite (proj2 (Z.eqb_neq _ _) Hne), andb_false_r, Hc, (proj2 (Z.eqb_neq _ _) Hne), andb_false_r, Hpb.
    cbn [mret ST_ret Pb.gcs_Unchanged Pb.gcs_Config].
    rewrite (receiveConfig_delivered _ _ config) by done. by destruct (handedOn config c e).
  - unfold register, mbind, ST_bind, client, get, on_fst, on_snd. simpl. rewrite Hconn. simpl.
    unfold answered, RegisterAgent, mbind, ST_bind. rewrite (admitted_callable cfg c) by done. rewrite Hc, Hpb. simpl.
    by rewrite (receiveConfig_delivered _ _ config).
Qed.
End Together.
End Delivery.

(** ** The stream: no event is left without a fresh configuration *)
Section Stream.
Context {CS : Codec (option HCConfig)} {E : Type} `{!ConfigSyncStore E}.
Variable Send : Pb.WatchConfigResponse → ST E error.

Lemma coalesceWatchEvents_rest l l' :
  coalesceWatchEvents l = (Returned (false, None), l') →
  ∃ pre x, l = pre ++ x :: l' ∧ ∀ event, x ≠ Event event.
Proof.
  induction l as [|[|event| |] l IH]; simpl; intros H; simplify_eq.
  - destruct (validateWatchEvent event); [done|]. destruct (IH H) as (pre & x & -> & Hx). by exists (Event event :: pre), x.
  - by exists [], EventsClosed.
  - by exists [], TimerFired.
Qed.
(** What ends in an event and a quiet window still does after such a prefix. *)
Lemma quietEnd_suffix pre x l pre' event :
  pre ++ x :: l = pre' ++ [Event event; TimerFired] → (∀ event, x ≠ Event event) →
  l = [] ∨ ∃ pre'', l = pre'' ++ [Event event; TimerFired].
Proof.
  intros H Hx. destruct l as [|y l] using rev_ind; [by left|]. right. clear IHl.
  replace (pre ++ x :: l ++ [y]) with ((pre ++ x :: l) ++ [y]) in H by (by rewrite <- app_assoc).
  replace (pre' ++ [Event event; TimerFired]) with ((pre' ++ [Event event]) ++ [TimerFired]) in H by (by rewrite <- app_assoc).
  apply app_inj_tail in H as [H ->]. destruct l as [|z l] using rev_ind.
  - apply app_inj_tail in H as [_ ->]. by destruct (Hx event).
  - clear IHl. replace (pre ++ x :: l ++ [z]) with ((pre ++ x :: l) ++ [z]) in H by (by rewrite <- app_assoc).
    apply app_inj_tail in H as [_ ->]. exists l. by rewrite <- app_assoc.
Qed.
(** If the last that happened is an event and a quiet window, the last thing the
    handler did was to read the configuration and send it. *)
Lemma watchLoop_delivers n l pre event (e e' : E) :
  length l ≤ n → l = pre ++ [Event event; TimerFired] → SyncService.watchLoop Send n l e = (Waiting, e') →
  ∃ e1, sendUpdate Send e1 = (None, e').
Proof.
  revert l pre e. induction n as [|n IH]; intros l pre e Hn Hl H; [destruct l; [by destruct pre|simpl in Hn; lia]|].
  assert (∀ l', length l' ≤ n → (l' = [] ∨ ∃ pre, l' = pre ++ [Event event; TimerFired]) →
    ∀ e2, sendUpdate Send e = (None, e2) ∨ l' ≠ [] → SyncService.watchLoop Send n l' e2 = (Waiting, e') → ∃ e1, sendUpdate Send e1 = (None, e')) as Hrest.
  { intros l' Hlen [->|[pre2 ->]] e2 Hs Hw; [|by eapply IH]. destruct Hs as [Hs|[]]; [|done]. destruct n; injection Hw as <-; eauto. }
  destruct l as [|[|ev| |] l]; [by destruct pre|done| |done|].
  - cbn [SyncService.watchLoop] in H. destruct (validateWatchEvent ev); [done|].
    destruct (coalesceWatchEvents l) as [[[[] [x|]]|] l'] eqn:Hco; try done.
    + apply coalesceWatchEvents_rest in Hco as (p2 & x & -> & Hx). unfold mbind, ST_bind in H.
      destruct (sendUpdate Send e) as [[x1|] e2] eqn:Hs; [done|]. eapply (Hrest l'); [| |by left|exact H].
      { simpl in Hn. rewrite length_app in Hn. simpl in Hn. lia. }
      by apply (quietEnd_suffix (Event ev :: p2) x l' pre event).
    + exfalso. clear -Hl Hco. destruct pre as [|? pre]; simplify_eq/=.
      revert Hco. induction pre as [|[|ev2| |] pre IHp]; simpl; try done; destruct (validateWatchEvent _); done || auto.
  - cbn [SyncService.watchLoop] in H. destruct pre as [|? pre]; [done|]. simplify_eq/=. eapply Hrest; [| |right|exact H]; [lia|eauto|by destruct pre].
Qed.
End Stream.
(** Retries wait longer each time, up to the maximum. *)
Lemma nextBackoff_bounds cfg b :
  let most := AgentConfig.MaxRetryBackoff (AgentConfig.Controller cfg) in
  (0 < b <= most)%Z → (most < 2 ^ 62)%Z → (b <= nextBackoff cfg b <= most)%Z.
Proof.
  intros most Hb Hm. unfold nextBackoff. rewrite wrapS_small by lia. fold most.
  destruct (Z.ltb_spec most (b * 2)); lia.
Qed.

(** ** Who may call *)
Lemma firstOf_ok l : Text.firstOf l = None ↔ Forall (λ e, e = None) l.
Proof. induction l as [|[e|] l IH]; simpl; [naive_solver| |]; rewrite Forall_cons; naive_solver. Qed.
Lemma refuse_ok b msg : Text.refuse b msg = None ↔ b = false.
Proof. by destruct b. Qed.

Section Security.
Import ControllerConfig.
Context {H : Machine} {D : StrictDecoder ControllerConfig.Config}.
Variable Parse : string → option URL.
Variable Sum256 : list Z → list Z.
Variable LoadX509KeyPair : string → string → error.
Variable readFile : string → err + string.
Variable AppendCertsFromPEM : string → bool.

Lemma LoadConfig_validated path cfg : ControllerConfig.LoadConfig Parse path = inr cfg → ControllerConfig.validate Parse cfg = None.
Proof. unfold LoadConfig. intros. repeat (case_match; simplify_eq/=); done. Qed.
(** What a loaded configuration guarantees of an address that is not the host's own. *)
Lemma validated_grpc cfg : ControllerConfig.validate Parse cfg = None → isLoopbackBindHost (g_Host (GRPC cfg)) = false →
  g_TLS (GRPC cfg) = true ∧
  (Text.isSet (g_APIKey (GRPC cfg)) = true ∧ (16 <= length (bytes_of (g_APIKey (GRPC cfg))))%nat ∨
   g_RequireClientCert (GRPC cfg) = true ∧ g_AuthorizeAgentIDWithClientCert (GRPC cfg) = true).
Proof.
  unfold ControllerConfig.validate. rewrite firstOf_ok. intros HV Hopen. rewrite Hopen in HV. simpl in HV.
  rewrite !Forall_cons in HV. destruct_and?. rewrite refuse_ok in *.
  repeat match goal with X : _ && _ = false |- _ => revert X end.
  destruct (g_TLS (GRPC cfg)); [|naive_solver].
  destruct (Text.isSet (g_APIKey (GRPC cfg))) eqn:Hk.
  - intros. split; [done|]. left. split; [done|]. unfold Text.isSet in Hk. apply bool_decide_eq_true in Hk.
    match goal with X : Text.validateAPIKey _ (g_APIKey _) = None |- _ => revert X end. unfold Text.validateAPIKey.
    rewrite bool_decide_false by done. case_match; [done|]. destruct (Nat.ltb_spec (length (bytes_of (g_APIKey (GRPC cfg)))) 16); [done|lia].
  - intros. split; [done|]. right. by destruct (g_RequireClientCert (GRPC cfg)), (g_AuthorizeAgentIDWithClientCert (GRPC cfg)).
Qed.

(** The caller proved the key, or a certificate of the agent it names. *)
Definition authenticated (g : GRPCConfig) (o : ServerOptions) (ctx : CallContext) (agentID : option string) : Prop :=
  (APIKeyMatches Sum256 (extractIncomingAPIKey ctx) (bytes_of (g_APIKey g)) = true ∧ (16 <= length (bytes_of (g_APIKey g)))%nat) ∨
  (so_TLS o = Some RequireAndVerifyClientCert ∧
   ∃ id certs cert, agentID = Some id ∧ peer ctx = Some (Some certs) ∧ cert ∈ certs ∧ certificateMatchesAgentID cert id = true).
(** Answered with an error, with the store as it was. *)
Definition refused {E A} (m : ST E (rpcErr + A)) (e : E) : Prop := ∃ x, m e = (inl x, e).

Lemma admitted_authorized {E A B} g ctx (req : option A) (agentID : A → string) (k : A → ST E (rpcErr + B)) e :
  g_AuthorizeAgentIDWithClientCert g = true →
  refused (admitted (g_AuthorizeAgentIDWithClientCert g) ctx req agentID k) e ∨
  ∃ r certs cert, req = Some r ∧ peer ctx = Some (Some certs) ∧ cert ∈ certs ∧ certificateMatchesAgentID cert (agentID r) = true.
Proof.
  intros ->. destruct req as [r|]; [|left; by eexists]. unfold admitted. destruct (validateAgentID _); [left; by eexists|].
  unfold authorizeAgentID, authorizeAgentIDWithClientCert.
  destruct (peer ctx) as [[certs|]|] eqn:Hp; [|left; by eexists..].
  destruct (existsb _ certs) eqn:Hx; [|left; by eexists]. right. apply existsb_exists in Hx as (cert & Hin & Hm).
  exists r, certs, cert. by rewrite list_elem_of_In.
Qed.
Lemma intercepted {E A} g (ctx : CallContext) (h : ST E (rpcErr + A)) e :
  Text.isSet (g_APIKey g) = true →
  refused (apiKeyUnaryServerInterceptor Sum256 (g_APIKey g) ctx h) e ∨
  APIKeyMatches Sum256 (extractIncomingAPIKey ctx) (bytes_of (g_APIKey g)) = true.
Proof.
  intros Hk. unfold Text.isSet in Hk. apply bool_decide_eq_true in Hk.
  unfold apiKeyUnaryServerInterceptor, authenticateIncomingContext. rewrite bool_decide_false by done.
  destruct (APIKeyMatches _ _ _); [by right|left; by eexists].
Qed.
Lemma grpcServerOptions_ok g o : grpcServerOptions LoadX509KeyPair readFile AppendCertsFromPEM g = inr o →
  so_APIKey o = (if Text.isSet (g_APIKey g) then Some (g_APIKey g) else None) ∧
  (g_TLS g = true → so_TLS o ≠ None ∧ (g_RequireClientCert g = true → so_TLS o = Some RequireAndVerifyClientCert)).
Proof.
  unfold grpcServerOptions. destruct (_ && _); [done|]. destruct (g_TLS g); simpl; [|by intros [= <-]].
  destruct (serverTLSConfig _ _ _ g) as [|auth] eqn:Ht; [done|]. intros [= <-]. simpl. split_and!; [done..|]. intros _.
  split; [done|]. intros Hr. unfold serverTLSConfig in Ht. rewrite Hr in Ht. destruct (LoadX509KeyPair _ _); [done|].
  rewrite bool_decide_ne_true in Ht. destruct (bool_decide (g_ClientCAFile g = "")); [done|]. simpl in Ht.
  by repeat (case_match; simplify_eq).
Qed.
Lemma guarded_call {E A B} cfg o ctx (req : option A) (agentID : A → string) (k : A → ST E (rpcErr + B)) e :
  ControllerConfig.validate Parse cfg = None → isLoopbackBindHost (g_Host (GRPC cfg)) = false →
  grpcServerOptions LoadX509KeyPair readFile AppendCertsFromPEM (GRPC cfg) = inr o →
  refused (serveUnary Sum256 o ctx (admitted (g_AuthorizeAgentIDWithClientCert (GRPC cfg)) ctx req agentID k)) e ∨
  authenticated (GRPC cfg) o ctx (agentID <$> req).
Proof.
  intros Hv Hopen Ho. destruct (validated_grpc cfg Hv Hopen) as [Ht Hk]. destruct (grpcServerOptions_ok _ _ Ho) as [Hkey Htls].
  destruct (Htls Ht) as [_ Hreq]. unfold serveUnary. rewrite Hkey. destruct Hk as [[Hk Hlen]|[Hr Ha]].
  - rewrite Hk. destruct (intercepted (GRPC cfg) ctx (admitted (g_AuthorizeAgentIDWithClientCert (GRPC cfg)) ctx req agentID k) e Hk); [by left|].
    right. by left.
  - destruct (Text.isSet (g_APIKey (GRPC cfg))) eqn:Hset.
    + unfold apiKeyUnaryServerInterceptor. destruct (authenticateIncomingContext _ _ _); [left; by eexists|].
      destruct (admitted_authorized (GRPC cfg) ctx req agentID k e Ha) as [?|(r & certs & cert & -> & ?)]; [by left|].
      right. right. split; [auto|]. simpl. naive_solver.
    + destruct (admitted_authorized (GRPC cfg) ctx req agentID k e Ha) as [?|(r & certs & cert & -> & ?)]; [by left|].
      right. right. split; [auto|]. simpl. naive_solver.
Qed.

(** C32. An address other hosts can reach is never served without authentication.
    With a controller configuration that loaded and whose gRPC address is not the
    host's own, the server is started with TLS and each of the four calls either is
    answered with an error, the store untouched, or comes from a caller that showed
    the API key of at least 16 bytes or a verified certificate that names the agent
    of the request.  And an agent sends its key over a verified TLS connection
    only. *)
Theorem open_calls_authenticated {E} `{!ConfigSyncStore E} {CS : Codec (option HCConfig)} path cfg o ctx send
    (e : E) getReq watchReq regReq beatReq l :
  ControllerConfig.LoadConfig Parse path = inr cfg → isLoopbackBindHost (g_Host (GRPC cfg)) = false →
  grpcServerOptions LoadX509KeyPair readFile AppendCertsFromPEM (GRPC cfg) = inr o →
  let certs := g_AuthorizeAgentIDWithClientCert (GRPC cfg) in
  let auth id := authenticated (GRPC cfg) o ctx id in
  so_TLS o ≠ None ∧
  (refused (serveUnary Sum256 o ctx (handleGetConfig certs ctx getReq)) e ∨ auth (Pb.gcr_AgentId <$> getReq)) ∧
  (refused (serveStream Sum256 o ctx (WatchConfig certs send ctx watchReq l)) e ∨ auth (Pb.wcr_AgentId <$> watchReq)) ∧
  (refused (serveUnary Sum256 o ctx (RegisterAgent certs ctx regReq)) e ∨ auth (Pb.rar_AgentId <$> regReq)) ∧
  (refused (serveUnary Sum256 o ctx (Heartbeat certs ctx beatReq)) e ∨ auth (Pb.hbr_AgentId <$> beatReq)) ∧
  (∀ acfg d, dialOptions acfg readFile AppendCertsFromPEM LoadX509KeyPair = inr d → do_Authorization d ≠ None →
     ∃ t, do_TLS d = Some t ∧ InsecureSkipVerify t = false).
Proof.
  intros HL Hopen Ho certs auth. apply LoadConfig_validated in HL.
  pose proof (λ A B, @guarded_call E A B cfg o ctx) as HG.
  split_and!; [|by apply HG|by apply HG|by apply HG|by apply HG|].
  - destruct (validated_grpc cfg HL Hopen) as [Ht _]. by apply (grpcServerOptions_ok _ _ Ho).
  - intros acfg d Hd Hauth. unfold dialOptions in Hd. unfold outgoingAPIKey in Hd.
    destruct (Text.isSet _) eqn:Hk in Hd.
    + destruct (AgentConfig.tls_Enabled _); [|done]. simpl in Hd. destruct (AgentConfig.tls_InsecureSkipVerify _) eqn:Hi; [done|].
      destruct (loadTLSConfig _ _ _ _) as [|t] eqn:Ht; [done|]. simplify_eq/=. exists t. split; [done|].
      unfold loadTLSConfig in Ht. repeat (case_match; simplify_eq/=); done.
    + exfalso. apply Hauth. repeat (case_match; simplify_eq/=); done.
Qed.
End Security.
End SyncSafety.

(** ** A store, a configuration and an agent *)
Module SyncExamples.
Import Models Validation SyncService SyncClient SyncSafety.

#[local] Instance guts : HttpGuts :=
  {| ValidHostHeader _ := true; ValidHeaderFieldName _ := true; ValidHeaderFieldValue _ := true |}.
(** The settings of a check of port 80, and a codec that knows this one text. *)
Definition port80 : HCConfig := {["port" := Float (Duration.float64 80)]}.
#[local] Instance settings : Codec (option HCConfig) := {|
  marshal c := match map_to_list <$> c with Some [("port", Float _)] => inr "{port: 80}" | _ => inl (ErrMsg "json") end;
  unmarshal s := if bool_decide (s = "{port: 80}") then inr (Some port80) else inl (ErrMsg "json");
|}.
#[local] Instance settings_laws : SettingsCodec.
Proof.
  intros text c H. simpl in H. case_bool_decide; [|done]. injection H as <-. exists "{port: 80}". by vm_compute.
Qed.
Definition outOfRange (_ : spec_float) : Z := 0.

Definition check : HealthCheck :=
  {| h_ID := "check-1"; h_VIPID := "vip-1"; h_Type := HCTypeTCP; h_IntervalSec := 5; h_TimeoutSec := 2; h_RiseCount := 2; h_FallCount := 3;
     h_Config := Some port80; h_CreatedAt := Some 1700000000000000000%Z; h_UpdatedAt := None |}.
Definition backends : list Backend :=
  [{| b_ID := "b-1"; b_VIPID := "vip-1"; b_IP := "10.0.0.1"; b_Weight := 10; b_CreatedAt := Some 17%Z; b_UpdatedAt := Some 18%Z |};
   {| b_ID := "b-2"; b_VIPID := "vip-1"; b_IP := "10.0.0.2"; b_Weight := 100; b_CreatedAt := None; b_UpdatedAt := None |}].
Definition vip : VIP :=
  {| v_ID := "vip-1"; v_VIP := "192.0.2.1"; v_Port := 443; v_Protocol := ProtocolTCP; v_LBMethod := ""; v_EncapType := EncapTypeL3DSR;
     v_DSCP := Some 10%Z; v_CreatedAt := Some 1700000000000000000%Z; v_UpdatedAt := None; v_HealthCheck := Some check; v_Backends := [] |}.
Definition config : ConfigSnapshot :=
  {| cs_Revision := 7; cs_VIPs := [{| vc_VIP := vip; vc_HealthCheck := Some check; vc_Backends := backends |}] |}.
Lemma config_storable : Forall (storable outOfRange) (cs_VIPs config).
Proof.
  repeat constructor; try (by vm_compute).
  - by intros d [= <-].
  - intros hc m [= <-] [= <-]. by exists "{port: 80}".
Defined.
Lemma config_identified : identified (cs_VIPs config).
Proof. apply validateConfigIdentity_ok. by vm_compute. Defined.

Lemma sync_roundtrip_witness :
  (∃ pb, convertConfigToProto config = inr pb ∧ convertProtoToConfig outOfRange (Some pb) = inr (delivered config)) ∧
  delivered config ≠ config.
Proof.
  split; [|by vm_compute]. exact (proj1 (sync_roundtrip outOfRange) config config_storable config_identified).
Defined.

(** The environment: what is stored, and what the handler was given. *)
Definition Stored : Type := ConfigSnapshot * list ConfigSnapshot.
#[local] Instance store : ConfigSyncStore Stored := {|
  GetRevision e := (inr (cs_Revision e.1), e); GetConfig e := (inr e.1, e); Watch e := (inr tt, e) |}.
Definition accept (c : ConfigSnapshot) : ST Stored error := λ e, (None, (e.1, e.2 ++ [c])).
Definition agentConfig : AgentConfig.Config :=
  {| AgentConfig.Agent := {| AgentConfig.ID := "agent-1"; AgentConfig.Metadata := ∅; AgentConfig.Version := "1"; AgentConfig.ReconcileInterval := 30;
                             AgentConfig.HeartbeatInterval := 10 |};
     AgentConfig.Controller := {| AgentConfig.Address := "controller:50051"; AgentConfig.APIKey := "";
                                  AgentConfig.TLS := AgentConfig.Build_TLSConfig false "" "" "" false; AgentConfig.Timeout := 10;
                                  AgentConfig.MaxRetries := 5; AgentConfig.RetryBackoff := 1; AgentConfig.MaxRetryBackoff := 30 |};
     AgentConfig.VPP := AgentConfig.Build_VPPConfig "" 1 1 0 (AgentConfig.Build_VPPLBConfig "GRE4" 0 "CLUSTERIP" 1024 false);
     AgentConfig.FRR := AgentConfig.Build_FRRConfig false "" ""; AgentConfig.HealthCheck := AgentConfig.Build_HealthCheckConfig 4 3 100;
     AgentConfig.Log := AgentConfig.Build_LogConfig "info" "json" "stdout"; AgentConfig.Metrics := AgentConfig.Build_MetricsConfig false "" "" 10 |}.
Definition ctx : CallContext := {| metadata := None; peer := None |}.
Definition linked : Client := Build_Client 3 true true true false false false true.
#[local] Abbreviation peerOf := (overService false ctx accept (λ _ e, (inr [Ready], e)) (λ _ e, (true, e)) (λ e, (None, e)) (λ _ e, (None, e))).

Lemma heartbeat_syncs_witness :
  sendHeartbeat (Peer0 := peerOf) outOfRange agentConfig (linked, (config, [])) =
  (None, (withRevision 7 linked, (config, [delivered config]))).
Proof.
  refine (proj1 (heartbeat_syncs outOfRange false ctx accept _ _ _ _ agentConfig linked (config, []) config _ _)).
  - constructor; [done|done|exact config_storable|exact config_identified].
  - constructor; by vm_compute.
Defined.

(** A controller that listens on every address, with a key. *)
Definition controllerConfig : ControllerConfig.Config :=
  {| ControllerConfig.Server := ControllerConfig.Build_ServerConfig "" 0 "" "" false "" "" 0 0 0 0 0 0 0 [];
     ControllerConfig.DataStore :=
       {| ControllerConfig.ds_Type := "etcd";
          ControllerConfig.Etcd := ControllerConfig.Build_EtcdConfig ["http://etcd:2379"] "/arca" false "" "" "" 0 0;
          ControllerConfig.MySQL := ControllerConfig.noMySQL |};
     ControllerConfig.GRPC := ControllerConfig.Build_GRPCConfig "0.0.0.0" 0 "0123456789abcdef" "" true "cert.pem" "key.pem" "" false false;
     ControllerConfig.Log := ControllerConfig.Build_LogConfig "" "" |}.
#[local] Instance machine : Machine := {|
  Getenv _ := ""; Hostname := inr "host"; ReadFile _ := inr "";
  DecodeNode _ n := match n with 0 => Yaml.Yaml.Decoded (Yaml.Yaml.mkNode Yaml.Yaml.MappingNode "!!map" "" 1 []) | _ => Yaml.Yaml.AtEOF end |}.
#[local] Instance decoder : StrictDecoder ControllerConfig.Config := λ _, inr controllerConfig.
Definition parseURL (s : string) : option ControllerConfig.URL :=
  if bool_decide (s = "http://localhost:3000") then Some (ControllerConfig.Build_URL "http" false "localhost:3000" "localhost" "" "" "") else None.
Definition loaded : ControllerConfig.Config :=
  match ControllerConfig.LoadConfig parseURL "controller.yaml" with inr c => c | inl _ => controllerConfig end.
Definition withKey (key : string) : CallContext :=
  {| metadata := Some {| md_authorization := ["Bearer " +:+ key]; md_xAPIKey := [] |}; peer := None |}.
Definition options : ServerOptions := {| so_APIKey := Some "0123456789abcdef"; so_TLS := Some NoClientCert |}.
Definition beat : Pb.HeartbeatRequest := {| Pb.hbr_AgentId := "agent-1"; Pb.hbr_CurrentRevision := 3 |}.

(** The right key gets an answer, another one does not. *)
Lemma open_calls_authenticated_witness :
  (refused (serveUnary id options (withKey "guess") (Heartbeat false (withKey "guess") (Some beat))) (config, []) ∨
   authenticated id (ControllerConfig.GRPC loaded) options (withKey "guess") (Some "agent-1")) ∧
  serveUnary id options (withKey "guess") (Heartbeat false (withKey "guess") (Some beat)) (config, []) =
    (inl (Status Unauthenticated "unauthenticated"), (config, [])) ∧
  serveUnary id options (withKey "0123456789abcdef") (Heartbeat false (withKey "0123456789abcdef") (Some beat)) (config, []) =
    (inr {| Pb.hbs_Success := true; Pb.hbs_NewRevision := 7; Pb.hbs_ResyncRequired := true |}, (config, [])).
Proof.
  split_and!; [|by vm_compute..].
  destruct (open_calls_authenticated parseURL id (λ _ _, None) (λ _, inr "") (λ _, true)
    "controller.yaml" loaded options (withKey "guess") (λ _ e, (None, e)) (config, []) None None None (Some beat) [])
    as (_ & _ & _ & _ & H & _); [by vm_compute..|]. exact H.
Defined.
End SyncExamples.
