(* ===== verification/Api.v ===== *)
(** * The REST API of the version 1 controller (internal/controller/api)

    The handlers, the middleware and the routes.  A body is the JSON value the
    decoder reads; requests are decoded from it as encoding/json does, and the
    binding tags are checked as the validator documents.  The store is the class
    [ControllerStore]; a write returns the resource as the store filled it in. *)

From Stdlib Require Import SpecFloat.
From stdpp Require Import base tactics list gmap strings pretty.
From S2P Require Import Prelude Types Net Store Validation Duration Config Models Etcd V1Config ControllerConfig Sync.

Module Api.
Import Models Validation SyncService.

(** ** JSON: an object is its fields in order, duplicates included *)
Inductive json :=
  | JNull
  | JBool (b : bool)
  | JNum (text : string)
  | JStr (s : string)
  | JArr (l : list json)
  | JObj (m : list (string * json)).
Abbreviation fieldsMap := (gmap string json).
(** Decoded into a map, the last of two fields with one name stays. *)
Definition fieldsOf (m : list (string * json)) : fieldsMap := foldl (λ r p, <[p.1 := p.2]> r) ∅ m.

(** ** Requests *)
Record HealthCheckRequest := {
  hr_Type : string; hr_Interval : string; hr_Timeout : string;
  hr_IntervalSeconds : option Z; hr_TimeoutSeconds : option Z; hr_RiseCount : Z; hr_FallCount : Z; hr_Config : option HCConfig }.
Record CreateVIPRequest := {
  cv_VIP : string; cv_Port : Z; cv_Protocol : string; cv_LBMethod : string; cv_EncapType : string;
  cv_DSCP : option Z; cv_HealthCheck : option HealthCheckRequest }.
Record UpdateVIPRequest := {
  uv_VIP : option string; uv_Port : option Z; uv_Protocol : option string; uv_LBMethod : option string;
  uv_EncapType : option string; uv_DSCP : option Z; uv_HealthCheck : option HealthCheckRequest }.
Record CreateBackendRequest := { cb_VIPID : string; cb_IP : string; cb_Weight : Z }.
Record UpdateBackendRequest := { ub_IP : option string; ub_Weight : option Z }.

Inductive bodyRead := TooLarge | Unreadable (e : err) | Parsed (body : json).
Record Request := {
  Method : string; Path : list string; Query_vip_id : string;
  Authorization : list string; XAPIKey : list string; Origin : string;
  ContentLength : Z; BodySize : Z; Body : option (err + json) }.

(** ** Responses *)
Inductive content :=
  | Error (msg : string) | OneVIP (v : VIP) | VIPs (l : list VIP) | OneBackend (b : Backend) | Backends (l : list Backend)
  | Revision (r : Z) | Healthy | ReadyNow | NotReady | NoContent.
Record Response := { status : Z; content_ : content; headers : list (string * string) }.
Definition respond (status : Z) (c : content) : Response := {| status := status; content_ := c; headers := [] |}.
Definition badRequest (msg : string) : Response := respond 400 (Error msg).

(** ** Decoding, with the message of the library for a field that does not fit *)
Section Handlers.
Variable mismatch : string → err.
Variable ParseFloat : string → option spec_float.

Definition decodeString (f : fieldsMap) (name : string) : err + string :=
  match f !! name with None | Some JNull => inr "" | Some (JStr s) => inr s | Some _ => inl (mismatch name) end.
Definition decodeStringPtr (f : fieldsMap) (name : string) : err + option string :=
  match f !! name with None | Some JNull => inr None | Some (JStr s) => inr (Some s) | Some _ => inl (mismatch name) end.
Definition decodeIntPtr (f : fieldsMap) (name : string) : err + option Z :=
  match f !! name with
  | None | Some JNull => inr None
  | Some (JNum text) => match Etcd.ParseInt text with Some z => inr (Some z) | None => inl (mismatch name) end
  | Some _ => inl (mismatch name)
  end.
Definition decodeInt (f : fieldsMap) (name : string) : err + Z := z ←! decodeIntPtr f name; inr (default 0%Z z).
(** [*uint8]: digits only. *)
Definition decodeUint8Ptr (f : fieldsMap) (name : string) : err + option Z :=
  z ←! decodeIntPtr f name;
  match z, f !! name with
  | Some z, Some (JNum text) =>
      if ((z <? 0) || (255 <? z))%Z || bool_decide (head (bytes_of text) = Some 45%Z) then inl (mismatch name) else inr (Some z)
  | _, _ => inr z
  end.
(** Into [interface{}]: numbers become float64. *)
Fixpoint decodeAny (j : json) : err + any :=
  match j with
  | JNull => inr Nil
  | JBool b => inr (Bool b)
  | JNum text => match ParseFloat text with Some f => inr (Float f) | None => inl (mismatch text) end
  | JStr s => inr (Str s)
  | JArr l =>
      (fix go (l : list json) (acc : list any) : err + any :=
         match l with
         | [] => inr (Slice (reverse acc))
         | j :: l => match decodeAny j with inl e => inl e | inr v => go l (v :: acc) end
         end) l []
  | JObj m =>
      (fix go (m : list (string * json)) (acc : list (string * any)) : err + any :=
         match m with
         | [] => inr (Object (reverse acc))
         | (k, j) :: m => match decodeAny j with inl e => inl e | inr v => go m ((k, v) :: acc) end
         end) m []
  end.
Definition decodeHCConfig (f : fieldsMap) (name : string) : err + option HCConfig :=
  match f !! name with
  | None | Some JNull => inr None
  | Some (JObj m) =>
      match decodeAny (JObj m) with
      | inl e => inl e
      | inr (Object m) => inr (Some (foldl (λ r p, <[p.1 := p.2]> r) ∅ m))
      | inr _ => inl (mismatch name)
      end
  | Some _ => inl (mismatch name)
  end.
Definition decodeHealthCheck (f : fieldsMap) (name : string) : err + option HealthCheckRequest :=
  match f !! name with
  | None | Some JNull => inr None
  | Some (JObj m) =>
      let f := fieldsOf m in
      type ←! decodeString f "type"; interval ←! decodeString f "interval"; timeout ←! decodeString f "timeout";
      intervalSeconds ←! decodeIntPtr f "interval_seconds"; timeoutSeconds ←! decodeIntPtr f "timeout_seconds";
      rise ←! decodeInt f "rise_count"; fall ←! decodeInt f "fall_count"; config ←! decodeHCConfig f "config";
      inr (Some {| hr_Type := type; hr_Interval := interval; hr_Timeout := timeout; hr_IntervalSeconds := intervalSeconds;
                   hr_TimeoutSeconds := timeoutSeconds; hr_RiseCount := rise; hr_FallCount := fall; hr_Config := config |})
  | Some _ => inl (mismatch name)
  end.

(** ** Binding tags.  [omitempty] skips a zero value, or a nil pointer. *)
Definition between (lo hi v : Z) : bool := ((lo <=? v) && (v <=? hi))%Z.
Definition omit {A} (zero : A → bool) (ok : A → bool) (v : A) : bool := zero v || ok v.
Definition ptr {A} (ok : A → bool) (v : option A) : bool := match v with None => true | Some v => ok v end.
Definition isIP (s : string) : bool := bool_decide (is_Some (ParseIP s)).
Definition oneof (l : list string) (s : string) : bool := bool_decide (s ∈ l).
Definition EncapTypes : list string := ["GRE4"; "GRE6"; "L3DSR"; "NAT4"; "NAT6"].
Definition healthCheckTags (r : HealthCheckRequest) : bool :=
  Text.isSet (hr_Type r) && ptr (between 1 2147483647) (hr_IntervalSeconds r) && ptr (between 1 2147483647) (hr_TimeoutSeconds r) &&
  omit (Z.eqb 0) (between 1 2147483647) (hr_RiseCount r) && omit (Z.eqb 0) (between 1 2147483647) (hr_FallCount r).
Definition createVIPTags (r : CreateVIPRequest) : bool :=
  isIP (cv_VIP r) && between 1 65535 (cv_Port r) && oneof ["TCP"; "UDP"] (cv_Protocol r) &&
  omit (negb ∘ Text.isSet) (oneof ["maglev"]) (cv_LBMethod r) && omit (negb ∘ Text.isSet) (oneof EncapTypes) (cv_EncapType r) &&
  ptr (between 0 63) (cv_DSCP r) && ptr healthCheckTags (cv_HealthCheck r).
Definition updateVIPTags (r : UpdateVIPRequest) : bool :=
  ptr isIP (uv_VIP r) && ptr (between 1 65535) (uv_Port r) && ptr (oneof ["TCP"; "UDP"]) (uv_Protocol r) &&
  ptr (oneof ["maglev"]) (uv_LBMethod r) && ptr (oneof EncapTypes) (uv_EncapType r) && ptr (between 0 63) (uv_DSCP r) &&
  ptr healthCheckTags (uv_HealthCheck r).
Definition createBackendTags (r : CreateBackendRequest) : bool :=
  Text.isSet (cb_VIPID r) && isIP (cb_IP r) && omit (Z.eqb 0) (between 1 100) (cb_Weight r).
Definition updateBackendTags (r : UpdateBackendRequest) : bool := ptr isIP (ub_IP r) && ptr (between 1 100) (ub_Weight r).

Definition tagged {A} (ok : A → bool) (r : A) : err + A := if ok r then inr r else inl (mismatch "").
Definition bindCreateVIP (f : fieldsMap) : err + CreateVIPRequest :=
  vip ←! decodeString f "vip"; port ←! decodeInt f "port"; protocol ←! decodeString f "protocol"; method ←! decodeString f "lb_method";
  encap ←! decodeString f "encap_type"; dscp ←! decodeUint8Ptr f "dscp"; hc ←! decodeHealthCheck f "health_check";
  tagged createVIPTags {| cv_VIP := vip; cv_Port := port; cv_Protocol := protocol; cv_LBMethod := method; cv_EncapType := encap;
                          cv_DSCP := dscp; cv_HealthCheck := hc |}.
Definition bindUpdateVIP (f : fieldsMap) : err + UpdateVIPRequest :=
  vip ←! decodeStringPtr f "vip"; port ←! decodeIntPtr f "port"; protocol ←! decodeStringPtr f "protocol";
  method ←! decodeStringPtr f "lb_method"; encap ←! decodeStringPtr f "encap_type"; dscp ←! decodeUint8Ptr f "dscp";
  hc ←! decodeHealthCheck f "health_check";
  tagged updateVIPTags {| uv_VIP := vip; uv_Port := port; uv_Protocol := protocol; uv_LBMethod := method; uv_EncapType := encap;
                          uv_DSCP := dscp; uv_HealthCheck := hc |}.
Definition bindCreateBackend (f : fieldsMap) : err + CreateBackendRequest :=
  vipID ←! decodeString f "vip_id"; ip ←! decodeString f "ip"; weight ←! decodeInt f "weight";
  tagged createBackendTags {| cb_VIPID := vipID; cb_IP := ip; cb_Weight := weight |}.
Definition bindUpdateBackend (f : fieldsMap) : err + UpdateBackendRequest :=
  ip ←! decodeStringPtr f "ip"; weight ←! decodeIntPtr f "weight"; tagged updateBackendTags {| ub_IP := ip; ub_Weight := weight |}.

(** ** Checks of the fields of a body *)
Definition rawJSONIsNull (raw : json) : bool := match raw with JNull => true | _ => false end.
Definition validateNonNullJSONFields (fields : option fieldsMap) (names : list string) : error :=
  match fields with
  | None => Some (ErrMsg "request body must be a JSON object")
  | Some fields =>
      firstError (λ name, match fields !! name with
        | Some raw => if rawJSONIsNull raw then Some (ErrMsg (name +:+ " must not be null")) else None
        | None => None end) names
  end.
Fixpoint validateNoDuplicateJSONValue (path : string) (j : json) : error :=
  match j with
  | JObj m =>
      (fix each (m : list (string * json)) (seen : list string) : error :=
         match m with
         | [] => None
         | (key, v) :: m =>
             let fieldPath := if bool_decide (path = "") then key else path +:+ "." +:+ key in
             if bool_decide (key ∈ seen) then Some (ErrMsg ("duplicate field " +:+ quoted fieldPath))
             else match validateNoDuplicateJSONValue fieldPath v with Some e => Some e | None => each m (key :: seen) end
         end) m []
  | JArr l =>
      (fix each (l : list json) : error :=
         match l with
         | [] => None
         | v :: l => match validateNoDuplicateJSONValue path v with Some e => Some e | None => each l end
         end) l
  | _ => None
  end.

Context {O : Type} `{!MapOrder O}.
Variable order : O.
Definition validateKnownJSONFieldsWithPrefix (fields : option fieldsMap) (prefix : string) (names : list string) : error :=
  match fields with
  | None => Some (ErrMsg "request body must be a JSON object")
  | Some fields =>
      firstError (λ p : string * json,
        if bool_decide (p.1 ∈ names) then None
        else Some (ErrMsg ("unknown field " +:+ quoted (if bool_decide (prefix = "") then p.1 else prefix +:+ "." +:+ p.1))))
        (mapRange order fields)
  end.
Definition validateKnownJSONFields (fields : option fieldsMap) (names : list string) : error :=
  validateKnownJSONFieldsWithPrefix fields "" names.
Definition validateKnownNestedJSONFields (fields : option fieldsMap) (field : string) (names : list string) : error :=
  match fields ≫= lookup field with
  | None => None
  | Some raw =>
      if rawJSONIsNull raw then None
      else
        match raw with
        | JObj m => validateKnownJSONFieldsWithPrefix (Some (fieldsOf m)) field names
        | _ => Some (ErrMsg (field +:+ " must be a JSON object"))
        end
  end.

(** ** Health checks of a request *)
Context {G : HttpGuts}.
Variable outOfRange : spec_float → Z.
(** [strings.ToLower], as far as it yields ASCII: of the other runes only the dotted
    capital I (U+0130) and the Kelvin sign have ASCII letters as their lower case. *)
Fixpoint toLower (s : list Z) : list Z :=
  match s with
  | [] => []
  | 196 :: 176 :: s => 105 :: toLower s
  | 226 :: 132 :: 170 :: s => 107 :: toLower s
  | c :: s => (if (65 <=? c) && (c <=? 90) then c + 32 else c) :: toLower s
  end%Z.
Definition lower (s : string) : string := Etcd.string_of (toLower (bytes_of s)).
Definition HCTypes : list string := [HCTypeHTTP; HCTypeHTTPS; HCTypeTCP; HCTypePing; HCTypeTLSHello].

Definition healthCheckConfigBadRequest (e : err) : err :=
  let msg := errString e in
  if String.prefix "config is required" msg then ErrMsg "health_check.config is required for this type"
  else if String.prefix "unsupported health check type" msg then ErrMsg "invalid health check type"
  else ErrMsg ("health_check.config." +:+ msg).
Definition validateHealthCheckRequest (req : option HealthCheckRequest) : error :=
  match req with
  | None => None
  | Some req =>
      let hcType := lower (hr_Type req) in
      if negb (bool_decide (hcType ∈ HCTypes)) then Some (ErrMsg "invalid health check type")
      else healthCheckConfigBadRequest <$> ValidateHealthCheckConfig outOfRange hcType (hr_Config req)
  end.
Definition parseHealthCheckDuration (value field : string) : err + Z :=
  let bad := inl (ErrMsg ("invalid health check " +:+ field)) in
  match Duration.ParseDuration value with
  | inl _ => bad
  | inr duration =>
      if (duration <=? 0)%Z then bad
      else if negb (Z.rem duration Second =? 0)%Z then inl (ErrMsg ("health check " +:+ field +:+ " must be a whole number of seconds"))
      else if (MaxHealthCheckSeconds <? Z.quot duration Second)%Z
      then inl (ErrMsg ("health check " +:+ field +:+ " must be at most 2147483647 seconds"))
      else inr duration
  end.
Definition healthCheckSecondsFromRequest (durationValue : string) (secondsValue : option Z) (durationField secondsField : string) : err + Z :=
  match secondsValue with
  | Some v =>
      if Text.isSet durationValue
      then inl (ErrMsg ("health_check." +:+ durationField +:+ " and health_check." +:+ secondsField +:+ " must not both be set"))
      else if (v <=? 0)%Z then inl (ErrMsg ("health check " +:+ secondsField +:+ " must be positive"))
      else if (MaxHealthCheckSeconds <? v)%Z then inl (ErrMsg ("health check " +:+ secondsField +:+ " must be at most 2147483647 seconds"))
      else inr v
  | None =>
      if negb (Text.isSet durationValue)
      then inl (ErrMsg ("health_check." +:+ secondsField +:+ " or health_check." +:+ durationField +:+ " is required"))
      else duration ←! parseHealthCheckDuration durationValue durationField; inr (Z.quot duration Second)
  end.
Definition validateHealthCheckTimingRepresentation (req : HealthCheckRequest) : error :=
  let usesDurationFields := Text.isSet (hr_Interval req) || Text.isSet (hr_Timeout req) in
  let usesSecondsFields := bool_decide (is_Some (hr_IntervalSeconds req)) || bool_decide (is_Some (hr_TimeoutSeconds req)) in
  if usesDurationFields && usesSecondsFields
  then Some (ErrMsg "health_check timing must use either interval_seconds/timeout_seconds or interval/timeout") else None.
Definition healthCheckFromRequest (req : HealthCheckRequest) : err + HealthCheck :=
  _ ←! guard (validateHealthCheckTimingRepresentation req);
  intervalSec ←! healthCheckSecondsFromRequest (hr_Interval req) (hr_IntervalSeconds req) "interval" "interval_seconds";
  timeoutSec ←! healthCheckSecondsFromRequest (hr_Timeout req) (hr_TimeoutSeconds req) "timeout" "timeout_seconds";
  if (intervalSec <=? timeoutSec)%Z then inl (ErrMsg "health check timeout must be less than interval")
  else inr {| h_ID := ""; h_VIPID := ""; h_Type := lower (hr_Type req); h_IntervalSec := intervalSec; h_TimeoutSec := timeoutSec;
              h_RiseCount := Config.orZ (hr_RiseCount req) 3; h_FallCount := Config.orZ (hr_FallCount req) 2;
              h_Config := hr_Config req; h_CreatedAt := None; h_UpdatedAt := None |}.

Definition validateDSCPForEncap (encapType : string) (dscp : option Z) : error :=
  if bool_decide (EffectiveEncapType encapType = EncapTypeL3DSR) && bool_decide (dscp = Some 0%Z)
  then Some (ErrMsg "dscp must be 1-63 when encap_type is L3DSR (DSCP mode)") else None.
Definition validateEncapAddressFamily (vip encapType : string) : error :=
  match ParseIP vip with
  | None => None
  | Some ip =>
      let effectiveEncap := EffectiveEncapType encapType in
      let isIPv4 := bool_decide (is_Some (To4 ip)) in
      if EncapRequiresIPv4VIP effectiveEncap then
        if isIPv4 then None else Some (ErrMsg ("encap_type " +:+ effectiveEncap +:+ " requires an IPv4 vip"))
      else if EncapRequiresIPv6VIP effectiveEncap then
        if isIPv4 then Some (ErrMsg "encap_type NAT6 requires an IPv6 vip") else None
      else None
  end.
Definition validateBackendAddressFamily (vip : option VIP) (backendIP : string) : error :=
  match vip, ParseIP backendIP with
  | Some vip, Some ip =>
      let encapType := EffectiveEncapType (v_EncapType vip) in
      let isIPv4 := bool_decide (is_Some (To4 ip)) in
      if EncapRequiresIPv4Backend encapType then
        if isIPv4 then None else Some (ErrMsg ("backend ip must be IPv4 when encap_type is " +:+ encapType))
      else if EncapRequiresIPv6Backend encapType then
        if isIPv4 then Some (ErrMsg ("backend ip must be IPv6 when encap_type is " +:+ encapType)) else None
      else None
  | _, _ => None
  end.
Definition validateExistingBackendAddressFamilies (backends : list Backend) (vip : VIP) : error :=
  firstError (λ b, (λ e, ErrMsg ("existing backend " +:+ b_ID b +:+ ": " +:+ errString e)) <$> validateBackendAddressFamily (Some vip) (b_IP b)) backends.

(** ** Errors of the store (errors.go) *)
Fixpoint chain (p : err → bool) (e : err) : bool := p e || match e with ErrWrap _ e _ => chain p e | _ => false end.
Definition isConflict (e : err) : bool := match e with ErrConflict _ => true | _ => false end.
Definition isInvalidInput (e : err) : bool := match e with ErrMsg m => bool_decide (m = "invalid input") | _ => false end.
Definition invalidInputMessage (e : err) : string := errString e.
Definition handleDataStoreError (e : err) (resource : string) : Response :=
  if isNotFound e then respond 404 (Error (resource +:+ " not found"))
  else if chain isConflict e then respond 409 (Error (resource +:+ " already exists"))
  else if chain isInvalidInput e then respond 400 (Error (invalidInputMessage e))
  else respond 500 (Error "internal server error").
Definition validateResourceID (field value : string) : error := ValidateResourceID field value.

(** ** Reading a body *)
Variable cfg : ControllerConfig.ServerConfig.
(** [http.MaxBytesReader] *)
Definition readBody (req : Request) : bodyRead :=
  let limit := ControllerConfig.MaxBodyBytes cfg in
  if ((0 <? limit) && (limit <? BodySize req))%Z then TooLarge
  else match Body req with None => Unreadable (ErrMsg "invalid request") | Some (inl e) => Unreadable e | Some (inr j) => Parsed j end.
(** The fields, once for each name; [handleBindError] for what cannot be read.  A null
    body is the nil map. *)
Definition bindFields (req : Request) : Response + (option fieldsMap * json) :=
  match readBody req with
  | TooLarge => inl (respond 413 (Error "request body too large"))
  | Unreadable e => inl (badRequest (errString e))
  | Parsed JNull => inr (None, JNull)
  | Parsed (JObj m) => inr (Some (fieldsOf m), JObj m)
  | Parsed _ => inl (badRequest (errString (mismatch "")))
  end.
(** [c.JSON(http.StatusBadRequest, ...)] *)
Definition orBad {A} (r : err + A) : Response + A := match r with inl e => inl (badRequest (errString e)) | inr a => inr a end.
Definition refuseBad (e : error) : Response + unit := orBad (guard e).
Definition vipFields : list string := ["vip"; "port"; "protocol"; "lb_method"; "encap_type"; "dscp"; "health_check"].
Definition healthCheckFields : list string :=
  ["type"; "interval"; "timeout"; "interval_seconds"; "timeout_seconds"; "rise_count"; "fall_count"; "config"].
(** The same for the requests that must not set fields to null. *)
Definition readFields (req : Request) (nonNull : option (list string)) (known : list string) (nested : bool) : Response + fieldsMap :=
  p ←! bindFields req;
  _ ←! refuseBad (validateNoDuplicateJSONValue "" p.2);
  _ ←! match nonNull with Some names => refuseBad (validateNonNullJSONFields p.1 names) | None => inr tt end;
  _ ←! refuseBad (validateKnownJSONFields p.1 known);
  _ ←! (if nested then refuseBad (validateKnownNestedJSONFields p.1 "health_check" healthCheckFields) else inr tt);
  inr (default ∅ p.1).

(** ** The store *)
Class ControllerStore (E : Type) := {
  CreateVIP : VIP → ST E (err + VIP);
  GetVIP : string → ST E (err + VIP);
  ListVIPs : ST E (err + list VIP);
  UpdateVIP : VIP → ST E (err + VIP);
  DeleteVIP : string → ST E (err + unit);
  AddBackend : Backend → ST E (err + Backend);
  GetBackend : string → ST E (err + Backend);
  ListBackends : string → ST E (err + list Backend);
  UpdateBackend : Backend → ST E (err + Backend);
  DeleteBackend : string → ST E (err + unit);
  GetRevision : ST E (err + Z);
}.
Context {E : Type} `{!ControllerStore E}.

(** Leave with a response, or go on. *)
Definition after {A} (r : Response + A) (k : A → ST E Response) : ST E Response :=
  match r with inl resp => mret resp | inr a => k a end.
Definition stored {A} (m : ST E (err + A)) (resource : string) (k : A → ST E Response) : ST E Response :=
  r ← m; match r with inl e => mret (handleDataStoreError e resource) | inr a => k a end.
Notation "x ←~ r ; k" := (after r (λ x, k)) (at level 20, r at level 100, k at level 200, right associativity).

(** ** VIPs (vip_handlers.go) *)
Definition createVIP (req : Request) : ST E Response :=
  fields ←~ readFields req None vipFields true;
  r ←~ orBad (bindCreateVIP fields);
  _ ←~ refuseBad (validateHealthCheckRequest (cv_HealthCheck r));
  _ ←~ refuseBad (validateEncapAddressFamily (cv_VIP r) (cv_EncapType r));
  _ ←~ refuseBad (validateDSCPForEncap (cv_EncapType r) (cv_DSCP r));
  healthCheck ←~ match cv_HealthCheck r with
                 | None => inr None
                 | Some hc => orBad (hc ←! healthCheckFromRequest hc; inr (Some hc))
                 end;
  let vip := {| v_ID := ""; v_VIP := cv_VIP r; v_Port := cv_Port r; v_Protocol := cv_Protocol r;
                v_LBMethod := Config.orString (cv_LBMethod r) LBMethodMaglev; v_EncapType := cv_EncapType r; v_DSCP := cv_DSCP r;
                v_CreatedAt := None; v_UpdatedAt := None; v_HealthCheck := healthCheck; v_Backends := [] |} in
  stored (CreateVIP vip) "VIP" (λ vip,
    let fill hc := if bool_decide (h_VIPID hc = "")
                   then {| h_ID := h_ID hc; h_VIPID := v_ID vip; h_Type := h_Type hc; h_IntervalSec := h_IntervalSec hc;
                           h_TimeoutSec := h_TimeoutSec hc; h_RiseCount := h_RiseCount hc; h_FallCount := h_FallCount hc;
                           h_Config := h_Config hc; h_CreatedAt := h_CreatedAt hc; h_UpdatedAt := h_UpdatedAt hc |}
                   else hc in
    mret (respond 201 (OneVIP {| v_ID := v_ID vip; v_VIP := v_VIP vip; v_Port := v_Port vip; v_Protocol := v_Protocol vip;
                                 v_LBMethod := v_LBMethod vip; v_EncapType := v_EncapType vip; v_DSCP := v_DSCP vip;
                                 v_CreatedAt := v_CreatedAt vip; v_UpdatedAt := v_UpdatedAt vip;
                                 v_HealthCheck := fill <$> v_HealthCheck vip; v_Backends := v_Backends vip |}))).
Definition listVIPs : ST E Response := stored ListVIPs "VIP" (λ vips, mret (respond 200 (VIPs vips))).
Definition getVIP (id : string) : ST E Response :=
  _ ←~ refuseBad (validateResourceID "id" id);
  stored (GetVIP id) "VIP" (λ vip, mret (respond 200 (OneVIP vip))).

(** The stored VIP with the fields that are given; [health_check] and [dscp] are
    removed by a null. *)
Definition updatedVIP (fields : fieldsMap) (r : UpdateVIPRequest) (vip : VIP) : Response + VIP :=
  let dscp := match fields !! "dscp" with
              | None => v_DSCP vip
              | Some raw => if rawJSONIsNull raw then None else uv_DSCP r
              end in
  healthCheck ←! match fields !! "health_check" with
                 | None => inr (v_HealthCheck vip)
                 | Some raw =>
                     if rawJSONIsNull raw then inr None
                     else
                       _ ←! refuseBad (validateHealthCheckRequest (uv_HealthCheck r));
                       match uv_HealthCheck r with
                       | None => inr None
                       | Some hc => orBad (hc ←! healthCheckFromRequest hc; inr (Some hc))
                       end
                 end;
  inr {| v_ID := v_ID vip; v_VIP := default (v_VIP vip) (uv_VIP r); v_Port := default (v_Port vip) (uv_Port r);
         v_Protocol := default (v_Protocol vip) (uv_Protocol r); v_LBMethod := default (v_LBMethod vip) (uv_LBMethod r);
         v_EncapType := default (v_EncapType vip) (uv_EncapType r); v_DSCP := dscp;
         v_CreatedAt := v_CreatedAt vip; v_UpdatedAt := v_UpdatedAt vip; v_HealthCheck := healthCheck; v_Backends := v_Backends vip |}.
Definition updateVIP (id : string) (req : Request) : ST E Response :=
  _ ←~ refuseBad (validateResourceID "id" id);
  fields ←~ readFields req (Some ["vip"; "port"; "protocol"; "lb_method"; "encap_type"]) vipFields true;
  r ←~ orBad (bindUpdateVIP fields);
  stored (GetVIP id) "VIP" (λ vip,
    vip ←~ updatedVIP fields r vip;
    _ ←~ refuseBad (validateEncapAddressFamily (v_VIP vip) (v_EncapType vip));
    _ ←~ refuseBad (validateDSCPForEncap (v_EncapType vip) (v_DSCP vip));
    stored (ListBackends id) "Backend" (λ backends,
      _ ←~ refuseBad (validateExistingBackendAddressFamilies backends vip);
      stored (UpdateVIP vip) "VIP" (λ vip, mret (respond 200 (OneVIP vip))))).
Definition deleteVIP (id : string) : ST E Response :=
  _ ←~ refuseBad (validateResourceID "id" id);
  stored (DeleteVIP id) "VIP" (λ _, mret (respond 204 NoContent)).

(** ** Backends (backend_handlers.go) *)
Definition createBackend (req : Request) : ST E Response :=
  fields ←~ readFields req None ["vip_id"; "ip"; "weight"] false;
  r ←~ orBad (bindCreateBackend fields);
  _ ←~ refuseBad (validateResourceID "vip_id" (cb_VIPID r));
  stored (GetVIP (cb_VIPID r)) "VIP" (λ vip,
    _ ←~ refuseBad (validateBackendAddressFamily (Some vip) (cb_IP r));
    let backend := {| b_ID := ""; b_VIPID := cb_VIPID r; b_IP := cb_IP r; b_Weight := Config.orZ (cb_Weight r) 1;
                      b_CreatedAt := None; b_UpdatedAt := None |} in
    stored (AddBackend backend) "Backend" (λ backend, mret (respond 201 (OneBackend backend)))).
Definition listBackends (vipID : string) : ST E Response :=
  _ ←~ refuseBad (validateResourceID "vip_id" vipID);
  stored (ListBackends vipID) "Backend" (λ backends, mret (respond 200 (Backends backends))).
Definition getBackend (id : string) : ST E Response :=
  _ ←~ refuseBad (validateResourceID "id" id);
  stored (GetBackend id) "Backend" (λ backend, mret (respond 200 (OneBackend backend))).
Definition updateBackend (id : string) (req : Request) : ST E Response :=
  _ ←~ refuseBad (validateResourceID "id" id);
  fields ←~ readFields req (Some ["ip"; "weight"]) ["ip"; "weight"] false;
  r ←~ orBad (bindUpdateBackend fields);
  stored (GetBackend id) "Backend" (λ backend,
    let backend := {| b_ID := b_ID backend; b_VIPID := b_VIPID backend; b_IP := default (b_IP backend) (ub_IP r);
                      b_Weight := default (b_Weight backend) (ub_Weight r);
                      b_CreatedAt := b_CreatedAt backend; b_UpdatedAt := b_UpdatedAt backend |} in
    stored (GetVIP (b_VIPID backend)) "VIP" (λ vip,
      _ ←~ refuseBad (validateBackendAddressFamily (Some vip) (b_IP backend));
      stored (UpdateBackend backend) "Backend" (λ backend, mret (respond 200 (OneBackend backend))))).
Definition deleteBackend (id : string) : ST E Response :=
  _ ←~ refuseBad (validateResourceID "id" id);
  stored (DeleteBackend id) "Backend" (λ _, mret (respond 204 NoContent)).

(** ** The server (server.go) *)
Definition getRevision : ST E Response := stored GetRevision "Revision" (λ r, mret (respond 200 (Revision r))).
Definition healthCheck : ST E Response := mret (respond 200 Healthy).
Definition readinessCheck : ST E Response :=
  r ← GetRevision; mret (match r with inl _ => respond 503 NotReady | inr _ => respond 200 ReadyNow end).

Variable Sum256 : list Z → list Z.
Definition authMiddleware (req : Request) (next : ST E Response) : ST E Response :=
  if negb (Text.isSet (ControllerConfig.APIKey cfg)) then next
  else if APIKeyMatches Sum256 (ExtractAPIKey (Authorization req) (XAPIKey req)) (bytes_of (ControllerConfig.APIKey cfg)) then next
  else mret (respond 401 (Error "unauthorized")).
(** [setupRoutes]; gin answers 404 for the others. *)
Definition setupRoutes (req : Request) : ST E Response :=
  let is_ m := bool_decide (Method req = m) in
  let notFound := mret (respond 404 (Error "404 page not found")) in
  let v1 root version := bool_decide (root = "api" ∧ version = "v1") in
  match Path req with
  | [name] =>
      if bool_decide (name = "healthz") && is_ "GET" then healthCheck
      else if bool_decide (name = "readyz") && is_ "GET" then readinessCheck else notFound
  | [root; version; name] =>
      if negb (v1 root version) then notFound
      else if bool_decide (name = "vips") then
        if is_ "POST" then authMiddleware req (createVIP req) else if is_ "GET" then authMiddleware req listVIPs else notFound
      else if bool_decide (name = "backends") then
        if is_ "POST" then authMiddleware req (createBackend req)
        else if is_ "GET" then authMiddleware req (listBackends (Query_vip_id req)) else notFound
      else if bool_decide (name = "revision") && is_ "GET" then authMiddleware req getRevision else notFound
  | [root; version; name; id] =>
      if negb (v1 root version) then notFound
      else if bool_decide (name = "vips") then
        if is_ "GET" then authMiddleware req (getVIP id) else if is_ "PUT" then authMiddleware req (updateVIP id req)
        else if is_ "DELETE" then authMiddleware req (deleteVIP id) else notFound
      else if bool_decide (name = "backends") then
        if is_ "GET" then authMiddleware req (getBackend id) else if is_ "PUT" then authMiddleware req (updateBackend id req)
        else if is_ "DELETE" then authMiddleware req (deleteBackend id) else notFound
      else notFound
  | _ => notFound
  end.
Definition bodyLimitMiddleware (req : Request) (next : ST E Response) : ST E Response :=
  let limit := ControllerConfig.MaxBodyBytes cfg in
  if (limit <=? 0)%Z || bool_decide (Body req = None) then next
  else if (limit <? ContentLength req)%Z then mret (respond 413 (Error "request body too large"))
  else next.
Definition withHeaders (h : list (string * string)) (m : ST E Response) : ST E Response :=
  r ← m; mret {| status := status r; content_ := content_ r; headers := h ++ headers r |}.
(** [containsVary]: whether a token of a list separated by commas, without the spaces
    around it, is the field; every round but the last takes a byte. *)
Fixpoint dropSpaces (s : list Z) : list Z := match s with c :: s' => if (c =? 32)%Z then dropSpaces s' else s | [] => [] end.
Definition trimSpaces (s : list Z) : list Z := reverse (dropSpaces (reverse s)).
Fixpoint untilComma (s : list Z) : list Z * list Z :=
  match s with c :: s' => if (c =? 44)%Z then ([], s) else let '(token, rest) := untilComma s' in (c :: token, rest) | [] => ([], []) end.
Fixpoint containsVaryFrom (fuel : nat) (varyHeader field : list Z) : bool :=
  match fuel, varyHeader with
  | 0, _ | _, [] => false
  | S fuel, _ =>
      let '(token, rest) := untilComma (dropSpaces varyHeader) in
      bool_decide (trimSpaces token = field) || containsVaryFrom fuel (drop 1 rest) field
  end.
Definition containsVary (varyHeader field : string) : bool :=
  containsVaryFrom (S (length (bytes_of varyHeader))) (bytes_of varyHeader) (bytes_of field).
(** The Vary header with Origin in it. *)
Definition mergeVary (varyHeader : string) : string :=
  if bool_decide (varyHeader = "") then "Origin"
  else if bool_decide (varyHeader = "*") then varyHeader
  else if negb (bool_decide (varyHeader = "Origin")) && negb (containsVary varyHeader "Origin") then varyHeader +:+ ", Origin"
  else varyHeader.
(** No header is set when this middleware runs. *)
Definition corsMiddleware (req : Request) (next : ST E Response) : ST E Response :=
  let allowed := bool_decide (Origin req ∈ ControllerConfig.AllowedOrigins cfg) in
  let h := (if allowed then
              [("Access-Control-Allow-Origin", Origin req); ("Access-Control-Allow-Credentials", "true");
               ("Access-Control-Allow-Headers", "Content-Type, Content-Length, Accept-Encoding, X-CSRF-Token, Authorization, X-API-Key, accept, origin, Cache-Control, X-Requested-With");
               ("Access-Control-Allow-Methods", "POST, OPTIONS, GET, PUT, DELETE, PATCH")]
            else []) ++ [("Vary", mergeVary "")] in
  withHeaders h
    (if bool_decide (Method req = "OPTIONS") then mret (respond (if allowed then 204 else 403) NoContent) else next).
(** The middleware in the order of [setupMiddleware]. *)
Definition serve (req : Request) : ST E Response := bodyLimitMiddleware req (corsMiddleware req (setupRoutes req)).
End Handlers.
End Api.
