(* ===== verification/ApiSafety.v ===== *)
(** * What the REST API lets through (internal/controller/api)

    The store is only asked to write what its own checks admit, and a request
    without the key does not reach it. *)

From Stdlib Require Import SpecFloat.
From stdpp Require Import base tactics list gmap strings pretty.
From S2P Require Import Prelude Types Net Store Validation Duration Config Models Etcd V1Config ControllerConfig Sync SyncClient SyncSafety Api.

Module ApiSafety.
Import Models Validation SyncService SyncSafety Api.

Section Checks.
Context {G : HttpGuts}.
Variable outOfRange : spec_float → Z.
#[local] Abbreviation validVIP v := (ValidateVIPForWrite outOfRange v = None).
#[local] Abbreviation validBackend b := (ValidateBackendForWrite b = None).

Lemma between_spec lo hi v : between lo hi v = true ↔ (lo <= v <= hi)%Z.
Proof. unfold between. rewrite andb_true_iff. lia. Qed.

(** ** Health checks *)
Lemma seconds_range d s df sf v : healthCheckSecondsFromRequest d s df sf = inr v → (1 <= v <= MaxHealthCheckSeconds)%Z.
Proof.
  unfold healthCheckSecondsFromRequest. destruct s as [x|].
  - destruct (Text.isSet d); [done|]. destruct (Z.leb_spec x 0); [done|]. destruct (Z.ltb_spec MaxHealthCheckSeconds x); [done|].
    intros [= <-]. lia.
  - destruct (negb (Text.isSet d)); [done|]. intros (x & Hx & [= <-])%tryE_ok. unfold parseHealthCheckDuration in Hx.
    destruct (Duration.ParseDuration d) as [|y]; [done|]. destruct (Z.leb_spec y 0); [done|].
    destruct (Z.eqb_spec (Z.rem y Second) 0) as [Hr|]; [|done]. simpl in Hx.
    destruct (Z.ltb_spec MaxHealthCheckSeconds (Z.quot y Second)); [done|]. simplify_eq.
    split; [|done]. unfold Second in *. pose proof (Z.quot_rem' x 1000000000). lia.
Qed.
Lemma healthCheckFromRequest_valid r hc :
  healthCheckTags r = true → validateHealthCheckRequest outOfRange (Some r) = None → healthCheckFromRequest r = inr hc →
  validateHealthCheckForWrite outOfRange (Some hc) = None.
Proof.
  intros Ht Hv H. unfold healthCheckFromRequest in H. apply tryE_ok in H as (? & _ & H).
  apply tryE_ok in H as (i & Hi & H). apply tryE_ok in H as (t & Hto & H). apply seconds_range in Hi, Hto.
  destruct (Z.leb_spec i t); [done|]. injection H as <-.
  unfold healthCheckTags in Ht. rewrite !andb_true_iff in Ht. destruct Ht as ((_ & Hrise) & Hfall).
  assert (∀ x d, (0 < d <= MaxHealthCheckCount)%Z → omit (Z.eqb 0) (between 1 2147483647) x = true →
    (1 <= Config.orZ x d <= MaxHealthCheckCount)%Z) as Hor.
  { intros y d Hd Hx. unfold omit in Hx. apply orb_true_iff in Hx. unfold Config.orZ.
    destruct (Z.eqb_spec y 0); [lia|]. destruct Hx as [Hx|Hx]; [apply Z.eqb_eq in Hx; lia|]. by apply between_spec in Hx. }
  assert (ValidateHealthCheckConfig outOfRange (lower (hr_Type r)) (hr_Config r) = None) as Hc.
  { unfold validateHealthCheckRequest in Hv. destruct (negb _); [done|]. by destruct (ValidateHealthCheckConfig _ _ _). }
  unfold validateHealthCheckForWrite. cbn [h_Type h_Config]. rewrite Hc.
  assert (ValidateHealthCheckTiming {| h_ID := ""; h_VIPID := ""; h_Type := lower (hr_Type r); h_IntervalSec := i; h_TimeoutSec := t;
              h_RiseCount := Config.orZ (hr_RiseCount r) 3; h_FallCount := Config.orZ (hr_FallCount r) 2;
              h_Config := hr_Config r; h_CreatedAt := None; h_UpdatedAt := None |} = None) as ->; [|done].
  unfold ValidateHealthCheckTiming. apply firstError_ok. cbn [h_IntervalSec h_TimeoutSec h_RiseCount h_FallCount].
  assert (3 <= MaxHealthCheckCount ∧ 2 <= MaxHealthCheckCount)%Z as [] by (by vm_compute).
  unfold outside. rewrite !(proj2 (inRange_false _ _ _)) by (first [done | apply Hor; [lia|done]]).
  destruct (Z.leb_spec i t); [lia|]. by repeat constructor.
Qed.

(** ** VIPs *)
Record tagsOK (v : VIP) : Prop := {
  to_ip : isIP (v_VIP v) = true;
  to_port : between 1 65535 (v_Port v) = true;
  to_protocol : oneof ["TCP"; "UDP"] (v_Protocol v) = true;
  to_method : v_LBMethod v = "" ∨ v_LBMethod v = LBMethodMaglev;
  to_encap : v_EncapType v = "" ∨ oneof EncapTypes (v_EncapType v) = true;
  to_dscp : ptr (between 0 63) (v_DSCP v) = true;
}.
Lemma encap_valid t : oneof EncapTypes t = true → IsValidEncapType t = true.
Proof.
  unfold oneof, EncapTypes. intros H. apply bool_decide_eq_true in H. rewrite !elem_of_cons, elem_of_nil in H. by destruct_or!; subst.
Qed.
(** The checks of the API imply those of the store. *)
Lemma tags_valid v :
  tagsOK v → validateOptionalResourceID "vip id" (v_ID v) = None →
  validateEncapAddressFamily (v_VIP v) (v_EncapType v) = None → validateDSCPForEncap (v_EncapType v) (v_DSCP v) = None →
  validateHealthCheckForWrite outOfRange (v_HealthCheck v) = None → validVIP v.
Proof.
  intros [Hip Hport Hproto Hm He Hd] Hid Hf Hds Hh. unfold ValidateVIPForWrite. rewrite Hid. unfold isIP in Hip.
  apply bool_decide_eq_true in Hip as [ip Hip]. unfold validateEncapAddressFamily in Hf. rewrite Hip in *.
  apply firstError_ok. repeat constructor; [| | | | | |done].
  - apply between_spec in Hport. by rewrite (proj2 (inRange_false 1 65535 _) Hport).
  - unfold oneof in Hproto. apply bool_decide_eq_true in Hproto. by rewrite bool_decide_true.
  - rewrite bool_decide_true; [done|]. destruct Hm as [->| ->]; set_solver.
  - destruct He as [->|He]; [done|]. by rewrite (encap_valid _ He), orb_true_r.
  - unfold validateVIPAddressFamily. by repeat (case_match; try done).
  - unfold validateDSCP. destruct (v_DSCP v) as [d|]; [|done]. simpl in Hd. apply between_spec in Hd.
    destruct (Z.ltb_spec 63 d); [lia|]. unfold validateDSCPForEncap in Hds.
    destruct (bool_decide (EffectiveEncapType (v_EncapType v) = EncapTypeL3DSR)); [|done]. simpl in *.
    destruct (Z.eqb_spec d 0) as [->|]; [|done]. by rewrite bool_decide_true in Hds.
Qed.
(** And what the store admitted meets the tags, but for the sign of a DSCP. *)
Lemma valid_tags v : validVIP v → (∀ d, v_DSCP v = Some d → (0 <= d)%Z) →
  tagsOK v ∧ validateOptionalResourceID "vip id" (v_ID v) = None ∧ validateHealthCheckForWrite outOfRange (v_HealthCheck v) = None.
Proof.
  unfold ValidateVIPForWrite. destruct (validateOptionalResourceID _ _); [done|]. destruct (ParseIP (v_VIP v)) as [ip|] eqn:Hip; [|done].
  rewrite firstError_ok, !Forall_cons. intros (H1 & H2 & H3 & H4 & _ & H6 & H7 & _) HD. split_and!; [|done|done].
  constructor.
  - unfold isIP. rewrite Hip. by apply bool_decide_eq_true.
  - apply between_spec. destruct ((_ || _)%bool) eqn:Hp in H1; [done|]. by apply inRange_false in Hp.
  - unfold oneof. by destruct (bool_decide (v_Protocol v ∈ _)).
  - destruct (bool_decide (v_LBMethod v ∈ _)) eqn:Hm; [|done]. apply bool_decide_eq_true in Hm. set_solver.
  - destruct (bool_decide (v_EncapType v = "")) eqn:He; [left; by apply bool_decide_eq_true in He|]. right. simpl in H4.
    destruct (IsValidEncapType (v_EncapType v)) eqn:Hv; [|done]. exact Hv.
  - unfold validateDSCP in H6. destruct (v_DSCP v) as [d|]; [|done]. simpl. apply between_spec. specialize (HD _ eq_refl).
    destruct (Z.ltb_spec 63 d); [done|lia].
Qed.

(** ** Backends *)
Lemma validBackend_fields b : validBackend b →
  validateOptionalResourceID "backend id" (b_ID b) = None ∧ is_Some (ParseIP (b_IP b)) ∧ (1 <= b_Weight b <= 100)%Z ∧ validID (b_VIPID b).
Proof.
  unfold ValidateBackendForWrite. rewrite firstError_ok, !Forall_cons. intros (Hf & Hv & _).
  unfold ValidateBackendFieldsForWrite in Hf. apply firstError_ok in Hf. rewrite !Forall_cons in Hf. destruct Hf as (H1 & H2 & H3 & _).
  split_and!; [done|by destruct (ParseIP (b_IP b)); [eexists|]|..|by apply validID_field in Hv].
  all: destruct ((_ || _)%bool) eqn:Hw in H3; [done|]; apply inRange_false in Hw; lia.
Qed.
Lemma fields_validBackend b :
  validateOptionalResourceID "backend id" (b_ID b) = None → isIP (b_IP b) = true → (1 <= b_Weight b <= 100)%Z → validID (b_VIPID b) → validBackend b.
Proof.
  intros H1 H2 H3 H4. unfold isIP in H2. apply bool_decide_eq_true in H2 as [ip Hip].
  unfold ValidateBackendForWrite, ValidateBackendFieldsForWrite. rewrite Hip, H1, (proj2 (validID_field _ _) H4).
  by rewrite (proj2 (inRange_false 1 100 _) H3).
Qed.
(** The address family is the store's check, for an address that parses. *)
Lemma backendFamily_ok v b : validBackend b → validateBackendAddressFamily (Some v) (b_IP b) = None → ValidateBackendAddressFamilyForVIP v b = None.
Proof.
  intros (_ & [ip Hip] & _)%validBackend_fields. unfold validateBackendAddressFamily, ValidateBackendAddressFamilyForVIP, ValidateBackendIPFamilyForVIP.
  rewrite Hip. by repeat (case_match; try done).
Qed.

(** A VIP the store admits; its DSCP is a byte. *)
Definition admissible (v : VIP) : Prop := validVIP v ∧ ∀ d, v_DSCP v = Some d → (0 <= d)%Z.
Lemma tags_admissible v :
  tagsOK v → validateOptionalResourceID "vip id" (v_ID v) = None →
  validateEncapAddressFamily (v_VIP v) (v_EncapType v) = None → validateDSCPForEncap (v_EncapType v) (v_DSCP v) = None →
  validateHealthCheckForWrite outOfRange (v_HealthCheck v) = None → admissible v.
Proof.
  intros Ht. intros. split; [by apply tags_valid|]. intros d Hd. destruct Ht as [_ _ _ _ _ Hr]. rewrite Hd in Hr. apply between_spec in Hr. lia.
Qed.

(** ** Requests *)
Section Requests.
Variable mismatch : string → err.
Variable ParseFloat : string → option spec_float.
Context {O : Type} `{!MapOrder O}.
Variable order : O.
Variable cfg : ControllerConfig.ServerConfig.
Context {E : Type} `{!ControllerStore E}.
Variable Sum256 : list Z → list Z.
#[local] Abbreviation serve := (serve mismatch ParseFloat order outOfRange cfg Sum256).

(** A property of the store that its reads keep, and its writes if they are of
    resources its checks admit: a VIP whose encapsulation fits the backends that
    were just listed, a backend that fits the VIP that was just read.  What is read
    was admitted before. *)
Record respects (I : E → Prop) : Prop := {
  rs_getVIP : ∀ id e r e', I e → GetVIP id e = (r, e') →
    I e' ∧ ∀ v, r = inr v → admissible v;
  rs_listVIPs : ∀ e r e', I e → ListVIPs e = (r, e') → I e';
  rs_getRevision : ∀ e r e', I e → GetRevision e = (r, e') → I e';
  rs_listBackends : ∀ id e r e', I e → ListBackends id e = (r, e') → I e' ∧ ∀ l, r = inr l → Forall (λ b, validBackend b) l;
  rs_getBackend : ∀ id e r e', I e → GetBackend id e = (r, e') → I e' ∧ ∀ b, r = inr b → validBackend b;
  rs_createVIP : ∀ v e r e', I e → admissible v → CreateVIP v e = (r, e') → I e';
  rs_updateVIP : ∀ id l v e e1 r e2, I e → ListBackends id e = (inr l, e1) → admissible v →
    Forall (λ b, ValidateBackendAddressFamilyForVIP v b = None) l → UpdateVIP v e1 = (r, e2) → I e2;
  rs_deleteVIP : ∀ id e r e', I e → validID id → DeleteVIP id e = (r, e') → I e';
  rs_addBackend : ∀ v b e e1 r e2, I e → GetVIP (b_VIPID b) e = (inr v, e1) → validBackend b →
    ValidateBackendAddressFamilyForVIP v b = None → AddBackend b e1 = (r, e2) → I e2;
  rs_updateBackend : ∀ v b e e1 r e2, I e → GetVIP (b_VIPID b) e = (inr v, e1) → validBackend b →
    ValidateBackendAddressFamilyForVIP v b = None → UpdateBackend b e1 = (r, e2) → I e2;
  rs_deleteBackend : ∀ id e r e', I e → validID id → DeleteBackend id e = (r, e') → I e';
}.

Section Kept.
Variable I : E → Prop.
Hypothesis HI : respects I.
Definition keepsI (m : ST E Response) : Prop := ∀ e, I e → I (m e).2.
Lemma keepsI_ret r : keepsI (mret r).
Proof. by intros e. Qed.
Lemma keepsI_after {A} (r : Response + A) k : (∀ a, r = inr a → keepsI (k a)) → keepsI (after r k).
Proof. intros Hk. destruct r; [apply keepsI_ret|by apply Hk]. Qed.
Lemma keepsI_stored {A} (m : ST E (err + A)) res k :
  (∀ e r e', I e → m e = (r, e') → I e' ∧ ∀ a, r = inr a → I (k a e').2) → keepsI (stored m res k).
Proof.
  intros Hm e He. unfold stored, mbind, ST_bind. destruct (m e) as [r e'] eqn:Hr. destruct (Hm _ _ _ He Hr) as [? Hk].
  destruct r; [done|]. by apply Hk.
Qed.
(** The last step: a call and its response. *)
Lemma keepsI_call {A} (m : ST E (err + A)) res (k : A → Response) :
  (∀ e r e', I e → m e = (r, e') → I e') → keepsI (stored m res (λ a, mret (k a))).
Proof. intros Hm. apply keepsI_stored. intros e r e' He Hr. specialize (Hm _ _ _ He Hr). split; [done|]. by intros a _. Qed.

Lemma refuseBad_ok e u : refuseBad e = inr u ↔ e = None.
Proof. destruct e, u; cbn; split; congruence. Qed.
Lemma orBad_ok {A} (r : err + A) a : orBad r = inr a ↔ r = inr a.
Proof. destruct r; cbn; split; congruence. Qed.
Lemma tagged_ok {A} (ok : A → bool) r a : tagged mismatch ok r = inr a ↔ r = a ∧ ok a = true.
Proof. unfold tagged. destruct (ok r) eqn:Hr; (split; [intros H; simplify_eq; done|intros [-> ?]; congruence]). Qed.

Lemma bindCreateVIP_ok f r : bindCreateVIP mismatch ParseFloat f = inr r → createVIPTags r = true.
Proof. unfold bindCreateVIP. intros H. repeat (apply tryE_ok in H as (? & _ & H)). by apply tagged_ok in H as [_ ?]. Qed.
Lemma bindUpdateVIP_ok f r : bindUpdateVIP mismatch ParseFloat f = inr r → updateVIPTags r = true.
Proof. unfold bindUpdateVIP. intros H. repeat (apply tryE_ok in H as (? & _ & H)). by apply tagged_ok in H as [_ ?]. Qed.
Lemma bindCreateBackend_ok f r : bindCreateBackend mismatch f = inr r → createBackendTags r = true.
Proof. unfold bindCreateBackend. intros H. repeat (apply tryE_ok in H as (? & _ & H)). by apply tagged_ok in H as [_ ?]. Qed.
Lemma bindUpdateBackend_ok f r : bindUpdateBackend mismatch f = inr r → updateBackendTags r = true.
Proof. unfold bindUpdateBackend. intros H. repeat (apply tryE_ok in H as (? & _ & H)). by apply tagged_ok in H as [_ ?]. Qed.

(** A health check of a request, as it is stored. *)
Lemma requestCheck_valid hc h :
  ptr healthCheckTags hc = true → validateHealthCheckRequest outOfRange hc = None →
  match hc with None => inr None | Some hc => orBad (hc ←! healthCheckFromRequest hc; inr (Some hc)) end = inr h →
  validateHealthCheckForWrite outOfRange h = None.
Proof.
  destruct hc as [r|]; [|by intros _ _ [= <-]]. intros Ht Hv H. apply orBad_ok, tryE_ok in H as (x & Hx & [= <-]).
  by eapply healthCheckFromRequest_valid.
Qed.

Ltac passed H := let H' := fresh in intros ? H'; apply refuseBad_ok in H'; rename H' into H.
Lemma createVIP_kept req : keepsI (createVIP mismatch ParseFloat order outOfRange cfg req).
Proof.
  unfold createVIP. apply keepsI_after. intros f _. apply keepsI_after. intros r Hr%orBad_ok%bindCreateVIP_ok.
  apply keepsI_after. passed H1. apply keepsI_after. passed H2. apply keepsI_after. passed H3.
  unfold createVIPTags in Hr. rewrite !andb_true_iff in Hr. destruct Hr as ((((((T1 & T2) & T3) & T4) & T5) & T6) & T7).
  apply keepsI_after. intros h Hh. apply requestCheck_valid in Hh; [|done|done].
  apply keepsI_call. intros e x e' He. apply (rs_createVIP I HI); [done|].
  apply tags_admissible; [|done..]. constructor; cbn [v_VIP v_Port v_Protocol v_LBMethod v_EncapType v_DSCP]; [done..| | |done].
  - right. unfold Config.orString, omit in *. case_bool_decide; [done|]. cbn in T4. unfold Text.isSet in T4.
    rewrite bool_decide_true in T4 by done. cbn in T4. unfold oneof in T4. apply bool_decide_eq_true in T4. by apply list_elem_of_singleton in T4.
  - unfold omit in T5. apply orb_true_iff in T5 as [T5|T5]; [|by right]. left. cbn in T5. unfold Text.isSet in T5.
    apply negb_true_iff, bool_decide_eq_false in T5. by apply dec_stable in T5.
Qed.
Lemma updatedVIP_valid f r v v' :
  updateVIPTags r = true → validVIP v → (∀ d, v_DSCP v = Some d → (0 <= d)%Z) → updatedVIP outOfRange f r v = inr v' →
  tagsOK v' ∧ validateOptionalResourceID "vip id" (v_ID v') = None ∧ validateHealthCheckForWrite outOfRange (v_HealthCheck v') = None.
Proof.
  intros Ht Hv HD H. destruct (valid_tags v Hv HD) as ([P1 P2 P3 P4 P5 P6] & Hid & Hh).
  unfold updateVIPTags in Ht. rewrite !andb_true_iff in Ht. destruct Ht as ((((((T1 & T2) & T3) & T4) & T5) & T6) & T7).
  unfold updatedVIP in H. apply tryE_ok in H as (h & HH & [= <-]). cbn [v_ID v_HealthCheck]. split_and!; [|done|].
  - constructor; cbn [v_VIP v_Port v_Protocol v_LBMethod v_EncapType v_DSCP].
    + by destruct (uv_VIP r).
    + by destruct (uv_Port r).
    + by destruct (uv_Protocol r).
    + destruct (uv_LBMethod r) as [m|]; [|done]. right. cbn in *. unfold oneof in T4. apply bool_decide_eq_true in T4.
      by apply list_elem_of_singleton in T4.
    + destruct (uv_EncapType r); [by right|done].
    + destruct (f !! "dscp") as [raw|]; [|done]. by destruct (rawJSONIsNull raw).
  - destruct (f !! "health_check") as [raw|]; [|by simplify_eq]. destruct (rawJSONIsNull raw); [by simplify_eq|].
    apply tryE_ok in HH as (? & H1%refuseBad_ok & H2). by eapply requestCheck_valid.
Qed.
Lemma families_ok l v :
  Forall (λ b, validBackend b) l → validateExistingBackendAddressFamilies l v = None →
  Forall (λ b, ValidateBackendAddressFamilyForVIP v b = None) l.
Proof.
  unfold validateExistingBackendAddressFamilies. induction 1 as [|b l Hb Hl IH]; [done|]. cbn [firstError]. intros H.
  destruct (validateBackendAddressFamily (Some v) (b_IP b)) eqn:Hf; cbn in H; [done|]. constructor; [|by apply IH].
  by eapply backendFamily_ok.
Qed.
Lemma updateVIP_kept id req : keepsI (updateVIP mismatch ParseFloat order outOfRange cfg id req).
Proof.
  unfold updateVIP. apply keepsI_after. passed Hid. apply keepsI_after. intros f _. apply keepsI_after. intros r Hr%orBad_ok%bindUpdateVIP_ok.
  apply keepsI_stored. intros e x e1 He Hg. destruct (rs_getVIP I HI _ _ _ _ He Hg) as [He1 Hv]. split; [done|]. intros v ->.
  destruct (Hv _ eq_refl) as [Hval HD]. revert e1 Hg He1. intros e1 _ He1. revert e1 He1.
  apply keepsI_after. intros v' Hup. destruct (updatedVIP_valid _ _ _ _ Hr Hval HD Hup) as (Ht & Hi & Hh).
  apply keepsI_after. passed H1. apply keepsI_after. passed H2.
  apply keepsI_stored. intros e2 x e3 He2 Hl. destruct (rs_listBackends I HI _ _ _ _ He2 Hl) as [He3 Hb]. split; [done|]. intros l ->.
  unfold after. destruct (refuseBad (validateExistingBackendAddressFamilies l v')) eqn:Hf; [done|]. apply refuseBad_ok in Hf.
  unfold stored, mbind, ST_bind. destruct (UpdateVIP v' e3) as [y e4] eqn:Hu.
  assert (I e4) as He4 by (eapply (rs_updateVIP I HI); [exact He2|exact Hl|by apply tags_admissible|by apply families_ok; [apply Hb|]|exact Hu]).
  by destruct y.
Qed.
Lemma readThenWrite_kept v b (write : Backend → ST E (err + Backend)) status e e1 :
  (∀ e r e2, I e → GetVIP (b_VIPID b) e = (inr v, e1) → validBackend b → ValidateBackendAddressFamilyForVIP v b = None →
     write b e1 = (r, e2) → I e2) →
  I e → I e1 → GetVIP (b_VIPID b) e = (inr v, e1) → validBackend b →
  I (after (refuseBad (validateBackendAddressFamily (Some v) (b_IP b)))
       (λ _, stored (write b) "Backend" (λ b, mret (respond status (OneBackend b)))) e1).2.
Proof.
  intros Hw He He1 Hg Hb. unfold after. destruct (refuseBad _) eqn:Hf; [done|]. apply refuseBad_ok in Hf.
  unfold stored, mbind, ST_bind. destruct (write b e1) as [y e2] eqn:Hu.
  assert (I e2) by (eapply Hw; [exact He|exact Hg|done|by apply backendFamily_ok|reflexivity]). by destruct y.
Qed.
Lemma createBackend_kept req : keepsI (createBackend mismatch order cfg req).
Proof.
  unfold createBackend. apply keepsI_after. intros f _. apply keepsI_after. intros r Hr%orBad_ok%bindCreateBackend_ok.
  apply keepsI_after. passed Hid. apply validID_field in Hid.
  unfold createBackendTags in Hr. rewrite !andb_true_iff in Hr. destruct Hr as ((_ & T2) & T3).
  apply keepsI_stored. intros e x e1 He Hg. destruct (rs_getVIP I HI _ _ _ _ He Hg) as [He1 _]. split; [done|]. intros v ->.
  apply (readThenWrite_kept v {| b_ID := ""; b_VIPID := cb_VIPID r; b_IP := cb_IP r; b_Weight := Config.orZ (cb_Weight r) 1;
    b_CreatedAt := None; b_UpdatedAt := None |} AddBackend 201 e e1); [|done..|].
  { intros. by eapply (rs_addBackend I HI). }
  apply fields_validBackend; [done|done| |done]. cbn. unfold omit, Config.orZ in *. apply orb_true_iff in T3.
  destruct (Z.eqb_spec (cb_Weight r) 0); [lia|]. destruct T3 as [T3|T3]; [apply Z.eqb_eq in T3; lia|]. by apply between_spec in T3.
Qed.
Lemma updateBackend_kept id req : keepsI (updateBackend mismatch order cfg id req).
Proof.
  unfold updateBackend. apply keepsI_after. passed Hid. apply keepsI_after. intros f _. apply keepsI_after. intros r Hr%orBad_ok%bindUpdateBackend_ok.
  unfold updateBackendTags in Hr. apply andb_true_iff in Hr as [T1 T2].
  apply keepsI_stored. intros e0 x e He0 Hb. destruct (rs_getBackend I HI _ _ _ _ He0 Hb) as [He Hv]. split; [done|]. intros b ->.
  destruct (validBackend_fields b (Hv _ eq_refl)) as (F1 & F2 & F3 & F4). clear Hb. revert e He.
  apply keepsI_stored. intros e x e1 He Hg. destruct (rs_getVIP I HI _ _ _ _ He Hg) as [He1 _]. split; [done|]. intros v ->.
  apply (readThenWrite_kept v {| b_ID := b_ID b; b_VIPID := b_VIPID b; b_IP := default (b_IP b) (ub_IP r);
    b_Weight := default (b_Weight b) (ub_Weight r); b_CreatedAt := b_CreatedAt b; b_UpdatedAt := b_UpdatedAt b |} UpdateBackend 200 e e1); [|done..|].
  { intros. by eapply (rs_updateBackend I HI). }
  apply fields_validBackend; [done| | |done]; cbn.
  - destruct (ub_IP r); [done|]. by apply bool_decide_eq_true.
  - destruct (ub_Weight r); [by apply between_spec in T2|done].
Qed.

Lemma serve_kept req : keepsI (serve req).
Proof.
  pose proof createVIP_kept. pose proof updateVIP_kept. pose proof createBackend_kept. pose proof updateBackend_kept.
  assert (∀ m, keepsI m → keepsI (authMiddleware cfg Sum256 req m)) as Hauth.
  { intros m Hm. unfold authMiddleware. destruct (negb _); [done|]. destruct (APIKeyMatches _ _ _); [done|]. apply keepsI_ret. }
  assert (keepsI (setupRoutes mismatch ParseFloat order outOfRange cfg Sum256 req)) as Hroutes.
  { assert (keepsI listVIPs) by (apply keepsI_call; intros; by eapply (rs_listVIPs I HI)).
    assert (keepsI getRevision) by (apply keepsI_call; intros; by eapply (rs_getRevision I HI)).
    assert (∀ id, keepsI (getVIP id)) by (intros; apply keepsI_after; intros; apply keepsI_call; intros; by eapply (rs_getVIP I HI)).
    assert (∀ id, keepsI (getBackend id)) by (intros; apply keepsI_after; intros; apply keepsI_call; intros; by eapply (rs_getBackend I HI)).
    assert (∀ id, keepsI (listBackends id)) by (intros; apply keepsI_after; intros; apply keepsI_call; intros; by eapply (rs_listBackends I HI)).
    assert (∀ id, keepsI (deleteVIP id)) by (intros; apply keepsI_after; passed Hid; apply validID_field in Hid; apply keepsI_call; intros; by eapply (rs_deleteVIP I HI)).
    assert (∀ id, keepsI (deleteBackend id)) by (intros; apply keepsI_after; passed Hid; apply validID_field in Hid; apply keepsI_call; intros; by eapply (rs_deleteBackend I HI)).
    assert (keepsI readinessCheck).
    { intros e He. unfold readinessCheck, mbind, ST_bind. destruct (GetRevision e) as [r e'] eqn:Hr. by eapply (rs_getRevision I HI). }
    assert (keepsI healthCheck) by apply keepsI_ret. unfold setupRoutes. cbv zeta. repeat case_match; auto using keepsI_ret. }
  unfold Api.serve, bodyLimitMiddleware, corsMiddleware, withHeaders. intros e He.
  repeat (case_match; try done); unfold mbind, ST_bind; destruct (setupRoutes _ _ _ _ _ _ _ e) as [r e'] eqn:Hr; cbn.
  all: specialize (Hroutes e He); by rewrite Hr in Hroutes.
Qed.
End Kept.

(** Without the key nothing under /api is reached. *)
Lemma setupRoutes_unauthorized req rest e :
  Text.isSet (ControllerConfig.APIKey cfg) = true →
  APIKeyMatches Sum256 (ExtractAPIKey (Authorization req) (XAPIKey req)) (bytes_of (ControllerConfig.APIKey cfg)) = false →
  Path req = "api" :: rest →
  ∃ resp, setupRoutes mismatch ParseFloat order outOfRange cfg Sum256 req e = (resp, e) ∧ status resp ∈ [401; 404]%Z.
Proof.
  intros Hk Hm Hp. assert (∀ m : ST E Response, authMiddleware cfg Sum256 req m = mret (respond 401 (Error "unauthorized"))) as Hauth.
  { intros m. unfold authMiddleware. by rewrite Hk, Hm. }
  unfold setupRoutes. rewrite Hp. cbv zeta. destruct rest as [|? [|? [|? [|]]]]; simpl.
  all: repeat case_match; try rewrite Hauth; (eexists; split; [reflexivity|]); set_solver.
Qed.

(** C33. The API asks the store to write only what the store's own checks admit.
    Whatever a request is, a property of the store that its reads keep and that its
    writes keep for admitted resources - a VIP that passes [ValidateVIPForWrite] and
    whose encapsulation fits its listed backends, a backend that passes
    [ValidateBackendForWrite] and fits the VIP that was read, valid identifiers - is
    kept by serving it.  And with an API key configured, a request under /api
    without that key leaves the store untouched and is answered 401, 404, 413, or
    as a preflight. *)
Theorem api_writes_admitted I req e :
  respects I → I e →
  I (serve req e).2 ∧
  (∀ rest, Path req = "api" :: rest → Text.isSet (ControllerConfig.APIKey cfg) = true →
   APIKeyMatches Sum256 (ExtractAPIKey (Authorization req) (XAPIKey req)) (bytes_of (ControllerConfig.APIKey cfg)) = false →
   ∃ resp, serve req e = (resp, e) ∧
     (status resp ∈ [401; 404; 413]%Z ∨ Method req = "OPTIONS" ∧ status resp ∈ [204; 403]%Z)).
Proof.
  intros HI He. split; [by apply serve_kept|]. intros rest Hp Hk Hm.
  destruct (setupRoutes_unauthorized req rest e Hk Hm Hp) as (r & Hr & Hs).
  unfold Api.serve, bodyLimitMiddleware, corsMiddleware, withHeaders, mbind, ST_bind.
  destruct (_ || bool_decide (Body req = None)); [|destruct (_ <? _)%Z].
  2: { eexists. split; [reflexivity|]. left. set_solver. }
  all: destruct (bool_decide (Method req = "OPTIONS")) eqn:Ho;
    [apply bool_decide_eq_true in Ho; eexists; split; [reflexivity|]; right; split; [done|]; simpl; case_bool_decide; set_solver|].
  all: rewrite Hr; eexists; (split; [reflexivity|]); left; cbn [status]; set_solver.
Qed.
End Requests.
End Checks.
End ApiSafety.

(** ** A request that is stored *)
Module ApiExamples.
Import Models Validation SyncService SyncSafety Api ApiSafety.

#[local] Instance guts : HttpGuts :=
  {| ValidHostHeader _ := true; ValidHeaderFieldName _ := true; ValidHeaderFieldValue _ := true |}.
Definition outOfRange (_ : spec_float) : Z := 0.
Definition noMatch (field : string) : err := ErrMsg ("invalid " +:+ field).
Definition parseFloat (s : string) : option spec_float := Duration.float64 <$> Etcd.ParseInt s.
#[local] Instance listing : MapOrder unit := Build_MapOrder unit (λ V _ m, map_to_list m) (λ V _ m, Permutation_refl _).
Definition serverConfig : ControllerConfig.ServerConfig :=
  ControllerConfig.Build_ServerConfig "0.0.0.0" 8080 "0123456789abcdef" "" true "c" "k" 1 1 1 1 1 4096 4096 ["http://localhost:3000"].

(** A store that keeps the VIPs it is given. *)
#[local] Instance vipStore : ControllerStore (list VIP) := {|
  CreateVIP v e := (inr v, e ++ [v]); GetVIP _ e := (match e with v :: _ => inr v | [] => inl NotFound end, e);
  ListVIPs e := (inr e, e); UpdateVIP v e := (inr v, [v]); DeleteVIP _ e := (inr tt, []);
  AddBackend b e := (inr b, e); GetBackend _ e := (inl NotFound, e); ListBackends _ e := (inr [], e);
  UpdateBackend b e := (inr b, e); DeleteBackend _ e := (inr tt, e); GetRevision e := (inr 1%Z, e) |}.
Definition body : json :=
  JObj [("vip", JStr "192.0.2.1"); ("port", JNum "443"); ("protocol", JStr "TCP");
        ("health_check", JObj [("type", JStr "TCP"); ("interval", JStr "10s"); ("timeout", JStr "2s"); ("config", JObj [("port", JNum "80")])])].
Definition post (key : string) : Request :=
  {| Method := "POST"; Path := ["api"; "v1"; "vips"]; Query_vip_id := ""; Authorization := ["bearer " +:+ key]; XAPIKey := [];
     Origin := ""; ContentLength := 200; BodySize := 200; Body := Some (inr body) |}.
#[local] Abbreviation serve := (Api.serve noMatch parseFloat () outOfRange serverConfig id).
Lemma vipStore_respects : respects outOfRange (Forall (admissible outOfRange)).
Proof.
  constructor; cbn.
  - intros id e r e' He [= <- <-]. split; [done|]. intros v. destruct e; [done|]. intros [= <-]. by inversion He.
  - by intros ? ? ? ? [= _ <-].
  - by intros ? ? ? ? [= _ <-].
  - intros id e r e' He [= <- <-]. split; [done|]. by intros l [= <-].
  - intros id e r e' He [= <- <-]. done.
  - intros v e r e' He Hv [= _ <-]. by apply Forall_app_2; [|constructor].
  - intros id l v e e1 r e2 He _ Hv _ [= _ <-]. by constructor.
  - intros id e r e' He _ [= _ <-]. by constructor.
  - by intros v b e e1 r e2 He [= _ <-] _ _ [= _ <-].
  - by intros v b e e1 r e2 He [= _ <-] _ _ [= _ <-].
  - by intros id e r e' He _ [= _ <-].
Defined.

(** With the key the VIP is created, and is one the store admits; without, nothing
    happens. *)
Lemma api_writes_admitted_witness :
  Forall (admissible outOfRange) (serve (post "0123456789abcdef") []).2 ∧ length (serve (post "0123456789abcdef") []).2 = 1 ∧
  status (serve (post "0123456789abcdef") []).1 = 201%Z ∧ status (serve (post "guess") []).1 = 401%Z.
Proof.
  split_and!; [|by vm_compute..].
  refine (proj1 (api_writes_admitted outOfRange noMatch parseFloat () serverConfig id (Forall (admissible outOfRange))
    (post "0123456789abcdef") [] vipStore_respects _)). constructor.
Defined.
Example vary_merged :
  mergeVary "Accept-Encoding" = "Accept-Encoding, Origin" ∧ mergeVary "Accept-Encoding,  Origin , X" = "Accept-Encoding,  Origin , X" ∧
  mergeVary "X-Origin" = "X-Origin, Origin" ∧ mergeVary "*" = "*".
Proof. vm_compute. done. Qed.
End ApiExamples.
