(* ===== verification/Probers.v ===== *)
(** * The health probes (internal/agent/healthcheck: v2_prober.go, http_prober.go,
    tcp_prober.go, tls_hello_prober.go, ping_prober.go, prober.go)

    How a probe is built from its settings and what it does on the network.  The
    network, the HTTP client and the programs that are run are the class [Network];
    the verdict, the addresses and the errors are the code's. *)

From Stdlib Require Import SpecFloat.
From stdpp Require Import base tactics list gmap strings pretty.
From S2P Require Import Prelude Types Net Routing Validation Health Duration Config Models Etcd EtcdSafety V1Config.

(** ** The network *)

(** [context.Context]: its deadline, if any. *)
Record Context := { ctx_Deadline : option Z }.
(** A request: [req_sets] are the calls of [Header.Set], in order. *)
Record HTTPRequest := { req_method : string; req_url : string; req_Host : string; req_sets : list (string * string) }.
(** The client's own timeout, and whether it verifies certificates. *)
Record HTTPClient := { cl_Timeout : option Z; cl_skipVerify : bool }.
(** What probes ask of the network and of the system. *)
Class Network (N C : Type) := {
  ctxErr : Context → ST N error;
  DialContext : Context → option Z → string → ST N (err + C);
  DialTLS : Context → bool → string → ST N (err + C);
  SetDeadline : C → Z → ST N error;
  Write : C → string → ST N error;
  Read : C → Z → ST N (err + string);
  CloseConn : C → ST N unit;
  isTimeout : err → bool;
  Do : HTTPClient → Context → HTTPRequest → ST N (err + Z);
  CloseBody : ST N error;
  CombinedOutput : Context → list string → ST N (string * error);
}.

(** ** URLs *)
Module ProbeURL.
Import Models Validation Health Etcd.

(** [net.JoinHostPort] *)
Definition JoinHostPort (host port : string) : string :=
  if existsb (λ c, (c =? 58)%Z || (c =? 37)%Z) (bytes_of host) then "[" +:+ host +:+ "]:" +:+ port
  else host +:+ ":" +:+ port.
Definition tcpProbeAddress (target : string) (port : Z) : string := JoinHostPort target (pretty port).

(** [unescape] of a path. *)
Fixpoint unescape (s : list Z) : option (list Z) :=
  match s with
  | [] => Some []
  | c :: s' =>
      if (c =? cPercent)%Z then
        match s' with
        | a :: b :: s'' =>
            match hex_value a, hex_value b, unescape s'' with
            | Some x, Some y, Some r => Some ((x * 16 + y)%Z :: r)
            | _, _, _ => None
            end
        | _ => None
        end
      else match unescape s' with Some r => Some (c :: r) | None => None end
  end.
(** [escape] of a path: of the reserved bytes only [?] is escaped. *)
Definition pathByte (c : Z) : bool :=
  isAlpha c || is_digit c || bool_decide (c ∈ [45; 95; 46; 126; 36; 38; 43; 44; 47; 58; 59; 61; 64]%Z).
Definition escapePath (s : list Z) : list Z :=
  s ≫= λ c, if pathByte c then [c] else [37; upperHex (Z.shiftr c 4); upperHex (Z.land c 15)]%Z.

(** [url.Parse] of a reference that starts with a slash: whether it has a host, its
    path and its query. *)
Definition parseReference (s : list Z) : option (bool * list Z * list Z) :=
  let '(u, frag) := cut 35 s in
  if existsb isCTL u then None
  else
    let '(rest, query) := cut 63 u in
    let '(host, path) :=
      if hasPrefix [47; 47]%Z rest && negb (hasPrefix [47; 47; 47]%Z rest) then
        (parseAuthority (cut 47 (drop 2 rest)).1, drop (length (cut 47 (drop 2 rest)).1) (drop 2 rest))
      else (Some false, rest) in
    match host, unescape path, unescape frag with
    | Some host, Some path, Some _ => Some (host, path, query)
    | _, _, _ => None
    end.

Definition buildHTTPProbeURL (scheme target : string) (port : Z) (probePath : string) : err + string :=
  match toErr (validateProbeTarget target) with
  | Some e => inl e
  | None =>
      let probePath := if bool_decide (probePath = "") then "/" else probePath in
      let probePath := if hasPrefix [47]%Z (bytes_of probePath) then probePath else "/" +:+ probePath in
      match parseReference (bytes_of probePath) with
      | None => inl (ErrWrap ("invalid HTTP probe path " +:+ quoted probePath +:+ ": ") (ErrMsg "parse error") "")
      | Some (true, _, _) => inl (ErrMsg ("HTTP probe path must be relative: " +:+ quoted probePath))
      | Some (false, path, query) =>
          inr (scheme +:+ "://" +:+ JoinHostPort target (pretty port) +:+ string_of (escapePath path) +:+
               (if bool_decide (query = []) then "" else "?" +:+ string_of query))
      end
  end.

(** [http.NewRequestWithContext]: the method is a token, and the port of the URL is
    made of digits; anything else of a URL that was built parses. *)
Definition tokenByte (c : Z) : bool :=
  isAlpha c || is_digit c || bool_decide (c ∈ [33; 35; 36; 37; 38; 39; 42; 43; 45; 46; 94; 95; 96; 124; 126]%Z).
Definition NewRequest (method url : string) (port : Z) : err + HTTPRequest :=
  let method := if bool_decide (method = "") then "GET" else method in
  if negb (forallb tokenByte (bytes_of method)) then inl (ErrMsg ("net/http: invalid method " +:+ quoted method))
  else if (port <? 0)%Z then inl (ErrMsg ("parse " +:+ quoted url +:+ ": invalid port " +:+ quoted (":" +:+ pretty port) +:+ " after host"))
  else inr {| req_method := method; req_url := url; req_Host := ""; req_sets := [] |}.
End ProbeURL.

(** ** Version 2 (v2_prober.go) *)
Module Probers.
Import Models Validation Health Etcd ProbeURL.

(** [ProbeResult] and [V2ProbeResult] have the same fields. *)
Record ProbeResult := { pr_Success : bool; pr_Latency : Z; pr_StatusCode : Z; pr_Error : error; pr_Timestamp : Z }.
Definition DeadlineExceeded : err := ErrContext "context deadline exceeded".
Definition defaultPingTimeout : Z := 2 * Second.

Section Probe.
Context {N C : Type} `{!Network N C} `{!Clock N} `{!MapOrder N}.

(** [time.Since(start)] *)
Definition since (start : Z) : ST N Z := t ← readClock; mret (t - start)%Z.
Definition failure (start : Z) (e : err) : ST N ProbeResult :=
  l ← since start;
  mret {| pr_Success := false; pr_Latency := l; pr_StatusCode := 0; pr_Error := Some e; pr_Timestamp := start |}.
Definition successful (start : Z) : ST N ProbeResult :=
  l ← since start;
  mret {| pr_Success := true; pr_Latency := l; pr_StatusCode := 0; pr_Error := None; pr_Timestamp := start |}.
Definition contextWithDefaultTimeout (ctx : Context) (timeout : Z) : ST N Context :=
  match ctx_Deadline ctx with
  | Some _ => mret ctx
  | None => t ← readClock; mret {| ctx_Deadline := Some (t + timeout)%Z |}
  end.
Definition tcpProbeContextError (ctx : Context) (e : err) : ST N err :=
  o ← ctxErr ctx;
  match o with
  | Some ctxErr => mret ctxErr
  | None =>
      if isTimeout (C := C) e then
        match ctx_Deadline ctx with
        | None => mret e
        | Some deadline => t ← readClock; mret (if (t <? deadline)%Z then e else DeadlineExceeded)
        end
      else mret e
  end.
(** The deadline of the connection; the goroutine that ends it early with the context
    is part of the connection. *)
Definition bindConnToContext (ctx : Context) (conn : C) : ST N error :=
  match ctx_Deadline ctx with
  | None => mret None
  | Some deadline =>
      r ← SetDeadline conn deadline;
      mret (errorf "failed to set TCP probe deadline: " <$> r)
  end.
(** [defer conn.Close()] *)
Definition closing (conn : C) (m : ST N ProbeResult) : ST N ProbeResult := r ← m; CloseConn conn;; mret r.
(** [strings.Contains] *)
Fixpoint contains (s sub : list Z) : bool :=
  hasPrefix sub s || match s with [] => false | _ :: s => contains s sub end.

Definition setHost (host : string) (req : HTTPRequest) : HTTPRequest :=
  if bool_decide (host = "") then req
  else {| req_method := req_method req; req_url := req_url req; req_Host := host; req_sets := req_sets req |}.
Definition setHeaders (sets : list (string * string)) (req : HTTPRequest) : HTTPRequest :=
  {| req_method := req_method req; req_url := req_url req; req_Host := req_Host req; req_sets := req_sets req ++ sets |}.

Definition httpProbe (p : httpProber) (ctx : Context) (target : string) : ST N ProbeResult :=
  start ← readClock;
  let failed e := mret {| pr_Success := false; pr_Latency := 0; pr_StatusCode := 0; pr_Error := Some e; pr_Timestamp := start |} in
  let scheme := if hp_useTLS p then "https" else "http" in
  match buildHTTPProbeURL scheme target (hp_port p) (hp_path p) with
  | inl e => failed e
  | inr probeURL =>
      match NewRequest (hp_method p) probeURL (hp_port p) with
      | inl e => failed e
      | inr req =>
          n ← get;
          let req := setHeaders (mapRange n (hp_headers p)) (setHost (hp_host p) req) in
          resp ← Do {| cl_Timeout := None; cl_skipVerify := hp_skipVerify p |} ctx req;
          match resp with
          | inl e => failure start e
          | inr status =>
              c ← CloseBody;
              match c with
              | Some e => failure start e
              | None =>
                  l ← since start;
                  mret {| pr_Success := bool_decide (status ∈ hp_expectedCodes p); pr_Latency := l;
                          pr_StatusCode := status; pr_Error := None; pr_Timestamp := start |}
              end
          end
      end
  end.

(** Both versions: write, then read and compare. *)
Definition exchange (ctx : Context) (conn : C) (start : Z) (send expected : string)
    (sendFailed readFailed : err → err) (unexpected : err) : ST N ProbeResult :=
  w ← (if bool_decide (send = "") then mret None else Write conn send);
  match w with
  | Some e => e ← tcpProbeContextError ctx e; failure start (sendFailed e)
  | None =>
      if bool_decide (expected = "") then successful start
      else
        r ← Read conn 4096;
        match r with
        | inl e => e ← tcpProbeContextError ctx e; failure start (readFailed e)
        | inr response =>
            if contains (bytes_of response) (bytes_of expected) then successful start
            else failure start unexpected
        end
  end.
Definition tcpProbe (port : Z) (send expected : string) (ctx : Context) (target : string) : ST N ProbeResult :=
  start ← readClock;
  match toErr (validateProbeTarget target) with
  | Some e => failure start e
  | None =>
      r ← DialContext ctx None (tcpProbeAddress target port);
      match r with
      | inl e => failure start e
      | inr conn =>
          closing conn
            (b ← bindConnToContext ctx conn;
             match b with
             | Some e => failure start e
             | None => exchange ctx conn start send expected id id
                         (ErrMsg ("response did not contain " +:+ quoted expected))
             end)
      end
  end.
Definition tlsHelloProbe (port : Z) (ctx : Context) (target : string) : ST N ProbeResult :=
  start ← readClock;
  match toErr (validateProbeTarget target) with
  | Some e => failure start e
  | None =>
      r ← DialTLS ctx true (tcpProbeAddress target port);
      match r with
      | inl e => failure start e
      | inr conn => closing conn (successful start)
      end
  end.
Definition pingProbe (goos : string) (ctx : Context) (target : string) : ST N ProbeResult :=
  start ← readClock;
  match toErr (validateProbeTarget target) with
  | Some e => failure start e
  | None =>
      pingCtx ← contextWithDefaultTimeout ctx defaultPingTimeout;
      args ← (if bool_decide (goos = "linux") then
                t ← readClock;
                mret ["ping"; "-c"; "1"; "-W";
                      pretty (pingTimeoutSeconds ((λ d, d - t)%Z <$> ctx_Deadline pingCtx) defaultPingTimeout); target]
              else mret ["ping"; "-c"; "1"; target]);
      '(_, e) ← CombinedOutput pingCtx args;
      match e with Some e => failure start e | None => successful start end
  end.
(** The [Probe] method of the prober. *)
Definition probe (goos : string) (p : V2Prober) (ctx : Context) (target : string) : ST N ProbeResult :=
  match p with
  | HTTPProber p => httpProbe p ctx target
  | TCPProber port send expected => tcpProbe port send expected ctx target
  | PingProber => pingProbe goos ctx target
  | TLSHelloProber port => tlsHelloProbe port ctx target
  end.
End Probe.
End Probers.

(** ** Version 1 (http_prober.go, tcp_prober.go, tls_hello_prober.go, ping_prober.go, prober.go) *)
Module V1Probers.
Import Models Validation Health Etcd ProbeURL Probers.

Record HTTPProber := {
  h1_useHTTPS : bool; h1_port : Z; h1_path : string; h1_method : string; h1_expectedCodes : gset Z;
  h1_headers : gmap string string; h1_tlsSkipVerify : bool; h1_hostHeader : string; h1_timeout : Z;
}.
Record TCPProber := { t1_port : Z; t1_send : string; t1_expect : string; t1_timeout : Z }.
Record TLSHelloProber := { l1_port : Z; l1_timeout : Z }.
Inductive Prober :=
  | HTTP (p : HTTPProber)
  | TCP (p : TCPProber)
  | Ping (timeout : Z)
  | TLSHello (p : TLSHelloProber).

(** [%T] *)
Definition typeName (raw : any) : string :=
  match raw with
  | Nil => "<nil>" | Bool _ => "bool" | Int _ => "int" | Int32 _ => "int32" | Int64 _ => "int64" | Float _ => "float64"
  | Str _ => "string" | Slice _ => "[]interface {}" | Ints _ => "[]int" | Floats _ => "[]float64"
  | Object _ => "map[string]interface {}" | Strings _ => "map[string]string"
  end.

Section Build.
Context {H : HttpGuts}.
(** [int(f)] out of the range of an int64. *)
Variable outOfRange : spec_float → Z.

(** [healthCheckConfigInt] of this package: NaN, the infinities and fractions are not integers. *)
Definition healthCheckConfigInt (raw : any) : option Z :=
  match raw with
  | Int z | Int32 z | Int64 z => Some z
  | Float f => healthCheckInt outOfRange (Float f)
  | _ => None
  end.
Definition parsePort (kind : string) (config : HCConfig) : err + Z :=
  match config !! "port" with
  | None => inl (ErrMsg ("port is required in " +:+ kind +:+ " health check config"))
  | Some raw =>
      match healthCheckConfigInt raw with
      | None => inl (ErrMsg ("port must be an integer, got " +:+ typeName raw))
      | Some port => inr port
      end
  end.
(** The codes of an array, up to the first that is not an integer. *)
Fixpoint codesOf (values : list any) (codes : gset Z) : err + gset Z :=
  match values with
  | [] => inr codes
  | value :: values =>
      match healthCheckConfigInt value with
      | None => inl (ErrMsg ("expected_codes must be integers, got " +:+ typeName value))
      | Some code => codesOf values ({[code]} ∪ codes)
      end
  end.
Definition parseHTTPExpectedCodes (raw : any) : err + gset Z :=
  match raw with
  | Slice values => codesOf values ∅
  | Ints values => inr (list_to_set values)
  | Floats values => codesOf (Float <$> values) ∅
  | _ => inl (ErrMsg "expected_codes must be an array of integers")
  end.
Definition headersOf (raw : option any) : gmap string string :=
  match raw with
  | Some (Object headers) =>
      foldl (λ m '(key, value), match value with Str s => <[key := s]> m | _ => m end) ∅ headers
  | Some (Strings headers) => foldl (λ m '(key, value), <[key := value]> m) ∅ headers
  | _ => ∅
  end.
Definition stringOr (config : HCConfig) (key dflt : string) : string :=
  match config !! key with Some (Str s) => s | _ => dflt end.
Definition parseHTTPConfig (useHTTPS : bool) (timeout : Z) (config : HCConfig) : err + HTTPProber :=
  match parsePort "HTTP" config with
  | inl e => inl e
  | inr port =>
      match (match present config "expected_codes" with
             | Some raw => parseHTTPExpectedCodes raw
             | None => inr {[200%Z]}
             end) with
      | inl e => inl e
      | inr codes =>
          inr {| h1_useHTTPS := useHTTPS; h1_port := port; h1_path := stringOr config "path" "/";
                 h1_method := match config !! "method" with
                              | Some (Str m) => string_of (toUpper (bytes_of m))
                              | _ => "GET"
                              end;
                 h1_expectedCodes := codes; h1_headers := headersOf (config !! "headers");
                 h1_tlsSkipVerify := match config !! "tls_skip_verify" with Some (Bool b) => b | _ => false end;
                 h1_hostHeader := stringSetting config "host_header"; h1_timeout := timeout |}
      end
  end.
Definition timeoutOf (hc : HealthCheck) : Z := wrapS 64 (h_TimeoutSec hc * Second).
(** The settings of a check without any, as the parsers see them. *)
Definition settings (hc : HealthCheck) : HCConfig := default ∅ (h_Config hc).
Definition NewHTTPProber (hc : HealthCheck) (useHTTPS : bool) : err + HTTPProber :=
  match ValidateHealthCheckConfig outOfRange (h_Type hc) (h_Config hc) with
  | Some e => inl (errorf "invalid HTTP health check config: " e)
  | None =>
      match parseHTTPConfig useHTTPS (timeoutOf hc) (settings hc) with
      | inl e => inl (errorf "failed to parse HTTP prober config: " e)
      | inr p => inr p
      end
  end.
Definition parseTCPConfig (timeout : Z) (config : HCConfig) : err + TCPProber :=
  match parsePort "TCP" config with
  | inl e => inl e
  | inr port => inr {| t1_port := port; t1_send := stringSetting config "send"; t1_expect := stringSetting config "expect";
                       t1_timeout := timeout |}
  end.
Definition NewTCPProber (hc : HealthCheck) : err + TCPProber :=
  match ValidateHealthCheckConfig outOfRange (h_Type hc) (h_Config hc) with
  | Some e => inl (errorf "invalid TCP health check config: " e)
  | None =>
      match parseTCPConfig (timeoutOf hc) (settings hc) with
      | inl e => inl (errorf "failed to parse TCP prober config: " e)
      | inr p => inr p
      end
  end.
Definition parseTLSHelloPort (config : HCConfig) : err + Z :=
  match parsePort "TLS hello" config with
  | inl e => inl e
  | inr port => if ((port <? 1) || (65535 <? port))%Z then inl (ErrMsg "port must be between 1 and 65535") else inr port
  end.
Definition NewTLSHelloProber (hc : HealthCheck) : err + TLSHelloProber :=
  match ValidateHealthCheckConfig outOfRange (h_Type hc) (h_Config hc) with
  | Some e => inl (errorf "invalid TLS hello health check config: " e)
  | None =>
      match parseTLSHelloPort (settings hc) with
      | inl e => inl (errorf "failed to parse TLS hello prober config: " e)
      | inr port => inr {| l1_port := port; l1_timeout := timeoutOf hc |}
      end
  end.
Definition NewPingProber (hc : HealthCheck) : err + Z := inr (timeoutOf hc).
Definition wrapped {A} (f : A → Prober) (r : err + A) : err + Prober :=
  match r with inl e => inl e | inr p => inr (f p) end.
Definition NewProber (hc : option HealthCheck) : err + Prober :=
  match hc with
  | None => inl (ErrMsg "health check configuration is nil")
  | Some hc =>
      if bool_decide (h_Type hc = HCTypeHTTP) then wrapped HTTP (NewHTTPProber hc false)
      else if bool_decide (h_Type hc = HCTypeHTTPS) then wrapped HTTP (NewHTTPProber hc true)
      else if bool_decide (h_Type hc = HCTypeTCP) then wrapped TCP (NewTCPProber hc)
      else if bool_decide (h_Type hc = HCTypePing) then wrapped Ping (NewPingProber hc)
      else if bool_decide (h_Type hc = HCTypeTLSHello) then wrapped TLSHello (NewTLSHelloProber hc)
      else inl (ErrMsg ("unsupported health check type: " +:+ h_Type hc))
  end.
End Build.

Section Probe.
Context {N C : Type} `{!Network N C} `{!Clock N} `{!MapOrder N}.

Definition ProbeHTTP (p : HTTPProber) (ctx : Context) (target : string) : ST N ProbeResult :=
  startTime ← readClock;
  match toErr (validateProbeTarget target) with
  | Some e => failure startTime e
  | None =>
      let scheme := if h1_useHTTPS p then "https" else "http" in
      match buildHTTPProbeURL scheme target (h1_port p) (h1_path p) with
      | inl e => failure startTime (errorf "failed to build request URL: " e)
      | inr probeURL =>
          match NewRequest (h1_method p) probeURL (h1_port p) with
          | inl e => failure startTime (errorf "failed to create request: " e)
          | inr req =>
              n ← get;
              let req := setHeaders (mapRange n (h1_headers p) ++ [("User-Agent", "arca-lb-healthcheck/1.0")])
                           (setHost (h1_hostHeader p) req) in
              resp ← Do {| cl_Timeout := Some (h1_timeout p); cl_skipVerify := h1_tlsSkipVerify p |} ctx req;
              latency ← since startTime;
              match resp with
              | inl e =>
                  mret {| pr_Success := false; pr_Latency := latency; pr_StatusCode := 0;
                          pr_Error := Some (errorf "HTTP request failed: " e); pr_Timestamp := startTime |}
              | inr status =>
                  let success := bool_decide (status ∈ h1_expectedCodes p) in
                  _ ← CloseBody;
                  mret {| pr_Success := success; pr_Latency := latency; pr_StatusCode := status;
                          pr_Error := if success then None else Some (ErrMsg ("unexpected status code: " +:+ pretty status));
                          pr_Timestamp := startTime |}
              end
          end
      end
  end.
Definition ProbeTCP (p : TCPProber) (ctx : Context) (target : string) : ST N ProbeResult :=
  startTime ← readClock;
  match toErr (validateProbeTarget target) with
  | Some e => failure startTime e
  | None =>
      r ← DialContext ctx (Some (t1_timeout p)) (tcpProbeAddress target (t1_port p));
      match r with
      | inl e => failure startTime (errorf "TCP connection failed: " e)
      | inr conn =>
          let deadline := (startTime + t1_timeout p)%Z in
          let deadline := match ctx_Deadline ctx with Some d => if (d <? deadline)%Z then d else deadline | None => deadline end in
          closing conn
            (b ← SetDeadline conn deadline;
             match b with
             | Some e => failure startTime (errorf "failed to set deadline: " e)
             | None =>
                 exchange ctx conn startTime (t1_send p) (t1_expect p) (errorf "TCP send failed: ") (errorf "TCP read failed: ")
                   (ErrMsg ("TCP response does not contain expected string: " +:+ quoted (t1_expect p)))
             end)
      end
  end.
(** An error of a probe whose context ended is the context's. *)
Definition orContextErr (ctx : Context) (e : err) : ST N err := o ← ctxErr ctx; mret (default e o).
Definition ProbeTLSHello (p : TLSHelloProber) (ctx : Context) (target : string) : ST N ProbeResult :=
  startTime ← readClock;
  match toErr (validateProbeTarget target) with
  | Some e => failure startTime e
  | None =>
      probeCtx ← contextWithDefaultTimeout ctx (l1_timeout p);
      r ← DialTLS probeCtx true (tcpProbeAddress target (l1_port p));
      match r with
      | inl e => e ← orContextErr probeCtx e; failure startTime (errorf "TLS hello failed: " e)
      | inr conn => closing conn (successful startTime)
      end
  end.
(** The arguments of ping; a timeout is a whole number of seconds. *)
Definition pingArgs (goos : string) (timeout : Z) (target : string) : option (list string) :=
  let ms := pretty (Z.quot timeout 1000000) in
  if bool_decide (goos = "linux") then Some ["ping"; "-c"; "1"; "-W"; pretty (Z.quot timeout Second); target]
  else if bool_decide (goos = "darwin") then Some ["ping"; "-c"; "1"; "-W"; ms; target]
  else if bool_decide (goos = "windows") then Some ["ping"; "-n"; "1"; "-w"; ms; target]
  else None.
Definition ProbePing (goos : string) (timeout : Z) (ctx : Context) (target : string) : ST N ProbeResult :=
  startTime ← readClock;
  match toErr (validateProbeTarget target) with
  | Some e => failure startTime e
  | None =>
      probeCtx ← contextWithDefaultTimeout ctx timeout;
      match pingArgs goos timeout target with
      | None => failure startTime (ErrMsg ("ping not supported on OS: " +:+ goos))
      | Some args =>
          '(output, e) ← CombinedOutput probeCtx args;
          latency ← since startTime;
          match e with
          | Some e =>
              e ← orContextErr probeCtx e;
              mret {| pr_Success := false; pr_Latency := latency; pr_StatusCode := 0;
                      pr_Error := Some (ErrWrap "ping failed: " e
                                    (" (output: " +:+ string_of (Text.trimSpace (bytes_of output)) +:+ ")"));
                      pr_Timestamp := startTime |}
          | None =>
              mret {| pr_Success := true; pr_Latency := latency; pr_StatusCode := 0; pr_Error := None; pr_Timestamp := startTime |}
          end
      end
  end.
(** The [Probe] method of the prober. *)
Definition Probe (goos : string) (p : Prober) (ctx : Context) (target : string) : ST N ProbeResult :=
  match p with
  | HTTP p => ProbeHTTP p ctx target
  | TCP p => ProbeTCP p ctx target
  | Ping timeout => ProbePing goos timeout ctx target
  | TLSHello p => ProbeTLSHello p ctx target
  end.
End Probe.
End V1Probers.

(** ** What a probe talks to *)
Module ProbeSafety.
Import Models Validation Health Etcd EtcdSafety ProbeURL Probers V1Probers.

(** A call to the network: a connection, a request, or a program with its arguments. *)
Inductive contact := Dialed (addr : string) | Requested (url : string) | Ran (args : list string).

(** A network that records its calls. *)
Section Recorded.
Context {N C : Type} `{!Network N C} `{!Clock N} `{!MapOrder N}.

Definition recorded {A} (c : contact) (m : ST N A) : ST (N * list contact) A :=
  λ '(n, log), let '(a, n') := m n in (a, (n', log ++ [c])).
#[export] Instance recording : Network (N * list contact) C := {|
  ctxErr ctx := on_fst (ctxErr ctx);
  DialContext ctx timeout addr := recorded (Dialed addr) (DialContext ctx timeout addr);
  DialTLS ctx skip addr := recorded (Dialed addr) (DialTLS ctx skip addr);
  SetDeadline conn d := on_fst (SetDeadline conn d);
  Write conn data := on_fst (Write conn data);
  Read conn n := on_fst (Read conn n);
  CloseConn conn := on_fst (CloseConn conn);
  isTimeout := isTimeout (C := C);
  Do client ctx req := recorded (Requested (req_url req)) (Do client ctx req);
  CloseBody := on_fst CloseBody;
  CombinedOutput ctx args := recorded (Ran args) (CombinedOutput ctx args);
|}.
#[export] Instance recordingClock : Clock (N * list contact) := {| readClock := on_fst readClock |}.
#[export] Program Instance recordingOrder : MapOrder (N * list contact) := {| mapRange V e m := mapRange e.1 m |}.
Next Obligation. intros. apply mapRange_perm. Qed.
End Recorded.

(** ** Addresses are made of hexadecimal digits, dots and colons *)
Definition ipByte (c : Z) : Prop := is_Some (hex_value c) ∨ c = cDot ∨ c = cColon.
Lemma digit_ip c : is_digit c = true → ipByte c.
Proof. intros H. left. unfold hex_value. rewrite H. eauto. Qed.
Lemma ipv4_bytes s v d f r : parseIPv4Fields s v d f = Some r → Forall ipByte s.
Proof.
  revert v d f. induction s as [|c s IH]; intros v d f; [constructor|]. cbn [parseIPv4Fields].
  destruct (is_digit c) eqn:Hd.
  - do 2 (case_match; [done|]). intros ?. constructor; [by apply digit_ip|eauto].
  - destruct (Z.eqb_spec c cDot) as [->|]; [|done]. destruct d; [done|]. case_match; [done|]. intros ?.
    constructor; [right; by left|eauto].
Qed.
Lemma hexGroup_bytes s o a r n rest : hexGroup s o a = Some (r, n, rest) → ∃ p, s = p ++ rest ∧ Forall ipByte p.
Proof.
  revert o a. induction s as [|c s IH]; intros o a; cbn [hexGroup]; [intros [= <- <- <-]; by exists []|].
  destruct (hex_value c) as [x|] eqn:Hx; [|intros [= <- <- <-]; by exists []].
  case_match; [done|]. intros (p & -> & Hp)%IH. exists (c :: p). split; [done|]. constructor; [left; by rewrite Hx|done].
Qed.
Lemma ipv6_bytes fuel s ip ell ip' ell' rest :
  parseIPv6Groups fuel s ip ell = Some (ip', ell', rest) → ∃ p, s = p ++ rest ∧ Forall ipByte p.
Proof.
  revert s ip ell. induction fuel as [|fuel IH]; intros s ip ell; cbn [parseIPv6Groups]; [intros [= <- <- <-]; by exists []|].
  destruct (hexGroup s 0 0) as [[[a [|n]] rest1]|] eqn:Hg; [done| |done].
  destruct (hexGroup_bytes _ _ _ _ _ _ Hg) as (p & -> & Hp).
  destruct (match rest1 with [] => false | c :: _ => (c =? cDot)%Z end) eqn:Hdot.
  { destruct (_ || (16 <? _)%nat); [done|]. destruct (parseIPv4Fields _ _ _ _) as [f|] eqn:Hf; [|done]. intros [= <- <- <-].
    exists (p ++ rest1). split; [by rewrite app_nil_r|by eapply ipv4_bytes]. }
  destruct rest1 as [|c rest1]; [intros [= <- <- <-]; by exists p|].
  destruct (Z.eqb_spec c cColon) as [->|]; [|done]. cbn [negb].
  assert (ipByte cColon) as Hc by (by right; right).
  destruct rest1 as [|c2 rest2]; [done|]. destruct (Z.eqb_spec c2 cColon) as [->|].
  - destruct ell; [done|]. destruct rest2 as [|c3 rest3].
    + intros [= <- <- <-]. exists (p ++ [cColon; cColon]). rewrite app_nil_r. split; [done|]. apply Forall_app; auto.
    + intros (q & -> & Hq)%IH. exists (p ++ cColon :: cColon :: q). split; [by rewrite <- app_assoc|]. apply Forall_app; auto.
  - intros (q & -> & Hq)%IH. exists (p ++ cColon :: q). split; [by rewrite <- app_assoc|]. apply Forall_app; auto.
Qed.
Lemma splitZone_none s a : splitZone s = (a, None) → a = s.
Proof.
  revert a. induction s as [|c s IH]; intros a; cbn [splitZone]; [congruence|]. case_match; [done|].
  destruct (splitZone s) as [b [z|]]; intros [= <-]. f_equal. auto.
Qed.
Lemma parseIPv6_bytes s b : parseIPv6 s = Some (Addr6 b []) → Forall ipByte s.
Proof.
  unfold parseIPv6. destruct (splitZone s) as [a zone] eqn:Hz. intros H.
  assert (zone = None) as -> by (destruct zone as [[|]|]; split_matches; done).
  apply splitZone_none in Hz as ->. cbn [default] in H.
  destruct (match s with c1 :: c2 :: s' => if ((c1 =? cColon) && (c2 =? cColon))%Z then (Some 0%nat, s') else (None, s)
            | _ => (None, s) end) as [ell s1] eqn:Hs.
  assert (Forall ipByte s1 → Forall ipByte s) as Hall.
  { assert (ipByte cColon) by (by right; right). destruct s as [|c1 [|c2 s]]; [by simplify_eq..|].
    destruct (Z.eqb_spec c1 cColon), (Z.eqb_spec c2 cColon); simplify_eq/=; auto. }
  apply Hall. destruct ell as [n|], s1 as [|c s1]; try by constructor.
  all: destruct (parseIPv6Groups _ _ _ _) as [[[? ?] [|]]|] eqn:Hg; [|done..];
    destruct (ipv6_bytes _ _ _ _ _ _ _ Hg) as (p & -> & Hp); by rewrite app_nil_r.
Qed.
Lemma ParseIP_bytes s ip : ParseIP s = Some ip → Forall ipByte (bytes_of s).
Proof.
  unfold ParseIP, ParseAddr. intros H.
  destruct (parseAddrFrom (bytes_of s) (bytes_of s)) as [a|] eqn:Ha; [|done].
  assert (parseIPv4 (bytes_of s) = Some a ∨ parseIPv6 (bytes_of s) = Some a) as [H4|H6].
  { revert Ha. generalize (bytes_of s) at 1 as all. intros all Ha. induction all as [|c all IH]; [done|]. cbn [parseAddrFrom] in Ha. destruct (c =? cDot)%Z; [by left|]. destruct (c =? cColon)%Z; [by right|]. destruct (c =? cPercent)%Z; [done|]. by apply IH. }
  - unfold parseIPv4 in H4. destruct (parseIPv4Fields _ _ _ _) eqn:Hf; [|done]. by eapply ipv4_bytes.
  - destruct a as [|b [|]]; [|by eapply parseIPv6_bytes|done].
    unfold parseIPv6 in H6. destruct (splitZone _) as [? [[|]|]]; split_matches; done.
Qed.

(** ** The host of a URL

    What a client connects to: the part after the scheme and its two slashes, up to a
    slash, a question mark or a hash. *)
Definition endsAuthority (c : Z) : bool := bool_decide (c ∈ [47; 63; 35]%Z).
Fixpoint upTo (stop : Z → bool) (s : list Z) : list Z :=
  match s with [] => [] | c :: s => if stop c then [] else c :: upTo stop s end.
Definition authority (url : list Z) : list Z := upTo endsAuthority (drop 2 (cut 58 url).2).

Lemma upTo_app stop a b :
  Forall (λ c, stop c = false) a → match b with [] => True | c :: _ => stop c = true end → upTo stop (a ++ b) = a.
Proof.
  induction 1 as [|c a Hc _ IH]; intros Hb; simpl; [destruct b; simpl; [done|by rewrite Hb]|]. rewrite Hc. f_equal. auto.
Qed.
Lemma plain_ends c : (42 < c < 47 ∨ 47 < c < 63 ∨ 63 < c < 127)%Z → endsAuthority c = false.
Proof. intros H. apply bool_decide_eq_false. rewrite !elem_of_cons. intros [->|[->|[->|[]%not_elem_of_nil]]]; lia. Qed.
Lemma ip_ends c : ipByte c → endsAuthority c = false.
Proof.
  intros [[x H]|[->| ->]]; [|done..]. unfold hex_value, is_digit in H.
  apply plain_ends. repeat case_match; simplify_eq; rewrite ?andb_true_iff, ?Z.leb_le in *; lia.
Qed.
Lemma pretty_digits (p : Z) : Forall (λ c, endsAuthority c = false) (bytes_of (pretty p)).
Proof.
  assert (∀ n : N, Forall (λ c, endsAuthority c = false) (bytes_of (pretty n))) as Hn.
  { assert (∀ (x : N) s, Forall (λ c, endsAuthority c = false) (bytes_of s) →
      Forall (λ c, endsAuthority c = false) (bytes_of (pretty_N_go x s))) as Hgo.
    { intros x. induction (N.lt_wf_0 x) as [x _ IH]; intros s Hs.
      destruct (decide (0 < x)%N); [|assert (x = 0%N) as -> by lia; by rewrite pretty_N_go_0].
      rewrite pretty_N_go_step by done. apply IH; [by apply N.div_lt|]. unfold bytes_of. simpl. constructor; [|done].
      unfold pretty_N_char. by case_match; repeat case_match. }
    intros n. unfold pretty, pretty_N. case_decide; [by repeat constructor|]. apply Hgo. constructor. }
  destruct p; simpl; [repeat constructor|apply (Hn (N.pos p))|].
  unfold pretty, pretty_Z. change (Forall (λ c, endsAuthority c = false) (bytes_of ("-" +:+ pretty (N.pos p)))).
  rewrite bytes_app. apply Forall_app. split; [by repeat constructor|apply Hn].
Qed.
Lemma address_ends target port ip : ParseIP target = Some ip →
  Forall (λ c, endsAuthority c = false) (bytes_of (tcpProbeAddress target port)).
Proof.
  intros Hip%ParseIP_bytes. assert (Forall (λ c, endsAuthority c = false) (bytes_of target)) as Ht
    by (eapply Forall_impl; [done|apply ip_ends]).
  unfold tcpProbeAddress, JoinHostPort. case_match; rewrite !bytes_app; rewrite ?Forall_app; split_and?; try done;
    try apply pretty_digits; by repeat constructor.
Qed.
(** A path is empty or starts with a slash. *)
Definition rooted (s : list Z) : Prop := match s with [] => True | c :: _ => c = 47%Z end.
Lemma cut_rooted sep s : sep ≠ 47%Z → rooted s → rooted (cut sep s).1.
Proof.
  destruct s as [|c s]; [done|]. intros Hs ->. cbn [cut]. destruct (Z.eqb_spec 47 sep); [congruence|]. by destruct (cut sep s).
Qed.
Lemma cut_rest sep s : match drop (length (cut sep s).1) s with [] => True | c :: _ => c = sep end.
Proof.
  induction s as [|c s IH]; simpl; [done|]. destruct (Z.eqb_spec c sep) as [->|]; simpl; [done|].
  by destruct (cut sep s).
Qed.
Lemma unescape_rooted s t : rooted s → unescape s = Some t → rooted t.
Proof.
  destruct s as [|c s]; [by intros _ [= <-]|]. intros ->. cbn [unescape]. change (47 =? cPercent)%Z with false. cbv iota.
  destruct (unescape s); [by intros [= <-]|done].
Qed.
Lemma parseReference_rooted s h path query : rooted s → parseReference s = Some (h, path, query) → rooted path.
Proof.
  intros Hs. unfold parseReference. destruct (cut 35 s) as [u frag] eqn:Hu. case_match; [done|].
  assert (rooted u) as Hru by (by apply (f_equal fst) in Hu; simpl in Hu; subst; apply cut_rooted).
  destruct (cut 63 u) as [rest q] eqn:Hq.
  assert (rooted rest) as Hrr by (by apply (f_equal fst) in Hq; simpl in Hq; subst; apply cut_rooted).
  destruct (hasPrefix _ rest && _).
  - destruct (parseAuthority _); [|done].
    destruct (unescape _) as [p|] eqn:Hp; [|done]. destruct (unescape frag); [|done]. intros [= <- <- <-].
    eapply unescape_rooted; [|exact Hp]. apply cut_rest.
  - destruct (unescape rest) as [p|] eqn:Hp; [|done]. destruct (unescape frag); [|done]. intros [= <- <- <-].
    by eapply unescape_rooted.
Qed.
(** A URL that is built has the address of the target as its host, whatever the path. *)
Lemma probeURL_authority scheme target port path url :
  scheme = "http" ∨ scheme = "https" → buildHTTPProbeURL scheme target port path = inr url →
  authority (bytes_of url) = bytes_of (tcpProbeAddress target port).
Proof.
  intros Hscheme. unfold buildHTTPProbeURL, validateProbeTarget. destruct (ParseIP target) as [ip|] eqn:Hip; [|done].
  change (toErr None) with (@None err). cbv iota zeta. set (p1 := if bool_decide (path = "") then _ else _). set (p2 := if hasPrefix [47]%Z _ then _ else _).
  assert (rooted (bytes_of p2)) as Hroot.
  { unfold p2. destruct (hasPrefix _ _) eqn:Hp; [|done]. destruct (bytes_of p1) as [|c t]; [done|]. cbn [hasPrefix] in Hp.
    rewrite andb_true_r in Hp. by apply Z.eqb_eq in Hp. }
  destruct (parseReference (bytes_of p2)) as [[[[] pth] q]|] eqn:Hr; [done| |done].
  apply parseReference_rooted in Hr; [|done]. change (JoinHostPort target (pretty port)) with (tcpProbeAddress target port).
  set (tail := string_of (escapePath pth) +:+ _). intros [= <-].
  assert (match bytes_of tail with [] => True | c :: _ => endsAuthority c = true end) as Htail.
  { unfold tail. rewrite bytes_app. destruct pth as [|c pth]; simpl in Hr; [|by subst c]. by destruct (bool_decide (q = [])). }
  pose proof (upTo_app endsAuthority _ _ (address_ends _ port _ Hip) Htail) as Hup.
  rewrite <- bytes_app in Hup. destruct Hscheme as [-> | ->]; exact Hup.
Qed.

(** ** The contacts of a probe *)
Section Contacts.
Context {N C : Type} `{!Network N C} `{!Clock N} `{!MapOrder N}.
Abbreviation M := (ST (N * list contact)).

(** What a computation returns and records. *)
Definition contacts {A} (m : M A) (Q : A → list contact → Prop) : Prop :=
  ∀ n log, ∃ l, (m (n, log)).2.2 = log ++ l ∧ Q (m (n, log)).1 l.
Definition silent {A} (m : M A) : Prop := contacts m (λ _ l, l = []).
Lemma contacts_ret {A} (a : A) (Q : A → list contact → Prop) : Q a [] → contacts (mret a) Q.
Proof. intros H n log. exists []. by rewrite app_nil_r. Qed.
Lemma contacts_bind {A B} (m : M A) (k : A → M B) P (Q : B → list contact → Prop) :
  contacts m P → (∀ a l, P a l → contacts (k a) (λ b l', Q b (l ++ l'))) → contacts (x ← m; k x) Q.
Proof.
  intros Hm Hk n log. destruct (Hm n log) as (l & Hl & HP). unfold mbind, ST_bind.
  destruct (m (n, log)) as [a [n1 log1]]. simpl in *. subst log1. destruct (Hk a l HP n1 (log ++ l)) as (l' & Hl' & HQ).
  exists (l ++ l'). by rewrite app_assoc.
Qed.
Lemma silent_bind {A B} (m : M A) (k : A → M B) (Q : B → list contact → Prop) :
  silent m → (∀ a, contacts (k a) Q) → contacts (x ← m; k x) Q.
Proof. intros Hm Hk. eapply contacts_bind; [exact Hm|]. intros a l ->. apply Hk. Qed.
Lemma silent_fst {A} (m : ST N A) : silent (on_fst m).
Proof. intros n log. exists []. unfold on_fst. destruct (m n). by rewrite app_nil_r. Qed.
Lemma silent_ret {A} (a : A) : silent (mret a).
Proof. by apply contacts_ret. Qed.
Lemma silent_get : silent (get : M _).
Proof. intros n log. exists []. by rewrite app_nil_r. Qed.
Lemma silent_since start : silent (since start : M Z).
Proof. eapply silent_bind; [apply silent_fst|]. intros. apply silent_ret. Qed.
Lemma silent_default ctx t : silent (contextWithDefaultTimeout ctx t : M Context).
Proof.
  unfold contextWithDefaultTimeout. case_match; [apply silent_ret|].
  eapply silent_bind; [apply silent_fst|]. intros. apply silent_ret.
Qed.
Lemma silent_contextError ctx e : silent (tcpProbeContextError (C := C) ctx e : M err).
Proof.
  eapply silent_bind; [apply silent_fst|]. intros [x|]; [apply silent_ret|]. case_match; [|apply silent_ret].
  case_match; [|apply silent_ret]. eapply silent_bind; [apply silent_fst|]. intros. apply silent_ret.
Qed.
Lemma silent_bindConn ctx conn : silent (bindConnToContext ctx conn : M error).
Proof.
  unfold bindConnToContext. case_match; [|apply silent_ret].
  eapply silent_bind; [apply silent_fst|]. intros. apply silent_ret.
Qed.
Lemma silent_orContext ctx e : silent (orContextErr (C := C) ctx e : M err).
Proof. eapply silent_bind; [apply silent_fst|]. intros. apply silent_ret. Qed.
Lemma contacts_once {A} (c : contact) (m : ST N A) : contacts (recorded c m) (λ _ l, l = [c]).
Proof. intros n log. exists [c]. unfold recorded. by destruct (m n). Qed.
Lemma contacts_failure start e (Q : ProbeResult → list contact → Prop) :
  (∀ r, pr_Success r = false → Q r []) → contacts (failure start e : M ProbeResult) Q.
Proof. intros HQ. eapply silent_bind; [apply silent_since|]. intros. apply contacts_ret. by apply HQ. Qed.
Lemma contacts_successful start (Q : ProbeResult → list contact → Prop) :
  (∀ r, Q r []) → contacts (successful start : M ProbeResult) Q.
Proof. intros HQ. eapply silent_bind; [apply silent_since|]. intros. by apply contacts_ret. Qed.
Lemma contacts_closing conn (m : M ProbeResult) Q : contacts m Q → contacts (closing conn m) Q.
Proof.
  intros Hm. eapply contacts_bind; [exact Hm|]. intros a l HQ. eapply silent_bind; [apply silent_fst|].
  intros _. apply contacts_ret. by rewrite app_nil_r.
Qed.
(** A step of a probe: its silent calls, then a case split. *)
Ltac quiet :=
  first [apply silent_fst | apply silent_since | apply silent_default | apply silent_contextError
        |apply silent_bindConn | apply silent_orContext | apply silent_get | apply silent_ret].
Lemma contacts_exchange ctx conn start send expected f g u (Q : ProbeResult → list contact → Prop) :
  (∀ r, Q r []) → contacts (exchange ctx conn start send expected f g u : M ProbeResult) Q.
Proof.
  intros HQ. unfold exchange. eapply silent_bind; [case_match; quiet|]. intros [e|].
  { eapply silent_bind; [quiet|]. intros. by apply contacts_failure. }
  case_match; [by apply contacts_successful|]. eapply silent_bind; [quiet|]. intros [e|response].
  { eapply silent_bind; [quiet|]. intros. by apply contacts_failure. }
  case_match; [by apply contacts_successful|by apply contacts_failure].
Qed.

(** Only the target, at most once, and once for a success. *)
Definition aimed (target : string) (port : option Z) (c : contact) : Prop :=
  match c, port with
  | Dialed a, Some port => a = tcpProbeAddress target port
  | Requested url, Some port => authority (bytes_of url) = bytes_of (tcpProbeAddress target port)
  | Ran args, None => last args = Some target
  | _, _ => False
  end.
Definition onlyTo (target : string) (port : option Z) (r : ProbeResult) (l : list contact) : Prop :=
  match l with
  | [] => pr_Success r = false
  | [c] => aimed target port c ∧ is_Some (ParseIP target)
  | _ => False
  end.
Definition port2 (p : V2Prober) : option Z :=
  match p with
  | Health.HTTPProber p => Some (hp_port p) | Health.TCPProber port _ _ => Some port
  | PingProber => None | Health.TLSHelloProber port => Some port
  end.
Definition port1 (p : Prober) : option Z :=
  match p with HTTP p => Some (h1_port p) | TCP p => Some (t1_port p) | Ping _ => None | TLSHello p => Some (l1_port p) end.

Lemma contacts_guarded target port start (m : M ProbeResult) :
  (is_Some (ParseIP target) → contacts m (onlyTo target port)) →
  contacts (match toErr (validateProbeTarget target) with Some e => failure start e | None => m end) (onlyTo target port).
Proof.
  intros Hm. unfold validateProbeTarget. destruct (ParseIP target) eqn:Hp; simpl; [apply Hm; eauto|].
  by apply contacts_failure.
Qed.
(** One contact, then silence. *)
Lemma contacts_then {A} target port c (m : ST N A) (k : A → M ProbeResult) :
  aimed target port c → is_Some (ParseIP target) → (∀ a, contacts (k a) (λ r l, l = [])) →
  contacts (x ← recorded c m; k x) (onlyTo target port).
Proof.
  intros Hc Hp Hk. eapply contacts_bind; [apply contacts_once|]. intros a l ->.
  intros n log. destruct (Hk a n log) as (l & Hl & ->). exists []. by split.
Qed.
Lemma request_url method url port req : NewRequest method url port = inr req → req_url req = url.
Proof. unfold NewRequest. destruct (negb _); [done|]. destruct (_ <? _)%Z; [done|]. by intros [= <-]. Qed.
Lemma setHost_url host req : req_url (setHost host req) = req_url req.
Proof. unfold setHost. by case_match. Qed.
Lemma built_target scheme target port path url :
  buildHTTPProbeURL scheme target port path = inr url → is_Some (ParseIP target).
Proof. unfold buildHTTPProbeURL, validateProbeTarget. destruct (ParseIP target); [eauto|done]. Qed.

Lemma httpProbe_contacts p ctx target :
  contacts (httpProbe p ctx target : M ProbeResult) (onlyTo target (Some (hp_port p))).
Proof.
  eapply silent_bind; [quiet|]. intros start. cbv zeta.
  destruct (buildHTTPProbeURL _ _ _ _) as [e|url] eqn:Hb; [by apply contacts_ret|].
  destruct (NewRequest _ _ _) as [e|req] eqn:Hr; [by apply contacts_ret|].
  eapply silent_bind; [quiet|]. intros n. apply contacts_then.
  - simpl. rewrite setHost_url, (request_url _ _ _ _ Hr). eapply probeURL_authority; [|exact Hb]. destruct (hp_useTLS p); auto.
  - by eapply built_target.
  - intros [e|status]; [by apply contacts_failure|]. eapply silent_bind; [quiet|]. intros [e|]; [by apply contacts_failure|].
    eapply silent_bind; [quiet|]. intros. by apply contacts_ret.
Qed.
Lemma tcpProbe_contacts port send expected ctx target :
  contacts (tcpProbe port send expected ctx target : M ProbeResult) (onlyTo target (Some port)).
Proof.
  eapply silent_bind; [quiet|]. intros start. apply contacts_guarded. intros Hp. apply contacts_then; [done..|].
  intros [e|conn]; [by apply contacts_failure|]. apply contacts_closing. eapply silent_bind; [quiet|].
  intros [e|]; [by apply contacts_failure|by apply contacts_exchange].
Qed.
Lemma tlsHelloProbe_contacts port ctx target :
  contacts (tlsHelloProbe port ctx target : M ProbeResult) (onlyTo target (Some port)).
Proof.
  eapply silent_bind; [quiet|]. intros start. apply contacts_guarded. intros Hp. apply contacts_then; [done..|].
  intros [e|conn]; [by apply contacts_failure|]. by apply contacts_closing, contacts_successful.
Qed.
Lemma pingProbe_contacts goos ctx target :
  contacts (pingProbe goos ctx target : M ProbeResult) (onlyTo target None).
Proof.
  eapply silent_bind; [quiet|]. intros start. apply contacts_guarded. intros Hp. eapply silent_bind; [quiet|].
  intros ctx'. eapply contacts_bind with (P := λ args l, l = [] ∧ last args = Some target).
  { case_match; [|by apply contacts_ret]. eapply silent_bind; [quiet|]. intros. by apply contacts_ret. }
  intros args l [-> Hargs]. change (contacts (x ← recorded (Ran args) (CombinedOutput ctx' args);
    (let '(_, e) := x in match e with Some e => failure start e | None => successful start end)) (onlyTo target None)).
  apply contacts_then; [done..|]. intros [o [e|]]; [by apply contacts_failure|by apply contacts_successful].
Qed.
Lemma ProbeHTTP_contacts p ctx target :
  contacts (ProbeHTTP p ctx target : M ProbeResult) (onlyTo target (Some (h1_port p))).
Proof.
  eapply silent_bind; [quiet|]. intros start. apply contacts_guarded. intros Hp. cbv zeta.
  destruct (buildHTTPProbeURL _ _ _ _) as [e|url] eqn:Hb; [by apply contacts_failure|].
  destruct (NewRequest _ _ _) as [e|req] eqn:Hr; [by apply contacts_failure|].
  eapply silent_bind; [quiet|]. intros n. apply contacts_then; [|done|].
  - simpl. rewrite setHost_url, (request_url _ _ _ _ Hr). eapply probeURL_authority; [|exact Hb]. destruct (h1_useHTTPS p); auto.
  - intros resp. eapply silent_bind; [quiet|]. intros latency. destruct resp as [e|status]; [by apply contacts_ret|].
    eapply silent_bind; [quiet|]. intros. by apply contacts_ret.
Qed.
Lemma ProbeTCP_contacts p ctx target :
  contacts (ProbeTCP p ctx target : M ProbeResult) (onlyTo target (Some (t1_port p))).
Proof.
  eapply silent_bind; [quiet|]. intros start. apply contacts_guarded. intros Hp. apply contacts_then; [done..|].
  intros [e|conn]; [by apply contacts_failure|]. apply contacts_closing. eapply silent_bind; [quiet|].
  intros [e|]; [by apply contacts_failure|by apply contacts_exchange].
Qed.
Lemma ProbeTLSHello_contacts p ctx target :
  contacts (ProbeTLSHello p ctx target : M ProbeResult) (onlyTo target (Some (l1_port p))).
Proof.
  eapply silent_bind; [quiet|]. intros start. apply contacts_guarded. intros Hp. eapply silent_bind; [quiet|].
  intros ctx'. apply contacts_then; [done..|]. intros [e|conn]; [|by apply contacts_closing, contacts_successful].
  eapply silent_bind; [quiet|]. intros. by apply contacts_failure.
Qed.
Lemma ProbePing_contacts goos timeout ctx target :
  contacts (ProbePing goos timeout ctx target : M ProbeResult) (onlyTo target None).
Proof.
  eapply silent_bind; [quiet|]. intros start. apply contacts_guarded. intros Hp. eapply silent_bind; [quiet|].
  intros ctx'. destruct (pingArgs goos timeout target) as [args|] eqn:Ha; [|by apply contacts_failure].
  apply contacts_then; [|done|].
  - unfold pingArgs in Ha. simpl. by repeat (case_match; simplify_eq).
  - intros [o e]. eapply silent_bind; [quiet|]. intros latency. destruct e as [e|]; [|by apply contacts_ret].
    eapply silent_bind; [quiet|]. intros. by apply contacts_ret.
Qed.

End Contacts.

(** ** Probers from settings *)
Section Settings.
Context {H : HttpGuts}.
Variable outOfRange : spec_float → Z.

Lemma configInt_same raw : healthCheckConfigInt outOfRange raw = healthCheckInt outOfRange raw.
Proof. by destruct raw. Qed.
Lemma parsePort_valid kind config port :
  Models.healthCheckConfigInt outOfRange config "port" 1 65535 = inr port →
  parsePort outOfRange kind config = inr port ∧ (1 <= port <= 65535)%Z.
Proof.
  unfold Models.healthCheckConfigInt, parsePort, present. destruct (config !! "port") as [raw|]; [|done].
  rewrite configInt_same. intros Hr. assert (match raw with Nil => None | _ => Some raw end = Some raw) as Hn by (by destruct raw).
  rewrite Hn in Hr. destruct (healthCheckInt outOfRange raw) as [z|]; [|done].
  destruct (Z.ltb_spec z 1), (Z.ltb_spec 65535 z); simpl in Hr; simplify_eq. split; [done|lia].
Qed.
Definition codeOk (c : Z) : Prop := (100 <= c <= 599)%Z.
Lemma validCode raw : validateExpectedCode outOfRange raw = None →
  ∃ c, healthCheckConfigInt outOfRange raw = Some c ∧ codeOk c.
Proof.
  unfold validateExpectedCode, codeOk. pose proof (configInt_same raw) as Hs. destruct (healthCheckInt outOfRange raw) as [c|]; [|done].
  destruct (Z.ltb_spec c 100), (Z.ltb_spec 599 c); simpl; try done. intros _. exists c. split; [done|lia].
Qed.
Lemma codesOf_valid l codes :
  (∀ v, v ∈ l → validateExpectedCode outOfRange v = None) → set_Forall codeOk codes →
  ∃ codes', codesOf outOfRange l codes = inr codes' ∧ set_Forall codeOk codes'.
Proof.
  revert codes. induction l as [|v l IH]; intros codes Hl Hc; simpl; [by exists codes|].
  destruct (validCode v (Hl v (list_elem_of_here _ _))) as (c & -> & Hok). apply IH.
  - intros w Hw. apply Hl. by right.
  - intros x [->%elem_of_singleton|Hx]%elem_of_union; [done|by apply Hc].
Qed.
Lemma parseCodes_valid raw :
  Models.validateExpectedCodes outOfRange (Some raw) = None →
  ∃ codes, parseHTTPExpectedCodes outOfRange raw = inr codes ∧ set_Forall codeOk codes.
Proof.
  destruct raw as [| | | | | | |l|l|l| |]; try done; simpl; intros Hf; pose proof (noError_each _ _ Hf) as Hv.
  - by apply codesOf_valid.
  - exists (list_to_set l). split; [done|]. intros c Hc%elem_of_list_to_set.
    destruct (validCode _ (Hv c Hc)) as (c' & [= ->] & ?). done.
  - apply codesOf_valid; [|done]. intros v (f & -> & Hf')%list_elem_of_fmap. by apply (Hv f).
Qed.

(** The settings of a prober are within bounds. *)
Definition proberOk (p : Prober) : Prop :=
  match p with
  | HTTP p => (1 <= h1_port p <= 65535)%Z ∧ set_Forall codeOk (h1_expectedCodes p) ∧ h1_method p ∈ [""; "GET"; "HEAD"; "POST"]
  | TCP p => (1 <= t1_port p <= 65535)%Z
  | TLSHello p => (1 <= l1_port p <= 65535)%Z
  | Ping _ => True
  end.
Lemma firstError_all (l : list error) : firstError id l = None → Forall (λ e, e = None) l.
Proof. intros Hl. apply Forall_forall. intros e He. exact (noError_each id l Hl e He). Qed.
Lemma method_valid config :
  validateHTTPMethodConfig (stringSetting config "method") = None →
  match config !! "method" with Some (Str m) => string_of (toUpper (bytes_of m)) | _ => "GET" end ∈ [""; "GET"; "HEAD"; "POST"].
Proof.
  unfold validateHTTPMethodConfig, stringSetting.
  destruct (config !! "method") as [[| | | | | |m| | | | |]|]; try (intros _; right; by left).
  case_bool_decide as Hm; [subst; intros _; by left|]. case_bool_decide as Hu; [|done]. intros _. right.
  rewrite !elem_of_cons in Hu. rewrite !elem_of_cons.
  destruct Hu as [-> | [-> | [-> | []%not_elem_of_nil]]]; rewrite string_bytes; auto.
Qed.
Lemma parseHTTP_valid config useHTTPS timeout port :
  Models.healthCheckConfigInt outOfRange config "port" 1 65535 = inr port →
  validateHTTPHealthCheckConfig outOfRange config = None →
  ∃ p, parseHTTPConfig outOfRange useHTTPS timeout config = inr p ∧ proberOk (HTTP p).
Proof.
  intros Hp Hv%firstError_all. destruct (parsePort_valid "HTTP" _ _ Hp) as [Hport Hrange].
  assert (validateHTTPMethodConfig (stringSetting config "method") = None) as Hmethod%method_valid
    by exact (proj1 (Forall_forall _ _) Hv _ ltac:(do 3 right; left)).
  assert (Models.validateExpectedCodes outOfRange (present config "expected_codes") = None) as Hcodes
    by exact (proj1 (Forall_forall _ _) Hv _ ltac:(do 7 right; left)).
  unfold parseHTTPConfig. rewrite Hport. destruct (present config "expected_codes") as [raw|].
  - destruct (parseCodes_valid _ Hcodes) as (codes & -> & Hok). eexists. split; [done|]. done.
  - eexists. split; [done|]. split; [done|]. split; [|done]. simpl. intros c ->%elem_of_singleton. done.
Qed.

(** A prober of version 1 is built exactly for a check whose type and settings the
    shared validation accepts; its port is then a port, its method GET, HEAD, POST or the
    default, and the codes it expects are HTTP status codes. *)
Theorem NewProber_exact hc :
  match NewProber outOfRange (Some hc) with
  | inr p => ValidateHealthCheckConfig outOfRange (h_Type hc) (h_Config hc) = None ∧ proberOk p
  | inl _ => is_Some (ValidateHealthCheckConfig outOfRange (h_Type hc) (h_Config hc))
  end.
Proof.
  unfold NewProber. set (valid := ValidateHealthCheckConfig _ _ _).
  assert (∀ t, h_Type hc = t → t ∈ [HCTypeHTTP; HCTypeHTTPS; HCTypeTCP; HCTypeTLSHello] → valid = None →
    ∃ config port, h_Config hc = Some config ∧ Models.healthCheckConfigInt outOfRange config "port" 1 65535 = inr port ∧
      (t ∈ [HCTypeHTTP; HCTypeHTTPS] → validateHTTPHealthCheckConfig outOfRange config = None)) as Hneed.
  { intros t Ht Hin. unfold valid, ValidateHealthCheckConfig. rewrite Ht, bool_decide_eq_true_2 by done.
    destruct (h_Config hc) as [config|]; [|done]. destruct (Models.healthCheckConfigInt _ _ _ _ _) as [|port] eqn:Hp; [done|].
    intros Hv. exists config, port. split_and!; [done|done|]. intros Hh. by rewrite bool_decide_eq_true_2 in Hv by done. }
  assert (∀ b, h_Type hc ∈ [HCTypeHTTP; HCTypeHTTPS] →
    match wrapped HTTP (NewHTTPProber outOfRange hc b) with
    | inr p => valid = None ∧ proberOk p | inl _ => is_Some valid end) as Hhttp.
  { intros b Hin. unfold NewHTTPProber. fold valid. destruct valid eqn:Hv; [simpl; eauto|].
    destruct (Hneed _ eq_refl ltac:(rewrite !elem_of_cons in *; tauto) eq_refl) as (config & port & Hc & Hp & Hvh).
    unfold settings. rewrite Hc. simpl. destruct (parseHTTP_valid config b (timeoutOf hc) port Hp (Hvh Hin)) as (p & -> & Hok). done. }
  case_bool_decide as H1; [apply Hhttp; rewrite H1; by left|].
  case_bool_decide as H2; [apply Hhttp; rewrite H2; right; by left|].
  case_bool_decide as H3.
  { unfold NewTCPProber. fold valid. destruct valid eqn:Hv; [simpl; eauto|].
    destruct (Hneed _ H3 ltac:(do 2 right; left) eq_refl) as (config & port & Hc & Hp & _).
    unfold settings, parseTCPConfig. rewrite Hc. simpl. by destruct (parsePort_valid "TCP" _ _ Hp) as [-> ?]. }
  case_bool_decide as H4.
  { unfold valid, ValidateHealthCheckConfig. rewrite H4. done. }
  case_bool_decide as H5.
  { unfold NewTLSHelloProber. fold valid. destruct valid eqn:Hv; [simpl; eauto|].
    destruct (Hneed _ H5 ltac:(do 3 right; left) eq_refl) as (config & port & Hc & Hp & _).
    unfold settings, parseTLSHelloPort. rewrite Hc. simpl. destruct (parsePort_valid "TLS hello" _ _ Hp) as [-> Hr].
    destruct (Z.ltb_spec port 1), (Z.ltb_spec 65535 port); simpl; (done || lia). }
  unfold valid, ValidateHealthCheckConfig. rewrite !bool_decide_eq_false_2; [eauto|done|].
  rewrite !elem_of_cons. intros [?|[?|[?|[?|[]%not_elem_of_nil]]]]; done.
Qed.
End Settings.
End ProbeSafety.

(** ** Concrete probes *)
Module ProbeExamples.
Import Models Validation Health Etcd ProbeURL Probers V1Probers.

#[local] Instance guts : HttpGuts :=
  {| ValidHostHeader := λ _, true; ValidHeaderFieldName := λ _, true; ValidHeaderFieldValue := λ _, true |}.
Definition check (config : HCConfig) : HealthCheck :=
  {| h_ID := "h"; h_VIPID := "a"; h_Type := HCTypeHTTP; h_IntervalSec := 5; h_TimeoutSec := 1; h_RiseCount := 2; h_FallCount := 2;
     h_Config := Some config; h_CreatedAt := None; h_UpdatedAt := None |}.

Lemma probe_urls :
  buildHTTPProbeURL "http" "10.0.0.1" 8080 "healthz?full=1" = inr "http://10.0.0.1:8080/healthz?full=1" ∧
  buildHTTPProbeURL "https" "2001:db8::1" 443 "" = inr "https://[2001:db8::1]:443/" ∧
  is_Some (match buildHTTPProbeURL "http" "10.0.0.1" 80 "//other.example/x" with inl e => Some e | inr _ => None end) ∧
  is_Some (match buildHTTPProbeURL "http" "backend.example" 80 "/" with inl e => Some e | inr _ => None end).
Proof. split_and!; first [reflexivity | by vm_compute; eexists]. Qed.
(** An escaped slash is requested as a slash. *)
Lemma escaped_slash_lost : buildHTTPProbeURL "http" "10.0.0.1" 80 "/a%2Fb" = inr "http://10.0.0.1:80/a/b".
Proof. reflexivity. Qed.
(** An empty list of codes is valid, and no response is then expected. *)
Lemma no_code_expected :
  match NewProber (λ _, 0%Z) (Some (check {["port" := Int 80; "expected_codes" := Slice []]})) with
  | inr (HTTP p) => h1_expectedCodes p = ∅
  | _ => False
  end.
Proof. reflexivity. Qed.
End ProbeExamples.
