(* ===== verification/V1Health.v ===== *)
(** * The version 1 health checker (internal/agent/healthcheck: state.go, job.go, worker.go,
    manager.go, callback.go)

    Backends are probed on a schedule per virtual IP through a queue of jobs and a queue of
    results; a tracker turns results into states, and a callback tells VPP and FRR.
    Operations of the manager are functions on its fields; schedulers, workers and the
    result loop are the steps of [step], interleaved at will with each other and with
    the operations. *)

From Stdlib Require Import SpecFloat.
From stdpp Require Import base tactics list gmap strings pretty.
From S2P Require Import Prelude Types Net Routing Validation Health Duration Config Models Etcd EtcdSafety V1State V1Config Probers.

Module V1Health.
Import Models Validation Etcd Probers V1Probers.

(** ** States (state.go) *)
Inductive BackendState := StateUnknown | StateUp | StateDown.
#[export] Instance BackendState_eq_dec : EqDecision BackendState.
Proof. solve_decision. Defined.
Record BackendHealthState := {
  State : BackendState; ConsecutiveUp : Z; ConsecutiveDown : Z; LastProbeResult : ProbeResult; LastStateChange : Z;
}.
Definition noResult : ProbeResult := {| pr_Success := false; pr_Latency := 0; pr_StatusCode := 0; pr_Error := None; pr_Timestamp := 0 |}.
(** [states], by ["vipID:backendID"]. *)
Abbreviation StateTracker := (gmap string BackendHealthState).
Definition NewStateTracker : StateTracker := ∅.
Definition getKey (vipID backendID : string) : string := vipID +:+ ":" +:+ backendID.
Definition GetState (vipID backendID : string) (st : StateTracker) : BackendState * bool :=
  match st !! getKey vipID backendID with None => (StateUnknown, false) | Some s => (State s, true) end.
Definition GetHealthState (vipID backendID : string) (st : StateTracker) : option BackendHealthState :=
  st !! getKey vipID backendID.
Definition GetAllStates (st : StateTracker) : StateTracker := st.

Definition initialState (now : Z) : BackendHealthState :=
  {| State := StateUnknown; ConsecutiveUp := 0; ConsecutiveDown := 0; LastProbeResult := noResult; LastStateChange := now |}.
(** The state of a backend after one more result. *)
Definition nextState (prev : BackendState) (up down riseCount fallCount : Z) : BackendState :=
  match prev with
  | StateUnknown => if (riseCount <=? up)%Z then StateUp else if (fallCount <=? down)%Z then StateDown else prev
  | StateUp => if (fallCount <=? down)%Z then StateDown else prev
  | StateDown => if (riseCount <=? up)%Z then StateUp else prev
  end.
Definition recordResult (now : Z) (result : ProbeResult) (riseCount fallCount : Z) (s : BackendHealthState)
    : BackendHealthState :=
  let up := if pr_Success result then wrapS 64 (ConsecutiveUp s + 1) else 0%Z in
  let down := if pr_Success result then 0%Z else wrapS 64 (ConsecutiveDown s + 1) in
  let newState := nextState (State s) up down riseCount fallCount in
  if bool_decide (newState = State s)
  then {| State := State s; ConsecutiveUp := up; ConsecutiveDown := down; LastProbeResult := result;
          LastStateChange := LastStateChange s |}
  else {| State := newState; ConsecutiveUp := 0; ConsecutiveDown := 0; LastProbeResult := result; LastStateChange := now |}.
(** [now] is read when the backend is new, [now'] when its state changes. *)
Definition UpdateProbeResult (now now' : Z) (vipID backendID : string) (result : ProbeResult) (riseCount fallCount : Z)
    (st : StateTracker) : (BackendState * BackendState * bool) * StateTracker :=
  let key := getKey vipID backendID in
  let s := default (initialState now) (st !! key) in
  let s' := recordResult now' result riseCount fallCount s in
  ((State s, State s', bool_decide (State s' ≠ State s)), <[key := s']> st).
Definition RemoveBackend (vipID backendID : string) (st : StateTracker) : StateTracker := delete (getKey vipID backendID) st.
(** A longer key with the prefix ["vipID:"]. *)
Definition keyOfVIP (vipID key : string) : bool :=
  let prefix := bytes_of (vipID +:+ ":") in
  (length prefix <? length (bytes_of key))%nat && hasPrefix prefix (bytes_of key).
Definition RemoveVIP (vipID : string) (st : StateTracker) : StateTracker :=
  filter (λ '(key, _), keyOfVIP vipID key = false) st.

(** ** Jobs (job.go) and their results (worker.go) *)
Record ProbeJob := {
  pj_VIPID : string; pj_BackendID : string; pj_BackendIP : string; pj_Prober : Prober; pj_RiseCount : Z; pj_FallCount : Z;
}.
Record ProbeJobResult := { jr_VIPID : string; jr_BackendID : string; jr_Result : ProbeResult; jr_RiseCount : Z; jr_FallCount : Z }.
(** A schedule and its goroutine: [vs_pending] are the backends left in its current round,
    [vs_stopped] says that its channel is closed. *)
Record VIPSchedule := {
  vs_vipID : string; vs_vipConfig : VIPConfig; vs_prober : Prober; vs_interval : Z; vs_riseCount : Z; vs_fallCount : Z;
  vs_pending : list Backend; vs_stopped : bool;
}.
(** Schedules are numbered; those whose goroutine runs are in [js_running]. *)
Record JobScheduler := { vipSchedules : gmap string nat; js_running : gmap nat VIPSchedule; js_next : nat }.
Definition NewJobScheduler : JobScheduler := {| vipSchedules := ∅; js_running := ∅; js_next := 0 |}.
Definition setPending (pending : list Backend) (vs : VIPSchedule) : VIPSchedule :=
  {| vs_vipID := vs_vipID vs; vs_vipConfig := vs_vipConfig vs; vs_prober := vs_prober vs; vs_interval := vs_interval vs;
     vs_riseCount := vs_riseCount vs; vs_fallCount := vs_fallCount vs; vs_pending := pending; vs_stopped := vs_stopped vs |}.
(** [VIPSchedule.stop] *)
Definition stop (vs : VIPSchedule) : VIPSchedule :=
  {| vs_vipID := vs_vipID vs; vs_vipConfig := vs_vipConfig vs; vs_prober := vs_prober vs; vs_interval := vs_interval vs;
     vs_riseCount := vs_riseCount vs; vs_fallCount := vs_fallCount vs; vs_pending := vs_pending vs; vs_stopped := true |}.
Definition StopVIP (vipID : string) (js : JobScheduler) : JobScheduler :=
  match vipSchedules js !! vipID with
  | None => js
  | Some i => {| vipSchedules := delete vipID (vipSchedules js); js_running := alter stop i (js_running js); js_next := js_next js |}
  end.
(** The goroutine starts with a round. *)
Definition StartVIP (vipConfig : VIPConfig) (prober : Prober) (js : JobScheduler) : JobScheduler :=
  match vc_HealthCheck vipConfig with
  | None => js
  | Some hc =>
      let vipID := v_ID (vc_VIP vipConfig) in
      let js := StopVIP vipID js in
      {| vipSchedules := <[vipID := js_next js]> (vipSchedules js);
         js_running :=
           <[js_next js :=
               {| vs_vipID := vipID; vs_vipConfig := vipConfig; vs_prober := prober;
                  vs_interval := wrapS 64 (h_IntervalSec hc * Second); vs_riseCount := h_RiseCount hc; vs_fallCount := h_FallCount hc;
                  vs_pending := vc_Backends vipConfig; vs_stopped := false |}]> (js_running js);
         js_next := S (js_next js) |}
  end.
(** [Stop] closes every schedule and waits for the goroutines. *)
Definition StopScheduler (js : JobScheduler) : JobScheduler :=
  {| vipSchedules := ∅; js_running := ∅; js_next := js_next js |}.
(** One turn of the loop of [emitJobs]: the job of a backend. *)
Definition jobFor (vs : VIPSchedule) (backend : Backend) : ProbeJob :=
  {| pj_VIPID := vs_vipID vs; pj_BackendID := b_ID backend; pj_BackendIP := b_IP backend; pj_Prober := vs_prober vs;
     pj_RiseCount := vs_riseCount vs; pj_FallCount := vs_fallCount vs |}.
(** A send that does not block. *)
Definition trySend {A} (capacity : nat) (a : A) (ch : list A) : list A :=
  if (length ch <? capacity)%nat then ch ++ [a] else ch.
Definition resultFor (job : ProbeJob) (result : ProbeResult) : ProbeJobResult :=
  {| jr_VIPID := pj_VIPID job; jr_BackendID := pj_BackendID job; jr_Result := result;
     jr_RiseCount := pj_RiseCount job; jr_FallCount := pj_FallCount job |}.

(** ** The manager (manager.go) *)
Record Manager := {
  config : AgentConfig.HealthCheckConfig; started : bool;
  jobCh : list ProbeJob; resultCh : list ProbeJobResult;
  stateTracker : StateTracker; scheduler : JobScheduler;
  vipProbers : gmap string Prober; vipConfigs : gmap string VIPConfig;
}.
Definition NewManager (cfg : AgentConfig.HealthCheckConfig) : Manager :=
  {| config := cfg; started := false; jobCh := []; resultCh := []; stateTracker := NewStateTracker; scheduler := NewJobScheduler;
     vipProbers := ∅; vipConfigs := ∅ |}.
(** The sizes of the two channels and of the worker pool; the configuration has them positive. *)
Definition capacity (m : Manager) : nat := Z.to_nat (AgentConfig.MaxConcurrentChecks (config m)).
Definition workers (m : Manager) : nat := Z.to_nat (AgentConfig.WorkerCount (config m)).
(** The fields that the operations on a virtual IP change. *)
Definition setVIPs (m : Manager) (st : StateTracker) (js : JobScheduler) (ps : gmap string Prober) (cs : gmap string VIPConfig)
    : Manager :=
  {| config := config m; started := started m; jobCh := jobCh m; resultCh := resultCh m; stateTracker := st; scheduler := js;
     vipProbers := ps; vipConfigs := cs |}.
Definition setChannels (m : Manager) (jobs : list ProbeJob) (results : list ProbeJobResult) (st : StateTracker) (js : JobScheduler)
    : Manager :=
  {| config := config m; started := started m; jobCh := jobs; resultCh := results; stateTracker := st; scheduler := js;
     vipProbers := vipProbers m; vipConfigs := vipConfigs m |}.

Definition Start (m : Manager) : error * Manager :=
  if started m then (Some (ErrMsg "health check manager already started"), m)
  else (None, {| config := config m; started := true; jobCh := []; resultCh := []; stateTracker := stateTracker m;
                 scheduler := NewJobScheduler; vipProbers := vipProbers m; vipConfigs := vipConfigs m |}).
(** Everything is waited for; the tracker is left as it is. *)
Definition Stop (m : Manager) : Manager :=
  if negb (started m) then m
  else {| config := config m; started := false; jobCh := []; resultCh := []; stateTracker := stateTracker m;
          scheduler := StopScheduler (scheduler m); vipProbers := ∅; vipConfigs := ∅ |}.
Definition deepCopyVIPConfigForHealthCheck (v : VIPConfig) : VIPConfig :=
  {| vc_VIP := vc_VIP v; vc_HealthCheck := vc_HealthCheck v; vc_Backends := vc_Backends v |}.

Section Operations.
Context {H : HttpGuts}.
Variable outOfRange : spec_float → Z.

(** The existing check of a virtual IP, stopped and forgotten. *)
Definition dropExisting (vipID : string) (m : Manager) : Manager :=
  match vipProbers m !! vipID with
  | None => m
  | Some _ => setVIPs m (RemoveVIP vipID (stateTracker m)) (StopVIP vipID (scheduler m))
                (delete vipID (vipProbers m)) (delete vipID (vipConfigs m))
  end.
Definition StartHealthCheck (vipConfig : VIPConfig) (m : Manager) : error * Manager :=
  match vc_HealthCheck vipConfig with
  | None => (None, m)
  | Some hc =>
      match ValidateHealthCheckTiming hc with
      | Some e => (Some e, m)
      | None =>
          if negb (started m) then (Some (ErrMsg "health check manager not started"), m)
          else
            let vipID := v_ID (vc_VIP vipConfig) in
            let m := dropExisting vipID m in
            match NewProber outOfRange (vc_HealthCheck vipConfig) with
            | inl e => (Some (errorf "failed to create prober: " e), m)
            | inr prober =>
                (None, setVIPs m (stateTracker m) (StartVIP (deepCopyVIPConfigForHealthCheck vipConfig) prober (scheduler m))
                         (<[vipID := prober]> (vipProbers m))
                         (<[vipID := deepCopyVIPConfigForHealthCheck vipConfig]> (vipConfigs m)))
            end
      end
  end.
Definition StopHealthCheck (vipID : string) (m : Manager) : error * Manager :=
  if negb (started m) then (Some (ErrMsg "health check manager not started"), m)
  else (None, setVIPs m (RemoveVIP vipID (stateTracker m)) (StopVIP vipID (scheduler m))
                (delete vipID (vipProbers m)) (delete vipID (vipConfigs m))).
Definition UpdateHealthCheck (vipConfig : VIPConfig) (m : Manager) : error * Manager :=
  let '(e, m) := StopHealthCheck (v_ID (vc_VIP vipConfig)) m in
  match e with
  | Some e => (Some (errorf "failed to stop existing health check: " e), m)
  | None =>
      let '(e, m) := StartHealthCheck vipConfig m in (errorf "failed to start updated health check: " <$> e, m)
  end.
End Operations.

(** A change of state, between the tracker's update and the callback. *)
Record Change := { ch_vipID : string; ch_backendID : string; ch_old : BackendState; ch_new : BackendState }.
(** The two halves of [handleResult]: the tracker; then the configuration and the callback. *)
Definition handleUpdate (now now' : Z) (r : ProbeJobResult) (m : Manager) : option Change * Manager :=
  let '(prev, new, changed, st) :=
    UpdateProbeResult now now' (jr_VIPID r) (jr_BackendID r) (jr_Result r) (jr_RiseCount r) (jr_FallCount r) (stateTracker m) in
  (if changed : bool
   then Some {| ch_vipID := jr_VIPID r; ch_backendID := jr_BackendID r; ch_old := prev; ch_new := new |} else None,
   setChannels m (jobCh m) (resultCh m) st (scheduler m)).

Section Callback.
Context {E : Type}.
(** [StateChangeCallback]: nil or a function. *)
Definition StateChangeCallback : Type := string → string → BackendState → BackendState → Backend → string → ST E unit.
Variable callback : option StateChangeCallback.

Definition notify (c : Change) (m : Manager) : ST E unit :=
  match callback with
  | None => mret tt
  | Some callback =>
      match vipConfigs m !! ch_vipID c with
      | None => mret tt
      | Some vipConfig =>
          match list_find (λ b, b_ID b = ch_backendID c) (vc_Backends vipConfig) with
          | None => mret tt
          | Some (_, backend) =>
              callback (ch_vipID c) (ch_backendID c) (ch_old c) (ch_new c) backend (v_VIP (vc_VIP vipConfig))
          end
      end
  end.
Definition handleResult (now now' : Z) (r : ProbeJobResult) : ST (Manager * E) unit := λ '(m, e),
  let '(c, m) := handleUpdate now now' r m in
  match c with
  | None => (tt, (m, e))
  | Some c => let '(_, e) := notify c m e in (tt, (m, e))
  end.
End Callback.

(** ** Callbacks (callback.go) *)
Class VPPSyncer (V : Type) := { AddBackend : string → Backend → ST V error; DeleteBackend : string → string → ST V error }.
Class FRRManager (F : Type) := { UpdateBackendHealth : string → string → string → BackendState → BackendState → ST F error }.
Section Callbacks.
Context {V F : Type} `{!VPPSyncer V} `{!FRRManager F}.

Definition VPPStateChangeCallback : StateChangeCallback (E := V) := λ vipID backendID oldState newState backend _,
  match newState with
  | StateUp => if bool_decide (oldState ≠ StateUp) then _ ← AddBackend vipID backend; mret tt else mret tt
  | StateDown => if bool_decide (oldState = StateUp) then _ ← DeleteBackend vipID backendID; mret tt else mret tt
  | StateUnknown => mret tt
  end.
(** VPP first, then FRR; the errors are logged. *)
Definition CompositeStateChangeCallback (hasVPP hasFRR : bool) : StateChangeCallback (E := V * F) :=
  λ vipID backendID oldState newState backend vipAddress,
  _ ← on_fst (if hasVPP then
                if bool_decide (newState = StateUp ∧ oldState ≠ StateUp) then _ ← AddBackend vipID backend; mret tt
                else if bool_decide (newState = StateDown ∧ oldState = StateUp) then _ ← DeleteBackend vipID backendID; mret tt
                else mret tt
              else mret tt);
  on_snd (if hasFRR then _ ← UpdateBackendHealth vipID backendID vipAddress oldState newState; mret tt else mret tt).
End Callbacks.

(** ** The goroutines *)
Record World (E : Type) := {
  w_manager : Manager;
  w_probing : list ProbeJob;
  w_change : option Change;
  w_env : E;
}.
Arguments w_manager {E} _.
Arguments w_probing {E} _.
Arguments w_change {E} _.
Arguments w_env {E} _.
Arguments Build_World {E} _ _ _ _.

Section Goroutines.
Context {E : Type}.
Variable callback : option (StateChangeCallback (E := E)).

Definition withScheduler (m : Manager) (jobs : list ProbeJob) (running : gmap nat VIPSchedule) : Manager :=
  setChannels m jobs (resultCh m) (stateTracker m)
    {| vipSchedules := vipSchedules (scheduler m); js_running := running; js_next := js_next (scheduler m) |}.
(** A scheduler between rounds may begin one even when its channel is closed: [select]
    picks any case that is ready.  What a probe finds is up to the network. *)
Inductive step : World E → World E → Prop :=
  | step_tick m probing c e i vs :
      js_running (scheduler m) !! i = Some vs → vs_pending vs = [] →
      step (Build_World m probing c e)
        (Build_World (withScheduler m (jobCh m) (<[i := setPending (vc_Backends (vs_vipConfig vs)) vs]> (js_running (scheduler m))))
           probing c e)
  | step_emit m probing c e i vs backend pending :
      js_running (scheduler m) !! i = Some vs → vs_pending vs = backend :: pending →
      step (Build_World m probing c e)
        (Build_World (withScheduler m (trySend (capacity m) (jobFor vs backend) (jobCh m))
                        (<[i := setPending pending vs]> (js_running (scheduler m)))) probing c e)
  | step_exit m probing c e i vs :
      js_running (scheduler m) !! i = Some vs → vs_pending vs = [] → vs_stopped vs = true →
      step (Build_World m probing c e) (Build_World (withScheduler m (jobCh m) (delete i (js_running (scheduler m)))) probing c e)
  | step_take m probing c e job jobs :
      jobCh m = job :: jobs → (length probing < workers m)%nat →
      step (Build_World m probing c e)
        (Build_World (setChannels m jobs (resultCh m) (stateTracker m) (scheduler m)) (job :: probing) c e)
  | step_probed m before after c e job result :
      step (Build_World m (before ++ job :: after) c e)
        (Build_World (setChannels m (jobCh m) (trySend (capacity m) (resultFor job result) (resultCh m))
                        (stateTracker m) (scheduler m)) (before ++ after) c e)
  | step_update m probing e r results now now' :
      resultCh m = r :: results →
      step (Build_World m probing None e)
        (let '(c, m') := handleUpdate now now' r (setChannels m (jobCh m) results (stateTracker m) (scheduler m)) in
         Build_World m' probing c e)
  | step_notify m probing c e :
      step (Build_World m probing (Some c) e) (Build_World m probing None (notify callback c m e).2).
End Goroutines.
End V1Health.
