(* ===== verification/V1Frr.v ===== *)
(** * The version 1 route manager (internal/agent/frr: manager.go, static_route.go, vtysh.go)

    A virtual IP is announced through FRR while at least one of its backends is healthy.
    The program vtysh is the class [Frr.VTYShell], which the router of version 2 shares. *)

From Stdlib Require Import SpecFloat.
From stdpp Require Import base tactics list gmap strings pretty.
From S2P Require Import Prelude Types Net Routing Validation Duration Config Frr Models Etcd EtcdSafety V1Config Probers V1Health.

Module V1Frr.
Import Validation Etcd V1Health.
Import (notations) Frr.
Abbreviation VTYShell := Frr.VTYShell.
Abbreviation runCommand := Frr.runCommand.
Abbreviation statFile := Frr.statFile.

(** ** vtysh (vtysh.go) *)
Section Vtysh.
Context {E : Type} `{!VTYShell E}.
Variable vtyshPath : string.

Definition Execute (command : string) : ST E (string * error) :=
  '(output, e) ← runCommand vtyshPath ["-c"; command];
  mret (match e with
        | Some e => ("", Some (ErrWrap "vtysh command failed: " e (" (output: " +:+ output +:+ ")")))
        | None => (output, None)
        end).
Definition ExecuteCommands (commands : list string) : ST E (string * error) :=
  '(output, e) ← runCommand vtyshPath (commands ≫= λ cmd, ["-c"; cmd]);
  mret (match e with
        | Some e => ("", Some (ErrWrap "vtysh commands failed: " e (" (output: " +:+ output +:+ ")")))
        | None => (output, None)
        end).

(** ** Static routes (static_route.go) *)
(** The prefix of an address, and the word that starts its commands. *)
Definition cidrOf (vipAddr : string) : err + string * string :=
  match ParseIP vipAddr with
  | None => inl (ErrMsg ("invalid VIP address: " +:+ vipAddr))
  | Some ip =>
      match To4 ip with
      | None => inr (vipAddr +:+ "/128", "ipv6")
      | Some _ => inr (vipAddr +:+ "/32", "ip")
      end
  end.
Definition changeRoute (no failed : string) (vipAddr : string) (tag : Z) : ST E error :=
  match cidrOf vipAddr with
  | inl e => mret (Some e)
  | inr (cidr, family) =>
      let routeCmd := no +:+ family +:+ " route " +:+ cidr +:+ " Null0 tag " +:+ pretty tag in
      '(_, e) ← ExecuteCommands ["configure terminal"; routeCmd; "end"];
      mret (errorf (failed +:+ cidr +:+ ": ") <$> e)
  end.
Definition AddStaticRoute : string → Z → ST E error := changeRoute "" "failed to add static route for ".
Definition DeleteStaticRoute : string → Z → ST E error := changeRoute "no " "failed to delete static route for ".

(** The expression [^\s*S[>*]*\s+([0-9a-fA-F:\.]+/\d+)\s+.*tag\s+(\d+)]: classes of bytes
    are taken greedily, which leaves no choice; [.*] reaches the last tag of the line. *)
Definition isSpace (c : Z) : bool := bool_decide (c ∈ [32; 9; 10; 12; 13]%Z).
Definition isPrefixByte (c : Z) : bool := bool_decide (is_Some (hex_value c)) || bool_decide (c ∈ [46; 58]%Z).
Fixpoint spanBytes (p : Z → bool) (s : list Z) : list Z * list Z :=
  match s with
  | [] => ([], [])
  | c :: s' => if p c then let '(a, b) := spanBytes p s' in (c :: a, b) else ([], s)
  end.
(** One or more bytes of a class. *)
Definition spanPlus (p : Z → bool) (s : list Z) : option (list Z * list Z) :=
  match spanBytes p s with ([], _) => None | r => Some r end.
(** [tag\s+(\d+)] at the start of the text. *)
Definition tagHere (s : list Z) : option (list Z) :=
  if hasPrefix (bytes_of "tag") s then
    '(_, s) ← spanPlus isSpace (drop 3 s);
    '(digits, _) ← spanPlus is_digit s;
    Some digits
  else None.
Fixpoint lastTag (s : list Z) : option (list Z) :=
  match s with
  | [] => None
  | _ :: s' => match lastTag s' with Some t => Some t | None => tagHere s end
  end.
Definition routePattern (line : list Z) : option (list Z * list Z) :=
  match (spanBytes isSpace line).2 with
  | 83%Z :: s =>
      '(_, s) ← spanPlus isSpace (spanBytes (λ c, (c =? 62) || (c =? 42))%Z s).2;
      '(addr, s) ← spanPlus isPrefixByte s;
      match s with
      | 47%Z :: s =>
          '(len, s) ← spanPlus is_digit s;
          '(_, s) ← spanPlus isSpace s;
          tag ← lastTag s;
          Some (addr ++ 47%Z :: len, tag)
      | _ => None
      end
  | _ => None
  end.
Definition parseStaticRoutes (output : string) (tag : Z) : list string :=
  omap (λ line,
    '(routePrefix, routeTag) ← routePattern line;
    if bool_decide (routeTag = bytes_of (pretty tag)) then Some (string_of routePrefix) else None)
    (splitOn 10 (bytes_of output)).
Definition ListStaticRoutes (tag : Z) : ST E (list string * error) :=
  '(output, e) ← Execute "show ip route static";
  mret (match e with
        | Some e => ([], Some (errorf "failed to list static routes: " e))
        | None => (parseStaticRoutes output tag, None)
        end).
Definition HasStaticRoute (vipAddr : string) (tag : Z) : ST E (bool * error) :=
  '(routes, e) ← ListStaticRoutes tag;
  mret (match e with
        | Some e => (false, Some e)
        | None =>
            match cidrOf vipAddr with
            | inl e => (false, Some e)
            | inr (cidr, _) => (bool_decide (cidr ∈ routes), None)
            end
        end).
End Vtysh.

(** ** The manager (manager.go) *)
Record VIPHealth := { VIPAddress : string; HealthyBackends : gmap string bool; RouteAnnounced : bool }.
Record Manager := { vipHealth : gmap string VIPHealth }.
Definition routeTag : Z := 10000.

Definition countHealthyBackends (backends : gmap string bool) : nat :=
  size (filter (λ '(_, isHealthy), isHealthy = true) backends).
Definition setAnnounced (announced : bool) (h : VIPHealth) : VIPHealth :=
  {| VIPAddress := VIPAddress h; HealthyBackends := HealthyBackends h; RouteAnnounced := announced |}.
(** [if h, exists := m.vipHealth[vipID]; exists] *)
Definition announcedNow (vipID : string) (announced : bool) (m : Manager) : Manager :=
  {| vipHealth := alter (setAnnounced announced) vipID (vipHealth m) |}.

Section Operations.
Context {E : Type} `{!VTYShell E} `{!MapOrder E}.
(** [os.IsNotExist] *)
Variable isNotExist : err → bool.
Variable vtysh : string.

Definition NewManager (cfg : option AgentConfig.FRRConfig) (e : E) : err + Manager :=
  match cfg with
  | None => inl (ErrMsg "FRR config is nil")
  | Some cfg =>
      if negb (AgentConfig.frr_Enabled cfg) then inl (ErrMsg "FRR integration is disabled in configuration")
      else
        match statFile (AgentConfig.frr_VTYShell cfg) e with
        | Some x =>
            if isNotExist x then inl (ErrMsg ("vtysh binary not found at " +:+ AgentConfig.frr_VTYShell cfg))
            else inl (errorf ("cannot access vtysh binary at " +:+ AgentConfig.frr_VTYShell cfg +:+ ": ") x)
        | None => inr {| vipHealth := ∅ |}
        end
  end.
(** Phase 1: the backend's health, and the route as it should be and as it is. *)
Definition updateHealth (vipID backendID vipAddress : string) (newState : BackendState) (m : Manager) : (bool * bool) * Manager :=
  let health := default {| VIPAddress := vipAddress; HealthyBackends := ∅; RouteAnnounced := false |} (vipHealth m !! vipID) in
  let healthy := <[backendID := bool_decide (newState = StateUp)]> (HealthyBackends health) in
  ((0 <? countHealthyBackends healthy, RouteAnnounced health)%nat,
   {| vipHealth := <[vipID := {| VIPAddress := VIPAddress health; HealthyBackends := healthy;
                                 RouteAnnounced := RouteAnnounced health |}]> (vipHealth m) |}).
Definition UpdateBackendHealth (vipID backendID vipAddress : string) (oldState newState : BackendState)
    : ST (Manager * E) error := λ '(m, e),
  let '(desired, current, m) := updateHealth vipID backendID vipAddress newState m in
  if desired && negb current then
    let '(r, e) := AddStaticRoute vtysh vipAddress routeTag e in
    match r with
    | Some x => (Some (errorf "failed to announce BGP route: " x), (m, e))
    | None => (None, (announcedNow vipID true m, e))
    end
  else if negb desired && current then
    let '(r, e) := DeleteStaticRoute vtysh vipAddress routeTag e in
    match r with
    | Some x => (Some (errorf "failed to withdraw BGP route: " x), (m, e))
    | None => (None, (announcedNow vipID false m, e))
    end
  else (None, (m, e)).
Definition StartVIP (vipID vipAddress : string) (backendIDs : list string) (m : Manager) : Manager :=
  {| vipHealth := <[vipID := {| VIPAddress := vipAddress; HealthyBackends := foldl (λ h b, <[b := false]> h) ∅ backendIDs;
                                RouteAnnounced := false |}]> (vipHealth m) |}.
(** A withdrawal that fails is logged. *)
Definition StopVIP (vipID : string) : ST (Manager * E) error := λ '(m, e),
  match vipHealth m !! vipID with
  | None => (None, (m, e))
  | Some health =>
      let e := if RouteAnnounced health then (DeleteStaticRoute vtysh (VIPAddress health) routeTag e).2 else e in
      (None, ({| vipHealth := delete vipID (vipHealth m) |}, e))
  end.
Fixpoint withdrawAll (routes : list string) : ST E unit :=
  match routes with
  | [] => mret tt
  | vipAddress :: routes => _ ← DeleteStaticRoute vtysh vipAddress routeTag; withdrawAll routes
  end.
Definition Close : ST (Manager * E) error := λ '(m, e),
  let routes := omap (λ '(_, h), if RouteAnnounced h then Some (VIPAddress h) else None) (mapRange e (vipHealth m)) in
  let '(_, e) := withdrawAll routes e in
  (None, ({| vipHealth := ∅ |}, e)).
Definition GetVIPHealth (vipID : string) (m : Manager) : string * nat * nat * bool :=
  match vipHealth m !! vipID with
  | None => ("", 0, 0, false)%nat
  | Some h => (VIPAddress h, countHealthyBackends (HealthyBackends h), size (HealthyBackends h), true)
  end.
#[global] Instance FRR_Manager : FRRManager (Manager * E) := {| V1Health.UpdateBackendHealth := UpdateBackendHealth |}.
End Operations.
End V1Frr.
