(* ===== verification/V1Routes.v ===== *)
(** * Version 1: routes follow health

    The health checker of [V1Health], whose callback drives the route manager of [V1Frr]
    over the routing table of [Frr]: in every state its goroutines reach, a virtual IP has a
    route exactly while one of its backends is up. *)

From Stdlib Require Import SpecFloat.
From stdpp Require Import base tactics list gmap strings pretty.
From S2P Require Import Prelude Types Net Routing Validation Health Duration Config Frr Models Etcd EtcdSafety V1Config Probers V1Health V1Frr.

Module V1Routes.
Import Models Etcd EtcdSafety Probers V1Health.

(** ** One backend: both versions reach the same verdict *)
Definition v2State (s : BackendState) : string :=
  match s with StateUnknown => Health.V2StateUnknown | StateUp => Health.V2StateUp | StateDown => Health.V2StateDown end.
Definition agree (s : BackendHealthState) (b : Health.backendHealthState) : Prop :=
  Health.bh_state b = v2State (State s) ∧
  (State s ≠ StateUp → ConsecutiveUp s = Health.bh_consecutiveUp b) ∧
  (State s ≠ StateDown → ConsecutiveDown s = Health.bh_consecutiveDown b).
Lemma agree_observe spec now r s b :
  (1 <= hc_RiseCount spec)%Z → (1 <= hc_FallCount spec)%Z → agree s b →
  agree (recordResult now r (hc_RiseCount spec) (hc_FallCount spec) s) (Health.observe spec (pr_Success r) (pr_Timestamp r) b).
Proof.
  intros Hr Hf (Hst & Hup & Hdown). unfold agree, recordResult, Health.observe, nextState. rewrite Hst.
  destruct s as [[] u d ? ?], (pr_Success r); simpl in *;
    rewrite <- ?Hup, <- ?Hdown by done; clear Hup Hdown;
    repeat (match goal with |- context [(?x <=? ?y)%Z] => destruct (Z.leb_spec x y) end; try lia); simpl;
    split_and!; done || (intros; congruence).
Qed.
(** Results as they are taken from the queue, with the readings of the clock. *)
Definition track (st : StateTracker) (p : ProbeJobResult * Z * Z) : StateTracker :=
  let '(r, now, now') := p in
  (UpdateProbeResult now now' (jr_VIPID r) (jr_BackendID r) (jr_Result r) (jr_RiseCount r) (jr_FallCount r) st).2.
Definition ownResult (vipID backendID : string) (p : ProbeJobResult * Z * Z) : Prop :=
  getKey (jr_VIPID p.1.1) (jr_BackendID p.1.1) = getKey vipID backendID.
#[export] Instance ownResult_dec vipID backendID p : Decision (ownResult vipID backendID p) := decide (_ = _).
Definition history (vipID backendID : string) (l : list (ProbeJobResult * Z * Z)) : list (bool * Z) :=
  (λ p, (pr_Success (jr_Result p.1.1), pr_Timestamp (jr_Result p.1.1))) <$> filter (ownResult vipID backendID) l.

(** The tracker of version 1, which resets its counters with every change of state, and
    the engine of version 2, which does not, give a backend the same state after the same
    results, with any results of other backends in between. *)
Theorem versions_agree vipID backendID spec b st l :
  (1 <= hc_RiseCount spec)%Z → (1 <= hc_FallCount spec)%Z →
  st !! getKey vipID backendID = None → Health.newBackend b →
  (∀ p, p ∈ l → ownResult vipID backendID p → jr_RiseCount p.1.1 = hc_RiseCount spec ∧ jr_FallCount p.1.1 = hc_FallCount spec) →
  v2State (GetState vipID backendID (foldl track st l)).1 =
  Health.bh_state (Health.observeAll spec (history vipID backendID l) b).
Proof.
  intros Hr Hf Hst (Hb & Hu & Hd) Hl.
  assert (match foldl track st l !! getKey vipID backendID with
          | None => ∀ now, agree (initialState now) (Health.observeAll spec (history vipID backendID l) b)
          | Some s => agree s (Health.observeAll spec (history vipID backendID l) b) end) as Hag.
  { induction l as [|[[r now] now'] l IH] using rev_ind; [simpl; rewrite Hst; by intros now|].
    rewrite foldl_snoc. unfold history. rewrite filter_app, fmap_app. unfold Health.observeAll in *. rewrite foldl_app.
    fold (history vipID backendID l).
    specialize (IH ltac:(intros p Hp; apply Hl, elem_of_app; by left)).
    specialize (Hl (r, now, now') ltac:(apply elem_of_app; right; by apply list_elem_of_singleton)). rewrite filter_cons.
    change (track (foldl track st l) (r, now, now')) with (<[getKey (jr_VIPID r) (jr_BackendID r) :=
      recordResult now' (jr_Result r) (jr_RiseCount r) (jr_FallCount r)
        (default (initialState now) (foldl track st l !! getKey (jr_VIPID r) (jr_BackendID r)))]> (foldl track st l)).
    destruct (decide (ownResult vipID backendID (r, now, now'))) as [Ho|Ho]; [|rewrite lookup_insert_ne by done; exact IH].
    destruct (Hl Ho) as [Hrise Hfall]. unfold ownResult in Ho. simpl in Ho, Hrise, Hfall |- *. rewrite Ho, lookup_insert_eq, Hrise, Hfall.
    apply agree_observe; [done..|]. destruct (foldl track st l !! getKey vipID backendID); simpl; [done|apply IH]. }
  unfold GetState. destruct (foldl track st l !! getKey vipID backendID); simpl; [by destruct Hag|].
  by destruct (Hag 0%Z) as [-> _].
Qed.

(** ** Keys of the tracker *)
Definition noColon (s : string) : Prop := 58%Z ∉ bytes_of s.
Lemma key_inj id b id' b' : noColon id → noColon id' → getKey id b = getKey id' b' → id = id' ∧ b = b'.
Proof.
  intros Hn Hn' Hk. unfold getKey in Hk. apply (f_equal bytes_of) in Hk. rewrite !bytes_app in Hk. cbn [app bytes_of] in Hk.
  change (bytes_of ":") with [58%Z] in Hk. cbn [app] in Hk. unfold noColon in *.
  assert (bytes_of id = bytes_of id' ∧ bytes_of b = bytes_of b') as [?%bytes_inj ?%bytes_inj]; [|done].
  revert Hn Hn' Hk. generalize (bytes_of id) (bytes_of id'). induction l as [|x l IH]; intros [|y l'] Hn Hn' Hk; [injection Hk as Hk|injection Hk as Hx Hk..].
  - auto.
  - subst. by destruct Hn'; left.
  - subst. by destruct Hn; left.
  - subst. apply not_elem_of_cons in Hn as [_ Hn]. apply not_elem_of_cons in Hn' as [_ Hn'].
    destruct (IH l' Hn Hn' Hk) as [-> ->]. done.
Qed.

(** ** The route manager and the routing table *)
Definition healthy (f : V1Frr.Manager) (id b : string) : bool :=
  match V1Frr.vipHealth f !! id with Some h => default false (V1Frr.HealthyBackends h !! b) | None => false end.
Definition announced (f : V1Frr.Manager) (id : string) : bool :=
  match V1Frr.vipHealth f !! id with Some h => V1Frr.RouteAnnounced h | None => false end.
Lemma count_pos m : (0 <? V1Frr.countHealthyBackends m)%nat = true ↔ ∃ b : string, m !! b = Some true.
Proof.
  unfold V1Frr.countHealthyBackends. rewrite Nat.ltb_lt. split.
  - intros Hs. destruct (map_choose (filter (λ '(_, h), h = true) m)) as (b & x & Hb).
    { intros He. rewrite He, map_size_empty in Hs. lia. }
    exists b. apply map_lookup_filter_Some in Hb as [Hb Hx]. by subst x.
  - intros [b Hb]. apply Nat.neq_0_lt_0. intros Hs%map_size_empty_inv.
    assert (filter (λ '(_, h), h = true) m !! b = Some true) as Hf by (by apply map_lookup_filter_Some).
    by rewrite Hs, lookup_empty in Hf.
Qed.
(** The flag of a virtual IP says whether one of its backends is healthy. *)
Definition frrOk (f : V1Frr.Manager) : Prop := ∀ id, announced f id = true ↔ ∃ b, healthy f id b = true.

Section Routes.
Context {E : Type} `{!Frr.VTYShell E}.
Variable vtysh : string.
Definition frrConfig : Frr.FRRConfig :=
  {| Frr.VTYShPath := vtysh; Frr.RouteTag := V1Frr.routeTag; Frr.CmdTimeout := 5 * Second |}.
Context {T : Frr.RoutingTable frrConfig}.
(** vtysh succeeds. *)
Hypothesis works : ∀ path args (e : E), (Frr.runCommand path args e).1.2 = None.
Abbreviation routeTo := (Frr.routeTo (E := E) frrConfig).

Lemma changeRoute_works no failed a tag e ip :
  ParseIP a = Some ip →
  ∃ cmd, V1Frr.changeRoute vtysh no failed a tag e =
         (None, (Frr.runCommand vtysh (Frr.vtyshArgs ["configure terminal"; cmd; "end"]) e).2) ∧
         cmd = match To4 ip with
               | Some _ => no +:+ "ip" +:+ " route " +:+ (a +:+ "/32") +:+ " Null0 tag " +:+ pretty tag
               | None => no +:+ "ipv6" +:+ " route " +:+ (a +:+ "/128") +:+ " Null0 tag " +:+ pretty tag
               end.
Proof.
  intros Hip. unfold V1Frr.changeRoute, V1Frr.cidrOf. rewrite Hip. destruct (To4 ip) as [x|]; eexists; (split; [|done]);
    unfold V1Frr.ExecuteCommands; unfold_monad;
    change (list_bind string string (λ cmd, ["-c"; cmd]) ?l) with (Frr.vtyshArgs l);
    match goal with |- context [Frr.runCommand ?p ?a e] => pose proof (works p a e) as Hw; destruct (Frr.runCommand p a e) as [[o r] e'] end;
    simpl in Hw; by subst r.
Qed.
Lemma AddStaticRoute_table a ip e : ParseIP a = Some ip →
  ∃ e', V1Frr.AddStaticRoute vtysh a V1Frr.routeTag e = (None, e') ∧
        ∀ ip', routeTo e' ip' = if decide (ip' = ip) then true else routeTo e ip'.
Proof.
  intros Hip. destruct (changeRoute_works "" "failed to add static route for " a V1Frr.routeTag e ip Hip) as (cmd & Hc & Hcmd).
  unfold V1Frr.AddStaticRoute. rewrite Hc. eexists. split; [done|].
  pose proof (works vtysh (Frr.vtyshArgs ["configure terminal"; cmd; "end"]) e) as Hw.
  destruct (Frr.runCommand vtysh _ e) as [[o r] e'] eqn:Hr. simpl in Hw. subst r. simpl.
  eapply (Frr.table_add frrConfig); [|exact Hip|exact Hr].
  unfold Frr.addRouteCmd, Frr.routeCmd. rewrite Hip, Hcmd. destruct (To4 ip); rewrite !app_assoc_s; reflexivity.
Qed.
Lemma DeleteStaticRoute_table a ip e : ParseIP a = Some ip →
  ∃ e', V1Frr.DeleteStaticRoute vtysh a V1Frr.routeTag e = (None, e') ∧
        ∀ ip', routeTo e' ip' = if decide (ip' = ip) then false else routeTo e ip'.
Proof.
  intros Hip. destruct (changeRoute_works "no " "failed to delete static route for " a V1Frr.routeTag e ip Hip) as (cmd & Hc & Hcmd).
  unfold V1Frr.DeleteStaticRoute. rewrite Hc. eexists. split; [done|].
  pose proof (works vtysh (Frr.vtyshArgs ["configure terminal"; cmd; "end"]) e) as Hw.
  destruct (Frr.runCommand vtysh _ e) as [[o r] e'] eqn:Hr. simpl in Hw. subst r. simpl.
  eapply (Frr.table_delete frrConfig); [|exact Hip|exact Hr].
  unfold Frr.deleteRouteCmd, Frr.routeCmd. rewrite Hip, Hcmd. destruct (To4 ip); rewrite !app_assoc_s; reflexivity.
Qed.

(** Phase 1, and the flag that phase 3 sets. *)
Lemma updateHealth_effect id b addr new f desired current f1 :
  V1Frr.updateHealth id b addr new f = (desired, current, f1) →
  current = announced f id ∧ (∀ id', announced f1 id' = announced f id') ∧ is_Some (V1Frr.vipHealth f1 !! id) ∧
  (∀ id' b', healthy f1 id' b' = if decide (id' = id ∧ b' = b) then bool_decide (new = StateUp) else healthy f id' b') ∧
  (desired = true ↔ ∃ b', healthy f1 id b' = true).
Proof.
  unfold V1Frr.updateHealth. intros [= <- <- <-]. unfold announced, healthy. cbn [V1Frr.vipHealth].
  set (h := default _ _). assert (∀ b', default false (V1Frr.HealthyBackends h !! b') =
    match V1Frr.vipHealth f !! id with Some h => default false (V1Frr.HealthyBackends h !! b') | None => false end) as Hh.
  { intros b'. unfold h. destruct (V1Frr.vipHealth f !! id); [done|]. simpl. by rewrite lookup_empty. }
  assert (V1Frr.RouteAnnounced h = match V1Frr.vipHealth f !! id with Some h => V1Frr.RouteAnnounced h | None => false end) as Ha
    by (unfold h; by destruct (V1Frr.vipHealth f !! id)).
  split_and!.
  - done.
  - intros id'. destruct (decide (id' = id)) as [->|]; [by rewrite lookup_insert_eq|by rewrite lookup_insert_ne].
  - rewrite lookup_insert_eq. eauto.
  - intros id' b'. destruct (decide (id' = id)) as [->|Hne].
    + rewrite lookup_insert_eq. simpl. destruct (decide (b' = b)) as [->|].
      * by rewrite lookup_insert_eq, decide_True.
      * rewrite lookup_insert_ne, decide_False by naive_solver. apply Hh.
    + rewrite lookup_insert_ne, decide_False by naive_solver. done.
  - rewrite lookup_insert_eq. simpl. rewrite count_pos. split; intros [b' Hb']; exists b'; [by rewrite Hb'|].
    by destruct (<[b:=_]> _ !! b') as [[]|].
Qed.
Lemma announcedNow_effect id a f :
  is_Some (V1Frr.vipHealth f !! id) →
  (∀ id', announced (V1Frr.announcedNow id a f) id' = if decide (id' = id) then a else announced f id') ∧
  (∀ id' b', healthy (V1Frr.announcedNow id a f) id' b' = healthy f id' b').
Proof.
  intros [h Hh]. unfold announced, healthy, V1Frr.announcedNow. cbn [V1Frr.vipHealth]. split; [intros id'|intros id' b'];
    (destruct (decide (id' = id)) as [->|]; [rewrite lookup_alter_eq, Hh; done|by rewrite lookup_alter_ne]).
Qed.
(** A report of a backend sets the route of its virtual IP, and no other. *)
Lemma update_routes id b addr ip old new f e :
  ParseIP addr = Some ip → frrOk f → routeTo e ip = announced f id →
  ∃ f' e', V1Frr.UpdateBackendHealth vtysh id b addr old new (f, e) = (None, (f', e')) ∧ frrOk f' ∧
    (∀ id' b', healthy f' id' b' = if decide (id' = id ∧ b' = b) then bool_decide (new = StateUp) else healthy f id' b') ∧
    (∀ id', id' ≠ id → announced f' id' = announced f id') ∧
    routeTo e' ip = announced f' id ∧ (∀ ip', ip' ≠ ip → routeTo e' ip' = routeTo e ip').
Proof.
  intros Hip Hok Hroute. unfold V1Frr.UpdateBackendHealth.
  destruct (V1Frr.updateHealth id b addr new f) as [[desired current] f1] eqn:Hu.
  destruct (updateHealth_effect _ _ _ _ _ _ _ _ Hu) as (-> & Hann & Hsome & Hheal & Hdes). clear Hu.
  assert (∀ f2, (∀ id' b', healthy f2 id' b' = healthy f1 id' b') → announced f2 id = desired →
    (∀ id', id' ≠ id → announced f2 id' = announced f id') → frrOk f2) as Hfrr.
  { intros f2 Hh Ha Ho id'. destruct (decide (id' = id)) as [->|Hne].
    - rewrite Ha, Hdes. by setoid_rewrite Hh.
    - rewrite (Ho id' Hne), (Hok id'). setoid_rewrite Hh. setoid_rewrite Hheal.
      split; intros [b' Hb']; exists b'; rewrite decide_False in * by naive_solver; done. }
  assert (∀ v, v = desired → (∀ e', (∀ ip', routeTo e' ip' = if decide (ip' = ip) then v else routeTo e ip') →
    ∃ f' e'', (None, (V1Frr.announcedNow id v f1, e')) = (@None err, (f', e'')) ∧ frrOk f' ∧
    (∀ id' b', healthy f' id' b' = if decide (id' = id ∧ b' = b) then bool_decide (new = StateUp) else healthy f id' b') ∧
    (∀ id', id' ≠ id → announced f' id' = announced f id') ∧
    routeTo e'' ip = announced f' id ∧ (∀ ip', ip' ≠ ip → routeTo e'' ip' = routeTo e ip'))) as Hset.
  { intros v -> e' He'. destruct (announcedNow_effect id desired f1 Hsome) as [Ha Hh].
    assert (∀ id', id' ≠ id → announced (V1Frr.announcedNow id desired f1) id' = announced f id') as Ho
      by (intros; by rewrite Ha, decide_False, Hann).
    eexists _, _. split; [done|]. split_and!; [|by intros; rewrite Hh, Hheal|done| |].
    - apply Hfrr; [done|by rewrite Ha, decide_True|done].
    - by rewrite He', Ha, !decide_True.
    - intros ip' Hne. by rewrite He', decide_False. }
  destruct desired, (announced f id) eqn:Hcur; simpl.
  - exists f1, e. split_and!; [done|apply Hfrr; [done|by rewrite Hann|intros; apply Hann]|done|intros; apply Hann| |done].
    by rewrite Hroute, Hann, Hcur.
  - destruct (AddStaticRoute_table addr ip e Hip) as (e' & -> & He'). by apply Hset.
  - destruct (DeleteStaticRoute_table addr ip e Hip) as (e' & -> & He'). by apply Hset.
  - exists f1, e. split_and!; [done|apply Hfrr; [done|by rewrite Hann|intros; apply Hann]|done|intros; apply Hann| |done].
    by rewrite Hroute, Hann, Hcur.
Qed.
End Routes.

(** ** The whole: checker, callback, routes *)
Section System.
Context {V E : Type} `{!VPPSyncer V} `{!Frr.VTYShell E} {G : Validation.HttpGuts}.
Variable vtysh : string.
Context {T : Frr.RoutingTable (frrConfig vtysh)}.
Variable outOfRange : spec_float → Z.
Variable hasVPP : bool.
Variable cfg : AgentConfig.HealthCheckConfig.
Hypothesis works : ∀ path args (e : E), (Frr.runCommand path args e).1.2 = None.
Abbreviation routeTo := (Frr.routeTo (E := E) (frrConfig vtysh)).
Abbreviation idOf v := (v_ID (vc_VIP v)).
Abbreviation addrOf v := (v_VIP (vc_VIP v)).

(** The virtual IPs that are checked: identifiers without a colon, as UUIDs are, and an
    address of their own each. *)
Variable cfgs : list VIPConfig.
Record separate : Prop := {
  sep_colon : ∀ v, v ∈ cfgs → noColon (idOf v);
  sep_addr : ∀ v, v ∈ cfgs → is_Some (ParseIP (addrOf v));
  sep_id : ∀ v w, v ∈ cfgs → w ∈ cfgs → idOf v = idOf w → v = w;
  sep_ip : ∀ v w, v ∈ cfgs → w ∈ cfgs → ParseIP (addrOf v) = ParseIP (addrOf w) → v = w;
}.
Hypothesis sep : separate.

Definition SystemEnv : Type := V * (V1Frr.Manager * E).
Definition routing : StateChangeCallback (E := SystemEnv) :=
  CompositeStateChangeCallback (FRRManager0 := V1Frr.FRR_Manager vtysh) hasVPP true.
(** What is reached from a new manager by the goroutines, starting checks one by one. *)
Inductive reachable : World SystemEnv → Prop :=
  | reach_init v e :
      (∀ w ip, w ∈ cfgs → ParseIP (addrOf w) = Some ip → routeTo e ip = false) →
      reachable (Build_World (Start (NewManager cfg)).2 [] None (v, ({| V1Frr.vipHealth := ∅ |}, e)))
  | reach_step w w' : reachable w → step (Some routing) w w' → reachable w'
  | reach_start m probing c e v :
      reachable (Build_World m probing c e) → v ∈ cfgs → vipProbers m !! idOf v = None →
      reachable (Build_World (StartHealthCheck outOfRange v m).2 probing c e).

(** A backend of a virtual IP that is being checked. *)
Definition conf (cs : gmap string VIPConfig) (id b : string) : Prop := ∃ v, cs !! id = Some v ∧ b ∈ b_ID <$> vc_Backends v.
(** Queues hold backends of the virtual IPs that are being checked. *)
Record queued (cs : gmap string VIPConfig) (running : gmap nat VIPSchedule) (jobs probing : list ProbeJob)
    (results : list ProbeJobResult) : Prop := {
  q_run : ∀ i vs, running !! i = Some vs → cs !! vs_vipID vs = Some (vs_vipConfig vs) ∧ vs_pending vs ⊆ vc_Backends (vs_vipConfig vs);
  q_jobs : ∀ j, j ∈ jobs → conf cs (pj_VIPID j) (pj_BackendID j);
  q_probing : ∀ j, j ∈ probing → conf cs (pj_VIPID j) (pj_BackendID j);
  q_results : ∀ r, r ∈ results → conf cs (jr_VIPID r) (jr_BackendID r);
}.
(** The state the callback was last told. *)
Definition told (st : StateTracker) (c : option Change) (id b : string) : BackendState :=
  match c with
  | Some c => if decide (id = ch_vipID c ∧ b = ch_backendID c) then ch_old c else (GetState id b st).1
  | None => (GetState id b st).1
  end.
Record following (cs : gmap string VIPConfig) (st : StateTracker) (c : option Change) (f : V1Frr.Manager) (e : E) : Prop := {
  f_cfg : ∀ id v, cs !! id = Some v → v ∈ cfgs ∧ idOf v = id;
  f_keys : ∀ key, is_Some (st !! key) → ∃ id b, key = getKey id b ∧ conf cs id b;
  f_change : ∀ c', c = Some c' → conf cs (ch_vipID c') (ch_backendID c') ∧ (GetState (ch_vipID c') (ch_backendID c') st).1 = ch_new c';
  f_health : ∀ id b, healthy f id b = true ↔ conf cs id b ∧ told st c id b = StateUp;
  f_frr : frrOk f;
  f_table : ∀ v ip, v ∈ cfgs → ParseIP (addrOf v) = Some ip → routeTo e ip = announced f (idOf v);
}.
Record invariant (w : World SystemEnv) : Prop := {
  i_probers : ∀ id, vipProbers (w_manager w) !! id = None → vipConfigs (w_manager w) !! id = None;
  i_queued : queued (vipConfigs (w_manager w)) (js_running (scheduler (w_manager w))) (jobCh (w_manager w)) (w_probing w)
               (resultCh (w_manager w));
  i_following : following (vipConfigs (w_manager w)) (stateTracker (w_manager w)) (w_change w) (w_env w).2.1 (w_env w).2.2;
}.

Lemma conf_noColon cs st c f e id b : following cs st c f e → conf cs id b → noColon id.
Proof using sep. intros Hf (v & Hv & _). destruct (f_cfg _ _ _ _ _ Hf _ _ Hv) as [Hin <-]. by apply sep_colon. Qed.
Lemma trySend_elem {A} n (a x : A) l : x ∈ trySend n a l → x = a ∨ x ∈ l.
Proof.
  unfold trySend. case_match; [|by right]. intros [?|?%list_elem_of_singleton]%elem_of_app; auto.
Qed.
(** *** Queues *)
Lemma queued_running cs running jobs probing results i vs vs' :
  queued cs running jobs probing results → running !! i = Some vs →
  vs_vipID vs' = vs_vipID vs → vs_vipConfig vs' = vs_vipConfig vs → vs_pending vs' ⊆ vc_Backends (vs_vipConfig vs) →
  queued cs (<[i := vs']> running) jobs probing results.
Proof.
  intros [Hr ? ? ?] Hi Hid Hc Hp. split; [|done..]. intros j ws. destruct (decide (j = i)) as [->|].
  - rewrite lookup_insert_eq. intros [= <-]. rewrite Hid, Hc. split; [|done]. by eapply Hr.
  - rewrite lookup_insert_ne by done. apply Hr.
Qed.
Lemma queued_jobs cs running jobs probing results jobs' :
  queued cs running jobs probing results → (∀ j, j ∈ jobs' → j ∈ jobs ∨ conf cs (pj_VIPID j) (pj_BackendID j)) →
  queued cs running jobs' probing results.
Proof. intros [? Hj ? ?] Hn. split; [done| |done..]. intros j [?|?]%Hn; auto. Qed.
Lemma queued_grow cs running jobs probing results v vs i :
  queued cs running jobs probing results → cs !! idOf v = None → vs_vipID vs = idOf v → vs_vipConfig vs = v →
  vs_pending vs ⊆ vc_Backends v → queued (<[idOf v := v]> cs) (<[i := vs]> running) jobs probing results.
Proof.
  intros [Hr ? ? ?] Hno Hid Hc Hp.
  assert (∀ id b, conf cs id b → conf (<[idOf v := v]> cs) id b) as Hmono.
  { intros id b (w & Hw & Hb). exists w. split; [|done]. rewrite lookup_insert_ne; [done|]. intros <-. congruence. }
  split; [|auto..]. intros j ws. destruct (decide (j = i)) as [->|].
  - rewrite lookup_insert_eq. intros [= <-]. by rewrite Hid, Hc, lookup_insert_eq.
  - rewrite lookup_insert_ne by done. intros Hj. destruct (Hr _ _ Hj) as [Hcs ?]. split; [|done].
    rewrite lookup_insert_ne; [done|]. intros Heq. congruence.
Qed.

(** *** The tracker and the routes *)
Lemma following_update cs st f e now now' id b r rise fall :
  following cs st None f e → conf cs id b →
  let '(prev, new, changed, st') := UpdateProbeResult now now' id b r rise fall st in
  following cs st' (if changed : bool then Some {| ch_vipID := id; ch_backendID := b; ch_old := prev; ch_new := new |} else None) f e.
Proof using sep.
  intros Hf Hconf. cbn [UpdateProbeResult]. set (s := default _ _). set (s' := recordResult _ _ _ _ _).
  set (st' := <[_ := s']> st). pose proof (conf_noColon _ _ _ _ _ _ _ Hf Hconf) as Hnc.
  assert ((GetState id b st).1 = State s) as Hold by (unfold s, GetState; by destruct (st !! getKey id b)).
  assert ((GetState id b st').1 = State s') as Hnew by (unfold GetState, st'; by rewrite lookup_insert_eq).
  assert (∀ id' b', noColon id' → ¬ (id' = id ∧ b' = b) → GetState id' b' st' = GetState id' b' st) as Hother.
  { intros id' b' Hnc' Hne. unfold GetState, st'. rewrite lookup_insert_ne; [done|]. intros [-> ->]%key_inj; auto. }
  set (c := if bool_decide _ then _ else _).
  assert (∀ id' b', conf cs id' b' → told st' c id' b' = told st None id' b') as Htold.
  { intros id' b' Hc'. pose proof (conf_noColon _ _ _ _ _ _ _ Hf Hc') as Hnc'. simpl. unfold told, c.
    destruct (decide (id' = id ∧ b' = b)) as [[-> ->]|Hne].
    - case_bool_decide as Hs; cbn [ch_vipID ch_backendID ch_old]; [by rewrite decide_True, Hold|].
      rewrite Hnew, Hold. done.
    - case_bool_decide as Hs; cbn [ch_vipID ch_backendID ch_old]; [rewrite decide_False by done|]; by rewrite Hother. }
  destruct Hf as [Hcfg Hkeys _ Hhealth Hfrr Htable]. split; [done| | | |done|done].
  - intros key. unfold st'. destruct (decide (key = getKey id b)) as [->|]; [eauto|]. rewrite lookup_insert_ne by done. auto.
  - unfold c. intros c'. case_bool_decide; [|done]. intros [= <-]. done.
  - intros id' b'. rewrite Hhealth. split; intros [Hc' Ht]; (split; [done|]); by rewrite ?Htold in *.
Qed.
Lemma find_backend v b : b ∈ b_ID <$> vc_Backends v →
  ∃ i x, list_find (λ y, b_ID y = b) (vc_Backends v) = Some (i, x).
Proof.
  intros (x & -> & Hx)%list_elem_of_fmap. destruct (list_find_elem_of (λ y, b_ID y = b_ID x) (vc_Backends v) x Hx eq_refl) as [[i y] Hy].
  eauto.
Qed.
(** The callback: VPP, then the routes. *)
Lemma notify_routing m c (v : V) f e vip :
  vipConfigs m !! ch_vipID c = Some vip → ch_backendID c ∈ b_ID <$> vc_Backends vip →
  (notify (Some routing) c m (v, (f, e))).2.2 =
  (V1Frr.UpdateBackendHealth vtysh (ch_vipID c) (ch_backendID c) (addrOf vip) (ch_old c) (ch_new c) (f, e)).2.
Proof.
  intros Hv Hb. unfold notify. rewrite Hv. destruct (find_backend _ _ Hb) as (i & x & ->).
  unfold routing, CompositeStateChangeCallback. unfold_monad. cbn [V1Health.UpdateBackendHealth V1Frr.FRR_Manager].
  match goal with |- context [(if hasVPP then ?x else ?y) v] => destruct ((if hasVPP then x else y) v) as [u v'] end.
  by destruct (V1Frr.UpdateBackendHealth vtysh _ _ _ _ _ (f, e)).
Qed.
Lemma following_notify cs st c f e vip f' e' r :
  following cs st (Some c) f e → cs !! ch_vipID c = Some vip →
  V1Frr.UpdateBackendHealth vtysh (ch_vipID c) (ch_backendID c) (addrOf vip) (ch_old c) (ch_new c) (f, e) = (r, (f', e')) →
  following cs st None f' e'.
Proof using sep works.
  intros [Hcfg Hkeys Hchange Hhealth Hfrr Htable] Hv Hu. destruct (Hchange _ eq_refl) as [Hconf Hnew].
  destruct (Hcfg _ _ Hv) as [Hin Hid]. destruct (sep_addr sep _ Hin) as [ip Hip].
  destruct (update_routes vtysh works (ch_vipID c) (ch_backendID c) (addrOf vip) ip (ch_old c) (ch_new c) f e Hip Hfrr)
    as (f1 & e1 & Hu1 & Hfrr1 & Hheal1 & Hann1 & Hr1 & Hro1); [rewrite <- Hid; by apply Htable|].
  rewrite Hu in Hu1. simplify_eq. split; [done|done|done| |done|].
  - intros id b. rewrite Hheal1. unfold told at 1. specialize (Hhealth id b). unfold told in Hhealth.
    destruct (decide (id = ch_vipID c ∧ b = ch_backendID c)) as [[-> ->]|]; [|done].
    rewrite bool_decide_eq_true, Hnew. naive_solver.
  - intros w ipw Hw Hipw. destruct (decide (idOf w = ch_vipID c)) as [Heq|Hne].
    + assert (w = vip) as -> by (apply (sep_id sep); [done..|congruence]). rewrite Hip in Hipw. simplify_eq.
      by rewrite Hr1, Heq.
    + rewrite Hann1, Hro1 by (done || (intros ->; apply Hne; rewrite <- Hid; f_equal; f_equal; apply (sep_ip sep); [done..|congruence])).
      by apply Htable.
Qed.
Lemma following_grow cs st c f e v :
  following cs st c f e → v ∈ cfgs → cs !! idOf v = None → following (<[idOf v := v]> cs) st c f e.
Proof using sep.
  intros [Hcfg Hkeys Hchange Hhealth Hfrr Htable] Hin Hno.
  assert (∀ id b, id ≠ idOf v → conf (<[idOf v := v]> cs) id b ↔ conf cs id b) as Hsame.
  { intros id b Hne. unfold conf. by setoid_rewrite lookup_insert_ne; [|done]. }
  assert (∀ id b, conf cs id b → conf (<[idOf v := v]> cs) id b) as Hmono.
  { intros id b Hc. apply Hsame; [|done]. intros ->. destruct Hc as (w & Hw & _). congruence. }
  split; [| | | |done|done].
  - intros id w. destruct (decide (id = idOf v)) as [->|]; [rewrite lookup_insert_eq; by intros [= <-]|].
    rewrite lookup_insert_ne by done. apply Hcfg.
  - intros key (id & b & -> & Hc)%Hkeys. eauto.
  - intros c' Hc'. destruct (Hchange c' Hc') as [? ?]. auto.
  - intros id b. rewrite Hhealth. destruct (decide (id = idOf v)) as [->|]; [|by rewrite Hsame].
    split; [intros [(w & Hw & _) _]; congruence|]. intros [_ Ht]. exfalso.
    assert (noColon (idOf v)) as Hnc by (by apply (sep_colon sep)).
    assert (∀ c', c = Some c' → ch_vipID c' ≠ idOf v) as Hcv.
    { intros c' Hc' Heq. destruct (Hchange _ Hc') as [(w & Hw & _) _]. congruence. }
    assert ((GetState (idOf v) b st).1 = StateUp) as Hup.
    { destruct c as [c'|]; [|done]. unfold told in Ht. rewrite decide_False in Ht; [done|]. intros [Heq _]. by eapply Hcv. }
    unfold GetState in Hup. destruct (st !! getKey (idOf v) b) eqn:Hk; [|done].
    destruct (Hkeys _ ltac:(eauto)) as (id' & b' & Hkey & w & Hw & _). destruct (Hcfg _ _ Hw) as [Hwin Hwid].
    apply key_inj in Hkey as [<- _]; [congruence|done|]. rewrite <- Hwid. by apply (sep_colon sep).
Qed.

(** *** Steps *)
Lemma step_invariant w w' : step (Some routing) w w' → invariant w → invariant w'.
Proof using sep works.
  intros Hs Hi. destruct Hs as
    [m probing c e i vs Hvs Hp|m probing c e i vs backend pending Hvs Hp|m probing c e i vs Hvs Hp Hst
    |m probing c e job jobs Hj Hw|m before after c e job result|m probing e r results now now' Hr|m probing c e];
    destruct Hi as [Hprob Hq Hf]; cbn [w_manager w_probing w_change w_env] in *.
  - split; [done| |done]. simpl. by eapply queued_running.
  - split; [done| |done]. simpl. destruct (q_run _ _ _ _ _ Hq _ _ Hvs) as [Hc Hpend]. rewrite Hp in Hpend. eapply queued_jobs.
    + eapply queued_running; [exact Hq|exact Hvs|done|done|]. simpl. set_solver.
    + intros j [->|Hj]%trySend_elem; [right|by left]. exists (vs_vipConfig vs). split; [done|].
      apply list_elem_of_fmap. exists backend. split; [done|]. apply Hpend. by left.
  - split; [done| |done]. simpl. destruct Hq as [Hrun ? ? ?]. split; [|done..]. intros j ws [_ Hj]%fin_maps.lookup_delete_Some. eauto.
  - split; [done| |done]. simpl. destruct Hq as [? Hjobs Hpr ?]. rewrite Hj in Hjobs. split; [done| | |done].
    + intros j Hin. apply Hjobs. by right.
    + intros j [->|Hin]%elem_of_cons; [apply Hjobs; by left|auto].
  - split; [done| |done]. simpl. destruct Hq as [? ? Hpr Hres]. split; [done..| |].
    + intros j Hin. apply Hpr. rewrite elem_of_app, elem_of_cons. apply elem_of_app in Hin. tauto.
    + intros x [->|Hin]%trySend_elem; [|auto]. apply Hpr. rewrite elem_of_app, elem_of_cons. auto.
  - assert (conf (vipConfigs m) (jr_VIPID r) (jr_BackendID r)) as Hconf by (apply (q_results _ _ _ _ _ Hq); rewrite Hr; by left).
    pose proof (following_update _ _ _ _ now now' _ _ (jr_Result r) (jr_RiseCount r) (jr_FallCount r) Hf Hconf) as Hf'.
    unfold handleUpdate. cbn [stateTracker setChannels].
    destruct (UpdateProbeResult _ _ _ _ _ _ _ _) as [[[prev new] changed] st]. split; [done| |exact Hf'].
    simpl. destruct Hq as [? ? ? Hres]. split; [done..|]. intros x Hx. apply Hres. rewrite Hr. by right.
  - split; [done|done|]. cbn [w_manager w_probing w_change w_env]. destruct e as [v [f e]]. cbn [fst snd] in Hf.
    destruct (f_change _ _ _ _ _ Hf _ eq_refl) as [(vip & Hv & Hb) _].
    rewrite (notify_routing _ _ _ _ _ _ Hv Hb).
    destruct (V1Frr.UpdateBackendHealth vtysh _ _ _ _ _ (f, e)) as [r [f' e']] eqn:Hu. by eapply following_notify.
Qed.
Lemma start_invariant m probing c e v :
  invariant (Build_World m probing c e) → v ∈ cfgs → vipProbers m !! idOf v = None →
  invariant (Build_World (StartHealthCheck outOfRange v m).2 probing c e).
Proof using sep.
  intros Hi Hin Hno. unfold StartHealthCheck. destruct (vc_HealthCheck v) as [hc|] eqn:Hhc; [|done].
  destruct (ValidateHealthCheckTiming hc); [done|]. destruct (started m); [|done]. cbn [negb].
  unfold dropExisting. rewrite Hno. destruct (V1Probers.NewProber outOfRange _) as [x|prober]; [done|].
  destruct Hi as [Hprob Hq Hf]. cbn [w_manager w_probing w_change w_env snd] in *.
  assert (deepCopyVIPConfigForHealthCheck v = v) as Hcopy by (by destruct v). rewrite Hcopy.
  assert (vipConfigs m !! idOf v = None) as Hcs by auto. split; cbn [w_manager w_probing w_change w_env].
  - simpl. intros id Hid. destruct (decide (id = idOf v)) as [->|]; [by rewrite lookup_insert_eq in Hid|].
    rewrite lookup_insert_ne in Hid by done. rewrite lookup_insert_ne by done. auto.
  - simpl. unfold StartVIP. rewrite Hhc. cbn [js_running]. apply queued_grow; [|done..].
    unfold StopVIP. destruct (vipSchedules (scheduler m) !! idOf v) as [i|]; [|done]. cbn [js_running].
    destruct (js_running (scheduler m) !! i) as [vs|] eqn:Hvs; [|by rewrite alter_id by naive_solver].
    assert (alter stop i (js_running (scheduler m)) = <[i := stop vs]> (js_running (scheduler m))) as ->
      by (rewrite <- (insert_id (js_running (scheduler m)) i vs Hvs) at 1; apply alter_insert_eq).
    eapply queued_running; [exact Hq|exact Hvs|done|done|]. apply (q_run _ _ _ _ _ Hq _ _ Hvs).
  - simpl. by apply following_grow.
Qed.
Lemma reachable_invariant w : reachable w → invariant w.
Proof using sep works.
  induction 1 as [v e Ht|w w' _ IH Hs|m probing c e v _ IH Hin Hno]; [|by eapply step_invariant|by apply start_invariant].
  split; cbn [w_manager w_probing w_change w_env fst snd]; simpl; [by intros|by split; intros; set_solver|].
  split; try done.
  - intros key [x Hx]. unfold NewStateTracker in Hx. by rewrite lookup_empty in Hx.
  - intros id b. unfold healthy. cbn [V1Frr.vipHealth]. rewrite lookup_empty. split; [done|]. intros [(w & Hw & _) _].
    by rewrite lookup_empty in Hw.
  - intros id. unfold announced, healthy. cbn [V1Frr.vipHealth]. rewrite lookup_empty. split; [done|]. by intros [b Hb].
Qed.

End System.
End V1Routes.
