(* ===== verification/V1RoutesRuns.v ===== *)
(** * Version 1: concrete runs of the health checker and the routes

    A routing table that reads the commands it is given, a run in which routes follow
    health, and runs that show where they do not. *)

From Stdlib Require Import SpecFloat.
From stdpp Require Import base tactics list gmap strings pretty.
From S2P Require Import Prelude Types Net Routing Vpp VppSim Validation Health Duration Config Frr Models Etcd EtcdSafety V1State V1Agent V1Config Probers V1Health V1Frr V1Routes.

Module V1RoutesRuns.
Import Models Vpp VppSim Etcd EtcdSafety Probers V1Health V1Routes.

(** ** A shell that reads its commands *)
Record shell := { routes : gset (list Z) }.
(** The address between the words of a command and the slash. *)
Definition addressIn (words : string) (cmd : list Z) : option (list Z) :=
  if Validation.hasPrefix (bytes_of words) cmd
  then ParseIP (string_of (ProbeSafety.upTo (λ c, (c =? 47)%Z) (drop (length (bytes_of words)) cmd))) else None.
Definition firstSome {A} (a b : option A) : option A := match a with Some _ => a | None => b end.
Definition interpret (cmd : string) (t : gset (list Z)) : gset (list Z) :=
  match firstSome (addressIn "ip route " (bytes_of cmd)) (addressIn "ipv6 route " (bytes_of cmd)),
        firstSome (addressIn "no ip route " (bytes_of cmd)) (addressIn "no ipv6 route " (bytes_of cmd)) with
  | Some ip, _ => {[ip]} ∪ t
  | None, Some ip => t ∖ {[ip]}
  | None, None => t
  end.
Definition obey (args : list string) (s : shell) : shell :=
  match args with [_; _; _; cmd; _; _] => {| routes := interpret cmd (routes s) |} | _ => s end.
#[export] Instance readingShell : Frr.VTYShell shell :=
  {| Frr.runCommand := λ _ args s, (("", None), obey args s); Frr.statFile := λ _ _, None |}.
(** A shell whose first calls fail. *)
Record flaky := { fl_shell : shell; fl_failures : nat }.
#[export] Instance flakyShell : Frr.VTYShell flaky :=
  {| Frr.runCommand := λ _ args s,
       match fl_failures s with
       | S n => (("", Some (ErrMsg "exit status 1")), {| fl_shell := fl_shell s; fl_failures := n |})
       | 0 => (("", None), {| fl_shell := obey args (fl_shell s); fl_failures := 0 |})
       end;
     Frr.statFile := λ _ _, None |}.

Lemma upTo_address a rest : Forall ProbeSafety.ipByte (bytes_of a) →
  ProbeSafety.upTo (λ c, (c =? 47)%Z) (bytes_of a ++ 47%Z :: rest) = bytes_of a.
Proof.
  intros Ha. apply ProbeSafety.upTo_app; [|done]. eapply Forall_impl; [exact Ha|]. intros c Hc.
  apply Z.eqb_neq. intros ->. by destruct Hc as [[x Hx]|[Hx|Hx]].
Qed.
Lemma hasPrefix_app p s : Validation.hasPrefix p (p ++ s) = true.
Proof. induction p as [|c p IH]; simpl; [done|]. by rewrite Z.eqb_refl, IH. Qed.
Lemma addressIn_self words a tail ip : ParseIP a = Some ip →
  addressIn words (bytes_of (words +:+ a +:+ "/" +:+ tail)) = Some ip.
Proof.
  intros Hip. unfold addressIn. rewrite !bytes_app, hasPrefix_app, drop_app_length.
  change (bytes_of "/") with [47%Z]. cbn [app]. rewrite upTo_address by (by eapply ProbeSafety.ParseIP_bytes).
  by rewrite string_bytes.
Qed.
Lemma interpret_add a ip fam bits tail t : ParseIP a = Some ip →
  (fam, bits) ∈ [("ip route ", "/32"); ("ipv6 route ", "/128")] →
  interpret (fam +:+ a +:+ bits +:+ tail) t = {[ip]} ∪ t.
Proof.
  intros Hip Hin. unfold interpret.
  apply elem_of_cons in Hin as [[= -> ->]|Hin]; [|apply list_elem_of_singleton in Hin as [= -> ->]].
  - change ("/32" +:+ tail) with ("/" +:+ ("32" +:+ tail)). by rewrite (addressIn_self "ip route " a ("32" +:+ tail) ip Hip).
  - change ("/128" +:+ tail) with ("/" +:+ ("128" +:+ tail)).
    rewrite (addressIn_self "ipv6 route " a ("128" +:+ tail) ip Hip).
    by destruct (addressIn "ip route " _) as [x|] eqn:Hx.
Qed.
Lemma interpret_delete a ip fam bits tail t : ParseIP a = Some ip →
  (fam, bits) ∈ [("no ip route ", "/32"); ("no ipv6 route ", "/128")] →
  interpret (fam +:+ a +:+ bits +:+ tail) t = t ∖ {[ip]}.
Proof.
  intros Hip Hin. unfold interpret.
  apply elem_of_cons in Hin as [[= -> ->]|Hin]; [|apply list_elem_of_singleton in Hin as [= -> ->]].
  - change ("/32" +:+ tail) with ("/" +:+ ("32" +:+ tail)). by rewrite (addressIn_self "no ip route " a ("32" +:+ tail) ip Hip).
  - change ("/128" +:+ tail) with ("/" +:+ ("128" +:+ tail)).
    rewrite (addressIn_self "no ipv6 route " a ("128" +:+ tail) ip Hip).
    by destruct (addressIn "no ip route " _) as [x|] eqn:Hx.
Qed.
Definition vtysh : string := "/usr/bin/vtysh".
#[export] Instance readTable : Frr.RoutingTable (E := shell) (frrConfig vtysh).
Proof.
  refine {| Frr.routeTo := λ s ip, bool_decide (ip ∈ routes s) |}.
  - intros a cmds ip s out s' Hc Hip Hrun ip'. unfold Frr.addRouteCmd, Frr.routeCmd in Hc. rewrite Hip in Hc.
    unfold Frr.runCommand in Hrun. simpl in Hrun.
    destruct (To4 ip); injection Hc as <-; simpl in Hrun; injection Hrun as _ <-; simpl;
      rewrite (interpret_add a ip "ip route " "/32" " Null0 tag 10000" _ Hip)
        || rewrite (interpret_add a ip "ipv6 route " "/128" " Null0 tag 10000" _ Hip);
      try (by left || (right; left));
      (case_decide; [subst; apply bool_decide_eq_true; set_solver|apply bool_decide_ext; set_solver]).
  - intros a cmds ip s out s' Hc Hip Hrun ip'. unfold Frr.deleteRouteCmd, Frr.routeCmd in Hc. rewrite Hip in Hc.
    unfold Frr.runCommand in Hrun. simpl in Hrun.
    destruct (To4 ip); injection Hc as <-; simpl in Hrun; injection Hrun as _ <-; simpl;
      rewrite (interpret_delete a ip "no ip route " "/32" " Null0 tag 10000" _ Hip)
        || rewrite (interpret_delete a ip "no ipv6 route " "/128" " Null0 tag 10000" _ Hip);
      try (by left || (right; left));
      (case_decide; [subst; apply bool_decide_eq_false; set_solver|apply bool_decide_ext; set_solver]).
Defined.

(** ** A run in which the route follows health *)
#[export] Instance noVPP : VPPSyncer unit := {| AddBackend := λ _ _ s, (None, s); DeleteBackend := λ _ _ s, (None, s) |}.
#[export] Instance guts : Validation.HttpGuts :=
  {| Validation.ValidHostHeader := λ _, true; Validation.ValidHeaderFieldName := λ _, true; Validation.ValidHeaderFieldValue := λ _, true |}.
Definition oor : spec_float → Z := λ _, 0%Z.
Definition hcConfig : AgentConfig.HealthCheckConfig :=
  {| AgentConfig.WorkerCount := 2; AgentConfig.DefaultTimeout := 3; AgentConfig.MaxConcurrentChecks := 4 |}.
Definition check (rise fall : Z) : HealthCheck :=
  {| h_ID := "h"; h_VIPID := "a"; h_Type := HCTypePing; h_IntervalSec := 5; h_TimeoutSec := 1; h_RiseCount := rise; h_FallCount := fall;
     h_Config := None; h_CreatedAt := None; h_UpdatedAt := None |}.
Definition backend (id vip ip : string) : Backend :=
  {| b_ID := id; b_VIPID := vip; b_IP := ip; b_Weight := 1; b_CreatedAt := None; b_UpdatedAt := None |}.
Definition vipAt (id ip : string) (port : Z) : VIP := V1Examples.vip id ip "" port None.
Definition checked (v : VIP) (bs : list Backend) : VIPConfig := {| vc_VIP := v; vc_HealthCheck := Some (check 1 1); vc_Backends := bs |}.
Definition one : VIPConfig := checked (vipAt "a" "192.0.2.1" 80) [backend "b" "a" "10.0.0.1"].
Definition found (success : bool) : ProbeResult :=
  {| pr_Success := success; pr_Latency := 0; pr_StatusCode := 0; pr_Error := None; pr_Timestamp := 0 |}.
Definition job : ProbeJob :=
  {| pj_VIPID := "a"; pj_BackendID := "b"; pj_BackendIP := "10.0.0.1"; pj_Prober := V1Probers.Ping Second; pj_RiseCount := 1; pj_FallCount := 1 |}.
Definition result (vip b : string) (success : bool) : ProbeJobResult :=
  {| jr_VIPID := vip; jr_BackendID := b; jr_Result := found success; jr_RiseCount := 1; jr_FallCount := 1 |}.
Definition noRoutes : V1Frr.Manager := {| V1Frr.vipHealth := ∅ |}.
Definition env0 : unit * (V1Frr.Manager * shell) := (tt, (noRoutes, {| routes := ∅ |})).
Definition ip1 : list Z := v4Prefix ++ [192; 0; 2; 1]%Z.

Definition callback : StateChangeCallback := routing (V := unit) (E := shell) vtysh true.
Definition m1 : Manager := (StartHealthCheck oor one (Start (NewManager hcConfig)).2).2.
(** The round that a check starts with: a job, a probe that succeeds, the tracker. *)
Definition sched1 : VIPSchedule :=
  {| vs_vipID := "a"; vs_vipConfig := one; vs_prober := V1Probers.Ping Second; vs_interval := 5 * Second; vs_riseCount := 1;
     vs_fallCount := 1; vs_pending := [backend "b" "a" "10.0.0.1"]; vs_stopped := false |}.
Definition m2 : Manager :=
  withScheduler m1 (trySend (capacity m1) (jobFor sched1 (backend "b" "a" "10.0.0.1")) (jobCh m1))
    (<[0%nat := setPending [] sched1]> (js_running (scheduler m1))).
Definition m3 : Manager := setChannels m2 [] (resultCh m2) (stateTracker m2) (scheduler m2).
Definition m4 : Manager :=
  setChannels m3 (jobCh m3) (trySend (capacity m3) (resultFor job (found true)) (resultCh m3)) (stateTracker m3) (scheduler m3).
Definition up : option Change * Manager :=
  handleUpdate 0 1 (result "a" "b" true) (setChannels m4 (jobCh m4) [] (stateTracker m4) (scheduler m4)).
Definition env5 : unit * (V1Frr.Manager * shell) :=
  (notify (Some callback) {| ch_vipID := "a"; ch_backendID := "b"; ch_old := StateUnknown; ch_new := StateUp |} up.2 env0).2.

Lemma shell_works path args (e : shell) : (Frr.runCommand path args e).1.2 = None.
Proof. reflexivity. Qed.
Lemma one_separate : separate [one].
Proof.
  split.
  - intros v ->%list_elem_of_singleton. by apply (bool_decide_unpack _).
  - intros v ->%list_elem_of_singleton. vm_compute. eauto.
  - intros v w ->%list_elem_of_singleton ->%list_elem_of_singleton. done.
  - intros v w ->%list_elem_of_singleton ->%list_elem_of_singleton. done.
Qed.
Lemma reach5 : reachable vtysh oor true hcConfig [one] (Build_World up.2 [] None env5).
Proof.
  assert (reachable vtysh oor true hcConfig [one] (Build_World m1 [] None env0)) as H1.
  { apply reach_start; [|by left|reflexivity]. apply reach_init. intros w ip _ _. reflexivity. }
  assert (reachable vtysh oor true hcConfig [one] (Build_World m2 [] None env0)) as H2.
  { eapply reach_step; [exact H1|]. exact (step_emit _ m1 [] None env0 0 sched1 (backend "b" "a" "10.0.0.1") [] eq_refl eq_refl). }
  assert (reachable vtysh oor true hcConfig [one] (Build_World m3 [job] None env0)) as H3.
  { eapply reach_step; [exact H2|]. apply (step_take _ m2 [] None env0 job [] eq_refl). vm_compute. lia. }
  assert (reachable vtysh oor true hcConfig [one] (Build_World m4 [] None env0)) as H4.
  { eapply reach_step; [exact H3|]. exact (step_probed _ m3 [] [] None env0 job (found true)). }
  assert (reachable vtysh oor true hcConfig [one] (Build_World up.2 [] up.1 env0)) as H5.
  { eapply reach_step; [exact H4|]. exact (step_update _ m4 [] env0 (result "a" "b" true) [] 0 1 eq_refl). }
  eapply reach_step; [exact H5|].
  exact (step_notify (Some callback) up.2 [] {| ch_vipID := "a"; ch_backendID := "b"; ch_old := StateUnknown; ch_new := StateUp |} env0).
Qed.

(** ** The two versions on the same results *)
Definition spec12 : HealthCheckSpec :=
  {| hc_Type := HCTypePing; hc_IntervalSeconds := 5; hc_TimeoutSeconds := 1; hc_RiseCount := 1; hc_FallCount := 2;
     hc_HTTP := None; hc_TCP := None |}.
Definition newV2 : Health.backendHealthState :=
  {| Health.bh_address := "10.0.0.1"; Health.bh_targetAddress := "10.0.0.1"; Health.bh_state := Health.V2StateUnknown;
     Health.bh_consecutiveUp := 0; Health.bh_consecutiveDown := 0; Health.bh_lastProbeTime := None; Health.bh_lastStateChange := None |}.
Definition result12 (vip b : string) (success : bool) : ProbeJobResult * Z * Z :=
  ({| jr_VIPID := vip; jr_BackendID := b; jr_Result := found success; jr_RiseCount := 1; jr_FallCount := 2 |}, 0, 0)%Z.
Definition mixed : list (ProbeJobResult * Z * Z) :=
  [result12 "a" "b" true; result12 "a" "x" true; result12 "a" "b" false; result12 "c" "b" true; result12 "a" "b" false].
Lemma versions_agree_witness :
  v2State (GetState "a" "b" (foldl track ∅ mixed)).1 = Health.V2StateDown ∧
  v2State (GetState "a" "b" (foldl track ∅ mixed)).1 = Health.bh_state (Health.observeAll spec12 (history "a" "b" mixed) newV2).
Proof.
  split; [by vm_compute|]. apply (versions_agree "a" "b" spec12 newV2 ∅ mixed); [by vm_compute|by vm_compute|reflexivity|done|].
  intros p Hp _. repeat (apply elem_of_cons in Hp as [->|Hp]; [done|]). by apply not_elem_of_nil in Hp.
Defined.

(** ** Where routes and backends do not follow *)
Section Runs.
Context {V E : Type} `{!VPPSyncer V} `{!Frr.VTYShell E}.
Definition handleAll (hasVPP hasFRR : bool) (l : list ProbeJobResult) (s : Manager * (V * (V1Frr.Manager * E)))
    : Manager * (V * (V1Frr.Manager * E)) :=
  foldl (λ s r, (handleResult (Some (CompositeStateChangeCallback (FRRManager0 := V1Frr.FRR_Manager vtysh) hasVPP hasFRR)) 0 0 r s).2) s l.
End Runs.
Definition stateOf (vip b : string) (m : Manager) : BackendState := (GetState vip b (stateTracker m)).1.

(** Two virtual IPs on one address, which is what two ports are: the route goes with the
    first that has no healthy backend left, although the other has one. *)
Definition two : Manager :=
  (StartHealthCheck oor (checked (vipAt "c" "192.0.2.1" 443) [backend "d" "c" "10.0.0.2"]) m1).2.
Lemma shared_address_withdrawn :
  let '(m, (_, (f, e))) := handleAll true true [result "a" "b" true; result "c" "d" true; result "a" "b" false] (two, env0) in
  stateOf "c" "d" m = StateUp ∧ announced f "c" = true ∧ Frr.routeTo (frrConfig vtysh) e ip1 = false.
Proof. by vm_compute. Qed.

(** A result that arrives after its check was stopped leaves a state behind; when the
    virtual IP is checked again, its backend counts as up without ever being announced. *)
Lemma late_result_hides :
  let '(m, env) := handleAll true true [result "a" "b" true] ((StopHealthCheck "a" m1).2, env0) in
  let '(m, (_, (f, e))) := handleAll true true [result "a" "b" true; result "a" "b" true] ((StartHealthCheck oor one m).2, env) in
  stateOf "a" "b" m = StateUp ∧ announced f "a" = false ∧ Frr.routeTo (frrConfig vtysh) e ip1 = false.
Proof. by vm_compute. Qed.
(** So does stopping and starting the whole manager: the route of the first run is gone
    with its process, the tracker still has the backend up. *)
Lemma restart_keeps_states :
  let '(m, _) := handleAll true true [result "a" "b" true] (m1, env0) in
  let m := (StartHealthCheck oor one (Start (Stop m)).2).2 in
  let '(m, (_, (f, e))) := handleAll true true [result "a" "b" true] (m, env0) in
  stateOf "a" "b" m = StateUp ∧ announced f "a" = false.
Proof. by vm_compute. Qed.

(** An announcement that fails is not repeated while the backend stays up. *)
Lemma failed_announcement_sticks :
  let env : unit * (V1Frr.Manager * flaky) := (tt, (noRoutes, {| fl_shell := {| routes := ∅ |}; fl_failures := 1 |})) in
  let '(m, (_, (f, e))) := handleAll true true [result "a" "b" true; result "a" "b" true; result "a" "b" true] (m1, env) in
  stateOf "a" "b" m = StateUp ∧ fl_failures e = 0 ∧ bool_decide (ip1 ∈ routes (fl_shell e)) = false.
Proof. by vm_compute. Qed.

(** The syncer of version 1 as the callback's VPP. *)
#[local] Instance simStreams : V1Lb.Streams SimVPP := {| V1Lb.NewStream := λ s, (None, s) |}.
#[local] Instance syncer : VPPSyncer (V1Sync.Syncer * SimVPP) :=
  {| AddBackend := V1Sync.AddBackend; DeleteBackend := V1Sync.DeleteBackend |}.
(** An update programs every backend and restarts the check, whose states are then unknown:
    a backend that goes from unknown to down is never taken out of VPP. *)
Lemma unknown_to_down_serves :
  let synced := (V1Sync.SyncVIP V1Examples.cfg one V1Examples.start).2 in
  let '(m, (v, _)) := handleAll true false [result "a" "b" false; result "a" "b" false] (m1, (synced, env0.2)) in
  stateOf "a" "b" m = StateDown ∧ V1Examples.servers v = [[IP4 [10; 0; 0; 1]%Z]].
Proof. by vm_compute. Qed.
End V1RoutesRuns.

(** ** Reading routes back *)
Module StaticRoutes.
Definition newline : string := String.String (Ascii.ascii_of_nat 10) "".
Definition shown : string :=
  "Codes: K - kernel route, S - static, > - selected route" +:+ newline +:+
  "S>* 10.0.0.100/32 [1/0] is directly connected, Null0, tag 10000, 00:05:23" +:+ newline +:+
  "S   10.0.0.101/32 [1/0] is directly connected, Null0, tag 200, 00:05:23" +:+ newline +:+
  "  S>* 2001:db8::1/128 [1/0] is directly connected, Null0, tag 10000, 00:05:23" +:+ newline.
Lemma parsed : V1Frr.parseStaticRoutes shown 10000 = ["10.0.0.100/32"; "2001:db8::1/128"].
Proof. by vm_compute. Qed.
(** A route without a tag is not listed, a tag that only starts like it neither. *)
Lemma not_parsed : V1Frr.parseStaticRoutes "S>* 10.0.0.1/32 [1/0] is directly connected, Null0, tag 100001" 10000 = [].
Proof. by vm_compute. Qed.
End StaticRoutes.
