(* ===== verification/Mysql.v ===== *)
(** * The MySQL datastore (internal/common/datastore/mysql)

    The tables of migrations/001_init.sql with their keys, and every operation of the
    store as a tree of statements and transaction boundaries.  What a statement does
    to the tables is SQL's ([violates], [effect]); the server is the class [MySQL],
    whose laws, in MysqlSafety, say that a statement that succeeds has that effect
    and one that fails has none.  gorm is taken at its documented translation: [First]
    is a SELECT of one row, [Transaction] commits exactly when its function returns
    nil, and [Updates] of a struct sets updated_at to a clock reading of its own and
    skips zero fields, of which the records written here have none. *)

From Stdlib Require Import SpecFloat.
From stdpp Require Import base tactics list gmap strings pretty.
From S2P Require Import Prelude Types Net Store Validation Duration Config Models Etcd Sync Api Probers.

Module Mysql.
Import Models Validation.

(** ** Rows (vip.go, backend.go, watch.go) *)
Record VIPRecord := {
  vr_ID : string; vr_VIP : string; vr_Port : Z; vr_Protocol : string; vr_LBMethod : string;
  vr_EncapType : option string; vr_DSCP : option Z; vr_CreatedAt : option Z; vr_UpdatedAt : option Z;
}.
Record HealthCheckRecord := {
  hr_ID : string; hr_VIPID : string; hr_Type : string;
  hr_IntervalSec : Z; hr_TimeoutSec : Z; hr_RiseCount : Z; hr_FallCount : Z;
  hr_Config : string; hr_CreatedAt : option Z; hr_UpdatedAt : option Z;
}.
Record BackendRecord := {
  br_ID : string; br_VIPID : string; br_IP : string; br_Weight : Z;
  br_CreatedAt : option Z; br_UpdatedAt : option Z;
}.
#[global] Instance VIPRecord_eq_dec : EqDecision VIPRecord.
Proof. solve_decision. Defined.
#[global] Instance HealthCheckRecord_eq_dec : EqDecision HealthCheckRecord.
Proof. solve_decision. Defined.
#[global] Instance BackendRecord_eq_dec : EqDecision BackendRecord.
Proof. solve_decision. Defined.
(** The time of a change, which the server sets, is not read. *)
Record ChangeLogRecord := {
  cr_ID : Z; cr_Revision : Z; cr_EventType : string; cr_VIPID : option string; cr_BackendID : option string;
}.
Record Tables := {
  system_metadata : list (Z * Z);
  vips : list VIPRecord; health_checks : list HealthCheckRecord; backends : list BackendRecord;
  change_log : list ChangeLogRecord;
}.
Definition setMetadata (l : list (Z * Z)) (t : Tables) : Tables :=
  {| system_metadata := l; vips := vips t; health_checks := health_checks t; backends := backends t; change_log := change_log t |}.
Definition setVIPs (l : list VIPRecord) (t : Tables) : Tables :=
  {| system_metadata := system_metadata t; vips := l; health_checks := health_checks t; backends := backends t; change_log := change_log t |}.
Definition setHealthChecks (l : list HealthCheckRecord) (t : Tables) : Tables :=
  {| system_metadata := system_metadata t; vips := vips t; health_checks := l; backends := backends t; change_log := change_log t |}.
Definition setBackends (l : list BackendRecord) (t : Tables) : Tables :=
  {| system_metadata := system_metadata t; vips := vips t; health_checks := health_checks t; backends := l; change_log := change_log t |}.
Definition setLog (l : list ChangeLogRecord) (t : Tables) : Tables :=
  {| system_metadata := system_metadata t; vips := vips t; health_checks := health_checks t; backends := backends t; change_log := l |}.

(** ** Columns

    Two strings are the same to a comparison or a key when their collations
    (utf8mb4_unicode_ci) are; a TIMESTAMP keeps whole seconds; a JSON column gives
    back a text of the same value; a string fits a CHAR or VARCHAR of so many
    characters or the statement is refused. *)
Class Columns := {
  collate : string → string;
  seconds : option Z → option Z;
  jsonText : string → string;
  fits : nat → string → bool;
}.

Section Tables.
Context {K : Columns}.
Definition eqc (a b : string) : bool := bool_decide (collate a = collate b).
Definition sameTuple (a b : VIPRecord) : bool :=
  eqc (vr_VIP a) (vr_VIP b) && (vr_Port a =? vr_Port b)%Z && eqc (vr_Protocol a) (vr_Protocol b).
Definition storedVIP (r : VIPRecord) : VIPRecord :=
  {| vr_ID := vr_ID r; vr_VIP := vr_VIP r; vr_Port := vr_Port r; vr_Protocol := vr_Protocol r; vr_LBMethod := vr_LBMethod r;
     vr_EncapType := vr_EncapType r; vr_DSCP := vr_DSCP r;
     vr_CreatedAt := seconds (vr_CreatedAt r); vr_UpdatedAt := seconds (vr_UpdatedAt r) |}.
Definition storedHealthCheck (r : HealthCheckRecord) : HealthCheckRecord :=
  {| hr_ID := hr_ID r; hr_VIPID := hr_VIPID r; hr_Type := hr_Type r; hr_IntervalSec := hr_IntervalSec r;
     hr_TimeoutSec := hr_TimeoutSec r; hr_RiseCount := hr_RiseCount r; hr_FallCount := hr_FallCount r;
     hr_Config := jsonText (hr_Config r); hr_CreatedAt := seconds (hr_CreatedAt r); hr_UpdatedAt := seconds (hr_UpdatedAt r) |}.
Definition storedBackend (r : BackendRecord) : BackendRecord :=
  {| br_ID := br_ID r; br_VIPID := br_VIPID r; br_IP := br_IP r; br_Weight := br_Weight r;
     br_CreatedAt := seconds (br_CreatedAt r); br_UpdatedAt := seconds (br_UpdatedAt r) |}.
(** The columns of [vips] that an update sets, all but the identifier. *)
Definition withID (id : string) (r : VIPRecord) : VIPRecord :=
  {| vr_ID := id; vr_VIP := vr_VIP r; vr_Port := vr_Port r; vr_Protocol := vr_Protocol r; vr_LBMethod := vr_LBMethod r;
     vr_EncapType := vr_EncapType r; vr_DSCP := vr_DSCP r; vr_CreatedAt := vr_CreatedAt r; vr_UpdatedAt := vr_UpdatedAt r |}.

(** ** Statements, by their answers.  [First] of no row is [None]. *)
Inductive Stmt : Type → Type :=
  | SelectVIP (id : string) : Stmt (option VIPRecord)
  | SelectVIPs : Stmt (list VIPRecord)
  | SelectHealthCheck (vipID : string) : Stmt (option HealthCheckRecord)
  | SelectHealthChecks (vipIDs : list string) : Stmt (list HealthCheckRecord)
  | SelectBackend (id : string) : Stmt (option BackendRecord)
  | SelectBackends (vipIDs : list string) : Stmt (list BackendRecord)
  | InsertVIP (r : VIPRecord) : Stmt unit
  | InsertHealthCheck (r : HealthCheckRecord) : Stmt unit
  | InsertBackend (r : BackendRecord) : Stmt unit
  | UpdateVIPWhere (id : string) (r : VIPRecord) : Stmt unit
  | UpdateHealthCheckWhere (vipID : string) (r : HealthCheckRecord) : Stmt unit
  | UpdateBackendWhere (id : string) (r : BackendRecord) : Stmt unit
  | DeleteVIPWhere (id : string) : Stmt nat
  | DeleteHealthCheckWhere (vipID : string) : Stmt nat
  | DeleteBackendWhere (id : string) : Stmt nat
  | SelectMetadata : Stmt (option (Z * Z))
  | SelectRevision : Stmt Z
  | CountMetadata : Stmt nat
  | InsertMetadata (revision : Z) : Stmt unit
  | UpdateMetadata (rowID revision : Z) : Stmt nat
  | InsertChange (revision : Z) (eventType : string) (vipID backendID : option string) : Stmt unit
  | SelectChanges (after : Z) : Stmt (list ChangeLogRecord)
  | SelectLastChange : Stmt Z.

Definition vipRefused (r : VIPRecord) : bool :=
  negb (fits 36 (vr_ID r)) || negb (fits 45 (vr_VIP r))
  || negb (bool_decide (vr_Protocol r ∈ [ProtocolTCP; ProtocolUDP])) || negb (bool_decide (vr_LBMethod r = LBMethodMaglev))
  || match vr_EncapType r with
     | None => false
     | Some e => negb (bool_decide (e ∈ [EncapTypeGRE4; EncapTypeGRE6; EncapTypeL3DSR; EncapTypeNAT4; EncapTypeNAT6]))
     end.
Definition healthCheckRefused (r : HealthCheckRecord) : bool :=
  negb (fits 36 (hr_ID r)) || negb (fits 36 (hr_VIPID r))
  || negb (bool_decide (hr_Type r ∈ [HCTypeHTTP; HCTypeHTTPS; HCTypeTCP; HCTypePing; HCTypeTLSHello])).
Definition backendRefused (r : BackendRecord) : bool :=
  negb (fits 36 (br_ID r)) || negb (fits 36 (br_VIPID r)) || negb (fits 45 (br_IP r)).
Definition eventTypes : list string :=
  ["vip_created"; "vip_updated"; "vip_deleted"; "backend_added"; "backend_updated"; "backend_deleted"].
Definition changeRefused (eventType : string) (ids : list (option string)) : bool :=
  negb (bool_decide (eventType ∈ eventTypes)) || existsb (λ id, match id with Some id => negb (fits 36 id) | None => false end) ids.

(** *** What a statement is refused for: values that do not fit, a key that is
    taken, a parent that is missing *)
Inductive Violation := BadValue | Duplicate | NoParent.
Definition duplicateBackend (r : BackendRecord) (b : BackendRecord) : bool :=
  eqc (br_ID b) (br_ID r) || eqc (br_VIPID b) (br_VIPID r) && eqc (br_IP b) (br_IP r).
Definition duplicateHealthCheck (r : HealthCheckRecord) (h : HealthCheckRecord) : bool :=
  eqc (hr_ID h) (hr_ID r) || eqc (hr_VIPID h) (hr_VIPID r).
Definition hasVIP (id : string) (t : Tables) : bool := existsb (λ v, eqc (vr_ID v) id) (vips t).
Definition violation (bad dup orphan : bool) : option Violation :=
  if bad then Some BadValue else if dup then Some Duplicate else if orphan then Some NoParent else None.

Definition violates {A} (s : Stmt A) (t : Tables) : option Violation :=
  match s with
  | InsertVIP r => violation (vipRefused r) (existsb (λ v, eqc (vr_ID v) (vr_ID r) || sameTuple v r) (vips t)) false
  | InsertHealthCheck r =>
      violation (healthCheckRefused r) (existsb (duplicateHealthCheck r) (health_checks t)) (negb (hasVIP (hr_VIPID r) t))
  | InsertBackend r => violation (backendRefused r) (existsb (duplicateBackend r) (backends t)) (negb (hasVIP (br_VIPID r) t))
  | UpdateVIPWhere id r =>
      violation (hasVIP id t && vipRefused (withID "" r))
        (hasVIP id t && existsb (λ v, negb (eqc (vr_ID v) id) && sameTuple v r) (vips t)) false
  | UpdateHealthCheckWhere vipID r =>
      let matching h := eqc (hr_VIPID h) vipID in
      violation (existsb matching (health_checks t) && healthCheckRefused r)
        (existsb matching (health_checks t) && existsb (λ h, negb (matching h) && duplicateHealthCheck r h) (health_checks t))
        (existsb matching (health_checks t) && negb (hasVIP (hr_VIPID r) t))
  | UpdateBackendWhere id r =>
      let matching b := eqc (br_ID b) id in
      violation (existsb matching (backends t) && backendRefused r)
        (existsb matching (backends t) && existsb (λ b, negb (matching b) && duplicateBackend r b) (backends t))
        (existsb matching (backends t) && negb (hasVIP (br_VIPID r) t))
  | UpdateMetadata rowID revision =>
      violation false (existsb (λ '(id, rev), negb (id =? rowID)%Z && (rev =? revision)%Z) (system_metadata t)) false
  | InsertMetadata revision => violation false (existsb (λ '(_, rev), (rev =? revision)%Z) (system_metadata t)) false
  | InsertChange _ eventType vipID backendID => violation (changeRefused eventType [vipID; backendID]) false false
  | _ => None
  end.

(** *** What a statement answers and does *)
Definition first {A} (P : A → bool) (l : list A) (answer : option A) : Prop :=
  match answer with Some a => a ∈ l ∧ P a = true | None => ∀ a, a ∈ l → P a = false end.
Definition replacing {A} (P : A → bool) (a : A) (l : list A) : list A := (λ x, if P x then a else x) <$> l.
Definition keep {A} (P : A → bool) (l : list A) : list A := filter (λ a, P a = true) l.
Definition afterID (id : Z) (c : ChangeLogRecord) : bool := (id <? cr_ID c)%Z.
(** The changes from an identifier on, in the order of their identifiers. *)
Definition ascending (l : list ChangeLogRecord) : Prop := ∀ i j c d, l !! i = Some c → l !! j = Some d → i < j → (cr_ID c < cr_ID d)%Z.
Definition cascadeVIP (id : string) (t : Tables) : Tables :=
  {| system_metadata := system_metadata t; vips := keep (λ v, negb (eqc (vr_ID v) id)) (vips t);
     health_checks := keep (λ h, negb (eqc (hr_VIPID h) id)) (health_checks t);
     backends := keep (λ b, negb (eqc (br_VIPID b) id)) (backends t);
     change_log := change_log t |}.

Definition effect {A} (s : Stmt A) (t : Tables) : A → Tables → Prop :=
  match s in Stmt A return A → Tables → Prop with
  | SelectVIP id => λ a t', t' = t ∧ first (λ v, eqc (vr_ID v) id) (vips t) a
  | SelectVIPs => λ a t', t' = t ∧ a ≡ₚ vips t
  | SelectHealthCheck vipID => λ a t', t' = t ∧ first (λ h, eqc (hr_VIPID h) vipID) (health_checks t) a
  | SelectHealthChecks vipIDs => λ a t', t' = t ∧ a ≡ₚ keep (λ h, existsb (eqc (hr_VIPID h)) vipIDs) (health_checks t)
  | SelectBackend id => λ a t', t' = t ∧ first (λ b, eqc (br_ID b) id) (backends t) a
  | SelectBackends vipIDs => λ a t', t' = t ∧ a ≡ₚ keep (λ b, existsb (eqc (br_VIPID b)) vipIDs) (backends t)
  | InsertVIP r => λ _ t', t' = setVIPs (vips t ++ [storedVIP r]) t
  | InsertHealthCheck r => λ _ t', t' = setHealthChecks (health_checks t ++ [storedHealthCheck r]) t
  | InsertBackend r => λ _ t', t' = setBackends (backends t ++ [storedBackend r]) t
  | UpdateVIPWhere id r => λ _ t',
      t' = setVIPs ((λ v, if eqc (vr_ID v) id then storedVIP (withID (vr_ID v) r) else v) <$> vips t) t
  | UpdateHealthCheckWhere vipID r => λ _ t',
      t' = setHealthChecks (replacing (λ h, eqc (hr_VIPID h) vipID) (storedHealthCheck r) (health_checks t)) t
  | UpdateBackendWhere id r => λ _ t', t' = setBackends (replacing (λ b, eqc (br_ID b) id) (storedBackend r) (backends t)) t
  | DeleteVIPWhere id => λ n t', n = length (keep (λ v, eqc (vr_ID v) id) (vips t)) ∧ t' = cascadeVIP id t
  | DeleteHealthCheckWhere vipID => λ n t',
      n = length (keep (λ h, eqc (hr_VIPID h) vipID) (health_checks t)) ∧
      t' = setHealthChecks (keep (λ h, negb (eqc (hr_VIPID h) vipID)) (health_checks t)) t
  | DeleteBackendWhere id => λ n t',
      n = length (keep (λ b, eqc (br_ID b) id) (backends t)) ∧
      t' = setBackends (keep (λ b, negb (eqc (br_ID b) id)) (backends t)) t
  | SelectMetadata => λ a t',
      t' = t ∧ match a with
               | Some row => row ∈ system_metadata t ∧ ∀ row', row' ∈ system_metadata t → (row.1 <= row'.1)%Z
               | None => system_metadata t = []
               end
  | SelectRevision => λ a t', t' = t ∧ (if bool_decide (system_metadata t = []) then a = 0%Z else a ∈ (system_metadata t).*2)
  | CountMetadata => λ n t', t' = t ∧ n = length (system_metadata t)
  | InsertMetadata revision => λ _ t', ∃ id, id ∉ (system_metadata t).*1 ∧ t' = setMetadata (system_metadata t ++ [(id, revision)]) t
  | UpdateMetadata rowID revision => λ n t',
      n = length (keep (λ '(id, rev), (id =? rowID)%Z && negb (rev =? revision)%Z) (system_metadata t)) ∧
      t' = setMetadata ((λ '(id, rev), if (id =? rowID)%Z then (id, revision) else (id, rev)) <$> system_metadata t) t
  | InsertChange revision eventType vipID backendID => λ _ t', ∃ id,
      (0 < id)%Z ∧ (∀ c, c ∈ change_log t → (cr_ID c < id)%Z) ∧
      t' = setLog (change_log t ++ [{| cr_ID := id; cr_Revision := revision; cr_EventType := eventType;
                                       cr_VIPID := vipID; cr_BackendID := backendID |}]) t
  | SelectChanges after => λ a t',
      t' = t ∧ ∃ l, l ≡ₚ keep (afterID after) (change_log t) ∧ ascending l ∧ a = take 100 l
  | SelectLastChange => λ a t', t' = t ∧ a = foldr Z.max 0%Z (cr_ID <$> change_log t)
  end.
End Tables.

(** ** The server: the committed tables, and those of the transaction that is open *)
Class MySQL (D : Type) := {
  committed : D → Tables;
  opened : D → option Tables;
  exec : ∀ {A}, Stmt A → ST D (err + A);
  beginTx : ST D error;
  commitTx : ST D error;
  rollbackTx : ST D error;
}.

(** ** Programs of statements *)
Inductive prog (B : Type) : Type :=
  | Ret (b : B)
  | Query {A} (s : Stmt A) (c : err + A → prog B)
  | Begin (c : error → prog B)
  | Commit (c : error → prog B)
  | Rollback (c : error → prog B)
  | Send (e : SyncService.WatchEvent) (c : bool → prog B)
  | Now (c : Z → prog B)
  | NewUUID (c : string → prog B).
Arguments Ret {B}. Arguments Query {B A}. Arguments Begin {B}. Arguments Commit {B}. Arguments Rollback {B}.
Arguments Send {B}. Arguments Now {B}. Arguments NewUUID {B}.

Fixpoint bindP {A B} (m : prog A) (k : A → prog B) : prog B :=
  match m with
  | Ret a => k a
  | Query s c => Query s (λ r, bindP (c r) k)
  | Begin c => Begin (λ e, bindP (c e) k)
  | Commit c => Commit (λ e, bindP (c e) k)
  | Rollback c => Rollback (λ e, bindP (c e) k)
  | Send e c => Send e (λ b, bindP (c b) k)
  | Now c => Now (λ t, bindP (c t) k)
  | NewUUID c => NewUUID (λ s, bindP (c s) k)
  end.
#[global] Instance prog_ret : MRet prog := λ A a, Ret a.
#[global] Instance prog_bind : MBind prog := λ A B k m, bindP m k.

(** [if err != nil { return ..., err }] *)
Definition try {A B} (m : prog (err + A)) (k : A → prog (err + B)) : prog (err + B) :=
  r ← m; match r with inl e => mret (inl e) | inr a => k a end.
Notation "x ←? m ; k" := (try m (λ x, k)) (at level 20, m at level 100, k at level 200, right associativity).
(** The error of a call, as it is returned. *)
Definition failing {A} (f : err → err) (m : prog (err + A)) : prog (err + A) :=
  r ← m; mret (match r with inl e => inl (f e) | inr a => inr a end).
Definition wrapping {A} (prefix : string) (m : prog (err + A)) : prog (err + A) := failing (errorf prefix) m.
Definition check {B} (e : error) (k : prog (err + B)) : prog (err + B) :=
  match e with Some e => mret (inl e) | None => k end.
Definition lift {A} (r : err + A) : prog (err + A) := mret r.
Definition query {A} (s : Stmt A) : prog (err + A) := Query s Ret.

(** [db.Transaction(func(tx) error { ... })] *)
Definition transaction {A} (body : prog (err + A)) : prog (err + A) :=
  Begin (λ e,
    match e with
    | Some e => mret (inl e)
    | None =>
        r ← body;
        match r with
        | inl e => Rollback (λ _, mret (inl e))
        | inr a => Commit (λ e, mret (match e with Some e => inl e | None => inr a end))
        end
    end).

(** ** Errors (errors.go) *)
Definition RecordNotFound : err := ErrNotFound "record not found".
Fixpoint isRecordNotFound (e : err) : bool :=
  match e with
  | ErrNotFound msg => bool_decide (msg = "record not found")
  | ErrWrap _ e _ => isRecordNotFound e
  | _ => false
  end.
Definition mentions (text : list Z) (needles : list string) : bool :=
  existsb (λ s, Probers.contains text (bytes_of s)) needles.
Definition normalizeError (e : err) : err :=
  if isRecordNotFound e then NotFound
  else
    let errStr := Api.toLower (bytes_of (errString e)) in
    if mentions errStr ["1062"; "duplicate entry"; "unique constraint"] then Conflict
    else if mentions errStr ["1452"; "foreign key constraint"; "cannot add or update a child row"] then InvalidInput
    else if mentions errStr ["3819"; "check constraint"] then InvalidInput
    else e.
(** [normalizeError(fmt.Errorf("<prefix>%w", err))] *)
Definition normalizing {A} (prefix : string) (m : prog (err + A)) : prog (err + A) := failing (normalizeError ∘ errorf prefix) m.

Section Operations.
Context {G : HttpGuts} {K : Columns} {CC : Codec (option HCConfig)}.
Variable outOfRange : spec_float → Z.

(** ** Records and resources *)
Definition vipModelFromRecord (r : VIPRecord) : VIP :=
  {| v_ID := vr_ID r; v_VIP := vr_VIP r; v_Port := vr_Port r; v_Protocol := vr_Protocol r; v_LBMethod := vr_LBMethod r;
     v_EncapType := default "" (vr_EncapType r); v_DSCP := vr_DSCP r;
     v_CreatedAt := vr_CreatedAt r; v_UpdatedAt := vr_UpdatedAt r; v_HealthCheck := None; v_Backends := [] |}.
Definition backendModelFromRecord (r : BackendRecord) : Backend :=
  {| b_ID := br_ID r; b_VIPID := br_VIPID r; b_IP := br_IP r; b_Weight := br_Weight r;
     b_CreatedAt := br_CreatedAt r; b_UpdatedAt := br_UpdatedAt r |}.
Definition healthCheckModelFromRecord (r : HealthCheckRecord) : err + HealthCheck :=
  match (if bool_decide (hr_Config r = "") then inr None else unmarshal (hr_Config r)) with
  | inl e => inl e
  | inr hcConfig =>
      inr {| h_ID := hr_ID r; h_VIPID := hr_VIPID r; h_Type := hr_Type r; h_IntervalSec := hr_IntervalSec r;
             h_TimeoutSec := hr_TimeoutSec r; h_RiseCount := hr_RiseCount r; h_FallCount := hr_FallCount r;
             h_Config := hcConfig; h_CreatedAt := hr_CreatedAt r; h_UpdatedAt := hr_UpdatedAt r |}
  end.
Definition withHealthCheck (hc : option HealthCheck) (vip : VIP) : VIP :=
  {| v_ID := v_ID vip; v_VIP := v_VIP vip; v_Port := v_Port vip; v_Protocol := v_Protocol vip; v_LBMethod := v_LBMethod vip;
     v_EncapType := v_EncapType vip; v_DSCP := v_DSCP vip; v_CreatedAt := v_CreatedAt vip; v_UpdatedAt := v_UpdatedAt vip;
     v_HealthCheck := hc; v_Backends := v_Backends vip |}.
(** The record of a VIP, whose empty encapsulation is NULL. *)
Definition vipRecordOf (vip : VIP) : VIPRecord :=
  {| vr_ID := v_ID vip; vr_VIP := v_VIP vip; vr_Port := v_Port vip; vr_Protocol := v_Protocol vip; vr_LBMethod := v_LBMethod vip;
     vr_EncapType := if bool_decide (v_EncapType vip = "") then None else Some (v_EncapType vip); vr_DSCP := v_DSCP vip;
     vr_CreatedAt := v_CreatedAt vip; vr_UpdatedAt := v_UpdatedAt vip |}.
Definition healthCheckRecordOf (id vipID config : string) (created updated : option Z) (hc : HealthCheck) : HealthCheckRecord :=
  {| hr_ID := id; hr_VIPID := vipID; hr_Type := h_Type hc; hr_IntervalSec := h_IntervalSec hc; hr_TimeoutSec := h_TimeoutSec hc;
     hr_RiseCount := h_RiseCount hc; hr_FallCount := h_FallCount hc; hr_Config := config;
     hr_CreatedAt := created; hr_UpdatedAt := updated |}.
Definition backendRecordOf (b : Backend) : BackendRecord :=
  {| br_ID := b_ID b; br_VIPID := b_VIPID b; br_IP := b_IP b; br_Weight := b_Weight b;
     br_CreatedAt := b_CreatedAt b; br_UpdatedAt := b_UpdatedAt b |}.

Definition found {A} (r : option A) : prog (err + A) := lift (match r with Some a => inr a | None => inl NotFound end).
Definition lockVIPRecordForUpdate (id : string) : prog (err + VIPRecord) :=
  r ←? wrapping "failed to get VIP: " (query (SelectVIP id)); found r.
Definition validateBackendRecordsForVIP (vip : VIP) (records : list BackendRecord) : error :=
  ValidateBackendFamiliesForVIP vip (backendModelFromRecord <$> records).
Definition loadHealthChecksByVIPID (vipIDs : list string) : prog (err + gmap string HealthCheckRecord) :=
  match vipIDs with
  | [] => mret (inr ∅)
  | _ => l ←? query (SelectHealthChecks vipIDs); mret (inr (foldl (λ m r, <[hr_VIPID r := r]> m) ∅ l))
  end.
Definition loadBackendsByVIPID (vipIDs : list string) : prog (err + gmap string (list Backend)) :=
  match vipIDs with
  | [] => mret (inr ∅)
  | _ =>
      l ←? query (SelectBackends vipIDs);
      mret (inr (foldl (λ m r, let b := backendModelFromRecord r in <[b_VIPID b := default [] (m !! b_VIPID b) ++ [b]]> m) ∅ l))
  end.

(** ** The revision and the change log (revision.go, vip.go) *)
Definition incrementRevisionInTx : prog (err + Z) :=
  row ←? wrapping "failed to get current revision: " (query SelectMetadata);
  match row with
  | None => lift (inl (errorf "failed to get current revision: " (ErrMsg "sql: no rows in result set")))
  | Some (rowID, currentRevision) =>
      let newRevision := wrapS 64 (currentRevision + 1) in
      affected ←? wrapping "failed to increment revision: " (query (UpdateMetadata rowID newRevision));
      lift (if (affected =? 0)%nat
            then inl (ErrMsg ("failed to increment revision: metadata row " +:+ pretty rowID +:+ " was not updated"))
            else inr newRevision)
  end.
Definition nonEmpty (s : string) : option string := if bool_decide (s = "") then None else Some s.
Definition logChangeWithRevision (eventType vipID backendID : string) (revision : Z) : prog (err + unit) :=
  wrapping "failed to log change: " (query (InsertChange revision eventType (nonEmpty vipID) (nonEmpty backendID))).
(** How every change ends. *)
Definition recordChange (eventType vipID backendID : string) : prog (err + unit) :=
  newRevision ←? wrapping "failed to increment revision: " incrementRevisionInTx;
  wrapping "failed to log change: " (logChangeWithRevision eventType vipID backendID newRevision).

Definition initRevision : prog (err + unit) :=
  count ←? wrapping "failed to check revision: " (query CountMetadata);
  if (count =? 0)%nat then wrapping "failed to initialize revision: " (query (InsertMetadata 1)) else mret (inr tt).
Definition GetRevision : prog (err + Z) := wrapping "failed to get revision: " (query SelectRevision).
Definition IncrementRevision : prog (err + Z) := transaction incrementRevisionInTx.

(** ** VIPs (vip.go) *)
Definition withIDs (id vipID : string) (hc : HealthCheck) : HealthCheck :=
  {| h_ID := id; h_VIPID := vipID; h_Type := h_Type hc; h_IntervalSec := h_IntervalSec hc; h_TimeoutSec := h_TimeoutSec hc;
     h_RiseCount := h_RiseCount hc; h_FallCount := h_FallCount hc; h_Config := h_Config hc;
     h_CreatedAt := h_CreatedAt hc; h_UpdatedAt := h_UpdatedAt hc |}.
Definition marshalConfig (hc : HealthCheck) : prog (err + string) :=
  wrapping "failed to marshal health check config: " (lift (marshal (h_Config hc))).
Definition orNewUUID {A} (id : string) (k : string → prog A) : prog A :=
  if bool_decide (id = "") then NewUUID k else k id.
(** Its VIP as the caller finds it afterwards. *)
Definition createHealthCheck (vip : VIP) (now : Z) : prog (err + VIP) :=
  match v_HealthCheck vip with
  | None => mret (inr vip)
  | Some hc =>
      hcConfigJSON ←? marshalConfig hc;
      orNewUUID (h_ID hc) (λ hcID,
      _ ←? normalizing "failed to create health check: "
             (query (InsertHealthCheck (healthCheckRecordOf hcID (v_ID vip) hcConfigJSON (Some now) (Some now) hc)));
      mret (inr (withHealthCheck (Some (withIDs hcID (v_ID vip) hc)) vip)))
  end.
(** Identifier, time stamps and load balancing method of a new VIP. *)
Definition prepareVIP (vip : VIP) (k : VIP → Z → prog (err + VIP)) : prog (err + VIP) :=
  orNewUUID (v_ID vip) (λ id, Now (λ now,
    k (Etcd.stampVIP id (if bool_decide (v_LBMethod vip = "") then LBMethodMaglev else v_LBMethod vip)
         (match v_CreatedAt vip with None => Some now | t => t end) now vip) now)).
Definition CreateVIP (vip : VIP) : prog (err + VIP) :=
  check (ValidateVIPForWrite outOfRange vip) (
  prepareVIP vip (λ vip now,
  transaction (
    _ ←? normalizing "failed to create VIP: " (query (InsertVIP (vipRecordOf vip)));
    vip ←? createHealthCheck vip now;
    _ ←? recordChange "vip_created" (v_ID vip) "";
    mret (inr vip)))).

Definition GetVIP (id : string) : prog (err + VIP) :=
  check (ValidateResourceID "vip id" id) (
  vipRecord ←? wrapping "failed to get VIP: " (query (SelectVIP id));
  vipRecord ←? found vipRecord;
  hcRecord ←? wrapping ("failed to get health check for VIP " +:+ id +:+ ": ") (query (SelectHealthCheck id));
  match hcRecord with
  | None => mret (inr (vipModelFromRecord vipRecord))
  | Some hcRecord =>
      hc ←? wrapping ("failed to unmarshal health check config for VIP " +:+ id +:+ ": ") (lift (healthCheckModelFromRecord hcRecord));
      mret (inr (withHealthCheck (Some hc) (vipModelFromRecord vipRecord)))
  end).

(** A VIP with its health check from the map of them. *)
Definition joined (healthChecks : gmap string HealthCheckRecord) (r : VIPRecord) : err + VIP :=
  match healthChecks !! vr_ID r with
  | None => inr (vipModelFromRecord r)
  | Some hcRecord =>
      match healthCheckModelFromRecord hcRecord with
      | inl e => inl (errorf ("failed to unmarshal health check config for VIP " +:+ vr_ID r +:+ ": ") e)
      | inr hc => inr (withHealthCheck (Some hc) (vipModelFromRecord r))
      end
  end.
Fixpoint joinAll (healthChecks : gmap string HealthCheckRecord) (l : list VIPRecord) : err + list VIP :=
  match l with
  | [] => inr []
  | r :: l =>
      match joined healthChecks r with
      | inl e => inl e
      | inr vip => match joinAll healthChecks l with inl e => inl e | inr vips => inr (vip :: vips) end
      end
  end.
Definition ListVIPs : prog (err + list VIP) :=
  vipRecords ←? wrapping "failed to list VIPs: " (query SelectVIPs);
  healthChecks ←? wrapping "failed to list health checks: " (loadHealthChecksByVIPID (vr_ID <$> vipRecords));
  lift (joinAll healthChecks vipRecords).

(** The columns an update sets. *)
Definition orFallback (s fallback : string) : string := if bool_decide (s = "") then fallback else s.
Definition vipUpdateValues (vip : VIP) (fallback : VIPRecord) : VIPRecord :=
  {| vr_ID := "";
     vr_VIP := orFallback (v_VIP vip) (vr_VIP fallback);
     vr_Port := if (v_Port vip =? 0)%Z then vr_Port fallback else v_Port vip;
     vr_Protocol := orFallback (v_Protocol vip) (vr_Protocol fallback);
     vr_LBMethod := orFallback (orFallback (v_LBMethod vip) (vr_LBMethod fallback)) LBMethodMaglev;
     vr_EncapType := nonEmpty (v_EncapType vip);
     vr_DSCP := v_DSCP vip;
     vr_CreatedAt := match v_CreatedAt vip with None => vr_CreatedAt fallback | t => t end;
     vr_UpdatedAt := match v_UpdatedAt vip with None => vr_UpdatedAt fallback | t => t end |}.
Definition setUpdatedAt (now : Z) (r : HealthCheckRecord) : HealthCheckRecord :=
  {| hr_ID := hr_ID r; hr_VIPID := hr_VIPID r; hr_Type := hr_Type r; hr_IntervalSec := hr_IntervalSec r;
     hr_TimeoutSec := hr_TimeoutSec r; hr_RiseCount := hr_RiseCount r; hr_FallCount := hr_FallCount r;
     hr_Config := hr_Config r; hr_CreatedAt := hr_CreatedAt r; hr_UpdatedAt := Some now |}.
(** The health check of an update: changed in place, created or deleted. *)
Definition updateHealthCheck (vip : VIP) : prog (err + VIP) :=
  match v_HealthCheck vip with
  | None =>
      _ ←? normalizing "failed to delete health check: " (query (DeleteHealthCheckWhere (v_ID vip)));
      mret (inr vip)
  | Some hc =>
      hcConfigJSON ←? marshalConfig hc;
      existingHC ←? normalizing "failed to check health check: " (query (SelectHealthCheck (v_ID vip)));
      match existingHC with
      | Some existingHC =>
          Now (λ now,
          let hcRecord := healthCheckRecordOf (hr_ID existingHC) (v_ID vip) hcConfigJSON (hr_CreatedAt existingHC) (Some now) hc in
          Now (λ updatedAt,
          _ ←? normalizing "failed to update health check: "
                 (query (UpdateHealthCheckWhere (v_ID vip) (setUpdatedAt updatedAt hcRecord)));
          mret (inr (withHealthCheck (Some (withIDs (hr_ID existingHC) (v_ID vip) hc)) vip))))
      | None =>
          orNewUUID (h_ID hc) (λ hcID, Now (λ created, Now (λ updated,
          _ ←? normalizing "failed to create health check: "
                 (query (InsertHealthCheck (healthCheckRecordOf hcID (v_ID vip) hcConfigJSON (Some created) (Some updated) hc)));
          mret (inr (withHealthCheck (Some (withIDs hcID (v_ID vip) hc)) vip)))))
      end
  end.
(** What an update does between its checks of the input and its record in the change
    log: the row is locked, the backends are checked and the tables written. *)
Definition updateVIPRows (vip : VIP) : prog (err + VIP) :=
  existing ←? lockVIPRecordForUpdate (v_ID vip);
  Now (λ now,
  let vip := Etcd.stampVIP (v_ID vip) (v_LBMethod vip) (vr_CreatedAt existing) now vip in
  backendRecords ←? normalizing "failed to list backends for VIP validation: " (query (SelectBackends [v_ID vip]));
  check (validateBackendRecordsForVIP vip backendRecords) (
  _ ←? normalizing "failed to update VIP: " (query (UpdateVIPWhere (v_ID vip) (vipUpdateValues vip existing)));
  updateHealthCheck vip)).
Definition UpdateVIP (vip : VIP) : prog (err + VIP) :=
  check (ValidateResourceID "vip id" (v_ID vip)) (
  check (ValidateVIPForWrite outOfRange vip) (
  transaction (
    vip ←? updateVIPRows vip;
    _ ←? recordChange "vip_updated" (v_ID vip) "";
    mret (inr vip)))).

Definition deleteVIPRow (id : string) : prog (err + unit) :=
  affected ←? wrapping "failed to delete VIP: " (query (DeleteVIPWhere id));
  lift (if (affected =? 0)%nat then inl NotFound else inr tt).
Definition DeleteVIP (id : string) : prog (err + unit) :=
  check (ValidateResourceID "vip id" id) (
  transaction (
    _ ←? deleteVIPRow id;
    recordChange "vip_deleted" id "")).

(** ** Backends (backend.go) *)
Definition prepareBackend (backend : Backend) (k : Backend → prog (err + Backend)) : prog (err + Backend) :=
  orNewUUID (b_ID backend) (λ id, Now (λ now,
    k (Etcd.stampBackend id (b_VIPID backend) (match b_CreatedAt backend with None => Some now | t => t end) now backend))).
Definition addBackendRow (backend : Backend) : prog (err + unit) :=
  vipRecord ←? lockVIPRecordForUpdate (b_VIPID backend);
  check (ValidateBackendAddressFamilyForVIP (vipModelFromRecord vipRecord) backend) (
  normalizing "failed to create backend: " (query (InsertBackend (backendRecordOf backend)))).
Definition AddBackend (backend : Backend) : prog (err + Backend) :=
  check (ValidateBackendForWrite backend) (
  prepareBackend backend (λ backend,
  transaction (
    _ ←? addBackendRow backend;
    _ ←? recordChange "backend_added" (b_VIPID backend) (b_ID backend);
    mret (inr backend)))).
Definition GetBackend (id : string) : prog (err + Backend) :=
  check (ValidateResourceID "backend id" id) (
  r ←? wrapping "failed to get backend: " (query (SelectBackend id));
  r ←? found r;
  mret (inr (backendModelFromRecord r))).
Definition ListBackends (vipID : string) : prog (err + list Backend) :=
  check (ValidateResourceID "backend vip_id" vipID) (
  l ←? wrapping "failed to list backends: " (query (SelectBackends [vipID]));
  mret (inr (backendModelFromRecord <$> l))).
Definition setBackendUpdatedAt (now : Z) (r : BackendRecord) : BackendRecord :=
  {| br_ID := br_ID r; br_VIPID := br_VIPID r; br_IP := br_IP r; br_Weight := br_Weight r;
     br_CreatedAt := br_CreatedAt r; br_UpdatedAt := Some now |}.
Definition UpdateBackend (backend : Backend) : prog (err + Backend) :=
  check (ValidateResourceID "backend id" (b_ID backend)) (
  check (ValidateBackendFieldsForWrite backend) (
  transaction (
    existing ←? wrapping "failed to get backend: " (query (SelectBackend (b_ID backend)));
    existing ←? found existing;
    vipRecord ←? lockVIPRecordForUpdate (br_VIPID existing);
    existing ←? wrapping "failed to get backend: " (query (SelectBackend (b_ID backend)));
    existing ←? found existing;
    Now (λ now,
    let backend := Etcd.stampBackend (b_ID backend) (br_VIPID existing) (br_CreatedAt existing) now backend in
    check (ValidateBackendForWrite backend) (
    check (ValidateBackendAddressFamilyForVIP (vipModelFromRecord vipRecord) backend) (
    Now (λ updatedAt,
    _ ←? normalizing "failed to update backend: "
           (query (UpdateBackendWhere (b_ID backend) (setBackendUpdatedAt updatedAt (backendRecordOf backend))));
    _ ←? recordChange "backend_updated" (b_VIPID backend) (b_ID backend);
    mret (inr backend)))))))).
Definition DeleteBackend (id : string) : prog (err + unit) :=
  check (ValidateResourceID "backend id" id) (
  backend ←? GetBackend id;
  transaction (
    affected ←? wrapping "failed to delete backend: " (query (DeleteBackendWhere id));
    _ ←? lift (if (affected =? 0)%nat then inl NotFound else inr tt);
    recordChange "backend_deleted" (b_VIPID backend) id)).

(** ** The configuration for agents (config.go) *)
Definition GetConfig : prog (err + ConfigSnapshot) :=
  transaction (
    revision ←? GetRevision;
    vipRecords ←? wrapping "failed to list VIPs: " (query SelectVIPs);
    let vipIDs := vr_ID <$> vipRecords in
    healthChecks ←? wrapping "failed to list health checks: " (loadHealthChecksByVIPID vipIDs);
    backendsByVIPID ←? wrapping "failed to list backends: " (loadBackendsByVIPID vipIDs);
    vips ←? lift (joinAll healthChecks vipRecords);
    mret (inr {| cs_Revision := revision;
      cs_VIPs := (λ vip, {| vc_VIP := vip; vc_HealthCheck := v_HealthCheck vip;
                            vc_Backends := default [] (backendsByVIPID !! v_ID vip) |}) <$> vips |})).

End Operations.
End Mysql.
