(* ===== verification/MysqlTx.v ===== *)
(** * Transactions and the watch of the MySQL datastore
    (internal/common/datastore/mysql/transaction.go, watch.go)

    A transaction runs its statements as they are called and keeps the list of the
    changes to log; the watch polls the change log and turns every row into an event. *)

From Stdlib Require Import SpecFloat.
From stdpp Require Import base tactics list gmap strings pretty.
From S2P Require Import Prelude Types Net Store Validation Duration Config Models Etcd Sync Api Probers Mysql.

Module MysqlTx.
Import Models Validation Mysql.

(** ** Transactions (transaction.go) *)
Record ChangeEvent := { ce_EventType : string; ce_VIPID : string; ce_BackendID : string }.
Record MySQLTransaction := { hasOps : bool; changes : list ChangeEvent }.
Definition addChange (eventType vipID backendID : string) (tx : MySQLTransaction) : MySQLTransaction :=
  {| hasOps := true; changes := changes tx ++ [{| ce_EventType := eventType; ce_VIPID := vipID; ce_BackendID := backendID |}] |}.

Section Transactions.
Context {G : HttpGuts} {K : Columns} {CC : Codec (option HCConfig)}.
Variable outOfRange : spec_float → Z.

Definition BeginTx : prog (err + MySQLTransaction) :=
  Begin (λ e, mret (match e with
                    | Some e => inl (errorf "failed to begin transaction: " e)
                    | None => inr {| hasOps := false; changes := [] |}
                    end)).
(** An operation returns the transaction as it leaves it, and what the caller gets. *)
Definition refuse {A} (tx : MySQLTransaction) (e : error) (k : prog (MySQLTransaction * (err + A))) : prog (MySQLTransaction * (err + A)) :=
  match e with Some e => mret (tx, inl e) | None => k end.
(** The change is noted when the rows are written. *)
Definition noting {A} (tx : MySQLTransaction) (rows : prog (err + A)) (event : A → MySQLTransaction → MySQLTransaction)
  : prog (MySQLTransaction * (err + A)) :=
  r ← rows; mret (match r with inl e => (tx, inl e) | inr a => (event a tx, inr a) end).

Definition CreateVIP (tx : MySQLTransaction) (vip : VIP) : prog (MySQLTransaction * (err + VIP)) :=
  refuse tx (ValidateVIPForWrite outOfRange vip) (
  orNewUUID (v_ID vip) (λ id, Now (λ now,
  let vip := Etcd.stampVIP id (if bool_decide (v_LBMethod vip = "") then LBMethodMaglev else v_LBMethod vip)
               (match v_CreatedAt vip with None => Some now | t => t end) now vip in
  r ← normalizing "failed to create VIP: " (query (InsertVIP (vipRecordOf vip)));
  match r with
  | inl e => mret (tx, inl e)
  | inr _ =>
      let tx := addChange "vip_created" (v_ID vip) "" tx in
      r ← createHealthCheck vip now; mret (tx, r)
  end))).
Definition AddBackend (tx : MySQLTransaction) (backend : Backend) : prog (MySQLTransaction * (err + Backend)) :=
  refuse tx (ValidateBackendForWrite backend) (
  orNewUUID (b_ID backend) (λ id, Now (λ now,
  let backend := Etcd.stampBackend id (b_VIPID backend)
                   (match b_CreatedAt backend with None => Some now | t => t end) now backend in
  noting tx (_ ←? addBackendRow backend; mret (inr backend)) (λ _, addChange "backend_added" (b_VIPID backend) (b_ID backend))))).
Definition UpdateVIP (tx : MySQLTransaction) (vip : VIP) : prog (MySQLTransaction * (err + VIP)) :=
  refuse tx (ValidateResourceID "vip id" (v_ID vip)) (
  refuse tx (ValidateVIPForWrite outOfRange vip) (
  noting tx (updateVIPRows vip) (λ _, addChange "vip_updated" (v_ID vip) ""))).
Definition DeleteVIP (tx : MySQLTransaction) (id : string) : prog (MySQLTransaction * (err + unit)) :=
  refuse tx (ValidateResourceID "vip id" id) (noting tx (deleteVIPRow id) (λ _, addChange "vip_deleted" id "")).

Fixpoint logChanges (revision : Z) (l : list ChangeEvent) : prog (err + unit) :=
  match l with
  | [] => mret (inr tt)
  | change :: l =>
      _ ←? wrapping "failed to log change: " (logChangeWithRevision (ce_EventType change) (ce_VIPID change) (ce_BackendID change) revision);
      logChanges revision l
  end.
Definition commitTx : prog (err + unit) :=
  Commit (λ e, mret (match e with Some e => inl (errorf "failed to commit transaction: " e) | None => inr tt end)).
Definition Commit (tx : MySQLTransaction) : prog (err + unit) :=
  if negb (hasOps tx) then commitTx
  else
    r ← (newRevision ←? wrapping "failed to increment revision: " incrementRevisionInTx; logChanges newRevision (changes tx));
    match r with
    | inl e => Mysql.Rollback (λ _, mret (inl e))
    | inr _ => commitTx
    end.
Definition Rollback : prog (err + unit) :=
  Mysql.Rollback (λ e, mret (match e with Some e => inl (errorf "failed to rollback transaction: " e) | None => inr tt end)).

(** *** A caller: calls until one fails, and then a commit, or else a rollback *)
Inductive call :=
  | CallCreateVIP (vip : VIP)
  | CallAddBackend (backend : Backend)
  | CallUpdateVIP (vip : VIP)
  | CallDeleteVIP (id : string).
Definition forget {A} (m : prog (MySQLTransaction * (err + A))) : prog (MySQLTransaction * error) :=
  r ← m; mret (r.1, match r.2 with inl e => Some e | inr _ => None end).
Definition perform (tx : MySQLTransaction) (c : call) : prog (MySQLTransaction * error) :=
  match c with
  | CallCreateVIP vip => forget (CreateVIP tx vip)
  | CallAddBackend backend => forget (AddBackend tx backend)
  | CallUpdateVIP vip => forget (UpdateVIP tx vip)
  | CallDeleteVIP id => forget (DeleteVIP tx id)
  end.
Fixpoint performAll (tx : MySQLTransaction) (l : list call) : prog (MySQLTransaction * error) :=
  match l with
  | [] => mret (tx, None)
  | c :: l =>
      r ← perform tx c;
      match r.2 with Some e => mret (r.1, Some e) | None => performAll r.1 l end
  end.
Definition inTransaction (l : list call) (commit : bool) : prog (err + unit) :=
  tx ←? BeginTx;
  r ← performAll tx l;
  match r.2 with
  | Some e => Mysql.Rollback (λ _, mret (inl e))
  | None => if commit then Commit r.1 else Rollback
  end.

(** ** The watch (watch.go) *)
Definition latestChangeLogID : prog (err + Z) := wrapping "failed to get latest change log id: " (query SelectLastChange).
(** [None]: the change is skipped, because what it was about is gone. *)
Definition event (type : SyncService.WatchEventType) (change : ChangeLogRecord) (vip : option VIP) (backend : option Backend)
  : SyncService.WatchEvent :=
  {| SyncService.we_Type := type; SyncService.we_Revision := cr_Revision change; SyncService.we_VIP := vip;
     SyncService.we_Backend := backend; SyncService.we_Error := None |}.
Definition vipEvent (type : SyncService.WatchEventType) (change : ChangeLogRecord) : prog (err + option SyncService.WatchEvent) :=
  match cr_VIPID change with
  | None => mret (inr (Some (event type change None None)))
  | Some id =>
      r ← GetVIP id;
      mret (match r with
            | inl e => if isNotFound e then inr None else inl (errorf "failed to get VIP: " e)
            | inr vip => inr (Some (event type change (Some vip) None))
            end)
  end.
Definition backendEvent (type : SyncService.WatchEventType) (change : ChangeLogRecord) : prog (err + option SyncService.WatchEvent) :=
  match cr_BackendID change with
  | None => mret (inr (Some (event type change None None)))
  | Some id =>
      r ← GetBackend id;
      mret (match r with
            | inl e => if isNotFound e then inr None else inl (errorf "failed to get backend: " e)
            | inr backend => inr (Some (event type change None (Some backend)))
            end)
  end.
Definition buildWatchEvent (change : ChangeLogRecord) : prog (err + option SyncService.WatchEvent) :=
  let type := cr_EventType change in
  if bool_decide (type = "vip_created") then vipEvent SyncService.EventTypeVIPCreated change
  else if bool_decide (type = "vip_updated") then vipEvent SyncService.EventTypeVIPUpdated change
  else if bool_decide (type = "vip_deleted") then
    mret (inr (Some (event SyncService.EventTypeVIPDeleted change (emptyVIP <$> cr_VIPID change) None)))
  else if bool_decide (type = "backend_added") then backendEvent SyncService.EventTypeBackendAdded change
  else if bool_decide (type = "backend_updated") then backendEvent SyncService.EventTypeBackendUpdated change
  else if bool_decide (type = "backend_deleted") then
    mret (inr (Some (event SyncService.EventTypeBackendDeleted change None
      (match cr_BackendID change, cr_VIPID change with
       | Some id, Some vipID => Some (emptyBackend id vipID)
       | _, _ => None
       end))))
  else mret (inl (ErrMsg ("unknown event type: " +:+ type))).

(** The changes of a poll, one after the other: the last one dealt with, and whether
    the watch goes on (it ends when its context does). *)
Fixpoint processChanges (lastID : Z) (l : list ChangeLogRecord) : prog (Z * bool) :=
  match l with
  | [] => mret (lastID, true)
  | change :: l =>
      r ← buildWatchEvent change;
      match r with
      | inl e =>
          Send (SyncService.errorEvent (errorf "failed to build watch event: " e)) (λ ok,
            if ok then processChanges (cr_ID change) l else mret (cr_ID change, false))
      | inr (Some event) =>
          Send event (λ ok, if ok then processChanges (cr_ID change) l else mret (lastID, false))
      | inr None => processChanges (cr_ID change) l
      end
  end.
Definition poll (lastID : Z) : prog (Z * bool) :=
  r ← query (SelectChanges lastID);
  match r with
  | inl e => Send (SyncService.errorEvent (errorf "failed to poll changes: " e)) (λ ok, mret (lastID, ok))
  | inr changes => processChanges lastID changes
  end.
(** The loop over so many ticks of the poll interval, unless its context ends it. *)
Fixpoint watchLoop (ticks : nat) (lastID : Z) : prog (Z * bool) :=
  match ticks with
  | 0 => mret (lastID, true)
  | S ticks => r ← poll lastID; if r.2 : bool then watchLoop ticks r.1 else mret r
  end.
Definition Watch (ticks : nat) : prog (err + Z * bool) :=
  lastID ←? latestChangeLogID; r ← watchLoop ticks lastID; mret (inr r).

End Transactions.
End MysqlTx.
