(* ===== verification/MysqlLogic.v ===== *)
(** * MySQL: the laws of the server, and a logic for its clients

    The laws of the server; any number of clients against it, as a step relation; and
    weakest preconditions of the trees of statements, with a relation for what the
    other clients may do between a client's transactions and one for what the client
    guarantees in turn.  A transaction has the tables to itself: that is what InnoDB's
    isolation comes to here, where every transaction locks the rows it decides on and,
    from its revision to its commit, the one row of system_metadata. *)

From Stdlib Require Import SpecFloat.
From stdpp Require Import base tactics list gmap strings pretty relations.
From S2P Require Import Prelude Types Net Store Validation Duration Config Models Etcd Sync Api Probers Mysql.

Module MysqlLogic.
Import Mysql.

(** ** The laws *)
Section Laws.
Context {K : Columns}.
(** A statement that fails inside a transaction does nothing, or, in a deadlock or
    when the connection is lost, ends the transaction. *)
Definition done {A} (s : Stmt A) (t : Tables) (a : A) (t' : Tables) : Prop := violates s t = None ∧ effect s t a t'.
(** One whose answer is lost may have been done.  The errors of the driver are not the
    store's ErrNotFound. *)
Definition answered {A} (s : Stmt A) (t : Tables) (r : err + A) (t' : Tables) : Prop :=
  match r with inr a => done s t a t' | inl e => Models.isNotFound e = false ∧ (t' = t ∨ ∃ a, done s t a t') end.
Class MySQLLaws (D : Type) `{MySQL D} : Prop := {
  exec_law : ∀ {A} (s : Stmt A) (d : D) r d', exec s d = (r, d') →
    match opened d with
    | None => opened d' = None ∧ answered s (committed d) r (committed d')
    | Some t =>
        committed d' = committed d ∧
        match r with
        | inr a => ∃ t', opened d' = Some t' ∧ done s t a t'
        | inl _ => opened d' = Some t ∨ opened d' = None
        end
    end;
  begin_law : ∀ (d : D) e d', opened d = None → beginTx d = (e, d') →
    committed d' = committed d ∧ opened d' = match e with None => Some (committed d) | Some _ => None end;
  commit_law : ∀ (d : D) e d', commitTx d = (e, d') →
    opened d' = None ∧
    match opened d, e with
    | Some t, None => committed d' = t
    | Some t, Some _ => committed d' = committed d ∨ committed d' = t
    | None, _ => committed d' = committed d
    end;
  rollback_law : ∀ (d : D) e d', rollbackTx d = (e, d') → opened d' = None ∧ committed d' = committed d;
}.
End Laws.

(** ** Clients *)
Section Clients.
Context {D : Type} `{!MySQL D}.
(** One call of one client; [sent] is the event it sends, if it does. *)
Inductive pstep {B} : prog B → D → option SyncService.WatchEvent → prog B → D → Prop :=
  | step_query A (s : Stmt A) c d r d' : exec s d = (r, d') → pstep (Query s c) d None (c r) d'
  | step_begin c d e d' : beginTx d = (e, d') → pstep (Begin c) d None (c e) d'
  | step_commit c d e d' : commitTx d = (e, d') → pstep (Commit c) d None (c e) d'
  | step_rollback c d e d' : rollbackTx d = (e, d') → pstep (Rollback c) d None (c e) d'
  | step_send e c d : pstep (Send e c) d (Some e) (c true) d
  | step_unsent e c d : pstep (Send e c) d None (c false) d
  | step_now c t d : pstep (Now c) d None (c t) d
  | step_uuid c s d : pstep (NewUUID c) d None (c s) d.

(** Clients one of which may be inside a transaction. *)
Record sys := { db : D; clients : list (prog unit); holder : option nat }.
Definition holding (i : nat) (p : prog unit) (d : D) (held : option nat) : option nat :=
  match p with
  | Begin _ => if bool_decide (is_Some (opened d)) then Some i else None
  | Commit _ | Rollback _ => None
  | _ => held
  end.
Variable program : prog unit → Prop.
Inductive sstep : sys → sys → Prop :=
  | sys_call σ i p q :
      clients σ !! i = Some p → p = Ret tt → program q →
      sstep σ {| db := db σ; clients := <[i := q]> (clients σ); holder := holder σ |}
  | sys_run σ i p sent p' d' :
      clients σ !! i = Some p → holder σ = None ∨ holder σ = Some i → pstep p (db σ) sent p' d' →
      sstep σ {| db := d'; clients := <[i := p']> (clients σ); holder := holding i p d' (holder σ) |}.
Definition reachable (d : D) (n : nat) : sys → Prop :=
  rtc sstep {| db := d; clients := replicate n (Ret tt); holder := None |}.
End Clients.
Arguments sys D : clear implicits.

(** One client with others around it, to its end; the events it sends. *)
Inductive observed {D} `{MySQL D} (others : Tables → Tables → Prop) {B} : prog B → D → list SyncService.WatchEvent → B → D → Prop :=
  | observed_ret b d : observed others (Ret b) d [] b d
  | observed_step p d d1 sent p' d2 tr b d' :
      opened d1 = opened d → (if opened d is Some _ then d1 = d else others (committed d) (committed d1)) →
      pstep p d1 sent p' d2 → observed others p' d2 tr b d' →
      observed others p d (option_list sent ++ tr) b d'.

(** ** Weakest preconditions *)
Inductive mode := Idle | In (t : Tables) | Lost.
Section Logic.
Context {K : Columns}.
(** What others may do to the committed tables, and what each change made here is. *)
Variables rely guar : Tables → Tables → Prop.
Abbreviation base := (Tables * list SyncService.WatchEvent)%type.

Fixpoint wp {B} (p : prog B) (c : base) (m : mode) (Q : B → base → mode → Prop) : Prop :=
  match p with
  | Ret b => Q b c m
  | Query s k =>
      match m with
      | Idle => ∀ c1 r c2, rely c.1 c1 → answered s c1 r c2 → guar c1 c2 ∧ wp (k r) (c2, c.2) Idle Q
      | In t =>
          (∀ a t', done s t a t' → wp (k (inr a)) c (In t') Q) ∧
          ∀ e, wp (k (inl e)) c (In t) Q ∧ wp (k (inl e)) c Lost Q
      | Lost => False
      end
  | Begin k =>
      match m with
      | Idle => ∀ c1, rely c.1 c1 → (∀ e, wp (k (Some e)) (c1, c.2) Idle Q) ∧ wp (k None) (c1, c.2) (In c1) Q
      | _ => False
      end
  | Commit k =>
      match m with
      | Idle => False
      | In t => guar c.1 t ∧ wp (k None) (t, c.2) Idle Q ∧ ∀ e, wp (k (Some e)) c Idle Q ∧ wp (k (Some e)) (t, c.2) Idle Q
      | Lost => ∀ e, wp (k e) c Idle Q
      end
  | Rollback k => match m with Idle => False | _ => ∀ e, wp (k e) c Idle Q end
  | Send e k => wp (k true) (c.1, c.2 ++ [e]) m Q ∧ wp (k false) c m Q
  | Now k => ∀ t, wp (k t) c m Q
  | NewUUID k => ∀ s, wp (k s) c m Q
  end.

Lemma wp_mono {B} (p : prog B) c m (Q Q' : B → base → mode → Prop) :
  (∀ b c m, Q b c m → Q' b c m) → wp p c m Q → wp p c m Q'.
Proof.
  intros HQ. revert c m. induction p as [b|A s k IH|k IH|k IH|k IH|e k IH|k IH|k IH]; simpl; intros c m; [auto| | | | |naive_solver..];
    destruct m; naive_solver.
Qed.
Lemma wp_bind {A B} (p : prog A) (k : A → prog B) c m Q :
  wp p c m (λ a c m, wp (k a) c m Q) → wp (bindP p k) c m Q.
Proof.
  revert c m. induction p as [b|A' s k' IH|k' IH|k' IH|k' IH|e k' IH|k' IH|k' IH]; simpl; intros c m; [auto| | | | |naive_solver..];
    destruct m; naive_solver.
Qed.

(** *** Inside a transaction

    [run p t F]: if [p] succeeds from [t], its answer and tables satisfy [F]; and when
    it fails the transaction is still there or lost. *)
Definition succeeds {A} (F : A → Tables → Prop) (c : base) (r : err + A) (c' : base) (m : mode) : Prop :=
  c' = c ∧ match r with inr a => ∃ t, m = In t ∧ F a t | inl _ => m ≠ Idle end.
Definition run {A} (p : prog (err + A)) (t : Tables) (F : A → Tables → Prop) : Prop :=
  ∀ c, wp p c (In t) (succeeds F c).

Lemma run_ret {A} (a : A) t (F : A → Tables → Prop) : F a t → run (mret (inr a)) t F.
Proof. intros HF c. split; eauto. Qed.
Lemma run_fail {A} e t (F : A → Tables → Prop) : run (mret (inl e)) t F.
Proof. intros c. by split. Qed.
Lemma run_lift {A} (r : err + A) t (F : A → Tables → Prop) : (∀ a, r = inr a → F a t) → run (lift r) t F.
Proof. destruct r; intros HF; [apply run_fail|apply run_ret; auto]. Qed.
Lemma run_try {A B} (p : prog (err + A)) (k : A → prog (err + B)) t F :
  run p t (λ a t, run (k a) t F) → run (x ←? p; k x) t F.
Proof.
  intros Hp c. apply wp_bind. eapply wp_mono, Hp. intros [e|a] c' m [-> H]; simpl; [by split|].
  destruct H as (t' & -> & H). apply H.
Qed.
Lemma run_failing {A} f (p : prog (err + A)) t F : run p t F → run (failing f p) t F.
Proof.
  intros Hp c. apply wp_bind. eapply wp_mono, Hp. intros [e|a] c' m [-> H]; by split.
Qed.
Lemma run_query {A} (s : Stmt A) t F : (∀ a t', done s t a t' → F a t') → run (query s) t F.
Proof. intros HF c. split; [|by split; split]. intros a t' Hs. split; eauto. Qed.
Lemma run_check {A} e (k : prog (err + A)) t F : (e = None → run k t F) → run (check e k) t F.
Proof. destruct e; intros Hk; [apply run_fail|by apply Hk]. Qed.
Lemma run_now {A} (k : Z → prog (err + A)) t F : (∀ now, run (k now) t F) → run (Now k) t F.
Proof. intros Hk c now. apply Hk. Qed.
Lemma run_orNewUUID {A} id (k : string → prog (err + A)) t F : (∀ id, run (k id) t F) → run (orNewUUID id k) t F.
Proof. intros Hk c. unfold orNewUUID. case_bool_decide; simpl; intros; apply Hk. Qed.
Lemma run_mono {A} (p : prog (err + A)) t (F F' : A → Tables → Prop) : (∀ a t, F a t → F' a t) → run p t F → run p t F'.
Proof. intros HF Hp c. eapply wp_mono, Hp. intros [e|a] c' m [-> H]; split; naive_solver. Qed.

(** *** Outside: operations that leave no transaction open *)
Definition ends {B} (Q : B → base → Prop) (b : B) (c : base) (m : mode) : Prop := m = Idle ∧ Q b c.
Definition wpo {B} (p : prog B) (c : base) (Q : B → base → Prop) : Prop := wp p c Idle (ends Q).

Lemma wpo_ret {B} (b : B) c (Q : B → base → Prop) : Q b c → wpo (mret b) c Q.
Proof. by split. Qed.
Lemma wpo_bind {A B} (p : prog A) (k : A → prog B) c Q : wpo p c (λ a c, wpo (k a) c Q) → wpo (p ≫= k) c Q.
Proof. intros Hp. apply wp_bind. eapply wp_mono, Hp. by intros a c' m [-> H]. Qed.
Lemma wpo_mono {B} (p : prog B) c (Q Q' : B → base → Prop) : (∀ b c, Q b c → Q' b c) → wpo p c Q → wpo p c Q'.
Proof. intros HQ. apply wp_mono. intros b c' m [-> ?]. split; auto. Qed.
(** What holds whatever the answer is. *)
Definition always {B} (p : prog B) : Prop := ∀ c, wpo p c (λ _ _, True).
Lemma always_ret {B} (b : B) : always (mret b).
Proof. intros c. by apply wpo_ret. Qed.
Lemma always_bind {A B} (p : prog A) (k : A → prog B) : always p → (∀ a, always (k a)) → always (p ≫= k).
Proof. intros Hp Hk c. apply wpo_bind. eapply wpo_mono, Hp. intros a c' _. apply Hk. Qed.
Lemma always_try {A B} (p : prog (err + A)) (k : A → prog (err + B)) : always p → (∀ a, always (k a)) → always (x ←? p; k x).
Proof. intros Hp Hk. apply always_bind; [done|]. intros [e|a]; [apply always_ret|apply Hk]. Qed.
Lemma always_failing {A} f (p : prog (err + A)) : always p → always (failing f p).
Proof. intros Hp. apply always_bind; [done|]. intros; apply always_ret. Qed.
Lemma always_check {A} e (k : prog (err + A)) : (e = None → always k) → always (check e k).
Proof. destruct e; intros Hk; [apply always_ret|by apply Hk]. Qed.
Lemma always_now {A} (k : Z → prog A) : (∀ now, always (k now)) → always (Now k).
Proof. intros Hk c now. apply Hk. Qed.
Lemma always_orNewUUID {A} id (k : string → prog A) : (∀ id, always (k id)) → always (orNewUUID id k).
Proof. intros Hk c. unfold orNewUUID. case_bool_decide; [intros s|]; apply (Hk _ c). Qed.
Lemma always_query {A} (s : Stmt A) : (∀ c c1 r c2, rely c c1 → answered s c1 r c2 → guar c1 c2) → always (query s).
Proof. intros Hs c c1 r c2 Hr Ha. split; [by eapply Hs|by split]. Qed.

(** A transaction, from a body that holds to the guarantee when it succeeds. *)
Lemma always_transaction {A} (body : prog (err + A)) :
  (∀ c c1, rely c c1 → run body c1 (λ _ t, guar c1 t)) → always (transaction body).
Proof.
  intros Hb c c1 Hr. split; [by split|]. simpl. apply wp_bind.
  eapply wp_mono; [|exact (Hb _ _ Hr (c1, c.2))].
  intros [e|a] c' m [-> H]; simpl.
  - destruct m; [done|by split..].
  - destruct H as (t & -> & H). simpl. split_and!; [done|by split|]. intros e; split; by split.
Qed.

(** ** What holds of the trees holds of the clients *)
Context {D : Type} `{!MySQL D, !MySQLLaws D}.
Definition modeOf (d : D) (m : mode) : Prop :=
  match m with Idle | Lost => opened d = None | In t => opened d = Some t end.

Lemma wp_step {B} (p : prog B) (d : D) sent p' d' c m tr Q :
  rely c c →
  modeOf d m → committed d = c → pstep p d sent p' d' → wp p (c, tr) m Q →
  ∃ m', modeOf d' m' ∧ wp p' (committed d', tr ++ option_list sent) m' Q ∧
        (committed d' = c ∨ guar c (committed d')) ∧
        match p with
        | Begin _ => m = Idle ∧ m' = (if opened d' is Some t then In t else Idle)
        | Commit _ | Rollback _ => m' = Idle
        | _ => m = Idle ↔ m' = Idle
        end.
Proof.
  intros Hrefl Hm <- Hs Hp. destruct Hs as [A s k d r d' He|k d e d' He|k d e d' He|k d e d' He|e k d|e k d|k t d|k s d];
    simpl in Hp |- *; rewrite ?app_nil_r.
  - apply exec_law in He. destruct m as [|t|]; [| |done]; simpl in Hm; rewrite Hm in He.
    + destruct He as [Ho Ha]. destruct (Hp _ _ _ Hrefl Ha) as [Hg Hw]. exists Idle. auto.
    + destruct He as [Hc Ha]. rewrite Hc. destruct Hp as [Hok Hno], r as [e|a].
      * destruct Ha as [Ha|Ha]; [exists (In t)|exists Lost]; split_and!; auto; try apply Hno; naive_solver.
      * destruct Ha as (t' & Ha & Hd). exists (In t'). split_and!; auto. naive_solver.
  - destruct m; [|done..]. simpl in Hm. destruct (begin_law _ _ _ Hm He) as [Hc Ho]. rewrite Hc.
    destruct (Hp _ Hrefl) as [Hno Hok]. destruct e as [e|]; rewrite Ho; [exists Idle|exists (In (committed d))]; auto.
  - apply commit_law in He as [Ho Hc]. exists Idle. split; [done|].
    destruct m as [|t|]; [done| |]; simpl in Hm; rewrite Hm in Hc.
    + destruct Hp as (Hg & Hok & Hno). destruct e as [e|].
      * destruct Hc as [Hc|Hc]; rewrite Hc; split_and!; auto; apply Hno.
      * rewrite Hc. auto.
    + rewrite Hc. auto.
  - apply rollback_law in He as [Ho Hc]. rewrite Hc. exists Idle. destruct m; [done|auto..].
  - exists m. destruct Hp. auto.
  - exists m. destruct Hp. auto.
  - exists m. auto.
  - exists m. auto.
Qed.

(** What others do between the calls. *)
Lemma wp_stable {B} (p : prog B) t t' tr m Q :
  (∀ t1 t2 t3, rely t1 t2 → rely t2 t3 → rely t1 t3) →
  (∀ b tr m, Q b (t, tr) m → Q b (t', tr) m) →
  rely t t' → (∀ u, m ≠ In u) → wp p (t, tr) m Q → wp p (t', tr) m Q.
Proof.
  intros Htrans HQ Ht. revert m tr.
  induction p as [b|A s k IH|k IH|k IH|k IH|e k IH|k IH|k IH]; simpl; intros m tr Hm Hp.
  - auto.
  - destruct m as [|u|]; [|by destruct (Hm u)|done]. intros c1 r c2 Hc. apply Hp. by eapply Htrans.
  - destruct m as [|u|]; [|done..]. intros c1 Hc. apply Hp. by eapply Htrans.
  - destruct m as [|u|]; [done|by destruct (Hm u)|]. intros e. by apply IH.
  - destruct m as [|u|]; [done|by destruct (Hm u)|]. intros e. by apply IH.
  - destruct Hp. split; by apply IH.
  - intros z. by apply IH.
  - intros z. by apply IH.
Qed.

(** One client with others around it. *)
Lemma observed_wp {B} (p : prog B) (d : D) tr b d' m tr0 Q :
  (∀ t1 t2 t3, rely t1 t2 → rely t2 t3 → rely t1 t3) → (∀ t t', rely t t' → rely t' t') →
  (∀ t t', guar t t' → rely t t') → (∀ t1 t2 b tr m, rely t1 t2 → Q b (t1, tr) m → Q b (t2, tr) m) →
  observed rely p d tr b d' → rely (committed d) (committed d) → modeOf d m → wp p (committed d, tr0) m Q →
  ∃ m', modeOf d' m' ∧ Q b (committed d', tr0 ++ tr) m'.
Proof.
  intros Htrans Hrefl Hguar HQ Ho. revert m tr0.
  induction Ho as [b d|p d d1 sent p' d2 tr b d' Hopen Hothers Hs Ho IH]; intros m tr0 Hc Hm Hp.
  { exists m. rewrite app_nil_r. done. }
  assert (modeOf d1 m ∧ rely (committed d1) (committed d1) ∧ wp p (committed d1, tr0) m Q) as (Hm1 & Hc1 & Hp1).
  { destruct m as [|t|]; simpl in Hm |- *; rewrite Hm in Hothers.
    - rewrite Hopen. split_and!; [done|by eapply Hrefl|]. eapply wp_stable; [exact Htrans| |exact Hothers|done|exact Hp]. eauto.
    - subst d1. auto.
    - rewrite Hopen. split_and!; [done|by eapply Hrefl|]. eapply wp_stable; [exact Htrans| |exact Hothers|done|exact Hp]. eauto. }
  destruct (wp_step _ _ _ _ _ _ _ tr0 _ Hc1 Hm1 eq_refl Hs Hp1) as (m' & Hm' & Hp' & Hg & _).
  destruct (IH m' (tr0 ++ option_list sent)) as (m2 & ? & HQ2); [|done|done|].
  - destruct Hg as [->|Hg]; [done|]. eapply Hrefl, Hguar, Hg.
  - exists m2. by rewrite <- app_assoc in HQ2.
Qed.

(** Any number of clients. *)
Section System.
Variable program : prog unit → Prop.
Hypothesis (Htrans : ∀ t1 t2 t3, rely t1 t2 → rely t2 t3 → rely t1 t3) (Hrefl : ∀ t t', rely t t' → rely t' t')
  (Hguar : ∀ t t', rely t t → guar t t' → rely t t') (Hprogram : ∀ p, program p → always p).
Definition safe (d : D) (p : prog unit) (m : mode) : Prop := modeOf d m ∧ ∃ tr, wp p (committed d, tr) m (ends (λ _ _, True)).
Definition sysInv (σ : sys D) : Prop :=
  rely (committed (db σ)) (committed (db σ)) ∧ (holder σ = None → opened (db σ) = None) ∧
  ∀ i p, clients σ !! i = Some p →
    if bool_decide (holder σ = Some i) then ∃ m, m ≠ Idle ∧ safe (db σ) p m
    else ∃ tr, wp p (committed (db σ), tr) Idle (ends (λ _ _, True)).
Lemma sysInv_step σ σ' :
  sysInv σ → sstep program σ σ' →
  sysInv σ' ∧ (committed (db σ') = committed (db σ) ∨ guar (committed (db σ)) (committed (db σ'))).
Proof.
  intros (Hr & Hh & Hcs) Hstep. destruct Hstep as [σ i p q Hi -> Hq|σ i p sent p' d' Hi Hhold Hs]; simpl.
  - split; [|by left]. split_and!; [done..|]. intros j r Hj. simpl in *.
    destruct (decide (i = j)) as [<-|]; [|rewrite list_lookup_insert_ne in Hj by done; by apply Hcs].
    rewrite list_lookup_insert_eq in Hj by (by eapply lookup_lt_Some). injection Hj as <-.
    specialize (Hcs _ _ Hi). case_bool_decide; [|exists []; by apply Hprogram].
    destruct Hcs as (m & Hm & _ & tr & [? _]). done.
  - assert (∃ m tr, (m = Idle ↔ holder σ = None) ∧ modeOf (db σ) m ∧ wp p (committed (db σ), tr) m (ends (λ _ _, True)))
      as (m & tr & Hmi & Hm & Hp).
    { specialize (Hcs _ _ Hi). destruct Hhold as [Hn|Hn]; rewrite Hn in *.
      - rewrite bool_decide_eq_false_2 in Hcs by done. destruct Hcs as [tr Hp]. exists Idle, tr. split_and!; [done|by apply Hh|done].
      - rewrite bool_decide_eq_true_2 in Hcs by done. destruct Hcs as (m & Hne & Hm & tr & Hp). exists m, tr. by split_and!. }
    destruct (wp_step _ _ _ _ _ _ _ tr _ Hr Hm eq_refl Hs Hp) as (m' & Hm' & Hp' & Hg & Hnext).
    split; [|done].
    assert (rely (committed (db σ)) (committed d')) as Hrel by (destruct Hg as [->|]; auto).
    assert (m' = Idle ↔ holding i p d' (holder σ) = None) as Hheld.
    { unfold holding. destruct p; simpl in Hnext; try tauto; [|by rewrite Hnext..].
      destruct Hnext as [_ ->]. destruct (opened d'); [rewrite bool_decide_eq_true_2|rewrite bool_decide_eq_false_2]; naive_solver. }
    assert (holding i p d' (holder σ) = None ∨ holding i p d' (holder σ) = Some i) as Hown.
    { unfold holding. destruct p; auto. case_bool_decide; auto. }
    split_and!; [by eapply Hrefl|..]; simpl.
    + intros Hn. apply Hheld in Hn as ->. done.
    + intros j r Hj. destruct (decide (i = j)) as [<-|Hne].
      * rewrite list_lookup_insert_eq in Hj by (by eapply lookup_lt_Some). injection Hj as <-.
        case_bool_decide as Hb.
        -- exists m'. split; [|split; [done|by eexists]]. intros E%Hheld. congruence.
        -- destruct Hown as [Hn|Hn]; [|done]. apply Hheld in Hn as ->. by eexists.
      * rewrite list_lookup_insert_ne in Hj by done. specialize (Hcs _ _ Hj).
        rewrite bool_decide_eq_false_2 in Hcs by (destruct Hhold as [->| ->]; congruence). destruct Hcs as [tr' Hw].
        rewrite bool_decide_eq_false_2 by (destruct Hown as [->| ->]; congruence).
        exists tr'. by eapply wp_stable.
Qed.
Lemma sysInv_reachable d n σ : rely (committed d) (committed d) → opened d = None → reachable program d n σ → sysInv σ.
Proof.
  intros Hd Ho. apply (rtc_ind_r sysInv); [|intros σ1 σ2 _ Hs Hi; by apply (sysInv_step σ1 σ2)].
  split_and!; [done..|]. intros i p [-> _]%lookup_replicate. exists []. by split.
Qed.
Lemma sys_rely σ σ' : sysInv σ → rtc (sstep program) σ σ' → rely (committed (db σ)) (committed (db σ')).
Proof.
  intros Hi Hr. induction Hr as [σ|σ σ1 σ2 Hs Hr IH]; [apply Hi|].
  destruct (sysInv_step _ _ Hi Hs) as [Hi1 Hg]. eapply Htrans; [|by apply IH]. destruct Hi as [Hc _]. destruct Hg as [->|Hg]; auto.
Qed.
End System.
End Logic.
End MysqlLogic.
