(* ===== verification/MysqlTables.v ===== *)
(** * MySQL: consistent tables, and what each statement does to them

    Keys are unique, every row has its parent, families fit, there is one revision and
    the change log is in order; statements keep that, and change only the rows of what
    they are about. *)

From Stdlib Require Import SpecFloat.
From stdpp Require Import base tactics list gmap strings pretty relations.
From S2P Require Import Prelude Types Net Store Validation Duration Config Models Etcd Sync Api Probers Mysql MysqlTx MysqlLogic.

Module MysqlTables.
Import Models Validation Mysql MysqlTx MysqlLogic.

(** ** Lists with unique keys *)
Section Unique.
Context {A X : Type}.
Implicit Types (f : A → X) (l : list A).
Definition unique f l : Prop := NoDup (f <$> l).
Lemma unique_snoc f l a : unique f l → (∀ x, x ∈ l → f x ≠ f a) → unique f (l ++ [a]).
Proof.
  unfold unique. rewrite fmap_app, NoDup_app. intros Hl Ha. split_and!; [done| |apply NoDup_singleton].
  intros x (y & -> & Hy)%list_elem_of_fmap. simpl. rewrite list_elem_of_singleton. by apply Ha.
Qed.
Lemma unique_keep f (P : A → bool) l : unique f l → unique f (keep P l).
Proof.
  unfold unique, keep. induction l as [|x l IH]; [done|]. simpl. rewrite NoDup_cons. intros [Hx Hl].
  rewrite filter_cons. case_decide; [|auto]. simpl. apply NoDup_cons. split; [|auto].
  intros (y & Hy & [_ Hyl]%list_elem_of_filter)%list_elem_of_fmap. destruct Hx. rewrite Hy. by apply list_elem_of_fmap_2.
Qed.
Lemma unique_eq f l a b : unique f l → a ∈ l → b ∈ l → f a = f b → a = b.
Proof.
  unfold unique. induction l as [|x l IH]; simpl; [by rewrite elem_of_nil|].
  rewrite NoDup_cons, !elem_of_cons. intros [Hx Hl] [->|Ha] [->|Hb] Hab; auto.
  - destruct Hx. rewrite Hab. by apply list_elem_of_fmap_2.
  - destruct Hx. rewrite <- Hab. by apply list_elem_of_fmap_2.
Qed.
End Unique.
(** Rewriting the rows with one value of a unique key. *)
Lemma unique_update {A X Y} (f : A → X) (k : A → Y) (P : A → bool) (h : A → A) (l : list A) :
  unique k l → (∀ x y, P x = true → P y = true → k x = k y) →
  (∀ x y, x ∈ l → y ∈ l → P x = true → P y = false → f (h x) ≠ f y) →
  unique f l → unique f ((λ x, if P x then h x else x) <$> l).
Proof.
  unfold unique. intros Hk HP Hh Hf. induction l as [|x l IH]; [constructor|]. simpl in *.
  apply NoDup_cons in Hk as [Hkx Hk], Hf as [Hfx Hf]. apply NoDup_cons. split; [|apply IH; auto; set_solver].
  rewrite <- list_fmap_compose. intros (y & Hy & Hyl)%list_elem_of_fmap. simpl in Hy.
  assert (P y = true → P x = true → False) as Hxy.
  { intros Py Px. destruct Hkx. rewrite (HP x y) by done. by apply list_elem_of_fmap_2. }
  destruct (P x) eqn:Px, (P y) eqn:Py; [naive_solver|..].
  - by apply (Hh x y); [set_solver..|done|done|].
  - by apply (Hh y x); [set_solver..|done|done|symmetry].
  - destruct Hfx. rewrite Hy. by apply list_elem_of_fmap_2.
Qed.
Lemma elem_keep {A} (P : A → bool) (l : list A) a : a ∈ keep P l ↔ a ∈ l ∧ P a = true.
Proof. unfold keep. rewrite list_elem_of_filter. tauto. Qed.
Lemma elem_update {A} (P : A → bool) (h : A → A) (l : list A) a :
  a ∈ (λ x, if P x then h x else x) <$> l ↔ (∃ x, x ∈ l ∧ P x = true ∧ a = h x) ∨ (a ∈ l ∧ P a = false).
Proof.
  rewrite list_elem_of_fmap. split.
  - intros (x & -> & Hx). destruct (P x) eqn:Px; eauto.
  - intros [(x & Hx & Px & ->)|[Ha Pa]]; [exists x; by rewrite Px|exists a; by rewrite Pa].
Qed.
Lemma existsb_false {A} (P : A → bool) (l : list A) : existsb P l = false ↔ ∀ x, x ∈ l → P x = false.
Proof.
  rewrite <- not_true_iff_false, existsb_exists. split.
  - intros H x Hx. apply not_true_iff_false. intros Px. apply H. exists x. by rewrite <- list_elem_of_In.
  - intros H (x & Hx%list_elem_of_In & Px). by rewrite H in Px.
Qed.
Lemma existsb_true {A} (P : A → bool) (l : list A) : existsb P l = true ↔ ∃ x, x ∈ l ∧ P x = true.
Proof. rewrite existsb_exists. by setoid_rewrite list_elem_of_In. Qed.

Section Consistency.
Context {K : Columns}.

Lemma eqc_spec a b : eqc a b = true ↔ collate a = collate b.
Proof. apply bool_decide_eq_true. Qed.
Lemma eqc_false a b : eqc a b = false ↔ collate a ≠ collate b.
Proof. apply bool_decide_eq_false. Qed.
Lemma eqc_refl a : eqc a a = true.
Proof. by apply eqc_spec. Qed.

(** ** Consistency *)
Definition tupleKey (r : VIPRecord) : string * Z * string := (collate (vr_VIP r), vr_Port r, collate (vr_Protocol r)).
Definition addressKey (r : BackendRecord) : string * string := (collate (br_VIPID r), collate (br_IP r)).
Definition familyFits (v : VIPRecord) (b : BackendRecord) : Prop :=
  ValidateBackendAddressFamilyForVIP (vipModelFromRecord v) (backendModelFromRecord b) = None.
Record consistent (t : Tables) : Prop := {
  vip_ids : unique (λ r, collate (vr_ID r)) (vips t);
  vip_tuples : unique tupleKey (vips t);
  hc_ids : unique (λ r, collate (hr_ID r)) (health_checks t);
  hc_vips : unique (λ r, collate (hr_VIPID r)) (health_checks t);
  backend_ids : unique (λ r, collate (br_ID r)) (backends t);
  backend_addresses : unique addressKey (backends t);
  hc_parents : ∀ h, h ∈ health_checks t → hasVIP (hr_VIPID h) t = true;
  backend_parents : ∀ b, b ∈ backends t → ∃ v, v ∈ vips t ∧ eqc (vr_ID v) (br_VIPID b) = true ∧ familyFits v b;
  one_revision : ∃ row revision, system_metadata t = [(row, revision)];
  log_ascending : ascending (change_log t);
  log_positive : ∀ c, c ∈ change_log t → (0 < cr_ID c)%Z;
}.

(** ** What a list of changes is about *)
Definition names (e : ChangeEvent) (id : string) : Prop := eqc (ce_VIPID e) id = true.
Definition namesBackend (e : ChangeEvent) (b : BackendRecord) : Prop :=
  eqc (ce_BackendID e) (br_ID b) = true ∨ ce_EventType e = "vip_deleted" ∧ names e (br_VIPID b).
Definition about (l : list ChangeEvent) (t t' : Tables) : Prop :=
  (∀ v, (v ∈ vips t ↔ v ∈ vips t') ∨ ∃ e, e ∈ l ∧ names e (vr_ID v)) ∧
  (∀ h, (h ∈ health_checks t ↔ h ∈ health_checks t') ∨ ∃ e, e ∈ l ∧ names e (hr_VIPID h)) ∧
  (∀ b, (b ∈ backends t ↔ b ∈ backends t') ∨ ∃ e, e ∈ l ∧ namesBackend e b).
(** Rows are written, the revision and the log are left alone. *)
Definition wrote (l : list ChangeEvent) (t t' : Tables) : Prop :=
  consistent t' ∧ about l t t' ∧ system_metadata t' = system_metadata t ∧ change_log t' = change_log t.

Lemma about_refl l t : about l t t.
Proof. unfold about. naive_solver. Qed.
Lemma about_trans l1 l2 t1 t2 t3 : about l1 t1 t2 → about l2 t2 t3 → about (l1 ++ l2) t1 t3.
Proof.
  unfold about. setoid_rewrite elem_of_app. intros (Hv & Hh & Hb) (Hv' & Hh' & Hb').
  split_and!; intros x; [destruct (Hv x), (Hv' x)|destruct (Hh x), (Hh' x)|destruct (Hb x), (Hb' x)]; naive_solver.
Qed.
Lemma about_same l t1 t2 t3 : about l t1 t2 → about l t2 t3 → about l t1 t3.
Proof.
  unfold about. intros (Hv & Hh & Hb) (Hv' & Hh' & Hb').
  split_and!; intros x; [destruct (Hv x), (Hv' x)|destruct (Hh x), (Hh' x)|destruct (Hb x), (Hb' x)]; naive_solver.
Qed.
Lemma wrote_refl l t : consistent t → wrote l t t.
Proof. intros Ht. split_and!; auto using about_refl. Qed.
Lemma wrote_same l t1 t2 t3 : wrote l t1 t2 → wrote l t2 t3 → wrote l t1 t3.
Proof. intros (? & ? & ? & ?) (? & ? & ? & ?). split_and!; [done|by eapply about_same|congruence..]. Qed.
Lemma wrote_trans l1 l2 t1 t2 t3 : wrote l1 t1 t2 → wrote l2 t2 t3 → wrote (l1 ++ l2) t1 t3.
Proof. intros (? & ? & ? & ?) (? & ? & ? & ?). split_and!; [done|by eapply about_trans|congruence..]. Qed.

(** ** Statements *)
Lemma hasVIP_spec id t : hasVIP id t = true ↔ ∃ v, v ∈ vips t ∧ eqc (vr_ID v) id = true.
Proof. apply existsb_true. Qed.
Lemma violation_None bad dup orphan : violation bad dup orphan = None → bad = false ∧ dup = false ∧ orphan = false.
Proof. destruct bad, dup, orphan; done. Qed.
Lemma family_of v w b c : default "" (vr_EncapType v) = default "" (vr_EncapType w) → br_IP b = br_IP c → familyFits v b → familyFits w c.
Proof.
  unfold familyFits, ValidateBackendAddressFamilyForVIP, ValidateBackendIPFamilyForVIP, vipModelFromRecord, backendModelFromRecord. simpl.
  by intros -> ->.
Qed.

Lemma InsertVIP_wrote r t a t' e :
  consistent t → done (InsertVIP r) t a t' → names e (vr_ID r) → wrote [e] t t'.
Proof.
  intros Ht [(_ & Hd & _)%violation_None ->] He. rewrite existsb_false in Hd.
  assert (∀ v, v ∈ vips t → collate (vr_ID v) ≠ collate (vr_ID r) ∧ tupleKey v ≠ tupleKey (storedVIP r)) as Hnew.
  { intros v [Hid Htu]%Hd%orb_false_iff. apply eqc_false in Hid. split; [done|]. unfold tupleKey. simpl.
    unfold sameTuple, eqc in Htu. intros [= H1 H2 H3]. rewrite !bool_decide_eq_true_2, H2, Z.eqb_refl in Htu by done. done. }
  assert (∀ v, v ∈ vips t → v ∈ vips (setVIPs (vips t ++ [storedVIP r]) t)) as Hold by set_solver.
  split_and!; [|split_and!|done..].
  - destruct Ht. split; simpl; auto.
    + apply unique_snoc; [done|]. intros v Hv. by apply Hnew.
    + apply unique_snoc; [done|]. intros v Hv. by apply Hnew.
    + intros h Hh. apply hasVIP_spec. apply hc_parents0, hasVIP_spec in Hh. naive_solver.
    + intros b Hb. apply backend_parents0 in Hb. naive_solver.
  - intros v. simpl. rewrite elem_of_app, list_elem_of_singleton.
    destruct (decide (v = storedVIP r)) as [->|]; [right|left; tauto]. exists e. by rewrite list_elem_of_singleton.
  - intros h. by left.
  - intros b. by left.
Qed.

Lemma InsertHealthCheck_wrote r t a t' e :
  consistent t → done (InsertHealthCheck r) t a t' → names e (hr_VIPID r) → wrote [e] t t'.
Proof.
  intros Ht [(_ & Hd & Hp%negb_false_iff)%violation_None ->] He. rewrite existsb_false in Hd.
  assert (∀ h, h ∈ health_checks t → collate (hr_ID h) ≠ collate (hr_ID r) ∧ collate (hr_VIPID h) ≠ collate (hr_VIPID r)) as Hnew.
  { intros h [Hid Hv]%Hd%orb_false_iff. by apply eqc_false in Hid, Hv. }
  split_and!; [|split_and!|done..].
  - destruct Ht. split; simpl; auto.
    + apply unique_snoc; [done|]. intros v Hv. by apply Hnew.
    + apply unique_snoc; [done|]. intros v Hv. by apply Hnew.
    + intros h [Hh| ->%list_elem_of_singleton]%elem_of_app; [by apply hc_parents0|done].
  - intros v. by left.
  - intros h. simpl. rewrite elem_of_app, list_elem_of_singleton.
    destruct (decide (h = storedHealthCheck r)) as [->|]; [right|left; tauto]. exists e. by rewrite list_elem_of_singleton.
  - intros b. by left.
Qed.

Lemma InsertBackend_wrote r t a t' e v :
  consistent t → done (InsertBackend r) t a t' → eqc (ce_BackendID e) (br_ID r) = true →
  v ∈ vips t → eqc (vr_ID v) (br_VIPID r) = true → familyFits v r → wrote [e] t t'.
Proof.
  intros Ht [(_ & Hd & _)%violation_None ->] He Hv Hvr Hf. rewrite existsb_false in Hd.
  assert (∀ b, b ∈ backends t → collate (br_ID b) ≠ collate (br_ID r) ∧ addressKey b ≠ addressKey (storedBackend r)) as Hnew.
  { intros b [Hid Ha]%Hd%orb_false_iff. apply eqc_false in Hid. split; [done|]. unfold addressKey. simpl.
    unfold eqc in Ha. intros [= H1 H2]. by rewrite !bool_decide_eq_true_2 in Ha by done. }
  split_and!; [|split_and!|done..].
  - destruct Ht. split; simpl; auto.
    + apply unique_snoc; [done|]. intros b Hb. by apply Hnew.
    + apply unique_snoc; [done|]. intros b Hb. by apply Hnew.
    + intros b [Hb| ->%list_elem_of_singleton]%elem_of_app; [by apply backend_parents0|]. eauto.
  - intros w. by left.
  - intros h. by left.
  - intros b. simpl. rewrite elem_of_app, list_elem_of_singleton.
    destruct (decide (b = storedBackend r)) as [->|]; [right|left; tauto]. exists e. split; [by apply list_elem_of_singleton|by left].
Qed.

(** The row of an update keeps its identifier. *)
Lemma UpdateVIPWhere_wrote id r t a t' e :
  consistent t → done (UpdateVIPWhere id r) t a t' → eqc (ce_VIPID e) id = true →
  (∀ v b, v ∈ vips t → eqc (vr_ID v) id = true → b ∈ backends t → eqc (br_VIPID b) id = true → familyFits r b) →
  wrote [e] t t'.
Proof.
  intros Ht [(_ & Hd & _)%violation_None ->] He Hf. apply andb_false_iff in Hd. rewrite existsb_false in Hd.
  set (h v := storedVIP (withID (vr_ID v) r)).
  assert (∀ v w : VIPRecord, eqc (vr_ID v) id = true → eqc (vr_ID w) id = true → collate (vr_ID v) = collate (vr_ID w)) as Hone.
  { intros v w Hv%eqc_spec Hw%eqc_spec. congruence. }
  assert (∀ v, v ∈ vips t → ∃ w, w ∈ (λ x, if eqc (vr_ID x) id then h x else x) <$> vips t ∧ vr_ID w = vr_ID v ∧
    w = if eqc (vr_ID v) id then h v else v) as Hkept.
  { intros v Hv. eexists. split_and!; [by apply list_elem_of_fmap_2| |done]. by destruct (eqc (vr_ID v) id). }
  split_and!; [|split_and!|done..].
  - destruct Ht. split; simpl; auto.
    + apply unique_update with (k := λ v, collate (vr_ID v)); auto.
      intros v w _ _ Hv%eqc_spec Hw%eqc_false. simpl. congruence.
    + apply unique_update with (k := λ v, collate (vr_ID v)); auto.
      intros v w Hvt Hwt Hv Hw Htu. destruct Hd as [Hd|Hd].
      { enough (hasVIP id t = true) by congruence. apply hasVIP_spec. eauto. }
      specialize (Hd w Hwt). rewrite Hw in Hd. simpl in Hd. unfold tupleKey in Htu. simpl in Htu. injection Htu as H1 H2 H3.
      unfold sameTuple, eqc in Hd. by rewrite !bool_decide_eq_true_2, H2, Z.eqb_refl in Hd by done.
    + intros h' Hh. apply hc_parents0, hasVIP_spec in Hh as (v & Hv & Hid). apply hasVIP_spec.
      destruct (Hkept v Hv) as (w & Hw & Hi & _). exists w. by rewrite Hi.
    + intros b Hb. destruct (backend_parents0 b Hb) as (v & Hv & Hid & Hfit).
      destruct (Hkept v Hv) as (w & Hw & Hi & Hw'). exists w. rewrite Hi. split_and!; [done..|].
      rewrite Hw'. destruct (eqc (vr_ID v) id) eqn:Hvid; [|done].
      apply family_of with r b; [done..|]. apply (Hf v); auto. apply eqc_spec in Hid, Hvid. apply eqc_spec. congruence.
  - intros v. simpl. rewrite elem_update. destruct (eqc (vr_ID v) id) eqn:Hv.
    + right. exists e. split; [by apply list_elem_of_singleton|]. apply eqc_spec in Hv, He. apply eqc_spec. congruence.
    + left. split; [by right|]. intros [(w & Hw & Hid & ->)|[Hvt _]]; [|done]. simpl in Hv. congruence.
  - intros h'. by left.
  - intros b. by left.
Qed.

Lemma UpdateHealthCheckWhere_wrote vipID r t a t' e :
  consistent t → done (UpdateHealthCheckWhere vipID r) t a t' → eqc (ce_VIPID e) vipID = true → hr_VIPID r = vipID →
  wrote [e] t t'.
Proof.
  intros Ht [(_ & Hd & Hp)%violation_None ->] He Hr. apply andb_false_iff in Hd. rewrite !existsb_false in Hd. unfold replacing.
  assert (∀ h g, h ∈ health_checks t → g ∈ health_checks t → eqc (hr_VIPID h) vipID = true → eqc (hr_VIPID g) vipID = false →
    collate (hr_ID g) ≠ collate (hr_ID r) ∧ collate (hr_VIPID g) ≠ collate (hr_VIPID r)) as Hnew.
  { intros h g Hh Hg Hhv Hgv. destruct Hd as [Hd|Hd].
    { by rewrite Hd in Hhv by done. }
    specialize (Hd g Hg). rewrite Hgv in Hd. apply orb_false_iff in Hd as [H1 H2]. by apply eqc_false in H1, H2. }
  assert (∀ x y : HealthCheckRecord, eqc (hr_VIPID x) vipID = true → eqc (hr_VIPID y) vipID = true →
    collate (hr_VIPID x) = collate (hr_VIPID y)) as Hone.
  { intros x y Hx%eqc_spec Hy%eqc_spec. congruence. }
  split_and!; [|split_and!|done..].
  - pose proof (hc_vips _ Ht). destruct Ht. split; simpl; auto.
    + apply unique_update with (k := λ h, collate (hr_VIPID h)); auto.
      intros x y Hx Hy Px Py Hxy. by destruct (Hnew x y Hx Hy Px Py).
    + apply unique_update with (k := λ h, collate (hr_VIPID h)); auto.
      intros x y Hx Hy Px Py Hxy. by destruct (Hnew x y Hx Hy Px Py).
    + intros h [(g & Hg & Hgv & ->)|[Hh _]]%elem_update; simpl; [|by apply hc_parents0].
      apply hc_parents0, hasVIP_spec in Hg as (v & Hv & Hid). apply hasVIP_spec. exists v. split; [done|].
      apply eqc_spec in Hid, Hgv. apply eqc_spec. congruence.
  - intros v. by left.
  - intros h. simpl. rewrite elem_update. destruct (eqc (hr_VIPID h) vipID) eqn:Hv.
    + right. exists e. split; [by apply list_elem_of_singleton|]. apply eqc_spec in Hv, He. apply eqc_spec. congruence.
    + left. split; [by right|]. intros [(g & Hg & Hid & ->)|[Hh _]]; [|done]. simpl in Hv. rewrite Hr, eqc_refl in Hv. done.
  - intros b. by left.
Qed.

Lemma UpdateBackendWhere_wrote id r t a t' e b v :
  consistent t → done (UpdateBackendWhere id r) t a t' → eqc (ce_BackendID e) id = true → br_ID r = id →
  b ∈ backends t → eqc (br_ID b) id = true → br_VIPID r = br_VIPID b →
  v ∈ vips t → eqc (vr_ID v) (br_VIPID b) = true → familyFits v r → wrote [e] t t'.
Proof.
  intros Ht [(_ & Hd & _)%violation_None ->] He Hr Hb Hbid Hvip Hv Hvb Hf. apply andb_false_iff in Hd. rewrite !existsb_false in Hd. unfold replacing.
  assert (∀ x y, x ∈ backends t → y ∈ backends t → eqc (br_ID x) id = true → eqc (br_ID y) id = false →
    collate (br_ID y) ≠ collate (br_ID r) ∧ addressKey y ≠ addressKey (storedBackend r)) as Hnew.
  { intros x y Hx Hy Hxi Hyi. destruct Hd as [Hd|Hd].
    { by rewrite Hd in Hxi by done. }
    specialize (Hd y Hy). rewrite Hyi in Hd. apply orb_false_iff in Hd as [H1 H2]. apply eqc_false in H1. split; [done|].
    unfold addressKey. simpl. unfold eqc in H2. intros [= E1 E2]. by rewrite !bool_decide_eq_true_2 in H2 by done. }
  assert (∀ x y : BackendRecord, eqc (br_ID x) id = true → eqc (br_ID y) id = true → collate (br_ID x) = collate (br_ID y)) as Hone.
  { intros x y Hx%eqc_spec Hy%eqc_spec. congruence. }
  split_and!; [|split_and!|done..].
  - pose proof (backend_ids _ Ht). destruct Ht. split; simpl; auto.
    + apply unique_update with (k := λ b, collate (br_ID b)); auto.
      intros x y Hx Hy Px Py Hxy. by destruct (Hnew x y Hx Hy Px Py).
    + apply unique_update with (k := λ b, collate (br_ID b)); auto.
      intros x y Hx Hy Px Py Hxy. by destruct (Hnew x y Hx Hy Px Py).
    + intros b' [(g & Hg & Hgi & ->)|[Hb' _]]%elem_update; [|by apply backend_parents0].
      exists v. split_and!; [done|simpl; by rewrite Hvip|]. by apply family_of with v r.
  - intros w. by left.
  - intros h. by left.
  - intros b'. simpl. rewrite elem_update. destruct (eqc (br_ID b') id) eqn:Hi.
    + right. exists e. split; [by apply list_elem_of_singleton|left]. apply eqc_spec in Hi, He. apply eqc_spec. congruence.
    + left. split; [by right|]. intros [(g & Hg & Hid & ->)|[Hh _]]; [|done]. simpl in Hi. rewrite Hr, eqc_refl in Hi. done.
Qed.

Lemma DeleteVIPWhere_wrote id t n t' e :
  consistent t → done (DeleteVIPWhere id) t n t' → eqc (ce_VIPID e) id = true → ce_EventType e = "vip_deleted" → wrote [e] t t'.
Proof.
  intros Ht [_ [_ ->]] He Htype.
  assert (∀ x, eqc x id = true → names e x) as Hn.
  { intros x Hx%eqc_spec. apply eqc_spec in He. apply eqc_spec. congruence. }
  assert (∀ x (P : Prop), names e x ∨ (P ↔ P ∧ negb (eqc x id) = true)) as Hcase.
  { intros x P. destruct (eqc x id) eqn:Hx; [left; auto|right; simpl; tauto]. }
  split_and!; [|split_and!|done..].
  - destruct Ht. split; simpl; auto using unique_keep.
    + intros h [Hh Hid]%elem_keep. apply hc_parents0, hasVIP_spec in Hh as (v & Hv & Hvid). apply hasVIP_spec.
      exists v. split; [|done]. apply elem_keep. split; [done|]. apply negb_true_iff in Hid; apply negb_true_iff; apply eqc_false in Hid.
      apply eqc_spec in Hvid. apply eqc_false. congruence.
    + intros b [Hb Hid]%elem_keep. destruct (backend_parents0 b Hb) as (v & Hv & Hvid & Hfit).
      exists v. split; [|done]. apply elem_keep. split; [done|]. apply negb_true_iff in Hid; apply negb_true_iff; apply eqc_false in Hid.
      apply eqc_spec in Hvid. apply eqc_false. congruence.
  - intros v. simpl. rewrite elem_keep. destruct (Hcase (vr_ID v) (v ∈ vips t)); [right|by left].
    exists e. by rewrite list_elem_of_singleton.
  - intros h. simpl. rewrite elem_keep. destruct (Hcase (hr_VIPID h) (h ∈ health_checks t)); [right|by left].
    exists e. by rewrite list_elem_of_singleton.
  - intros b. simpl. rewrite elem_keep. destruct (Hcase (br_VIPID b) (b ∈ backends t)); [right|by left].
    exists e. rewrite list_elem_of_singleton. split; [done|by right].
Qed.

Lemma DeleteHealthCheckWhere_wrote vipID t n t' e :
  consistent t → done (DeleteHealthCheckWhere vipID) t n t' → eqc (ce_VIPID e) vipID = true → wrote [e] t t'.
Proof.
  intros Ht [_ [_ ->]] He. split_and!; [|split_and!|done..].
  - destruct Ht. split; simpl; auto using unique_keep. intros h [Hh _]%elem_keep. by apply hc_parents0.
  - intros v. by left.
  - intros h. simpl. rewrite elem_keep. destruct (eqc (hr_VIPID h) vipID) eqn:Hh; [right|left; simpl; tauto].
    exists e. rewrite list_elem_of_singleton. split; [done|]. apply eqc_spec in Hh, He. apply eqc_spec. congruence.
  - intros b. by left.
Qed.

Lemma DeleteBackendWhere_wrote id t n t' e :
  consistent t → done (DeleteBackendWhere id) t n t' → eqc (ce_BackendID e) id = true → wrote [e] t t'.
Proof.
  intros Ht [_ [_ ->]] He. split_and!; [|split_and!|done..].
  - destruct Ht. split; simpl; auto using unique_keep. intros b [Hb _]%elem_keep. by apply backend_parents0.
  - intros v. by left.
  - intros h. by left.
  - intros b. simpl. rewrite elem_keep. destruct (eqc (br_ID b) id) eqn:Hb; [right|left; simpl; tauto].
    exists e. rewrite list_elem_of_singleton. split; [done|left]. apply eqc_spec in Hb, He. apply eqc_spec. congruence.
Qed.
End Consistency.
End MysqlTables.
