(* ===== verification/MysqlSafety.v ===== *)
(** * MySQL: every client keeps the tables consistent and logs what it changes

    Each operation and each transaction of the store is checked against one guarantee:
    a commit leaves consistent tables, and the rows it changed are named by the log
    entries it added, which carry the next revision.  Any number of clients then keep
    it together. *)

From Stdlib Require Import SpecFloat.
From stdpp Require Import base tactics list gmap strings pretty relations.
From S2P Require Import Prelude Types Net Store Validation Duration Config Models Etcd Sync Api Probers Mysql MysqlTx MysqlLogic MysqlTables.

Module MysqlSafety.
Import Models Validation Mysql MysqlTx MysqlLogic MysqlTables.

Section Safety.
Context {G : HttpGuts} {K : Columns} {CC : Codec (option HCConfig)}.
Variable outOfRange : spec_float → Z.

(** ** The guarantee *)
Definition eventOf (r : ChangeLogRecord) : ChangeEvent :=
  {| ce_EventType := cr_EventType r; ce_VIPID := default "" (cr_VIPID r); ce_BackendID := default "" (cr_BackendID r) |}.
Definition logged (t t' : Tables) : Prop :=
  ∃ row revision l,
    system_metadata t = [(row, revision)] ∧
    system_metadata t' = [(row, wrapS 64 (revision + 1))] ∧
    change_log t' = change_log t ++ l ∧
    Forall (λ e, cr_Revision e = wrapS 64 (revision + 1)) l ∧
    about (eventOf <$> l) t t'.
Definition guar (t t' : Tables) : Prop := consistent t' ∧ (t' = t ∨ logged t t').
Definition rely (t t' : Tables) : Prop := consistent t' ∧ rtc logged t t'.
#[local] Abbreviation always := (always rely guar).
#[local] Abbreviation run := (run rely guar).

(** ** The revision and the log *)
Definition recorded (l : list ChangeEvent) (t t' : Tables) : Prop :=
  consistent t' ∧ vips t' = vips t ∧ health_checks t' = health_checks t ∧ backends t' = backends t ∧
  ∃ row revision rs,
    system_metadata t = [(row, revision)] ∧ system_metadata t' = [(row, wrapS 64 (revision + 1))] ∧
    change_log t' = change_log t ++ rs ∧ Forall (λ e, cr_Revision e = wrapS 64 (revision + 1)) rs ∧ eventOf <$> rs = l.

Lemma consistent_setMetadata row n t : consistent t → consistent (setMetadata [(row, n)] t).
Proof. intros []. split; simpl; eauto. Qed.
Lemma ascending_snoc l r : ascending l → (∀ c, c ∈ l → (cr_ID c < cr_ID r)%Z) → ascending (l ++ [r]).
Proof.
  intros Hl Hr i j c d Hi Hj Hij. apply lookup_app_Some in Hi as [Hi|[Hi1 Hi2]], Hj as [Hj|[Hj1 Hj2]].
  - by apply (Hl i j).
  - apply list_lookup_singleton_Some in Hj2 as [_ <-]. by eapply Hr, list_elem_of_lookup_2.
  - apply lookup_lt_Some in Hj. lia.
  - apply list_lookup_singleton_Some in Hi2, Hj2. lia.
Qed.
Lemma consistent_log r t :
  consistent t → (0 < cr_ID r)%Z → (∀ c, c ∈ change_log t → (cr_ID c < cr_ID r)%Z) → consistent (setLog (change_log t ++ [r]) t).
Proof.
  intros [] Hp Hr. split; simpl; auto using ascending_snoc.
  intros c [Hc| ->%list_elem_of_singleton]%elem_of_app; auto.
Qed.

Lemma incrementRevision_run t :
  consistent t → run incrementRevisionInTx t (λ n t', ∃ row revision,
    system_metadata t = [(row, revision)] ∧ n = wrapS 64 (revision + 1) ∧ t' = setMetadata [(row, n)] t).
Proof.
  intros Ht. destruct (one_revision _ Ht) as (row & revision & Hm). apply run_try, run_failing, run_query.
  intros a t' [_ [-> Ha]]. destruct a as [[rowID rev]|]; [|by rewrite Hm in Ha].
  destruct Ha as [Ha _]. rewrite Hm in Ha. apply list_elem_of_singleton in Ha as [= -> ->].
  apply run_try, run_failing, run_query. intros n t' [_ [_ ->]]. apply run_lift. intros z Hz. exists row, revision.
  rewrite Hm. simpl. rewrite Z.eqb_refl. destruct (n =? 0)%nat; [done|]. by injection Hz as <-.
Qed.
Lemma logChange_run ev v b n t :
  consistent t → run (logChangeWithRevision ev v b n) t (λ _ t', consistent t' ∧ ∃ r,
    eventOf r = {| ce_EventType := ev; ce_VIPID := v; ce_BackendID := b |} ∧ cr_Revision r = n ∧
    t' = setLog (change_log t ++ [r]) t).
Proof.
  intros Ht. apply run_failing, run_query. intros a t' [_ (id & Hid & Hnew & ->)].
  split; [by apply consistent_log|]. eexists. split_and!; cycle 2; [done| |done]. unfold eventOf, nonEmpty. simpl.
  by repeat case_bool_decide; simplify_eq/=.
Qed.
Lemma recordChange_run ev v b t :
  consistent t → run (recordChange ev v b) t (λ _, recorded [{| ce_EventType := ev; ce_VIPID := v; ce_BackendID := b |}] t).
Proof.
  intros Ht. apply run_try, run_failing. eapply run_mono; [|by apply incrementRevision_run].
  intros n t1 (row & rev & Hm & -> & ->). apply run_failing.
  eapply run_mono; [|by apply logChange_run, consistent_setMetadata].
  intros _ t2 (Ht2 & r & Hr & Hrev & ->). split_and!; [done..|].
  exists row, rev, [r]. simpl. split_and!; [done..|by constructor|by rewrite Hr].
Qed.
Lemma recorded_guar l t t1 t2 : wrote l t t1 → recorded l t1 t2 → guar t t2.
Proof.
  intros (Ht1 & Hl & Hm & Hlog) (Ht2 & Hv & Hh & Hb & row & rev & rs & Hm1 & Hm2 & Hlog2 & Hrev & <-).
  split; [done|right]. exists row, rev, rs. split_and!; [congruence..|done|].
  unfold about in *. by rewrite Hv, Hh, Hb.
Qed.

(** ** Writing rows *)
Lemma createHealthCheck_run vip now e t :
  consistent t → names e (v_ID vip) →
  run (createHealthCheck vip now) t (λ vip' t', v_ID vip' = v_ID vip ∧ wrote [e] t t').
Proof.
  intros Ht He. unfold createHealthCheck. destruct (v_HealthCheck vip) as [hc|]; [|by apply run_ret; auto using wrote_refl].
  apply run_try, run_failing, run_lift. intros json _. apply run_orNewUUID. intros id.
  apply run_try, run_failing, run_query. intros a t' Hd. apply run_ret. split; [done|]. by eapply InsertHealthCheck_wrote.
Qed.
Lemma updateHealthCheck_run vip e t :
  consistent t → names e (v_ID vip) → run (updateHealthCheck vip) t (λ vip' t', v_ID vip' = v_ID vip ∧ wrote [e] t t').
Proof.
  intros Ht He. unfold updateHealthCheck. destruct (v_HealthCheck vip) as [hc|].
  - apply run_try, run_failing, run_lift. intros json _. apply run_try, run_failing, run_query.
    intros existing t' [_ [-> _]]. destruct existing as [h|].
    + apply run_now. intros now. apply run_now. intros now2. apply run_try, run_failing, run_query.
      intros a t' Hd. apply run_ret. split; [done|]. by eapply UpdateHealthCheckWhere_wrote.
    + apply run_orNewUUID. intros id. apply run_now. intros now. apply run_now. intros now2. apply run_try, run_failing, run_query.
      intros a t' Hd. apply run_ret. split; [done|]. by eapply InsertHealthCheck_wrote.
  - apply run_try, run_failing, run_query. intros a t' Hd. apply run_ret. split; [done|]. by eapply DeleteHealthCheckWhere_wrote.
Qed.
Lemma lock_run id t :
  run (lockVIPRecordForUpdate id) t (λ r t', t' = t ∧ r ∈ vips t ∧ eqc (vr_ID r) id = true).
Proof.
  apply run_try, run_failing, run_query. intros a t' [_ [-> Ha]]. apply run_lift. by destruct a as [r|]; intros ? [= <-].
Qed.
Lemma updateVIPRows_run vip e t :
  consistent t → names e (v_ID vip) → run (updateVIPRows vip) t (λ vip' t', v_ID vip' = v_ID vip ∧ wrote [e] t t').
Proof.
  intros Ht He. apply run_try. eapply run_mono; [|apply lock_run]. intros r ? (-> & Hr & Hid).
  apply run_now. intros now. apply run_try, run_failing, run_query. intros records t' [_ [-> Hrec]]. simpl in Hrec.
  apply run_check. intros Hfit. apply run_try, run_failing, run_query. intros a t1 Hd.
  assert (wrote [e] t t1) as Hw.
  { eapply UpdateVIPWhere_wrote; [done..|]. intros v b Hv Hvid Hb Hbid.
    assert (b ∈ records) as Hbr.
    { rewrite Hrec. apply elem_keep. split; [done|]. apply orb_true_iff. by left. }
    pose proof (noError_each _ _ Hfit (backendModelFromRecord b) (list_elem_of_fmap_2 _ _ _ Hbr)) as Hb'.
    unfold familyFits, ValidateBackendAddressFamilyForVIP, ValidateBackendIPFamilyForVIP in *. simpl in *.
    unfold nonEmpty. by case_bool_decide as Hn; simpl; rewrite ?Hn in *. }
  eapply run_mono; [|apply updateHealthCheck_run; [apply Hw|exact He]].
  intros vip' t2 [Hv Hw2]. split; [done|]. by eapply wrote_same.
Qed.
Lemma deleteVIPRow_run id e t :
  consistent t → eqc (ce_VIPID e) id = true → ce_EventType e = "vip_deleted" → run (deleteVIPRow id) t (λ _, wrote [e] t).
Proof.
  intros Ht He Htype. apply run_try, run_failing, run_query. intros n t' Hd. apply run_lift. intros ? _.
  by eapply DeleteVIPWhere_wrote.
Qed.
Lemma addBackendRow_run backend e t :
  consistent t → eqc (ce_BackendID e) (b_ID backend) = true → run (addBackendRow backend) t (λ _, wrote [e] t).
Proof.
  intros Ht He. apply run_try. eapply run_mono; [|apply lock_run]. intros r ? (-> & Hr & Hid).
  apply run_check. intros Hfit. apply run_failing, run_query. intros a t' Hd. by eapply InsertBackend_wrote.
Qed.

(** ** The operations *)
Lemma always_write {A} (body : prog (err + A)) :
  (∀ t, consistent t → run body t (λ _ t', guar t t')) → always (transaction body).
Proof. intros Hb. apply always_transaction. intros c c1 [Hc _]. by apply Hb. Qed.
Lemma always_read {A} (s : Stmt A) : (∀ t a t', done s t a t' → t' = t) → always (query s).
Proof.
  intros Hs. apply always_query. intros c c1 r c2 [Hc _] Ha. assert (c2 = c1) as -> by (destruct r; simpl in Ha; naive_solver).
  split; auto.
Qed.
Lemma run_recordChange x y z t0 t :
  wrote [{| ce_EventType := x; ce_VIPID := y; ce_BackendID := z |}] t0 t → run (recordChange x y z) t (λ _ t', guar t0 t').
Proof.
  intros Hw. eapply run_mono; [|apply recordChange_run; apply Hw]. intros ? t2 Hrec. by eapply recorded_guar.
Qed.
Lemma run_recordThen {A} (a : A) x y z t0 t :
  wrote [{| ce_EventType := x; ce_VIPID := y; ce_BackendID := z |}] t0 t →
  run (_ ←? recordChange x y z; mret (inr a)) t (λ _ t', guar t0 t').
Proof. intros Hw. apply run_try. eapply run_mono; [|by apply run_recordChange]. intros ? t2 Hg. by apply run_ret. Qed.

(** Steps through checks, reads and answers. *)
Ltac reads :=
  repeat first
    [ apply always_ret
    | apply always_check; intros ?
    | apply always_failing
    | apply always_try; [|intros ?]
    | apply always_read; by intros ??? [_ [-> _]]
    | apply always_orNewUUID; intros ?
    | apply always_now; intros ?
    | match goal with |- MysqlLogic.always _ _ (match ?x with _ => _ end) => destruct x end ].

Lemma CreateVIP_always vip : always (Mysql.CreateVIP outOfRange vip).
Proof.
  apply always_check. intros _. apply always_orNewUUID. intros id. apply always_now. intros now.
  apply always_write. intros t Ht. set (v := Etcd.stampVIP _ _ _ _ _). set (e := {| ce_EventType := "vip_created"; ce_VIPID := id; ce_BackendID := "" |}).
  apply run_try, run_failing, run_query. intros a t1 Hd.
  assert (wrote [e] t t1) as Hw by (eapply InsertVIP_wrote; [done..|apply eqc_refl]).
  apply run_try. eapply run_mono; [|apply (createHealthCheck_run v now e); [apply Hw|apply eqc_refl]].
  intros v' t2 [Hid Hw2]. rewrite Hid. apply run_recordThen. by eapply wrote_same.
Qed.
Lemma UpdateVIP_always vip : always (Mysql.UpdateVIP outOfRange vip).
Proof.
  do 2 (apply always_check; intros _). apply always_write. intros t Ht.
  set (e := {| ce_EventType := "vip_updated"; ce_VIPID := v_ID vip; ce_BackendID := "" |}).
  apply run_try. eapply run_mono; [|apply (updateVIPRows_run vip e t Ht), eqc_refl].
  intros v' t1 [Hid Hw]. rewrite Hid. by apply run_recordThen.
Qed.
Lemma DeleteVIP_always id : always (Mysql.DeleteVIP id).
Proof.
  apply always_check. intros _. apply always_write. intros t Ht. apply run_try.
  set (e := {| ce_EventType := "vip_deleted"; ce_VIPID := id; ce_BackendID := "" |}).
  eapply run_mono; [|apply (deleteVIPRow_run id e t Ht); [apply eqc_refl|done]].
  intros ? t1 Hw. by apply run_recordChange.
Qed.
Lemma AddBackend_always backend : always (Mysql.AddBackend backend).
Proof.
  apply always_check. intros _. apply always_orNewUUID. intros id. apply always_now. intros now.
  apply always_write. intros t Ht. set (b := Etcd.stampBackend _ _ _ _ _).
  apply run_try. eapply run_mono; [|apply (addBackendRow_run b {| ce_EventType := "backend_added"; ce_VIPID := b_VIPID b; ce_BackendID := b_ID b |} t Ht), eqc_refl].
  intros ? t1 Hw. by apply run_recordThen.
Qed.
Lemma found_run {A} (r : option A) t (F : A → Tables → Prop) : (∀ a, r = Some a → F a t) → run (found r) t F.
Proof. intros HF. apply run_lift. destruct r; intros ? [= <-]. by apply HF. Qed.
Lemma UpdateBackend_always backend : always (UpdateBackend backend).
Proof.
  do 2 (apply always_check; intros _). apply always_write. intros t Ht.
  apply run_try, run_failing, run_query. intros r ? [_ [-> Hr]]. apply run_try, found_run. intros existing ->.
  apply run_try. eapply run_mono; [|apply lock_run]. intros v ? (-> & Hv & Hvid).
  apply run_try, run_failing, run_query. intros r ? [_ [-> Hr']]. apply run_try, found_run. intros existing' ->.
  assert (existing' = existing) as ->.
  { destruct Hr as [Hr Hi%eqc_spec], Hr' as [Hr' Hi'%eqc_spec]. eapply unique_eq; [apply (backend_ids _ Ht)|done..|]. simpl. congruence. }
  apply run_now. intros now. apply run_check. intros _. apply run_check. intros Hfit. apply run_now. intros now2.
  apply run_try, run_failing, run_query. intros a t1 Hd. destruct Hr as [Hr Hrid].
  apply run_recordThen. eapply (UpdateBackendWhere_wrote _ _ t a t1 _ existing v); [done|done|apply eqc_refl|done..].
Qed.
Lemma GetVIP_always id : always (GetVIP id).
Proof. unfold GetVIP. reads. Qed.
Lemma GetBackend_always id : always (GetBackend id).
Proof. unfold GetBackend. reads. Qed.
Lemma DeleteBackend_always id : always (DeleteBackend id).
Proof.
  apply always_check. intros _. apply always_try; [apply GetBackend_always|]. intros backend.
  apply always_write. intros t Ht. apply run_try, run_failing, run_query. intros n t1 Hd.
  apply run_try, run_lift. intros _ _. apply run_recordChange. eapply DeleteBackendWhere_wrote; [done..|apply eqc_refl].
Qed.
Lemma IncrementRevision_always : always IncrementRevision.
Proof.
  apply always_write. intros t Ht. eapply run_mono; [|by apply incrementRevision_run].
  intros n t' (row & rev & Hm & -> & ->). split; [by apply consistent_setMetadata|right].
  exists row, rev, []. rewrite app_nil_r. split_and!; [done..|split_and!; intros ?; by left].
Qed.
Lemma guar_refl t : consistent t → guar t t.
Proof. by split; [|left]. Qed.
Lemma ListVIPs_always : always ListVIPs.
Proof. unfold ListVIPs, loadHealthChecksByVIPID. reads. Qed.
Lemma ListBackends_always vipID : always (ListBackends vipID).
Proof. unfold ListBackends. reads. Qed.
Lemma GetRevision_always : always GetRevision.
Proof. unfold GetRevision. reads. Qed.
(** A read in a transaction. *)
Lemma run_read {A} (s : Stmt A) t : (∀ t a t', done s t a t' → t' = t) → run (query s) t (λ _ t', t' = t).
Proof. intros Hs. apply run_query. eauto. Qed.
Lemma GetConfig_always : always GetConfig.
Proof.
  apply always_write. intros t Ht. assert (∀ t', t' = t → guar t t') as Hg by (intros t' ->; by apply guar_refl).
  apply run_try, run_failing. eapply run_mono; [|apply run_read; by intros ??? [_ [-> _]]]. intros revision ? ->.
  apply run_try, run_failing. eapply run_mono; [|apply run_read; by intros ??? [_ [-> _]]]. intros records ? ->.
  apply run_try, run_failing. eapply run_mono with (F := λ _ t', t' = t).
  2: { unfold loadHealthChecksByVIPID. destruct (vr_ID <$> records) as [|id ids]; [by apply run_ret|]. apply run_try.
       eapply run_mono; [|apply run_read; by intros ??? [_ [-> _]]]. intros l ? ->. by apply run_ret. }
  intros healthChecks ? ->. apply run_try, run_failing. eapply run_mono with (F := λ _ t', t' = t).
  2: { unfold loadBackendsByVIPID. destruct (vr_ID <$> records) as [|id ids]; [by apply run_ret|]. apply run_try.
       eapply run_mono; [|apply run_read; by intros ??? [_ [-> _]]]. intros l ? ->. by apply run_ret. }
  intros bs ? ->. apply run_try, run_lift. intros vips _. apply run_ret. by apply Hg.
Qed.
(** The revision is never initialised over an existing one. *)
Lemma initRevision_always : always initRevision.
Proof.
  intros c c1 r c2 [Hc1 Hrt] Ha. assert (c2 = c1 ∧ ∀ n, r = inr n → n = 1) as [-> Hn].
  { destruct (one_revision _ Hc1) as (row & rev & Hm). destruct r as [e|n].
    - split; [|done]. destruct Ha as [_ [|(a & _ & -> & _)]]; done.
    - destruct Ha as (_ & -> & ->). split; [done|]. rewrite Hm. by intros n [= <-]. }
  split; [by apply guar_refl|]. destruct r as [e|n]; simpl; [by split|]. rewrite (Hn n) by done. by split.
Qed.

(** ** Transactions of calls *)
Definition runT {A} (p : prog (MySQLTransaction * (err + A))) (t : Tables) (F : MySQLTransaction → A → Tables → Prop) : Prop :=
  ∀ c, wp rely guar p c (In t) (λ r c' m, c' = c ∧ match r.2 with
                                               | inl _ => m ≠ Idle
                                               | inr a => ∃ t', m = In t' ∧ F r.1 a t'
                                               end).
(** What a transaction has noted is what it did. *)
Definition noted (tx : MySQLTransaction) (t0 t : Tables) : Prop :=
  if hasOps tx then wrote (changes tx) t0 t else changes tx = [] ∧ t = t0.
Lemma noted_add x y z tx t0 t1 t2 :
  noted tx t0 t1 → wrote [{| ce_EventType := x; ce_VIPID := y; ce_BackendID := z |}] t1 t2 → noted (addChange x y z tx) t0 t2.
Proof. unfold noted. destruct (hasOps tx); simpl; [apply wrote_trans|]. by intros [-> ->]. Qed.
Lemma noted_consistent tx t0 t : consistent t0 → noted tx t0 t → consistent t.
Proof. unfold noted. destruct (hasOps tx); [by intros _ []|by intros ? [_ ->]]. Qed.

Lemma runT_refuse {A} tx e (k : prog (MySQLTransaction * (err + A))) t F : (e = None → runT k t F) → runT (refuse tx e k) t F.
Proof. destruct e; [intros _ c; by split|auto]. Qed.
Lemma runT_noting {A} tx (rows : prog (err + A)) event t F :
  run rows t (λ a t', F (event a tx) a t') → runT (noting tx rows event) t F.
Proof.
  intros Hr c. apply wp_bind. eapply wp_mono, Hr. intros [e|a] c' m [-> H]; simpl; by split.
Qed.
Lemma runT_orNewUUID {A} id (k : string → prog (MySQLTransaction * (err + A))) t F :
  (∀ id, runT (k id) t F) → runT (orNewUUID id k) t F.
Proof. intros Hk c. unfold orNewUUID. case_bool_decide; [intros s|]; apply (Hk _ c). Qed.
Lemma runT_now {A} (k : Z → prog (MySQLTransaction * (err + A))) t F : (∀ now, runT (k now) t F) → runT (Now k) t F.
Proof. intros Hk c now. apply (Hk now c). Qed.

Section Session.
Variables (t0 t : Tables) (tx : MySQLTransaction).
Hypothesis (H0 : consistent t0) (Htx : noted tx t0 t).
#[local] Lemma Ht : consistent t.
Proof. by eapply noted_consistent. Qed.
Lemma CreateVIP_noted vip : runT (CreateVIP outOfRange tx vip) t (λ tx' _ t', noted tx' t0 t').
Proof.
  apply runT_refuse. intros _. apply runT_orNewUUID. intros id. apply runT_now. intros now.
  set (v := Etcd.stampVIP _ _ _ _ _). intros c. apply wp_bind.
  eapply wp_mono; [|apply (run_failing rely guar _ _ t (λ _, wrote [{| ce_EventType := "vip_created"; ce_VIPID := id; ce_BackendID := "" |}] t)), run_query].
  - intros [e|a] c' m [-> H]; [by split|]. destruct H as (t1 & -> & Hw).
    apply wp_bind. eapply wp_mono; [|apply (createHealthCheck_run v now {| ce_EventType := "vip_created"; ce_VIPID := id; ce_BackendID := "" |}); [apply Hw|apply eqc_refl]].
    intros r c' m [-> H]. split; [done|]. destruct r as [e|v']; [done|]. simpl. destruct H as (t2 & -> & _ & Hw2).
    exists t2. split; [done|]. eapply noted_add; [exact Htx|]. by eapply wrote_same.
  - intros a t1 Hd. eapply InsertVIP_wrote; [exact Ht|done|apply eqc_refl].
Qed.
Lemma AddBackend_noted backend : runT (AddBackend tx backend) t (λ tx' _ t', noted tx' t0 t').
Proof.
  apply runT_refuse. intros _. apply runT_orNewUUID. intros id. apply runT_now. intros now.
  set (b := Etcd.stampBackend _ _ _ _ _). apply runT_noting, run_try.
  set (e := {| ce_EventType := "backend_added"; ce_VIPID := b_VIPID b; ce_BackendID := b_ID b |}).
  eapply run_mono; [|apply (addBackendRow_run b e t Ht), eqc_refl]. intros ? t1 Hw. apply run_ret.
  by eapply noted_add.
Qed.
Lemma UpdateVIP_noted vip : runT (UpdateVIP outOfRange tx vip) t (λ tx' _ t', noted tx' t0 t').
Proof.
  do 2 (apply runT_refuse; intros _). apply runT_noting.
  set (e := {| ce_EventType := "vip_updated"; ce_VIPID := v_ID vip; ce_BackendID := "" |}).
  eapply run_mono; [|apply (updateVIPRows_run vip e t Ht), eqc_refl]. intros ? t1 [_ Hw]. by eapply noted_add.
Qed.
Lemma DeleteVIP_noted id : runT (DeleteVIP tx id) t (λ tx' _ t', noted tx' t0 t').
Proof.
  apply runT_refuse. intros _. apply runT_noting.
  set (e := {| ce_EventType := "vip_deleted"; ce_VIPID := id; ce_BackendID := "" |}).
  eapply run_mono; [|apply (deleteVIPRow_run id e t Ht); [apply eqc_refl|done]]. intros ? t1 Hw. by eapply noted_add.
Qed.
End Session.

(** Of calls whose results are forgotten. *)
Definition runE (p : prog (MySQLTransaction * error)) (t : Tables) (F : MySQLTransaction → Tables → Prop) : Prop :=
  ∀ c, wp rely guar p c (In t) (λ r c' m, c' = c ∧ match r.2 with
                                               | Some _ => m ≠ Idle
                                               | None => ∃ t', m = In t' ∧ F r.1 t'
                                               end).
Lemma runE_forget {A} (p : prog (MySQLTransaction * (err + A))) t F : runT p t (λ tx _ t', F tx t') → runE (forget p) t F.
Proof. intros Hp c. apply wp_bind. eapply wp_mono, Hp. intros [tx [e|a]] c' m [-> H]; by split. Qed.
Lemma performAll_noted t0 l t tx :
  consistent t0 → noted tx t0 t → runE (performAll outOfRange tx l) t (λ tx' t', noted tx' t0 t').
Proof.
  intros H0. revert t tx. induction l as [|call l IH]; intros t tx Htx c; [split; [done|by exists t]|].
  apply wp_bind. assert (runE (perform outOfRange tx call) t (λ tx' t', noted tx' t0 t')) as Hp.
  { destruct call; apply runE_forget; eauto using CreateVIP_noted, AddBackend_noted, UpdateVIP_noted, DeleteVIP_noted. }
  eapply wp_mono, Hp. intros [tx' [e|]] c' m [-> H]; simpl; [by split|]. destruct H as (t1 & -> & H1). by apply (IH t1 tx').
Qed.

Lemma logChanges_run n l t :
  consistent t → run (logChanges n l) t (λ _ t', consistent t' ∧ ∃ rs,
    eventOf <$> rs = l ∧ Forall (λ e, cr_Revision e = n) rs ∧ t' = setLog (change_log t ++ rs) t).
Proof.
  revert t. induction l as [|[x y z] l IH]; intros t Ht; simpl.
  { apply run_ret. split; [done|]. exists []. rewrite app_nil_r. split_and!; [done|constructor|by destruct t]. }
  apply run_try, run_failing. eapply run_mono; [|by apply logChange_run]. intros ? t1 (Ht1 & r & Hr & Hn & ->).
  eapply run_mono; [|by apply IH]. intros ? t2 (Ht2 & rs & <- & Hrs & ->). split; [done|]. exists (r :: rs).
  simpl. rewrite Hr, <- app_assoc. split_and!; [done|by constructor|done].
Qed.
Lemma recordAll_run tx t :
  consistent t →
  run (newRevision ←? wrapping "failed to increment revision: " incrementRevisionInTx; logChanges newRevision (changes tx)) t
    (λ _, recorded (changes tx) t).
Proof.
  intros Ht. apply run_try, run_failing. eapply run_mono; [|by apply incrementRevision_run].
  intros n t1 (row & rev & Hm & -> & ->).
  eapply run_mono; [|by apply logChanges_run, consistent_setMetadata].
  intros ? t2 (Ht2 & rs & Hrs & Hrev & ->). split_and!; [done..|]. by exists row, rev, rs.
Qed.
Lemma commitTx_wp t0 t tr : guar t0 t → wp rely guar commitTx (t0, tr) (In t) (ends (λ _ _, True)).
Proof. intros Hg. split_and!; [done|by split|]. intros e. split; by split. Qed.
Lemma Commit_wp tx t0 t tr :
  consistent t0 → noted tx t0 t → wp rely guar (Commit tx) (t0, tr) (In t) (ends (λ _ _, True)).
Proof.
  intros H0 Htx. pose proof (noted_consistent _ _ _ H0 Htx) as Ht. unfold Commit, noted in *. destruct (hasOps tx); cbn [negb].
  - apply wp_bind. eapply wp_mono; [|by apply recordAll_run].
    intros [e|u] c' m [-> H]; simpl; [destruct m; [done|intros ?; by split..]|].
    destruct H as (t' & -> & Hrec). apply commitTx_wp. by eapply recorded_guar.
  - destruct Htx as [_ ->]. by apply commitTx_wp, guar_refl.
Qed.
Lemma inTransaction_always l commit : always (inTransaction outOfRange l commit).
Proof.
  intros c c1 [Hc1 _]. split; [intros e; by split|].
  apply (wp_bind rely guar (performAll outOfRange {| hasOps := false; changes := [] |} l)).
  eapply wp_mono; [|by apply (performAll_noted c1 l c1 {| hasOps := false; changes := [] |} Hc1 (conj eq_refl eq_refl) (c1, c.2))].
  intros [tx [e|]] c' m [-> H]; simpl; [destruct m; [done|intros ?; by split..]|]. destruct H as (t & -> & Htx).
  destruct commit; [by apply Commit_wp|]. intros e. by split.
Qed.

(** ** The watch *)
Lemma always_send {B} e (k : bool → prog B) : (∀ b, always (k b)) → always (Send e k).
Proof. intros Hk c. split; apply Hk. Qed.
Lemma buildWatchEvent_always change : always (buildWatchEvent change).
Proof.
  assert (∀ type, always (vipEvent type change)) as Hv.
  { intros type. unfold vipEvent. destruct (cr_VIPID change); [|apply always_ret].
    apply always_bind; [apply GetVIP_always|]. intros; apply always_ret. }
  assert (∀ type, always (backendEvent type change)) as Hb.
  { intros type. unfold backendEvent. destruct (cr_BackendID change); [|apply always_ret].
    apply always_bind; [apply GetBackend_always|]. intros; apply always_ret. }
  unfold buildWatchEvent. repeat case_bool_decide; auto using always_ret.
Qed.
Lemma poll_always lastID : always (poll lastID).
Proof.
  apply always_bind; [apply always_read; by intros ??? [_ [-> _]]|].
  intros [e|l]; [apply always_send; intros; apply always_ret|]. revert lastID.
  induction l as [|change l IH]; intros lastID; [apply always_ret|].
  apply always_bind; [apply buildWatchEvent_always|].
  intros [e|[event|]]; [apply always_send..|apply IH]; intros []; auto using always_ret.
Qed.
Lemma Watch_always ticks : always (Watch ticks).
Proof.
  apply always_try; [unfold latestChangeLogID; reads|]. intros lastID. apply always_bind; [|intros; apply always_ret].
  revert lastID. induction ticks as [|ticks IH]; intros lastID; [apply always_ret|].
  apply always_bind; [apply poll_always|]. intros [id []]; [apply IH|apply always_ret].
Qed.

(** ** Any number of clients *)
Definition discard {A} (p : prog A) : prog unit := p ≫= λ _, mret tt.
(** What a client of the store may call. *)
Inductive operation : prog unit → Prop :=
  | op_CreateVIP vip : operation (discard (Mysql.CreateVIP outOfRange vip))
  | op_GetVIP id : operation (discard (GetVIP id))
  | op_ListVIPs : operation (discard ListVIPs)
  | op_UpdateVIP vip : operation (discard (Mysql.UpdateVIP outOfRange vip))
  | op_DeleteVIP id : operation (discard (Mysql.DeleteVIP id))
  | op_AddBackend backend : operation (discard (Mysql.AddBackend backend))
  | op_GetBackend id : operation (discard (GetBackend id))
  | op_ListBackends vipID : operation (discard (ListBackends vipID))
  | op_UpdateBackend backend : operation (discard (UpdateBackend backend))
  | op_DeleteBackend id : operation (discard (DeleteBackend id))
  | op_GetRevision : operation (discard GetRevision)
  | op_IncrementRevision : operation (discard IncrementRevision)
  | op_initRevision : operation (discard initRevision)
  | op_GetConfig : operation (discard GetConfig)
  | op_Watch ticks : operation (discard (Watch ticks))
  | op_inTransaction calls commit : operation (discard (inTransaction outOfRange calls commit)).
Lemma operation_always p : operation p → always p.
Proof.
  intros Hp. destruct Hp; (apply always_bind; [|intros; apply always_ret]); auto using CreateVIP_always, GetVIP_always,
    ListVIPs_always, UpdateVIP_always, DeleteVIP_always, AddBackend_always, GetBackend_always, ListBackends_always,
    UpdateBackend_always, DeleteBackend_always, GetRevision_always, IncrementRevision_always, initRevision_always,
    GetConfig_always, Watch_always, inTransaction_always.
Qed.

(** *** The relation of the clients *)
Lemma rely_trans t1 t2 t3 : rely t1 t2 → rely t2 t3 → rely t1 t3.
Proof. intros [_ H1] [H2 H3]. split; [done|by etrans]. Qed.
Lemma rely_refl t t' : rely t t' → rely t' t'.
Proof. by intros [H _]. Qed.
Lemma guar_rely t t' : guar t t' → rely t t'.
Proof. intros [H [->|Hl]]; split; [done..|done|by apply rtc_once]. Qed.

Context {D : Type} `{!MySQL D, !MySQLLaws D}.

Lemma start_sysInv (d : D) n σ :
  consistent (committed d) → opened d = None → reachable operation d n σ → sysInv rely guar σ.
Proof.
  intros Hd Ho. apply (sysInv_reachable rely guar operation rely_trans rely_refl); [by intros; apply guar_rely|apply operation_always|by split|exact Ho].
Qed.
(** What clients do to the tables, another may rely on. *)
Lemma others_rely (d : D) n σ :
  consistent (committed d) → opened d = None → reachable operation d n σ → rely (committed d) (committed (db σ)).
Proof.
  intros Hd Ho Hr. apply (sys_rely rely guar operation rely_trans rely_refl (λ t t' _, guar_rely t t') operation_always
    {| db := d; clients := replicate n (Ret tt); holder := None |}); [|exact Hr].
  apply (start_sysInv d n); [done..|apply rtc_refl].
Qed.



End Safety.
End MysqlSafety.
