(* ===== verification/MysqlWatch.v ===== *)
(** * MySQL: what the watch delivers

    Every row of the change log from the start of the watch on becomes one event, in
    the order of the log, whatever the other clients do and whichever polls fail. *)

From Stdlib Require Import SpecFloat.
From stdpp Require Import base tactics list gmap strings pretty relations sorting.
From S2P Require Import Prelude Types Net Store Validation Duration Config Models Etcd Sync Api Probers Mysql MysqlTx MysqlLogic MysqlTables MysqlSafety.

Module MysqlWatch.
Import SyncService Models Validation Mysql MysqlTx MysqlLogic MysqlTables MysqlSafety.

(** ** Logs in order *)
Definition lastOf (l : list ChangeLogRecord) : Z := foldr Z.max 0%Z (cr_ID <$> l).
Lemma lastOf_cons x l : lastOf (x :: l) = Z.max (cr_ID x) (lastOf l).
Proof. done. Qed.
Lemma lastOf_le l e : e ∈ l → (cr_ID e <= lastOf l)%Z.
Proof.
  induction l as [|x l IH]; [by rewrite elem_of_nil|]. rewrite lastOf_cons. intros [->|He]%elem_of_cons; [|apply IH in He]; lia.
Qed.
Lemma lastOf_case l : lastOf l = 0%Z ∨ ∃ e, e ∈ l ∧ cr_ID e = lastOf l.
Proof.
  induction l as [|x l IH]; [by left|]. rewrite lastOf_cons. destruct (Z.max_spec (cr_ID x) (lastOf l)) as [[_ ->]|[_ ->]].
  - destruct IH as [->|(e & He & <-)]; [by left|right]. exists e. split; [by right|done].
  - right. exists x. split; [by left|done].
Qed.
Lemma ascending_cons x l : ascending (x :: l) ↔ (∀ y, y ∈ l → (cr_ID x < cr_ID y)%Z) ∧ ascending l.
Proof.
  split.
  - intros H. split; [|intros i j c d Hi Hj Hij; apply (H (S i) (S j)); auto; lia].
    intros y [j Hj]%list_elem_of_lookup. apply (H 0 (S j)); [done|done|lia].
  - intros [Hx Hl] [|i] [|j] c d Hi Hj Hij; simpl in *; simplify_eq; try lia.
    + by eapply Hx, list_elem_of_lookup_2.
    + apply (Hl i j); auto. lia.
Qed.
Lemma ascending_sorted l : ascending l ↔ StronglySorted (λ c d, (cr_ID c < cr_ID d)%Z) l.
Proof.
  induction l as [|x l IH].
  - split; [intros _; apply SSorted_nil|by intros _ [] j c d].
  - rewrite ascending_cons, IH. split; [intros [Hx Hl]; constructor; [done|by apply Forall_forall]|].
    inversion_clear 1 as [|? ? ? Hx]. split; [by apply Forall_forall|done].
Qed.
Lemma ascending_perm l l' : ascending l → ascending l' → l ≡ₚ l' → l = l'.
Proof. rewrite !ascending_sorted. apply StronglySorted_unique_strong. lia. Qed.
Lemma ascending_keep P l : ascending l → ascending (keep P l).
Proof.
  induction l as [|x l IH]; [done|]. rewrite ascending_cons. intros [Hx Hl]. unfold keep. rewrite filter_cons.
  case_decide; [|by apply IH]. apply ascending_cons. split; [|by apply IH]. intros y [Hy _]%elem_keep. by apply Hx.
Qed.
Lemma ascending_app l l' : ascending (l ++ l') → ∀ x y, x ∈ l → y ∈ l' → (cr_ID x < cr_ID y)%Z.
Proof.
  induction l as [|a l IH]; simpl; [by intros _ x y ?%elem_of_nil|]. rewrite ascending_cons.
  intros [Ha Hl] x y [->|Hx]%elem_of_cons Hy; [apply Ha; set_solver|by apply (IH Hl)].
Qed.
Lemma keep_all {A} (P : A → bool) (l : list A) : (∀ x, x ∈ l → P x = true) → keep P l = l.
Proof.
  intros H. unfold keep. induction l as [|x l IH]; [done|]. rewrite filter_cons_True by (apply H; by left).
  by rewrite IH by (intros; apply H; by right).
Qed.
Lemma keep_none {A} (P : A → bool) (l : list A) : (∀ x, x ∈ l → P x = false) → keep P l = [].
Proof.
  intros H. destruct (keep P l) as [|x l'] eqn:Hl; [done|]. exfalso.
  assert (x ∈ keep P l) as [Hx Hp]%elem_keep by (rewrite Hl; by left). by rewrite H in Hp.
Qed.
Lemma keep_cons {A} (P : A → bool) x (l : list A) : keep P (x :: l) = if P x then x :: keep P l else keep P l.
Proof. unfold keep. rewrite filter_cons. by case_decide; destruct (P x). Qed.
Lemma keep_app {A} (P : A → bool) (l l' : list A) : keep P (l ++ l') = keep P l ++ keep P l'.
Proof. apply filter_app. Qed.

(** ** What is delivered *)
Section Watch.
Context {G : HttpGuts} {K : Columns} {CC : Codec (option HCConfig)}.
(** A health check configuration that does not decode is not a missing resource. *)
Hypothesis unmarshal_found : ∀ s e, (unmarshal s : err + option HCConfig) = inl e → isNotFound e = false.
Variable outOfRange : spec_float → Z.

Definition typeOf (eventType : string) : option WatchEventType :=
  if bool_decide (eventType = "vip_created") then Some EventTypeVIPCreated
  else if bool_decide (eventType = "vip_updated") then Some EventTypeVIPUpdated
  else if bool_decide (eventType = "vip_deleted") then Some EventTypeVIPDeleted
  else if bool_decide (eventType = "backend_added") then Some EventTypeBackendAdded
  else if bool_decide (eventType = "backend_updated") then Some EventTypeBackendUpdated
  else if bool_decide (eventType = "backend_deleted") then Some EventTypeBackendDeleted
  else None.
Definition aboutBackend (type : WatchEventType) : bool :=
  match type with EventTypeBackendAdded | EventTypeBackendUpdated | EventTypeBackendDeleted => true | _ => false end.
(** The event of a change: its type, its revision, and the resource it names. *)
Definition eventFor (change : ChangeLogRecord) (w : WatchEvent) : Prop :=
  typeOf (cr_EventType change) = Some (we_Type w) ∧ we_Revision w = cr_Revision change ∧ we_Error w = None ∧
  if aboutBackend (we_Type w)
  then ∀ b, we_Backend w = Some b → ∃ id, cr_BackendID change = Some id ∧ eqc (b_ID b) id = true
  else match cr_VIPID change, we_VIP w with
       | Some id, Some vip => eqc (v_ID vip) id = true
       | None, None => True
       | _, _ => False
       end.
(** What a change was about is gone from the tables [t], which have the change. *)
Definition gone (change : ChangeLogRecord) (t : Tables) : Prop :=
  change ∈ change_log t ∧
  ((∃ id, cr_VIPID change = Some id ∧ hasVIP id t = false) ∨
   (∃ id, cr_BackendID change = Some id ∧ ∀ b, b ∈ backends t → eqc (br_ID b) id = false)).
Inductive delivers : list ChangeLogRecord → list WatchEvent → Prop :=
  | delivers_nil : delivers [] []
  | delivers_event change w l ws : eventFor change w → delivers l ws → delivers (change :: l) (w :: ws)
  | delivers_gone change t l ws : gone change t → delivers l ws → delivers (change :: l) ws
  | delivers_error change e l ws : delivers l ws → delivers (change :: l) (errorEvent e :: ws)
  | delivers_failedPoll e l ws : delivers l ws → delivers l (errorEvent e :: ws).
Lemma delivers_app l1 w1 l2 w2 : delivers l1 w1 → delivers l2 w2 → delivers (l1 ++ l2) (w1 ++ w2).
Proof. induction 1; simpl; eauto using delivers. Qed.
Lemma delivers_snoc l ws change w : delivers l ws → delivers [change] w → delivers (l ++ [change]) (ws ++ w).
Proof. apply delivers_app. Qed.

#[local] Abbreviation wpo := (wpo rely guar).
(** A read outside of transactions. *)
Lemma wpo_read {A} (s : Stmt A) c Q :
  (∀ t a t', done s t a t' → t' = t) →
  (∀ t r, rely c.1 t → match r with inl e => isNotFound e = false | inr a => done s t a t end → Q r (t, c.2)) →
  wpo (query s) c Q.
Proof.
  intros Hs HQ c1 r c2 Hr Ha. assert (c2 = c1) as -> by (destruct r; simpl in Ha; naive_solver).
  split; [split; [apply Hr|by left]|]. split; [done|]. apply HQ; [done|]. destruct r; [apply Ha|done].
Qed.
Lemma wpo_try {A B} (p : prog (err + A)) (k : A → prog (err + B)) c Q :
  wpo p c (λ r c, match r with inl e => Q (inl e) c | inr a => wpo (k a) c Q end) → wpo (x ←? p; k x) c Q.
Proof. intros Hp. apply wpo_bind. eapply wpo_mono, Hp. intros [e|a] c' H; [by apply wpo_ret|done]. Qed.
Lemma wpo_failing {A} f (p : prog (err + A)) c Q :
  wpo p c (λ r c, Q (match r with inl e => inl (f e) | inr a => inr a end) c) → wpo (failing f p) c Q.
Proof. intros Hp. apply wpo_bind. eapply wpo_mono, Hp. intros r c' H. by apply wpo_ret. Qed.

(** Tables of now are those of the start, as others and the watch have left them. *)
Definition later (c : Tables * list WatchEvent) (c' : Tables * list WatchEvent) : Prop := rely c.1 c'.1 ∧ c'.2 = c.2.
Lemma invalid_found msg e : invalid msg = Some e → isNotFound e = false.
Proof. by intros [= <-]. Qed.
Lemma ValidateResourceID_found f id e : ValidateResourceID f id = Some e → isNotFound e = false.
Proof. unfold ValidateResourceID. repeat case_match; try done; apply invalid_found. Qed.
Lemma GetVIP_wpo id c :
  rely c.1 c.1 →
  wpo (GetVIP id) c (λ r c', later c c' ∧ match r with
                                       | inr vip => eqc (v_ID vip) id = true
                                       | inl e => isNotFound e = true → ∃ t, rely c.1 t ∧ hasVIP id t = false
                                       end).
Proof.
  intros Hc. unfold GetVIP. destruct (ValidateResourceID "vip id" id) as [e|] eqn:Hv; simpl.
  { apply wpo_ret. split; [done|]. by rewrite (ValidateResourceID_found _ _ _ Hv). }
  apply wpo_try, wpo_failing, wpo_read; [by intros ??? [_ [-> _]]|]. intros t r Ht Hr.
  destruct r as [e|r]; simpl; [split; [done|]; by rewrite Hr|]. destruct Hr as (_ & _ & Hr).
  destruct r as [v|]; [|apply wpo_try, wpo_ret; split; [done|]; intros _; exists t; split; [done|by apply existsb_false]].
  apply wpo_try, wpo_ret. apply wpo_try, wpo_failing, wpo_read; [by intros ??? [_ [-> _]]|]. intros t2 r Ht2 Hr2. simpl in Ht2.
  assert (later c (t2, c.2)) as Hl by (split; [by eapply rely_trans|done]).
  destruct r as [e|r]; simpl; [split; [done|]; by rewrite Hr2|].
  destruct r as [h|]; [|apply wpo_ret; split; [done|apply Hr]].
  apply wpo_try, wpo_failing, wpo_ret. unfold healthCheckModelFromRecord.
  case_bool_decide; [apply wpo_ret; split; [done|apply Hr]|].
  destruct (unmarshal (hr_Config h)) as [e|cfg] eqn:Hu; [|apply wpo_ret; split; [done|apply Hr]].
  split; [done|]. simpl. by rewrite (unmarshal_found _ _ Hu).
Qed.
Lemma GetBackend_wpo id c :
  rely c.1 c.1 →
  wpo (GetBackend id) c (λ r c', later c c' ∧ match r with
                                           | inr b => eqc (b_ID b) id = true
                                           | inl e => isNotFound e = true → ∃ t, rely c.1 t ∧ ∀ b, b ∈ backends t → eqc (br_ID b) id = false
                                           end).
Proof.
  intros Hc. unfold GetBackend. destruct (ValidateResourceID "backend id" id) as [e|] eqn:Hv; simpl.
  { apply wpo_ret. split; [done|]. by rewrite (ValidateResourceID_found _ _ _ Hv). }
  apply wpo_try, wpo_failing, wpo_read; [by intros ??? [_ [-> _]]|]. intros t r Ht Hr.
  destruct r as [e|r]; simpl; [split; [done|]; by rewrite Hr|]. destruct Hr as (_ & _ & Hr).
  destruct r as [b|]; [|apply wpo_try, wpo_ret; split; [done|]; intros _; exists t; by split].
  apply wpo_try, wpo_ret, wpo_ret. split; [done|apply Hr].
Qed.

Lemma rely_log t t' : rely t t' → ∃ l, change_log t' = change_log t ++ l.
Proof.
  intros [_ Hl]. induction Hl as [t|t t1 t' Hl _ (l2 & ->)]; [exists []; by rewrite app_nil_r|].
  destruct Hl as (row & rev & l & _ & _ & -> & _). exists (l ++ l2). by rewrite app_assoc.
Qed.
Lemma rely_elem t t' e : rely t t' → e ∈ change_log t → e ∈ change_log t'.
Proof. intros [l ->]%rely_log He. apply elem_of_app. by left. Qed.
Lemma later_refl c : rely c.1 c.1 → later c c.
Proof. by split. Qed.
Lemma later_trans c1 c2 c3 : later c1 c2 → later c2 c3 → later c1 c3.
Proof. intros [? ?] [? ?]. split; [by eapply rely_trans|congruence]. Qed.

Lemma buildWatchEvent_wpo change c :
  rely c.1 c.1 → change ∈ change_log c.1 →
  wpo (buildWatchEvent change) c (λ r c', later c c' ∧ match r with
                                                    | inl _ => True
                                                    | inr (Some w) => eventFor change w
                                                    | inr None => ∃ t, gone change t
                                                    end).
Proof.
  intros Hc Hin.
  assert (∀ type, typeOf (cr_EventType change) = Some type → aboutBackend type = false →
    wpo (vipEvent type change) c (λ r c', later c c' ∧ match r with
      | inl _ => True | inr (Some w) => eventFor change w | inr None => ∃ t, gone change t end)) as Hvip.
  { intros type Ht Ha. unfold vipEvent. destruct (cr_VIPID change) as [id|] eqn:Hid.
    - apply wpo_bind. eapply wpo_mono; [|by apply GetVIP_wpo]. intros [e|vip] c' [Hl Hr]; apply wpo_ret; (split; [done|]).
      + destruct (isNotFound e); [|done]. destruct (Hr eq_refl) as (t & Ht' & Hno). exists t.
        split; [by eapply rely_elem|]. left. eauto.
      + unfold eventFor. simpl. rewrite Ha, Hid. by split_and!.
    - apply wpo_ret. split; [by apply later_refl|]. unfold eventFor. simpl. rewrite Ha, Hid. by split_and!. }
  assert (∀ type, typeOf (cr_EventType change) = Some type → aboutBackend type = true →
    wpo (backendEvent type change) c (λ r c', later c c' ∧ match r with
      | inl _ => True | inr (Some w) => eventFor change w | inr None => ∃ t, gone change t end)) as Hbackend.
  { intros type Ht Ha. unfold backendEvent. destruct (cr_BackendID change) as [id|] eqn:Hid.
    - apply wpo_bind. eapply wpo_mono; [|by apply GetBackend_wpo]. intros [e|b] c' [Hl Hr]; apply wpo_ret; (split; [done|]).
      + destruct (isNotFound e); [|done]. destruct (Hr eq_refl) as (t & Ht' & Hno). exists t.
        split; [by eapply rely_elem|]. right. eauto.
      + unfold eventFor. simpl. rewrite Ha, Hid. split_and!; [done..|]. intros ? [= <-]. eauto.
    - apply wpo_ret. split; [by apply later_refl|]. unfold eventFor. simpl. rewrite Ha. by split_and!. }
  unfold buildWatchEvent.
  case_bool_decide as E1; [apply Hvip; by rewrite ?E1|]. case_bool_decide as E2; [apply Hvip; by rewrite ?E2|].
  case_bool_decide as E3.
  { apply wpo_ret. split; [by apply later_refl|]. unfold eventFor. rewrite E3. simpl.
    destruct (cr_VIPID change); simpl; split_and!; try done; apply eqc_refl. }
  case_bool_decide as E4; [apply Hbackend; by rewrite ?E4|]. case_bool_decide as E5; [apply Hbackend; by rewrite ?E5|].
  case_bool_decide as E6.
  { apply wpo_ret. split; [by apply later_refl|]. unfold eventFor. rewrite E6. simpl. split_and!; [done..|].
    destruct (cr_BackendID change) as [id|], (cr_VIPID change); [|done..].
    intros b [= <-]. exists id. split; [done|apply eqc_refl]. }
  apply wpo_ret. split; [by apply later_refl|done].
Qed.

(** *** Progress of the watch *)
Definition window (start id : Z) (l : list ChangeLogRecord) : list ChangeLogRecord :=
  keep (λ e, (start <? cr_ID e)%Z && (cr_ID e <=? id)%Z) l.
Lemma split_at id l : ascending l → l = keep (λ e, (cr_ID e <=? id)%Z) l ++ keep (afterID id) l.
Proof.
  induction l as [|x l IH]; [done|]. rewrite ascending_cons. intros [Hx Hl]. rewrite !keep_cons. unfold afterID at 1.
  destruct (Z.leb_spec (cr_ID x) id), (Z.ltb_spec id (cr_ID x)); try lia; simpl; [by rewrite <- IH|].
  rewrite (keep_none _ l), (keep_all (afterID id) l); [done|..]; intros y Hy; specialize (Hx y Hy); unfold afterID; lia.
Qed.
Lemma window_next start id change rest l :
  ascending l → (start <= id)%Z → keep (afterID id) l = change :: rest →
  window start (cr_ID change) l = window start id l ++ [change].
Proof.
  intros Hl Hs Hrest. assert (ascending (change :: rest)) as [Hfirst _]%ascending_cons by (rewrite <- Hrest; by apply ascending_keep).
  assert (id < cr_ID change)%Z as Hid.
  { assert (change ∈ keep (afterID id) l) as [_ H]%elem_keep by (rewrite Hrest; by left). unfold afterID in H. lia. }
  unfold window. rewrite (split_at id l Hl), Hrest, !keep_app. set (X := keep (λ e, (cr_ID e <=? id)%Z) l).
  assert (∀ e, e ∈ X → (cr_ID e <= id)%Z) as HX by (intros e [_ H]%elem_keep; lia).
  assert (keep (λ e, (start <? cr_ID e)%Z && (cr_ID e <=? cr_ID change)%Z) X = keep (λ e, (start <? cr_ID e)%Z && (cr_ID e <=? id)%Z) X) as ->.
  { clearbody X. induction X as [|x X IH]; [done|]. rewrite !keep_cons, IH by set_solver.
    specialize (HX x ltac:(by left)). by rewrite (proj2 (Z.leb_le _ _)), (proj2 (Z.leb_le (cr_ID x) id)) by lia. }
  rewrite (keep_none (λ e, (start <? cr_ID e)%Z && (cr_ID e <=? id)%Z) (change :: rest)).
  2: { intros e [->|He]%elem_of_cons; [lia|]. specialize (Hfirst e He). lia. }
  rewrite app_nil_r, keep_cons, (keep_none _ rest) by (intros e He; specialize (Hfirst e He); lia). f_equal.
  by rewrite (proj2 (Z.ltb_lt _ _)), Z.leb_refl by lia.
Qed.
Lemma window_grow start id l l' :
  ascending (l ++ l') → (∀ e, e ∈ l' → (0 < cr_ID e)%Z) → (id <= lastOf l)%Z → window start id (l ++ l') = window start id l.
Proof.
  intros Hl Hp Hid. unfold window. rewrite keep_app, (keep_none _ l'), app_nil_r; [done|]. intros e He.
  enough (id < cr_ID e)%Z by lia. specialize (Hp e He). destruct (lastOf_case l) as [H0|(x & Hx & Hlast)]; [lia|].
  pose proof (ascending_app _ _ Hl x e Hx He). lia.
Qed.
Lemma lastOf_app l l' : (lastOf l <= lastOf (l ++ l'))%Z.
Proof.
  destruct (lastOf_case l) as [H0|(e & He & <-)]; [|apply lastOf_le, elem_of_app; by left].
  rewrite H0. induction (l ++ l') as [|x l2 IH]; [done|]. rewrite lastOf_cons. lia.
Qed.

(** All the changes up to [id] are dealt with; or the context has ended the watch, and
    perhaps one more. *)
Definition progress (start id : Z) (c : Tables * list WatchEvent) : Prop :=
  consistent c.1 ∧ (start <= id <= lastOf (change_log c.1))%Z ∧ delivers (window start id (change_log c.1)) c.2.
Definition cancelled (start id : Z) (c : Tables * list WatchEvent) : Prop :=
  ∃ l, (window start id (change_log c.1) = l ∨ ∃ e, window start id (change_log c.1) = l ++ [e]) ∧ delivers l c.2.
Definition watched (start : Z) (r : Z * bool) (c : Tables * list WatchEvent) : Prop :=
  consistent c.1 ∧ (start <= r.1 <= lastOf (change_log c.1))%Z ∧
  if r.2 then delivers (window start r.1 (change_log c.1)) c.2 else cancelled start r.1 c.
Lemma window_later start id t t' : rely t t' → (id <= lastOf (change_log t))%Z →
  window start id (change_log t') = window start id (change_log t) ∧ (lastOf (change_log t) <= lastOf (change_log t'))%Z.
Proof.
  intros Hr Hid. destruct (rely_log _ _ Hr) as [l Hl]. destruct Hr as [Ht' _]. rewrite Hl. split; [|apply lastOf_app].
  apply window_grow; [rewrite <- Hl; apply (log_ascending _ Ht')| |done].
  intros e He. apply (log_positive _ Ht'). rewrite Hl. apply elem_of_app. by right.
Qed.
Lemma progress_later start id c c' : later c c' → progress start id c → progress start id c'.
Proof.
  intros [Hr Htr] (Hc & Hid & Hd). destruct (window_later start id _ _ Hr) as [Hw Hlast]; [lia|].
  split_and!; [apply Hr|lia|lia|]. by rewrite Hw, Htr.
Qed.
Lemma progress_failed start id c e : progress start id c → progress start id (c.1, c.2 ++ [errorEvent e]).
Proof.
  intros (Hc & Hid & Hd). split_and!; simpl; [done|lia|lia|]. rewrite <- (app_nil_r (window _ _ _)).
  apply delivers_app; eauto using delivers.
Qed.
(** The next change is dealt with. *)
Lemma progress_next start id change rest c ws :
  progress start id c → keep (afterID id) (change_log c.1) = change :: rest → delivers [change] ws →
  progress start (cr_ID change) (c.1, c.2 ++ ws) ∧ keep (afterID (cr_ID change)) (change_log c.1) = rest.
Proof.
  intros (Hc & Hid & Hd) Hrest Hws. pose proof (log_ascending _ Hc) as Ha.
  assert (change ∈ change_log c.1 ∧ (id < cr_ID change)%Z) as [Hin Hlt].
  { assert (change ∈ keep (afterID id) (change_log c.1)) as [? H]%elem_keep by (rewrite Hrest; by left). unfold afterID in H. split; [done|lia]. }
  split.
  - split_and!; simpl; [done|lia|by apply lastOf_le|]. rewrite (window_next start id change rest); [by apply delivers_app|done|lia|done].
  - rewrite (split_at id _ Ha) at 1. rewrite Hrest, keep_app.
    assert (ascending (change :: rest)) as [Hfirst _]%ascending_cons by (rewrite <- Hrest; by apply ascending_keep).
    rewrite keep_none by (intros e [_ H]%elem_keep; unfold afterID; lia). rewrite keep_cons. unfold afterID at 1.
    rewrite Z.ltb_irrefl. apply keep_all. intros e He. specialize (Hfirst e He). unfold afterID. lia.
Qed.
Lemma rest_later id t t' l : rely t t' → (∃ rest, keep (afterID id) (change_log t) = l ++ rest) →
  ∃ rest, keep (afterID id) (change_log t') = l ++ rest.
Proof.
  intros [l2 Hl]%rely_log [rest Hrest]. rewrite Hl, keep_app, Hrest, <- app_assoc. eauto.
Qed.

Lemma processChanges_wpo start l id c :
  progress start id c → (∃ rest, keep (afterID id) (change_log c.1) = l ++ rest) →
  wpo (processChanges id l) c (λ r c', rely c.1 c'.1 ∧ watched start r c').
Proof.
  revert id c. induction l as [|change l IH]; intros id c Hp Hrest.
  { apply wpo_ret. destruct Hp as (? & ? & ?). by split. }
  assert (change ∈ change_log c.1) as Hin.
  { destruct Hrest as [rest Hrest]. assert (change ∈ keep (afterID id) (change_log c.1)) as [? _]%elem_keep by (rewrite Hrest; by left). done. }
  simpl. apply wpo_bind. eapply wpo_mono; [|apply buildWatchEvent_wpo; [by split; [apply Hp|]|exact Hin]].
  intros r c1 [Hl Hr]. pose proof (progress_later _ _ _ _ Hl Hp) as Hp1. destruct (rest_later _ _ _ _ (proj1 Hl) Hrest) as [rest1 Hrest1].
  assert (∀ ws, delivers [change] ws → wpo (processChanges (cr_ID change) l) (c1.1, c1.2 ++ ws)
    (λ r c', rely c.1 c'.1 ∧ watched start r c')) as Hgo.
  { intros ws Hws. destruct (progress_next _ _ _ _ _ ws Hp1 Hrest1 Hws) as [Hp2 Hrest2].
    eapply wpo_mono; [|apply (IH (cr_ID change) (c1.1, c1.2 ++ ws) Hp2); eauto].
    intros r' c2 [Hr2 Hw]. split; [|done]. by eapply rely_trans; [apply Hl|]. }
  destruct r as [e|[w|]].
  - split; [apply Hgo; eauto using delivers|]. split; [done|]. split; [apply Hl|].
    destruct (progress_next _ _ _ _ _ [errorEvent e] Hp1 Hrest1) as [(Hc2 & Hid2 & _) _]; [eauto using delivers|].
    split_and!; [done|simpl in *; lia..|]. exists (window start id (change_log c1.1)). split; [right|apply Hp1].
    exists change. eapply window_next; [apply log_ascending, Hc2|destruct Hp1; lia|exact Hrest1].
  - split; [apply Hgo; eauto using delivers|]. split; [done|]. split; [apply Hl|]. destruct Hp1 as (? & ? & ?).
    split_and!; [done|simpl; lia..|]. exists (window start id (change_log c1.1)). auto.
  - destruct Hr as [t Hgone]. destruct c1 as [t1 tr1]. specialize (Hgo []). rewrite app_nil_r in Hgo. apply Hgo. eauto using delivers.
Qed.
Lemma poll_wpo start id c :
  progress start id c → wpo (poll id) c (λ r c', rely c.1 c'.1 ∧ watched start r c').
Proof.
  intros Hp. apply wpo_bind, wpo_read; [by intros ??? [_ [-> _]]|]. intros t r Ht Hr.
  assert (progress start id (t, c.2)) as Hp1 by (eapply progress_later; [by split|exact Hp]).
  destruct r as [e|l].
  - split; (split; [done|]); (split; [done|]).
    + by apply progress_failed with (e := errorf "failed to poll changes: " e) in Hp1.
    + destruct Hp1 as (? & ? & ?). split_and!; simpl in *; [done|lia|lia|]. exists (window start id (change_log t)). auto.
  - destruct Hr as (_ & _ & l' & Hl' & Ha & ->).
    assert (l' = keep (afterID id) (change_log t)) as ->.
    { apply ascending_perm; [done| |done]. apply ascending_keep, log_ascending, Hp1. }
    eapply wpo_mono; [|apply processChanges_wpo; [exact Hp1|]].
    + intros r c' [Hc' Hw]. split; [by eapply rely_trans|done].
    + exists (drop 100 (keep (afterID id) (change_log t))). by rewrite take_drop.
Qed.
Lemma watchLoop_wpo start ticks id c :
  progress start id c → wpo (watchLoop ticks id) c (λ r c', rely c.1 c'.1 ∧ watched start r c').
Proof.
  revert id c. induction ticks as [|ticks IH]; intros id c Hp.
  { apply wpo_ret. destruct Hp as (? & ? & ?). by split. }
  apply wpo_bind. eapply wpo_mono; [|by apply poll_wpo]. intros [id' []] c' [Hr Hw]; simpl.
  - eapply wpo_mono; [|by apply IH]. intros r c2 [Hr2 Hw2]. split; [by eapply rely_trans|done].
  - by apply wpo_ret.
Qed.
Lemma watched_later start r t t' tr : rely t t' → watched start r (t, tr) → watched start r (t', tr).
Proof.
  intros Hr (Hc & Hid & Hd). destruct (window_later start r.1 _ _ Hr) as [Hw Hlast]; [simpl in *; lia|].
  split_and!; simpl in *; [apply Hr|lia|lia|]. unfold cancelled in *. simpl in *. by rewrite Hw.
Qed.

Context {D : Type} `{!MySQL D, !MySQLLaws D}.

End Watch.
End MysqlWatch.
