(* ===== verification/MysqlRuns.v ===== *)
(** * MySQL: a server in memory, and concrete runs

    A server that satisfies the laws, with calls that fail on demand, on which the
    theorems apply and the store's surprises show. *)

From Stdlib Require Import SpecFloat.
From stdpp Require Import base tactics list gmap strings pretty relations.
From S2P Require Import Prelude Types Net Store Validation Duration Config Models Etcd Sync Api Probers Mysql MysqlTx MysqlLogic MysqlTables MysqlSafety MysqlWatch.

Module MysqlRuns.
Import SyncService Models Validation Mysql MysqlTx MysqlLogic MysqlTables MysqlSafety MysqlWatch.

(** Comparisons ignore the case of ASCII letters. *)
#[local] Instance columns : Columns :=
  {| collate s := Etcd.string_of (Api.toLower (bytes_of s)); seconds t := (λ t, t `div` 1000000000 * 1000000000)%Z <$> t;
     jsonText s := s; fits n s := (length (bytes_of s) <=? n)%nat |}.
#[local] Instance guts : HttpGuts :=
  {| ValidHostHeader := λ _, true; ValidHeaderFieldName := λ _, true; ValidHeaderFieldValue := λ _, true |}.
(** A configuration is none or empty. *)
#[local] Instance configCodec : Codec (option HCConfig) := {|
  marshal c := inr (match c with None => "null" | Some _ => "{}" end);
  unmarshal s := if bool_decide (s = "null") then inr None
                 else if bool_decide (s = "{}") then inr (Some ∅) else inl (ErrMsg "invalid character")
|}.
Lemma config_found s e : (unmarshal s : err + option HCConfig) = inl e → isNotFound e = false.
Proof. simpl. repeat case_bool_decide; naive_solver. Qed.

(** ** The server *)
Definition report (v : Violation) : err :=
  ErrMsg (match v with
          | BadValue => "Error 1406 (22001): Data too long for column 'id' at row 1"
          | Duplicate => "Error 1062 (23000): Duplicate entry 'x' for key 'PRIMARY'"
          | NoParent => "Error 1452 (23000): Cannot add or update a child row: a foreign key constraint fails"
          end).
Fixpoint lowest (l : list (Z * Z)) : option (Z * Z) :=
  match l with
  | [] => None
  | r :: l => match lowest l with Some r' => if (r'.1 <? r.1)%Z then Some r' else Some r | None => Some r end
  end.
Fixpoint ascendingb (l : list ChangeLogRecord) : bool :=
  match l with [] => true | c :: l => forallb (λ d, cr_ID c <? cr_ID d)%Z l && ascendingb l end.
Definition nextID (ids : list Z) : Z := (1 + foldr Z.max 0 ids)%Z.
(** A statement on tables that it can be done on. *)
Definition execute {A} (s : Stmt A) (t : Tables) : option (A * Tables) :=
  match s in Stmt A return option (A * Tables) with
  | SelectVIP id => Some (List.find (λ v, eqc (vr_ID v) id) (vips t), t)
  | SelectVIPs => Some (vips t, t)
  | SelectHealthCheck vipID => Some (List.find (λ h, eqc (hr_VIPID h) vipID) (health_checks t), t)
  | SelectHealthChecks vipIDs => Some (keep (λ h, existsb (eqc (hr_VIPID h)) vipIDs) (health_checks t), t)
  | SelectBackend id => Some (List.find (λ b, eqc (br_ID b) id) (backends t), t)
  | SelectBackends vipIDs => Some (keep (λ b, existsb (eqc (br_VIPID b)) vipIDs) (backends t), t)
  | InsertVIP r => Some (tt, setVIPs (vips t ++ [storedVIP r]) t)
  | InsertHealthCheck r => Some (tt, setHealthChecks (health_checks t ++ [storedHealthCheck r]) t)
  | InsertBackend r => Some (tt, setBackends (backends t ++ [storedBackend r]) t)
  | UpdateVIPWhere id r =>
      Some (tt, setVIPs ((λ v, if eqc (vr_ID v) id then storedVIP (withID (vr_ID v) r) else v) <$> vips t) t)
  | UpdateHealthCheckWhere vipID r =>
      Some (tt, setHealthChecks (replacing (λ h, eqc (hr_VIPID h) vipID) (storedHealthCheck r) (health_checks t)) t)
  | UpdateBackendWhere id r => Some (tt, setBackends (replacing (λ b, eqc (br_ID b) id) (storedBackend r) (backends t)) t)
  | DeleteVIPWhere id => Some (length (keep (λ v, eqc (vr_ID v) id) (vips t)), cascadeVIP id t)
  | DeleteHealthCheckWhere vipID =>
      Some (length (keep (λ h, eqc (hr_VIPID h) vipID) (health_checks t)),
            setHealthChecks (keep (λ h, negb (eqc (hr_VIPID h) vipID)) (health_checks t)) t)
  | DeleteBackendWhere id =>
      Some (length (keep (λ b, eqc (br_ID b) id) (backends t)), setBackends (keep (λ b, negb (eqc (br_ID b) id)) (backends t)) t)
  | SelectMetadata => Some (lowest (system_metadata t), t)
  | SelectRevision => Some (default 0%Z (snd <$> head (system_metadata t)), t)
  | CountMetadata => Some (length (system_metadata t), t)
  | InsertMetadata revision => Some (tt, setMetadata (system_metadata t ++ [(nextID (system_metadata t).*1, revision)]) t)
  | UpdateMetadata rowID revision =>
      Some (length (keep (λ '(id, rev), (id =? rowID)%Z && negb (rev =? revision)%Z) (system_metadata t)),
            setMetadata ((λ '(id, rev), if (id =? rowID)%Z then (id, revision) else (id, rev)) <$> system_metadata t) t)
  | InsertChange revision eventType vipID backendID =>
      Some (tt, setLog (change_log t ++ [{| cr_ID := nextID (cr_ID <$> change_log t); cr_Revision := revision;
                                            cr_EventType := eventType; cr_VIPID := vipID; cr_BackendID := backendID |}]) t)
  | SelectChanges after =>
      if ascendingb (change_log t) then Some (take 100 (keep (afterID after) (change_log t)), t) else None
  | SelectLastChange => Some (foldr Z.max 0%Z (cr_ID <$> change_log t), t)
  end.

Lemma find_first {A} (P : A → bool) (l : list A) : first P l (List.find P l).
Proof.
  induction l as [|a l IH]; simpl; [by intros a ?%elem_of_nil|]. destruct (P a) eqn:Ha; simpl; [split; [by left|done]|].
  destruct (List.find P l); simpl in *; [destruct IH; split; [by right|done]|]. intros b [->|Hb]%elem_of_cons; auto.
Qed.
Lemma lowest_spec l :
  match lowest l with
  | Some row => row ∈ l ∧ ∀ row', row' ∈ l → (row.1 <= row'.1)%Z
  | None => l = []
  end.
Proof.
  induction l as [|r l IH]; [done|]. simpl. destruct (lowest l) as [r'|].
  - destruct IH as [Hr' Hmin]. destruct (Z.ltb_spec r'.1 r.1); split.
    + by right.
    + intros row' [->|Hr]%elem_of_cons; [lia|auto].
    + by left.
    + intros row' [->|Hr]%elem_of_cons; [lia|]. specialize (Hmin _ Hr). lia.
  - subst l. split; [by left|]. intros row' ->%list_elem_of_singleton. lia.
Qed.
Lemma nextID_above ids : (0 < nextID ids)%Z ∧ ∀ id, id ∈ ids → (id < nextID ids)%Z.
Proof.
  unfold nextID. induction ids as [|x ids [IH0 IH]]; [split; [done|by intros id ?%elem_of_nil]|].
  change (foldr Z.max 0%Z (x :: ids)) with (Z.max x (foldr Z.max 0%Z ids)).
  split; [lia|]. intros id [->|Hid]%elem_of_cons; [lia|]. specialize (IH _ Hid). lia.
Qed.
Lemma ascendingb_spec l : ascendingb l = true → ascending l.
Proof.
  induction l as [|c l IH]; [by intros _ [] j c d|]. simpl. rewrite andb_true_iff, forallb_forall. intros [Hc Hl].
  apply ascending_cons. split; [|auto]. intros y Hy%list_elem_of_In. specialize (Hc y Hy). lia.
Qed.
Lemma execute_effect {A} (s : Stmt A) t a t' : execute s t = Some (a, t') → effect s t a t'.
Proof.
  destruct s; simpl; intros H; try (injection H as <- <-); try done; try (split; [done|apply find_first]).
  - split; [done|apply lowest_spec].
  - split; [done|]. destruct (system_metadata t) as [|[id rev] l]; simpl; [done|]. by left.
  - destruct (nextID_above (system_metadata t).*1) as [_ Hn]. eexists. split; [|done]. intros Hid%Hn. lia.
  - destruct (nextID_above (cr_ID <$> change_log t)) as [Hp Hn]. eexists. split_and!; [done| |done].
    intros c Hc. by apply Hn, list_elem_of_fmap_2.
  - destruct (ascendingb (change_log t)) eqn:Ha; [|done]. injection H as <- <-. apply ascendingb_spec in Ha.
    split; [done|]. exists (keep (afterID after) (change_log t)). split_and!; [done|by apply ascending_keep|done].
Qed.

(** The server: its tables, the transaction that is open, and which of the next calls fail. *)
Record server := { tables : Tables; open : option Tables; faults : list bool }.
Definition lost : err := ErrMsg "invalid connection".
Definition fails (d : server) : bool := default false (head (faults d)).
Definition after (tabs : Tables) (o : option Tables) (d : server) : server := {| tables := tabs; open := o; faults := tail (faults d) |}.
Definition answer {A} (s : Stmt A) (t : Tables) : (err + A) * Tables :=
  match violates s t with
  | Some v => (inl (report v), t)
  | None => match execute s t with Some (a, t') => (inr a, t') | None => (inl lost, t) end
  end.
#[local] Instance memory : MySQL server := {|
  committed := tables;
  opened := open;
  exec A s := λ d,
    if fails d then (inl lost, after (tables d) (open d) d)
    else match open d with
         | None => let '(r, t) := answer s (tables d) in (r, after t None d)
         | Some t => let '(r, t') := answer s t in (r, after (tables d) (Some t') d)
         end;
  beginTx := λ d, if fails d then (Some lost, after (tables d) None d) else (None, after (tables d) (Some (tables d)) d);
  Mysql.commitTx := λ d, if fails d then (Some lost, after (tables d) None d)
                   else (None, after (match open d with Some t => t | None => tables d end) None d);
  rollbackTx := λ d, (None, after (tables d) None d);
|}.
Lemma answer_spec {A} (s : Stmt A) t r t' :
  answer s t = (r, t') → match r with inl e => isNotFound e = false ∧ t' = t | inr a => done s t a t' end.
Proof.
  unfold answer, done. destruct (violates s t) as [v|]; [by intros [= <- <-]|].
  destruct (execute s t) as [[a t2]|] eqn:He; intros [= <- <-]; [|done]. split; [done|by apply execute_effect].
Qed.
#[local] Instance memory_laws : MySQLLaws server.
Proof.
  split.
  - intros A s d r d'. simpl. destruct (fails d).
    { intros [= <- <-]. simpl. destruct (open d); auto. }
    destruct (open d) as [t|]; [destruct (answer s t) as [r2 t'] eqn:Ha|destruct (answer s (tables d)) as [r2 t'] eqn:Ha];
      intros [= <- <-]; apply answer_spec in Ha; destruct r2; simpl; naive_solver.
  - intros d e d' Ho. simpl. destruct (fails d); by intros [= <- <-].
  - intros d e d'. simpl. destruct (fails d); intros [= <- <-]; simpl; split; try done; destruct (open d); auto.
  - intros d e d' [= <- <-]. done.
Qed.

(** ** Playing a program *)
Fixpoint play {B} (p : prog B) (now : Z) (n : nat) (d : server) : B * server * list WatchEvent :=
  match p with
  | Ret b => (b, d, [])
  | Query s c => let '(r, d) := exec s d in play (c r) now n d
  | Begin c => let '(e, d) := beginTx d in play (c e) now n d
  | Mysql.Commit c => let '(e, d) := Mysql.commitTx d in play (c e) now n d
  | Mysql.Rollback c => let '(e, d) := rollbackTx d in play (c e) now n d
  | Send e c => let '(b, d, tr) := play (c true) now n d in (b, d, e :: tr)
  | Now c => play (c now) now n d
  | NewUUID c => play (c ("uuid-" +:+ pretty n)) now (S n) d
  end.
Definition played {B} (p : prog B) (d : server) : B * server := (play p 5000000000 0 d).1.
(** It is what a client on its own does. *)
Lemma play_reachable program (p : prog unit) now n d b d' tr held :
  play p now n d = (b, d', tr) → held = None ∨ held = Some 0 →
  ∃ held', rtc (sstep program) {| db := d; clients := [p]; holder := held |} {| db := d'; clients := [Ret tt]; holder := held' |}
           ∧ (held' = None ∨ held' = Some 0).
Proof.
  assert (∀ (p p' : prog unit) d d1 sent held, held = None ∨ held = Some 0 → pstep p d sent p' d1 →
    sstep program {| db := d; clients := [p]; holder := held |} {| db := d1; clients := [p']; holder := holding 0 p d1 held |}) as Hone.
  { intros q q' e e1 sent h Hh Hs. by apply (sys_run program {| db := e; clients := [q]; holder := h |} 0 q sent q' e1). }
  assert (∀ (p : prog unit) d1 held, held = None ∨ held = Some 0 → holding 0 p d1 held = None ∨ holding 0 p d1 held = Some 0) as Hheld.
  { intros q e h Hh. unfold holding. destruct q; auto. case_bool_decide; auto. }
  revert n d tr held. induction p as [u|A s c IH|c IH|c IH|c IH|e c IH|c IH|c IH]; intros n d tr held; cbn [play].
  - intros [= <- <- <-] Hh. exists held. destruct u. split; [constructor|done].
  - destruct (exec s d) as [r d1] eqn:E. intros Hp Hh.
    edestruct (IH r n d1 tr) as (h' & Hr & Hh'); [exact Hp|by apply (Hheld (Query s c) d1 held)|]. exists h'. split; [|exact Hh'].
    eapply rtc_l; [eapply Hone; [done|by eapply step_query]|exact Hr].
  - destruct (beginTx d) as [r d1] eqn:E. intros Hp Hh.
    edestruct (IH r n d1 tr) as (h' & Hr & Hh'); [exact Hp|by apply (Hheld (Begin c) d1 held)|]. exists h'. split; [|exact Hh'].
    eapply rtc_l; [eapply Hone; [done|by eapply step_begin]|exact Hr].
  - destruct (Mysql.commitTx d) as [r d1] eqn:E. intros Hp Hh.
    edestruct (IH r n d1 tr) as (h' & Hr & Hh'); [exact Hp|by apply (Hheld (Mysql.Commit c) d1 held)|]. exists h'. split; [|exact Hh'].
    eapply rtc_l; [eapply Hone; [done|by eapply step_commit]|exact Hr].
  - destruct (rollbackTx d) as [r d1] eqn:E. intros Hp Hh.
    edestruct (IH r n d1 tr) as (h' & Hr & Hh'); [exact Hp|by apply (Hheld (Mysql.Rollback c) d1 held)|]. exists h'. split; [|exact Hh'].
    eapply rtc_l; [eapply Hone; [done|by eapply step_rollback]|exact Hr].
  - destruct (play (c true) now n d) as [[b1 d1] tr1] eqn:E. intros [= <- <- <-] Hh.
    edestruct (IH true n d tr1) as (h' & Hr & Hh'); [exact E|exact Hh|]. exists h'. split; [|exact Hh'].
    eapply rtc_l; [eapply Hone; [done|by eapply step_send]|exact Hr].
  - intros Hp Hh. edestruct (IH now n d tr) as (h' & Hr & Hh'); [exact Hp|exact Hh|]. exists h'. split; [|exact Hh'].
    eapply rtc_l; [eapply Hone; [done|by eapply step_now]|exact Hr].
  - intros Hp Hh. edestruct (IH ("uuid-" +:+ pretty n) (S n) d tr) as (h' & Hr & Hh'); [exact Hp|exact Hh|]. exists h'. split; [|exact Hh'].
    eapply rtc_l; [eapply Hone; [done|by eapply step_uuid]|exact Hr].
Qed.

(** ** Runs *)
Definition noRange (f : spec_float) : Z := 0.
Definition start : Tables :=
  {| system_metadata := [(1, 1)]%Z; vips := []; health_checks := []; backends := []; change_log := [] |}.
Definition fresh : server := {| tables := start; open := None; faults := [] |}.
Lemma start_consistent : consistent start.
Proof. split; simpl; try apply NoDup_nil_2; try (intros ? []%elem_of_nil); eauto. intros [] j c d; done. Qed.
Definition web : VIP :=
  {| v_ID := "web"; v_VIP := "192.0.2.1"; v_Port := 80; v_Protocol := ProtocolTCP; v_LBMethod := ""; v_EncapType := EncapTypeGRE4;
     v_DSCP := None; v_CreatedAt := None; v_UpdatedAt := None; v_HealthCheck := None; v_Backends := [] |}.
Definition backendOf (id vipID ip : string) : Backend :=
  {| b_ID := id; b_VIPID := vipID; b_IP := ip; b_Weight := 1; b_CreatedAt := None; b_UpdatedAt := None |}.
Definition ping (id : string) : HealthCheck :=
  {| h_ID := id; h_VIPID := ""; h_Type := HCTypePing; h_IntervalSec := 5; h_TimeoutSec := 3; h_RiseCount := 3; h_FallCount := 2;
     h_Config := None; h_CreatedAt := None; h_UpdatedAt := None |}.
(** Where programs lead from a server, one after the other. *)
Definition afterAll (l : list (prog unit)) (d : server) : server := foldl (λ d p, (played p d).2) d l.
Lemma afterAll_reachable l d :
  Forall (operation noRange) l →
  ∃ σ, reachable (operation noRange) d 1 σ ∧ db σ = afterAll l d ∧ clients σ = [Ret tt] ∧ (holder σ = None ∨ holder σ = Some 0).
Proof.
  intros Hl. unfold reachable.
  enough (∀ held, held = None ∨ held = Some 0 → ∃ σ, rtc (sstep (operation noRange)) {| db := d; clients := [Ret tt]; holder := held |} σ ∧
    db σ = afterAll l d ∧ clients σ = [Ret tt] ∧ (holder σ = None ∨ holder σ = Some 0)) as H by (apply (H None); auto).
  revert d. induction Hl as [|p l Hp Hl IH]; intros d held Hh; [by eexists|].
  unfold afterAll, played. cbn [foldl]. destruct (play p 5000000000 0 d) as [[u d1] tr] eqn:E.
  destruct (play_reachable (operation noRange) p _ _ _ _ _ _ held E Hh) as (h1 & Hr1 & Hh1).
  destruct (IH d1 h1 Hh1) as (σ & Hr & Hσ). exists σ. split; [|exact Hσ].
  eapply rtc_l; [|etrans; [exact Hr1|exact Hr]].
  by apply (sys_call (operation noRange) {| db := d; clients := [Ret tt]; holder := held |} 0 (Ret tt) p).
Qed.

(** One step at a time. *)
Definition advance (p : prog unit) (d : server) : prog unit * server :=
  match p with
  | Ret b => (Ret b, d)
  | Query s c => let '(r, d) := exec s d in (c r, d)
  | Begin c => let '(e, d) := beginTx d in (c e, d)
  | Mysql.Commit c => let '(e, d) := Mysql.commitTx d in (c e, d)
  | Mysql.Rollback c => let '(e, d) := rollbackTx d in (c e, d)
  | Send e c => (c true, d)
  | Now c => (c 5000000000%Z, d)
  | NewUUID c => (c "uuid", d)
  end.
Definition isRet (p : prog unit) : bool := match p with Ret _ => true | _ => false end.
Lemma advance_step p d : isRet p = false → ∃ sent, pstep p d sent (advance p d).1 (advance p d).2.
Proof.
  destruct p as [u|A s c|c|c|c|e c|c|c]; cbn [isRet advance]; intros Hp; [done|..].
  - destruct (exec s d) eqn:E. eexists. cbn [fst snd]. by eapply step_query.
  - destruct (beginTx d) eqn:E. eexists. cbn [fst snd]. by eapply step_begin.
  - destruct (Mysql.commitTx d) eqn:E. eexists. cbn [fst snd]. by eapply step_commit.
  - destruct (rollbackTx d) eqn:E. eexists. cbn [fst snd]. by eapply step_rollback.
  - eexists. cbn [fst snd]. apply step_send.
  - eexists. cbn [fst snd]. apply step_now.
  - eexists. cbn [fst snd]. apply step_uuid.
Qed.
Definition stepped (k : nat) (p : prog unit) (d : server) : prog unit * server := Nat.iter k (λ '(p, d), advance p d) (p, d).
Lemma stepped_reachable program k p d held :
  forallb (λ k, negb (isRet (stepped k p d).1)) (seq 0 k) = true → held = None ∨ held = Some 0 →
  ∃ held', (held' = None ∨ held' = Some 0) ∧
    rtc (sstep program) {| db := d; clients := [p]; holder := held |}
      {| db := (stepped k p d).2; clients := [(stepped k p d).1]; holder := held' |}.
Proof.
  intros Hk Hh. induction k as [|k IH]; [by exists held|].
  rewrite seq_S, forallb_app, andb_true_iff in Hk. destruct Hk as [Hk Hl]. destruct (IH Hk) as (h & Hh1 & Hr).
  simpl in Hl. rewrite andb_true_r in Hl. apply negb_true_iff in Hl. destruct (advance_step _ (stepped k p d).2 Hl) as [sent Hs].
  assert (stepped (S k) p d = advance (stepped k p d).1 (stepped k p d).2) as Hsk.
  { unfold stepped. simpl. by destruct (Nat.iter k _ _). }
  rewrite Hsk. set (q := (stepped k p d).1) in *. set (e := (stepped k p d).2) in *.
  exists (holding 0 q (advance q e).2 h). split.
  - unfold holding. destruct q; auto. case_bool_decide; auto.
  - eapply rtc_r; [exact Hr|]. by apply (sys_run program {| db := e; clients := [q]; holder := h |} 0 q sent).
Qed.

(** ** The theorems, at work *)
Definition creating : list (prog unit) :=
  [discard (Mysql.CreateVIP noRange web); discard (Mysql.AddBackend (backendOf "b1" "web" "10.0.0.1"))].
Lemma creating_operations : Forall (operation noRange) creating.
Proof. repeat constructor. Qed.

(** The commit of a deletion, the sixth step of its client. *)
Definition deleting : prog unit := discard (Mysql.DeleteVIP "web").

(** A watch that starts on empty tables, and one poll after the others have created a
    virtual IP and its backend. *)
Definition created : server := afterAll creating fresh.
Lemma creating_rely : rely start (tables created).
Proof.
  destruct (afterAll_reachable creating fresh creating_operations) as (σ & Hr & Hdb & _). unfold created. rewrite <- Hdb.
  change (rely (committed fresh) (committed (db σ))). apply (others_rely noRange fresh 1 σ); [apply start_consistent|reflexivity|exact Hr].
Qed.
(** Programs of reads, played, with the others' changes before the first. *)
Definition isRead {A} (s : Stmt A) : bool :=
  match s with
  | SelectVIP _ | SelectVIPs | SelectHealthCheck _ | SelectHealthChecks _ | SelectBackend _ | SelectBackends _
  | SelectMetadata | SelectRevision | CountMetadata | SelectChanges _ | SelectLastChange => true
  | _ => false
  end.
Fixpoint reading {B} (p : prog B) (d : server) : bool :=
  match p with
  | Ret _ => true
  | Query s c => isRead s && let '(r, d) := exec s d in reading (c r) d
  | Send e c => reading (c true) d
  | _ => false
  end.
Lemma isRead_tables {A} (s : Stmt A) d r d' : isRead s = true → open d = None → exec s d = (r, d') → tables d' = tables d ∧ open d' = None.
Proof.
  intros Hs Ho. simpl. rewrite Ho. destruct (fails d); [by intros [= <- <-]|]. destruct (answer s (tables d)) as [x t] eqn:Ha.
  intros [= <- <-]. simpl. split; [|done]. unfold answer in Ha.
  destruct (violates s (tables d)); [by injection Ha|]. destruct s; try done; simpl in Ha; try (by injection Ha).
  destruct (ascendingb _) in Ha; by injection Ha.
Qed.
Lemma play_observed {B} (p : prog B) now n d b d' tr :
  reading p d = true → open d = None → rely (tables d) (tables d) → play p now n d = (b, d', tr) → observed rely p d tr b d'.
Proof.
  intros Hr Ho Hd. revert n d tr Hr Ho Hd. induction p as [u|A s c IH|c IH|c IH|c IH|e c IH|c IH|c IH]; intros n d tr Hr Ho Hd;
    cbn [play reading] in *; try done.
  - intros [= <- <- <-]. constructor.
  - apply andb_true_iff in Hr as [Hs Hr]. destruct (exec s d) as [r d1] eqn:E. intros Hp.
    destruct (isRead_tables s d r d1 Hs Ho E) as [Ht Ho1].
    apply (observed_step rely (Query s c) d d None (c r) d1); [done|simpl; by rewrite Ho|by apply step_query|].
    apply (IH r n d1); [done|done|by rewrite Ht|done].
  - destruct (play (c true) now n d) as [[b1 d1] tr1] eqn:E. intros [= <- <- <-].
    apply (observed_step rely (Send e c) d d (Some e) (c true) d); [done|simpl; by rewrite Ho|apply step_send|].
    by apply (IH true n d).
Qed.
Lemma observed_from {B} (p : prog B) d d1 b d' tr :
  (∀ b, p ≠ Ret b) → opened d = None → opened d1 = None → rely (committed d) (committed d1) →
  observed rely p d1 tr b d' → observed rely p d tr b d'.
Proof.
  intros Hp Ho Ho1 Hr Hobs. destruct Hobs as [b d1|p d1 d2 sent p' d3 tr b d' Hopen Hothers Hs Hrest]; [by destruct (Hp b)|].
  rewrite Ho1 in Hothers. apply (observed_step rely p d d2 sent p' d3); [congruence| |done|done].
  rewrite Ho. by eapply rely_trans.
Qed.
(** From the first read of the watch on. *)
Definition watching (lastID : Z) : prog (err + Z * bool) := r ← watchLoop 1 lastID; mret (inr r).
Lemma watching_observed :
  observed rely (Watch 1) fresh (play (watching 0) 0 0 created).2 (play (watching 0) 0 0 created).1.1 (play (watching 0) 0 0 created).1.2.
Proof.
  assert (rely (tables created) (tables created)) as Hc by (split; [apply creating_rely|done]).
  pose (tr := (play (watching 0) 0 0 created).2). fold tr. change tr with (option_list None ++ tr). eapply observed_step.
  - reflexivity.
  - split; [apply start_consistent|done].
  - eapply (step_query _ SelectLastChange). reflexivity.
  - change (observed rely (watching 0) (after start None fresh) tr (play (watching 0) 0 0 created).1.1 (play (watching 0) 0 0 created).1.2).
    unfold tr.
    apply (observed_from _ _ created); [done|reflexivity|vm_compute; reflexivity|exact creating_rely|].
    apply (play_observed _ 0 0); [vm_compute; reflexivity|vm_compute; reflexivity|exact Hc|].
    by destruct (play (watching 0) 0 0 created) as [[b2 d2] tr2].
Qed.

(** ** Surprises *)
(** A backend whose virtual IP is spelled in another case has it as its parent for the
    server, which lists it, but the configuration for the agents groups backends by
    the exact string: no agent ever sees it. *)
Definition shadow : server :=
  afterAll [discard (Mysql.CreateVIP noRange web); discard (Mysql.AddBackend (backendOf "b1" "WEB" "10.0.0.1"))] fresh.
Example backend_hidden_by_case :
  match (played (ListBackends "web") shadow).1 with inr l => b_ID <$> l | inl _ => [] end = ["b1"] ∧
  match (played GetConfig shadow).1 with inr c => vc_Backends <$> cs_VIPs c | inl _ => [] end = [[]].
Proof. split; vm_compute; reflexivity. Qed.

Definition withPing (id hc ip : string) (port : Z) : VIP :=
  {| v_ID := id; v_VIP := ip; v_Port := port; v_Protocol := ProtocolTCP; v_LBMethod := ""; v_EncapType := EncapTypeGRE4;
     v_DSCP := None; v_CreatedAt := None; v_UpdatedAt := None; v_HealthCheck := Some (ping hc); v_Backends := [] |}.
Definition two : server := afterAll [discard (Mysql.CreateVIP noRange web); discard (Mysql.CreateVIP noRange (withPing "dns" "hc" "192.0.2.2" 53))] fresh.
(** A caller that commits although its call failed. *)
Definition stubborn (c : call) : prog (err + error) :=
  tx ←? BeginTx; r ← perform noRange tx c; _ ←? MysqlTx.Commit r.1; mret (inr r.2).
(** The rows written before an update failed are committed, with no new revision and
    nothing in the change log: no watch and no agent learns of them. *)
Example failed_update_committed :
  let d := (played (stubborn (CallUpdateVIP (withPing "web" "hc" "192.0.2.9" 80))) two).2 in
  (played (stubborn (CallUpdateVIP (withPing "web" "hc" "192.0.2.9" 80))) two).1 = inr (Some Models.Conflict) ∧
  vr_VIP <$> vips (tables two) = ["192.0.2.1"; "192.0.2.2"] ∧ vr_VIP <$> vips (tables d) = ["192.0.2.9"; "192.0.2.2"] ∧
  system_metadata (tables d) = system_metadata (tables two) ∧ change_log (tables d) = change_log (tables two).
Proof. cbv zeta. split_and!; vm_compute; reflexivity. Qed.
(** A creation that failed at its health check is logged and committed without it. *)
Example failed_create_committed :
  let d := (played (stubborn (CallCreateVIP (withPing "new" "hc" "192.0.2.3" 80))) two).2 in
  (played (stubborn (CallCreateVIP (withPing "new" "hc" "192.0.2.3" 80))) two).1 = inr (Some Models.Conflict) ∧
  vr_ID <$> vips (tables d) = ["web"; "dns"; "new"] ∧ hr_VIPID <$> health_checks (tables d) = ["dns"] ∧
  cr_EventType <$> change_log (tables d) = ["vip_created"; "vip_created"; "vip_created"].
Proof. cbv zeta. split_and!; vm_compute; reflexivity. Qed.
(** An identifier that passes the checks of the input but is longer than its column
    is not invalid input: the error of the server comes back as it is. *)
Example long_identifier :
  let vip := withPing "0123456789012345678901234567890123456789" "" "192.0.2.3" 80 in
  ValidateVIPForWrite noRange vip = None ∧
  (played (Mysql.CreateVIP noRange vip) fresh).1 = inl (errorf "failed to create VIP: " (report BadValue)).
Proof. split; vm_compute; reflexivity. Qed.
(** The errors of the server for a key that is taken and a parent that is missing, as
    callers get them. *)
Example errors_normalized :
  normalizeError (errorf "failed to create VIP: " (report Duplicate)) = Models.Conflict ∧
  normalizeError (errorf "failed to create backend: " (report NoParent)) = InvalidInput ∧
  normalizeError (errorf "failed to create VIP: " RecordNotFound) = NotFound.
Proof. split_and!; vm_compute; reflexivity. Qed.
End MysqlRuns.
