(* ===== verification/MysqlClient.v ===== *)
(** * The MySQL client: migrations and connection settings
    (internal/common/datastore/mysql/migration.go, client.go)

    Splitting a migration into statements, applying migrations under the server's
    advisory lock, and what the configuration makes of a connection.  The statements of
    the migrations are run by the server, the class [MigrationDB]; opening the
    connection and its pool are not modelled. *)

From Stdlib Require Import SpecFloat.
From stdpp Require Import base tactics list gmap strings pretty sorting.
From S2P Require Import Prelude Types Net Store Validation Duration Config Models Etcd V1Config ControllerConfig Api.

Module MysqlClient.
Import Models Validation ControllerConfig.

(** ** Statements of a migration (migration.go) *)
Record quotes := { inSingleQuote : bool; inDoubleQuote : bool; inBacktick : bool }.
Definition outside : quotes := {| inSingleQuote := false; inDoubleQuote := false; inBacktick := false |}.
Definition quoted (q : quotes) : bool := inSingleQuote q || inDoubleQuote q || inBacktick q.
(** The quotes after a byte: ['] is 39, the double quote 34, the backtick 96. *)
Definition track (ch : Z) (q : quotes) : quotes :=
  if (ch =? 39)%Z then
    if negb (inDoubleQuote q) && negb (inBacktick q)
    then {| inSingleQuote := negb (inSingleQuote q); inDoubleQuote := inDoubleQuote q; inBacktick := inBacktick q |} else q
  else if (ch =? 34)%Z then
    if negb (inSingleQuote q) && negb (inBacktick q)
    then {| inSingleQuote := inSingleQuote q; inDoubleQuote := negb (inDoubleQuote q); inBacktick := inBacktick q |} else q
  else if (ch =? 96)%Z then
    if negb (inSingleQuote q) && negb (inDoubleQuote q)
    then {| inSingleQuote := inSingleQuote q; inDoubleQuote := inDoubleQuote q; inBacktick := negb (inBacktick q) |} else q
  else q.
Definition statementOf (s : list Z) : list (list Z) :=
  let statement := Text.trimSpace s in if bool_decide (statement = []) then [] else [statement].
(** [start] holds the bytes since the last statement, the last one first. *)
Fixpoint splitFrom (start : list Z) (q : quotes) (sql : list Z) : list (list Z) :=
  match sql with
  | [] => statementOf (reverse start)
  | ch :: sql =>
      if (ch =? 59)%Z && negb (quoted q) then statementOf (reverse start) ++ splitFrom [] q sql
      else splitFrom (ch :: start) (track ch q) sql
  end.
Definition migrationStatements (sql : string) : list string := Etcd.string_of <$> splitFrom [] outside (bytes_of sql).

(** ** Applying migrations *)
Definition mysqlMigrationLockName : string := "arca_lb_schema_migrations".
Definition mysqlMigrationLockTimeoutSeconds : Z := 60.
(** One connection: the advisory lock, the table of versions, and any other statement. *)
Class MigrationDB (D : Type) := {
  getLock : string → Z → ST D (err + option Z);
  releaseLock : string → ST D (err + option Z);
  createVersions : ST D error;
  countVersion : string → ST D (err + Z);
  execSQL : string → ST D error;
  recordVersion : string → ST D error;
}.
Section Migrations.
Context {D : Type} `{!MigrationDB D}.

Definition acquireMigrationLock : ST D error :=
  r ← getLock mysqlMigrationLockName mysqlMigrationLockTimeoutSeconds;
  mret (match r with
        | inl e => Some (errorf "failed to acquire migration lock: " e)
        | inr None => Some (ErrMsg ("failed to acquire migration lock " +:+ Prelude.quoted mysqlMigrationLockName +:+ ": result was NULL"))
        | inr (Some n) => if (n =? 1)%Z then None
                          else Some (ErrMsg ("timed out acquiring migration lock " +:+ Prelude.quoted mysqlMigrationLockName))
        end).
Definition releaseMigrationLock : ST D error :=
  r ← releaseLock mysqlMigrationLockName;
  mret (match r with
        | inl e => Some (errorf "failed to release migration lock: " e)
        | inr None => Some (ErrMsg ("failed to release migration lock " +:+ Prelude.quoted mysqlMigrationLockName +:+ ": result was NULL"))
        | inr (Some n) => if (n =? 1)%Z then None
                          else Some (ErrMsg ("migration lock " +:+ Prelude.quoted mysqlMigrationLockName +:+ " was not held by this connection"))
        end).
(** [strings.TrimSuffix(filepath.Base(file), ".sql")] *)
Definition baseName (file : list Z) : list Z := reverse (cut 47 (reverse file)).1.
Definition versionOf (file : string) : string :=
  let base := baseName (bytes_of file) in
  let suffix := reverse (bytes_of ".sql") in
  Etcd.string_of (if hasPrefix suffix (reverse base) then reverse (drop (length suffix) (reverse base)) else base).
Fixpoint execAll (version : string) (statements : list string) : ST D error :=
  match statements with
  | [] => mret None
  | statement :: statements =>
      e ← execSQL statement;
      match e with
      | Some e => mret (Some (errorf ("failed to apply migration " +:+ version +:+ ": ") e))
      | None => execAll version statements
      end
  end.
Definition applyMigration (file : string * string) : ST D error :=
  let version := versionOf file.1 in
  count ← countVersion version;
  match count with
  | inl e => mret (Some (errorf "failed to check migration status: " e))
  | inr count =>
      if (0 <? count)%Z then mret None
      else
        e ← execAll version (migrationStatements file.2);
        match e with
        | Some e => mret (Some e)
        | None =>
            e ← recordVersion version;
            mret (errorf ("failed to record migration " +:+ version +:+ ": ") <$> e)
        end
  end.
Fixpoint applyEach (files : list (string * string)) : ST D error :=
  match files with
  | [] => mret None
  | file :: files => e ← applyMigration file; match e with Some e => mret (Some e) | None => applyEach files end
  end.
(** The embedded files, in the order of their names. *)
Definition nameLe (a b : string * string) : Prop := Etcd.strLt b.1 a.1 = false.
#[global] Instance nameLe_dec a b : Decision (nameLe a b).
Proof. unfold nameLe. apply _. Defined.
Definition applyMigrationsLocked (files : list (string * string)) : ST D error :=
  e ← createVersions;
  match e with
  | Some e => mret (Some (errorf "failed to create schema_migrations table: " e))
  | None => applyEach (merge_sort nameLe files)
  end.
Definition applyMigrations (files : list (string * string)) : ST D error :=
  locked ← acquireMigrationLock;
  match locked with
  | Some e => mret (Some e)
  | None =>
      e ← applyMigrationsLocked files;
      releaseErr ← releaseMigrationLock;
      mret (match e, releaseErr with
            | Some e, Some releaseErr => Some (ErrWrap "" e ("; failed to release migration lock: " +:+ errString releaseErr))
            | None, releaseErr => releaseErr
            | Some e, None => Some e
            end)
  end.
End Migrations.

(** *** What applying them comes to *)
(** The versions that are recorded, the statements that were run, and whether the
    connection has the lock. *)
Class MigrationLaws (D : Type) `{MigrationDB D} := {
  applied : D → gset string;
  ran : D → list string;
  locked : D → bool;
  getLock_law : ∀ name t (d : D) r d', getLock name t d = (r, d') →
    applied d' = applied d ∧ ran d' = ran d ∧ (r = inr (Some 1%Z) → locked d' = true);
  releaseLock_law : ∀ name (d : D) r d', releaseLock name d = (r, d') →
    applied d' = applied d ∧ ran d' = ran d ∧ (r = inr (Some 1%Z) → locked d' = false);
  createVersions_law : ∀ (d : D) e d', createVersions d = (e, d') → applied d' = applied d ∧ ran d' = ran d;
  countVersion_law : ∀ v (d : D) r d', countVersion v d = (r, d') →
    applied d' = applied d ∧ ran d' = ran d ∧ ∀ n, r = inr n → n = if bool_decide (v ∈ applied d) then 1%Z else 0%Z;
  execSQL_law : ∀ s (d : D) e d', execSQL s d = (e, d') → applied d' = applied d ∧ (e = None → ran d' = ran d ++ [s]);
  recordVersion_law : ∀ v (d : D) e d', recordVersion v d = (e, d') →
    ran d' = ran d ∧ (e = None → applied d' = {[v]} ∪ applied d);
}.
Section Applying.
Context {D : Type} `{!MigrationDB D, !MigrationLaws D}.
(** The statements that are to run when the versions [done] are recorded. *)
Definition due (done : gset string) (files : list (string * string)) : list string :=
  files ≫= λ file, if bool_decide (versionOf file.1 ∈ done) then [] else migrationStatements file.2.

Lemma execAll_ran version l (d : D) d' :
  execAll version l d = (None, d') → applied d' = applied d ∧ ran d' = ran d ++ l.
Proof.
  revert d. induction l as [|s l IH]; intros d; cbn [execAll].
  - intros [= <-]. by rewrite app_nil_r.
  - unfold mbind, ST_bind. destruct (execSQL s d) as [e d1] eqn:E. apply execSQL_law in E as [Ha Hr].
    destruct e as [e|]; [done|]. intros [Ha2 Hr2]%IH. rewrite Ha2, Ha, Hr2, Hr, <- app_assoc by done. done.
Qed.
Lemma applyMigration_done file (d : D) d' :
  applyMigration file d = (None, d') →
  applied d' = {[versionOf file.1]} ∪ applied d ∧ ran d' = ran d ++ due (applied d) [file].
Proof.
  unfold applyMigration, due, mbind, ST_bind. cbn [list_bind]. rewrite app_nil_r.
  destruct (countVersion (versionOf file.1) d) as [[e|n] d1] eqn:E; [done|]. apply countVersion_law in E as (Ha & Hr & Hn).
  specialize (Hn n eq_refl). case_bool_decide as Hv; subst n; simpl.
  - intros [= <-]. rewrite Ha, Hr, app_nil_r. split; [set_solver|done].
  - destruct (execAll (versionOf file.1) (migrationStatements file.2) d1) as [e d2] eqn:E. destruct e as [e|]; [done|].
    apply execAll_ran in E as [Ha2 Hr2]. destruct (recordVersion (versionOf file.1) d2) as [e d3] eqn:E3.
    apply recordVersion_law in E3 as [Hr3 Ha3]. destruct e as [e|]; [done|]. intros [= <-].
    rewrite Ha3, Hr3, Hr2, Ha2, Ha, Hr by done. done.
Qed.
Lemma due_recorded v done files : v ∉ versionOf <$> files.*1 → due ({[v]} ∪ done) files = due done files.
Proof.
  intros Hv. induction files as [|file files IH]; [done|]. unfold due in *. cbn [list_bind mbind]. simpl in *. rewrite IH by set_solver. f_equal.
  rewrite (bool_decide_ext _ (versionOf file.1 ∈ done)); [done|]. set_solver.
Qed.
Lemma applyEach_done files (d : D) d' :
  NoDup (versionOf <$> files.*1) → applyEach files d = (None, d') →
  applied d' = list_to_set (versionOf <$> files.*1) ∪ applied d ∧ ran d' = ran d ++ due (applied d) files.
Proof.
  revert d. induction files as [|file files IH]; intros d Hnd; cbn [applyEach].
  - intros [= <-]. unfold due. simpl. rewrite app_nil_r. split; [set_solver|done].
  - cbn in Hnd. apply NoDup_cons in Hnd as [Hv Hnd]. unfold mbind at 1, ST_bind.
    destruct (applyMigration file d) as [e d1] eqn:E. destruct e as [e|]; [done|].
    apply applyMigration_done in E as [Ha Hr]. intros [Ha2 Hr2]%IH; [|done]. rewrite Ha2, Hr2, Hr, Ha. split; [set_solver|].
    rewrite due_recorded by done. rewrite <- app_assoc. f_equal. unfold due. simpl. by rewrite app_nil_r.
Qed.
(** After migrations that report no error every version is recorded, exactly the
    statements of the versions that were not are run, in the order of the file names,
    and the lock is free. *)
Theorem applyMigrations_done files (d : D) d' :
  NoDup (versionOf <$> files.*1) → applyMigrations files d = (None, d') →
  (∀ file, file ∈ files → versionOf file.1 ∈ applied d') ∧
  ran d' = ran d ++ due (applied d) (merge_sort nameLe files) ∧ locked d' = false.
Proof.
  intros Hnd. unfold applyMigrations, acquireMigrationLock, releaseMigrationLock, applyMigrationsLocked, mbind, ST_bind, mret, ST_ret.
  destruct (getLock _ _ d) as [r d1] eqn:E1. apply getLock_law in E1 as (Ha1 & Hr1 & _).
  destruct r as [e|[n|]]; [done| |done]. destruct (Z.eqb_spec n 1) as [->|]; [|done].
  destruct (createVersions d1) as [e0 d2] eqn:E2. apply createVersions_law in E2 as [Ha2 Hr2].
  assert (merge_sort nameLe files ≡ₚ files) as Hp by apply merge_sort_Permutation.
  destruct e0 as [e|].
  { destruct (releaseLock _ d2) as [r d3]. destruct r as [e3|[m|]]; [done| |done]. by destruct (m =? 1)%Z. }
  destruct (applyEach (merge_sort nameLe files) d2) as [e d3] eqn:E3.
  destruct (releaseLock _ d3) as [r d4] eqn:E4. apply releaseLock_law in E4 as (Ha4 & Hr4 & Hl).
  destruct e as [e|]; [by destruct r as [e5|[m|]]; [|destruct (m =? 1)%Z|]|]. destruct r as [e5|[m|]]; [done| |done].
  destruct (Z.eqb_spec m 1) as [->|]; [|done]. intros [= <-].
  apply applyEach_done in E3 as [Ha3 Hr3]; [|by rewrite Hp]. rewrite Ha4, Hr4, Ha3, Hr3, Ha2, Hr2, Ha1, Hr1.
  split_and!; [|done|auto]. intros file Hf. apply elem_of_union_l, elem_of_list_to_set. rewrite Hp.
  by apply (list_elem_of_fmap_2 (λ file, versionOf file)), list_elem_of_fmap_2.
Qed.
End Applying.

(** ** Connections (client.go) *)
Definition second : Z := 1000000000.
Definition DefaultConnectTimeout : Z := 5 * second.
Definition DefaultReadTimeout : Z := 10 * second.
Definition DefaultWriteTimeout : Z := 10 * second.
Definition DefaultMaxOpenConns : Z := 25.
Definition DefaultMaxIdleConns : Z := 5.
Definition DefaultConnMaxLifetime : Z := 300 * second.
Definition DefaultWatchPollInterval : Z := 100000000.
Record mysqlConnectionSettings := { maxOpenConns : Z; maxIdleConns : Z; connMaxLifetime : Z; watchPollInterval : Z }.
Definition positiveOr (v fallback : Z) : Z := if (0 <? v)%Z then v else fallback.
Definition mysqlConnectionSettingsFromConfig (cfg : StoreConfig) : mysqlConnectionSettings :=
  {| maxOpenConns := positiveOr (MySQLMaxOpenConns cfg) DefaultMaxOpenConns;
     maxIdleConns := positiveOr (MySQLMaxIdleConns cfg) DefaultMaxIdleConns;
     connMaxLifetime := positiveOr (MySQLConnMaxLifetime cfg) DefaultConnMaxLifetime;
     watchPollInterval := positiveOr (MySQLWatchPollInterval cfg) DefaultWatchPollInterval |}.

(** The files of certificates, the driver's registry of TLS configurations, and the
    first bytes of a digest, in hexadecimal. *)
Record TLSConfig := { ServerName : string; RootCAs : option string; Certificate : option (string * string) }.
Class TLSFiles (T : Type) := {
  rootCAPool : string → ST T error;
  LoadX509KeyPair : string → string → ST T error;
  RegisterTLSConfig : string → TLSConfig → ST T error;
  sumHex : string → string;
}.
Section Connection.
Context {T : Type} `{!TLSFiles T}.
Definition nul : string := String.String Ascii.zero "".
Definition joinWith (sep : string) (l : list string) : string :=
  match l with [] => "" | s :: l => s +:+ String.concat "" ((λ s, sep +:+ s) <$> l) end.
Definition mysqlCustomTLSConfigName (cfg : StoreConfig) : string :=
  "arca-lb-" +:+ sumHex (joinWith nul [MySQLHost cfg; MySQLTLSServerName cfg; MySQLTLSCAFile cfg; MySQLTLSCertFile cfg; MySQLTLSKeyFile cfg]).
Definition registerMySQLCustomTLSConfig (cfg : StoreConfig) : ST T (err + string) :=
  let serverName := if bool_decide (MySQLTLSServerName cfg ≠ "") then MySQLTLSServerName cfg else MySQLHost cfg in
  ca ← (if bool_decide (MySQLTLSCAFile cfg ≠ "") then rootCAPool (MySQLTLSCAFile cfg) else mret None);
  match ca with
  | Some e => mret (inl e)
  | None =>
      let cert := MySQLTLSCertFile cfg in
      let key := MySQLTLSKeyFile cfg in
      let neither := bool_decide (cert = "") && bool_decide (key = "") in
      if negb neither && (bool_decide (cert = "") || bool_decide (key = ""))
      then mret (inl (ErrMsg "MySQL TLS client certificate and key must both be set"))
      else
        loaded ← (if neither then mret None else LoadX509KeyPair cert key);
        match loaded with
        | Some e => mret (inl (errorf "failed to load MySQL TLS client certificate: " e))
        | None =>
            let name := mysqlCustomTLSConfigName cfg in
            e ← RegisterTLSConfig name
                  {| ServerName := serverName;
                     RootCAs := if bool_decide (MySQLTLSCAFile cfg ≠ "") then Some (MySQLTLSCAFile cfg) else None;
                     Certificate := if neither then None else Some (cert, key) |};
            mret (match e with Some e => inl (errorf "failed to register MySQL TLS config: " e) | None => inr name end)
        end
  end.
Definition mysqlTLSMode (cfg : StoreConfig) : ST T (err + string) :=
  let mode := Api.lower (MySQLTLSMode cfg) in
  if bool_decide (mode = "") then mret (inr "")
  else if bool_decide (mode ∈ ["false"; "true"; "skip-verify"; "preferred"]) then mret (inr mode)
  else if bool_decide (mode = "custom") then registerMySQLCustomTLSConfig cfg
  else mret (inl (ErrMsg ("invalid MySQL TLS mode: " +:+ MySQLTLSMode cfg))).
(** The driver's configuration, before it is formatted. *)
Record driverConfig := {
  User : string; Passwd : string; NetName : string; Addr : string; DBName : string; TLSName : string;
  Timeout : Z; ReadTimeout : Z; WriteTimeout : Z; Params : list (string * string);
}.
Definition mysqlDSN (cfg : StoreConfig) : ST T (err + driverConfig) :=
  tlsMode ← mysqlTLSMode cfg;
  mret (match tlsMode with
        | inl e => inl e
        | inr tlsMode =>
            inr {| User := MySQLUser cfg; Passwd := MySQLPassword cfg; NetName := "tcp";
                   Addr := MySQLHost cfg +:+ ":" +:+ pretty (MySQLPort cfg); DBName := MySQLDatabase cfg; TLSName := tlsMode;
                   Timeout := DefaultConnectTimeout; ReadTimeout := DefaultReadTimeout; WriteTimeout := DefaultWriteTimeout;
                   Params := [("charset", "utf8mb4"); ("parseTime", "True"); ("loc", "UTC")] |}
        end).

(** A configuration that the controller has validated is never refused for its TLS
    mode: only certificate files and the driver can fail, and only for custom ones. *)
Lemma validated_mode (c : Config) (t : T) e t' :
  validateMySQLTLSConfig (MySQL (DataStore c)) = None → ds_Type (DataStore c) = "mysql" →
  mysqlTLSMode (ToDataStoreConfig c) t = (inl e, t') → MySQLTLSMode (ToDataStoreConfig c) = "custom".
Proof.
  intros Hv Ht. unfold ToDataStoreConfig, mysqlTLSMode. rewrite Ht. simpl. set (mode := s_TLSMode (MySQL (DataStore c))).
  assert (mode ∈ [""; "false"; "true"; "skip-verify"; "preferred"; "custom"]) as Hm.
  { unfold validateMySQLTLSConfig, Text.firstOf, Text.refuse in Hv. simpl in Hv. fold mode in Hv.
    case_bool_decide as Hm; [exact Hm|done]. }
  repeat (apply elem_of_cons in Hm as [->|Hm]; [try done; vm_compute; intros [=]|]). by apply elem_of_nil in Hm.
Qed.
End Connection.

(** ** A connection in memory *)
Module MigrationExamples.
Record connection := { versions : gset string; statements : list string; lockHeld : bool }.
#[local] Instance memory : MigrationDB connection := {|
  getLock _ _ := λ d, (inr (Some 1%Z), {| versions := versions d; statements := statements d; lockHeld := true |});
  releaseLock _ := λ d, (inr (Some (if lockHeld d then 1 else 0)%Z), {| versions := versions d; statements := statements d; lockHeld := false |});
  createVersions := λ d, (None, d);
  countVersion v := λ d, (inr (if bool_decide (v ∈ versions d) then 1 else 0)%Z, d);
  execSQL s := λ d, (None, {| versions := versions d; statements := statements d ++ [s]; lockHeld := lockHeld d |});
  recordVersion v := λ d, (None, {| versions := {[v]} ∪ versions d; statements := statements d; lockHeld := lockHeld d |});
|}.
#[local] Instance memory_laws : MigrationLaws connection.
Proof.
  refine {| applied := versions; ran := statements; locked := lockHeld |}.
  - by intros name t d r d' [= <- <-].
  - by intros name d r d' [= <- <-].
  - by intros d e d' [= <- <-].
  - intros v d r d' [= <- <-]. split_and!; [done..|]. by intros n [= <-].
  - by intros s d e d' [= <- <-].
  - by intros v d e d' [= <- <-].
Qed.
Definition files : list (string * string) :=
  [("migrations/002_fall.sql", "ALTER TABLE h MODIFY f INT;"); ("migrations/001_init.sql", " CREATE TABLE h (f INT DEFAULT 'a;b'); ; INSERT INTO m VALUES (1)")].
Example statements_split : migrationStatements " CREATE TABLE h (f INT DEFAULT 'a;b'); ; INSERT INTO m VALUES (1)" =
  ["CREATE TABLE h (f INT DEFAULT 'a;b')"; "INSERT INTO m VALUES (1)"].
Proof. vm_compute. reflexivity. Qed.
Example migrated :
  let d := {| versions := {["002_fall"]}; statements := []; lockHeld := false |} in
  (applyMigrations files d).1 = None ∧
  statements (applyMigrations files d).2 = ["CREATE TABLE h (f INT DEFAULT 'a;b')"; "INSERT INTO m VALUES (1)"].
Proof. split; vm_compute; reflexivity. Qed.
End MigrationExamples.
End MysqlClient.
