(* ===== verification/EtcdWatch.v ===== *)
(** * The watch of the etcd store (internal/common/datastore/etcd/watch.go)

    The goroutine of a watch, as a tree of what it does: it opens two watches, takes
    what they deliver, reads the revision and sends events.  It runs against the store of
    [EtcdSafety], on which any number of clients work: every change of a key becomes an
    event of the watches that are open, in the order of the revisions. *)

From Stdlib Require Import SpecFloat.
From stdpp Require Import base tactics list gmap strings pretty relations.
From S2P Require Import Prelude Types Net Store Validation Duration Config Models Etcd EtcdSafety Sync.

Module EtcdWatch.
Import Models Validation Etcd SyncService.

(** ** The events of the client *)
Inductive EventType := EventTypePut | EventTypeDelete.
Record Event := { e_Type : EventType; e_Key : string; e_Value : string; e_CreateRevision : Z; e_ModRevision : Z }.
(** [Event.IsCreate] *)
Definition IsCreate (event : Event) : bool :=
  match e_Type event with EventTypePut => (e_CreateRevision event =? e_ModRevision event)%Z | EventTypeDelete => false end.
(** The watch of the virtual IPs and that of the backends; what a [select] of the loop
    chose: a closed channel, or a response, which has an error or events. *)
Inductive kind := VIPs | Backends.
#[global] Instance KV_eq_dec : EqDecision KV.
Proof. solve_decision. Defined.
#[global] Instance kind_eq_dec : EqDecision kind.
Proof. solve_decision. Defined.
Inductive selected := ContextDone | Received (k : kind) (response : option (err + list Event)).

Inductive watcher (A : Type) : Type :=
  | Ret (a : A)
  | WatchPrefix (k : kind) (prefix : string) (c : unit → watcher A)
  | Select (c : selected → watcher A)
  | ReadRevision (q : prog (err + Z)) (c : err + Z → watcher A)
  | SendWatchEvent (event : WatchEvent) (c : bool → watcher A).
Arguments Ret {A}. Arguments WatchPrefix {A}. Arguments Select {A}. Arguments ReadRevision {A}. Arguments SendWatchEvent {A}.
Fixpoint bindW {A B} (m : watcher A) (f : A → watcher B) : watcher B :=
  match m with
  | Ret a => f a
  | WatchPrefix k p c => WatchPrefix k p (λ r, bindW (c r) f)
  | Select c => Select (λ r, bindW (c r) f)
  | ReadRevision q c => ReadRevision q (λ r, bindW (c r) f)
  | SendWatchEvent e c => SendWatchEvent e (λ r, bindW (c r) f)
  end.
#[global] Instance watcher_ret : MRet watcher := λ A a, Ret a.
#[global] Instance watcher_bind : MBind watcher := λ A B f m, bindW m f.

(** ** The goroutine *)
Section Goroutine.
Context {CV : Codec VIP} {CB : Codec Backend}.
Variable keyPrefix : string.

Definition extractVIPIDFromKey (key prefix : string) : string := trimPrefix prefix key.
Definition backendsPrefix : string := keyPrefix +:+ "/backends/".
(** The virtual IP and the backend of a key. *)
Definition extractBackendIDsFromKey (key : string) : string * string :=
  match splitOn 47 (bytes_of (trimPrefix backendsPrefix key)) with
  | vipID :: backendID :: _ => (string_of vipID, string_of backendID)
  | _ => ("", "")
  end.

Definition withRevision (f : Z → WatchEvent) : watcher (bool * error) :=
  ReadRevision (Etcd.GetRevision keyPrefix) (λ revision,
    match revision with
    | inl e => mret (true, Some (errorf "failed to get revision: " e))
    | inr revision => SendWatchEvent (f revision) (λ sent, mret (sent, None))
    end).
Definition vipEvent (type : WatchEventType) (vip : VIP) (revision : Z) : WatchEvent :=
  {| we_Type := type; we_Revision := revision; we_VIP := Some vip; we_Backend := None; we_Error := None |}.
Definition backendEvent (type : WatchEventType) (backend : Backend) (revision : Z) : WatchEvent :=
  {| we_Type := type; we_Revision := revision; we_VIP := None; we_Backend := Some backend; we_Error := None |}.
(** Whether the watch goes on, and an error. *)
Definition handleVIPEvent (event : Event) : watcher (bool * error) :=
  match e_Type event with
  | EventTypePut =>
      match unmarshal (e_Value event) with
      | inl e => mret (true, Some (errorf "failed to unmarshal VIP: " e))
      | inr vip => withRevision (vipEvent (if IsCreate event then EventTypeVIPCreated else EventTypeVIPUpdated) vip)
      end
  | EventTypeDelete =>
      withRevision (vipEvent EventTypeVIPDeleted (emptyVIP (extractVIPIDFromKey (e_Key event) (vipPrefix keyPrefix))))
  end.
Definition handleBackendEvent (event : Event) : watcher (bool * error) :=
  match e_Type event with
  | EventTypePut =>
      match unmarshal (e_Value event) with
      | inl e => mret (true, Some (errorf "failed to unmarshal backend: " e))
      | inr backend => withRevision (backendEvent (if IsCreate event then EventTypeBackendAdded else EventTypeBackendUpdated) backend)
      end
  | EventTypeDelete =>
      let '(vipID, backendID) := extractBackendIDsFromKey (e_Key event) in
      withRevision (backendEvent EventTypeBackendDeleted (emptyBackend backendID vipID))
  end.

Definition handleEvent (k : kind) : Event → watcher (bool * error) :=
  match k with VIPs => handleVIPEvent | Backends => handleBackendEvent end.
Definition name (k : kind) : string := match k with VIPs => "VIP" | Backends => "backend" end.
Definition sendError (e : err) : watcher bool := SendWatchEvent (errorEvent e) mret.
(** The events of a response; [false] ends the watch. *)
Fixpoint handleEvents (k : kind) (events : list Event) : watcher bool :=
  match events with
  | [] => mret true
  | event :: events =>
      r ← handleEvent k event;
      match r with
      | (false, _) => mret false
      | (true, None) => handleEvents k events
      | (true, Some e) =>
          sent ← sendError (errorf ("failed to handle " +:+ name k +:+ " event: ") e);
          if sent : bool then handleEvents k events else mret false
      end
  end.
Definition received (k : kind) (response : option (err + list Event)) : watcher bool :=
  match response with
  | None => _ ← sendError (ErrMsg (name k +:+ " watch channel closed")); mret false
  | Some (inl e) => sendError (errorf (name k +:+ " watch error: ") e)
  | Some (inr events) => handleEvents k events
  end.
(** So many rounds of the loop. *)
Fixpoint watchLoop (rounds : nat) : watcher unit :=
  match rounds with
  | 0 => mret tt
  | S rounds =>
      Select (λ s,
        match s with
        | ContextDone => mret tt
        | Received k response => continue ← received k response; if continue : bool then watchLoop rounds else mret tt
        end)
  end.
Definition prefixOf (k : kind) : string := match k with VIPs => vipPrefix keyPrefix | Backends => backendsPrefix end.
Definition Watch (rounds : nat) : watcher unit :=
  WatchPrefix VIPs (prefixOf VIPs) (λ _, WatchPrefix Backends (prefixOf Backends) (λ _, watchLoop rounds)).
End Goroutine.

(** ** The store and its watches

    A watch has the keys as they were when it opened, the events since then, each with
    the revision number the store had once the change was there, and how many of them
    have been delivered. *)
Section System.
Context {G : HttpGuts} {CV : Codec VIP} {CB : Codec Backend} {RC : EtcdSafety.ResourceCodecs}.
Variable outOfRange : spec_float → Z.
Variable keyPrefix : string.
Variable rounds : nat.
Context {E : Type} {HE : Etcd E} {LE : EtcdSafety.EtcdLaws E}.
#[local] Abbreviation cstep := (EtcdSafety.cstep outOfRange keyPrefix rounds (E := E)).
#[local] Abbreviation vipKey := (vipKey keyPrefix).
#[local] Abbreviation backendKey := (backendKey keyPrefix).
#[local] Abbreviation prefixOf := (prefixOf keyPrefix).
Definition machine : Type := E * list (prog (err + EtcdSafety.answer)).
Definition number (m : machine) : Z := EtcdSafety.revnum keyPrefix (EtcdSafety.stateOf m.1).

(** What a step of the store makes the watches see: one event for every key it changed,
    with the value the key has now; a key that was not there is created. *)
Record changes (s s' : gmap string KV) (events : list Event) : Prop := {
  ch_once : NoDup (e_Key <$> events);
  ch_put : ∀ ev, ev ∈ events → e_Type ev = EventTypePut →
    (∃ kv, s' !! e_Key ev = Some kv ∧ Value kv = e_Value ev) ∧ IsCreate ev = bool_decide (s !! e_Key ev = None);
  ch_delete : ∀ ev, ev ∈ events → e_Type ev = EventTypeDelete → is_Some (s !! e_Key ev) ∧ s' !! e_Key ev = None;
  ch_all : ∀ k, s !! k ≠ s' !! k → k ∈ e_Key <$> events;
}.
Record stream := { base : gmap string KV; log : list (Event * Z); taken : nat }.
Definition extend (k : kind) (events : list Event) (n : Z) (s : stream) : stream :=
  {| base := base s; taken := taken s;
     log := log s ++ ((λ ev, (ev, n)) <$> filter (λ ev, hasPrefixS (prefixOf k) (e_Key ev) = true) events) |}.
Record sys := { store : machine; streams : kind → option stream; goroutine : watcher unit; sent : list WatchEvent }.
Definition withStream (σ : sys) (k : kind) (s : stream) (w : watcher unit) : sys :=
  {| store := store σ; streams := λ k', if decide (k' = k) then Some s else streams σ k'; goroutine := w; sent := sent σ |}.
Definition withWatcher (σ : sys) (w : watcher unit) : sys :=
  {| store := store σ; streams := streams σ; goroutine := w; sent := sent σ |}.

(** A client's step; a step of the goroutine, which can find its context ended and a watch
    failed or closed at any time. *)
Inductive step : sys → sys → Prop :=
  | step_client σ m events :
      cstep (store σ) m → changes (view (store σ).1) (view m.1) events →
      step σ {| store := m; streams := λ k, extend k events (number m) <$> streams σ k; goroutine := goroutine σ; sent := sent σ |}
  | step_open σ k p c :
      goroutine σ = WatchPrefix k p c →
      step σ (withStream σ k {| base := view (store σ).1; log := []; taken := 0 |} (c tt))
  | step_done σ c : goroutine σ = Select c → step σ (withWatcher σ (c ContextDone))
  | step_receive σ c k s n :
      goroutine σ = Select c → streams σ k = Some s →
      let batch := take n (drop (taken s) (log s)) in
      step σ (withStream σ k {| base := base s; log := log s; taken := taken s + length batch |}
                (c (Received k (Some (inr batch.*1)))))
  | step_failed σ c k e : goroutine σ = Select c → step σ (withWatcher σ (c (Received k (Some (inl e)))))
  | step_closed σ c k : goroutine σ = Select c → step σ (withWatcher σ (c (Received k None)))
  | step_get σ key q c r e' :
      goroutine σ = ReadRevision (Get key q) c → etcdGet key (store σ).1 = (r, e') →
      step σ {| store := (e', (store σ).2); streams := streams σ; goroutine := ReadRevision (q r) c; sent := sent σ |}
  | step_read σ r c : goroutine σ = ReadRevision (Etcd.Ret r) c → step σ (withWatcher σ (c r))
  | step_sent σ w c :
      goroutine σ = SendWatchEvent w c →
      step σ {| store := store σ; streams := streams σ; goroutine := c true; sent := sent σ ++ [w] |}
  | step_unsent σ w c : goroutine σ = SendWatchEvent w c → step σ (withWatcher σ (c false)).
Definition start (m : machine) (n : nat) : sys :=
  {| store := m; streams := λ _, None; goroutine := Watch keyPrefix n; sent := [] |}.
Definition waiting (σ : sys) : Prop := ∃ c, goroutine σ = Select c.

(** ** What is delivered *)
Inductive action := Created | Updated | Deleted.
Definition actionOf (type : WatchEventType) : option (kind * action) :=
  match type with
  | EventTypeVIPCreated => Some (VIPs, Created)
  | EventTypeVIPUpdated => Some (VIPs, Updated)
  | EventTypeVIPDeleted => Some (VIPs, Deleted)
  | EventTypeBackendAdded => Some (Backends, Created)
  | EventTypeBackendUpdated => Some (Backends, Updated)
  | EventTypeBackendDeleted => Some (Backends, Deleted)
  | EventTypeError => None
  end.
Definition resource : Type := VIP + Backend.
Definition keyOf (r : resource) : string :=
  match r with inl vip => vipKey (v_ID vip) | inr b => backendKey (b_VIPID b) (b_ID b) end.
Definition carried (k : kind) (w : WatchEvent) : option resource :=
  match k with VIPs => inl <$> we_VIP w | Backends => inr <$> we_Backend w end.
Definition decode (k : kind) (value : string) : option resource :=
  match k with
  | VIPs => match unmarshal value with inr vip => Some (inl vip) | inl _ => None end
  | Backends => match unmarshal value with inr b => Some (inr b) | inl _ => None end
  end.
(** A change of a key, with the revision number the store had then, and an event that
    reports it: the action, the resource now stored, or the identity of the one deleted,
    and a revision that is not older. *)
Definition change : Type := kind * (Event * Z).
Definition reports (x : change) (w : WatchEvent) : Prop :=
  let '(k, (ev, n)) := x in
  (n <= we_Revision w)%Z ∧ we_Error w = None ∧
  ∃ r, carried k w = Some r ∧ keyOf r = e_Key ev ∧
    match e_Type ev with
    | EventTypePut => decode k (e_Value ev) = Some r ∧ actionOf (we_Type w) = Some (k, if IsCreate ev then Created else Updated)
    | EventTypeDelete => actionOf (we_Type w) = Some (k, Deleted)
    end.
Inductive delivers : list change → list WatchEvent → Prop :=
  | delivers_nil : delivers [] []
  | delivers_report x w l ws : delivers l ws → reports x w → delivers (l ++ [x]) (ws ++ [w])
  | delivers_failed x e l ws : delivers l ws → delivers (l ++ [x]) (ws ++ [errorEvent e])
  | delivers_error e l ws : delivers l ws → delivers l (ws ++ [errorEvent e]).
Definition ofKind (k : kind) (l : list change) : list (Event * Z) := (filter (λ x : change, x.1 = k) l).*2.

(** *** A table kept by the events, by the keys of the store

    It does not take the creation of what it has, nor an update or a deletion of what it
    does not have. *)
Definition applyWatchEvent (k : kind) (t : option (gmap string resource)) (w : WatchEvent) : option (gmap string resource) :=
  t ← t;
  match actionOf (we_Type w), carried k w with
  | Some (k', a), Some r =>
      if decide (k' = k) then
        match a, t !! keyOf r with
        | Created, None | Updated, Some _ => Some (<[keyOf r := r]> t)
        | Deleted, Some _ => Some (delete (keyOf r) t)
        | _, _ => None
        end
      else Some t
  | _, _ => Some t
  end.
(** The keys of a kind and their values, and their resources. *)
Definition under (k : kind) (s : gmap string KV) : gmap string string :=
  Value <$> filter (λ p, hasPrefixS (prefixOf k) p.1 = true) s.
Definition resources (k : kind) (s : gmap string KV) : gmap string resource := omap (decode k) (under k s).

End System.
End EtcdWatch.
