(* ===== verification/EtcdWatchSafety.v ===== *)
(** * The watch of the etcd store, proved

    What the goroutine of [EtcdWatch] sends: every change of a virtual IP or of a
    backend is reported once, in order, or replaced by an error; a table kept by what is
    sent is the store. *)

From Stdlib Require Import SpecFloat.
From stdpp Require Import base tactics list gmap strings pretty relations.
From S2P Require Import Prelude Types Net Store Validation Duration Config Models Etcd EtcdSafety Sync EtcdWatch.

Module EtcdWatchSafety.
Import Models Validation Etcd EtcdSafety SyncService EtcdWatch.

Section Watching.
Context {G : HttpGuts} {CV : Codec VIP} {CB : Codec Backend} {RC : ResourceCodecs}.
Variable outOfRange : spec_float → Z.
Variable keyPrefix : string.
Variable rounds : nat.
Context {E : Type} {HE : Etcd E} {LE : EtcdLaws E}.
#[local] Abbreviation cstep := (cstep outOfRange keyPrefix rounds (E := E)).
#[local] Abbreviation vipKey := (vipKey keyPrefix).
#[local] Abbreviation backendKey := (backendKey keyPrefix).
#[local] Abbreviation prefixOf := (prefixOf keyPrefix).
#[local] Abbreviation under := (under keyPrefix).
#[local] Abbreviation Inv := (Inv keyPrefix).
#[local] Abbreviation rely := (rely keyPrefix).
#[local] Abbreviation revnum := (revnum keyPrefix).
#[local] Abbreviation safe := (safe keyPrefix).
#[local] Abbreviation keyOf := (keyOf keyPrefix).
#[local] Abbreviation reports := (reports keyPrefix).
#[local] Abbreviation delivers := (delivers keyPrefix).

(** ** Values under the events of the store *)
Definition applyEvent (t : option (gmap string string)) (ev : Event) : option (gmap string string) :=
  t ← t;
  match e_Type ev, t !! e_Key ev with
  | EventTypePut, None => if IsCreate ev then Some (<[e_Key ev := e_Value ev]> t) else None
  | EventTypePut, Some _ => if IsCreate ev then None else Some (<[e_Key ev := e_Value ev]> t)
  | EventTypeDelete, Some _ => Some (delete (e_Key ev) t)
  | EventTypeDelete, None => None
  end.
Definition replay (t : gmap string string) (l : list Event) : option (gmap string string) := foldl applyEvent (Some t) l.

Lemma under_lookup k s key : under k s !! key = if hasPrefixS (prefixOf k) key then Value <$> s !! key else None.
Proof.
  unfold under. rewrite lookup_fmap. destruct (hasPrefixS (prefixOf k) key) eqn:Hp.
  - f_equal. destruct (s !! key) as [kv|] eqn:Hk; [by apply map_lookup_filter_Some_2|apply map_lookup_filter_None_2; auto].
  - rewrite map_lookup_filter_None_2; [done|]. right. intros kv _. simpl. congruence.
Qed.
Lemma replay_changes k s s' evs : changes s s' evs →
  replay (under k s) (filter (λ ev, hasPrefixS (prefixOf k) (e_Key ev) = true) evs) = Some (under k s').
Proof.
  intros [Hn Hp Hd Ha].
  assert (∀ c, (∀ key, key ∈ e_Key <$> evs → c !! key = under k s !! key) →
    (∀ key, key ∉ e_Key <$> evs → c !! key = under k s' !! key) →
    replay c (filter (λ ev, hasPrefixS (prefixOf k) (e_Key ev) = true) evs) = Some (under k s')) as Hgo.
  { clear Ha. unfold replay. revert Hn Hp Hd. induction evs as [|ev evs IH]; intros Hn Hp Hd c Hin Hout.
    - simpl. f_equal. apply map_eq. intros key. apply Hout. by apply not_elem_of_nil.
    - rewrite fmap_cons in Hn. apply NoDup_cons in Hn as [Hne Hn]. rewrite filter_cons.
      assert (∀ c', (∀ key, key ≠ e_Key ev → c' !! key = c !! key) → c' !! e_Key ev = under k s' !! e_Key ev →
        foldl applyEvent (Some c') (filter (λ ev, hasPrefixS (prefixOf k) (e_Key ev) = true) evs) = Some (under k s')) as Hnext.
      { intros c' Hsame Hev. apply IH; [done|intros; apply Hp; [by right|done]|intros; apply Hd; [by right|done]| |].
        - intros key Hkey. rewrite Hsame by congruence. apply Hin. by right.
        - intros key Hkey. destruct (decide (key = e_Key ev)) as [->|Hk]; [done|]. rewrite Hsame by done. apply Hout.
          rewrite fmap_cons, not_elem_of_cons. done. }
      specialize (Hin (e_Key ev) (list_elem_of_here _ _)). specialize (Hp ev). specialize (Hd ev).
      rewrite under_lookup in Hin. case_decide as Hpre.
      + rewrite Hpre in Hin. simpl. rewrite Hin. destruct (e_Type ev) eqn:Ht.
        * destruct Hp as [(kv & Hkv & Hval) Hcr]; [by left|done|]. rewrite Hcr.
          assert (under k s' !! e_Key ev = Some (e_Value ev)) as Hu by (by rewrite under_lookup, Hpre, Hkv; simpl; rewrite Hval).
          destruct (s !! e_Key ev) as [kv0|]; simpl; apply Hnext;
            try (intros; by rewrite lookup_insert_ne by auto); by rewrite lookup_insert_eq.
        * destruct Hd as [[kv Hkv] Hg]; [by left|done|]. rewrite Hkv. simpl.
          apply Hnext; [intros; by rewrite lookup_delete_ne by auto|]. by rewrite lookup_delete_eq, under_lookup, Hpre, Hg.
      + apply Hnext; [done|]. apply not_true_is_false in Hpre. by rewrite Hin, under_lookup, Hpre. }
  apply Hgo; [done|]. intros key Hkey. rewrite !under_lookup. destruct (decide (s !! key = s' !! key)) as [->|Hne]; [done|].
  by destruct Hkey; apply Ha.
Qed.

(** ** Where keys are

    Under the prefix of the backends there are only keys of backends, because no program
    puts any other. *)
Definition placed (k : string) : Prop :=
  hasPrefixS (prefixOf Backends) k = true →
  ∃ vid bid, k = backendKey vid bid ∧ Store.noSlash vid = true ∧ Store.noSlash bid = true.
Fixpoint puts {A} (p : prog A) : Prop :=
  match p with
  | Etcd.Ret _ => True
  | Get _ c => ∀ r, puts (c r)
  | ListPrefix _ c => ∀ r, puts (c r)
  | Txn _ ops c => (∀ k v, OpPut k v ∈ ops → placed k) ∧ ∀ r, puts (c r)
  | Now c => ∀ t, puts (c t)
  | NewUUID c => ∀ u, Store.noSlash u = true → puts (c u)
  end.
Lemma puts_bind {A B} (m : prog A) (f : A → prog B) : puts m → (∀ a, puts (f a)) → puts (bindP m f).
Proof.
  intros Hm Hf. induction m as [a|k c IH|p c IH|cmps ops c IH|c IH|c IH]; simpl in *; [apply Hf|auto..].
  destruct Hm. split; auto.
Qed.
Lemma puts_try {A B} (m : prog (err + A)) (f : A → prog (err + B)) : puts m → (∀ a, puts (f a)) → puts (try m f).
Proof. intros Hm Hf. apply puts_bind; [done|]. by intros [e|a]; [|apply Hf]. Qed.
Lemma puts_wrap {A} prefix (m : prog (err + A)) : puts m → puts (wrapping prefix m).
Proof. intros Hm. by apply puts_bind. Qed.
Lemma puts_check {B} e (f : prog (err + B)) : (e = None → puts f) → puts (check e f).
Proof. destruct e; simpl; auto. Qed.
Ltac elsewhere := intros [t Ht]%hasPrefixS_spec; revert Ht;
  unfold EtcdWatch.prefixOf, backendsPrefix, Etcd.vipKey, Etcd.vipPrefix, Etcd.revisionKey, Etcd.backendIndexKey, Etcd.vipTupleIndexKey, Etcd.backendIPIndexKey;
  rewrite ?app_assoc_s; intros ?%app_inj_l; discriminate.
Lemma placed_vip id : placed (vipKey id).
Proof. elsewhere. Qed.
Lemma placed_revision : placed (revisionKey keyPrefix).
Proof. elsewhere. Qed.
Lemma placed_index id : placed (backendIndexKey keyPrefix id).
Proof. elsewhere. Qed.
Lemma placed_tuple vip : placed (vipTupleIndexKey keyPrefix vip).
Proof. elsewhere. Qed.
Lemma placed_ip vid ip : placed (backendIPIndexKey keyPrefix vid ip).
Proof. elsewhere. Qed.
Lemma placed_backend vid bid : Store.noSlash vid = true → Store.noSlash bid = true → placed (backendKey vid bid).
Proof. intros ?? _. by exists vid, bid. Qed.
#[local] Hint Resolve placed_vip placed_revision placed_index placed_tuple placed_ip placed_backend : core.
Definition putsPlaced (ops : list Op) : Prop := ∀ k v, OpPut k v ∈ ops → placed k.
Lemma putsPlaced_nil : putsPlaced [].
Proof. by intros k v ?%elem_of_nil. Qed.
Lemma putsPlaced_put k v ops : placed k → putsPlaced ops → putsPlaced (OpPut k v :: ops).
Proof. intros Hk Ho k' v' [[= -> ->]|?]%elem_of_cons; [done|by eapply Ho]. Qed.
Lemma putsPlaced_delete k r ops : putsPlaced ops → putsPlaced (OpDelete k r :: ops).
Proof. intros Ho k' v' [[=]|?]%elem_of_cons. by eapply Ho. Qed.
Lemma putsPlaced_get k ops : putsPlaced ops → putsPlaced (OpGet k :: ops).
Proof. intros Ho k' v' [[=]|?]%elem_of_cons. by eapply Ho. Qed.
Lemma putsPlaced_app o o' : putsPlaced o → putsPlaced o' → putsPlaced (o ++ o').
Proof. intros H H' k v [?|?]%elem_of_app; [by eapply H|by eapply H']. Qed.
#[local] Hint Resolve putsPlaced_nil putsPlaced_put putsPlaced_delete putsPlaced_get putsPlaced_app : core.
Lemma puts_txn cmps ops : putsPlaced ops → puts (Txn cmps ops Etcd.Ret).
Proof. done. Qed.
Lemma puts_lift {A} (r : err + A) : puts (lift r).
Proof. done. Qed.
#[local] Hint Resolve puts_txn puts_lift : core.
(** Programs of reads and of writes that are placed. *)
Ltac putting := repeat (cbv zeta; lazymatch goal with
  | |- puts (try _ _) => apply puts_try; [|intros ?]
  | |- puts (wrapping _ _) => apply puts_wrap
  | |- puts (check _ _) => apply puts_check; intros ?
  | |- puts (mret _) => done
  | |- puts (lift _) => done
  | |- puts (Get _ _) => done
  | |- puts (ListPrefix _ _) => done
  | |- puts (Txn _ _ _) => apply puts_txn; unfold deleteVIPOps, updateVIPOps, addBackendOps, updateBackendOps, deleteBackendOps; repeat case_match; cbn [app]; auto 10
  | |- puts (NewUUID _) => intros ? ?
  | |- puts (Now _) => intros ?
  | |- puts (if ?b then _ else _) => destruct b
  | |- puts (match ?x with _ => _ end) => destruct x
  end).
Lemma puts_revisionValue : puts (getRevisionValue keyPrefix).
Proof. unfold getRevisionValue. putting. Qed.
Lemma puts_GetRevision : puts (Etcd.GetRevision keyPrefix).
Proof. apply puts_try; [apply puts_revisionValue|done]. Qed.
Lemma puts_increment n : puts (IncrementRevision keyPrefix n).
Proof. induction n as [|n IH]; cbn [IncrementRevision]; [done|]. apply puts_try; [apply puts_revisionValue|intros ?]. putting; auto. Qed.
Lemma puts_failed checks : puts (firstFailedEtcdTxnCheck keyPrefix checks).
Proof. induction checks as [|[cmp e] checks IH]; cbn [firstFailedEtcdTxnCheck]; putting; auto. Qed.
Lemma puts_commit n checks ops : putsPlaced ops → puts (commitWithRevision keyPrefix n checks ops).
Proof.
  intros Ho. induction n as [|n IH]; cbn [commitWithRevision]; [done|]. apply puts_try; [apply puts_revisionValue|intros ?].
  putting; auto using puts_failed.
Qed.
Lemma puts_getVIP id : puts (getVIPWithModRevision keyPrefix id).
Proof. unfold getVIPWithModRevision. putting. Qed.
Lemma puts_GetVIP id : puts (GetVIP keyPrefix id).
Proof. unfold GetVIP. putting. apply puts_getVIP. Qed.
Lemma puts_ListVIPs : puts (ListVIPs keyPrefix).
Proof. unfold ListVIPs. putting. Qed.
Lemma puts_GetBackend id : puts (GetBackend keyPrefix id).
Proof. unfold GetBackend. putting. Qed.
Lemma puts_ListBackends id : puts (ListBackends keyPrefix id).
Proof. unfold ListBackends. putting. Qed.
Lemma puts_claim n key index id d r : placed index → puts (claimIndex n key index id d r).
Proof. intros Hp. induction n as [|n IH]; cbn [claimIndex]; unfold getIndexOwner; putting; auto. Qed.
#[local] Hint Resolve puts_revisionValue puts_GetRevision puts_getVIP puts_GetVIP puts_ListVIPs puts_GetBackend puts_ListBackends : core.
Lemma puts_claimVIP vip : puts (claimVIPTupleIndex keyPrefix rounds vip).
Proof. by apply puts_claim. Qed.
Lemma puts_claimBackend b : puts (claimBackendIPIndex keyPrefix rounds b).
Proof. by apply puts_claim. Qed.
Lemma puts_tuple vip : puts (checkVIPTupleAvailable keyPrefix vip).
Proof. unfold checkVIPTupleAvailable. putting; auto. Qed.
Lemma puts_ip b : puts (checkBackendIPAvailable keyPrefix b).
Proof. unfold checkBackendIPAvailable. putting; auto. Qed.
Lemma puts_deleteIPIndexes vid kvs : puts (deleteIPIndexes keyPrefix vid kvs).
Proof. induction kvs as [|[k kv] kvs IH]; cbn [deleteIPIndexes]; putting; auto. Qed.
Lemma puts_deleteIndexes vid keys : puts (deleteIndexes keyPrefix vid keys).
Proof. induction keys as [|k keys IH]; cbn [deleteIndexes]; putting; auto. Qed.
Lemma puts_cleanup vid : puts (deleteBackendIndexesForVIP keyPrefix vid).
Proof.
  unfold deleteBackendIndexesForVIP, deleteBackendIPIndexesForVIP, backendIndexKeysForVIP.
  putting; auto using puts_deleteIPIndexes, puts_deleteIndexes.
Qed.
Lemma puts_notFound {A} id (m : prog (err + A)) : puts m → puts (cleanupNotFound keyPrefix id m).
Proof. intros Hm. apply puts_bind; [done|]. intros [e|a]; [|done]. putting. apply puts_cleanup. Qed.
Lemma puts_marshal {A} `{Codec A} what (a : A) : puts (marshalling what a).
Proof. by apply puts_wrap. Qed.
#[local] Hint Resolve puts_claimVIP puts_claimBackend puts_tuple puts_ip puts_cleanup puts_notFound puts_marshal puts_commit : core.
Ltac committing := putting; auto; apply puts_commit;
  unfold deleteVIPOps, updateVIPOps, addBackendOps, updateBackendOps, deleteBackendOps, OpDeletePrefix; repeat case_match; cbn [app]; auto 10.
Lemma puts_CreateVIP vip : puts (CreateVIP outOfRange keyPrefix rounds vip).
Proof. unfold CreateVIP. committing. Qed.
Lemma puts_UpdateVIP vip : puts (UpdateVIP outOfRange keyPrefix rounds vip).
Proof. unfold UpdateVIP. committing. Qed.
Lemma puts_DeleteVIP id : puts (DeleteVIP keyPrefix rounds id).
Proof. unfold DeleteVIP. putting; auto. apply puts_notFound. committing. Qed.
Lemma puts_AddBackend b : puts (AddBackend keyPrefix rounds b).
Proof.
  unfold AddBackend. putting; auto. apply puts_commit. unfold addBackendOps.
  match goal with H : ValidateBackendForWrite b = None |- _ => destruct (ValidateBackendForWrite_ids b H) end.
  apply putsPlaced_put; auto. simpl. case_bool_decide; auto.
Qed.
Lemma puts_UpdateBackend b : puts (UpdateBackend keyPrefix rounds b).
Proof.
  unfold UpdateBackend. putting; auto. apply puts_commit. unfold updateBackendOps.
  match goal with H : ValidateBackendForWrite ?b = None |- _ => destruct (ValidateBackendForWrite_ids b H) end.
  apply putsPlaced_put; auto. case_match; cbn [app]; auto 10.
Qed.
Lemma puts_DeleteBackend id : puts (DeleteBackend keyPrefix rounds id).
Proof. unfold DeleteBackend. committing. Qed.
Lemma puts_run c : puts (EtcdSafety.run outOfRange keyPrefix rounds c).
Proof.
  destruct c; apply puts_try; try done;
    eauto using puts_increment, puts_CreateVIP, puts_UpdateVIP, puts_DeleteVIP, puts_AddBackend, puts_UpdateBackend, puts_DeleteBackend.
  all: unfold initRevision, Etcd.GetConfig; putting; auto.
Qed.

(** ** The store, with its keys in place *)
Definition inPlace (m : machine) : Prop :=
  machineOk keyPrefix m ∧ (∀ k, is_Some (view m.1 !! k) → placed k) ∧ Forall puts m.2.
Lemma applyOps_placed rev ops s : putsPlaced ops → (∀ k, is_Some (s !! k) → placed k) →
  ∀ k, is_Some (applyOps rev ops s !! k) → placed k.
Proof.
  revert s. induction ops as [|o ops IH]; intros s Ho Hs; simpl; [done|]. apply IH; [intros k v ?; by eapply Ho; right|].
  intros k. destruct o as [k' v|k' r|k']; [|intros [kv Hk%lookup_delete_Some]; eauto|apply Hs].
  destruct (decide (k' = k)) as [->|Hne]; [intros _; eapply Ho; by left|]. rewrite lookup_put_ne by done. apply Hs.
Qed.
Lemma cstep_inPlace m m' : cstep m m' → inPlace m → inPlace m' ∧ rely (stateOf m.1) (stateOf m'.1).
Proof.
  intros Hs (Hm & Hk & Hp). pose proof (cstep_ok _ _ _ _ _ Hs Hm) as Hm'.
  assert (∀ i ps (p : prog (err + answer)), Forall puts ps → puts p → Forall puts (<[i := p]> ps)) as Hins
    by (intros; by apply Forall_insert).
  destruct Hs as [e ps c Hc|e ps i k c r e' Hi He|e ps i p c r e' Hi He|e ps i cmps ops c r e' Hi He|e ps i c t Hi
    |e ps i c u Hi Hu Hau]; simpl in *; try (pose proof (Forall_lookup_1 _ _ _ _ Hp Hi) as Hputs; simpl in Hputs).
  - split; [|done]. split_and!; [done|done|]. apply Forall_app. split; [done|]. constructor; [apply puts_run|constructor].
  - destruct (get_law e k r e' He) as (Hv & Hr & _). pose proof (same_state e e' (conj Hv Hr)) as Hst.
    split; [|by rewrite Hst]. split_and!; [done|simpl; by rewrite Hv|by apply Hins].
  - destruct (list_law e p r e' He) as (Hv & Hr & _). pose proof (same_state e e' (conj Hv Hr)) as Hst.
    split; [|by rewrite Hst]. split_and!; [done|simpl; by rewrite Hv|by apply Hins].
  - destruct Hm as [Hinv Hsafe]. pose proof (Forall_lookup_1 _ _ _ _ Hsafe Hi) as Hsi. simpl in Hinv.
    destruct (txn_ok keyPrefix e cmps ops c r e' Hinv Hsi He) as (_ & Hr & _). destruct Hputs as [Ho Hc].
    split; [|done]. split_and!; [done| |by apply Hins]. pose proof (txn_law e cmps ops r e' He) as Hl. cbv zeta in Hl.
    intros k. simpl. assert (view e' = view e ∨ view e' = applyOps (revisionOf e') ops (view e)) as [->| ->];
      [|apply Hk|by apply applyOps_placed].
    destruct (forallb isRead ops); destruct r as [x|[]]; naive_solver.
  - split; [|done]. split_and!; [done|done|by apply Hins].
  - split; [|done]. split_and!; [done|done|by apply Hins, Hputs].
Qed.
Lemma get_inPlace key r (m : machine) e' : etcdGet key m.1 = (r, e') → inPlace m →
  inPlace (e', m.2) ∧ stateOf e' = stateOf m.1 ∧ (∀ v, r = inr v → v = view m.1 !! key).
Proof.
  intros He ((Hi & Hs) & Hk & Hp). destruct (get_law m.1 key r e' He) as (Hv & Hr & Hval).
  pose proof (same_state m.1 e' (conj Hv Hr)) as Hst. unfold inPlace, machineOk. simpl. rewrite Hst, Hv. auto.
Qed.

(** ** The goroutine

    What is to be dealt with is [todo]; an event that is sent reports the first of it, or
    is an error, which may stand for it. *)
Definition fits (k : kind) (ev : Event) : Prop :=
  match e_Type ev with
  | EventTypePut => ∃ r, decode k (e_Value ev) = Some r ∧ keyOf r = e_Key ev
  | EventTypeDelete =>
      match k with
      | VIPs => ∃ id, e_Key ev = vipKey id
      | Backends => ∃ vid bid, e_Key ev = backendKey vid bid ∧ Store.noSlash vid = true ∧ Store.noSlash bid = true
      end
  end.
Definition accounts (todo : list change) (w : WatchEvent) (todo' : list change) : Prop :=
  (∃ x, todo = x :: todo' ∧ reports x w) ∨ ∃ e, w = errorEvent e ∧ (todo' = todo ∨ ∃ x, todo = x :: todo').
Definition noOlder (todo : list change) (s : St) : Prop := ∀ x, x ∈ todo → (x.2.2 <= revnum s)%Z.
Fixpoint wsafe {A} (p : watcher A) (todo : list change) (Q : A → list change → Prop) : Prop :=
  match p with
  | EtcdWatch.Ret a => Q a todo
  | WatchPrefix _ _ _ => False
  | Select c =>
      todo = [] ∧ (∀ k batch, Forall (λ x, fits k x.1) batch → wsafe (c (Received k (Some (inr batch.*1)))) ((k,.) <$> batch) Q) ∧
      ∀ s, (∀ k l, s ≠ Received k (Some (inr l))) → wsafe (c s) [] Q
  | ReadRevision q c => ∀ s, Inv s → noOlder todo s → safe q (λ r _, wsafe (c r) todo Q) s
  | SendWatchEvent w c => wsafe (c false) todo Q ∧ ∃ todo', accounts todo w todo' ∧ wsafe (c true) todo' Q
  end.
Lemma wsafe_bind {A B} (m : watcher A) (f : A → watcher B) todo Q :
  wsafe m todo (λ a todo, wsafe (f a) todo Q) → wsafe (bindW m f) todo Q.
Proof.
  revert todo. induction m as [a|k p c IH|c IH|q c IH|w c IH]; intros todo; simpl; [done|done|..].
  - intros (? & Hb & Hs). split_and!; eauto.
  - intros H s Hi Hn. eapply safe_mono; [|by apply H]. simpl. auto.
  - intros (Hf & todo' & ? & Ht). split; [by apply IH|]. exists todo'. auto.
Qed.
Lemma wsafe_mono {A} (m : watcher A) todo (Q Q' : A → list change → Prop) :
  (∀ a todo, Q a todo → Q' a todo) → wsafe m todo Q → wsafe m todo Q'.
Proof.
  intros HQ. revert todo. induction m as [a|k p c IH|c IH|q c IH|w c IH]; intros todo; simpl; [apply HQ|done|..].
  - intros (? & Hb & Hs). split_and!; eauto.
  - intros H s Hi Hn. eapply safe_mono; [|by apply H]. simpl. auto.
  - intros (Hf & todo' & ? & Ht). split; [by apply IH|]. exists todo'. auto.
Qed.

(** The revision that is read is not older than the one at the start. *)
Lemma GetRevision_later (P : err + Z → Prop) s :
  Inv s → (∀ r, (∀ n, r = inr n → (revnum s <= n)%Z) → P r) → safe (Etcd.GetRevision keyPrefix) (λ r _, P r) s.
Proof.
  intros Hi HP. assert (gives keyPrefix (Etcd.GetRevision keyPrefix) (λ n s', revnum s <= n)%Z s) as Hg.
  { apply gives_try, getRevisionValue_gives. intros v s' Hr Hi' Hv. apply gives_ret; [done|]. intros n Hn.
    pose proof (rl_num keyPrefix s s' Hr) as Hle.
    assert (revnum s' = n) as <-; [|done]. destruct (revision_number keyPrefix s' v n Hi' Hv Hn) as [-> Hb].
    unfold EtcdSafety.revnum. rewrite Hv. simpl. by rewrite ParseInt_Format by (destruct Hi'; lia). }
  eapply safe_mono; [|exact Hg]. simpl. intros r s' (_ & _ & H). apply HP. exact H.
Qed.
Definition goesOn (x : change) (rest : list change) (r : bool * error) (todo : list change) : Prop :=
  match r with (false, _) => True | (true, None) => todo = rest | (true, Some _) => todo = x :: rest end.
Lemma withRevision_wsafe f x rest :
  (∀ n, (x.2.2 <= n)%Z → reports x (f n)) → wsafe (withRevision keyPrefix f) (x :: rest) (goesOn x rest).
Proof.
  intros Hf s Hi Hn. apply GetRevision_later; [done|]. intros [e|n] Hr; simpl; [done|].
  split; [done|]. exists rest. split; [|done]. left. exists x. split; [done|]. apply Hf.
  specialize (Hn x (list_elem_of_here _ _)). specialize (Hr n eq_refl). lia.
Qed.

Lemma splitOn_app a b : 47%Z ∉ a → 47%Z ∉ b → splitOn 47 (a ++ 47%Z :: b) = [a; b].
Proof.
  intros Ha Hb. assert (∀ l, 47%Z ∉ l → splitOn 47 l = [l]) as Hone.
  { induction l as [|c l IH]; intros Hl; [done|]. apply not_elem_of_cons in Hl as [Hc Hl]. simpl. rewrite IH by done.
    destruct (Z.eqb_spec c 47); [by subst|done]. }
  induction a as [|c a IH]; simpl; [by rewrite Hone|]. apply not_elem_of_cons in Ha as [Hc Ha]. rewrite IH by done.
  destruct (Z.eqb_spec c 47); [by subst|done].
Qed.
Lemma string_of_bytes s : string_of (bytes_of s) = s.
Proof. apply bytes_inj, bytes_string, bytes_byte. Qed.
Lemma extract_backend vid bid : Store.noSlash vid = true → Store.noSlash bid = true →
  extractBackendIDsFromKey keyPrefix (backendKey vid bid) = (vid, bid).
Proof.
  intros Hv Hb. unfold extractBackendIDsFromKey. replace (backendKey vid bid) with (backendsPrefix keyPrefix +:+ (vid +:+ "/" +:+ bid)).
  - rewrite trimPrefix_app, !bytes_app. change (bytes_of "/") with [47%Z]. simpl.
    rewrite splitOn_app by (by apply noSlash_bytes). by rewrite !string_of_bytes.
  - unfold backendsPrefix, Etcd.backendKey. by rewrite !app_assoc_s.
Qed.
Lemma extract_vip id : extractVIPIDFromKey (vipKey id) (vipPrefix keyPrefix) = id.
Proof.
  unfold extractVIPIDFromKey. replace (vipKey id) with (vipPrefix keyPrefix +:+ id); [apply trimPrefix_app|].
  unfold vipPrefix, Etcd.vipKey. by rewrite !app_assoc_s.
Qed.
Lemma handleEvent_wsafe k ev n rest : fits k ev →
  wsafe (handleEvent keyPrefix k ev) ((k, (ev, n)) :: rest) (goesOn (k, (ev, n)) rest).
Proof.
  intros Hf. unfold fits in Hf. destruct k; simpl; unfold handleVIPEvent, handleBackendEvent, decode in *;
    destruct (e_Type ev) eqn:Ht.
  - destruct Hf as (r & Hd & Hk). destruct (unmarshal (e_Value ev)) as [e|vip] eqn:Hu; [done|]. injection Hd as <-.
    apply withRevision_wsafe. intros m Hm. split_and!; [done|done|]. exists (inl vip). rewrite Ht. unfold decode. rewrite Hu.
    split_and!; [done|done|done|by destruct (IsCreate ev)].
  - destruct Hf as [id Hk]. rewrite Hk, extract_vip. apply withRevision_wsafe. intros m Hm. split_and!; [done|done|].
    exists (inl (emptyVIP id)). by rewrite Ht.
  - destruct Hf as (r & Hd & Hk). destruct (unmarshal (e_Value ev)) as [e|b] eqn:Hu; [done|]. injection Hd as <-.
    apply withRevision_wsafe. intros m Hm. split_and!; [done|done|]. exists (inr b). rewrite Ht. unfold decode. rewrite Hu.
    split_and!; [done|done|done|by destruct (IsCreate ev)].
  - destruct Hf as (vid & bid & Hk & Hv & Hb). rewrite Hk, extract_backend by done. apply withRevision_wsafe.
    intros m Hm. split_and!; [done|done|]. exists (inr (emptyBackend bid vid)). by rewrite Ht.
Qed.
Definition untilDone (go : bool) (todo : list change) : Prop := go = true → todo = [].
Lemma accounts_failed e x todo : accounts (x :: todo) (errorEvent e) todo.
Proof. right. eauto. Qed.
Lemma accounts_error e todo : accounts todo (errorEvent e) todo.
Proof. right. eauto. Qed.
#[local] Hint Resolve accounts_failed accounts_error : core.
Lemma handleEvents_wsafe k batch : Forall (λ x : Event * Z, fits k x.1) batch →
  wsafe (handleEvents keyPrefix k batch.*1) ((k,.) <$> batch) untilDone.
Proof.
  induction 1 as [|[ev n] batch Hf _ IH]; [done|]. cbn [fmap list_fmap fst handleEvents]. apply wsafe_bind.
  eapply wsafe_mono; [|by apply handleEvent_wsafe]. intros [[] [e|]] todo; simpl; [intros ->|by intros ->|done..].
  split; [done|]. eauto.
Qed.
Lemma received_wsafe_other k r : (∀ l, r ≠ Some (inr l)) → wsafe (received keyPrefix k r) [] untilDone.
Proof.
  intros Hr. destruct r as [[e|l]|]; [|by destruct (Hr l)|]; (split; [done|]); by exists [].
Qed.
Lemma watchLoop_wsafe n : wsafe (watchLoop keyPrefix n) [] (λ _ _, True).
Proof.
  induction n as [|n IH]; [done|]. split_and!; [done| |].
  - intros k batch Hb. apply wsafe_bind. eapply wsafe_mono; [|by apply handleEvents_wsafe].
    intros [] todo Ht; simpl; [|done]. by rewrite (Ht eq_refl).
  - intros [|k r] Hs; [done|]. apply wsafe_bind. eapply wsafe_mono; [|apply received_wsafe_other; intros l ->; by destruct (Hs k l)].
    intros [] todo Ht; simpl; [|done]. by rewrite (Ht eq_refl).
Qed.
(** A goroutine somewhere in its run. *)
Definition runs (p : watcher unit) (todo : list change) (s : St) : Prop :=
  match p with
  | ReadRevision q c => safe q (λ r _, wsafe (c r) todo (λ _ _, True)) s
  | _ => wsafe p todo (λ _ _, True)
  end.
Lemma wsafe_runs p todo s : Inv s → noOlder todo s → wsafe p todo (λ _ _, True) → runs p todo s.
Proof. destruct p; simpl; auto. Qed.
Lemma safe_later {A} (m : prog A) (P : A → Prop) s s' : rely s s' → safe m (λ r _, P r) s → safe m (λ r _, P r) s'.
Proof.
  revert s s'. induction m as [a|k c IH|p c IH|cmps ops c IH|c IH|c IH]; intros s s' Hr; simpl; [done|..]; intros Hs.
  1-3: intros s2 Hr2; apply Hs; by etransitivity.
  - intros t. by eapply IH.
  - intros u Hu Hau. by eapply IH; [|apply Hs].
Qed.
Lemma runs_later p todo s s' : rely s s' → runs p todo s → runs p todo s'.
Proof. intros Hr. destruct p; simpl; [done..| |done]. by apply safe_later. Qed.
Lemma noOlder_later todo s s' : rely s s' → noOlder todo s → noOlder todo s'.
Proof. intros Hr Hn x Hx. specialize (Hn x Hx). pose proof (rl_num keyPrefix s s' Hr). lia. Qed.

(** ** The invariant of the system *)
Record streamOk (m : machine) (k : kind) (st : stream) : Prop := {
  so_log : ∀ x, x ∈ log st → fits k x.1 ∧ (x.2 <= revnum (stateOf m.1))%Z;
  so_replay : replay (under k (base st)) (log st).*1 = Some (under k (view m.1));
  so_taken : taken st <= length (log st);
  so_base : ∀ key v, under k (base st) !! key = Some v → ∃ r, decode k v = Some r ∧ keyOf r = key;
}.
Record invariant (n : nat) (σ : sys) (acc todo : list change) : Prop := {
  in_store : inPlace (store σ);
  in_streams : ∀ k st, streams σ k = Some st → streamOk (store σ) k st ∧ ofKind k (acc ++ todo) = take (taken st) (log st);
  in_sent : delivers acc (sent σ);
  in_todo : noOlder todo (stateOf (store σ).1);
  in_goroutine : runs (goroutine σ) todo (stateOf (store σ).1) ∨
    acc = [] ∧ todo = [] ∧ (goroutine σ = Watch keyPrefix n ∨
      goroutine σ = WatchPrefix Backends (prefixOf Backends) (λ _, watchLoop keyPrefix n));
}.

Lemma key_of_prefix k key : hasPrefixS (prefixOf k) key = true → placed key →
  match k with
  | VIPs => ∃ id, key = vipKey id
  | Backends => ∃ vid bid, key = backendKey vid bid ∧ Store.noSlash vid = true ∧ Store.noSlash bid = true
  end.
Proof.
  intros Hp Hk. destruct k; [|by apply Hk]. apply hasPrefixS_spec in Hp as [id ->]. exists id.
  unfold EtcdWatch.prefixOf, vipPrefix, Etcd.vipKey. by rewrite !app_assoc_s.
Qed.
Lemma stored_decodes m k key kv : inPlace m → view m.1 !! key = Some kv → hasPrefixS (prefixOf k) key = true →
  ∃ r, decode k (Value kv) = Some r ∧ keyOf r = key.
Proof.
  intros ((Hi & _) & Hpl & _) Hk Hp. pose proof (key_of_prefix k key Hp (Hpl key (ex_intro _ kv Hk))) as Hkey.
  destruct k; unfold decode.
  - destruct Hkey as [id ->]. destruct (inv_vip _ _ Hi id kv Hk) as (vip & -> & [Hid _ _ _ _]). exists (inl vip).
    split; [done|]. simpl. by rewrite Hid.
  - destruct Hkey as (vid & bid & -> & Hv & _). destruct (inv_backend _ _ Hi vid bid kv Hv Hk) as (b & -> & [Hid Hvid _ _ _ _]).
    exists (inr b). split; [done|]. simpl. by rewrite Hid, Hvid.
Qed.
Lemma change_fits m m' k evs ev : inPlace m → inPlace m' → changes (view m.1) (view m'.1) evs → ev ∈ evs →
  hasPrefixS (prefixOf k) (e_Key ev) = true → fits k ev.
Proof.
  intros Hm Hm' Hc Hev Hp. unfold fits. destruct (e_Type ev) eqn:Ht.
  - destruct (ch_put _ _ _ Hc ev Hev Ht) as [(kv & Hk & <-) _]. by apply (stored_decodes m').
  - destruct (ch_delete _ _ _ Hc ev Hev Ht) as [Hk _]. apply (key_of_prefix k _ Hp). by apply Hm.
Qed.
Lemma replay_app t l l' : replay t (l ++ l') = foldl applyEvent (replay t l) l'.
Proof. apply foldl_app. Qed.
Lemma streamOk_client m m' k evs st : inPlace m → inPlace m' → rely (stateOf m.1) (stateOf m'.1) →
  changes (view m.1) (view m'.1) evs → streamOk m k st → streamOk m' k (extend keyPrefix k evs (number keyPrefix m') st).
Proof.
  intros Hm Hm' Hr Hc [Hl Hre Ht Hb]. pose proof (rl_num _ _ _ Hr) as Hn. split; simpl; [..|rewrite length_app; lia|done].
  - intros x [Hx|(ev & -> & [Hp Hev]%list_elem_of_filter)%list_elem_of_fmap]%elem_of_app.
    + destruct (Hl x Hx). split; [done|lia].
    + split; [by eapply (change_fits m m')|done].
  - rewrite fmap_app, <- list_fmap_compose, (list_fmap_ext _ id), list_fmap_id by done.
    rewrite replay_app, Hre. by apply replay_changes.
Qed.
Lemma streamOk_same m m' k st : view m'.1 = view m.1 → rely (stateOf m.1) (stateOf m'.1) → streamOk m k st → streamOk m' k st.
Proof.
  intros Hv Hr [Hl Hre Ht Hb]. pose proof (rl_num _ _ _ Hr) as Hn. split; [|by rewrite Hv|done..].
  intros x Hx. destruct (Hl x Hx). split; [done|lia].
Qed.
Lemma streamOk_opened m k : inPlace m → streamOk m k {| base := view m.1; log := []; taken := 0 |}.
Proof.
  intros Hm. split; simpl; [by intros x ?%elem_of_nil|done|lia|]. intros key v. rewrite under_lookup.
  destruct (hasPrefixS (prefixOf k) key) eqn:Hp; [|done]. intros (kv & Hk & ->)%fmap_Some. by apply (stored_decodes m).
Qed.
Lemma ofKind_app k l l' : ofKind k (l ++ l') = ofKind k l ++ ofKind k l'.
Proof. unfold ofKind. by rewrite filter_app, fmap_app. Qed.
Lemma ofKind_pair k k' batch : ofKind k ((k',.) <$> batch) = if decide (k = k') then batch else [].
Proof.
  unfold ofKind. destruct (decide (k = k')) as [->|Hne].
  - induction batch as [|x batch IH]; [done|]. rewrite fmap_cons, filter_cons_True, fmap_cons by done. by rewrite IH.
  - induction batch as [|x batch IH]; [done|]. rewrite fmap_cons, filter_cons_False by (simpl; congruence). done.
Qed.

#[local] Abbreviation step := (EtcdWatch.step outOfRange keyPrefix rounds (E := E)).
Lemma runs_at σ n acc todo : invariant n σ acc todo →
  (∃ k p c, goroutine σ = WatchPrefix k p c) ∨ runs (goroutine σ) todo (stateOf (store σ).1).
Proof. intros H. destruct (in_goroutine _ _ _ _ H) as [?|(_ & _ & [->| ->])]; [by right|left; eauto..]. Qed.
(** The goroutine goes on and nothing else changes. *)
Lemma invariant_watcher n σ acc todo w todo' :
  invariant n σ acc todo → todo' = todo → wsafe w todo (λ _ _, True) → invariant n (withWatcher σ w) acc todo'.
Proof.
  intros [Hs Hst Hse Ht _] -> Hw. split; try done. left. apply wsafe_runs; [apply Hs|done|done].
Qed.
Lemma invariant_client n σ acc todo m evs :
  invariant n σ acc todo → cstep (store σ) m → changes (view (store σ).1) (view m.1) evs →
  invariant n {| store := m; streams := λ k, extend keyPrefix k evs (number keyPrefix m) <$> streams σ k;
                 goroutine := goroutine σ; sent := sent σ |} acc todo.
Proof.
  intros [Hs Hst Hse Ht Hg] Hc Hch. destruct (cstep_inPlace _ _ Hc Hs) as [Hs' Hr]. split; simpl; try done.
  - intros k st (st0 & Hk & ->)%fmap_Some. destruct (Hst k st0 Hk) as [Hok Htake].
    split; [by apply (streamOk_client (store σ))|]. simpl. rewrite take_app_le by apply Hok. done.
  - by eapply noOlder_later.
  - destruct Hg as [Hg|Hg]; [left; by eapply runs_later|by right].
Qed.
Lemma invariant_open n σ acc todo k p c :
  invariant n σ acc todo → goroutine σ = WatchPrefix k p c →
  invariant n (withStream σ k {| base := view (store σ).1; log := []; taken := 0 |} (c tt)) acc todo.
Proof.
  intros H Hw. destruct H as [Hs Hst Hse Ht [Hg|(-> & -> & Hg)]]; [by rewrite Hw in Hg|]. split; simpl; try done.
  - intros k' st. case_decide as Hk; [intros [= <-]; subst k'|apply Hst].
    split; [by apply streamOk_opened|done].
  - destruct Hg as [Hg|Hg]; rewrite Hw in Hg; injection Hg as -> -> ->; [right; auto|left].
    apply wsafe_runs; [apply Hs|done|apply watchLoop_wsafe].
Qed.
Lemma take_length_take {A} j (l : list A) : take (length (take j l)) l = take j l.
Proof. rewrite length_take. destruct (Nat.min_spec j (length l)) as [[_ ->]|[? ->]]; [done|by rewrite !take_ge by lia]. Qed.
Lemma invariant_receive n σ acc todo c k st j :
  invariant n σ acc todo → goroutine σ = Select c → streams σ k = Some st →
  let batch := take j (drop (taken st) (log st)) in
  invariant n (withStream σ k {| base := base st; log := log st; taken := taken st + length batch |}
                 (c (Received k (Some (inr batch.*1))))) acc ((k,.) <$> batch).
Proof.
  intros H Hw Hk batch. destruct (runs_at _ _ _ _ H) as [(? & ? & ? & Hg)|Hg]; [congruence|].
  rewrite Hw in Hg. destruct Hg as (-> & Hb & _). destruct H as [Hs Hst Hse Ht _].
  destruct (Hst k st Hk) as [[Hl Hre Hta Hba] Htake]. rewrite app_nil_r in *.
  assert (∀ x, x ∈ batch → x ∈ log st) as Hin by (intros x (i & Hi & _)%elem_of_take; rewrite lookup_drop in Hi; by eapply list_elem_of_lookup_2).
  assert (taken st + length batch <= length (log st)) as Hlen by (subst batch; rewrite length_take, length_drop; lia).
  assert (noOlder ((k,.) <$> batch) (stateOf (store σ).1)) as Hno
    by (intros x (y & -> & Hy)%list_elem_of_fmap; simpl; apply Hl; auto).
  split; simpl; try done.
  - intros k' st'. rewrite ofKind_app, ofKind_pair. case_decide as Hk'; [intros [= <-]; subst k'|].
    + split; [by split|]. simpl. rewrite Htake, <- take_take_drop. f_equal. symmetry. apply take_length_take.
    + rewrite app_nil_r. intros Hst'. destruct (Hst k' st' Hst') as [? Ht']. by rewrite ?app_nil_r in Ht'.
  - left. apply wsafe_runs; [apply Hs|done|]. apply Hb. apply Forall_forall. intros x Hx. by apply Hl, Hin.
Qed.
Lemma invariant_sent n σ acc todo w c :
  invariant n σ acc todo → goroutine σ = SendWatchEvent w c →
  ∃ acc' todo', invariant n {| store := store σ; streams := streams σ; goroutine := c true; sent := sent σ ++ [w] |} acc' todo'.
Proof.
  intros H Hw. destruct (runs_at _ _ _ _ H) as [(? & ? & ? & Hg)|Hg]; [congruence|].
  rewrite Hw in Hg. destruct Hg as (_ & todo' & Ha & Hg). destruct H as [Hs Hst Hse Ht _].
  assert (∀ x, todo = x :: todo' → delivers (acc ++ [x]) (sent σ ++ [w]) →
    invariant n {| store := store σ; streams := streams σ; goroutine := c true; sent := sent σ ++ [w] |} (acc ++ [x]) todo') as Hnext.
  { intros x -> Hd. assert (noOlder todo' (stateOf (store σ).1)) as Hn by (intros y Hy; apply Ht; by right).
    split; simpl; try done; [|left; apply wsafe_runs; [apply Hs|done|done]].
    intros k st Hk. rewrite <- app_assoc. by apply Hst. }
  destruct Ha as [(x & Hx & Hrep)|(e & -> & [->|[x Hx]])].
  - exists (acc ++ [x]), todo'. apply Hnext; [done|by constructor].
  - exists acc, todo. split; simpl; try done; [by constructor|left; apply wsafe_runs; [apply Hs|done|done]].
  - exists (acc ++ [x]), todo'. apply Hnext; [done|by constructor].
Qed.
Lemma invariant_step n σ σ' acc todo : step σ σ' → invariant n σ acc todo → ∃ acc' todo', invariant n σ' acc' todo'.
Proof.
  intros Hstep H. destruct Hstep as [σ m evs Hc Hch|σ k p c Hw|σ c Hw|σ c k st j Hw Hk|σ c k e Hw|σ c k Hw|σ key q c r e' Hw He
    |σ r c Hw|σ w c Hw|σ w c Hw].
  - exists acc, todo. by apply invariant_client.
  - exists acc, todo. by apply (invariant_open _ _ _ _ k p).
  - destruct (runs_at _ _ _ _ H) as [(? & ? & ? & Hg)|Hg]; [congruence|]. rewrite Hw in Hg. destruct Hg as (-> & _ & Hg).
    exists acc, []. eapply invariant_watcher; [done|done|]. by apply Hg.
  - exists acc, ((k,.) <$> take j (drop (taken st) (log st))). by eapply invariant_receive.
  - destruct (runs_at _ _ _ _ H) as [(? & ? & ? & Hg)|Hg]; [congruence|]. rewrite Hw in Hg. destruct Hg as (-> & _ & Hg).
    exists acc, []. eapply invariant_watcher; [done|done|]. by apply Hg.
  - destruct (runs_at _ _ _ _ H) as [(? & ? & ? & Hg)|Hg]; [congruence|]. rewrite Hw in Hg. destruct Hg as (-> & _ & Hg).
    exists acc, []. eapply invariant_watcher; [done|done|]. by apply Hg.
  - exists acc, todo. destruct (runs_at _ _ _ _ H) as [(? & ? & ? & Hg)|Hg]; [congruence|]. rewrite Hw in Hg.
    destruct H as [Hs Hst Hse Ht _]. destruct (get_inPlace key r (store σ) e' He Hs) as (Hs' & Hsame & Hval).
    split; simpl; try done.
    + intros k st Hk. destruct (Hst k st Hk) as [Hok ?]. split; [|done].
      eapply streamOk_same; [|simpl; by rewrite Hsame|exact Hok]. by injection Hsame.
    + by rewrite Hsame.
    + left. rewrite Hsame. apply Hg; [done|apply Hs|done].
  - exists acc, todo. destruct (runs_at _ _ _ _ H) as [(? & ? & ? & Hg)|Hg]; [congruence|]. rewrite Hw in Hg.
    by eapply invariant_watcher.
  - by eapply invariant_sent.
  - exists acc, todo. destruct (runs_at _ _ _ _ H) as [(? & ? & ? & Hg)|Hg]; [congruence|]. rewrite Hw in Hg.
    destruct Hg as [Hg _]. by eapply invariant_watcher.
Qed.
Lemma invariant_start m n : inPlace m → invariant n (start keyPrefix m n) [] [].
Proof.
  intros Hm. split; simpl; [done|done|constructor|by intros x ?%elem_of_nil|by right; auto].
Qed.

(** ** A table kept by the events *)
Lemma applyWatchEvent_other k x w t : reports x w → x.1 ≠ k → applyWatchEvent keyPrefix k (Some t) w = Some t.
Proof.
  destruct x as [k' [ev n]]. intros (_ & _ & r & Hc & _ & Hr) Hne. simpl in Hne. unfold applyWatchEvent. simpl.
  assert (∃ a, actionOf (we_Type w) = Some (k', a)) as [a ->] by (destruct (e_Type ev); naive_solver).
  destruct (carried k w); [|done]. by rewrite decide_False.
Qed.
Lemma applyWatchEvent_follows k ev n w c c' :
  reports (k, (ev, n)) w → (∀ key v, c !! key = Some v → is_Some (decode k v)) → applyEvent (Some c) ev = Some c' →
  applyWatchEvent keyPrefix k (Some (omap (decode k) c)) w = Some (omap (decode k) c') ∧
  (∀ key v, c' !! key = Some v → is_Some (decode k v)).
Proof.
  intros (_ & _ & r & Hcar & Hkey & Hr) Hdec Happ. unfold applyWatchEvent. simpl. rewrite Hcar, Hkey.
  rewrite lookup_omap. unfold applyEvent in Happ. simpl in Happ. destruct (e_Type ev).
  - destruct Hr as [Hd ->]. assert (c' = <[e_Key ev := e_Value ev]> c) as ->
      by (destruct (c !! e_Key ev), (IsCreate ev); naive_solver).
    split; [|intros key v [[_ <-]|[_ Hk]]%lookup_insert_Some; eauto].
    rewrite (omap_insert_Some _ _ _ _ r) by done. rewrite decide_True by done.
    destruct (c !! e_Key ev) as [v|] eqn:Hk; simpl.
    + destruct (Hdec _ _ Hk) as [r0 ->]. by destruct (IsCreate ev).
    + by destruct (IsCreate ev).
  - rewrite Hr, decide_True by done. destruct (c !! e_Key ev) as [v|] eqn:Hk; [|done]. injection Happ as <-. simpl.
    destruct (Hdec _ _ Hk) as [r0 ->]. rewrite omap_delete. split; [done|]. intros key v' [_ ?]%fin_maps.lookup_delete_Some. eauto.
Qed.
Definition follow (k : kind) (t : gmap string resource) (ws : list WatchEvent) : option (gmap string resource) :=
  foldl (applyWatchEvent keyPrefix k) (Some t) ws.
Lemma follow_replay k acc ws c c' :
  delivers acc ws → (∀ w, w ∈ ws → we_Type w ≠ EventTypeError) → (∀ key v, c !! key = Some v → is_Some (decode k v)) →
  replay c (ofKind k acc).*1 = Some c' →
  follow k (omap (decode k) c) ws = Some (omap (decode k) c') ∧ (∀ key v, c' !! key = Some v → is_Some (decode k v)).
Proof.
  intros Hd Hok Hdec. revert c'. induction Hd as [|x w l ws Hd IH Hrep|x e l ws Hd IH|e l ws Hd IH]; intros c'.
  - by intros [= <-].
  - unfold follow. rewrite foldl_app, ofKind_app, fmap_app, replay_app.
    assert (∀ w, w ∈ ws → we_Type w ≠ EventTypeError) as Hok' by (intros; apply Hok, elem_of_app; by left).
    change [x] with ((λ y, y) <$> [x]). destruct x as [k' [ev n]].
    change ((λ y, y) <$> [(k', (ev, n))]) with ((k',.) <$> [(ev, n)]). rewrite ofKind_pair. destruct (decide (k = k')) as [<-|Hne].
    + simpl. destruct (replay c (ofKind k l).*1) as [c1|] eqn:Hre; [|done]. intros Happ.
      destruct (IH Hok' c1 eq_refl) as [IH1 IH2]. unfold follow in IH1. rewrite IH1. by eapply applyWatchEvent_follows.
    + simpl. intros Hre. destruct (IH Hok' c' Hre) as [IH1 IH2]. unfold follow in IH1. rewrite IH1.
      split; [|done]. eapply applyWatchEvent_other; [exact Hrep|]. simpl. congruence.
  - exfalso. apply (Hok (errorEvent e)); [apply elem_of_app; right; by left|done].
  - exfalso. apply (Hok (errorEvent e)); [apply elem_of_app; right; by left|done].
Qed.

End Watching.
End EtcdWatchSafety.
