(* ===== verification/EtcdWatchRuns.v ===== *)
(** * The watch of the etcd store: concrete runs

    A run in which everything is delivered, a change between the start of a watch and its
    opening, of which nothing is delivered, and an event of a backend that comes before
    that of its virtual IP. *)

From Stdlib Require Import SpecFloat.
From stdpp Require Import base tactics list gmap strings pretty relations.
From S2P Require Import Prelude Types Net Store Validation Duration Config Models Etcd EtcdSafety Sync EtcdWatch EtcdWatchSafety.

Module EtcdWatchRuns.
Import Models Validation Etcd EtcdSafety SyncService EtcdWatch EtcdWatchSafety.

#[local] Existing Instances EtcdExamples.guts EtcdExamples.vipCodec EtcdExamples.backendCodec EtcdExamples.codecs
  EtcdExamples.memory EtcdExamples.memory_laws.
#[local] Abbreviation memory := (gmap string KV * Z)%type.
#[local] Abbreviation step := (step (λ _, 0%Z) "/arca-lb" 3 (E := memory)).
#[local] Abbreviation sys := (sys (E := memory)).

(** ** The events of a change *)
Definition putEvent (s : gmap string KV) (p : string * KV) : option Event :=
  if decide (s !! p.1 = Some p.2) then None
  else Some {| e_Type := EventTypePut; e_Key := p.1; e_Value := Value p.2; e_ModRevision := ModRevision p.2;
               e_CreateRevision := match s !! p.1 with None => ModRevision p.2 | Some _ => ModRevision p.2 - 1 end |}.
Definition deleteEvent (s' : gmap string KV) (p : string * KV) : option Event :=
  match s' !! p.1 with
  | Some _ => None
  | None => Some {| e_Type := EventTypeDelete; e_Key := p.1; e_Value := ""; e_CreateRevision := 0; e_ModRevision := 0 |}
  end.
Definition eventsOf (s s' : gmap string KV) : list Event :=
  omap (putEvent s) (map_to_list s') ++ omap (deleteEvent s') (map_to_list s).
Lemma put_elem s s' ev : ev ∈ omap (putEvent s) (map_to_list s') ↔
  ∃ k kv, s' !! k = Some kv ∧ s !! k ≠ Some kv ∧
    ev = {| e_Type := EventTypePut; e_Key := k; e_Value := Value kv; e_ModRevision := ModRevision kv;
            e_CreateRevision := match s !! k with None => ModRevision kv | Some _ => ModRevision kv - 1 end |}.
Proof.
  rewrite list_elem_of_omap. split.
  - intros ([k kv] & Hk%elem_of_map_to_list & Hp). unfold putEvent in Hp. simpl in Hp. case_decide; [done|]. simplify_eq. eauto 10.
  - intros (k & kv & Hk & Hne & ->). exists (k, kv). split; [by apply elem_of_map_to_list|]. unfold putEvent. simpl. by case_decide.
Qed.
Lemma delete_elem s s' ev : ev ∈ omap (deleteEvent s') (map_to_list s) ↔
  ∃ k, is_Some (s !! k) ∧ s' !! k = None ∧
    ev = {| e_Type := EventTypeDelete; e_Key := k; e_Value := ""; e_CreateRevision := 0; e_ModRevision := 0 |}.
Proof.
  rewrite list_elem_of_omap. split.
  - intros ([k kv] & Hk%elem_of_map_to_list & Hp). unfold deleteEvent in Hp. simpl in Hp.
    destruct (s' !! k) eqn:Hk'; [done|]. simplify_eq. eauto 10.
  - intros (k & [kv Hk] & Hn & ->). exists (k, kv). split; [by apply elem_of_map_to_list|]. unfold deleteEvent. simpl. by rewrite Hn.
Qed.
Lemma keys_once {A} (f : string * KV → option A) (key : A → string) (l : list (string * KV)) :
  (∀ p a, f p = Some a → key a = p.1) → NoDup l.*1 → NoDup (key <$> omap f l).
Proof.
  intros Hf. induction l as [|p l IH]; [constructor|]. rewrite fmap_cons. intros [Hp Hl]%NoDup_cons. simpl.
  destruct (f p) as [a|] eqn:Ha; [|by apply IH]. rewrite fmap_cons. apply NoDup_cons. split; [|by apply IH].
  rewrite (Hf _ _ Ha). intros (a' & He & (p' & Hp' & Ha')%list_elem_of_omap)%list_elem_of_fmap. apply Hp.
  apply list_elem_of_fmap. exists p'. split; [|done]. rewrite He. by apply Hf.
Qed.
Lemma eventsOf_changes s s' : changes s s' (eventsOf s s').
Proof.
  split.
  - unfold eventsOf. rewrite fmap_app. apply NoDup_app. split_and!.
    + apply keys_once; [|apply NoDup_fst_map_to_list]. intros p a. unfold putEvent. case_decide; [done|]. by intros [= <-].
    + intros k (ev & -> & (k1 & kv & Hk & _ & ->)%put_elem)%list_elem_of_fmap (ev' & He & (k2 & _ & Hn & ->)%delete_elem)%list_elem_of_fmap.
      simpl in He. congruence.
    + apply keys_once; [|apply NoDup_fst_map_to_list]. intros p a. unfold deleteEvent. case_match; [done|]. by intros [= <-].
  - intros ev [(k & kv & Hk & Hne & ->)%put_elem|(k & _ & _ & ->)%delete_elem]%elem_of_app Ht; [|done]. simpl. split; [eauto|].
    unfold IsCreate. simpl. destruct (s !! k); [rewrite bool_decide_eq_false_2 by done; lia|].
    rewrite bool_decide_eq_true_2 by done. apply Z.eqb_refl.
  - intros ev [(k & kv & Hk & Hne & ->)%put_elem|(k & Hs & Hn & ->)%delete_elem]%elem_of_app Ht; [done|]. by simpl.
  - intros k Hne. destruct (s' !! k) as [kv|] eqn:Hk.
    + eapply (list_elem_of_fmap_2' e_Key); [apply elem_of_app; left; apply put_elem; eauto|done].
    + destruct (s !! k) as [kv|] eqn:Hk0; [|done].
      eapply (list_elem_of_fmap_2' e_Key); [apply elem_of_app; right; apply delete_elem; eauto|done].
Qed.

(** ** Runs by lists of actions *)
Inductive act := Begin (c : storeCall) | Client (i : nat) | Go | Take (k : kind) (n : nat).
Definition byClient (f : EtcdExamples.state → EtcdExamples.state) (σ : sys) : sys :=
  let m := f (store σ) in
  {| store := m; goroutine := goroutine σ; sent := sent σ;
     streams := λ k, extend "/arca-lb" k (eventsOf (view (store σ).1) (view m.1)) (number "/arca-lb" m) <$> streams σ k |}.
(** The next step of the goroutine, where nothing fails. *)
Definition go (σ : sys) : sys :=
  match goroutine σ with
  | WatchPrefix k p c => withStream σ k {| base := view (store σ).1; log := []; taken := 0 |} (c tt)
  | ReadRevision (Get key q) c =>
      let '(r, e') := etcdGet key (store σ).1 in
      {| store := (e', (store σ).2); streams := streams σ; goroutine := ReadRevision (q r) c; sent := sent σ |}
  | ReadRevision (Etcd.Ret r) c => withWatcher σ (c r)
  | SendWatchEvent w c => {| store := store σ; streams := streams σ; goroutine := c true; sent := sent σ ++ [w] |}
  | _ => σ
  end.
Definition receive (k : kind) (n : nat) (σ : sys) : sys :=
  match goroutine σ, streams σ k with
  | Select c, Some s =>
      let batch := take n (drop (taken s) (log s)) in
      withStream σ k {| base := base s; log := log s; taken := taken s + length batch |} (c (Received k (Some (inr batch.*1))))
  | _, _ => σ
  end.
Definition perform (σ : sys) (a : act) : sys :=
  match a with
  | Begin c => byClient (EtcdExamples.begin c) σ
  | Client i => if EtcdExamples.done_ (default (Etcd.Ret (inr EtcdSafety.Done)) ((store σ).2 !! i)) then σ else byClient (EtcdExamples.step i) σ
  | Go => go σ
  | Take k n => receive k n σ
  end.

#[local] Abbreviation cstep := (cstep (λ _, 0%Z) "/arca-lb" 3 (E := memory)).
Lemma byClient_step f σ : cstep (store σ) (f (store σ)) → step σ (byClient f σ).
Proof. intros Hc. apply step_client; [done|apply eventsOf_changes]. Qed.
Lemma client_step i (m : EtcdExamples.state) :
  EtcdExamples.done_ (default (Etcd.Ret (inr EtcdSafety.Done)) (m.2 !! i)) = false → cstep m (EtcdExamples.step i m).
Proof.
  destruct m as [e ps]. unfold EtcdExamples.step. simpl.
  destruct (ps !! i) as [[a|k c|p c|cmps ops c|c|c]|] eqn:Hi; try done; intros _.
  - by eapply StepGet.
  - by eapply StepList.
  - destruct (if negb _ then _ else _) as [r e'] eqn:He. by eapply StepTxn.
  - by eapply StepNow.
  - eapply StepUUID; [done|done|]. by repeat constructor.
Qed.
Definition wellFormed (a : act) : Prop := match a with Begin c => wfCall c | _ => True end.
Lemma perform_steps σ a : wellFormed a → rtc step σ (perform σ a).
Proof.
  intros Ha. destruct a as [c|i| |k n]; simpl.
  - apply rtc_once, byClient_step. destruct (store σ) as [e ps]. by apply StepStart.
  - destruct (EtcdExamples.done_ _) eqn:Hd; [done|]. apply rtc_once, byClient_step. by apply client_step.
  - unfold go. destruct (goroutine σ) as [|k p c|c|[r|key q|?|?|?|?] c|w c] eqn:Hg; try done.
    + apply rtc_once. by apply (step_open _ _ _ _ k p).
    + apply rtc_once. by apply (step_read _ _ _ _ r).
    + destruct (etcdGet key (store σ).1) as [r e'] eqn:He. apply rtc_once. by eapply step_get.
    + apply rtc_once. by apply step_sent.
  - unfold receive. destruct (goroutine σ) eqn:Hg; try done. destruct (streams σ k) eqn:Hk; [|done].
    apply rtc_once. by apply step_receive.
Qed.
Lemma performs_steps l σ : Forall wellFormed l → rtc step σ (foldl perform σ l).
Proof.
  revert σ. induction l as [|a l IH]; intros σ Hl; simpl; [done|]. apply Forall_cons in Hl as [Ha Hl].
  etransitivity; [by apply perform_steps|by apply IH].
Qed.
Definition isWaiting (σ : sys) : bool := match goroutine σ with Select _ => true | _ => false end.
Lemma isWaiting_waiting σ : isWaiting σ = true → waiting σ.
Proof. unfold isWaiting, waiting. destruct (goroutine σ); [done|done|eauto|done|done]. Qed.

(** ** Everything delivered *)
Definition e1 : memory := EtcdExamples.e1.
Definition untilWaiting (k : kind) : list act := Take k 9 :: replicate 9 Go.
Definition createdAndAdded : list act :=
  [Go; Go; Begin (CallCreateVIP (EtcdExamples.web "a"))] ++ replicate 9 (Client 0) ++ untilWaiting VIPs ++
  Begin (CallAddBackend EtcdExamples.one) :: replicate 12 (Client 1) ++ untilWaiting Backends.
Definition thenDeleted : list act := Begin (CallDeleteVIP "a") :: replicate 20 (Client 2) ++ untilWaiting Backends ++ untilWaiting VIPs.
Definition final : sys := foldl perform (start "/arca-lb" (e1, []) 9) (createdAndAdded ++ thenDeleted).
Definition delivered (σ : sys) (k : kind) : bool :=
  match streams σ k with Some st => (taken st =? length (log st)) && (0 <? length (log st)) | None => false end.
Lemma final_steps : rtc step (start "/arca-lb" (e1, []) 9) final.
Proof. apply performs_steps. by repeat constructor. Qed.
Lemma final_waiting : waiting final.
Proof. apply isWaiting_waiting. vm_compute. done. Qed.
Lemma delivered_all σ k : delivered σ k = true → ∃ st, streams σ k = Some st ∧ taken st = length (log st).
Proof. unfold delivered. destruct (streams σ k); [|done]. intros [?%Nat.eqb_eq _]%andb_true_iff. eauto. Qed.
Lemma final_delivered : ∃ st, streams final VIPs = Some st ∧ taken st = length (log st).
Proof. apply delivered_all. vm_compute. done. Qed.
Lemma final_types : (we_Type <$> sent final) = [EventTypeVIPCreated; EventTypeBackendAdded; EventTypeBackendDeleted; EventTypeVIPDeleted].
Proof. vm_compute. reflexivity. Qed.
Lemma final_noError w : w ∈ sent final → we_Type w ≠ EventTypeError.
Proof. intros Hw He. apply (list_elem_of_fmap_2 we_Type) in Hw. rewrite final_types, He in Hw. set_solver. Qed.

(** ** What a subscriber does not learn

    The goroutine opens its watches after [Watch] has returned: a subscriber that reads the
    configuration then, as [WatchConfig] does, is not told of a change between the two. *)
Definition missed : sys :=
  foldl perform (start "/arca-lb" (e1, []) 9)
    (Begin CallGetConfig :: replicate 5 (Client 0) ++ Begin (CallCreateVIP (EtcdExamples.web "a")) :: replicate 9 (Client 1) ++
     [Go; Go] ++ untilWaiting VIPs ++ untilWaiting Backends).
Lemma change_before_opening :
  rtc step (start "/arca-lb" (e1, []) 9) missed ∧ isWaiting missed = true ∧ sent missed = [] ∧
  match (store missed).2 with
  | [Etcd.Ret (inr (Snapshot c)); Etcd.Ret (inr _)] => cs_VIPs c = [] ∧ cs_Revision c = 1%Z
  | _ => False
  end ∧
  number "/arca-lb" (store missed) = 2%Z ∧ is_Some (view (store missed).1 !! "/arca-lb/vips/a").
Proof.
  split; [apply performs_steps; by repeat constructor|]. split; [vm_compute; done|]. split; [vm_compute; done|].
  split; [vm_compute; done|]. split; [vm_compute; done|]. vm_compute. eauto.
Qed.

(** The two watches are not ordered against each other. *)
Definition crossed : sys :=
  foldl perform (start "/arca-lb" (e1, []) 9)
    ([Go; Go; Begin (CallCreateVIP (EtcdExamples.web "a"))] ++ replicate 9 (Client 0) ++
     Begin (CallAddBackend EtcdExamples.one) :: replicate 12 (Client 1) ++ untilWaiting Backends ++ untilWaiting VIPs).
Lemma backend_before_vip : (we_Type <$> sent crossed) = [EventTypeBackendAdded; EventTypeVIPCreated].
Proof. vm_compute. reflexivity. Qed.
End EtcdWatchRuns.
