(* ===== verification/EtcdClient.v ===== *)
(** * The connection of the etcd store (internal/common/datastore/etcd/client.go)

    What the configuration makes of a connection: the TLS settings, the defaults, the
    revision that is there from the start, and the deadline of a request.  Dialling is
    the class [EtcdDialer]; the calls of the store then run on what was dialled. *)

From Stdlib Require Import SpecFloat.
From stdpp Require Import base tactics list gmap strings pretty.
From S2P Require Import Prelude Types Net Store Validation Duration Config Models Etcd EtcdSafety EtcdTx V1Config ControllerConfig.

Module EtcdClient.
Import Models ControllerConfig Etcd EtcdTx.

Definition second : Z := 1000000000.
Definition DefaultDialTimeout : Z := 5 * second.
Definition DefaultKeyPrefix : string := "/arca-lb".
Definition DefaultRequestTimeout : Z := 3 * second.
Record EtcdDataStore := { keyPrefix : string; requestTimeout : Z }.

Record TLSConfig := { RootCAs : string; Certificates : option (string * string) }.
Record clientConfig := { Endpoints : list string; DialTimeout : Z; cc_TLS : option TLSConfig }.
(** Files and certificates, and the client of etcd. *)
Class EtcdDialer (E : Type) := {
  ReadFile : string → ST E (err + string);
  AppendCertsFromPEM : string → bool;
  LoadX509KeyPair : string → string → ST E error;
  New : clientConfig → ST E error;
  CloseClient : ST E error;
}.

Section Connection.
Context {E : Type} {HE : Etcd E} `{!EtcdDialer E}.
Definition loadTLSConfig (certFile keyFile caFile : string) : ST E (err + TLSConfig) :=
  caCert ← ReadFile caFile;
  match caCert with
  | inl e => mret (inl (errorf "failed to read CA file: " e))
  | inr caCert =>
      let neither := bool_decide (certFile = "") && bool_decide (keyFile = "") in
      if negb (AppendCertsFromPEM caCert) then mret (inl (ErrMsg "failed to append CA cert"))
      else if neither then mret (inr {| RootCAs := caCert; Certificates := None |})
      else if bool_decide (certFile = "") || bool_decide (keyFile = "")
      then mret (inl (ErrMsg "datastore.etcd.cert_file and datastore.etcd.key_file must both be set when client certificate is configured"))
      else
        e ← LoadX509KeyPair certFile keyFile;
        mret (match e with
              | Some e => inl (errorf "failed to load key pair: " e)
              | None => inr {| RootCAs := caCert; Certificates := Some (certFile, keyFile) |}
              end)
  end.
Definition clientConfigOf (cfg : StoreConfig) : ST E (err + clientConfig) :=
  let dialTimeout := if (0 <? EtcdDialTimeout cfg)%Z then EtcdDialTimeout cfg else DefaultDialTimeout in
  let config tls := {| Endpoints := EtcdEndpoints cfg; DialTimeout := dialTimeout; cc_TLS := tls |} in
  if EtcdTLS cfg then
    tls ← loadTLSConfig (EtcdCertFile cfg) (EtcdKeyFile cfg) (EtcdCAFile cfg);
    mret (match tls with inl e => inl (errorf "failed to load TLS config: " e) | inr tls => inr (config (Some tls)) end)
  else mret (inr (config None)).
Definition storeOf (cfg : StoreConfig) : EtcdDataStore :=
  {| keyPrefix := if bool_decide (EtcdKeyPrefix cfg = "") then DefaultKeyPrefix else EtcdKeyPrefix cfg;
     requestTimeout := if (0 <? EtcdRequestTimeout cfg)%Z then EtcdRequestTimeout cfg else DefaultRequestTimeout |}.
(** [NewEtcdDataStore], by itself: nothing else runs on the store meanwhile. *)
Definition NewEtcdDataStore (cfg : StoreConfig) : ST E (err + EtcdDataStore) :=
  config ← clientConfigOf cfg;
  match config with
  | inl e => mret (inl e)
  | inr config =>
      dialled ← New config;
      match dialled with
      | Some e => mret (inl (errorf "failed to create etcd client: " e))
      | None =>
          let ds := storeOf cfg in
          initialised ← exec 0 "" (initRevision (keyPrefix ds));
          match initialised with
          | inl e => _ ← CloseClient; mret (inl (errorf "failed to initialize revision: " e))
          | inr _ => mret (inr ds)
          end
      end
  end.
(** [contextWithRequestTimeout], on the deadline of the context: one that is set stays. *)
Definition contextWithRequestTimeout (ds : option EtcdDataStore) (deadline : option Z) (now : Z) : option Z :=
  match ds, deadline with
  | Some ds, None => if (requestTimeout ds <=? 0)%Z then None else Some (now + requestTimeout ds)%Z
  | _, _ => deadline
  end.

(** ** What a connection starts with *)
Context {LE : EtcdSafety.EtcdLaws E}.
(** Dialling leaves the keys alone. *)
Class DialerLaws : Prop := {
  readFile_law : ∀ path e, view (ReadFile path e).2 = view e ∧ revisionOf (ReadFile path e).2 = revisionOf e;
  keyPair_law : ∀ c k e, view (LoadX509KeyPair c k e).2 = view e ∧ revisionOf (LoadX509KeyPair c k e).2 = revisionOf e;
  new_law : ∀ c e, view (New c e).2 = view e ∧ revisionOf (New c e).2 = revisionOf e;
}.
Context {DL : DialerLaws}.
Definition untouched {A} (m : ST E A) : Prop := ∀ e, view (m e).2 = view e ∧ revisionOf (m e).2 = revisionOf e.
Lemma untouched_ret {A} (a : A) : untouched (mret a).
Proof. done. Qed.
Lemma untouched_bind {A B} (m : ST E A) (f : A → ST E B) : untouched m → (∀ a, untouched (f a)) → untouched (m ≫= f).
Proof.
  intros Hm Hf e. specialize (Hm e). unfold mbind, ST_bind. destruct (m e) as [a e1]. specialize (Hf a e1). simpl in *.
  destruct Hm as [Hm1 Hm2], Hf as [Hf1 Hf2]. split; congruence.
Qed.
Lemma clientConfigOf_untouched cfg : untouched (clientConfigOf cfg).
Proof.
  unfold clientConfigOf, loadTLSConfig. destruct (EtcdTLS cfg); [|apply untouched_ret].
  apply untouched_bind; [|intros []; apply untouched_ret]. apply untouched_bind; [intros e; apply readFile_law|].
  intros [e|ca]; [apply untouched_ret|]. repeat (case_match; try apply untouched_ret).
  apply untouched_bind; [intros e'; apply keyPair_law|intros a; apply untouched_ret].
Qed.
(** A store that is returned has a revision and settings that are usable; on a store
    that had a revision nothing was changed, and on one that had none only that was put
    there. *)
Theorem NewEtcdDataStore_initialises cfg (e : E) ds e' :
  (∀ k kv, view e !! k = Some kv → 1 <= Version kv)%Z → NewEtcdDataStore cfg e = (inr ds, e') →
  ds = storeOf cfg ∧ keyPrefix ds ≠ "" ∧ (0 < requestTimeout ds)%Z ∧
  match view e !! revisionKey (keyPrefix ds) with
  | Some _ => view e' = view e
  | None => Value <$> view e' !! revisionKey (keyPrefix ds) = Some "1" ∧ ∀ k, k ≠ revisionKey (keyPrefix ds) → view e' !! k = view e !! k
  end.
Proof.
  intros Hver. unfold NewEtcdDataStore, mbind, ST_bind, mret, ST_ret. pose proof (clientConfigOf_untouched cfg e) as [H1 _].
  destruct (clientConfigOf cfg e) as [[x|config] e1]; [done|]. simpl in H1. destruct (new_law config e1) as [H2 _].
  destruct (New config e1) as [[x|] e2]; [done|]. simpl in H2. rewrite H1 in H2.
  assert (keyPrefix (storeOf cfg) ≠ "" ∧ 0 < requestTimeout (storeOf cfg))%Z as [Hk Ht].
  { simpl. split; [by case_bool_decide|]. destruct (Z.ltb_spec 0 (EtcdRequestTimeout cfg)); [done|]. unfold DefaultRequestTimeout, second. lia. }
  revert Hk Ht. generalize (storeOf cfg). intros ds0 Hk Ht. unfold initRevision. simpl. destruct (etcdTxn _ _ e2) as [r e3] eqn:Htxn.
  pose proof (EtcdSafety.txn_law _ _ _ _ _ Htxn) as Hl. cbv zeta in Hl. cbn [forallb isRead andb] in Hl. rewrite H2 in Hl.
  destruct r as [x|b]; simpl; [by destruct (CloseClient e3)|]. intros [= <- <-]. split_and!; [done|done|done|].
  destruct (view e !! revisionKey (keyPrefix ds0)) as [kv|] eqn:Hrev.
  - destruct b; [|by destruct Hl as [[? _] _]]. exfalso. destruct Hl as [Hc _]. simpl in Hc. rewrite Hrev in Hc. simpl in Hc.
    specialize (Hver _ _ Hrev). rewrite andb_true_r in Hc. apply Z.eqb_eq in Hc. lia.
  - destruct b; [|by destruct Hl as [_ Hc]; simpl in Hc; rewrite Hrev in Hc]. destruct Hl as [_ [_ ->]]. simpl. split.
    + by rewrite lookup_insert_eq.
    + intros k Hne. by rewrite lookup_insert_ne by auto.
Qed.
End Connection.
End EtcdClient.

(** ** A connection to etcd in memory *)
Module EtcdClientExamples.
Import Etcd EtcdSafety EtcdClient ControllerConfig.
#[local] Existing Instances EtcdExamples.memory EtcdExamples.memory_laws.
#[local] Instance dialer : EtcdDialer (gmap string KV * Z) := {|
  ReadFile path := λ e, (if bool_decide (path = "") then inl (ErrMsg "open : no such file or directory") else inr "ca", e);
  AppendCertsFromPEM pem := bool_decide (pem = "ca");
  LoadX509KeyPair c k := λ e, (None, e);
  New c := λ e, (None, e);
  CloseClient := λ e, (None, e) |}.
#[local] Instance dialer_laws : DialerLaws (E := gmap string KV * Z).
Proof. split; done. Qed.
Definition settings (tls : bool) : StoreConfig :=
  Build_StoreConfig "etcd" "" 0 "" "" "" "" "" "" "" "" 0 0 0 0 ["127.0.0.1:2379"] "" tls "" "" "" 0 0.
Example connected :
  let r := NewEtcdDataStore (settings false) (∅, 0%Z) in
  r.1 = inr {| keyPrefix := "/arca-lb"; requestTimeout := 3000000000 |} ∧
  Value <$> r.2.1 !! "/arca-lb/revision" = Some "1" ∧ r.2.2 = 1%Z ∧ (NewEtcdDataStore (settings false) r.2).2.2 = 1%Z.
Proof. vm_compute. auto. Qed.
Example no_ca_file :
  (NewEtcdDataStore (settings true) (∅, 0%Z)).1 =
  inl (errorf "failed to load TLS config: " (errorf "failed to read CA file: " (ErrMsg "open : no such file or directory"))).
Proof. vm_compute. done. Qed.
Example deadlines :
  contextWithRequestTimeout (Some (storeOf (settings false))) None 10 = Some 3000000010%Z ∧
  contextWithRequestTimeout (Some (storeOf (settings false))) (Some 20%Z) 10 = Some 20%Z ∧ contextWithRequestTimeout None None 10 = None.
Proof. vm_compute. done. Qed.
End EtcdClientExamples.
