(* ===== verification/Process.v ===== *)
(** * Programs of calls

    A process as a tree of calls to the libraries, the operating system and the other
    parts of the program, whose branches are the answers; and what holds on every branch
    of such a tree when its calls act on a state of its own. *)

From stdpp Require Import base tactics list strings.
From S2P Require Import Prelude.

Module Process.
Inductive proc (C : Type → Type) (A : Type) : Type :=
  | Ret (a : A)
  | Call {B : Type} (c : C B) (k : B → proc C A).
Arguments Ret {C A}. Arguments Call {C A B}.
Fixpoint bindP {C A B} (m : proc C A) (f : A → proc C B) : proc C B :=
  match m with Ret a => f a | Call c k => Call c (λ r, bindP (k r) f) end.
#[global] Instance proc_ret {C} : MRet (proc C) := λ A a, Ret a.
#[global] Instance proc_bind {C} : MBind (proc C) := λ A B f m, bindP m f.
Definition call {C : Type → Type} {B} (c : C B) : proc C B := Call c Ret.
(** [defer]: what [body] returns is returned after [c] was called. *)
Definition deferring {C : Type → Type} {A B} (c : C B) (body : proc C A) : proc C A := a ← body; _ ← call c; mret a.
(** [if err := ...; err != nil { return ... }] *)
Definition orReturn {C : Type → Type} {A} (c : C error) (failed : err → A) (k : proc C A) : proc C A :=
  e ← call c; match e with Some e => mret (failed e) | None => k end.

Section Wp.
Context {C : Type → Type} {S : Type}.
(** What may not be called in a state, and what a call and its answer make of it. *)
Variable fault : ∀ {B}, C B → S → bool.
Variable effect : ∀ {B}, C B → B → S → S.
Fixpoint wp {A} (p : proc C A) (Q : A → S → Prop) (s : S) : Prop :=
  match p with
  | Ret a => Q a s
  | Call c k => fault c s = false ∧ ∀ r, wp (k r) Q (effect c r s)
  end.
Lemma proc_wp_bind {A B} (m : proc C A) (f : A → proc C B) Q s : wp m (λ a, wp (f a) Q) s → wp (m ≫= f) Q s.
Proof. revert s. induction m as [a|X c k IH]; intros s; [done|]. intros [Hf Hk]. split; [done|]. intros r. apply IH, Hk. Qed.
Lemma proc_wp_mono {A} (m : proc C A) (Q Q' : A → S → Prop) s : (∀ a s, Q a s → Q' a s) → wp m Q s → wp m Q' s.
Proof. intros HQ. revert s. induction m as [a|X c k IH]; intros s; [apply HQ|]. intros [Hf Hk]. split; [done|]. intros r. apply IH, Hk. Qed.
Lemma wp_ret {A} (a : A) (Q : A → S → Prop) s : Q a s → wp (mret a) Q s.
Proof. done. Qed.
Lemma wp_call {B} (c : C B) Q s : fault c s = false → (∀ r, Q r (effect c r s)) → wp (call c) Q s.
Proof. done. Qed.
Lemma wp_call_bind {A B} (c : C B) (f : B → proc C A) Q s :
  fault c s = false → (∀ r, wp (f r) Q (effect c r s)) → wp (r ← call c; f r) Q s.
Proof. done. Qed.
Lemma wp_deferring {A B} (c : C B) (body : proc C A) Q s :
  wp body (λ a s, fault c s = false ∧ ∀ r, Q a (effect c r s)) s → wp (deferring c body) Q s.
Proof. intros Hb. apply proc_wp_bind. eapply proc_wp_mono, Hb. intros a s' H. apply proc_wp_bind. exact H. Qed.
Lemma wp_orReturn {A} (c : C error) (failed : err → A) k Q s :
  fault c s = false → (∀ e, Q (failed e) (effect c (Some e) s)) → wp k Q (effect c None s) → wp (orReturn c failed k) Q s.
Proof. intros Hf Hfail Hk. split; [done|]. intros [e|]; [apply Hfail|exact Hk]. Qed.
(** A call that may be made. *)
Definition faulty {A} (p : proc C A) (s : S) : bool := match p with Call c _ => fault c s | Ret _ => false end.
Lemma wp_faulty {A} (p : proc C A) Q s : wp p Q s → faulty p s = false.
Proof. destruct p; [done|]. by intros [? _]. Qed.
End Wp.
End Process.
