(* ===== verification/AgentMain.v ===== *)
(** * The process of the version 2 agent
    (cmd/arcalb-agent/main.go, internal/agent/watcher/watcher.go, internal/pkg/otel/setup.go)

    [run] opens the parts of the agent, starts them, waits, stops and closes them; a
    goroutine of it watches the virtual IPs, cleans up what is stale before the first
    event is handled, and says that the agent is ready.  The two are trees of calls,
    interleaved; that each part does what it promises is proved in the other files. *)

From Stdlib Require Import SpecFloat.
From stdpp Require Import base tactics list gmap strings pretty relations.
From S2P Require Import Prelude Types Net Store Routing Vpp VppSim Validation Health Yaml Duration Config Process.

Module Otel.
Import Process.
(** ** Telemetry (setup.go) *)
Record OtelConfig := { ServiceName : string; ServiceVersion : string; Endpoint : string; Insecure : bool; MetricsEnabled : bool }.
Inductive provider := Tracer | Meter.
#[global] Instance provider_eq_dec : EqDecision provider.
Proof. solve_decision. Defined.
Inductive ocall : Type → Type :=
  | NewResource (name version : string) : ocall error
  | NewTraceExporter (endpoint : string) (insecure : bool) : ocall error
  | NewPrometheusExporter : ocall error
  | SetProvider (p : provider) : ocall unit
  | ShutdownProvider (p : provider) : ocall error.
Definition setupTraces (cfg : OtelConfig) : proc ocall (err + list provider) :=
  if bool_decide (Endpoint cfg ≠ "") then
    orReturn (NewTraceExporter (Endpoint cfg) (Insecure cfg)) (λ e, inl (errorf "failed to create OTLP trace exporter: " e))
      (_ ← call (SetProvider Tracer); mret (inr [Tracer]))
  else mret (inr []).
Definition setupMetrics (cfg : OtelConfig) (fns : list provider) : proc ocall (err + list provider) :=
  if MetricsEnabled cfg then
    orReturn NewPrometheusExporter (λ e, inl (errorf "failed to create Prometheus exporter: " e))
      (_ ← call (SetProvider Meter); mret (inr (fns ++ [Meter])))
  else mret (inr fns).
(** The providers to shut down. *)
Definition Setup (cfg : OtelConfig) : proc ocall (err + list provider) :=
  orReturn (NewResource (ServiceName cfg) (ServiceVersion cfg)) (λ e, inl (errorf "failed to create OTel resource: " e))
    (fns ← setupTraces cfg; match fns with inl e => mret (inl e) | inr fns => setupMetrics cfg fns end).
Fixpoint shutdownFrom (firstErr : error) (fns : list provider) : proc ocall error :=
  match fns with
  | [] => mret firstErr
  | fn :: fns => e ← call (ShutdownProvider fn); shutdownFrom (match firstErr with None => e | _ => firstErr end) fns
  end.
Definition Shutdown (fns : list provider) : proc ocall error := shutdownFrom None fns.

(** The providers in use: a set-up that succeeds returns them all, and a shutdown reaches
    every one whatever fails. *)
Definition fault {B} (c : ocall B) (live : list provider) : bool :=
  match c with SetProvider p => bool_decide (p ∈ live) | ShutdownProvider p => negb (bool_decide (p ∈ live)) | _ => false end.
Definition effect {B} (c : ocall B) (r : B) (live : list provider) : list provider :=
  match c with SetProvider p => live ++ [p] | ShutdownProvider p => filter (λ q, q ≠ p) live | _ => live end.
#[local] Abbreviation wp := (wp (@fault) (@effect)).
Lemma Setup_live cfg : wp (Setup cfg) (λ r live, match r with inr fns => fns = live ∧ NoDup fns | inl _ => live ⊆ [Tracer] end) [].
Proof.
  apply wp_orReturn; [done|intros; simpl; set_solver|]. apply proc_wp_bind. unfold setupTraces. case_bool_decide.
  - apply wp_orReturn; [done|intros; simpl; set_solver|]. split; [done|]. intros []. unfold setupMetrics. simpl. destruct (MetricsEnabled cfg).
    + apply wp_orReturn; [done|intros; simpl; set_solver|]. split; [done|]. intros []. split; [done|]. repeat constructor; set_solver.
    + split; [done|]. repeat constructor; set_solver.
  - unfold setupMetrics. simpl. destruct (MetricsEnabled cfg).
    + apply wp_orReturn; [done|intros; simpl; set_solver|]. split; [done|]. intros []. split; [done|]. repeat constructor; set_solver.
    + split; [done|constructor].
Qed.
Lemma Shutdown_all fns : NoDup fns → wp (Shutdown fns) (λ _ live, live = []) fns.
Proof.
  unfold Shutdown. generalize (@None err). induction fns as [|p fns IH]; intros e Hn; [done|]. apply NoDup_cons in Hn as [Hp Hn].
  split; [simpl; by rewrite bool_decide_eq_true_2 by (by left)|]. intros r. simpl.
  rewrite filter_cons_False by auto. replace (filter (λ q, q ≠ p) fns) with fns; [by apply IH|].
  symmetry. clear -Hp. induction fns as [|q fns IH]; [done|]. apply not_elem_of_cons in Hp as [Hq Hp].
  rewrite filter_cons_True by auto. by rewrite IH.
Qed.
End Otel.

(** ** The watcher's goroutine (watcher.go) *)
Module WatcherProcess.
Import Process.
Record Config := { Kubeconfig : string; Namespace : string; ResyncInterval : Z }.
(** [New], of which only the default can matter. *)
Definition New (cfg : Config) : Config :=
  {| Kubeconfig := Kubeconfig cfg; Namespace := Namespace cfg;
     ResyncInterval := if (ResyncInterval cfg =? 0)%Z then 30 * 1000000000 else ResyncInterval cfg |}.
(** Calls of the Kubernetes libraries, of the gate of [Watcher], and of the closure the
    agent passes in.  A value received from [cacheErrCh] is an [error]. *)
Inductive wcall : Type → Type :=
  | BuildRESTConfig (kubeconfig : string) : wcall error
  | HTTPClientFor : wcall error
  | NewDynamicRESTMapper : wcall error
  | NewCache (syncPeriod : Z) (namespaces : list string) : wcall error
  | GetInformer : wcall error
  | AddEventHandler (gated : bool) : wcall error
  | RemoveEventHandler : wcall error
  | StartCache : wcall unit
  | WaitForCacheSync : wcall bool
  | CancelCache : wcall unit
  | PollCache : wcall (option error)
  | CacheContextErr : wcall error
  | ListCache (namespace : option string) : wcall (err + list VirtualIP)
  | AwaitCache : wcall error
  | Release : wcall unit
  | CleanupStale (currentVIPs : list VirtualIP) : wcall error
  | SetReady (ready : bool) : wcall unit
  | CloseSynced : wcall unit.
Definition namespaceOption (cfg : Config) : option string := if bool_decide (Namespace cfg ≠ "") then Some (Namespace cfg) else None.
Definition listCurrent (cfg : Config) : proc wcall (err + list VirtualIP) :=
  l ← call (ListCache (namespaceOption cfg)); mret (match l with inl e => inl (errorf "failed to list VirtualIPs: " e) | r => r end).
(** The cache did not sync: what ended it, or the cancelled context. *)
Definition notSynced : proc wcall error :=
  _ ← call CancelCache;
  polled ← call PollCache;
  match polled with
  | Some (Some e) => mret (Some e)
  | _ =>
      e ← call CacheContextErr;
      mret (match e with Some e => Some e | None => Some (ErrMsg "VirtualIP watcher cache did not sync") end)
  end.
Definition stopCache (e : err) : proc wcall error := _ ← call CancelCache; _ ← call AwaitCache; mret (Some e).
Definition initialSync (cfg : Config) (afterSync : list VirtualIP → proc wcall error) (k : proc wcall error) : proc wcall error :=
  synced ← call WaitForCacheSync;
  if negb synced then notSynced
  else
    currentVIPs ← listCurrent cfg;
    match currentVIPs with
    | inl e => stopCache e
    | inr currentVIPs =>
        e ← afterSync currentVIPs;
        match e with
        | Some e => stopCache e
        | None => _ ← call Release; k
        end
    end.
Definition StartWithInitialSync (cfg : Config) (afterSync : option (list VirtualIP → proc wcall error)) : proc wcall error :=
  let must c msg k := orReturn c (λ e, Some (errorf msg e)) k in
  must (BuildRESTConfig (Kubeconfig cfg)) "failed to build REST config: " (
  must HTTPClientFor "failed to create HTTP client: " (
  must NewDynamicRESTMapper "failed to create REST mapper: " (
  must (NewCache (ResyncInterval cfg) (option_list (namespaceOption cfg))) "failed to create cache: " (
  must GetInformer "failed to get informer: " (
  must (AddEventHandler (bool_decide (is_Some afterSync))) "failed to add event handler: " (
  deferring RemoveEventHandler (
  deferring CancelCache (
  _ ← call StartCache;
  match afterSync with
  | Some afterSync => initialSync cfg afterSync (call AwaitCache)
  | None => call AwaitCache
  end)))))))).
Definition Start (cfg : Config) : proc wcall error := StartWithInitialSync cfg None.
(** The closure of the agent: [cleanupStaleLastConfigs], then the agent is ready. *)
Definition afterSync (currentVIPs : list VirtualIP) : proc wcall error :=
  orReturn (CleanupStale currentVIPs) (λ e, Some (errorf "stale dataplane cleanup failed: " e))
    (_ ← call (SetReady true); _ ← call CloseSynced; mret None).

(** Its state: whether the handler is registered, and then whether events are let
    through; whether the clean-up has succeeded; what others are told. *)
Record W := { gate : option bool; cleaned : bool; ready : bool; synced : bool }.
Definition start : W := {| gate := None; cleaned := false; ready := false; synced := false |}.
Definition fault {B} (c : wcall B) (w : W) : bool :=
  match c with
  | AddEventHandler gated => negb gated
  | SetReady ready => negb (ready && cleaned w)
  | CloseSynced => synced w || negb (ready w)
  | Release => negb (bool_decide (gate w = Some false)) || negb (ready w)
  | RemoveEventHandler => bool_decide (gate w = None)
  | _ => false
  end.
Definition effect {B} (c : wcall B) (r : B) (w : W) : W :=
  match c in wcall B return B → W with
  | AddEventHandler gated => λ e,
      match e with None => {| gate := Some (negb gated); cleaned := cleaned w; ready := ready w; synced := synced w |} | Some _ => w end
  | RemoveEventHandler => λ _, {| gate := None; cleaned := cleaned w; ready := ready w; synced := synced w |}
  | CleanupStale _ => λ e,
      match e with None => {| gate := gate w; cleaned := true; ready := ready w; synced := synced w |} | Some _ => w end
  | SetReady b => λ _, {| gate := gate w; cleaned := cleaned w; ready := b; synced := synced w |}
  | CloseSynced => λ _, {| gate := gate w; cleaned := cleaned w; ready := ready w; synced := true |}
  | Release => λ _, {| gate := (λ _, true) <$> gate w; cleaned := cleaned w; ready := ready w; synced := synced w |}
  | _ => λ _, w
  end r.
(** What the rest of the agent relies on: it is ready, and events are handled, only after
    the clean-up. *)
Definition orderly (w : W) : Prop :=
  (ready w = true → cleaned w = true) ∧ (synced w = true → ready w = true) ∧ (gate w = Some true → ready w = true).

#[local] Abbreviation wp := (wp (@fault) (@effect)).
Lemma effect_orderly {B} (c : wcall B) r w : fault c w = false → orderly w → orderly (effect c r w).
Proof.
  intros Hf (H1 & H2 & H3). destruct w as [g c0 r0 s0]. unfold orderly in *. simpl in *.
  destruct c; simpl in *; try (split_and!; done); try (destruct r; [split_and!; done|]); simpl.
  - destruct gated; [|done]. split_and!; [done|done|by intros [=]].
  - destruct r0; [by split_and!; auto|by destruct s0, g as [[]|]].
  - by split_and!; auto.
  - destruct ready0, c0; try done; by split_and!; auto.
  - destruct r0; [by split_and!; auto|by destruct s0, g as [[]|]].
Qed.
Lemma effect_synced {B} (c : wcall B) r w : synced w = true → synced (effect c r w) = true.
Proof. destruct c; simpl; try done; by destruct r. Qed.
Lemma start_orderly : orderly start.
Proof. by split_and!. Qed.
Lemma StartWithInitialSync_wp cfg : wp (StartWithInitialSync cfg (Some afterSync)) (λ _ _, True) start.
Proof.
  unfold StartWithInitialSync. repeat (apply wp_orReturn; [done|done|]).
  apply wp_deferring, wp_deferring, wp_call_bind; [done|]. intros []. apply wp_call_bind; [done|]. intros []; cbv beta iota delta [negb].
  - apply proc_wp_bind, wp_call_bind; [done|]. intros [e|vips]; apply wp_ret; [by repeat (split; [done|]; intros ?)|].
    apply proc_wp_bind, wp_orReturn; [done|intros e; by repeat (split; [done|]; intros ?)|].
    by repeat (split; [done|]; intros ?).
  - split; [done|]. intros []. split; [done|]. intros [[e|]|]; by repeat (split; [done|]; intros ?).
Qed.
End WatcherProcess.

(** ** The process (main.go) *)
Module AgentMain.
Import Process Config.

(** What [run] opens, and closes when it returns. *)
Inductive part := Telemetry | LocalStore | TheDataPlane | TheRouter.
#[global] Instance part_eq_dec : EqDecision part.
Proof. solve_decision. Defined.
(** What the two [select]s of [run] find. *)
Inductive selected := WatcherExited (e : error) | HTTPExited (e : err) | Synced | Signalled.
(** The goroutines are started by [StartHTTP] and [StartWatcher]; [Opening] and
    [Closing] are the constructors and [Close] methods of the parts. *)
Inductive mcall : Type → Type :=
  | Load (path : string) : mcall (err + V2Config)
  | SetupTelemetry (cfg : Otel.OtelConfig) : mcall error
  | OpenStore (path : string) : mcall error
  | NewDataPlane (type : string) (vpp : VPPDataPlaneConfig) : mcall error
  | NewFRR (vtyshPath : string) (routeTag cmdTimeout : Z) : mcall error
  | NewNoop : mcall unit
  | Closing (p : part) : mcall error
  | NewUpdater (kubeconfig agentID : string) (ttl : Z) : mcall error
  | NewRollout (kubeconfig namespace holder : string) (leaseDuration retryInterval : Z) : mcall error
  | EngineStart : mcall error
  | ManagerStart : mcall unit
  | NewWatcher (cfg : WatcherProcess.Config) : mcall error
  | StartHTTP (address : string) : mcall unit
  | StartWatcher (cfg : WatcherProcess.Config) : mcall unit
  | SelectSynced : mcall selected
  | NotifySignals : mcall unit
  | SelectExit : mcall selected
  | Cancel : mcall unit
  | ShutdownHTTP : mcall error
  | ManagerStop : mcall unit
  | EngineStop : mcall unit.

Definition configPathOf (flag env : string) : string :=
  if bool_decide (flag ≠ "") then flag else if bool_decide (env ≠ "") then env else "/etc/arca-lb/agent.yaml".
Definition otelConfigOf (cfg : V2Config) : Otel.OtelConfig :=
  {| Otel.ServiceName := "arca-lb-agent"; Otel.ServiceVersion := "2.0.0"; Otel.Endpoint := OTLPEndpoint (Config.Telemetry cfg);
     Otel.Insecure := OTLPInsecure (Config.Telemetry cfg); Otel.MetricsEnabled := ms_Enabled (Metrics cfg) |}.
Definition watcherConfigOf (cfg : V2Config) : WatcherProcess.Config :=
  {| WatcherProcess.Kubeconfig := Kubeconfig (Kubernetes cfg); WatcherProcess.Namespace := Namespace (Kubernetes cfg);
     WatcherProcess.ResyncInterval := ResyncInterval (Kubernetes cfg) |}.

(** *** Stopping *)
Definition shutdownAgent (server : bool) : proc mcall unit :=
  _ ← call Cancel;
  _ ← (if server then call ShutdownHTTP else mret None);
  _ ← call ManagerStop;
  call EngineStop.
(** Waiting for what ends the process; the exit code. *)
Definition waitForExit : proc mcall Z :=
  _ ← call NotifySignals;
  s ← call SelectExit;
  _ ← shutdownAgent true;
  mret (match s with WatcherExited (Some _) | HTTPExited _ => 1 | _ => 0 end)%Z.
Definition waitForSync : proc mcall Z :=
  s ← call SelectSynced;
  match s with
  | Synced => waitForExit
  | _ => _ ← shutdownAgent true; mret 1%Z
  end.
Definition watch (cfg : V2Config) : proc mcall Z :=
  e ← call (NewWatcher (watcherConfigOf cfg));
  match e with
  | Some _ => _ ← shutdownAgent false; mret 1%Z
  | None =>
      _ ← call (StartHTTP (ms_Address (Metrics cfg)));
      _ ← call (StartWatcher (WatcherProcess.New (watcherConfigOf cfg)));
      waitForSync
  end.
(** *** Starting *)
Definition runAgent (cfg : V2Config) : proc mcall Z :=
  let fail c k := orReturn c (λ _, 1%Z) k in
  fail (NewUpdater (Kubeconfig (Kubernetes cfg)) (ID (Agent cfg)) (StatusTTL (Agent cfg))) (
  let rest := fail EngineStart (_ ← call ManagerStart; watch cfg) in
  if ro_Enabled (Rollout cfg)
  then fail (NewRollout (Kubeconfig (Kubernetes cfg)) (ro_LeaseNamespace (Rollout cfg)) (ID (Agent cfg))
               (ro_LeaseDuration (Rollout cfg)) (ro_RetryInterval (Rollout cfg))) rest
  else rest).
Definition newRouter (cfg : V2Config) : proc mcall error :=
  let r := Routing cfg in
  if rt_Enabled r && bool_decide (rt_Type r = "frr") then call (NewFRR (rt_VTYShPath r) (rt_RouteTag r) (rt_CmdTimeout r))
  else _ ← call NewNoop; mret None.
Definition run (flag env : string) : proc mcall Z :=
  cfg ← call (Load (configPathOf flag env));
  match cfg with
  | inl _ => mret 1%Z
  | inr cfg =>
      let fail c k := orReturn c (λ _, 1%Z) k in
      fail (SetupTelemetry (otelConfigOf cfg)) (deferring (Closing Telemetry) (
      fail (OpenStore (StorePath (Agent cfg))) (deferring (Closing LocalStore) (
      fail (NewDataPlane (dp_Type (DataPlane cfg)) (dp_VPPConfig (DataPlane cfg))) (deferring (Closing TheDataPlane) (
      e ← newRouter cfg;
      match e with
      | Some _ => mret 1%Z
      | None => deferring (Closing TheRouter) (runAgent cfg)
      end))))))
  end.

(** *** The HTTP server of the agent *)
Section Http.
(** The patterns that [http.ServeMux] takes, and the handler of the metrics. *)
Variable accepts : string → bool.
Inductive handler := PromHandler | Liveness | Readiness.
(** Registering panics on a pattern that is not taken or is there already. *)
Definition handle (pattern : string) (h : handler) (mux : option (list (string * handler))) : option (list (string * handler)) :=
  mux ← mux; if accepts pattern && negb (bool_decide (pattern ∈ mux.*1)) then Some (mux ++ [(pattern, h)]) else None.
Definition newAgentHTTPMux (cfg : MetricsSettings) : option (list (string * handler)) :=
  handle "/readyz" Readiness (handle "/livez" Liveness (handle "/health" Liveness
    (if ms_Enabled cfg then handle (ms_Path cfg) PromHandler (Some []) else Some []))).
(** The status and the body. *)
Definition respond (h : handler) (metrics : string) (ready : bool) : Z * string :=
  match h with
  | PromHandler => (200, metrics)
  | Liveness => (200, "ok")
  | Readiness => if ready then (200, "ok") else (503, "not ready")
  end%Z.
End Http.

(** *** The parts as they are opened and closed, and what runs *)
Record M := { opened : list part; engine : bool; manager : bool; http : bool; cancelled : bool; notified : bool; watched : bool; sawSync : bool }.
Definition start : M :=
  {| opened := []; engine := false; manager := false; http := false; cancelled := false; notified := false; watched := false; sawSync := false |}.
(** A part is closed when it is the one opened last, and not while what uses it runs;
    only what runs is stopped, after the context was cancelled. *)
Definition fault {B} (c : mcall B) (m : M) : bool :=
  match c with
  | Closing p => negb (bool_decide (head (opened m) = Some p)) || engine m || manager m || http m
  | EngineStart => negb (bool_decide (LocalStore ∈ opened m))
  | ManagerStart => negb (bool_decide ([TheRouter; TheDataPlane; LocalStore] ⊆ opened m) && engine m)
  | StartWatcher _ => negb (manager m) || watched m
  | ManagerStop => negb (manager m && cancelled m)
  | EngineStop => negb (engine m && cancelled m) || manager m
  | ShutdownHTTP => negb (http m)
  | _ => false
  end.
Definition opening (p : part) (e : error) (m : M) : M :=
  match e with
  | Some _ => m
  | None => {| opened := p :: opened m; engine := engine m; manager := manager m; http := http m; cancelled := cancelled m;
               notified := notified m; watched := watched m; sawSync := sawSync m |}
  end.
Definition effect {B} (c : mcall B) (r : B) (m : M) : M :=
  let running e g h c := {| opened := opened m; engine := e; manager := g; http := h; cancelled := c; notified := notified m; watched := watched m; sawSync := sawSync m |} in
  match c in mcall B return B → M with
  | SetupTelemetry _ => λ e, opening Telemetry e m
  | OpenStore _ => λ e, opening LocalStore e m
  | NewDataPlane _ _ => λ e, opening TheDataPlane e m
  | NewFRR _ _ _ => λ e, opening TheRouter e m
  | NewNoop => λ _, opening TheRouter None m
  | Closing _ => λ _,
      {| opened := tail (opened m); engine := engine m; manager := manager m; http := http m; cancelled := cancelled m;
         notified := notified m; watched := watched m; sawSync := sawSync m |}
  | EngineStart => λ e, match e with None => running true (manager m) (http m) (cancelled m) | Some _ => m end
  | ManagerStart => λ _, running (engine m) true (http m) (cancelled m)
  | StartHTTP _ => λ _, running (engine m) (manager m) true (cancelled m)
  | StartWatcher _ => λ _,
      {| opened := opened m; engine := engine m; manager := manager m; http := http m; cancelled := cancelled m;
         notified := notified m; watched := true; sawSync := sawSync m |}
  | Cancel => λ _, running (engine m) (manager m) (http m) true
  | ShutdownHTTP => λ _, running (engine m) (manager m) false (cancelled m)
  | ManagerStop => λ _, running (engine m) false (http m) (cancelled m)
  | EngineStop => λ _, running false (manager m) (http m) (cancelled m)
  | NotifySignals => λ _,
      {| opened := opened m; engine := engine m; manager := manager m; http := http m; cancelled := cancelled m;
         notified := true; watched := watched m; sawSync := sawSync m |}
  | SelectSynced => λ s,
      match s with
      | Synced => {| opened := opened m; engine := engine m; manager := manager m; http := http m; cancelled := cancelled m;
                     notified := notified m; watched := watched m; sawSync := true |}
      | _ => m
      end
  | _ => λ _, m
  end r.

(** ** The agent: its main goroutine and that of the watcher *)
Definition answers {B} (c : mcall B) (r : B) (m : M) (w : WatcherProcess.W) (result : option error) : Prop :=
  match c in mcall B return B → Prop with
  | SelectSynced => λ s,
      match s with
      | WatcherExited e => result = Some e
      | HTTPExited _ => http m = true
      | Synced => WatcherProcess.synced w = true
      | Signalled => False
      end
  | SelectExit => λ s,
      match s with
      | WatcherExited e => result = Some e
      | HTTPExited _ => http m = true
      | Synced => False
      | Signalled => notified m = true
      end
  | _ => λ _, True
  end r.
Definition spawned {B} (c : mcall B) (watcher : option (proc WatcherProcess.wcall error)) : option (proc WatcherProcess.wcall error) :=
  match c with StartWatcher cfg => Some (WatcherProcess.StartWithInitialSync cfg (Some WatcherProcess.afterSync)) | _ => watcher end.
Record sys := {
  main : proc mcall Z; state : M;
  watcher : option (proc WatcherProcess.wcall error); watching : WatcherProcess.W; result : option error;
  killed : bool;
}.
(** A signal the process has not asked for ends it. *)
Inductive step : sys → sys → Prop :=
  | step_main σ B (c : mcall B) k r :
      killed σ = false → main σ = Call c k → answers c r (state σ) (watching σ) (result σ) →
      step σ {| main := k r; state := effect c r (state σ); watcher := spawned c (watcher σ); watching := watching σ;
                result := result σ; killed := false |}
  | step_watcher σ B (c : WatcherProcess.wcall B) k r :
      killed σ = false → watcher σ = Some (Call c k) →
      step σ {| main := main σ; state := state σ; watcher := Some (k r); watching := WatcherProcess.effect c r (watching σ);
                result := result σ; killed := false |}
  | step_returned σ e :
      killed σ = false → watcher σ = Some (Ret e) →
      step σ {| main := main σ; state := state σ; watcher := None; watching := watching σ; result := Some e; killed := false |}
  | step_killed σ :
      killed σ = false → notified (state σ) = false →
      step σ {| main := main σ; state := state σ; watcher := watcher σ; watching := watching σ; result := result σ; killed := true |}.
Definition started (flag env : string) : sys :=
  {| main := run flag env; state := start; watcher := None; watching := WatcherProcess.start; result := None; killed := false |}.

(** ** Its life cycle *)
#[local] Abbreviation wp := (wp (@fault) (@effect)).
Definition idle (m : M) : Prop := engine m = false ∧ manager m = false ∧ http m = false.
(** How a part of [run] that leaves [opened] parts open ends. *)
Definition ends (l : list part) (code : Z) (m : M) : Prop := opened m = l ∧ idle m ∧ (code = 0%Z → sawSync m = true).
Lemma wp_defer p A (body : proc mcall A) (Q : A → M → Prop) m :
  wp body (λ a m', head (opened m') = Some p ∧ idle m' ∧ ∀ e, Q a (effect (Closing p) e m')) m → wp (deferring (Closing p) body) Q m.
Proof.
  intros Hb. apply wp_deferring. eapply proc_wp_mono, Hb. intros a m' (Hh & (He & Hg & Ht) & HQ). split; [|exact HQ].
  simpl. rewrite He, Hg, Ht, bool_decide_eq_true_2 by done. done.
Qed.
Lemma wp_parts p l body m : wp body (ends (p :: l)) m → wp (deferring (Closing p) body) (ends l) m.
Proof.
  intros Hb. apply wp_defer. eapply proc_wp_mono, Hb. intros code m' (Ho & Hi & Hc). rewrite Ho. split_and!; [done|apply Hi..|].
  intros e. unfold ends. simpl. rewrite Ho. done.
Qed.
Lemma wp_fail l (c : mcall error) k m : fault c m = false → opened m = l → idle m →
  (∀ e, effect c (Some e) m = m) → wp k (ends l) (effect c None m) → wp (orReturn c (λ _, 1%Z) k) (ends l) m.
Proof. intros Hf Ho Hi Hsame Hk. apply wp_orReturn; [done| |done]. intros e. rewrite Hsame. by split_and!. Qed.
Lemma watch_ends cfg l m : opened m = l → engine m = true → manager m = true → http m = false → watched m = false → wp (watch cfg) (ends l) m.
Proof.
  intros <- He Hg Hh Hw. destruct m as [o e g h c n w s]. simpl in *. subst.
  split; [done|]. intros [e|]; [by repeat (split; [done|]; intros ?)|].
  split; [done|]. intros []. split; [done|]. intros []. split; [done|].
  intros [e|e| |]; [by repeat (split; [done|]; intros ?)..| |by repeat (split; [done|]; intros ?)].
  by repeat (split; [done|]; intros ?).
Qed.
Lemma runAgent_ends cfg m : opened m = [TheRouter; TheDataPlane; LocalStore; Telemetry] → idle m → watched m = false →
  wp (runAgent cfg) (ends [TheRouter; TheDataPlane; LocalStore; Telemetry]) m.
Proof.
  intros Ho Hi Hw. apply wp_fail; [done..|]. change (effect _ None m) with m.
  assert (wp (orReturn EngineStart (λ _, 1%Z) (_ ← call ManagerStart; watch cfg)) (ends [TheRouter; TheDataPlane; LocalStore; Telemetry]) m) as Hrest.
  { destruct m as [o e g h c n w s], Hi as (He & Hg & Hh). cbn in Ho, He, Hg, Hh, Hw. subst. apply wp_fail; [done|done|done|done|].
    split; [done|]. intros []. by apply watch_ends. }
  destruct (ro_Enabled _); [|done]. by apply wp_fail.
Qed.
Lemma run_ends flag env : wp (run flag env) (ends []) start.
Proof.
  apply wp_call_bind; [done|]. intros [e|cfg]; [done|].
  apply wp_fail; [done..|]. apply wp_parts. apply wp_fail; [done..|]. apply wp_parts. apply wp_fail; [done..|]. apply wp_parts.
  apply proc_wp_bind. unfold newRouter. destruct (_ && _).
  - apply wp_call; [done|]. intros [e|]; [done|]. apply wp_parts. by apply runAgent_ends.
  - apply wp_call_bind; [done|]. intros []. apply wp_ret, wp_parts. by apply runAgent_ends.
Qed.

Record invariant (σ : sys) : Prop := {
  in_main : wp (main σ) (ends []) (state σ);
  in_watcher : ∀ p, watcher σ = Some p → Process.wp (@WatcherProcess.fault) (@WatcherProcess.effect) p (λ _ _, True) (watching σ);
  in_orderly : WatcherProcess.orderly (watching σ);
  in_synced : sawSync (state σ) = true → WatcherProcess.synced (watching σ) = true;
  in_unwatched : watched (state σ) = false → watcher σ = None ∧ watching σ = WatcherProcess.start;
}.
Lemma effect_sawSync {B} (c : mcall B) r m w result :
  answers c r m w result → (sawSync m = true → WatcherProcess.synced w = true) →
  sawSync (effect c r m) = true → WatcherProcess.synced w = true.
Proof. intros Ha Hs. destruct c; simpl in *; try done; destruct r; simpl in *; try done; by destruct e. Qed.
Lemma effect_watched {B} (c : mcall B) r m : watched (effect c r m) = false → watched m = false.
Proof. destruct c; simpl; try done; destruct r; try done; by destruct e. Qed.
Lemma agent_step_invariant σ σ' : step σ σ' → invariant σ → invariant σ'.
Proof.
  intros Hstep [Hm Hw Ho Hs Hu]. destruct Hstep as [σ B c k r _ Hc Ha|σ B c k r _ Hc|σ e _ Hc|σ _ Hn]; [..|by split].
  - rewrite Hc in Hm. destruct Hm as [Hf Hk]. split; simpl; [apply Hk| |done|by eapply effect_sawSync|].
    + intros p Hp. destruct c; simpl in *; try by apply Hw. injection Hp as <-.
      apply orb_false_iff in Hf as [_ Hf]. destruct (Hu Hf) as [_ ->]. apply WatcherProcess.StartWithInitialSync_wp.
    + intros H. assert (spawned c (watcher σ) = watcher σ) as -> by (by destruct c). by eapply Hu, effect_watched.
  - destruct (Hw _ Hc) as [Hf Hk]. split; simpl; [done|intros p [= <-]; apply Hk|by apply WatcherProcess.effect_orderly| |].
    + intros H. by apply WatcherProcess.effect_synced, Hs.
    + intros H. destruct (Hu H). congruence.
  - split; simpl; [done|done|done|done|]. intros H. destruct (Hu H). congruence.
Qed.
Lemma started_invariant flag env : invariant (started flag env).
Proof. split; [apply (run_ends flag env)|done|apply WatcherProcess.start_orderly|done|done]. Qed.

End AgentMain.

(** ** Concrete runs *)
Module AgentMainExamples.
Import Process Config AgentMain.
Definition cfg : V2Config := ConfigExamples.fileConfig None.
(** The answers of calls that succeed, and of what the two [select]s find. *)
Definition answer (s1 s2 : selected) {B} (c : mcall B) : B :=
  match c in mcall B return B with
  | Load _ => inr cfg
  | SelectSynced => s1
  | SelectExit => s2
  | SetupTelemetry _ | OpenStore _ | NewDataPlane _ _ | NewFRR _ _ _ | Closing _ | NewUpdater _ _ _ | NewRollout _ _ _ _ _
  | EngineStart | NewWatcher _ | ShutdownHTTP => None
  | NewNoop | ManagerStart | StartHTTP _ | StartWatcher _ | NotifySignals | Cancel | ManagerStop | EngineStop => tt
  end.
Definition watchAnswer {B} (c : WatcherProcess.wcall B) : B :=
  match c in WatcherProcess.wcall B return B with
  | WatcherProcess.WaitForCacheSync => true
  | WatcherProcess.PollCache => None
  | WatcherProcess.ListCache _ => inr []
  | WatcherProcess.BuildRESTConfig _ | WatcherProcess.HTTPClientFor | WatcherProcess.NewDynamicRESTMapper
  | WatcherProcess.NewCache _ _ | WatcherProcess.GetInformer | WatcherProcess.AddEventHandler _ | WatcherProcess.RemoveEventHandler
  | WatcherProcess.CacheContextErr | WatcherProcess.AwaitCache | WatcherProcess.CleanupStale _ => None
  | WatcherProcess.StartCache | WatcherProcess.CancelCache | WatcherProcess.Release | WatcherProcess.SetReady _
  | WatcherProcess.CloseSynced => tt
  end.
Definition mainStep (s1 s2 : selected) (σ : sys) : sys :=
  match main σ with
  | Call c k =>
      let r := answer s1 s2 c in
      {| main := k r; state := effect c r (state σ); watcher := spawned c (watcher σ); watching := watching σ;
         result := result σ; killed := false |}
  | Ret _ => σ
  end.
Definition watcherStep (σ : sys) : sys :=
  match watcher σ with
  | Some (Call c k) =>
      let r := watchAnswer c in
      {| main := main σ; state := state σ; watcher := Some (k r); watching := WatcherProcess.effect c r (watching σ);
         result := result σ; killed := false |}
  | _ => σ
  end.
(** Whether the answer of the next call of [run] is one it can have. *)
Definition mayStep (s1 s2 : selected) (σ : sys) : bool :=
  negb (killed σ) &&
  match main σ with
  | Call c _ =>
      match c in mcall B with
      | SelectSynced => match s1 with Synced => WatcherProcess.synced (watching σ) | HTTPExited _ => http (state σ) | _ => false end
      | SelectExit => match s2 with Signalled => notified (state σ) | HTTPExited _ => http (state σ) | _ => false end
      | _ => true
      end
  | Ret _ => true
  end.
Inductive who := Main | Watch.
Definition perform (s1 s2 : selected) (σ : sys) (t : who) : sys :=
  match t with
  | Main => if mayStep s1 s2 σ then mainStep s1 s2 σ else σ
  | Watch => if killed σ then σ else watcherStep σ
  end.
Lemma perform_step s1 s2 σ t : rtc step σ (perform s1 s2 σ t).
Proof.
  destruct t; simpl.
  - destruct (mayStep s1 s2 σ) eqn:Hm; [|done]. unfold mayStep in Hm. apply andb_true_iff in Hm as [Hk%negb_true_iff Hm].
    unfold mainStep. destruct (main σ) as [code|B c k] eqn:Hc; [done|]. apply rtc_once, step_main; [done|done|].
    destruct c; simpl; try done; [destruct s1|destruct s2]; try done.
  - destruct (killed σ) eqn:Hk; [done|]. unfold watcherStep. destruct (watcher σ) as [[e|B c k]|] eqn:Hw; [done| |done].
    apply rtc_once. by apply step_watcher.
Qed.
Lemma agent_performs s1 s2 l σ : rtc step σ (foldl (perform s1 s2) σ l).
Proof. revert σ. induction l as [|t l IH]; intros σ; simpl; [done|]. etransitivity; [apply perform_step|apply IH]. Qed.

(** The watcher syncs, cleans up and lets events through; then a signal stops the agent. *)
Definition stopped : sys := foldl (perform Synced Signalled) (started "" "") (replicate 14 Main ++ replicate 13 Watch ++ replicate 20 Main).
Definition exitCode (σ : sys) : option Z := match main σ with Ret code => Some code | _ => None end.
Lemma exitCode_ret σ code : exitCode σ = Some code → main σ = Ret code.
Proof. unfold exitCode. destruct (main σ); [by intros [= ->]|done]. Qed.

(** *** The HTTP server fails while the clean-up runs: [run] does not wait for the watcher, and
    closes what the clean-up uses. *)
Definition failed : sys :=
  foldl (perform (HTTPExited (ErrMsg "listen tcp :9090: bind: address already in use")) Signalled) (started "" "")
    (replicate 14 Main ++ replicate 9 Watch ++ replicate 20 Main).
Definition cleaning (σ : sys) : bool :=
  match watcher σ with Some (Call c _) => match c with WatcherProcess.CleanupStale _ => true | _ => false end | _ => false end.
Lemma closed_during_cleanup :
  rtc step (started "" "") failed ∧ exitCode failed = Some 1%Z ∧ cleaning failed = true ∧ opened (state failed) = [].
Proof. split; [apply agent_performs|]. vm_compute. done. Qed.

(** *** Signals are asked for only once the watcher has synced: before, one ends the process
    with everything open. *)
Definition starting : sys := foldl (perform Synced Signalled) (started "" "") (replicate 14 Main ++ replicate 9 Watch).
Lemma killed_before_sync : ∃ σ, rtc step (started "" "") σ ∧ killed σ = true ∧ cleaning σ = true ∧
  opened (state σ) = [TheRouter; TheDataPlane; LocalStore; Telemetry].
Proof.
  eexists. split.
  - eapply rtc_r; [apply (agent_performs Synced Signalled (replicate 14 Main ++ replicate 9 Watch))|].
    apply step_killed; vm_compute; done.
  - vm_compute. done.
Qed.

(** *** The HTTP server *)
Definition anyPath (s : string) : bool := true.
Example http_routes :
  option_map (map fst) (newAgentHTTPMux anyPath {| ms_Enabled := true; ms_Address := ""; ms_Path := "/metrics" |}) =
    Some ["/metrics"; "/health"; "/livez"; "/readyz"] ∧
  newAgentHTTPMux anyPath {| ms_Enabled := true; ms_Address := ""; ms_Path := "/health" |} = None.
Proof. vm_compute. done. Qed.
End AgentMainExamples.
