(* ===== verification/Mains.v ===== *)
(** * The processes of the controller and of the operator
    (cmd/arcalb-controller/main.go, cmd/operator/main.go, controller/api/server.go,
    controller/grpc/server.go)

    What they open and start, what they wait for, and how they stop, as trees of calls. *)

From Stdlib Require Import SpecFloat.
From stdpp Require Import base tactics list gmap strings pretty.
From S2P Require Import Prelude Types Net Store Validation Duration Config Models Etcd V1Config ControllerConfig Sync Operator Process.

Module ControllerMain.
Import Process ControllerConfig.
Definition second : Z := 1000000000.
Definition grpcShutdownTimeout : Z := 5 * second.

(** ** The servers' goroutines *)
Record httpServer := {
  hs_Addr : string; hs_ReadTimeout : Z; hs_WriteTimeout : Z; hs_ReadHeaderTimeout : Z; hs_IdleTimeout : Z; hs_MaxHeaderBytes : Z;
  hs_MinTLS12 : bool;
}.
(** http.ErrServerClosed and grpc.ErrServerStopped, or another error. *)
Inductive serveErr := ErrServerClosed | OtherErr (e : err).
(** The fields [s.httpServer] and [s.grpcServer] are set by [MakeHTTP] and [MakeGRPC];
    the other calls are those of net/http, net and grpc-go. *)
Inductive scall : Type → Type :=
  | MakeHTTP (s : httpServer) : scall unit
  | ListenAndServeTLS (certFile keyFile : string) : scall (option serveErr)
  | ListenAndServe : scall (option serveErr)
  | MakeGRPC (o : SyncService.ServerOptions) : scall unit
  | Listen (addr : string) : scall error
  | Serve : scall (option serveErr).
Definition addressOf (host : string) (port : Z) : string := host +:+ ":" +:+ pretty port.
Definition newHTTPServer (s : ServerConfig) (addr : string) : httpServer :=
  {| hs_Addr := addr; hs_ReadTimeout := ReadTimeout s; hs_WriteTimeout := WriteTimeout s; hs_ReadHeaderTimeout := ReadHeaderTimeout s;
     hs_IdleTimeout := IdleTimeout s; hs_MaxHeaderBytes := MaxHeaderBytes s; hs_MinTLS12 := TLS s |}.
(** What [Start] makes of the end of its server. *)
Definition endOfServer (ctx : string) (e : option serveErr) : error :=
  match e with Some (OtherErr e) => Some (errorf ctx e) | _ => None end.
Definition apiStart (s : ServerConfig) : proc scall error :=
  let addr := addressOf (Host s) (Port s) in
  if bool_decide (APIKey s ≠ "") && negb (TLS s) then mret (Some (ErrMsg "server.tls must be enabled when server.api_key is set"))
  else
    _ ← call (MakeHTTP (newHTTPServer s addr));
    e ← call (if TLS s then ListenAndServeTLS (CertFile s) (KeyFile s) else ListenAndServe);
    mret (endOfServer "failed to start server: " e).

Section Servers.
Variable LoadX509KeyPair : string → string → error.
Variable readFile : string → err + string.
Variable AppendCertsFromPEM : string → bool.
Definition initializeGRPCServer (g : GRPCConfig) : proc scall error :=
  match SyncService.grpcServerOptions LoadX509KeyPair readFile AppendCertsFromPEM g with
  | inl e => mret (Some e)
  | inr opts => _ ← call (MakeGRPC opts); mret None
  end.
Definition grpcStart (g : GRPCConfig) : proc scall error :=
  e ← initializeGRPCServer g;
  match (e : error) with
  | Some e => mret (Some e)
  | None =>
      let addr := addressOf (g_Host g) (g_Port g) in
      orReturn (Listen addr) (λ e, Some (errorf ("failed to listen on " +:+ addr +:+ ": ") e))
        (e ← call Serve; mret (endOfServer "failed to serve gRPC: " e))
  end.
End Servers.

(** ** The main goroutine *)
Inductive event := Signalled | ServerFailed (e : err).
(** [HTTPMade] and [GRPCMade] read the servers' fields; [GracefulStopOrDone] is the [select]
    of [Stop]: the calls in progress ended, or the context did. *)
Inductive ccall : Type → Type :=
  | Load (path : string) : ccall (err + Config)
  | NewStore (cfg : StoreConfig) : ccall error
  | CloseStore : ccall error
  | NotifySignals : ccall unit
  | StopSignals : ccall unit
  | GoServers (s : ServerConfig) (g : GRPCConfig) : ccall unit
  | Wait : ccall event
  | GRPCMade : ccall bool
  | GracefulStopOrDone (timeout : Z) : ccall error
  | ForceStop : ccall unit
  | AwaitStopped : ccall unit
  | HTTPMade : ccall bool
  | ShutdownHTTP (timeout : Z) : ccall error.
Definition grpcStop (timeout : Z) : proc ccall error :=
  made ← call GRPCMade;
  if negb made then mret None
  else
    e ← call (GracefulStopOrDone timeout);
    match (e : error) with
    | None => mret None
    | Some e => _ ← call ForceStop; _ ← call AwaitStopped; mret (Some e)
    end.
Definition apiShutdown (timeout : Z) : proc ccall error :=
  made ← call HTTPMade;
  if (made : bool) then call (ShutdownHTTP timeout) else mret None.
Definition runControllerServers (cfg : Config) : proc ccall Z :=
  _ ← call (GoServers (Server cfg) (GRPC cfg));
  s ← call Wait;
  _ ← grpcStop grpcShutdownTimeout;
  _ ← apiShutdown (30 * second);
  mret (match s with Signalled => 0 | ServerFailed _ => 1 end)%Z.
Definition runController (configPath : string) : proc ccall Z :=
  cfg ← call (Load configPath);
  match cfg with
  | inl _ => mret 1%Z
  | inr cfg =>
      orReturn (NewStore (ToDataStoreConfig cfg)) (λ _, 1%Z) (deferring CloseStore (
      _ ← call NotifySignals;
      deferring StopSignals (runControllerServers cfg)))
  end.

(** What the main goroutine did: [found] is what it read of a server's field, and a server
    is closed from the call that stops it on. *)
Record M := {
  storeOpen : bool; signals : bool; started : option (ServerConfig * GRPCConfig); ended : option event;
  grpcFound : option bool; grpcClosed : bool; httpFound : option bool; httpClosed : bool;
}.
Definition start : M :=
  {| storeOpen := false; signals := false; started := None; ended := None;
     grpcFound := None; grpcClosed := false; httpFound := None; httpClosed := false |}.
Definition withStore (b : bool) (m : M) : M :=
  {| storeOpen := b; signals := signals m; started := started m; ended := ended m; grpcFound := grpcFound m; grpcClosed := grpcClosed m; httpFound := httpFound m; httpClosed := httpClosed m |}.
Definition withSignals (b : bool) (m : M) : M :=
  {| storeOpen := storeOpen m; signals := b; started := started m; ended := ended m; grpcFound := grpcFound m; grpcClosed := grpcClosed m; httpFound := httpFound m; httpClosed := httpClosed m |}.
Definition withServers (c : ServerConfig * GRPCConfig) (m : M) : M :=
  {| storeOpen := storeOpen m; signals := signals m; started := Some c; ended := ended m; grpcFound := grpcFound m; grpcClosed := grpcClosed m; httpFound := httpFound m; httpClosed := httpClosed m |}.
Definition withEvent (e : event) (m : M) : M :=
  {| storeOpen := storeOpen m; signals := signals m; started := started m; ended := Some e; grpcFound := grpcFound m; grpcClosed := grpcClosed m; httpFound := httpFound m; httpClosed := httpClosed m |}.
Definition withGRPC (found : option bool) (closed : bool) (m : M) : M :=
  {| storeOpen := storeOpen m; signals := signals m; started := started m; ended := ended m; grpcFound := found; grpcClosed := closed; httpFound := httpFound m; httpClosed := httpClosed m |}.
Definition withHTTP (found : option bool) (closed : bool) (m : M) : M :=
  {| storeOpen := storeOpen m; signals := signals m; started := started m; ended := ended m; grpcFound := grpcFound m; grpcClosed := grpcClosed m; httpFound := found; httpClosed := closed |}.
(** What happens to a server once it was asked for: it is stopped if it was there. *)
Definition settled (found : option bool) (closed : bool) : bool := bool_decide (found = Some closed).
(** The servers get an open store; the gRPC server is stopped first, then the REST server,
    and the store is closed last. *)
Definition fault {B} (c : ccall B) (m : M) : bool :=
  match c with
  | GoServers _ _ => negb (storeOpen m && signals m)
  | GracefulStopOrDone _ => negb (bool_decide (grpcFound m = Some true))
  | ForceStop | AwaitStopped => negb (grpcClosed m)
  | HTTPMade => negb (settled (grpcFound m) (grpcClosed m))
  | ShutdownHTTP _ => negb (bool_decide (httpFound m = Some true))
  | StopSignals => negb (signals m)
  | CloseStore => negb (storeOpen m && negb (signals m) && settled (grpcFound m) (grpcClosed m) && settled (httpFound m) (httpClosed m))
  | _ => false
  end.
Definition effect {B} (c : ccall B) (r : B) (m : M) : M :=
  match c in ccall B return B → M with
  | NewStore _ => λ e, match e with None => withStore true m | Some _ => m end
  | CloseStore => λ _, withStore false m
  | NotifySignals => λ _, withSignals true m
  | StopSignals => λ _, withSignals false m
  | GoServers s g => λ _, withServers (s, g) m
  | Wait => λ e, withEvent e m
  | GRPCMade => λ b, withGRPC (Some b) (grpcClosed m) m
  | GracefulStopOrDone _ => λ _, withGRPC (grpcFound m) true m
  | HTTPMade => λ b, withHTTP (Some b) (httpClosed m) m
  | ShutdownHTTP _ => λ _, withHTTP (httpFound m) true m
  | _ => λ _, m
  end r.

(** ** The goroutines together *)
Section Run.
Variable LoadX509KeyPair : string → string → error.
Variable readFile : string → err + string.
Variable AppendCertsFromPEM : string → bool.
(** [http] and [grpc]: the goroutines once they are started, [None] after they ended; [errs]:
    [serverErrCh], which has room for both. *)
Record sys := {
  main : proc ccall Z; m : M; http : option (proc scall error); grpc : option (proc scall error);
  httpMade : bool; grpcMade : bool; errs : list err;
}.
Definition initial (path : string) : sys :=
  {| main := runController path; m := start; http := None; grpc := None; httpMade := false; grpcMade := false; errs := [] |}.
(** What a call of the main goroutine may answer; a signal may come at any time. *)
Definition answers {B} (c : ccall B) (r : B) (σ : sys) : Prop :=
  match c in ccall B return B → Prop with
  | Wait => λ e, match e with Signalled => True | ServerFailed e => head (errs σ) = Some e end
  | GRPCMade => λ b, b = grpcMade σ
  | HTTPMade => λ b, b = httpMade σ
  | _ => λ _, True
  end r.
(** A closed server ends with its own error, the gRPC server also with none, and an open
    one with another error. *)
Definition served {B} (c : scall B) (r : B) (m : M) : Prop :=
  match c in scall B return B → Prop with
  | ListenAndServe | ListenAndServeTLS _ _ => λ r, if httpClosed m then r = Some ErrServerClosed else ∃ e, r = Some (OtherErr e)
  | Serve => λ r, if grpcClosed m then r = None ∨ r = Some ErrServerClosed else ∃ e, r = Some (OtherErr e)
  | _ => λ _, True
  end r.
Definition sent (ctx : string) (r : error) (l : list err) : list err :=
  match r with Some e => l ++ [errorf ctx e] | None => l end.
Inductive step : sys → sys → Prop :=
  | step_main B (c : ccall B) k r σ : main σ = Call c k → answers c r σ →
      step σ {| main := k r; m := effect c r (m σ); httpMade := httpMade σ; grpcMade := grpcMade σ;
        http := match c with GoServers s _ => Some (apiStart s) | _ => http σ end;
        grpc := match c with GoServers _ g => Some (grpcStart LoadX509KeyPair readFile AppendCertsFromPEM g) | _ => grpc σ end;
        errs := match c with Wait => tail (errs σ) | _ => errs σ end |}
  | step_http B (c : scall B) k r σ : http σ = Some (Call c k) → served c r (m σ) →
      step σ {| main := main σ; m := m σ; http := Some (k r); grpc := grpc σ;
        httpMade := match c with MakeHTTP _ => true | _ => httpMade σ end; grpcMade := grpcMade σ; errs := errs σ |}
  | step_grpc B (c : scall B) k r σ : grpc σ = Some (Call c k) → served c r (m σ) →
      step σ {| main := main σ; m := m σ; http := http σ; grpc := Some (k r);
        httpMade := httpMade σ; grpcMade := match c with MakeGRPC _ => true | _ => grpcMade σ end; errs := errs σ |}
  | step_httpEnds r σ : http σ = Some (Ret r) →
      step σ {| main := main σ; m := m σ; http := None; grpc := grpc σ; httpMade := httpMade σ; grpcMade := grpcMade σ;
        errs := sent "REST API server stopped with error: " r (errs σ) |}
  | step_grpcEnds r σ : grpc σ = Some (Ret r) →
      step σ {| main := main σ; m := m σ; http := http σ; grpc := None; httpMade := httpMade σ; grpcMade := grpcMade σ;
        errs := sent "gRPC server stopped with error: " r (errs σ) |}.

(** At the end nothing is left open: a server is closed unless it was not there when it was
    to be stopped; and the code is 0 only after a signal. *)
Definition ending (code : Z) (m : M) : Prop :=
  storeOpen m = false ∧ signals m = false ∧
  (started m ≠ None → grpcFound m = Some (grpcClosed m) ∧ httpFound m = Some (httpClosed m)) ∧
  (code = 0%Z → ended m = Some Signalled).
Lemma runController_ends path : wp (@fault) (@effect) (runController path) ending start.
Proof.
  split; [done|]. intros [e|cfg]; [by split_and!|]. split; [done|]. intros [e|]; [by split_and!|].
  split; [done|]. intros []. split; [done|]. intros []. split; [done|].
  intros [|e]; (split; [done|]); intros [];
    repeat first [split; [done|]; intros [] | by split_and! | split; [done|]; intros ?].
Qed.
Definition invariant (σ : sys) : Prop :=
  wp (@fault) (@effect) (main σ) ending (m σ) ∧ (grpcFound (m σ) = Some true → grpcMade σ = true) ∧ (httpFound (m σ) = Some true → httpMade σ = true).
Lemma controller_step_invariant σ σ' : step σ σ' → invariant σ → invariant σ'.
Proof.
  intros Hs (Hw & Hg & Hh). destruct Hs as [B c k r σ E Ha|B c k r σ E Ha|B c k r σ E Ha|r σ E|r σ E]; try done.
  - rewrite E in Hw. destruct Hw as [_ Hw]. split; [by apply Hw|].
    destruct c; simpl in *; try done; by repeat (case_match; simpl in * ); split; intros; simplify_eq/=; auto.
  - split_and!; [done..|]. destruct c; simpl; auto.
  - split_and!; [done| |done]. destruct c; simpl; auto.
Qed.
(** When the controller returns, its store is closed, and before that each server that its
    goroutine had made was stopped, the gRPC server first; in every interleaving of the three
    goroutines and whatever the libraries answer. No call comes out of order. *)
Theorem controller_ends path σ : rtc step (initial path) σ →
  (∀ code, main σ = Ret code → ending code (m σ)) ∧ faulty (@fault) (main σ) (m σ) = false.
Proof.
  intros Hr. assert (invariant σ) as (Hw & _ & _).
  { eapply (rtc_ind_r invariant); [| |exact Hr]; [split; [apply runController_ends|done]|]. intros; by eapply controller_step_invariant. }
  split; [by intros code E; rewrite E in Hw|by eapply wp_faulty].
Qed.
(** A goroutine is at the call that serves, of a server that is open. *)
Definition serving (σ : sys) : bool :=
  match grpc σ with Some (Call Serve _) => negb (grpcClosed (m σ)) | _ => false end.
End Run.

(** A key never crosses an unencrypted connection: with one set and no TLS the servers are
    not even made. *)
Lemma apiStart_keyed s : APIKey s ≠ "" → TLS s = false →
  apiStart s = mret (Some (ErrMsg "server.tls must be enabled when server.api_key is set")).
Proof. intros Hk Ht. unfold apiStart. by rewrite bool_decide_eq_true_2, Ht by done. Qed.
Lemma grpcStart_keyed l r a g : g_APIKey g ≠ "" → g_TLS g = false →
  grpcStart l r a g = mret (Some (ErrMsg "grpc.tls must be enabled when grpc.api_key is set")).
Proof.
  intros Hk Ht. unfold grpcStart, initializeGRPCServer, SyncService.grpcServerOptions, Text.isSet.
  by rewrite bool_decide_eq_true_2, Ht by done.
Qed.
End ControllerMain.

Module ControllerExamples.
Import Process ControllerConfig ControllerMain.
Section Run.
Variable LoadX509KeyPair : string → string → error.
Variable readFile : string → err + string.
Variable AppendCertsFromPEM : string → bool.
Variable cfg : Config.
Let step := step LoadX509KeyPair readFile AppendCertsFromPEM.
#[local] Ltac mainStep r := eapply rtc_l; [eapply (step_main _ _ _ _ _ _ r); [reflexivity|done]|cbn].
#[local] Ltac httpStep r := eapply rtc_l; [eapply (step_http _ _ _ _ _ _ r); [reflexivity|cbn; eauto]|cbn].
#[local] Ltac grpcStep r := eapply rtc_l; [eapply (step_grpc _ _ _ _ _ _ r); [reflexivity|cbn; eauto]|cbn].
(** The port of the REST API is in use, and its goroutine runs first: the gRPC server is not
    there yet when it is to be stopped. It is made and serves afterwards, over a store that
    is closed, until the process exits. *)
Lemma serves_closed_store path : APIKey (Server cfg) = "" → TLS (Server cfg) = false → g_APIKey (GRPC cfg) = "" → g_TLS (GRPC cfg) = false →
  ∃ σ, rtc step (initial path) σ ∧ main σ = Ret 1%Z ∧ storeOpen (m σ) = false ∧ serving σ = true.
Proof.
  intros Hk Ht Hg Hgt. eexists. split.
  { mainStep (@inr err Config cfg). mainStep (@None err). mainStep tt. mainStep tt.
    unfold apiStart, grpcStart, initializeGRPCServer, SyncService.grpcServerOptions, Text.isSet. rewrite Hk, Ht, Hg, Hgt. cbn.
    httpStep tt. httpStep (Some (OtherErr (ErrMsg "listen tcp 127.0.0.1:8080: bind: address already in use"))).
    eapply rtc_l; [by eapply step_httpEnds|cbn].
    mainStep (ServerFailed (errorf "REST API server stopped with error: " (errorf "failed to start server: "
      (ErrMsg "listen tcp 127.0.0.1:8080: bind: address already in use")))).
    mainStep false. mainStep true. mainStep (@None err). mainStep tt. mainStep (@None err).
    grpcStep tt. grpcStep (@None err). apply rtc_refl. }
  done.
Qed.
End Run.
End ControllerExamples.

Module OperatorMain.
Import Process.
Record operatorOptions := {
  metricsAddr : string; probeAddr : string; enableWebhooks : bool; enableLeaderElection : bool;
  agentStatusTTL : Z; agentStatusPruneInterval : Z;
}.
(** The values of the flags that are not given. *)
Definition defaultOptions : operatorOptions :=
  {| metricsAddr := "127.0.0.1:8080"; probeAddr := ":8081"; enableWebhooks := false; enableLeaderElection := false;
     agentStatusTTL := 0; agentStatusPruneInterval := 0 |}.
Record managerOptions := {
  mo_MetricsAddr : string; mo_WebhookPort : Z; mo_ProbeAddr : string; mo_LeaderElection : bool; mo_LeaderElectionID : string;
}.
Definition managerOptionsOf (opts : operatorOptions) : managerOptions :=
  {| mo_MetricsAddr := metricsAddr opts; mo_WebhookPort := 9443; mo_ProbeAddr := probeAddr opts;
     mo_LeaderElection := enableLeaderElection opts; mo_LeaderElectionID := "arca-lb-operator.arca.io" |}.
(** Calls of controller-runtime; [ParseFlags] reads the command line over the defaults. *)
Inductive ocall : Type → Type :=
  | ParseFlags (defaults : operatorOptions) : ocall (err + operatorOptions)
  | GetConfig : ocall error
  | NewManager (opts : managerOptions) : ocall error
  | SetupController (r : Operator.VirtualIPReconciler) : ocall error
  | SetupWebhook : ocall error
  | AddHealthzCheck : ocall error
  | AddReadyzCheck : ocall error
  | StartManager : ocall error.
Definition runManager (opts : operatorOptions) : proc ocall Z :=
  let fail c k := orReturn c (λ _, 1%Z) k in
  let checks := fail AddHealthzCheck (fail AddReadyzCheck (fail StartManager (mret 0%Z))) in
  fail (SetupController {| Operator.AgentStatusTTL := agentStatusTTL opts; Operator.AgentStatusRequeueAfter := agentStatusPruneInterval opts |})
    (if enableWebhooks opts then fail SetupWebhook checks else checks).
Definition runOperator : proc ocall Z :=
  let fail c k := orReturn c (λ _, 1%Z) k in
  opts ← call (ParseFlags defaultOptions);
  match opts with
  | inl _ => mret 1%Z
  | inr opts => fail GetConfig (fail (NewManager (managerOptionsOf opts)) (runManager opts))
  end.

(** The manager is started once it has its controller and both of its checks, and the webhook
    where it is asked for. *)
Record O := { controller : bool; hook : bool; checks : nat; asked : bool; returned : bool }.
Definition start : O := {| controller := false; hook := false; checks := 0; asked := false; returned := false |}.
Definition fault {B} (c : ocall B) (s : O) : bool :=
  match c with StartManager => negb (controller s && (checks s =? 2) && (negb (asked s) || hook s)) | _ => false end.
Definition effect {B} (c : ocall B) (r : B) (s : O) : O :=
  let with_ c h n := {| controller := c; hook := h; checks := n; asked := asked s; returned := returned s |} in
  match c in ocall B return B → O with
  | ParseFlags _ => λ r,
      {| controller := controller s; hook := hook s; checks := checks s; returned := returned s;
         asked := match r with inr opts => enableWebhooks opts | inl _ => false end |}
  | SetupController _ => λ e, match e with None => with_ true (hook s) (checks s) | Some _ => s end
  | SetupWebhook => λ e, match e with None => with_ (controller s) true (checks s) | Some _ => s end
  | AddHealthzCheck | AddReadyzCheck => λ e, match e with None => with_ (controller s) (hook s) (S (checks s)) | Some _ => s end
  | StartManager => λ e,
      {| controller := controller s; hook := hook s; checks := checks s; asked := asked s;
         returned := match e with None => true | Some _ => false end |}
  | _ => λ _, s
  end r.
Theorem runOperator_ends : wp (@fault) (@effect) runOperator (λ code s, code = 0%Z ↔ returned s = true) start.
Proof.
  split; [done|]. intros [e|opts]; [done|]. do 3 (split; [done|]; intros [?|]; [done|]).
  destruct opts as [m p [] l t i]; simpl.
  - do 3 (split; [done|]; intros [?|]; [done|]). split; [done|]. by intros [?|].
  - do 2 (split; [done|]; intros [?|]; [done|]). split; [done|]. by intros [?|].
Qed.
End OperatorMain.
