(* ===== verification/Lifecycle.v ===== *)
(** * Starting and stopping a loop

    The version 1 agent's parts share a pattern (agent/vpp/connection.go,
    agent/reconciler/reconciler.go): [Start] sets a flag, makes the channels [stopCh] and
    [doneCh] and starts a goroutine; [Stop] closes [stopCh] and waits for [doneCh].  Here
    is the pattern with any number of goroutines that call [Start] and [Stop], and a rule
    for what a part does with its own state meanwhile. *)

From Stdlib Require Import ZifyBool.
From stdpp Require Import base tactics list gmap relations.
From S2P Require Import Prelude.

Module Lifecycle.
Section Pattern.
(** The state of the part; [P]: where its [Start] or its loop is. *)
Context {X P : Type}.
(** What [Start] does once its channels are made, what the loop does, and where the two
    begin; [outcome] is how [Start]'s work ended; the loop looks at [stopCh] and the context
    where it is [waiting]; [cleanup] is the last critical section of [Stop]; [env] is
    everything else that acts on the part's state. *)
Variable begin enter : P.
Variable work : P → X → P → X → Prop.
Variable outcome : P → option bool.
Variable waiting : P → bool.
Variable cleanup : X → X.
Variable env : X → X → Prop.

Inductive thread :=
  | Starting
  | Preparing (p : P)
  | Entering
  | Looping (done : nat) (p : P)
  | Stopping
  | Selecting
  | Closing
  | Reading (closed : bool)
  | Waiting (done : nat) (closed : bool)
  | Finishing.
(** [gen] counts the pairs of channels; [stopClosed] is about the current [stopCh], [done]
    holds the pairs whose [doneCh] is closed. *)
Record shared := { started : bool; gen : nat; stopClosed : bool; done : gset nat; panicked : bool; x : X }.
Definition withX (x' : X) (s : shared) : shared :=
  {| started := started s; gen := gen s; stopClosed := stopClosed s; done := done s; panicked := panicked s; x := x' |}.
Definition withStarted (b : bool) (s : shared) : shared :=
  {| started := b; gen := gen s; stopClosed := stopClosed s; done := done s; panicked := panicked s; x := x s |}.
Definition makeChannels (s : shared) : shared :=
  {| started := true; gen := S (gen s); stopClosed := false; done := done s; panicked := panicked s; x := x s |}.
Definition closeStop (s : shared) : shared :=
  {| started := started s; gen := gen s; stopClosed := true; done := done s; panicked := panicked s; x := x s |}.
Definition closeDone (g : nat) (s : shared) : shared :=
  {| started := started s; gen := gen s; stopClosed := stopClosed s; done := {[g]} ∪ done s; panicked := panicked s; x := x s |}.
Definition panic (s : shared) : shared :=
  {| started := started s; gen := gen s; stopClosed := stopClosed s; done := done s; panicked := true; x := x s |}.

(** One goroutine: what becomes of it, [None] when it ends. *)
Inductive tstep (s : shared) : thread → option thread → shared → Prop :=
  | start_refused : started s = true → tstep s Starting None s
  | start_makes : started s = false → tstep s Starting (Some (Preparing begin)) (makeChannels s)
  | start_works p p' x' : work p (x s) p' x' → tstep s (Preparing p) (Some (Preparing p')) (withX x' s)
  | start_done p : outcome p = Some true → tstep s (Preparing p) (Some Entering) s
  | start_fails p : outcome p = Some false → tstep s (Preparing p) None (withStarted false s)
  | loop_enters : tstep s Entering (Some (Looping (gen s) enter)) s
  | loop_works g p p' x' : work p (x s) p' x' → tstep s (Looping g p) (Some (Looping g p')) (withX x' s)
  | loop_ends g p : waiting p = true → tstep s (Looping g p) None (closeDone g s)
  | stop_idle : started s = false → tstep s Stopping None s
  | stop_checks : started s = true → tstep s Stopping (Some Selecting) s
  | stop_closed : stopClosed s = true → tstep s Selecting (Some (Reading false)) s
  | stop_open : stopClosed s = false → tstep s Selecting (Some Closing) s
  | stop_closes : stopClosed s = false → tstep s Closing (Some (Reading true)) (closeStop s)
  | stop_panics : stopClosed s = true → tstep s Closing None (panic s)
  | stop_reads b : tstep s (Reading b) (Some (Waiting (gen s) b)) s
  | stop_returns g : g ∈ done s → tstep s (Waiting g false) None s
  | stop_waited g : g ∈ done s → tstep s (Waiting g true) (Some Finishing) s
  | stop_finishes : tstep s Finishing None (withStarted false (withX (cleanup (x s)) s)).

(** A goroutine in a call of [Start] or [Stop]. *)
Definition isCall (t : thread) : bool := match t with Entering | Looping _ _ => false | _ => true end.
(** One that is starting the loop or is the loop. *)
Definition isRun (t : thread) : bool := match t with Preparing _ | Entering | Looping _ _ => true | _ => false end.
(** A [Stop] that closed [stopCh], and one that may still do so. *)
Definition isOwner (t : thread) : bool := match t with Reading true | Waiting _ true | Finishing => true | _ => false end.
Definition isStopper (t : thread) : bool := match t with Selecting | Closing => true | _ => false end.
Definition isClosing (t : thread) : bool := match t with Closing => true | _ => false end.
Fixpoint count (f : thread → bool) (l : list thread) : nat :=
  match l with [] => 0 | t :: l => (if f t then 1 else 0) + count f l end.

Record sys := { sh : shared; threads : list thread }.
Variable x0 : X.
Definition initial : sys :=
  {| sh := {| started := false; gen := 0; stopClosed := false; done := ∅; panicked := false; x := x0 |}; threads := [] |}.
(** A panic ends the process.  [serial]: whether the calls come one after the other. *)
Variable serial : bool.
Inductive step : sys → sys → Prop :=
  | step_thread s l1 t l2 r s' : panicked s = false → tstep s t r s' →
      step {| sh := s; threads := l1 ++ t :: l2 |} {| sh := s'; threads := l1 ++ option_list r ++ l2 |}
  | step_call s l t : panicked s = false → t = Starting ∨ t = Stopping → (serial = true → count isCall l = 0) →
      step {| sh := s; threads := l |} {| sh := s; threads := l ++ [t] |}
  | step_env s l x' : panicked s = false → env (x s) x' → step {| sh := s; threads := l |} {| sh := withX x' s; threads := l |}.

Lemma step_at i t r s' σ : panicked (sh σ) = false → threads σ !! i = Some t → tstep (sh σ) t r s' →
  step σ {| sh := s'; threads := take i (threads σ) ++ option_list r ++ drop (S i) (threads σ) |}.
Proof.
  destruct σ as [s l]. simpl. intros Hp Hi Ht. rewrite <-(take_drop_middle l i t Hi) at 1. by constructor.
Qed.
(** ** The rule *)
Lemma count_app f l1 l2 : count f (l1 ++ l2) = count f l1 + count f l2.
Proof. induction l1; simpl; lia. Qed.
Lemma count_zero f l : count f l = 0 ↔ Forall (λ t, f t = false) l.
Proof.
  induction l as [|t l IH]; simpl; [done|]. rewrite Forall_cons. destruct (f t); [split; [lia|by intros []]|].
  rewrite <- IH. split; [done|by intros []].
Qed.
Definition placed (s : shared) (t : thread) : Prop :=
  match t with Looping g _ | Waiting g true => g = gen s | Finishing => gen s ∈ done s | _ => True end.
Record orderly (s : shared) (l : list thread) : Prop := {
  o_runs : count isRun l + (if decide (gen s ∈ done s) then 1 else 0) ≤ 1;
  o_owners : count isOwner l ≤ 1;
  o_owned : 0 < count isOwner l → stopClosed s = true;
  o_stopped : started s = false → count isRun l = 0 ∧ count isOwner l = 0 ∧ (stopClosed s = true ∨ count isStopper l = 0);
  o_placed : Forall (placed s) l;
  o_done g : g ∈ done s → g ≤ gen s;
  o_calls : serial = true → count isCall l ≤ 1;
  o_closing : serial = true → 0 < count isClosing l → stopClosed s = false;
}.
(** Exchanging one goroutine. *)
Lemma counts_split (l1 l2 : list thread) t r :
  (∀ f, count f (l1 ++ t :: l2) = (if f t then 1 else 0) + (count f l1 + count f l2)) ∧
  (∀ f, count f (l1 ++ option_list r ++ l2) = count f (option_list r) + (count f l1 + count f l2)).
Proof. split; intros f; rewrite !count_app; simpl; lia. Qed.
(** A [Stop] that waits for a [doneCh] no loop will close: it never returns. *)
Definition abandoned (g : nat) (b : bool) (σ : sys) : Prop :=
  g ∉ done (sh σ) ∧ g ≤ gen (sh σ) ∧ (gen (sh σ) = g → count isRun (threads σ) = 0) ∧
  (∀ p, Looping g p ∉ threads σ) ∧ Waiting g b ∈ threads σ.
Lemma abandoned_step g b σ σ' : step σ σ' → abandoned g b σ → abandoned g b σ'.
Proof.
  intros Hs (Hd & Hg & Hr & Hl & Hw). unfold abandoned. destruct Hs as [s l1 t l2 r s' Hp Ht|s l t Hp Ht Hser|s l v' Hp He]; simpl in *.
  - destruct (counts_split l1 l2 t r) as [E1 E2]. rewrite E1 in Hr. rewrite E2. clear E1 E2.
    assert (t ≠ Waiting g b ∧ ∀ p, t ≠ Looping g p) as [Ht1 Ht2].
    { split; [intros ->; inversion Ht; subst; done|intros p ->; apply (Hl p); set_solver]. }
    assert (g ≠ S (gen s)) by lia.
    assert (Waiting g b ∈ l1 ++ option_list r ++ l2) by set_solver.
    assert ((∀ p, Looping g p ∉ option_list r) → ∀ p, Looping g p ∉ l1 ++ option_list r ++ l2) as Hl'.
    { intros Hlr p. specialize (Hl p). specialize (Hlr p). set_solver. }
    destruct Ht; simpl in *; split_and!; try done; try lia; try (apply Hl'; intros q Hq; (by apply not_elem_of_nil in Hq) || (apply list_elem_of_singleton in Hq; done)).
    + apply Hl'. intros q Hq%list_elem_of_singleton. injection Hq as -> _. by specialize (Hr eq_refl).
    + apply Hl'. intros q Hq%list_elem_of_singleton. injection Hq as -> _. by eapply Ht2.
    + intros [->%elem_of_singleton|?]%elem_of_union; [by eapply Ht2|done].
  - assert (count isRun (l ++ [t]) = count isRun l) as E by (rewrite count_app; destruct Ht as [-> | ->]; simpl; lia).
    rewrite E. split_and!; try done; [|set_solver]. intros p [?|Hp'%list_elem_of_singleton]%elem_of_app; [by eapply Hl|].
    by destruct Ht as [-> | ->].
  - done.
Qed.
Lemma abandoned_forever g b σ σ' : rtc step σ σ' → abandoned g b σ → Waiting g b ∈ threads σ'.
Proof. intros Hs Ha. assert (abandoned g b σ') as (_ & _ & _ & _ & ?); [|done]. revert Ha. induction Hs; eauto using abandoned_step. Qed.

(** What the part promises: of its state while it is stopped, while [Start] or its loop is
    somewhere, and between the end of the loop and the end of [Stop]. *)
Variable I : bool → option P → X → Prop.
Record laws : Prop := {
  l_begin v : I false None v → I true (Some begin) v;
  l_work p v p' v' : work p v p' v' → I true (Some p) v → I true (Some p') v';
  l_enter p v : outcome p = Some true → I true (Some p) v → I true (Some enter) v;
  l_fail p v : outcome p = Some false → I true (Some p) v → I false None v;
  l_end p v : waiting p = true → I true (Some p) v → I true None v;
  l_cleanup v : I true None v → I false None (cleanup v);
  l_env b o v v' : env v v' → I b o v → I b o v';
}.
Definition placeOf (t : thread) : option P :=
  match t with Preparing p | Looping _ p => Some p | Entering => Some enter | _ => None end.
Record kept (s : shared) (l : list thread) : Prop := {
  k_run t p : t ∈ l → placeOf t = Some p → I true (Some p) (x s);
  k_none : count isRun l = 0 → I (started s) None (x s);
}.
Lemma placeOf_run t p : placeOf t = Some p → isRun t = true.
Proof. by destruct t. Qed.
(** A [Start] never fails, or the calls are serial. *)
Hypothesis starts : serial = true ∨ ∀ p, outcome p ≠ Some false.

Lemma placed_gen s l : count isRun l = 0 → count isOwner l = 0 → Forall (placed (makeChannels s)) l.
Proof.
  rewrite !count_zero, !Forall_forall. intros Hr Ho t Ht. specialize (Hr t Ht). specialize (Ho t Ht).
  by destruct t as [| | | | | | |[]|? []|].
Qed.
Lemma placed_same s s' l : gen s' = gen s → done s ⊆ done s' → Forall (placed s) l → Forall (placed s') l.
Proof. intros Hg Hd Hl. eapply Forall_impl; [exact Hl|]. intros [| | | | | | | |? []|]; simpl; rewrite ?Hg; auto. Qed.
Lemma closing_calls l : count isClosing l ≤ count isCall l.
Proof. induction l as [|[] l IH]; simpl; lia. Qed.
Lemma stops_calls l : count isOwner l + count isStopper l ≤ count isCall l.
Proof. induction l as [|[] l IH]; simpl; repeat case_match; lia. Qed.
Lemma thread_orderly s l1 t l2 r s' : tstep s t r s' → orderly s (l1 ++ t :: l2) → panicked s' = panicked s →
  orderly s' (l1 ++ option_list r ++ l2).
Proof.
  intros Hs [Hr Ho Hc Hst Hp Hd Hca Hcl] Hpan. destruct (counts_split l1 l2 t r) as [E1 E2].
  rewrite !E1 in *. clear E1. apply Forall_app in Hp as [Hp1 Hp2]. apply Forall_cons in Hp2 as [Hpt Hp2].
  pose proof (closing_calls l1). pose proof (closing_calls l2). pose proof (stops_calls l1). pose proof (stops_calls l2).
  split; rewrite ?E2; clear E2.
  - destruct Hs; simpl in *; repeat case_decide; try lia.
    all: try (match goal with H : S _ ∈ _ |- _ => apply Hd in H; lia end).
  - destruct Hs; simpl in *; repeat case_match; try lia.
  - destruct Hs; simpl in *; repeat case_match; try lia.
  - destruct Hs; simpl in *; repeat case_match; try lia.
    all: try done. destruct starts as [Hser|Hf]; [lia|by edestruct Hf].
  - assert (gen s' = gen s → done s ⊆ done s' → Forall (placed s') (option_list r) → Forall (placed s') (l1 ++ option_list r ++ l2)) as Hsame.
    { intros Hg Hds Hrs. apply Forall_app; split; [by eapply placed_same|]. apply Forall_app; split; [done|by eapply placed_same]. }
    destruct Hs; try (apply Hsame; [done|set_solver|]; simpl in *; repeat constructor; simpl; subst; auto; by destruct b).
    destruct Hst as (Hn1 & Hn2 & _); [done|]. simpl in Hn1, Hn2.
    repeat (apply Forall_app; split); [apply placed_gen; lia|by repeat constructor|apply placed_gen; lia].
  - intros g'. specialize (Hd g'). destruct Hs; simpl in *; try (intros E; specialize (Hd E); lia); try (done).
    set_unfold. intros [->| ]; [lia|auto].
  - destruct Hs; simpl in *; lia.
  - destruct Hs; simpl in *; repeat case_match; try lia.
Qed.
Lemma no_place l : count isRun l = 0 → ∀ t p, t ∈ l → placeOf t ≠ Some p.
Proof. rewrite count_zero, Forall_forall. intros Hl t p Ht Hp. apply placeOf_run in Hp. by rewrite Hl in Hp. Qed.
Lemma thread_kept s l1 t l2 r s' : laws → tstep s t r s' → orderly s (l1 ++ t :: l2) → kept s (l1 ++ t :: l2) →
  kept s' (l1 ++ option_list r ++ l2).
Proof.
  intros HL Hs HO [Hk Hn]. pose proof (o_runs _ _ HO) as Hr. pose proof (o_stopped _ _ HO) as Hst.
  assert (placed s t) as Hpt by (eapply Forall_forall; [apply (o_placed _ _ HO)|set_solver]).
  destruct (counts_split l1 l2 t r) as [E1 E2]. rewrite !E1 in *. clear E1 HO.
  assert (∀ p, placeOf t = Some p → I true (Some p) (x s)) as Ht by (intros p; apply Hk; set_solver).
  assert (∀ u p, u ∈ l1 ++ l2 → placeOf u = Some p → I true (Some p) (x s)) as Ho by (intros u p Hu; apply Hk; set_solver).
  assert (count isRun l1 + count isRun l2 = 0 → ∀ u p, u ∈ l1 ++ l2 → placeOf u ≠ Some p) as Hno.
  { intros H. apply no_place. rewrite count_app. lia. }
  assert ((∀ u p, u ∈ l1 ++ l2 → placeOf u = Some p → I true (Some p) (x s')) →
          (∀ u p, u ∈ option_list r → placeOf u = Some p → I true (Some p) (x s')) →
          (count isRun (l1 ++ option_list r ++ l2) = 0 → I (started s') None (x s')) → kept s' (l1 ++ option_list r ++ l2)) as Hkept.
  { intros H1 H2 H3. split; [|done]. intros u p Hu. assert (u ∈ option_list r ∨ u ∈ l1 ++ l2) as [?|?] by set_solver; eauto. }
  apply Hkept; clear Hkept; rewrite ?E2; clear E2 Hk.
  - destruct Hs; simpl in *; try done; intros u q Hu Hq; exfalso; eapply Hno; try done; case_decide; try done; try lia.
  - destruct Hs as [H|H| | | | | | |H|H| | | | | | | |]; simpl in *; intros u q Hu Hq;
      (apply list_elem_of_singleton in Hu as -> || by apply not_elem_of_nil in Hu); simplify_eq/=; eauto using l_work, l_enter.
    apply (l_begin HL). rewrite <-H. apply Hn, Hst, H.
  - destruct Hs as [H|H| | | | | | |H|H| | | | | | | |]; simpl in *; try (intros; (done || lia)); try done; intros Hz.
    + eapply l_fail; eauto.
    + destruct (started s); [eapply l_end; eauto|]. by destruct Hst.
    + apply l_cleanup; [done|]. destruct (started s) eqn:E; [auto|]. by destruct Hst as (_ & ? & _).
Qed.

(** In every interleaving at most one loop is running or being started, none after a [Stop]
    returned, and the part's own state is as promised.  A panic can only come from two
    calls of [Stop] at once. *)
Definition safe (σ : sys) : Prop :=
  (serial = true → panicked (sh σ) = false) ∧ (panicked (sh σ) = false → orderly (sh σ) (threads σ) ∧ kept (sh σ) (threads σ)).
Lemma initial_safe : I false None x0 → safe initial.
Proof. intros HI. split; [done|]. intros _. split; split; simpl; auto; try lia; set_solver. Qed.
Lemma step_safe σ σ' : laws → step σ σ' → safe σ → safe σ'.
Proof.
  intros HL Hs [_ Hsafe]. destruct Hs as [s l1 t l2 r s' Hp Ht|s l t Hp Ht Hser|s l x' Hp He]; destruct (Hsafe Hp) as [HO HK]; simpl in *.
  - assert (panicked s' = panicked s ∨ (t = Closing ∧ s' = panic s) ∧ stopClosed s = true) as [E|[[-> ->] E]] by (destruct Ht; auto).
    + split; simpl; [by rewrite E|]. intros _. split; [by eapply thread_orderly|by eapply thread_kept].
    + split; simpl.
      * intros Hser. pose proof (o_closing _ _ HO Hser) as Hc. rewrite count_app in Hc. simpl in Hc. rewrite Hc in E; [done|lia].
      * done.
  - split; [done|]. intros _. destruct HO as [Hr Ho Hc Hst Hpl Hd Hca Hcl], HK as [Hk Hn].
    assert (∀ f, f Starting = false → f Stopping = false → count f (l ++ [t]) = count f l) as Ec.
    { intros f H1 H2. rewrite count_app. simpl. destruct Ht as [-> | ->]; rewrite ?H1, ?H2; lia. }
    split; split; simpl; rewrite ?Ec by done; try done.
    + apply Forall_app; split; [done|]. by destruct Ht as [-> | ->]; repeat constructor.
    + intros E. rewrite count_app, Hser by done. by destruct Ht as [-> | ->].
    + intros u p [Hu|Hu%list_elem_of_singleton]%elem_of_app; [by apply Hk|]. by destruct Ht as [-> | ->]; simplify_eq.
  - split; [done|]. intros _. split; [by destruct HO|]. destruct HK as [Hk Hn].
    split; simpl; [intros u p Hu Hp'|intros Hz]; eapply l_env; eauto.
Qed.
Lemma reachable_safe σ : laws → I false None x0 → rtc step initial σ → safe σ.
Proof.
  intros HL HI Hr. eapply (rtc_ind_r safe); [by apply initial_safe| |exact Hr]. intros; by eapply step_safe.
Qed.
Lemma count_some f l : count f l ≠ 0 → ∃ t, t ∈ l ∧ f t = true.
Proof.
  intros Hc. destruct (decide (Exists (λ t, f t = true) l)) as [E|E]; [by apply Exists_exists in E|]. exfalso. apply Hc, count_zero.
  apply Forall_forall. intros t Ht. destruct (f t) eqn:Et; [|done]. exfalso. apply E, Exists_exists. eauto.
Qed.
Lemma kept_some s l : kept s l → ∃ b o, I b o (x s).
Proof.
  intros [Hk Hn]. destruct (decide (count isRun l = 0)) as [E|(t & Ht & Hr)%count_some]; [by eauto|].
  destruct (placeOf t) as [p|] eqn:Ep; [by eauto|]. by destruct t.
Qed.
Theorem lifecycle σ : laws → I false None x0 → rtc step initial σ →
  (serial = true → panicked (sh σ) = false) ∧
  (panicked (sh σ) = false →
   count isRun (threads σ) ≤ 1 ∧ (∃ b o, I b o (x (sh σ))) ∧
   (∀ t p, t ∈ threads σ → placeOf t = Some p → I true (Some p) (x (sh σ))) ∧
   (started (sh σ) = false → count isRun (threads σ) = 0 ∧ I false None (x (sh σ)))).
Proof.
  intros HL HI Hr. destruct (reachable_safe _ HL HI Hr) as [Hp Hs]. split; [exact Hp|]. intros E.
  destruct (Hs E) as [HO HK]. pose proof (o_runs _ _ HO). split_and!; [lia|by eapply kept_some|apply (k_run _ _ HK)|].
  intros Ef. destruct (o_stopped _ _ HO Ef) as [Hz _]. pose proof (k_none _ _ HK Hz) as HI'. by rewrite Ef in HI'.
Qed.
End Pattern.
End Lifecycle.
