(* ===== verification/Connection.v ===== *)
(** * The version 1 agent's connection to VPP (agent/vpp/connection.go)

    Connecting with a timeout, the goroutine that watches over the connection, starting and
    stopping: an instance of the pattern of Lifecycle.  Connections are counted, to follow
    who holds which. *)

From stdpp Require Import base tactics list gmap fin_maps relations.
From S2P Require Import Prelude Lifecycle.

Module Connection.
Import Lifecycle.
(** An attempt to connect: the goroutine is in govpp.Connect, has its answer, or has put it
    into [resultCh], which has room for it. *)
Inductive flight := Dialing | Dialed (r : option nat) | Sent (r : option nat).
(** [live]: what was connected and not disconnected; [over]: the attempts whose context has
    ended; [next]: the number of the next connection and of the next attempt. *)
Record X := { conn : option nat; live : gset nat; flights : gmap nat flight; over : gset nat; next : nat; nextFlight : nat }.
Definition x0 : X := {| conn := None; live := ∅; flights := ∅; over := ∅; next := 0; nextFlight := 0 |}.
Definition withConn (c : option nat) (v : X) : X :=
  {| conn := c; live := live v; flights := flights v; over := over v; next := next v; nextFlight := nextFlight v |}.
Definition withLive (l : gset nat) (v : X) : X :=
  {| conn := conn v; live := l; flights := flights v; over := over v; next := next v; nextFlight := nextFlight v |}.
Definition withFlights (m : gmap nat flight) (v : X) : X :=
  {| conn := conn v; live := live v; flights := m; over := over v; next := next v; nextFlight := nextFlight v |}.
Definition ended (f : nat) (v : X) : X :=
  {| conn := conn v; live := live v; flights := flights v; over := {[f]} ∪ over v; next := next v; nextFlight := nextFlight v |}.
(** [c.conn.Disconnect(); c.conn = nil] *)
Definition disconnect (v : X) : X :=
  match conn v with Some c => withConn None (withLive (live v ∖ {[c]}) v) | None => v end.

Section Connecting.
(** The configuration: [MaxReconnectAttempts]. *)
Variable maxAttempts : Z.
(** Where [Start] or the monitor is; the number is the monitor's [attempts], and [None]
    stands for [Start]. *)
Inductive P :=
  | Dial (k : option Z)
  | Awaiting (f : nat) (k : option Z)
  | Connected
  | Failed
  | AtSelect (attempts : Z)
  | Checked (attempts : Z).
(** What follows a [connect] that returned: [Start] ends, the monitor goes on. *)
Definition after (k : option Z) (ok : bool) : P :=
  match k with
  | None => if ok then Connected else Failed
  | Some a => AtSelect (if ok then 0 else a)
  end.
(** A tick of the monitor: whether there is a connection, and whether it is healthy, that is
    whether a channel can be made of it. *)
Definition tick (healthy : bool) (attempts : Z) (v : X) : P :=
  match conn v with
  | None => Checked attempts
  | Some _ => if healthy then AtSelect 0 else Checked attempts
  end.
Definition exhausted (attempts : Z) : bool := ((0 <? maxAttempts) && (maxAttempts <=? attempts))%Z.
(** [reconnectWithLock] up to its call of [connect], with what it does under its lock. *)
Definition reconnectWithLock (healthy : bool) (attempts : Z) (v : X) : P * X :=
  if exhausted attempts then (AtSelect attempts, v)
  else
    let attempts := (attempts + 1)%Z in
    match conn v with
    | Some _ => if healthy then (AtSelect 0, v) else (Dial (Some attempts), disconnect v)
    | None => (Dial (Some attempts), v)
    end.
(** [connect]: its goroutine is started, and its [select] takes the result or the timeout,
    which may come at any time; then its context has ended. *)
Inductive work : P → X → P → X → Prop :=
  | dials k v : work (Dial k) v (Awaiting (nextFlight v) k)
      {| conn := conn v; live := live v; flights := <[nextFlight v := Dialing]> (flights v); over := over v;
         next := next v; nextFlight := S (nextFlight v) |}
  | receives f k r v : flights v !! f = Some (Sent r) →
      work (Awaiting f k) v (after k (bool_decide (is_Some r)))
        (ended f (withFlights (delete f (flights v)) (match r with Some c => withConn (Some c) v | None => v end)))
  | times_out f k v : work (Awaiting f k) v (after k false) (ended f v)
  | ticks a healthy v : work (AtSelect a) v (tick healthy a v) v
  | reconnects a healthy v p' v' : reconnectWithLock healthy a v = (p', v') → work (Checked a) v p' v'.
Definition outcome (p : P) : option bool := match p with Connected => Some true | Failed => Some false | _ => None end.
Definition waiting (p : P) : bool := match p with AtSelect _ => true | _ => false end.
(** The goroutine of an attempt: its [select] may send, for which there is always room, and
    may clean up once the context has ended; where both are ready either can be taken. *)
Inductive env : X → X → Prop :=
  | dialed f v : flights v !! f = Some Dialing →
      env v {| conn := conn v; live := {[next v]} ∪ live v; flights := <[f := Dialed (Some (next v))]> (flights v);
               over := over v; next := S (next v); nextFlight := nextFlight v |}
  | refused f v : flights v !! f = Some Dialing → env v (withFlights (<[f := Dialed None]> (flights v)) v)
  | sends f r v : flights v !! f = Some (Dialed r) → env v (withFlights (<[f := Sent r]> (flights v)) v)
  | gives_up f r v : flights v !! f = Some (Dialed r) → f ∈ over v →
      env v (withFlights (delete f (flights v)) (match r with Some c => withLive (live v ∖ {[c]}) v | None => v end)).

(** ** Who holds a connection *)
Definition heldBy (fl : flight) (c : nat) : bool :=
  match fl with Dialed (Some c') | Sent (Some c') => bool_decide (c = c') | _ => false end.
(** The connection in use is live; every live connection is in use or with one goroutine. *)
Record accounted (v : X) : Prop := {
  a_conn c : conn v = Some c → c ∈ live v;
  a_held f fl c : flights v !! f = Some fl → heldBy fl c = true → c ∈ live v ∧ conn v ≠ Some c;
  a_once f f' fl fl' c : flights v !! f = Some fl → flights v !! f' = Some fl' → heldBy fl c = true → heldBy fl' c = true → f = f';
  a_live c : c ∈ live v → conn v = Some c ∨ ∃ f fl, flights v !! f = Some fl ∧ heldBy fl c = true;
  a_next c : c ∈ live v → c < next v;
  a_flight f fl : flights v !! f = Some fl → f < nextFlight v;
}.
(** The attempt that is waited for; every other one is over. *)
Definition awaited (o : option P) : option nat := match o with Some (Awaiting f _) => Some f | _ => None end.
Definition attemptsOf (p : P) : option Z :=
  match p with Dial (Some a) | Awaiting _ (Some a) | AtSelect a | Checked a => Some a | _ => None end.
Record I (started : bool) (o : option P) (v : X) : Prop := {
  i_accounted : accounted v;
  i_awaited f : awaited o = Some f → f ∉ over v ∧ is_Some (flights v !! f);
  i_over f : is_Some (flights v !! f) → f ∉ over v → awaited o = Some f;
  i_connecting p : o = Some p → match p with Dial _ | Awaiting _ _ | Failed => True | _ => False end → conn v = None;
  i_stopped : started = false → conn v = None;
  i_attempts p a : o = Some p → attemptsOf p = Some a → (0 ≤ a ∧ (0 < maxAttempts → a ≤ maxAttempts))%Z;
  i_overs f : f ∈ over v → f < nextFlight v;
}.
Lemma accounted_same v v' : conn v' = conn v → live v' = live v → flights v' = flights v → next v' = next v → nextFlight v' = nextFlight v →
  accounted v → accounted v'.
Proof. intros E1 E2 E3 E4 E5 []. split; rewrite ?E1, ?E2, ?E3, ?E4, ?E5; done. Qed.
Lemma disconnect_accounted v : accounted v → accounted (disconnect v).
Proof.
  intros H. unfold disconnect. destruct (conn v) as [c|] eqn:Ec; [|done]. destruct H as [Hc Hh Ho Hl Hn Hf].
  split; simpl; [done| |done| | |done].
  - intros f fl c' Hfl Hb. destruct (Hh f fl c' Hfl Hb) as [Hin Hne]. rewrite Ec in Hne. set_solver.
  - intros c' [Hin Hne]%elem_of_difference. destruct (Hl c' Hin) as [E|?]; [|by right]. rewrite Ec in E. set_solver.
  - intros c' [Hin _]%elem_of_difference. auto.
Qed.
Lemma disconnect_conn v : conn (disconnect v) = None.
Proof. unfold disconnect. by destruct (conn v) eqn:E. Qed.
Lemma disconnect_rest v : flights (disconnect v) = flights v ∧ over (disconnect v) = over v ∧ nextFlight (disconnect v) = nextFlight v.
Proof. unfold disconnect. by destruct (conn v). Qed.
(** An attempt that gets to know nothing new, or ends, or takes its connection with it. *)
Lemma accounted_flight v f fl fl' : flights v !! f = Some fl → (∀ c, heldBy fl' c = heldBy fl c) → accounted v →
  accounted (withFlights (<[f := fl']> (flights v)) v).
Proof.
  intros Hf Hsame [Hc Hh Ho Hl Hn Hff].
  assert (∀ g gl c, <[f := fl']> (flights v) !! g = Some gl → heldBy gl c = true → ∃ gl', flights v !! g = Some gl' ∧ heldBy gl' c = true) as Hback.
  { intros g gl c. destruct (decide (f = g)) as [->|Hne]; [rewrite lookup_insert_eq|rewrite lookup_insert_ne by done]; intros; simplify_eq; eauto. }
  split; simpl; [done| | | |done|].
  - intros g gl c Hg Hb. destruct (Hback g gl c Hg Hb) as (? & ? & ?); eauto.
  - intros g g' gl gl' c H1 H2 H3 H4. destruct (Hback g gl c H1 H3) as (? & ? & ?), (Hback g' gl' c H2 H4) as (? & ? & ?); eauto.
  - intros c Hin. destruct (Hl c Hin) as [?|(g & gl & Hg & Hb)]; [by left|right]. destruct (decide (f = g)) as [->|Hne].
    + exists g, fl'. rewrite lookup_insert_eq, Hsame. by simplify_eq.
    + exists g, gl. by rewrite lookup_insert_ne.
  - intros g gl. destruct (decide (f = g)) as [->|Hne]; [intros; eauto|rewrite lookup_insert_ne by done; eauto].
Qed.
Lemma accounted_drop v f fl o : flights v !! f = Some fl → (∀ c, heldBy fl c = bool_decide (o = Some c)) → accounted v →
  accounted (withFlights (delete f (flights v)) (match o with Some c => withLive (live v ∖ {[c]}) v | None => v end)).
Proof.
  intros Hf Hfl [Hc Hh Ho Hl Hn Hff].
  assert (∀ c, o = Some c → heldBy fl c = true) as Ho' by (intros c ->; rewrite Hfl; by apply bool_decide_eq_true).
  assert (∀ g gl c, delete f (flights v) !! g = Some gl → heldBy gl c = true → flights v !! g = Some gl ∧ o ≠ Some c) as Hrest.
  { intros g gl c [Hne Hg]%lookup_delete_Some Hb. split; [done|]. intros E. apply Hne. eapply Ho; eauto. }
  assert (∀ c, c ∈ live v → conn v = Some c ∨ (∃ g gl, delete f (flights v) !! g = Some gl ∧ heldBy gl c = true) ∨ o = Some c) as Hlive.
  { intros c Hin. destruct (Hl c Hin) as [?|(g & gl & Hg & Hb)]; [by left|]. right. destruct (decide (g = f)) as [->|Hne].
    - simplify_eq. rewrite Hfl in Hb. right. by apply bool_decide_eq_true in Hb.
    - left. exists g, gl. by rewrite lookup_delete_ne. }
  destruct o as [c|]; split; simpl.
  - intros c' E. assert (c' ≠ c); [|set_solver]. intros ->. by destruct (Hh f fl c Hf (Ho' c eq_refl)).
  - intros g gl c' Hg Hb. destruct (Hrest g gl c' Hg Hb) as [Hg' Hne]. destruct (Hh g gl c' Hg' Hb). set_solver.
  - intros g g' gl gl' c' H1 H2 H3 H4. destruct (Hrest g gl c' H1 H3), (Hrest g' gl' c' H2 H4). eauto.
  - intros c' [Hin Hne]%elem_of_difference. destruct (Hlive c' Hin) as [?|[?|?]]; [by left|by right|set_solver].
  - set_solver.
  - intros g gl [_ Hg]%lookup_delete_Some. eauto.
  - done.
  - intros g gl c' Hg Hb. destruct (Hrest g gl c' Hg Hb) as [Hg' _]. eauto.
  - intros g g' gl gl' c' H1 H2 H3 H4. destruct (Hrest g gl c' H1 H3), (Hrest g' gl' c' H2 H4). eauto.
  - intros c' Hin. destruct (Hlive c' Hin) as [?|[?|?]]; [by left|by right|done].
  - done.
  - intros g gl [_ Hg]%lookup_delete_Some. eauto.
Qed.
Lemma accounted_take v f c : flights v !! f = Some (Sent (Some c)) → conn v = None → accounted v →
  accounted (withFlights (delete f (flights v)) (withConn (Some c) v)).
Proof.
  intros Hf Hcn [Hc Hh Ho Hl Hn Hff].
  assert (heldBy (Sent (Some c)) c = true) as Hb by (simpl; by apply bool_decide_eq_true).
  split; simpl; [|..|done|].
  - intros c' E. injection E as <-. by destruct (Hh f _ c Hf Hb).
  - intros g gl c' [Hne Hg]%lookup_delete_Some Hb'. split; [by destruct (Hh g gl c' Hg Hb')|]. intros E. simplify_eq. apply Hne. eauto.
  - intros g g' gl gl' c' [_ H1]%lookup_delete_Some [_ H2]%lookup_delete_Some. eauto.
  - intros c' Hin. destruct (Hl c' Hin) as [?|(g & gl & Hg & Hb')]; [by rewrite Hcn in *|].
    destruct (decide (g = f)) as [->|Hne]; [left|right; exists g, gl; by rewrite lookup_delete_ne].
    simplify_eq/=. apply bool_decide_eq_true in Hb'. by subst.
  - intros g gl [_ Hg]%lookup_delete_Some. eauto.
Qed.
(** A new attempt, and a connection that is made. *)
Lemma accounted_dial v : accounted v →
  accounted {| conn := conn v; live := live v; flights := <[nextFlight v := Dialing]> (flights v); over := over v;
               next := next v; nextFlight := S (nextFlight v) |}.
Proof.
  intros [Hc Hh Ho Hl Hn Hff].
  assert (∀ g gl c, <[nextFlight v := Dialing]> (flights v) !! g = Some gl → heldBy gl c = true → flights v !! g = Some gl) as Hold.
  { intros g gl c [[<- <-]|[_ Hg]]%lookup_insert_Some Hb; done. }
  split; simpl; [done|..|done|].
  - intros g gl c Hg Hb. eauto.
  - intros g g' gl gl' c H1 H2 H3 H4. eauto.
  - intros c Hin. destruct (Hl c Hin) as [?|(g & gl & Hg & Hb)]; [by left|right]. exists g, gl. split; [|done].
    rewrite lookup_insert_ne; [done|]. apply Hff in Hg. lia.
  - intros g gl [[<- <-]|[_ Hg]]%lookup_insert_Some; [lia|]. apply Hff in Hg. lia.
Qed.
Lemma accounted_connected v f : flights v !! f = Some Dialing → accounted v →
  accounted {| conn := conn v; live := {[next v]} ∪ live v; flights := <[f := Dialed (Some (next v))]> (flights v);
               over := over v; next := S (next v); nextFlight := nextFlight v |}.
Proof.
  intros Hf [Hc Hh Ho Hl Hn Hff].
  assert (∀ g gl c, <[f := Dialed (Some (next v))]> (flights v) !! g = Some gl → heldBy gl c = true →
            g = f ∧ c = next v ∨ flights v !! g = Some gl ∧ c ∈ live v) as Hold.
  { intros g gl c [[<- <-]|[_ Hg]]%lookup_insert_Some Hb; [left|right; by destruct (Hh g gl c Hg Hb)].
    simpl in Hb. by apply bool_decide_eq_true in Hb. }
  split; simpl.
  - intros c E. apply Hc in E. set_solver.
  - intros g gl c Hg Hb. destruct (Hold g gl c Hg Hb) as [[-> ->]|[Hg' Hin]].
    + split; [set_solver|]. intros E. apply Hc, Hn in E. lia.
    + split; [set_solver|]. by destruct (Hh g gl c Hg' Hb).
  - intros g g' gl gl' c H1 H2 H3 H4. destruct (Hold g gl c H1 H3) as [[-> E]|[? Hin]], (Hold g' gl' c H2 H4) as [[-> E']|[? Hin']]; simplify_eq/=.
    + done.
    + apply Hn in Hin'. lia.
    + apply Hn in Hin. lia.
    + eauto.
  - intros c [->%elem_of_singleton|Hin]%elem_of_union.
    + right. exists f, (Dialed (Some (next v))). rewrite lookup_insert_eq. split; [done|]. by apply bool_decide_eq_true.
    + destruct (Hl c Hin) as [?|(g & gl & Hg & Hb)]; [by left|right]. exists g, gl. rewrite lookup_insert_ne; [done|]. intros ->. by simplify_eq.
  - intros c [->%elem_of_singleton|Hin]%elem_of_union; [lia|]. apply Hn in Hin. lia.
  - intros g gl [[<- <-]|[_ Hg]]%lookup_insert_Some; eauto.
Qed.
(** The end of an attempt, whatever it gave. *)
Lemma ended_I f k ok v v' : I true (Some (Awaiting f k)) v → accounted v' → (ok = false → conn v' = None) →
  over v' = {[f]} ∪ over v → (∀ g, is_Some (flights v' !! g) → is_Some (flights v !! g)) → nextFlight v' = nextFlight v →
  I true (Some (after k ok)) v'.
Proof.
  intros [Ha Haw Hov Hcon _ Hat Hovs] Hacc Hc Eo Ef En. split; rewrite ?Eo, ?En; [done| | | |done| |].
  - by destruct k, ok.
  - intros g Hg Hno. apply Ef in Hg. specialize (Hov g Hg ltac:(set_solver)). simpl in Hov. set_solver.
  - intros p [= <-]. destruct k, ok; simpl; try done; auto.
  - intros p a [= <-]. specialize (Hat _ (default 0%Z k) eq_refl). destruct k as [a'|], ok; simpl in *; intros; simplify_eq; [lia|by apply Hat].
  - intros g [->%elem_of_singleton|Hg]%elem_of_union; [|auto].
    destruct (Haw f eq_refl) as [_ [fl Hfl]]. by eapply (a_flight _ Ha).
Qed.
Lemma move_I p p' v v' : I true (Some p) v → awaited (Some p) = None → awaited (Some p') = None →
  flights v' = flights v ∧ over v' = over v ∧ nextFlight v' = nextFlight v → accounted v' →
  (match p' with Dial _ | Awaiting _ _ | Failed => True | _ => False end → conn v' = None) →
  (∀ a, attemptsOf p' = Some a → 0 ≤ a ∧ (0 < maxAttempts → a ≤ maxAttempts))%Z → I true (Some p') v'.
Proof.
  intros [_ Haw Hov _ _ _ Hovs] E E' (Ef & Eo & En) Hacc Hc Ha. split; rewrite ?Ef, ?Eo, ?En, ?E'; try done.
  - by rewrite E in Hov.
  - intros q E0. injection E0 as <-. exact Hc.
  - intros q a E0. injection E0 as <-. apply Ha.
Qed.
Lemma work_I p v p' v' : work p v p' v' → I true (Some p) v → I true (Some p') v'.
Proof.
  intros [k u|f k r u Hf|f k u|a h u|a h u q u' E] HI; pose proof (i_accounted _ _ _ HI) as Hacc.
  - destruct HI as [_ Haw Hov Hcon _ Hat Hovs]. split; simpl; [by apply accounted_dial| | |intros ? _ _; by eapply Hcon|done| |].
    + intros f [= <-]. split; [intros Hin; apply Hovs in Hin; lia|]. by rewrite lookup_insert_eq.
    + intros f [fl [[<- _]|[_ Hfl]]%lookup_insert_Some] Hno; [done|]. specialize (Hov f (mk_is_Some _ _ Hfl) Hno). done.
    + intros p0 a [= <-] E. apply (Hat _ a eq_refl). by destruct k.
    + intros f Hin. apply Hovs in Hin. lia.
  - eapply ended_I; [exact HI|..]; simpl.
    + eapply (accounted_same (withFlights (delete f (flights u)) (match r with Some c => withConn (Some c) u | None => u end))); [done..|].
      destruct r as [c|]; [apply accounted_take; try done; eapply (i_connecting _ _ _ HI); done|].
      by apply (accounted_drop u f _ None Hf).
    + intros E. destruct r; [done|]. simpl. by eapply (i_connecting _ _ _ HI).
    + by destruct r.
    + intros g [fl [_ Hg]%lookup_delete_Some]. done.
    + by destruct r.
  - eapply ended_I; [exact HI|by apply (accounted_same u)|..]; simpl; try done. intros _. by eapply (i_connecting _ _ _ HI).
  - unfold tick; repeat case_match; (eapply move_I; [exact HI|done..|]).
    all: simpl; intros b E; injection E as <-; specialize (i_attempts _ _ _ HI _ a eq_refl eq_refl); lia.
  - revert E. unfold reconnectWithLock. destruct (exhausted a) eqn:Ex.
    { intros [= <- <-]. eapply move_I; [exact HI|done..|]. intros b E. by apply (i_attempts _ _ _ HI (Checked a) b). }
    assert (0 ≤ a + 1 ∧ (0 < maxAttempts → a + 1 ≤ maxAttempts))%Z as Ha.
    { specialize (i_attempts _ _ _ HI _ a eq_refl eq_refl). unfold exhausted in Ex. lia. }
    destruct (conn u) as [c|] eqn:Ec; [destruct h|]; intros [= <- <-].
    + eapply move_I; try done. simpl. intros b E. injection E as <-. lia.
    + eapply move_I; try done; [apply disconnect_rest|by apply disconnect_accounted|intros _; apply disconnect_conn|].
      simpl. intros b E. by injection E as <-.
    + eapply move_I; try done. simpl. intros b E. by injection E as <-.
Qed.
Lemma flights_I b o v v' : I b o v → accounted v' → conn v' = conn v → over v' = over v → nextFlight v' = nextFlight v →
  (∀ g, is_Some (flights v' !! g) → is_Some (flights v !! g)) →
  (∀ g, g ∉ over v → is_Some (flights v !! g) → is_Some (flights v' !! g)) → I b o v'.
Proof.
  intros [_ Haw Hov Hcon Hst Hat Hovs] Hacc Ec Eo En Hback Hforth. split; rewrite ?Ec, ?Eo, ?En; try done.
  - intros f Hf. destruct (Haw f Hf). auto.
  - auto.
Qed.
Lemma env_I b o v v' : env v v' → I b o v → I b o v'.
Proof.
  intros [f u Hf|f u Hf|f r u Hf|f r u Hf Hov] HI; pose proof (i_accounted _ _ _ HI) as Hacc; (eapply flights_I; [exact HI|..]); simpl; try done.
  1: by apply accounted_connected.
  3: by eapply accounted_flight.
  5: by eapply accounted_flight.
  all: try (by destruct r).
  all: try (intros g; rewrite lookup_insert_is_Some'; naive_solver).
  - eapply (accounted_drop _ _ _ r Hf); [|done]. intros c. destruct r; simpl; [|done]. apply bool_decide_ext. naive_solver.
  - intros g [fl [_ Hg]%lookup_delete_Some]. eauto.
  - intros g Hg Hs. rewrite lookup_delete_ne; [done|]. by intros ->.
Qed.
Lemma connection_laws : laws (Dial None) (AtSelect 0) work outcome waiting disconnect env I.
Proof.
  split.
  - intros v [Hacc Haw Hov Hcon Hst _ Hovs]. split; try done; [by intros p [= <-]; auto|by intros p a [= <-]].
  - intros; by eapply work_I.
  - intros p v Hp HI. destruct p; try done. eapply move_I; try done; [apply HI|]. simpl. intros a [= <-]. lia.
  - intros p v Hp [Hacc Haw Hov Hcon Hst _ Hovs]. destruct p; try done. split; try done. intros _. by eapply Hcon.
  - intros p v Hp [Hacc Haw Hov Hcon Hst _ Hovs]. destruct p; try done.
  - intros v [Hacc Haw Hov Hcon Hst _ Hovs]. destruct (disconnect_rest v) as (E1 & E2 & E3).
    split; rewrite ?E1, ?E2, ?E3; try done; [by apply disconnect_accounted|intros _; apply disconnect_conn].
  - intros; by eapply env_I.
Qed.

(** ** The whole *)
Lemma x0_I : I false None x0.
Proof. split; try done; simpl. by intros f [? ?]. Qed.
Definition cstep (serial : bool) := step (Dial None) (AtSelect 0) work outcome waiting disconnect env serial.
Definition begun : sys (X:=X) (P:=P) := initial x0.
(** With [Start] and [Stop] called one after the other: there is one monitor at most; the
    connection in use is open; a connection that is open is in use or held by the goroutine
    of one attempt; and while the manager is stopped nothing is in use, and such a goroutine
    is of an attempt that was given up.  The monitor counts its failed attempts and makes no
    more than the configured number in a row. *)
Theorem connection_managed σ : rtc (cstep true) begun σ → let v := x (sh σ) in
  panicked (sh σ) = false ∧ count isRun (threads σ) ≤ 1 ∧
  (∀ c, conn v = Some c → c ∈ live v) ∧
  (∀ c, c ∈ live v → conn v = Some c ∨ ∃ f fl, flights v !! f = Some fl ∧ heldBy fl c = true) ∧
  (started (sh σ) = false → count isRun (threads σ) = 0 ∧ conn v = None ∧ ∀ f, is_Some (flights v !! f) → f ∈ over v) ∧
  (∀ t p a, t ∈ threads σ → placeOf (AtSelect 0) t = Some p → attemptsOf p = Some a → 0 < maxAttempts → a ≤ maxAttempts)%Z.
Proof.
  intros Hr v. destruct (lifecycle _ _ _ _ _ _ _ _ true I (or_introl eq_refl) σ connection_laws x0_I Hr) as [Hp Hs].
  specialize (Hp eq_refl). destruct (Hs Hp) as (Hn & (b & o & HI) & Hk & Hst). pose proof (i_accounted _ _ _ HI) as Hacc.
  split_and!; [done|done|apply (a_conn _ Hacc)|apply (a_live _ Hacc)| |].
  - intros E. destruct (Hst E) as [Hz HI']. split_and!; [done|by apply (i_stopped _ _ _ HI')|].
    intros f Hf. destruct (decide (f ∈ over v)) as [?|Hno]; [done|]. by specialize (i_over _ _ _ HI' f Hf Hno).
  - intros t p a Ht Hpl Ha Hm. by apply (i_attempts _ _ _ (Hk t p Ht Hpl) p a).
Qed.

(** ** What can go wrong *)
(** A connection that was put into the channel of an attempt given up stays there, open. *)
Definition leaked (c : nat) (v : X) : Prop := ∃ f, f ∈ over v ∧ flights v !! f = Some (Sent (Some c)).
Definition I_leaked (c : nat) (b : bool) (o : option P) (v : X) : Prop := I b o v ∧ leaked c v.
Lemma leaked_laws c : laws (Dial None) (AtSelect 0) work outcome waiting disconnect env (I_leaked c).
Proof.
  destruct connection_laws as [L1 L2 L3 L4 L5 L6 L7].
  split; try (intros; match goal with H : I_leaked _ _ _ _ |- _ => destruct H as [HI Hl] end; split; [eauto|try exact Hl]).
  - match goal with H : work _ _ _ _ |- _ => destruct H as [k u|f k r u Hf|f k u|a h u|a h u q u' E] end; destruct Hl as (g & Hg & Hfg); simpl in *.
    + exists g. simpl. split; [done|]. rewrite lookup_insert_ne; [done|]. apply (a_flight _ (i_accounted _ _ _ HI)) in Hfg. lia.
    + destruct (i_awaited _ _ _ HI f eq_refl) as [Hno _]. exists g. destruct r; simpl; (split; [set_solver|]); rewrite lookup_delete_ne; [done| |done|]; by intros ->.
    + exists g. split; [set_solver|done].
    + by exists g.
    + exists g. revert E. unfold reconnectWithLock. destruct (disconnect_rest u) as (E1 & E2 & E3).
      repeat case_match; intros [= <- <-]; rewrite ?E1, ?E2; done.
  - destruct Hl as (g & Hg & Hfg). destruct (disconnect_rest v) as (E1 & E2 & E3). exists g. by rewrite E1, E2.
  - match goal with H : env _ _ |- _ => destruct H as [f u Hf|f u Hf|f r u Hf|f r u Hf Hov] end; destruct Hl as (g & Hg & Hfg); exists g; simpl.
    1-3: split; [done|]; rewrite lookup_insert_ne; [done|]; intros ->; by simplify_eq.
    destruct r; simpl; (split; [done|]); rewrite lookup_delete_ne; [done| |done|]; intros ->; by simplify_eq.
Qed.
Lemma leaked_live c b o v : I_leaked c b o v → c ∈ live v ∧ conn v ≠ Some c.
Proof. intros [HI (f & _ & Hf)]. eapply (a_held _ (i_accounted _ _ _ HI)); [exact Hf|]. simpl. by apply bool_decide_eq_true. Qed.
Lemma leak_stays c σ σ' : rtc (cstep true) σ σ' →
  safe (AtSelect 0) true (I_leaked c) σ → c ∈ live (x (sh σ')) ∧ conn (x (sh σ')) ≠ Some c.
Proof.
  intros Hr HS. assert (safe (AtSelect 0) true (I_leaked c) σ') as [Hp Hs].
  { revert HS. induction Hr as [|σ1 σ2 σ3 Hs _ IH]; [done|]. intros HS. apply IH. eapply (step_safe _ _ _ _ _ _ _ x0 true _ (or_introl eq_refl)); [apply leaked_laws|exact Hs|exact HS]. }
  destruct (Hs (Hp eq_refl)) as [_ (b & o & HI)%kept_some]. by eapply leaked_live.
Qed.
End Connecting.
End Connection.

Module ConnectionExamples.
Import Lifecycle Connection.
#[local] Ltac thread_ i tac := eapply rtc_l; [eapply (step_at _ _ _ _ _ _ _ _ i); [reflexivity|reflexivity|tac]|cbn].
#[local] Ltac calls t := eapply rtc_l; [apply (step_call _ _ _ _ _ _ _ _ _ _ t); [reflexivity|by auto|done]|cbn].
#[local] Ltac env_ tac := eapply rtc_l; [eapply step_env; [reflexivity|tac]|cbn].
(** [Start] gives up after its timeout, and the goroutine, whose connection is made later,
    sends it into the channel that nobody reads: the [select] finds room there as well as
    its context ended.  Nothing ever disconnects it, whatever is called afterwards. *)
Lemma late_connection_leaks maxAttempts : ∃ σ, rtc (cstep maxAttempts true) begun σ ∧ started (sh σ) = false ∧ threads σ = [] ∧
  ∀ σ', rtc (cstep maxAttempts true) σ σ' → 0 ∈ live (x (sh σ')) ∧ conn (x (sh σ')) ≠ Some 0.
Proof.
  eexists. assert (∀ A B C D : Prop, A → B → C → (A → D) → A ∧ B ∧ C ∧ D) as Hand by tauto. apply Hand; clear Hand.
  { calls (@Starting P). thread_ 0 ltac:(by constructor). thread_ 0 ltac:(constructor; apply dials).
    thread_ 0 ltac:(constructor; apply times_out). thread_ 0 ltac:(by apply start_fails).
    env_ ltac:(by apply (dialed 0)). env_ ltac:(by apply (sends 0 (Some 0))). apply rtc_refl. }
  1,2: done.
  intros Hr σ' Hσ.
  destruct (reachable_safe _ _ _ _ _ _ _ _ _ _ (or_introl eq_refl) _ (connection_laws maxAttempts) (x0_I _) Hr) as [Hp Hs].
  destruct (Hs (Hp eq_refl)) as [HO [_ Hn]].
  eapply leak_stays; [exact Hσ|]. split; [exact Hp|]. intros _. split; [exact HO|]. split; [by intros t p Ht%not_elem_of_nil|]. intros _.
  split; [by apply Hn|]. by exists 0.
Qed.
(** A [Stop] called while [Start] connects closes the channel and waits for the monitor; the
    connection fails, no monitor was started, and [Stop] never returns, though [Start] can
    be called again. *)
Lemma stop_during_failing_start maxAttempts : ∃ σ, rtc (cstep maxAttempts false) begun σ ∧ started (sh σ) = false ∧
  ∀ σ', rtc (cstep maxAttempts false) σ σ' → Waiting 1 true ∈ threads σ'.
Proof.
  eexists. split; [|split].
  { calls (@Starting P). thread_ 0 ltac:(by constructor). thread_ 0 ltac:(constructor; apply dials).
    calls (@Stopping P). thread_ 1 ltac:(by apply stop_checks). thread_ 1 ltac:(by apply stop_open).
    thread_ 1 ltac:(by apply stop_closes). thread_ 1 ltac:(apply stop_reads).
    thread_ 0 ltac:(constructor; apply times_out). thread_ 0 ltac:(by apply start_fails). apply rtc_refl. }
  { done. }
  intros σ' Hr. eapply abandoned_forever; [exact x0|exact Hr|]. repeat split; simpl; [set_solver|lia| |set_solver].
  intros p Hp%list_elem_of_singleton. done.
Qed.
(** Two calls of [Stop] at once can both find the channel open: the second close panics. *)
Lemma two_stops_panic maxAttempts : ∃ σ, rtc (cstep maxAttempts false) begun σ ∧ panicked (sh σ) = true.
Proof.
  eexists. split.
  { calls (@Starting P). thread_ 0 ltac:(by constructor). thread_ 0 ltac:(constructor; apply dials).
    env_ ltac:(by apply (dialed 0)). env_ ltac:(by apply (sends 0 (Some 0))).
    thread_ 0 ltac:(constructor; by apply (receives _ 0 None (Some 0))). thread_ 0 ltac:(by apply start_done).
    calls (@Stopping P). calls (@Stopping P). thread_ 1 ltac:(by apply stop_checks). thread_ 2 ltac:(by apply stop_checks).
    thread_ 1 ltac:(by apply stop_open). thread_ 2 ltac:(by apply stop_open). thread_ 1 ltac:(by apply stop_closes).
    thread_ 2 ltac:(by apply stop_panics). apply rtc_refl. }
  done.
Qed.
End ConnectionExamples.
