(* ===== verification/V1Loop.v ===== *)
(** * The version 1 agent's reconciliation loop (agent/reconciler/reconciler.go)

    When a pass of V1Agent runs: the loop's ticks and triggers, changes of the
    configuration, and starting and stopping, as an instance of the pattern of Lifecycle. *)

From stdpp Require Import base tactics list gmap relations.
From S2P Require Import Prelude Types Net Models Vpp VppSim V1State V1Agent Lifecycle.

Module V1Loop.
Import Lifecycle V1State.
Section Loop.
(** A pass, [V1Reconciler.reconcile] of V1Agent over some world. *)
Context {W : Type}.
Variable reconcile : Manager → W → W.
(** [pending]: whether [reconcileCh] is full; [updating]: the calls of [OnConfigChange]
    between their two statements.  [unseen] is not in the code: whether the configuration
    changed since a pass last read it, or since the loop was started. *)
Record X := { wanted : Manager; pending : bool; updating : nat; world : W; unseen : bool }.
Inductive P := Making | Made | AtSelect | Called | Passing (m : Manager).
Definition markPending (b : bool) (v : X) : X :=
  {| wanted := wanted v; pending := b; updating := updating v; world := world v; unseen := unseen v |}.
Definition seen (v : X) : X :=
  {| wanted := wanted v; pending := pending v; updating := updating v; world := world v; unseen := false |}.
Inductive work : P → X → P → X → Prop :=
  | makes v : work Making v Made (markPending false (seen v))
  | ticks v : work AtSelect v Called v
  | triggered v : pending v = true → work AtSelect v Called (markPending false v)
  | reads v : work Called v (Passing (wanted v)) (seen v)
  | passes m v : work (Passing m) v AtSelect
      {| wanted := wanted v; pending := pending v; updating := updating v; world := reconcile m (world v); unseen := unseen v |}.
Definition outcome (p : P) : option bool := match p with Made => Some true | _ => None end.
Definition waiting (p : P) : bool := match p with AtSelect => true | _ => false end.
(** [OnConfigChange], which ends with [TriggerReconcile]: the channel takes one trigger, and
    another is dropped. *)
Inductive env : X → X → Prop :=
  | updates c v : env v {| wanted := UpdateConfig c; pending := pending v; updating := S (updating v); world := world v; unseen := true |}
  | triggers n v : updating v = S n → env v {| wanted := wanted v; pending := true; updating := n; world := world v; unseen := unseen v |}.
Definition I (started : bool) (o : option P) (v : X) : Prop :=
  o = Some Making ∨ (unseen v = true → pending v = true ∨ 0 < updating v ∨ o = Some Called).
Lemma loop_laws : laws Making AtSelect work outcome waiting (λ v, v) env I.
Proof.
  split; unfold I.
  - by left.
  - intros p v p' v' Hw HI. right. destruct Hw; simpl in *; try done; destruct HI as [|HI]; try done; intros Hu; auto;
      destruct (HI Hu) as [?|[?|?]]; try done; auto.
  - intros p v Hp [E|HI]; [by simplify_eq|]. right. intros Hu. destruct (HI Hu) as [?|[?|?]]; auto. by simplify_eq.
  - by intros [].
  - intros p v Hp [E|HI]; [by simplify_eq|]. right. intros Hu. destruct (HI Hu) as [?|[?|?]]; auto. by simplify_eq.
  - intros v H. exact H.
  - intros b o v v' He [|HI]; [by left|]. right. destruct He; simpl; [intros _; right; left; lia|auto].
Qed.
Definition loopStep (serial : bool) := step Making AtSelect work outcome waiting (λ v, v) env serial.
(** However many goroutines start and stop the loop, and whenever the configuration changes:
    unless two calls of [Stop] met in a panic, one pass at most runs at a time, and none once
    the loop is stopped; and a configuration that no pass has read yet has its trigger
    pending, or about to be sent, or taken by a pass that is about to read. *)
Theorem loop_notices serial w σ : rtc (loopStep serial)
    (initial {| wanted := NewManager; pending := false; updating := 0; world := w; unseen := false |}) σ →
  (serial = true → panicked (sh σ) = false) ∧
  (panicked (sh σ) = false →
   count isRun (threads σ) ≤ 1 ∧ (started (sh σ) = false → count isRun (threads σ) = 0) ∧
   (unseen (x (sh σ)) = true → ∀ t p, t ∈ threads σ → placeOf AtSelect t = Some p → p ≠ Making →
    pending (x (sh σ)) = true ∨ 0 < updating (x (sh σ)) ∨ p = Called)).
Proof.
  intros Hr.
  assert (serial = true ∨ ∀ p, outcome p ≠ Some false) as Hstarts by (right; by intros []).
  assert (I false None {| wanted := NewManager; pending := false; updating := 0; world := w; unseen := false |}) as H0 by (by right).
  destruct (lifecycle _ _ _ _ _ _ _ _ serial I Hstarts σ loop_laws H0 Hr) as [Hp Hs].
  split; [exact Hp|]. intros E. destruct (Hs E) as (Hn & _ & Hk & Hst). split_and!; [done|intros Ef; by apply Hst|].
  intros Hu t p Ht Hpl Hm. destruct (Hk t p Ht Hpl) as [[= ->]|HI]; [done|]. destruct (HI Hu) as [?|[?|[= ->]]]; auto.
Qed.
End Loop.

Section Agent.
Import Vpp Models V1Lb V1Sync V1Reconciler.
Context {E : Type} `{!VPPConn E} `{!Streams E} `{!MapOrder E} `{!HealthCheckManager E}.
(** The agent's loop. *)
Definition agentLoop (cfg : VPPLBConfig) (hasHealthChecker serial : bool) :=
  loopStep (W := Syncer * E) (λ m p, (V1Reconciler.reconcile cfg hasHealthChecker m p).2) serial.
End Agent.
End V1Loop.
